(* ===== verification/_CoqProject ===== *)
-Q . S2P
Prelude.v
Word.v
Errno.v
Bytes.v
Heap.v
HeapSpec.v
RbTree.v
ThreadQueue.v
ReadyQueue.v
PhysPaging.v
LowMem.v
CString.v
Creds.v
Printk.v
Pipe.v
Irq.v
MemInit.v
Efi.v
PeBuild.v
PageMap.v
VirtPaging.v
Printf.v
Fd.v
FileSystem.v
FileData.v
Initrd.v
InitrdSpec.v
OpenFiles.v
Malloc.v
FreeList.v
MallocSpec.v
BufferedIO.v
Strtod.v
Programs.v
ProgramsSpec.v
Process.v
Mmap.v
MmapSpec.v
Thread.v
ThreadSpec.v
IoApic.v
Acpi.v
AcpiSpec.v
LocalApic.v
Keys.v
Font.v
Tty.v
Signal.v
SignalSpec.v
Exec.v
ExecSpec.v
TtySpec.v
TtyTotal.v
Ps2.v
Console.v
