(* ===== verification/Prelude.v ===== *)
(** * MiraiOS: a verification library of the kernel and its C library

    MiraiOS is a small 64-bit operating system in C: a kernel (memory,
    scheduling, processes, a RAM file system, terminals), a C library, a shell
    and a few commands.  This library models the parts whose behaviour is
    decided by the code of the repository, file by file and function by
    function, and proves what makes them correct.  It is a shallow embedding:
    a C function is a Rocq function of the same name in a monad of explicit
    state passing; a fault (a wild or null pointer, an index out of bounds, a
    spinlock taken twice) and a loop that needs more turns than its fuel are
    outcomes of their own, so that "the code returns and the result is right" is
    one statement ([wp] below).

    ** Conventions

    - Numbers are [Z]; the width of a C type is written out with [u8], [u32],
      [u64], [s32] (file [Word]) wherever the C program can wrap.
    - Objects live in stores (a [gmap] from addresses, or the words or bytes of
      a memory); a pointer is an address, [NULL] is 0, a freed object is gone.
      Aliasing is therefore what it is in C.
    - Structs are records with the fields of the source, enums are inductive
      types or the numbers of the header files.
    - Locks are fields.  Where one thread is modelled, taking a lock that is held
      is a fault (that thread would spin for ever); where the interleaving is
      the point ([Pipe], [ReadyQueue]) threads are step relations.
    - Code that a part calls and another file models, or that is not part of the
      repository, is a type class of operations; what theorems use of it is a
      second class of laws, whose name ends in [Ok].  Every such class has an
      instance for the witnesses, or the model of another file as an instance.
    - Each property with hypotheses is followed, at the end of its file, by a
      [_witness]: the theorem at a concrete state.  Behaviour that is not what
      the code means to do is stated as it is, on a closed example or as a
      theorem.

    ** The files

    Foundations
    - [Prelude]: outcomes, the state monad, [wp] with its rules and the rewrite
      base [wp]; [dlia] for division and modulo by constants.
    - [Word]: C integer types.  [Errno]: the error numbers of [errno.h].
    - [Bytes]: texts and words in a memory of bytes.

    Memory
    - [Heap], [HeapSpec]: [kernel/mm/heap.c].  Boundary tags, word by word;
      [heap_rep] says which blocks clients hold, and [kmalloc], [kfree],
      [krealloc], [kzalloc] are specified on that set alone.
    - [PhysPaging]: [mm/physpaging.c], the stacks of free pages that live in
      free pages.  [LowMem]: [mm/lowmem.c], the bitmap of the first 16 MiB.
      [MemInit]: [arch/x86_64/mm/init.c], the boot memory map.  [Efi]:
      [arch/x86_64/init/efi/main.c] and [initrd.c], the boot loader that makes
      that map.  [PeBuild]: [efi/tools/build.c], the header of its image.
    - [PageMap]: [arch/x86_64/mm/map.c], the four levels of page tables through
      their recursive entry.  [VirtPaging]: [arch/x86_64/mm/virtpaging.c], kernel
      address space as a list in unused page entries.
    - [Mmap], [MmapSpec]: [mm/mmap.c], [mm/cow.c] and the copy of a memory map in
      [main/fork.c].  The list of entries of a process refines a function from
      addresses to flags and backing.

    Threads and processes
    - [RbTree]: [lib/rbtree.c].
    - [ThreadQueue]: [sched/queue.c], linked queues in a shared store, refined to
      lists.  [ReadyQueue]: [sched/readyqueue.c], [sched/lock.c], [sched/sleep.c]
      on that store; semaphores refine counters with a queue of waiters.
    - [Thread], [ThreadSpec]: [sched/thread.c] on both: threads are made,
      scheduled by the timer, stopped and joined.
    - [Creds]: the ids of [sched/pgrp.c].  [Process]: [main/fork.c],
      [main/exit.c] and the groups and sessions of [sched/pgrp.c], on the trees
      of [RbTree].
    - [Exec], [ExecSpec]: [main/exec.c], ELF files and the arguments of a program.
    - [Signal], [SignalSpec]: [arch/x86_64/sched/signal.c], sending signals, starting
      handlers and returning from them.
    - [Irq]: [main/irq.c], vectors and their handlers.  [IoApic]:
      [arch/x86_64/irq/ioapic.c], lines routed to vectors.  [Acpi], [AcpiSpec]:
      [arch/x86_64/acpi], the tables that say which processors and lines there
      are.  [LocalApic]: [cpu/lapic.c], [cpu/tssgdt.c] and the early
      initialization of [arch/x86_64/main.c].
    - [Printk]: [main/print.c].

    Files
    - [FileSystem]: [fs/main.c], [dircache.c], [open.c], [link.c], [rename.c],
      [devfile.c], [stat.c].  [FileData]: [fs/readwrite.c], the pages of a file.
    - [Initrd], [InitrdSpec]: [fs/initrd.c], the archive of the boot loader as
      the first file system.
    - [Fd]: [fs/syscalls.c] and the system calls of [fs/pipe.c] on any file
      system of the class [Vfs].  [Pipe]: reader and writer of [fs/pipe.c] as
      interleaved steps.
    - [OpenFiles]: [FileSystem] and [FileData] as the instance of [Vfs], and the
      composition of the three.

    Devices
    - [Keys], [Font]: the tables of [eventcodes.h], [keymap.c], [keyboard.c] and
      [font8x16.c].
    - [Tty]: [drivers/tty]; [TtySpec]: text on the screen, the line discipline;
      [TtyTotal]: texts with any escape sequences.
    - [Ps2]: [drivers/input/ps2].  [Console]: keyboard, terminal and reader
      together.

    C library
    - [CString]: [phlibc/src/string.c] and [ctype.h].  [Printf]: [printf.c].
      [BufferedIO]: [bufio.c] and [basicio.c].
    - [Malloc]: [mem.c], in a memory of bytes; [FreeList]: its words as a list of
      blocks and the operations on the list of the free ones; [MallocSpec]: what
      [malloc] and [free] do to the blocks that a program holds.
    - [Strtod]: [floatops.c].  [Programs], [ProgramsSpec]: [stdlib.c], [exec.c],
      [popen.c], [dirent.c], [time.c], and the line of the shell ([sh/sh.c]).

    ** What is proved

    - Functional behaviour on every branch that a caller can see: the heap
      ([kmalloc_correct], [kfree_correct], [krealloc_correct]), that of programs
      ([malloc_correct], [free_correct]), paths and
      directories ([getInodeFromPath_correct], [fsCreate_correct],
      [fsUnlink_correct]), page allocation
      ([allocPhysPage_correct]), trees and queues, messages ([printk_correct]),
      text on the screen ([ttyPuts_text]), the tick of the timer
      ([kthreadSwitch_correct]), the map of the boot loader
      ([translateMmap_in_place]), the search for programs ([execvp_correct]).
    - Refinement of an abstract specification: semaphores ([semWait_correct],
      [semSignal_correct], over all interleavings [sem_conservation]), the pipe as
      a queue ([pipe_fifo], and [pipe_delivers] for progress), the table of
      processes as a finite map ([process_table_refines]), memory maps as
      functions of addresses ([mmapCreateEntry_correct]).
    - Equivalence with a reference: [vsnprintf_correct].
    - Round trips: [file_roundtrip]; an archive to files ([ramfsInit_roundtrip])
      and a table to processors and lines ([acpiMadtInit_roundtrip]).
    - Invariants: exact reference counts of files ([sysClose_correct]), the scheduler ([readyQueuePush_correct]).
    - Safety and bounds: [no_privilege_gain], [fsSeek_correct]; well-typed screens ([ttyPuts_typed]); termination
      ([ttyPuts_terminates]).
    - Composition: [open_then_read] from a path to the bytes of a file,
      [keys_reach_reader] from scan codes to a reader of the terminal,
      [exec_passes_arguments] from the lists of [exec] to the stack of the program,
      [signal_roundtrip] from a signal through its handler back to the program.

    ** Bounds of the theorems

    The code does not do what it means to on every input, so theorems say which
    inputs they are about, and the others are closed examples beside them.  The
    main ones:
    - The heap reads words at its two ends that it never writes.  [heap_rep] asks
      for 0 or an odd number there; [kfree_reads_guard_word],
      [kfree_reads_low_word] and [krealloc_reads_guard_word] are what else
      happens.  A shrink that splits is [krealloc_shrink_short].
    - Where another part needs memory its theorem asks for enough of it, never for
      an allocator that cannot fail: a budget of allocations of legal sizes
      ([InitrdSpec], [AcpiSpec]) or of pages ([PageMap]), or the one call that is
      made, with its size ([FileSystem]).
    - Files: an append of up to one page to whole pages ([two_page_write_unreadable],
      [small_append_overreads]).  Directories whose entries are numbered by position
      ([second_unlink_drops_other]).
    - Memory maps: addresses that are fixed, free or behind the last entry, and no
      cut at the start of a longer entry ([bad_hint_cuts], [split_at_start_faults]).
    - Page stacks of any number of stack pages; what lies in full ones below the
      top is forgotten ([popPage_full_loses]).
    - Formats: those of the library without widths, hexadecimal zero and floats
      ([right_justify_fails], [hex_zero_ends_string], [float_truncates]), those of
      the kernel with decimal numbers of up to nine digits
      ([decprint_drops_digit]).  Their meanings, [Printf.texts] and
      [Printk.expands], do not use the functions of the program.
    - Descriptors: the eight inline ones; the table behind them is never reached
      ([failed_opens_crash]).  Stores to user memory in [sysPipe] do not fault.

    ** Fuel

    Loops over an array or a counter recurse on it.  Loops that follow pointers
    have fuel.  Where the definition fixes the fuel it is the size of the store
    that the loop walks ([Mmap.fuel], the areas of the heap, the nodes of a tree),
    which no walk without a cycle exceeds; the theorems show that the results are
    never [NoFuel].  Where the fuel is an argument, theorems ask for as much as
    the data needs (the length of a string or a path, the height of a tree, one
    turn per character).  [Ps2.readId] and a few other loops that the C program
    may leave never are stated to run out of any fuel.

    ** What is not modelled

    - Assembly and what only the machine decides: context switches, entry code
      and the registers that [sched/threadhelpers.c] and [irq/main.c] read, the
      start of the other processors, the legacy timer.  Their users see them
      through the type classes.
    - [main/main.c] and [main/panic.c], which call the initializations in order
      or stop.  The calls of the firmware by which the boot loader reads a file.
    - The commands of the user ([cat], [ls], [init], ...) and the loop of the
      shell around a line, which only call the library; stubs of the library
      that return a constant, its signal trampolines and its tables of texts.
    - Timing, caches and the weak memory order of several processors: steps of
      threads interleave one at a time. *)

From Stdlib Require Export ZArith Lia Bool.
From stdpp Require Export base tactics list gmap.

#[global] Open Scope Z_scope.

(** ** Outcomes of C code

    A piece of C code run on a state either finishes with a value and a new
    state, or faults (it dereferences a null or wild pointer, or spins on a
    spinlock that it already holds), or needs more loop iterations than the
    fuel the model gives it. *)

Inductive outcome (A : Type) : Type :=
| Done (a : A)
| Fault
| NoFuel.
Arguments Done {A} a.
Arguments Fault {A}.
Arguments NoFuel {A}.

(** The state monad of the development: explicit state passing over an
    arbitrary state type. *)
Definition M (S A : Type) : Type := S -> outcome (A * S).

#[global] Instance M_ret {S} : MRet (M S) := fun A a s => Done (a, s).
#[global] Instance M_bind {S} : MBind (M S) := fun A B k m s =>
  match m s with
  | Done (a, s') => k a s'
  | Fault => Fault
  | NoFuel => NoFuel
  end.

#[global] Instance M_fmap {S} : FMap (M S) := fun A B f m => m ≫= fun a => mret (f a).

Definition get {S} : M S S := fun s => Done (s, s).
Definition put {S} (s' : S) : M S unit := fun _ => Done (tt, s').
Definition gets {S A} (f : S -> A) : M S A := fun s => Done (f s, s).
Definition modify {S} (f : S -> S) : M S unit := fun s => Done (tt, f s).
Definition fault {S A} : M S A := fun _ => Fault.
Definition nofuel {S A} : M S A := fun _ => NoFuel.
(** Reading through a pointer: a missing object is a fault. *)
Definition deref {S A} (o : S -> option A) : M S A := fun s =>
  match o s with Some a => Done (a, s) | None => Fault end.
Definition guardM {S} (b : S -> bool) : M S unit := fun s =>
  if b s then Done (tt, s) else Fault.

(** ** Total correctness

    [wp m s Q]: run from [s], [m] finishes (it neither faults nor runs out
    of fuel) with a value and a state that satisfy [Q]. *)
Definition wp {S A} (m : M S A) (s : S) (Q : A -> S -> Prop) : Prop :=
  match m s with
  | Done (a, s') => Q a s'
  | _ => False
  end.

Section wp_rules.
Context {S : Type}.

Lemma wp_bind {A B} (m : M S A) (k : A -> M S B) s Q :
  wp (m ≫= k) s Q <-> wp m s (fun a s' => wp (k a) s' Q).
Proof. unfold wp, mbind, M_bind. by destruct (m s) as [[a s']| |]. Qed.

Lemma wp_ret {A} (a : A) s (Q : A -> S -> Prop) : wp (mret a) s Q <-> Q a s.
Proof. done. Qed.
Lemma wp_fmap {A B} (f : A -> B) (m : M S A) s Q : wp (f <$> m) s Q <-> wp m s (fun a => Q (f a)).
Proof. unfold fmap, M_fmap. by rewrite wp_bind. Qed.
Lemma wp_get s (Q : S -> S -> Prop) : wp get s Q <-> Q s s.
Proof. done. Qed.
Lemma wp_put (s' s : S) Q : wp (put s') s Q <-> Q tt s'.
Proof. done. Qed.
Lemma wp_gets {A} (f : S -> A) s Q : wp (gets f) s Q <-> Q (f s) s.
Proof. done. Qed.
Lemma wp_modify (f : S -> S) s Q : wp (modify f) s Q <-> Q tt (f s).
Proof. done. Qed.
Lemma wp_deref {A} (o : S -> option A) s Q :
  wp (deref o) s Q <-> exists a, o s = Some a /\ Q a s.
Proof.
  unfold wp, deref. destruct (o s) as [a|]; [|naive_solver].
  split; [eauto|]. intros (a' & [= ->] & HQ). done.
Qed.
Lemma wp_guardM b (s : S) Q : wp (guardM b) s Q <-> b s = true /\ Q tt s.
Proof. unfold wp, guardM. destruct (b s); naive_solver. Qed.

Lemma wp_mono {A} (m : M S A) s (Q Q' : A -> S -> Prop) :
  wp m s Q -> (forall a s', Q a s' -> Q' a s') -> wp m s Q'.
Proof. unfold wp. destruct (m s) as [[a s']| |]; eauto. Qed.

Lemma wp_and {A} (m : M S A) s (Q Q' : A -> S -> Prop) :
  wp m s Q -> wp m s Q' -> wp m s (fun a s' => Q a s' /\ Q' a s').
Proof. unfold wp. destruct (m s) as [[a s']| |]; eauto. Qed.

(** [wp] is exactly "the run finishes, with a result in [Q]". *)
Lemma wp_done {A} (m : M S A) s Q :
  wp m s Q <-> exists a s', m s = Done (a, s') /\ Q a s'.
Proof.
  unfold wp. destruct (m s) as [[a s']| |]; [|naive_solver..].
  split; [eauto|]. by intros (? & ? & [= <- <-] & ?).
Qed.

Lemma wp_if {A} (b : bool) (m1 m2 : M S A) s Q :
  wp (if b then m1 else m2) s Q <-> (if b then wp m1 s Q else wp m2 s Q).
Proof. by destruct b. Qed.
End wp_rules.

(** Code that keeps a relation between the states before and behind it,
    whatever it gives back. *)
Section preserves.
Context {S : Type} (R : relation S) `{!PreOrder R}.
Definition preserves {A} (m : M S A) : Prop := forall x a x', m x = Done (a, x') -> R x x'.
Lemma preserves_bind {A B} (m : M S A) (f : A -> M S B) : preserves m -> (forall a, preserves (f a)) -> preserves (m ≫= f).
Proof.
  intros Hm Hf x b x' He. unfold mbind, M_bind in He. destruct (m x) as [[a y]| |] eqn:E; [|done..].
  transitivity y; [by eapply Hm|by eapply Hf].
Qed.
Lemma preserves_ret {A} (a : A) : preserves (mret a).
Proof. by intros x b x' [= <- <-]. Qed.
Lemma preserves_deref {A} (o : S -> option A) : preserves (deref o).
Proof. intros x a x' He. unfold deref in He. destruct (o x); by simplify_eq. Qed.
Lemma preserves_gets {A} (f : S -> A) : preserves (gets f).
Proof. by intros x a x' [= <- <-]. Qed.
Lemma preserves_fault {A} : preserves (fault (A := A)).
Proof. by intros x a x'. Qed.
Lemma preserves_modify (f : S -> S) : (forall x, R x (f x)) -> preserves (modify f).
Proof. intros Hf x a x' [= <- <-]. apply Hf. Qed.
Lemma wp_preserves {A} (m : M S A) x (Q : A -> S -> Prop) : preserves m -> wp m x Q -> wp m x (fun a x' => Q a x' /\ R x x').
Proof. intros Hm HQ. unfold wp in *. destruct (m x) as [[a x']| |] eqn:E; [|done..]. split; [done|]. by eapply Hm. Qed.
End preserves.
Create HintDb preserves.
#[export] Hint Resolve preserves_ret preserves_deref preserves_gets preserves_fault : preserves.
#[export] Hint Extern 2 (PreOrder _) => typeclasses eauto : preserves.
(** What the hints know of each statement. *)
Ltac preserve := repeat first [solve [eauto with preserves] | apply preserves_bind; [typeclasses eauto| |intros ?] | case_match].

Create Rewrite HintDb wp.
#[export] Hint Rewrite @wp_bind @wp_ret @wp_fmap @wp_get @wp_put @wp_gets @wp_modify
  @wp_deref @wp_guardM : wp.

(** One symbolic-execution step: rewrite with the rules of the primitives. *)
Ltac wp_simpl := autorewrite with wp; cbv beta.

(** Use an already proved [wp] fact about the statement at the head. *)
Ltac wp_use H := eapply wp_mono; [eapply H | cbv beta].

(** ** Arithmetic *)

(** [lia] with division and modulo by constants. *)
Ltac dlia := intros; Z.div_mod_to_equations; lia.
