(* ===== verification/Word.v ===== *)
(** * C integer types: values as [Z], conversions with their wrap-around *)

From S2P Require Import Prelude.

(** Conversion to an unsigned type of [w] bits. *)
Definition uwrap (w : Z) (z : Z) : Z := z mod 2 ^ w.

(** Conversion to a signed (two's complement) type of [w] bits. *)
Definition swrap (w : Z) (z : Z) : Z :=
  let u := z mod 2 ^ w in if u <? 2 ^ (w - 1) then u else u - 2 ^ w.

Notation u8 := (uwrap 8).
Notation u16 := (uwrap 16).
Notation u32 := (uwrap 32).
Notation u64 := (uwrap 64).
Notation s32 := (swrap 32).
Notation s64 := (swrap 64).

(** [x & bit] used as a truth value. *)
Definition has (x bit : Z) : bool := negb (Z.land x bit =? 0).

Section wrap_lemmas.
Lemma uwrap_small w z : 0 <= z < 2 ^ w -> uwrap w z = z.
Proof. apply Z.mod_small. Qed.

Lemma uwrap_range w z : 0 <= w -> 0 <= uwrap w z < 2 ^ w.
Proof. intros. apply Z.mod_pos_bound. lia. Qed.

Lemma uwrap_add_l w a b : uwrap w (uwrap w a + b) = uwrap w (a + b).
Proof. apply Zplus_mod_idemp_l. Qed.
Lemma uwrap_add_r w a b : uwrap w (a + uwrap w b) = uwrap w (a + b).
Proof. apply Zplus_mod_idemp_r. Qed.

Lemma swrap_small w z :
  0 < w -> - 2 ^ (w - 1) <= z < 2 ^ (w - 1) -> swrap w z = z.
Proof.
  intros Hw Hz. unfold swrap.
  assert (H2 : 2 ^ w = 2 * 2 ^ (w - 1)).
  { rewrite <- Z.pow_succ_r by lia. f_equal. lia. }
  destruct (Z.lt_ge_cases z 0).
  - rewrite <- (Z.mod_unique z (2 ^ w) (-1) (z + 2 ^ w)) by lia.
    destruct (Z.ltb_spec (z + 2 ^ w) (2 ^ (w - 1))); lia.
  - rewrite Z.mod_small by lia.
    destruct (Z.ltb_spec z (2 ^ (w - 1))); lia.
Qed.
End wrap_lemmas.

Section bit_lemmas.
Lemma land_1 v : Z.land v 1 = v mod 2.
Proof. apply (Z.land_ones v 1). lia. Qed.

Lemma has_1_even v : v mod 2 = 0 -> has v 1 = false.
Proof. intros H. unfold has. by rewrite land_1, H. Qed.
Lemma has_1_odd v : v mod 2 = 1 -> has v 1 = true.
Proof. intros H. unfold has. by rewrite land_1, H. Qed.

(** Masking with [~(2^k - 1)] in 64 bits clears the low [k] bits. *)
Lemma land_high_mask k v :
  0 <= k <= 64 -> 0 <= v < 2 ^ 64 ->
  Z.land v (2 ^ 64 - 2 ^ k) = v - v mod 2 ^ k.
Proof.
  intros Hk Hv.
  assert (Hm : 2 ^ 64 - 2 ^ k = Z.shiftl (Z.ones (64 - k)) k).
  { rewrite Z.shiftl_mul_pow2, Z.ones_equiv by lia.
    replace (2 ^ 64) with (2 ^ (64 - k) * 2 ^ k); [lia|].
    rewrite <- Z.pow_add_r by lia. f_equal. lia. }
  replace (v - v mod 2 ^ k) with (Z.shiftl (Z.shiftr v k) k).
  2:{ rewrite Z.shiftl_mul_pow2, Z.shiftr_div_pow2 by lia.
      pose proof (Z.div_mod v (2 ^ k)). lia. }
  rewrite Hm. apply Z.bits_inj'. intros n Hn.
  rewrite Z.land_spec, !Z.shiftl_spec by lia.
  destruct (Z.lt_ge_cases n k).
  { rewrite !(Z.testbit_neg_r _ (n - k)) by lia. by rewrite andb_false_r. }
  rewrite Z.shiftr_spec by lia. replace (n - k + k) with n by lia.
  destruct (Z.lt_ge_cases n 64).
  { rewrite Z.ones_spec_low by lia. by rewrite andb_true_r. }
  rewrite Z.ones_spec_high by lia. rewrite andb_false_r. symmetry.
  destruct (Z.eq_dec v 0) as [->|]; [by rewrite Z.testbit_0_l|].
  apply Z.bits_above_log2; [lia|].
  apply Z.log2_lt_pow2; [lia|].
  apply Z.lt_le_trans with (2 ^ 64); [lia|]. apply Z.pow_le_mono_r; lia.
Qed.

Lemma lor_1_even v : v mod 2 = 0 -> Z.lor v 1 = v + 1.
Proof.
  intros H. rewrite (Z.div_mod v 2), H, Z.add_0_r by lia.
  by destruct (v / 2) as [|p|[]].
Qed.

(** Disjoint bit fields add up. *)
Lemma lor_add x b k : 0 <= k -> 0 <= x < 2 ^ k -> Z.lor x (b * 2 ^ k) = x + b * 2 ^ k.
Proof.
  intros Hk Hx. assert (E : Z.land x (b * 2 ^ k) = 0).
  { apply Z.bits_inj'. intros n Hn. rewrite Z.land_spec, Z.bits_0.
    destruct (Z.lt_ge_cases n k).
    - rewrite Z.mul_pow2_bits_low by lia. by rewrite andb_false_r.
    - rewrite <- (Z.mod_small x (2 ^ k)), Z.mod_pow2_bits_high by lia. done. }
  by rewrite <- Z.lxor_lor, <- Z.add_nocarry_lxor by done.
Qed.

Lemma has_lor x y b : has (Z.lor x y) b = has x b || has y b.
Proof.
  unfold has. rewrite Z.land_lor_distr_l.
  destruct (Z.eqb_spec (Z.land x b) 0) as [->|H]; simpl; [by rewrite Z.lor_0_l|].
  destruct (Z.eqb_spec (Z.lor (Z.land x b) (Z.land y b)) 0) as [E|]; [|done].
  apply Z.lor_eq_0_iff in E. lia.
Qed.

(** A single bit as a flag. *)
Lemma has_pow2 x k : 0 <= k -> has x (2 ^ k) = Z.testbit x k.
Proof.
  intros Hk. unfold has. destruct (Z.testbit x k) eqn:E.
  - destruct (Z.eqb_spec (Z.land x (2 ^ k)) 0) as [H|]; [|done].
    apply (f_equal (fun z => Z.testbit z k)) in H.
    by rewrite Z.land_spec, E, Z.pow2_bits_true, Z.bits_0 in H by lia.
  - replace (Z.land x (2 ^ k)) with 0; [done|]. symmetry. apply Z.bits_inj'. intros n Hn.
    rewrite Z.land_spec, Z.bits_0, Z.pow2_bits_eqb by lia.
    destruct (Z.eqb_spec k n) as [<-|]; [by rewrite E|by rewrite andb_false_r].
Qed.
End bit_lemmas.
