(* ===== verification/Errno.v ===== *)
(** * Error numbers: [kernel/include/uapi/errno.h], shared by the kernel and
    the C library *)

From S2P Require Import Prelude.

Definition EINVAL : Z := 2.
Definition EBUSY : Z := 3.
Definition EIO : Z := 4.
Definition ENOENT : Z := 5.
Definition EISDIR : Z := 6.
Definition ENOSYS : Z := 7.
Definition EROFS : Z := 8.
Definition EBADF : Z := 9.
Definition EFAULT : Z := 10.
Definition ECHILD : Z := 11.
Definition EEXIST : Z := 12.
Definition ENOTDIR : Z := 13.
Definition ENOMEM : Z := 14.
Definition E2BIG : Z := 15.
Definition EACCES : Z := 16.
Definition EPERM : Z := 17.
Definition ESRCH : Z := 18.
Definition ENOTEMPTY : Z := 19.
