(* ===== verification/Bytes.v ===== *)
(** * Byte memories: texts, copies and numbers of several bytes *)

From S2P Require Import Prelude Word.

(** The bytes of [l] lie at [text] on. *)
Definition text_at (mem : gmap Z Z) (text : Z) (l : list Z) : Prop := forall k c, l !! k = Some c -> mem !! (text + Z.of_nat k) = Some c.

(** Memory after characters are copied to it. *)
Fixpoint store (a : Z) (l : list Z) (m : gmap Z Z) : gmap Z Z :=
  match l with [] => m | c :: l => store (a + 1) l (<[a := c]> m) end.
Lemma store_before a l m k : k < a -> store a l m !! k = m !! k.
Proof. revert a m. induction l as [|c l IH]; intros a m Hk; [done|]. cbn [store]. rewrite IH by lia. by rewrite lookup_insert_ne by lia. Qed.
Lemma store_text a l m : text_at (store a l m) a l.
Proof.
  revert a m. induction l as [|c l IH]; intros a m [|k] c' Hk; try done; cbn [store].
  - injection Hk as <-. rewrite Z.add_0_r, store_before by lia. by rewrite lookup_insert_eq.
  - rewrite Nat2Z.inj_succ. replace (a + Z.succ (Z.of_nat k)) with (a + 1 + Z.of_nat k) by lia. by apply IH.
Qed.
Lemma store_after a l m k : a + Z.of_nat (length l) <= k -> store a l m !! k = m !! k.
Proof. revert a m. induction l as [|c l IH]; intros a m Hk; [done|]. cbn [store length] in *. rewrite IH by lia. by rewrite lookup_insert_ne by lia. Qed.
Lemma lookup_store a l m k : store a l m !! k = if decide (a <= k < a + Z.of_nat (length l)) then l !! Z.to_nat (k - a) else m !! k.
Proof.
  destruct (decide _) as [Hin|Hout].
  - destruct (lookup_lt_is_Some_2 l (Z.to_nat (k - a))) as [c Hc]; [lia|]. rewrite Hc. rewrite <- (store_text a l m _ _ Hc). f_equal. lia.
  - destruct (Z.lt_ge_cases k a); [by apply store_before|apply store_after; lia].
Qed.
Lemma store_app a l1 l2 m : store a (l1 ++ l2) m = store (a + Z.of_nat (length l1)) l2 (store a l1 m).
Proof.
  revert a m. induction l1 as [|c l1 IH]; intros a m; cbn [app store length]; [by rewrite Z.add_0_r|]. rewrite IH. f_equal. lia.
Qed.
(** Copies to two places that do not overlap. *)
Lemma store_comm a l b k m : a + Z.of_nat (length l) <= b \/ b + Z.of_nat (length k) <= a -> store a l (store b k m) = store b k (store a l m).
Proof. intros Hd. apply map_eq. intros x. rewrite !lookup_store. repeat destruct (decide _); try done; lia. Qed.
Lemma text_at_app m a l1 l2 : text_at m a (l1 ++ l2) <-> text_at m a l1 /\ text_at m (a + Z.of_nat (length l1)) l2.
Proof.
  split.
  - intros Ht. split; intros k c Hk; [apply Ht; by apply lookup_app_l_Some|]. rewrite <- Z.add_assoc, <- Nat2Z.inj_add. apply Ht.
    rewrite lookup_app_r by lia. rewrite <- Hk. f_equal. lia.
  - intros [H1 H2] k c Hk. apply lookup_app_Some in Hk as [Hk|[Hge Hk]]; [by apply H1|]. rewrite <- (H2 _ _ Hk). f_equal. lia.
Qed.
Lemma text_at_store_apart m a l b k : text_at m a l -> a + Z.of_nat (length l) <= b \/ b + Z.of_nat (length k) <= a -> text_at (store b k m) a l.
Proof. intros Ht Hd i c Hi. pose proof (lookup_lt_Some _ _ _ Hi). rewrite lookup_store, decide_False by lia. by apply Ht. Qed.

(** [n] mapped bytes. *)
Definition mapped (m : gmap Z Z) (a n : Z) : Prop := forall k, a <= k < a + n -> is_Some (m !! k).
Lemma mapped_text m a l : text_at m a l -> mapped m a (Z.of_nat (length l)).
Proof.
  intros Ht k Hk. destruct (lookup_lt_is_Some_2 l (Z.to_nat (k - a))) as [c Hc]; [lia|]. exists c. rewrite <- (Ht _ _ Hc). f_equal. lia.
Qed.
Lemma mapped_store m a n b l : mapped m a n -> mapped (store b l m) a n.
Proof.
  intros Hm k Hk. rewrite lookup_store. destruct (decide _); [apply lookup_lt_is_Some_2; lia|by apply Hm].
Qed.
Lemma mapped_part m a n b k : mapped m a n -> a <= b -> b + k <= a + n -> mapped m b k.
Proof. intros Hm Hb Hk x Hx. apply Hm. lia. Qed.
Lemma run_size (mem : gmap Z Z) a n : (forall k, (k < n)%nat -> is_Some (mem !! (a + Z.of_nat k))) -> (n <= size mem)%nat.
Proof.
  intros Hm. rewrite <- size_dom. transitivity (size (list_to_set (C := gset Z) (seqZ a (Z.of_nat n)))).
  - rewrite size_list_to_set by apply NoDup_seqZ. rewrite length_seqZ. lia.
  - apply subseteq_size. intros x Hx. apply elem_of_list_to_set, elem_of_seqZ in Hx. apply elem_of_dom.
    replace x with (a + Z.of_nat (Z.to_nat (x - a))) by lia. apply Hm. lia.
Qed.
Lemma mapped_size m a n : mapped m a n -> n <= Z.of_nat (size m).
Proof. intros Hm. destruct (Z.lt_ge_cases n 0); [lia|]. assert (Z.to_nat n <= size m)%nat; [|lia]. apply (run_size m a). intros k Hk. apply Hm. lia. Qed.

(** Numbers of [n] bytes, the lowest first. *)
Definition fromBytes (l : list Z) : Z := foldr (fun c acc => c + 256 * acc) 0 l.
Fixpoint toBytes (n : nat) (x : Z) : list Z := match n with O => [] | S n => x mod 256 :: toBytes n (x / 256) end.
Lemma length_toBytes n x : length (toBytes n x) = n.
Proof. revert x. induction n as [|n IH]; intros x; [done|]. cbn [toBytes length]. by rewrite IH. Qed.
Lemma fromBytes_toBytes n x : 0 <= x < 256 ^ Z.of_nat n -> fromBytes (toBytes n x) = x.
Proof.
  revert x. induction n as [|n IH]; intros x Hx; [cbn in *; lia|]. unfold fromBytes in *. cbn [toBytes foldr].
  rewrite Nat2Z.inj_succ, Z.pow_succ_r in Hx by lia. rewrite IH; [pose proof (Z.div_mod x 256); lia|].
  split; [apply Z.div_pos; lia|]. apply Z.div_lt_upper_bound; lia.
Qed.

(** A number of eight bytes in memory. *)
Definition word (m : gmap Z Z) (a x : Z) : Prop := text_at m a (toBytes 8 x).

(** Several such numbers. *)
Definition words (ws : list Z) : list Z := flat_map (toBytes 8) ws.
Lemma length_words ws : Z.of_nat (length (words ws)) = 8 * Z.of_nat (length ws).
Proof. induction ws as [|w ws IH]; [done|]. unfold words in *. cbn [flat_map length]. rewrite length_app, length_toBytes. lia. Qed.
Lemma words_cons w ws : words (w :: ws) = toBytes 8 w ++ words ws.
Proof. done. Qed.
Lemma words_app l1 l2 : words (l1 ++ l2) = words l1 ++ words l2.
Proof. apply flat_map_app. Qed.
Lemma word_words m a ws i w : text_at m a (words ws) -> ws !! i = Some w -> word m (a + 8 * Z.of_nat i) w.
Proof.
  intros Ht Hi. rewrite <- (take_drop_middle ws i w Hi), words_app, words_cons in Ht.
  apply text_at_app in Ht as [_ Ht]. apply text_at_app in Ht as [Ht _]. rewrite length_words, length_take in Ht.
  pose proof (lookup_lt_Some _ _ _ Hi). by rewrite Nat.min_l in Ht by lia.
Qed.
Lemma words_store m a ws i x : text_at m a (words ws) -> (i < length ws)%nat ->
  text_at (store (a + 8 * Z.of_nat i) (toBytes 8 x) m) a (words (<[i:=x]> ws)).
Proof.
  intros Ht Hi. rewrite insert_take_drop by done. destruct (lookup_lt_is_Some_2 ws i Hi) as [w Hw].
  rewrite <- (take_drop_middle ws i w Hw), words_app, words_cons in Ht. rewrite words_app, words_cons.
  apply text_at_app in Ht as [H1 H2]. apply text_at_app in H2 as [_ H2]. rewrite length_words, length_take, Nat.min_l in H2 by lia.
  apply text_at_app. rewrite length_words, length_take, Nat.min_l by lia. split.
  { apply text_at_store_apart; [done|]. rewrite length_words, length_take, Nat.min_l by lia. lia. }
  apply text_at_app. split; [apply store_text|]. rewrite length_toBytes in *. apply text_at_store_apart; [done|]. rewrite length_toBytes. lia.
Qed.
Lemma words_mapped m a ws i : text_at m a (words ws) -> (i < length ws)%nat -> mapped m (a + 8 * Z.of_nat i) 8.
Proof. intros Ht Hi. destruct (lookup_lt_is_Some_2 ws i Hi) as [w Hw]. apply (mapped_text _ _ (toBytes 8 w)). by eapply word_words. Qed.

(** Memory changes in the given range only. *)
Definition same_outside (a n : Z) (m m' : gmap Z Z) : Prop := forall k, k < a \/ a + n <= k -> m' !! k = m !! k.
Lemma same_outside_trans a n m1 m2 m3 : same_outside a n m1 m2 -> same_outside a n m2 m3 -> same_outside a n m1 m3.
Proof. intros H1 H2 k Hk. by rewrite H2, H1. Qed.
Lemma same_outside_store a n b l m : a <= b -> b + Z.of_nat (length l) <= a + n -> same_outside a n m (store b l m).
Proof. intros Ha Hb k Hk. rewrite lookup_store, decide_False by lia. done. Qed.
Lemma text_same_outside a n m m' b l : same_outside a n m m' -> text_at m b l -> b + Z.of_nat (length l) <= a \/ a + n <= b -> text_at m' b l.
Proof. intros Hs Ht Hd k c Hk. pose proof (lookup_lt_Some _ _ _ Hk). rewrite Hs by lia. by apply Ht. Qed.

(** ** States with a memory

    A state whose memory code reads and writes; memory that is not mapped
    faults. *)
Class ByteMem (V : Type) := {
  bytes : V -> gmap Z Z;
  setBytes : gmap Z Z -> V -> V
}.
(** What is written is read, and nothing else changes. *)
Class ByteMemOk (V : Type) `{ByteMem V} : Prop := {
  bytes_set m v : bytes (setBytes m v) = m;
  set_bytes v : setBytes (bytes v) v = v;
  set_set m m' v : setBytes m (setBytes m' v) = setBytes m v
}.
#[export] Instance plainMem : ByteMem (gmap Z Z) := {| bytes m := m; setBytes m _ := m |}.
#[export] Instance plainMemOk : ByteMemOk (gmap Z Z).
Proof. by split. Qed.

Section memory.
Context {V : Type} `{ByteMem V}.

Definition rd (a : Z) : M V Z := deref (fun v => bytes v !! a).
Definition wr (a c : Z) : M V unit := fun v =>
  match bytes v !! a with Some _ => Done (tt, setBytes (<[a := c]> (bytes v)) v) | None => Fault end.
Fixpoint ldBytes (n : nat) (a : Z) : M V (list Z) :=
  match n with O => mret [] | S n => c ← rd a; l ← ldBytes n (u64 (a + 1)); mret (c :: l) end.
Fixpoint stBytes (l : list Z) (a : Z) : M V unit :=
  match l with [] => mret tt | c :: l => wr a c;; stBytes l (u64 (a + 1)) end.
Definition ld (n : nat) (a : Z) : M V Z := fromBytes <$> ldBytes n a.
Definition ld64 (a : Z) : M V Z := ld 8 a.
Definition st64 (a x : Z) : M V unit := stBytes (toBytes 8 x) a.
Fixpoint copy (n : nat) (dst src : Z) : M V unit :=
  match n with O => mret tt | S n => c ← rd src; wr dst c;; copy n (u64 (dst + 1)) (u64 (src + 1)) end.
Definition memcpy (dst src n : Z) : M V unit := copy (Z.to_nat n) dst src.

Context `{!ByteMemOk V}.
Implicit Types (v : V) (m : gmap Z Z).

Lemma u64_small x : 0 <= x < 2 ^ 64 -> u64 x = x.
Proof. apply Z.mod_small. Qed.
Lemma wp_rdByte a c v (Q : Z -> V -> Prop) : bytes v !! a = Some c -> Q c v -> wp (rd a) v Q.
Proof. intros Ha HQ. apply wp_deref. eauto. Qed.
Lemma wp_wrByte a c v (Q : unit -> V -> Prop) : is_Some (bytes v !! a) -> Q tt (setBytes (<[a := c]> (bytes v)) v) -> wp (wr a c) v Q.
Proof. intros [x Hx] HQ. unfold wp, wr. by rewrite Hx. Qed.

Lemma ldBytes_spec l : forall a v (Q : list Z -> V -> Prop), text_at (bytes v) a l -> 0 <= a -> a + Z.of_nat (length l) < 2 ^ 64 -> Q l v -> wp (ldBytes (length l) a) v Q.
Proof.
  induction l as [|c l IH]; intros a v Q Ht Ha Hl HQ; [done|]. cbn [length ldBytes] in *.
  apply wp_bind. eapply wp_rdByte; [rewrite <- (Ht 0%nat c eq_refl); f_equal; lia|]. apply wp_bind. rewrite u64_small by lia.
  apply IH; [|lia|lia|exact HQ]. intros k x Hk. rewrite <- (Ht (S k) x Hk). f_equal. lia.
Qed.
Lemma stBytes_spec l : forall a v, mapped (bytes v) a (Z.of_nat (length l)) -> 0 <= a -> a + Z.of_nat (length l) < 2 ^ 64 ->
  wp (stBytes l a) v (fun _ v' => v' = setBytes (store a l (bytes v)) v).
Proof.
  induction l as [|c l IH]; intros a v Hm Ha Hl; [cbn; by rewrite set_bytes|]. cbn [length stBytes store] in *.
  apply wp_bind, wp_wrByte; [apply Hm; lia|]. rewrite u64_small by lia.
  wp_use IH; [|lia|lia|intros _ v' ->; by rewrite bytes_set, set_set].
  rewrite bytes_set. intros k Hk. rewrite lookup_insert_is_Some. right. split; [lia|]. apply Hm. lia.
Qed.
Lemma ld64_spec a x v (Q : Z -> V -> Prop) : word (bytes v) a x -> 0 <= x < 2 ^ 64 -> 0 <= a -> a + 8 < 2 ^ 64 -> Q x v -> wp (ld64 a) v Q.
Proof.
  intros Hw Hx Ha Hl HQ. unfold ld64, ld. apply wp_fmap. apply (ldBytes_spec (toBytes 8 x)); [done|done|done|].
  by rewrite fromBytes_toBytes.
Qed.
Lemma st64_spec a x v : mapped (bytes v) a 8 -> 0 <= a -> a + 8 < 2 ^ 64 -> wp (st64 a x) v (fun _ v' => v' = setBytes (store a (toBytes 8 x) (bytes v)) v).
Proof. intros Hm Ha Hl. unfold st64. by apply stBytes_spec. Qed.
Lemma copy_spec l : forall dst src v, text_at (bytes v) src l -> mapped (bytes v) dst (Z.of_nat (length l)) ->
  src + Z.of_nat (length l) <= dst \/ dst + Z.of_nat (length l) <= src -> 0 <= src -> 0 <= dst ->
  src + Z.of_nat (length l) < 2 ^ 64 -> dst + Z.of_nat (length l) < 2 ^ 64 ->
  wp (copy (length l) dst src) v (fun _ v' => v' = setBytes (store dst l (bytes v)) v).
Proof.
  induction l as [|c l IH]; intros dst src v Ht Hm Hd Hs Hd0 Hsl Hdl; [cbn; by rewrite set_bytes|]. cbn [length copy store] in *.
  apply wp_bind. eapply wp_rdByte; [rewrite <- (Ht 0%nat c eq_refl); f_equal; lia|]. apply wp_bind, wp_wrByte; [apply Hm; lia|]. rewrite !u64_small by lia.
  wp_use IH; rewrite ?bytes_set; [| |lia..|intros _ v' ->; by rewrite set_set].
  - intros k x Hk. pose proof (lookup_lt_Some _ _ _ Hk). rewrite lookup_insert_ne by lia. rewrite <- (Ht (S k) x Hk). f_equal. lia.
  - intros k Hk. rewrite lookup_insert_is_Some. right. split; [lia|]. apply Hm. lia.
Qed.

(** An array of numbers: reading and writing one of them. *)
Lemma wp_ldWord ws a i w v (Q : Z -> V -> Prop) : text_at (bytes v) a (words ws) -> ws !! i = Some w -> 0 <= w < 2 ^ 64 ->
  0 <= a -> a + 8 * Z.of_nat (length ws) < 2 ^ 64 -> Q w v -> wp (ld64 (a + 8 * Z.of_nat i)) v Q.
Proof.
  intros Ht Hi Hw Ha Hl HQ. pose proof (lookup_lt_Some _ _ _ Hi). eapply ld64_spec; [by eapply word_words|done|lia|lia|done].
Qed.
Lemma wp_stWord ws a i x v (Q : unit -> V -> Prop) : text_at (bytes v) a (words ws) -> (i < length ws)%nat ->
  0 <= a -> a + 8 * Z.of_nat (length ws) < 2 ^ 64 ->
  (forall m, text_at m a (words (<[i:=x]> ws)) -> same_outside a (8 * Z.of_nat (length ws)) (bytes v) m -> Q tt (setBytes m v)) ->
  wp (st64 (a + 8 * Z.of_nat i) x) v Q.
Proof.
  intros Ht Hi Ha Hl HQ. wp_use st64_spec; [by eapply words_mapped|lia|lia|]. intros [] v' ->. apply HQ; [by apply words_store|].
  apply same_outside_store; [lia|]. rewrite length_toBytes. lia.
Qed.
End memory.
