(* ===== verification/Heap.v ===== *)
(** * The kernel heap: [kernel/mm/heap.c]

    A first-fit allocator with boundary tags.  The model keeps the heap's
    memory word by word; areas are tiled from [heapStart], each with a header
    and a footer word that hold its size and, in bit 0, whether it is in use. *)

From S2P Require Import Prelude Word.

Definition PAGE_SIZE : Z := 4096.
Definition HEAP_ALIGN : Z := 16.
Definition AREA_SIZE : Z := 2 ^ 64 - 16.      (* ~(HEAP_ALIGN - 1) *)
Definition AREA_INUSE : Z := 1.
Definition MAX_ALLOC : Z := 2048 * 1024.
Definition HEAP_BASE : Z := 0xFFFFFFFFC0000000.

(** [align] of [include/mm/memset.h]. *)
Definition align (ptr algn : Z) : Z :=
  let md := ptr mod algn in
  if md =? 0 then ptr else u64 (u64 (ptr - md) + algn).

(** [sizeToPages] of [include/mm/paging.h]. *)
Definition sizeToPages (size : Z) : Z :=
  let ret := size / PAGE_SIZE in
  if size mod PAGE_SIZE =? 0 then ret else ret + 1.

(** The allocator's globals and the memory it manages: [hmem] maps the
    8-byte aligned addresses that are mapped to their word. *)
Record kheap := mkHeap {
  hmem : gmap Z Z;
  heapStart : Z;
  heapSize : Z;
  heapLock : bool
}.

Definition set_hmem (h : kheap) (m : gmap Z Z) : kheap :=
  mkHeap m (heapStart h) (heapSize h) (heapLock h).
Definition set_heapSize (h : kheap) (n : Z) : kheap :=
  mkHeap (hmem h) (heapStart h) n (heapLock h).
Definition set_heapLock (h : kheap) (b : bool) : kheap :=
  mkHeap (hmem h) (heapStart h) (heapSize h) b.

(** A 64-bit load and store; an unmapped address faults. *)
Definition ld (a : Z) : M kheap Z := deref (fun h => hmem h !! a).
Definition st (a v : Z) : M kheap unit := fun h =>
  match hmem h !! a with
  | Some _ => Done (tt, set_hmem h (<[a := u64 v]> (hmem h)))
  | None => Fault
  end.

(** [acquireSpinlock] on a lock this CPU already holds never returns. *)
Definition acquireHeapLock : M kheap unit := fun h =>
  if heapLock h then Fault else Done (tt, set_heapLock h true).
Definition releaseHeapLock : M kheap unit := modify (fun h => set_heapLock h false).

Section heap.
(** The word a freshly handed-out page holds at an address: pages are
    filled in by the page-fault handler, which is assembly. *)
Context (pageFill : Z -> Z).

(** The words of [n] pages from [addr]. *)
Fixpoint fresh_words (addr : Z) (n : nat) (m : gmap Z Z) : gmap Z Z :=
  match n with
  | O => m
  | S n => <[addr := u64 (pageFill addr)]> (fresh_words (addr + 8) n m)
  end.

(** [allocPageAt]: the pages that cover [size] bytes from [addr] become
    accessible. *)
Definition allocPageAt (addr size : Z) : M kheap unit :=
  modify (fun h =>
    set_hmem h (fresh_words addr (Z.to_nat (sizeToPages size * 512)) (hmem h))).

Definition getFooterFromHeader (header : Z) : M kheap Z :=
  v ← ld header; mret (u64 (u64 (header + Z.land v AREA_SIZE) - 8)).
Definition getHeaderFromFooter (footer : Z) : M kheap Z :=
  v ← ld footer; mret (u64 (u64 (footer - Z.land v AREA_SIZE) + 8)).

(** [initHeap]: the state after boot; [heapSize] starts as
    [PAGE_SIZE - sizeof(memArea_t)]. *)
Definition initHeap : M kheap unit :=
  hs ← gets heapStart;
  sz ← gets heapSize;
  allocPageAt hs PAGE_SIZE;;
  let footer := u64 (hs + sz - 8) in
  modify (fun h => mkHeap (hmem h) (u64 (hs + 8)) (heapSize h) (heapLock h));;
  hs' ← gets heapStart;
  st hs' (sz - 8);;
  v ← ld hs';
  st footer v.

Definition bootHeap : kheap := mkHeap ∅ HEAP_BASE (PAGE_SIZE - 8) false.

(** The first-fit search loop of [heapAlloc]. *)
Fixpoint findArea (fuel : nat) (totalSize newHeader limit : Z) : M kheap (option Z) :=
  match fuel with
  | O => nofuel
  | S fuel =>
      if newHeader <? limit then
        v ← ld newHeader;
        if negb (has v AREA_INUSE) && (totalSize <=? v) then mret (Some newHeader)
        else if v =? 0 then mret None
        else findArea fuel totalSize (u64 (newHeader + Z.land v AREA_SIZE)) limit
      else mret None
  end.

(** Each round of the search advances by at least [HEAP_ALIGN] bytes. *)
Definition searchFuel (hsize : Z) : nat := S (Z.to_nat (hsize / HEAP_ALIGN)).

Definition heapAlloc (size heap hsize : Z) : M kheap Z :=
  let totalSize := u64 (size + 16) in
  found ← findArea (searchFuel hsize) totalSize heap (u64 (u64 (heap + hsize) - 8));
  match found with
  | None => mret 0
  | Some newHeader =>
      oldSize ← ld newHeader;
      freeFooter ← getFooterFromHeader newHeader;
      st newHeader totalSize;;
      newFooter ← getFooterFromHeader newHeader;
      newFooter ←
        (if HEAP_ALIGN <? u64 (oldSize - totalSize) then
           st freeFooter (u64 (oldSize - totalSize));;
           freeHeader ← getHeaderFromFooter freeFooter;
           v ← ld freeFooter;
           st freeHeader v;;
           mret newFooter
         else
           st newHeader oldSize;;
           getFooterFromHeader newHeader);
      v ← ld newHeader;
      st newHeader (Z.lor v 1);;
      v ← ld newHeader;
      st newFooter v;;
      mret (u64 (newHeader + 8))
  end.

(** [heapFree]'s merge with the next area; returns the new footer. *)
Definition freeMergeNext (header footer heap hsize : Z) : M kheap Z :=
  let nextHeader := u64 (footer + 8) in
  (* the bound is memArea_t pointer arithmetic: 8 * heapSize bytes *)
  if nextHeader <? u64 (heap + 8 * hsize) then
    nv ← ld nextHeader;
    if negb (has nv AREA_INUSE) then
      nextFooter ← getFooterFromHeader nextHeader;
      hv ← ld header;
      nv ← ld nextHeader;
      st header (u64 (hv + nv));;
      hv ← ld header;
      st nextFooter hv;;
      mret nextFooter
    else mret footer
  else mret footer.

(** [heapFree]'s merge with the previous area. *)
Definition freeMergePrev (header footer : Z) : M kheap unit :=
  let prevFooter := u64 (header - 8) in
  prevHeader ← getHeaderFromFooter prevFooter;
  pv ← ld prevFooter;
  if negb (pv =? 0) && negb (has pv AREA_INUSE) then
    phv ← ld prevHeader;
    hv ← ld header;
    st prevHeader (u64 (phv + hv));;
    phv ← ld prevHeader;
    st footer phv
  else mret tt.

Definition heapFree (addr heap hsize : Z) : M kheap unit :=
  if (heap <=? addr) && (addr <? u64 (heap + hsize)) then
    let header := u64 (addr - 8) in
    v ← ld header;
    if negb (has v AREA_INUSE) then mret tt   (* already freed *)
    else
      st header (Z.land v (2 ^ 64 - 2));;     (* &= ~AREA_INUSE *)
      footer ← getFooterFromHeader header;
      footer ← freeMergeNext header footer heap hsize;
      fv ← ld footer;
      st footer (Z.land fv (2 ^ 64 - 2));;
      freeMergePrev header footer
  else mret tt.

(** [size] rounded up to [HEAP_ALIGN], as [kmalloc] and [krealloc] do. *)
Definition roundSize (size : Z) : Z :=
  if size mod HEAP_ALIGN =? 0 then size
  else u64 (size - size mod HEAP_ALIGN + HEAP_ALIGN).

(** [kmalloc]: map the new pages behind the heap, turn them into part of
    the area at [newHeader] and try again. *)
Definition growBy (newHeader newArea remaining size hs : Z) : M kheap Z :=
  allocPageAt newArea remaining;;
  let more := align remaining PAGE_SIZE in
  v ← ld newHeader;
  st newHeader (u64 (v + more));;
  modify (fun h => set_heapSize h (u64 (heapSize h + more)));;
  newFooter ← getFooterFromHeader newHeader;
  v ← ld newHeader;
  st newFooter v;;
  hsize ← gets heapSize;
  heapAlloc size hs hsize.

(** The branch of [kmalloc] that allocates more heap space. *)
Definition growHeap (size : Z) : M kheap Z :=
  hs ← gets heapStart;
  hsize ← gets heapSize;
  let size := align size HEAP_ALIGN in
  let totalSize := u64 (size + 16) in
  let newArea := u64 (hs + hsize) in
  let lastFooter := u64 (newArea - 16) in
  lf ← ld lastFooter;
  if has lf AREA_INUSE then
    let newHeader := u64 (lastFooter + 8) in
    st newHeader 0;;
    growBy newHeader newArea totalSize size hs
  else
    newHeader ← getHeaderFromFooter lastFooter;
    v ← ld newHeader;
    growBy newHeader newArea (u64 (totalSize - v)) size hs.

Definition kmalloc (size : Z) : M kheap Z :=
  if size =? 0 then mret 0
  else if MAX_ALLOC <? size then mret 0
  else
    let size := roundSize size in
    acquireHeapLock;;
    hs ← gets heapStart;
    hsize ← gets heapSize;
    retVal ← heapAlloc size hs hsize;
    retVal ← (if retVal =? 0 then growHeap size else mret retVal);
    releaseHeapLock;;
    mret retVal.

(** [memset(p, 0, n)] on words; the last [n mod 8] bytes are the low bytes
    of their word. *)
Fixpoint zeroWords (p : Z) (n : nat) : M kheap unit :=
  match n with
  | O => mret tt
  | S n => st p 0;; zeroWords (u64 (p + 8)) n
  end.
Definition memset0 (p n : Z) : M kheap unit :=
  zeroWords p (Z.to_nat (n / 8));;
  if n mod 8 =? 0 then mret tt
  else
    let q := u64 (p + 8 * (n / 8)) in
    v ← ld q;
    st q (v - v mod 2 ^ (8 * (n mod 8))).

Definition kzalloc (size : Z) : M kheap Z :=
  ret ← kmalloc size;
  if ret =? 0 then mret 0
  else memset0 ret size;; mret ret.

Definition kfree (addr : Z) : M kheap unit :=
  if addr =? 0 then mret tt
  else
    hs ← gets heapStart;
    hsize ← gets heapSize;
    if (hs <? addr) && (addr <? u64 (hs + hsize)) then
      acquireHeapLock;;
      heapFree addr hs hsize;;
      releaseHeapLock
    else mret tt.

(** [memcpy] of a multiple of 8 bytes. *)
Fixpoint copyWords (dst src : Z) (n : nat) : M kheap unit :=
  match n with
  | O => mret tt
  | S n => v ← ld src; st dst v;; copyWords (u64 (dst + 8)) (u64 (src + 8)) n
  end.

Definition krealloc (addr newSize : Z) : M kheap Z :=
  if addr =? 0 then kmalloc newSize
  else if newSize =? 0 then kfree addr;; mret 0
  else
    let newSize := roundSize newSize in
    acquireHeapLock;;
    let curHeader := u64 (addr - 8) in
    curFooter0 ← getFooterFromHeader curHeader;
    let nextHeader := u64 (curFooter0 + 8) in
    cv ← ld curHeader;
    let oldSize := u64 (Z.land cv AREA_SIZE - 16) in
    if newSize <=? oldSize then
      (* shrink *)
      let diff := u64 (oldSize - newSize + 16) in
      if diff <? HEAP_ALIGN * 4 then
        releaseHeapLock;; mret addr
      else
        st curHeader (Z.lor newSize AREA_INUSE);;
        curFooter ← getFooterFromHeader curHeader;
        v ← ld curHeader;
        st curFooter v;;
        let newHeader := u64 (curFooter + 8) in
        nv ← ld nextHeader;
        (if has nv AREA_INUSE then
           st newHeader diff;;
           newFooter ← getFooterFromHeader newHeader;
           v ← ld newHeader;
           st newFooter v
         else
           nextFooter ← getFooterFromHeader nextHeader;
           st newHeader (u64 (nv + diff));;
           v ← ld newHeader;
           st nextFooter v);;
        releaseHeapLock;;
        mret addr
    else
      (* expand *)
      let moreNeeded := u64 (newSize - oldSize) in
      nv ← ld nextHeader;
      if has nv AREA_INUSE || (Z.land nv AREA_SIZE <=? moreNeeded) then
        releaseHeapLock;;
        newAddr ← kmalloc newSize;
        copyWords newAddr addr (Z.to_nat (oldSize / 8));;
        kfree addr;;
        mret newAddr
      else
        nextFooter ← getFooterFromHeader nextHeader;
        st curHeader (Z.lor (u64 (newSize + 16)) AREA_INUSE);;
        if moreNeeded =? Z.land nv AREA_SIZE then
          v ← ld curHeader;
          st nextFooter v;;
          releaseHeapLock;;
          mret addr
        else
          newFooter ← getFooterFromHeader curHeader;
          v ← ld curHeader;
          st newFooter v;;
          fv ← ld nextFooter;
          st nextFooter (u64 (fv - u64 (newSize - oldSize)));;
          fv ← ld nextFooter;
          st (u64 (newFooter + 8)) fv;;
          releaseHeapLock;;
          mret addr.
End heap.

(** Concrete runs on zero-filled pages. *)
Definition zeroFill : Z -> Z := fun _ => 0.
Definition ret_of {A} (o : outcome (A * kheap)) : option A :=
  match o with Done (a, _) => Some a | _ => None end.

(** ** The tiling invariant *)

(** An area: its size (tags included) and whether it is in use. *)
Notation area := (Z * bool)%type.
Definition tag (b : area) : Z := fst b + Z.b2z (snd b).

Fixpoint total (bs : list area) : Z :=
  match bs with [] => 0 | b :: r => fst b + total r end.

Definition wf_size (n : Z) : Prop := 16 <= n < 2 ^ 32 /\ n mod 16 = 0.

(** The areas [bs] lie side by side from address [a], each with its tag in
    its first and in its last word. *)
Fixpoint tiled (m : gmap Z Z) (a : Z) (bs : list area) : Prop :=
  match bs with
  | [] => True
  | b :: r =>
      m !! a = Some (tag b) /\ m !! (a + fst b - 8) = Some (tag b) /\
      wf_size (fst b) /\ tiled m (a + fst b) r
  end.

(** A word outside the tiles that the code reads as a tag. *)
Definition guard_word (v : Z) : Prop := v = 0 \/ has v AREA_INUSE = true.

Record heap_inv (h : kheap) (bs : list area) : Prop := {
  hi_start : heapStart h = HEAP_BASE + 8;
  hi_tiled : tiled (hmem h) (HEAP_BASE + 8) bs;
  hi_total : total bs = heapSize h - 8;
  hi_page : (heapSize h + 8) mod PAGE_SIZE = 0;
  hi_size : PAGE_SIZE - 8 <= heapSize h < 2 ^ 27 - 8;
  hi_mapped : forall a, a mod 8 = 0 ->
    HEAP_BASE <= a < HEAP_BASE + 8 + heapSize h -> is_Some (hmem h !! a);
  hi_lo : exists v, hmem h !! HEAP_BASE = Some v /\ guard_word v;
  hi_hi : exists v, hmem h !! (HEAP_BASE + heapSize h) = Some v /\ guard_word v
}.

(** The blocks handed out: address and usable size, in address order. *)
Fixpoint live (a : Z) (bs : list area) : list (Z * Z) :=
  match bs with
  | [] => []
  | b :: r => (if snd b then [(a + 8, fst b - 16)] else []) ++ live (a + fst b) r
  end.

Section tiling.
Lemma total_app l1 l2 : total (l1 ++ l2) = total l1 + total l2.
Proof. induction l1; simpl; lia. Qed.

Lemma tiled_app m a l1 l2 :
  tiled m a (l1 ++ l2) <-> tiled m a l1 /\ tiled m (a + total l1) l2.
Proof.
  revert a. induction l1 as [|b l1 IH]; intros a; simpl.
  - rewrite Z.add_0_r. tauto.
  - rewrite IH. replace (a + fst b + total l1) with (a + (fst b + total l1)) by lia.
    tauto.
Qed.

Lemma tiled_total_nonneg m a bs : tiled m a bs -> 0 <= total bs.
Proof.
  revert a. induction bs as [|b bs IH]; intros a; simpl; [lia|].
  intros (_ & _ & [? ?] & Ht). specialize (IH _ Ht). lia.
Qed.

Lemma tiled_total_mod m a bs : tiled m a bs -> total bs mod 16 = 0.
Proof.
  revert a. induction bs as [|b bs IH]; intros a; simpl; [done|].
  intros (_ & _ & [? ?] & Ht). specialize (IH _ Ht). dlia.
Qed.

(** Words outside the tiles do not matter. *)
Lemma tiled_frame m m' a bs :
  (forall k, a <= k < a + total bs -> m' !! k = m !! k) ->
  tiled m a bs -> tiled m' a bs.
Proof.
  revert a. induction bs as [|b bs IH]; intros a Hm; simpl in *; [done|].
  intros (H1 & H2 & [? ?] & Ht). pose proof (tiled_total_nonneg _ _ _ Ht).
  rewrite !Hm by lia. split_and!; try done. apply IH; [|done].
  intros k Hk. apply Hm. lia.
Qed.

Lemma tiled_insert m a bs k v :
  ~ (a <= k < a + total bs) -> tiled m a bs -> tiled (<[k := v]> m) a bs.
Proof.
  intros Hk. apply tiled_frame. intros j Hj. apply lookup_insert_ne. lia.
Qed.

Lemma live_app a l1 l2 : live a (l1 ++ l2) = live a l1 ++ live (a + total l1) l2.
Proof.
  revert a. induction l1 as [|b l1 IH]; intros a; simpl; [by rewrite Z.add_0_r|].
  rewrite IH, <- app_assoc. do 3 f_equal. lia.
Qed.

Lemma tag_area n u : wf_size n -> Z.land (n + Z.b2z u) AREA_SIZE = n.
Proof.
  intros [? ?]. unfold AREA_SIZE. change (2 ^ 64 - 16) with (2 ^ 64 - 2 ^ 4).
  rewrite land_high_mask by (destruct u; simpl; lia).
  destruct u; simpl Z.b2z; change (2 ^ 4) with 16; dlia.
Qed.

Lemma tag_inuse n u : wf_size n -> has (n + Z.b2z u) AREA_INUSE = u.
Proof.
  intros [? ?]. unfold AREA_INUSE. destruct u; simpl Z.b2z.
  - apply has_1_odd. dlia.
  - apply has_1_even. dlia.
Qed.

Lemma tag_set n : wf_size n -> Z.lor (n + 0) 1 = n + 1.
Proof. intros [? ?]. rewrite Z.add_0_r. apply lor_1_even. dlia. Qed.

Lemma tag_clear n u : wf_size n -> Z.land (n + Z.b2z u) (2 ^ 64 - 2) = n.
Proof.
  intros [? ?]. change (2 ^ 64 - 2) with (2 ^ 64 - 2 ^ 1).
  rewrite land_high_mask by (destruct u; simpl; lia).
  destruct u; simpl Z.b2z; change (2 ^ 1) with 2; dlia.
Qed.
End tiling.

(** ** Symbolic execution of the heap's memory operations *)

Section heap_wp.
Lemma wp_ld h a v (Q : Z -> kheap -> Prop) :
  hmem h !! a = Some v -> Q v h -> wp (ld a) h Q.
Proof. intros Hv HQ. apply wp_deref. eauto. Qed.

Lemma wp_st h a v (Q : unit -> kheap -> Prop) :
  is_Some (hmem h !! a) -> 0 <= v < 2 ^ 64 ->
  Q tt (set_hmem h (<[a := v]> (hmem h))) -> wp (st a v) h Q.
Proof.
  intros [w Hw] Hv HQ. unfold wp, st. by rewrite Hw, uwrap_small.
Qed.

Lemma wp_footer h a n u (Q : Z -> kheap -> Prop) :
  hmem h !! a = Some (n + Z.b2z u) -> wf_size n -> 0 <= a -> a + n < 2 ^ 64 ->
  Q (a + n - 8) h -> wp (getFooterFromHeader a) h Q.
Proof.
  intros Hv Hn Ha Hb HQ. pose proof (proj1 Hn).
  unfold getFooterFromHeader. apply wp_bind. eapply wp_ld; [done|].
  apply wp_ret. rewrite tag_area by done. rewrite !uwrap_small; [done|lia|].
  rewrite uwrap_small; lia.
Qed.

Lemma wp_header h a n u (Q : Z -> kheap -> Prop) :
  hmem h !! a = Some (n + Z.b2z u) -> wf_size n -> 0 <= a - n -> a + 8 < 2 ^ 64 ->
  Q (a - n + 8) h -> wp (getHeaderFromFooter a) h Q.
Proof.
  intros Hv Hn Ha Hb HQ. pose proof (proj1 Hn).
  unfold getHeaderFromFooter. apply wp_bind. eapply wp_ld; [done|].
  apply wp_ret. rewrite tag_area by done. rewrite !uwrap_small; [done|lia|].
  rewrite uwrap_small; lia.
Qed.
End heap_wp.

(** Look a word up through a chain of stores. *)
Ltac lk :=
  simpl hmem;
  repeat lazymatch goal with
  | |- context [<[?k := ?v]> ?m !! ?j] =>
      first [ rewrite (lookup_insert_eq m k v)
            | rewrite (lookup_insert_ne m k j v) by lia
            | replace j with k by lia ]
  end;
  eauto.

(** One step of a heap function; side conditions go to [lk] and [lia]. *)
Ltac hstep :=
  lazymatch goal with
  | |- wp (_ ≫= _) _ _ => apply wp_bind
  | |- wp (mret _) _ _ => apply wp_ret
  | |- wp (gets _) _ _ => apply wp_gets
  | |- wp (modify _) _ _ => apply wp_modify
  | |- wp (ld _) _ _ => eapply wp_ld; [by lk|]
  | |- wp (st _ _) _ _ => eapply wp_st; [by lk|lia|]
  | |- wp (getFooterFromHeader _) _ _ =>
      eapply wp_footer; [by lk|done|lia|lia|]
  | |- wp (getHeaderFromFooter _) _ _ =>
      eapply wp_header; [by lk|done|lia|lia|]
  end; cbv beta.
Ltac hsteps := repeat hstep.

(** ** First fit *)

Fixpoint first_fit (n : Z) (bs : list area) : option (list area * Z * list area) :=
  match bs with
  | [] => None
  | (sz, u) :: r =>
      if negb u && (n <=? sz) then Some ([], sz, r)
      else match first_fit n r with
           | Some (pre, s, post) => Some ((sz, u) :: pre, s, post)
           | None => None
           end
  end.

(** What [heapAlloc] leaves of a free area of [sz] bytes. *)
Definition carve (n sz : Z) : list area :=
  if HEAP_ALIGN <? sz - n then [(n, true); (sz - n, false)] else [(sz, true)].

Section first_fit.
Lemma first_fit_spec n bs pre sz post :
  first_fit n bs = Some (pre, sz, post) ->
  bs = pre ++ (sz, false) :: post /\ n <= sz.
Proof.
  revert pre. induction bs as [|[s u] bs IH]; intros pre; simpl; [done|].
  destruct u; simpl; [|destruct (Z.leb_spec n s)].
  2:{ intros [= <- <- <-]. auto. }
  all: destruct (first_fit n bs) as [[[pre' s'] post']|]; [|done].
  all: intros [= <- <- <-]; destruct (IH pre' eq_refl) as [-> ?]; auto.
Qed.

Lemma first_fit_none n bs sz :
  first_fit n bs = None -> In (sz, false) bs -> sz < n.
Proof.
  induction bs as [|[s u] bs IH]; simpl; [done|].
  destruct u; simpl; [|destruct (Z.leb_spec n s)]; [| done |].
  all: destruct (first_fit n bs) as [[[? ?] ?]|]; [done|].
  all: intros _ [[= <-]|?]; [lia|auto] || (intros _ [[=]|?]; auto).
Qed.

Lemma tiled_length m a bs : tiled m a bs -> 16 * Z.of_nat (length bs) <= total bs.
Proof.
  revert a. induction bs as [|b bs IH]; intros a; simpl total; [simpl; lia|].
  intros (_ & _ & [? ?] & Ht). specialize (IH _ Ht). simpl length. lia.
Qed.

Lemma findArea_spec h bs a n limit fuel :
  tiled (hmem h) a bs -> limit = a + total bs -> 0 <= a -> limit < 2 ^ 64 ->
  (length bs < fuel)%nat ->
  wp (findArea fuel n a limit) h (fun r h' => h' = h /\
    r = match first_fit n bs with
        | Some (pre, _, _) => Some (a + total pre)
        | None => None
        end).
Proof.
  revert a fuel. induction bs as [|[sz u] bs IH]; intros a fuel Ht Hlim Ha Hmax Hf;
    (destruct fuel as [|fuel]; [simpl in Hf; lia|]); simpl.
  - simpl in Hlim. destruct (Z.ltb_spec a limit); [lia|]. done.
  - simpl in Hlim, Hf. destruct Ht as (H1 & H2 & Hsz & Ht). simpl fst in *.
    unfold tag in *; simpl fst in *; simpl snd in *.
    pose proof (tiled_total_nonneg _ _ _ Ht). pose proof (proj1 Hsz).
    destruct (Z.ltb_spec a limit); [|lia].
    hsteps. rewrite tag_inuse by done.
    assert (Hfit : negb u && (n <=? sz + Z.b2z u) = negb u && (n <=? sz)).
    { destruct u; [done|]. simpl. by rewrite Z.add_0_r. }
    rewrite Hfit. destruct (negb u && (n <=? sz)).
    { hsteps. simpl. by rewrite Z.add_0_r. }
    destruct (Z.eqb_spec (sz + Z.b2z u) 0); [destruct u; simpl in *; lia|].
    rewrite tag_area, uwrap_small by (done || lia).
    wp_use (IH (a + sz) fuel); [done|lia..|].
    intros r h' [-> ->]. split; [done|].
    destruct (first_fit n bs) as [[[pre s] post]|]; [|done]. simpl. f_equal. lia.
Qed.
End first_fit.

(** The area that follows, when it is free, and what is after it. *)
Definition take_next (post : list area) : Z * list area :=
  match post with
  | (j, false) :: r => (j, r)
  | _ => (0, post)
  end.

(** The area before, when it is free, and what is before that. *)
Fixpoint take_prev (pre : list area) : list area * Z :=
  match pre with
  | [] => ([], 0)
  | [(k, false)] => ([], k)
  | b :: r => let '(p, k) := take_prev r in (b :: p, k)
  end.

(** Freeing an area of [n] bytes: it coalesces with its free neighbours. *)
Definition coalesce (pre : list area) (n : Z) (post : list area) : list area :=
  let '(p, k) := take_prev pre in
  let '(j, q) := take_next post in
  p ++ (k + n + j, false) :: q.

(** Same globals, and memory changed only in [lo, hi). *)
Definition framed (lo hi : Z) (h h' : kheap) : Prop :=
  heapStart h' = heapStart h /\ heapSize h' = heapSize h /\
  heapLock h' = heapLock h /\
  (forall k, ~ (lo <= k < hi) -> hmem h' !! k = hmem h !! k) /\
  (forall k, is_Some (hmem h !! k) -> is_Some (hmem h' !! k)).

Lemma framed_mapped_insert (m : gmap Z Z) a v k :
  is_Some (m !! k) -> is_Some (<[a := v]> m !! k).
Proof. rewrite lookup_insert. case_decide; eauto. Qed.

Ltac framed_tac :=
  unfold framed; simpl; split_and!;
  first [ done | intros; by lk | intros; repeat apply framed_mapped_insert; done ].

Section alloc.
(** Replacing some of the tiles by tiles of the same total size, inside
    their addresses, keeps the invariant. *)
Lemma heap_inv_replace h h' pre mid mid' post :
  heap_inv h (pre ++ mid ++ post) ->
  framed (HEAP_BASE + 8 + total pre) (HEAP_BASE + 8 + total pre + total mid) h h' ->
  total mid' = total mid ->
  tiled (hmem h') (HEAP_BASE + 8 + total pre) mid' ->
  heap_inv h' (pre ++ mid' ++ post).
Proof.
  intros [Hs Ht Htot Hp Hsz Hm Hlo Hhi] (F1 & F2 & F3 & Fr & Fm) Hmid Htm.
  rewrite !total_app in Htot. rewrite !tiled_app in Ht. destruct Ht as (T1 & T2 & T3).
  pose proof (tiled_total_nonneg _ _ _ T1). pose proof (tiled_total_nonneg _ _ _ T2).
  pose proof (tiled_total_nonneg _ _ _ T3).
  split; rewrite ?F1, ?F2; try done.
  - rewrite !tiled_app. split_and!; [| done |].
    + eapply tiled_frame; [|done]. intros k Hk. apply Fr. lia.
    + rewrite Hmid. eapply tiled_frame; [|done]. intros k Hk. apply Fr. lia.
  - rewrite !total_app. lia.
  - intros a Ha Hb. apply Fm. eauto.
  - rewrite Fr; [done|]. lia.
  - rewrite Fr; [done|]. lia.
Qed.

Lemma heapAlloc_spec h bs size :
  heap_inv h bs -> 16 <= size < 2 ^ 31 -> size mod 16 = 0 ->
  wp (heapAlloc size (HEAP_BASE + 8) (heapSize h)) h (fun p h' =>
    match first_fit (size + 16) bs with
    | None => p = 0 /\ h' = h
    | Some (pre, sz, post) =>
        p = HEAP_BASE + 8 + total pre + 8 /\
        heap_inv h' (pre ++ carve (size + 16) sz ++ post) /\
        framed (HEAP_BASE + 8 + total pre) (HEAP_BASE + 8 + total pre + sz) h h'
    end).
Proof.
  intros Hinv Hsz Hmod. pose proof Hinv as [_ Ht Htot _ Hhs _ _ _].
  pose proof (tiled_length _ _ _ Ht) as Hlen. unfold HEAP_BASE, PAGE_SIZE in *.
  unfold heapAlloc. rewrite !(uwrap_small 64) by (rewrite ?uwrap_small; lia).
  apply wp_bind. wp_use (findArea_spec h bs);
    [done|lia|lia|lia| unfold searchFuel, HEAP_ALIGN; dlia |].
  intros r h' [-> ->].
  destruct (first_fit (size + 16) bs) as [[[pre sz] post]|] eqn:Hff; [|by hsteps].
  apply first_fit_spec in Hff as [-> Hn].
  rewrite total_app in Htot. simpl in Htot.
  apply tiled_app in Ht as [Tpre Ht]. pose proof Ht as (H1 & H2 & Hwf & Tpost).
  unfold tag in *; simpl fst in *; simpl snd in *. pose proof Hwf as [? ?].
  pose proof (tiled_total_nonneg _ _ _ Tpre). pose proof (tiled_total_nonneg _ _ _ Tpost).
  remember (0xFFFFFFFFC0000000 + 8 + total pre) as a eqn:Ha.
  assert (Hwn : wf_size (size + 16)) by (unfold wf_size; dlia).
  assert (Hinv' : heap_inv h (pre ++ [(sz, false)] ++ post)) by done.
  assert (Hmap : forall k, k mod 16 = 0 -> 0 <= k <= sz ->
    is_Some (hmem h !! (a + k)) /\ is_Some (hmem h !! (a + k - 8))).
  { intros k Hk Hr. pose proof (tiled_total_mod _ _ _ Tpre). destruct Hinv as [_ _ _ _ _ Hm _ _].
    split; apply Hm; unfold HEAP_BASE; dlia. }
  pose proof (Hmap (size + 16)) as [Hm1 Hm2]; [dlia|lia|].
  hsteps. eapply wp_footer with (n := size + 16) (u := false); [lk; by rewrite Z.add_0_r|done|lia|lia|].
  hsteps. rewrite (uwrap_small 64) by (simpl; lia). unfold carve.
  replace (sz + Z.b2z false - (size + 16)) with (sz - (size + 16)) by (simpl; lia).
  destruct (Z.ltb_spec HEAP_ALIGN (sz - (size + 16))); unfold HEAP_ALIGN in *; hsteps.
  - assert (Hwr : wf_size (sz - (size + 16))) by (unfold wf_size; dlia).
    eapply wp_header with (n := sz - (size + 16)) (u := false);
      [lk; simpl; by rewrite Z.add_0_r|done|lia|lia|].
    replace (a + sz - 8 - (sz - (size + 16)) + 8) with (a + (size + 16)) by lia.
    hsteps. rewrite lor_1_even by dlia. hsteps. rewrite uwrap_small by lia.
    split; [done|]. match goal with |- heap_inv ?h' _ /\ _ => assert (Hfr : framed a (a + sz) h h') end.
    { framed_tac. }
    split; [|done].
    apply (heap_inv_replace h _ pre [(sz, false)] _ post); [done| |simpl; lia|].
    { unfold HEAP_BASE. rewrite <- Ha. simpl. by rewrite Z.add_0_r. }
    unfold HEAP_BASE. rewrite <- Ha. simpl; unfold tag; simpl. split_and!; try done; lk; f_equal; lia.
  - simpl Z.b2z in *. rewrite Z.add_0_r in *. hsteps.
    eapply wp_footer with (n := sz) (u := false); [lk; by rewrite Z.add_0_r|done|lia|lia|].
    hsteps. rewrite lor_1_even by dlia. hsteps.
    rewrite uwrap_small by lia.
    split; [done|]. match goal with |- heap_inv ?h' _ /\ _ => assert (Hfr : framed a (a + sz) h h') end.
    { framed_tac. }
    split; [|done].
    apply (heap_inv_replace h _ pre [(sz, false)] _ post); [done| |simpl; lia|].
    { unfold HEAP_BASE. rewrite <- Ha. simpl. by rewrite Z.add_0_r. }
    unfold HEAP_BASE. rewrite <- Ha. simpl; unfold tag; simpl. split_and!; try done; lk; f_equal; lia.
Qed.
End alloc.

Section free.
Lemma take_prev_cases pre :
  (pre = [] /\ take_prev pre = ([], 0)) \/
  (exists p n, pre = p ++ [(n, true)] /\ take_prev pre = (pre, 0)) \/
  (exists p k, pre = p ++ [(k, false)] /\ take_prev pre = (p, k)).
Proof.
  induction pre as [|[n u] pre IH]; [by left|]. right.
  destruct IH as [[-> IH]|[(p & m & -> & IH)|(p & k & -> & IH)]].
  - destruct u; [left|right]; exists [], n; done.
  - left. exists ((n, u) :: p), m. split; [done|].
    destruct p, u; simpl in *; by rewrite ?IH.
  - right. exists ((n, u) :: p), k. split; [done|].
    destruct p, u; simpl in *; by rewrite ?IH.
Qed.

(** The word after an area: the next area's header, or the upper guard. *)
Lemma next_word h pre n u post :
  heap_inv h (pre ++ (n, u) :: post) ->
  exists v, hmem h !! (HEAP_BASE + 8 + total pre + n) = Some v /\
    ((has v AREA_INUSE = true /\ take_next post = (0, post)) \/
     (v = 0 /\ post = []) \/
     exists j r, v = j /\ post = (j, false) :: r /\ wf_size j /\
       hmem h !! (HEAP_BASE + 8 + total pre + n + j - 8) = Some j).
Proof.
  intros [_ Ht Htot _ _ _ _ Hhi]. rewrite total_app in Htot. simpl in Htot.
  apply tiled_app in Ht as [_ (_ & _ & _ & Ht)]. simpl in *.
  destruct post as [|[j b] r].
  - simpl in Htot. destruct Hhi as (v & Hv & Hg). exists v.
    replace (HEAP_BASE + 8 + total pre + n) with (HEAP_BASE + heapSize h) by lia.
    split; [done|]. destruct Hg; auto.
  - destruct Ht as (H1 & H2 & Hw & _). unfold tag in *; simpl in *.
    exists (j + Z.b2z b). split; [done|]. destruct b; simpl in *.
    + left. split; [|done]. by apply (tag_inuse j true).
    + right; right. rewrite Z.add_0_r in *. eauto 10.
Qed.

Lemma freeMergeNext_spec h a n j v hsize :
  hmem h !! a = Some n ->
  hmem h !! (a + n - 8) = Some (n + 1) ->
  hmem h !! (a + n) = Some v ->
  ((has v AREA_INUSE = true /\ j = 0) \/ (v = 0 /\ j = 0) \/
   (v = j /\ wf_size j /\ hmem h !! (a + n + j - 8) = Some j)) ->
  wf_size n -> 0 <= j < 2 ^ 27 -> n < 2 ^ 27 ->
  HEAP_BASE + 8 <= a -> a + n + j <= HEAP_BASE + hsize -> hsize < 2 ^ 27 - 8 ->
  wp (freeMergeNext a (a + n - 8) (HEAP_BASE + 8) hsize) h (fun f h' =>
    f = a + n + j - 8 /\ framed a (a + n + j) h h' /\
    hmem h' !! a = Some (n + j) /\
    exists u, hmem h' !! f = Some (n + j + Z.b2z u)).
Proof.
  intros Ha Hf Hn Hj Hwf Hjr Hnr Hlo Hhi Hs. pose proof Hwf as [? ?].
  unfold freeMergeNext, HEAP_BASE in *. rewrite !uwrap_small by lia.
  replace (a + n - 8 + 8) with (a + n) by lia.
  destruct (Z.ltb_spec (a + n) (18446744072635809792 + 8 + 8 * hsize)); [|lia].
  hstep. hstep.
  destruct Hj as [[Hv ->]|[[-> ->]|(-> & Hwj & Hfj)]].
  - rewrite Hv. simpl negb. cbv iota. hstep. rewrite !Z.add_0_r.
    split_and!; [lia|framed_tac|done|]. by exists true.
  - change (negb (has 0 AREA_INUSE)) with true. cbv iota. unfold getFooterFromHeader.
    hsteps. rewrite Z.land_0_l, !uwrap_small by (rewrite ?uwrap_small; lia).
    rewrite !Z.add_0_r in *. hsteps. rewrite ?(uwrap_small 64) by lia. hsteps.
    split_and!; [lia|framed_tac|by lk|].
    exists false. rewrite Z.add_0_r. lk.
  - pose proof Hwj as [? ?].
    replace j with (j + Z.b2z false) in Hn, Hfj at 1 by (simpl; lia).
    replace (has j AREA_INUSE) with false
      by (symmetry; pose proof (tag_inuse j false Hwj) as E; by rewrite Z.add_0_r in E).
    cbv [negb]. rewrite Z.add_0_r in *.
    hstep. eapply wp_footer with (n := j) (u := false); [by rewrite Z.add_0_r|done|lia|lia|].
    hsteps. rewrite uwrap_small by lia. hsteps.
    split_and!; [done|framed_tac|by lk|]. exists false. rewrite Z.add_0_r. lk.
Qed.

(** What the invariant says of one area. *)
Lemma area_facts h pre n u post :
  heap_inv h (pre ++ (n, u) :: post) ->
  let a := HEAP_BASE + 8 + total pre in
  hmem h !! a = Some (n + Z.b2z u) /\ hmem h !! (a + n - 8) = Some (n + Z.b2z u) /\
  wf_size n /\ 0 <= total pre /\ 0 <= total post /\
  total pre + n + total post = heapSize h - 8 /\ heapSize h < 2 ^ 27 - 8 /\
  total pre mod 16 = 0.
Proof.
  intros [_ Ht Htot _ Hhs _ _ _] a. rewrite total_app in Htot. simpl in Htot.
  apply tiled_app in Ht as [Tp (H1 & H2 & Hw & Tq)]. unfold tag in *. simpl in *.
  pose proof (tiled_total_nonneg _ _ _ Tp). pose proof (tiled_total_nonneg _ _ _ Tq).
  pose proof (tiled_total_mod _ _ _ Tp). subst a. split_and!; try done; lia.
Qed.

Lemma freeMergePrev_spec h pre n post a :
  heap_inv h (pre ++ (n, false) :: post) -> a = HEAP_BASE + 8 + total pre ->
  wp (freeMergePrev a (a + n - 8)) h (fun _ h' =>
    heap_inv h' ((take_prev pre).1 ++ ((take_prev pre).2 + n, false) :: post) /\
    framed (a - (take_prev pre).2) (a + n) h h' /\ hmem h' !! a = hmem h !! a).
Proof.
  intros Hinv Ea. pose proof (area_facts _ _ _ _ _ Hinv) as (H1 & H2 & [Hn Hn'] & F).
  rewrite <- Ea, Z.add_0_r in *. simpl in H1, H2.
  assert (Hlo : forall v, hmem h !! (a - 8) = Some v -> guard_word v ->
    wp (freeMergePrev a (a + n - 8)) h (fun _ h' => h' = h)).
  { intros v Hv Hg. unfold freeMergePrev, HEAP_BASE in *. rewrite uwrap_small by lia.
    unfold getHeaderFromFooter. hsteps.
    destruct Hg as [-> | ->]; [done|]. by rewrite andb_false_r. }
  destruct (take_prev_cases pre) as [[-> Htp]|[(p & m & Hp & Htp)|(p & k & -> & Htp)]];
    rewrite Htp; simpl fst; simpl snd.
  - destruct (hi_lo _ _ Hinv) as (v & Hv & Hg). simpl in Ea.
    wp_use (Hlo v); [by replace (a - 8) with HEAP_BASE by lia|done|].
    intros _ h' ->. split_and!; [done|framed_tac|done].
  - assert (Hinv' : heap_inv h (p ++ (m, true) :: (n, false) :: post))
      by (rewrite Hp, <- app_assoc in Hinv; done).
    pose proof (area_facts _ _ _ _ _ Hinv') as (G1 & G2 & Hm & _).
    rewrite Hp, total_app in Ea. simpl in Ea.
    wp_use (Hlo (m + 1)); [|right; by apply (tag_inuse m true)|].
    { replace (a - 8) with (HEAP_BASE + 8 + total p + m - 8) by lia. done. }
    intros _ h' ->. split_and!; [done|framed_tac|done].
  - rewrite <- app_assoc in Hinv. simpl in Hinv.
    pose proof (area_facts _ _ _ _ _ Hinv) as (G1 & G2 & [Hk Hk'] & G).
    rewrite total_app in Ea, F. simpl total in *. cbv zeta in G1, G2.
    replace (HEAP_BASE + 8 + total p + k - 8) with (a - 8) in G2 by lia.
    replace (HEAP_BASE + 8 + total p) with (a - k) in G1 by lia.
    unfold freeMergePrev, HEAP_BASE in *. rewrite uwrap_small by lia.
    hstep. eapply wp_header; [done|done|lia|lia|].
    hstep. hstep. rewrite (tag_inuse k false) by done. simpl Z.b2z in *. rewrite Z.add_0_r in *.
    destruct (Z.eqb_spec k 0); [lia|]. simpl negb. simpl andb. cbv iota.
    replace (a - 8 - k + 8) with (a - k) by lia. hsteps. rewrite uwrap_small by lia. hsteps.
    match goal with |- heap_inv ?h' _ /\ _ => assert (Hfr : framed (a - k) (a + n) h h') end.
    { framed_tac. }
    split_and!; [|done|by lk]. unfold HEAP_BASE in *.
    apply (heap_inv_replace h _ p [(k, false); (n, false)] [(k + n, false)] post);
      [done| |simpl; lia|]; unfold HEAP_BASE.
    { replace (18446744072635809792 + 8 + total p) with (a - k) by lia. simpl total.
      by replace (a - k + (k + (n + 0))) with (a + n) by lia. }
    simpl. unfold tag, wf_size. simpl. rewrite Z.add_0_r. split_and!;
      [by lk|by lk|dlia..|done].
Qed.

Lemma framed_trans lo hi lo1 hi1 lo2 hi2 h h1 h2 :
  framed lo1 hi1 h h1 -> framed lo2 hi2 h1 h2 ->
  lo <= lo1 -> lo <= lo2 -> hi1 <= hi -> hi2 <= hi -> framed lo hi h h2.
Proof.
  intros (A1 & A2 & A3 & A4 & A5) (B1 & B2 & B3 & B4 & B5) ????.
  unfold framed. rewrite B1, B2, B3. split_and!; auto.
  intros k Hk. rewrite B4, A4 by lia. done.
Qed.

Lemma take_next_facts m a post :
  tiled m a post ->
  0 <= (take_next post).1 /\ (take_next post).1 mod 16 = 0 /\
  total post = (take_next post).1 + total (take_next post).2 /\
  0 <= total (take_next post).2 /\
  post = (if bool_decide ((take_next post).1 = 0) then []
          else [((take_next post).1, false)]) ++ (take_next post).2.
Proof.
  intros Ht. pose proof (tiled_total_nonneg _ _ _ Ht).
  destruct post as [|[j []] r]; simpl in *; [split_and!; done || lia..|].
  destruct Ht as (_ & _ & [? ?] & Ht). pose proof (tiled_total_nonneg _ _ _ Ht).
  simpl in *. rewrite bool_decide_eq_false_2 by lia. split_and!; done || lia.
Qed.

(** Clearing the tag and merging with the next area. *)
Lemma free_tag_spec {A} h pre n post a (k : Z -> M kheap A) Q :
  heap_inv h (pre ++ (n, true) :: post) -> a = HEAP_BASE + 8 + total pre ->
  let j := (take_next post).1 in
  (forall h', framed a (a + (n + j)) h h' ->
    heap_inv h' (pre ++ (n + j, false) :: (take_next post).2) ->
    wp (k (a + (n + j) - 8)) h' Q) ->
  wp (st a n;; footer ← getFooterFromHeader a;
      footer ← freeMergeNext a footer (HEAP_BASE + 8) (heapSize h);
      fv ← ld footer; st footer (Z.land fv (2 ^ 64 - 2));; k footer) h Q.
Proof.
  intros Hinv Ea j HQ. pose proof (area_facts _ _ _ _ _ Hinv) as (H1 & H2 & Hw & F).
  pose proof Hw as [? ?]. rewrite <- Ea in *. simpl in H1, H2.
  destruct (next_word _ _ _ _ _ Hinv) as (v & Hv & Hcases). rewrite <- Ea in *.
  pose proof (hi_tiled _ _ Hinv) as Ht. apply tiled_app in Ht as [_ (_ & _ & _ & Ht)].
  apply take_next_facts in Ht as (Hj0 & Hjm & Hjt & Hq & Hpost). fold j in Hj0, Hjm, Hjt, Hpost.
  unfold HEAP_BASE in *.
  hstep. hstep. hstep. eapply wp_footer with (n := n) (u := false); [lk; by rewrite Z.add_0_r|done|lia|lia|].
  hstep. wp_use (fun h0 => freeMergeNext_spec h0 a n j v); simpl hmem; unfold HEAP_BASE;
    [by lk|by lk|by lk| |done|lia|lia|lia|lia|lia|].
  { subst j. destruct Hcases as [[? ->]|[[-> ->]|(j & r & -> & -> & Hwj & ?)]]; simpl; auto.
    pose proof Hwj as [? ?]. right; right. split; [done|]. split; [done|]. by lk. }
  intros f h1 (-> & Hfr & Hh & u & Hu).
  assert (Hwn : wf_size (n + j)) by (unfold wf_size; split; [lia|dlia]).
  hsteps. rewrite tag_clear by done. hsteps.
  assert (Hf' : framed a (a + (n + j)) h (set_hmem h1 (<[a + n + j - 8:=n + j]> (hmem h1)))).
  { apply (framed_trans _ _ a (a + (n + j)) a (a + (n + j)) _ h1).
    { eapply framed_trans with (lo1 := a) (hi1 := a + n); [|apply Hfr|lia..]. framed_tac. }
    { framed_tac. } all: lia. }
  replace (a + n + j - 8) with (a + (n + j) - 8) in * by lia. apply HQ; [done|].
  apply (heap_inv_replace h _ pre ((n, true) :: if bool_decide (j = 0) then [] else [(j, false)])
    [(n + j, false)] (take_next post).2); unfold HEAP_BASE.
  - simpl. by rewrite <- Hpost.
  - rewrite <- Ea. case_bool_decide; simpl; [rewrite H3 in *|]; by rewrite ?Z.add_0_r in *.
  - case_bool_decide; simpl; lia.
  - rewrite <- Ea. simpl. unfold tag. simpl. rewrite Z.add_0_r.
    split_and!; [by lk|by lk|done..].
Qed.

Lemma heapFree_spec h pre n post :
  heap_inv h (pre ++ (n, true) :: post) ->
  wp (heapFree (HEAP_BASE + 8 + total pre + 8) (HEAP_BASE + 8) (heapSize h)) h (fun _ h' =>
    heap_inv h' (coalesce pre n post) /\
    framed (HEAP_BASE + 8 + total pre - (take_prev pre).2)
           (HEAP_BASE + 8 + total pre + n + (take_next post).1) h h' /\
    exists v, hmem h' !! (HEAP_BASE + 8 + total pre) = Some v /\ has v AREA_INUSE = false).
Proof.
  intros Hinv. pose proof (area_facts _ _ _ _ _ Hinv) as (H1 & H2 & Hw & F).
  pose proof Hw as [? ?]. pose proof (hi_tiled _ _ Hinv) as Ht.
  apply tiled_app in Ht as [Tp (_ & _ & _ & Ht)]. pose proof (take_next_facts _ _ _ Ht) as Hnx.
  unfold heapFree. set (a := HEAP_BASE + 8 + total pre) in *. pose proof eq_refl : a = _ as Ea.
  unfold HEAP_BASE in *. rewrite !uwrap_small by lia.
  destruct (Z.leb_spec (18446744072635809792 + 8) (a + 8)); [|lia].
  destruct (Z.ltb_spec (a + 8) (18446744072635809792 + 8 + heapSize h)); [|lia]. simpl andb. cbv iota.
  replace (a + 8 - 8) with a by lia. hstep. hstep.
  rewrite (tag_inuse n true), tag_clear by done. cbv [negb].
  eapply (free_tag_spec h pre n post a (freeMergePrev a)); [done|done|].
  intros h1 Hfr Hinv1. wp_use (freeMergePrev_spec h1 pre _ _ a Hinv1); [done|].
  intros _ h2 (Hinv2 & Hfr2 & Ha2). split_and!.
  - unfold coalesce. destruct (take_prev pre), (take_next post). simpl in *.
    by rewrite <- Z.add_assoc.
  - assert (0 <= (take_prev pre).2).
    { destruct (take_prev_cases pre) as [[-> ->]|[(p & m & _ & ->)|(p & m & E & ->)]]; simpl; [lia..|].
      rewrite E in Tp. apply tiled_app in Tp as [_ (_ & _ & [? _] & _)]. simpl in *. lia. }
    eapply framed_trans; [apply Hfr|apply Hfr2|lia..].
  - pose proof (area_facts _ _ _ _ _ Hinv1) as (G1 & _ & Hw1 & _).
    exists (n + (take_next post).1 + Z.b2z false).
    split; [by rewrite Ha2|]. by apply tag_inuse.
Qed.
End free.

Section grow.
Context (pageFill : Z -> Z).

Lemma align_spec x n :
  0 < n < 2 ^ 32 -> 0 <= x < 2 ^ 63 ->
  align x n mod n = 0 /\ x <= align x n < x + n.
Proof.
  intros Hn Hx. unfold align. pose proof (Z.mod_pos_bound x n ltac:(lia)).
  pose proof (Z.div_mod x n ltac:(lia)).
  destruct (Z.eqb_spec (x mod n) 0) as [E|E]; [lia|].
  assert (0 <= x / n) by (apply Z.div_pos; lia).
  rewrite !(uwrap_small 64) by (rewrite ?uwrap_small; nia).
  replace (x - x mod n + n) with ((x / n + 1) * n) by lia.
  rewrite Z.mod_mul by lia. lia.
Qed.

Lemma sizeToPages_align x : 0 <= x < 2 ^ 63 -> sizeToPages x * 4096 = align x PAGE_SIZE.
Proof.
  intros Hx. unfold sizeToPages, align, PAGE_SIZE.
  destruct (Z.eqb_spec (x mod 4096) 0); [dlia|].
  rewrite !(uwrap_small 64) by (rewrite ?uwrap_small; dlia). dlia.
Qed.

Lemma fresh_words_lookup addr n m k :
  fresh_words pageFill addr n m !! k =
  if bool_decide (addr <= k < addr + 8 * Z.of_nat n /\ (k - addr) mod 8 = 0)
  then Some (u64 (pageFill k)) else m !! k.
Proof.
  revert addr. induction n as [|n IH]; intros addr; cbn [fresh_words].
  { rewrite bool_decide_eq_false_2 by lia. done. }
  destruct (decide (k = addr)) as [->|Hk].
  - rewrite lookup_insert_eq, bool_decide_eq_true_2; [done|].
    split; [lia|by rewrite Z.sub_diag].
  - rewrite lookup_insert_ne, IH by done.
    erewrite bool_decide_ext; [done|]. split; intros [? ?]; dlia.
Qed.

(** The tiles once the heap has grown for a request of [n] bytes, tags
    included: a free area at the end is extended, or a new one added. *)
Definition grow_tiles (n : Z) (bs : list area) : list area :=
  let '(p, k) := take_prev bs in p ++ [(k + align (n - k) PAGE_SIZE, false)].

Lemma heap_inv_grow h h' p k more :
  (forall a, guard_word (u64 (pageFill a))) ->
  heap_inv h (p ++ if bool_decide (k = 0) then [] else [(k, false)]) ->
  wf_size (k + more) -> more mod PAGE_SIZE = 0 -> 0 < more -> 0 <= k ->
  heapSize h + more < 2 ^ 27 - 8 ->
  heapStart h' = heapStart h -> heapSize h' = heapSize h + more ->
  (forall x, ~ (HEAP_BASE + 8 + total p <= x < HEAP_BASE + 8 + heapSize h + more) ->
     hmem h' !! x = hmem h !! x) ->
  (forall x, is_Some (hmem h !! x) -> is_Some (hmem h' !! x)) ->
  (forall x, HEAP_BASE + 8 + heapSize h <= x < HEAP_BASE + 8 + heapSize h + more ->
     x mod 8 = 0 -> x <> HEAP_BASE + heapSize h + more - 8 ->
     hmem h' !! x = Some (u64 (pageFill x))) ->
  hmem h' !! (HEAP_BASE + 8 + total p) = Some (k + more) ->
  hmem h' !! (HEAP_BASE + heapSize h + more - 8) = Some (k + more) ->
  heap_inv h' (p ++ [(k + more, false)]).
Proof.
  intros Hfill Hinv Hwk Hmm Hm Hk Hroom Hs Hsz Hout Hsome Hfresh Hhd Hft.
  pose proof Hinv as [Hs0 Ht Htot Hp Hs1 Hmap Hlo Hhi].
  rewrite total_app in Htot. apply tiled_app in Ht as [Tp _].
  pose proof (tiled_total_nonneg _ _ _ Tp). unfold HEAP_BASE, PAGE_SIZE in *.
  assert (Htk : total (if bool_decide (k = 0) then [] else [(k, false)]) = k)
    by (case_bool_decide; simpl; lia).
  rewrite Htk in Htot. split; rewrite ?Hs, ?Hsz; try done; unfold HEAP_BASE, PAGE_SIZE.
  - rewrite tiled_app. split; [|simpl; unfold tag; simpl; rewrite Z.add_0_r].
    + eapply tiled_frame; [|done]. intros x Hx. apply Hout. lia.
    + split_and!; [done| |done..]. rewrite <- Hft. f_equal. lia.
  - rewrite total_app. simpl. lia.
  - dlia.
  - lia.
  - intros x Hx Hr.
    destruct (Z.lt_ge_cases x (18446744072635809792 + 8 + heapSize h)); [eauto with lia|].
    destruct (Z.eq_dec x (18446744072635809792 + heapSize h + more - 8)) as [->|]; [eauto|].
    rewrite Hfresh; [eauto|lia|done|lia].
  - rewrite Hout; [done|lia].
  - rewrite Hfresh; [eauto|dlia..].
Qed.

Lemma first_fit_app n l1 sz :
  first_fit n l1 = None -> n <= sz -> first_fit n (l1 ++ [(sz, false)]) = Some (l1, sz, []).
Proof.
  intros H Hn. induction l1 as [|[s u] l1 IH]; simpl in *.
  { destruct (Z.leb_spec n sz); [done|lia]. }
  destruct (negb u && (n <=? s)); [done|].
  destruct (first_fit n l1) as [[[? ?] ?]|]; [done|]. by rewrite IH.
Qed.

Lemma growBy_spec h h1 p k size nh :
  (forall a, guard_word (u64 (pageFill a))) ->
  heap_inv h (p ++ if bool_decide (k = 0) then [] else [(k, false)]) ->
  0 <= k < size + 16 -> k mod 16 = 0 -> first_fit (size + 16) p = None ->
  16 <= size <= MAX_ALLOC -> size mod 16 = 0 ->
  heapSize h + size + 16 + PAGE_SIZE < 2 ^ 27 - 8 ->
  nh = HEAP_BASE + 8 + total p -> nh = HEAP_BASE + heapSize h - k ->
  framed nh (nh + k + 8) h h1 -> hmem h1 !! nh = Some k ->
  let more := align (size + 16 - k) PAGE_SIZE in
  wp (growBy pageFill nh (HEAP_BASE + 8 + heapSize h) (size + 16 - k) size
       (HEAP_BASE + 8)) h1 (fun q h' =>
    q = nh + 8 /\ heap_inv h' (p ++ carve (size + 16) (k + more)) /\
    heapLock h' = heapLock h /\
    forall x, ~ (nh <= x < nh + k + 8 + more) -> hmem h' !! x = hmem h !! x).
Proof.
  intros Hfill Hinv Hk Hkm Hff Hsz Hsm Hroom Enh Enh' (F1 & F2 & F3 & Fr & Fm) Hnh more.
  pose proof (align_spec (size + 16 - k) PAGE_SIZE) as Hal. fold more in Hal.
  unfold MAX_ALLOC, PAGE_SIZE, HEAP_BASE in *. destruct Hal as [Hm1 Hm2]; [lia..|].
  pose proof (sizeToPages_align (size + 16 - k) ltac:(lia)) as Hpages.
  unfold PAGE_SIZE in Hpages. fold more in Hpages.
  pose proof Hinv as [Hs0 Ht Htot Hp Hs1 _ _ _]. unfold PAGE_SIZE in *.
  apply tiled_app in Ht as [Tp _]. pose proof (tiled_total_nonneg _ _ _ Tp).
  unfold growBy, allocPageAt, PAGE_SIZE. fold more. hstep. hstep.
  set (m1 := fresh_words pageFill _ _ _).
  assert (Hm : forall x, m1 !! x = if bool_decide
    (0xFFFFFFFFC0000000 + 8 + heapSize h <= x < 0xFFFFFFFFC0000000 + 8 + heapSize h + more /\
     (x - (0xFFFFFFFFC0000000 + 8 + heapSize h)) mod 8 = 0)
    then Some (u64 (pageFill x)) else hmem h1 !! x).
  { intros x. unfold m1. rewrite fresh_words_lookup. erewrite bool_decide_ext; [done|]. dlia. }
  assert (Hmnh : m1 !! nh = Some k) by (rewrite Hm, bool_decide_eq_false_2; [done|lia]).
  assert (Hwk : wf_size (k + more)) by (unfold wf_size; split; [lia|dlia]).
  hsteps. rewrite (uwrap_small 64 (k + more)) by lia. hsteps.
  eapply wp_footer with (n := k + more) (u := false); [lk; by rewrite Z.add_0_r|done|lia|lia|].
  replace (nh + (k + more) - 8) with (0xFFFFFFFFC0000000 + heapSize h + more - 8) by lia.
  hstep. eapply wp_ld; [by lk|]. hstep. eapply wp_st; [|lia|].
  { simpl hmem. apply framed_mapped_insert. rewrite Hm.
    rewrite bool_decide_eq_true_2; [eauto|]. split; [lia|dlia]. }
  hstep. hstep. simpl heapSize. rewrite F2. rewrite (uwrap_small 64) by lia.
  match goal with |- wp _ ?s _ => assert (Hinv2 : heap_inv s (p ++ [(k + more, false)])) end.
  { eapply (heap_inv_grow h); eauto; simpl; unfold HEAP_BASE, PAGE_SIZE; try lia.
    - intros x Hx. lk. rewrite Hm, bool_decide_eq_false_2 by lia. apply Fr. lia.
    - intros x Hx. do 2 apply framed_mapped_insert. rewrite Hm. destruct (bool_decide (_ /\ _)); [by eexists|by apply Fm].
    - intros x Hx Hx8 Hx'. lk. rewrite Hm, bool_decide_eq_true_2; [done|]. split; [lia|dlia].
    - rewrite <- Enh. lk.
    - lk. }
  pose proof (heapAlloc_spec _ _ size Hinv2 ltac:(lia) Hsm) as Halloc.
  rewrite first_fit_app in Halloc by (done || lia). unfold HEAP_BASE in *.
  simpl heapSize in Halloc. wp_use Halloc. intros q h' (-> & Hinv3 & G1 & G2 & G3 & G4 & _).
  rewrite app_nil_r in *. split_and!; [lia|done|rewrite G3; done|].
  intros x Hx. rewrite G4 by lia. simpl. lk.
  rewrite Hm, bool_decide_eq_false_2 by lia. apply Fr. lia.
Qed.

Lemma first_fit_none_app n l1 l2 : first_fit n (l1 ++ l2) = None -> first_fit n l1 = None.
Proof.
  induction l1 as [|[s u] l1 IH]; simpl; [done|].
  destruct (negb u && (n <=? s)); [done|].
  destruct (first_fit n (l1 ++ l2)) as [[[? ?] ?]|]; [done|]. intros _. by rewrite IH.
Qed.

Lemma growHeap_spec h bs size :
  (forall a, guard_word (u64 (pageFill a))) ->
  heap_inv h bs -> first_fit (size + 16) bs = None ->
  16 <= size <= MAX_ALLOC -> size mod 16 = 0 ->
  heapSize h + size + 16 + PAGE_SIZE < 2 ^ 27 - 8 ->
  wp (growHeap pageFill size) h (fun q h' => exists p k more,
    bs = p ++ (if bool_decide (k = 0) then [] else [(k, false)]) /\
    size + 16 <= k + more /\
    q = HEAP_BASE + 8 + total p + 8 /\ heap_inv h' (p ++ carve (size + 16) (k + more)) /\
    heapLock h' = heapLock h /\
    forall x, ~ (HEAP_BASE + 8 + total p <= x < HEAP_BASE + 8 + heapSize h + more) ->
      hmem h' !! x = hmem h !! x).
Proof.
  intros Hfill Hinv Hff Hsz Hsm Hroom. pose proof Hinv as [Hs0 Ht Htot Hp Hs1 _ _ _].
  unfold growHeap, MAX_ALLOC, PAGE_SIZE, HEAP_BASE in *. hstep. hstep. hstep. hstep.
  rewrite Hs0. assert (align size HEAP_ALIGN = size) as ->.
  { unfold align, HEAP_ALIGN. by rewrite Hsm. }
  set (nA := 18446744072635809792 + 8 + heapSize h). pose proof eq_refl : nA = _ as EnA.
  rewrite (uwrap_small 64 nA), (uwrap_small 64 (nA - 16)), (uwrap_small 64 (nA - 16 + 8)) by lia.
  rewrite (uwrap_small 64 (size + 16)) by lia.
  destruct (take_prev_cases bs) as [[-> _]|[(p & n & Hbs & _)|(p & k & -> & _)]].
  - simpl in Htot. lia.
  - pose proof Hinv as Hinv2. rewrite Hbs in Hinv2.
    pose proof (area_facts _ _ _ _ _ Hinv2) as (G1 & G2 & Hw & G). simpl total in G.
    hstep. eapply wp_ld.
    { rewrite <- G2. f_equal. unfold nA, HEAP_BASE. lia. }
    rewrite (tag_inuse n true) by done. hstep. eapply wp_st; [|lia|].
    { apply (hi_mapped _ _ Hinv); unfold nA, HEAP_BASE; [dlia|lia]. }
    replace (size + 16) with (size + 16 - 0) at 1 by lia. unfold nA.
    wp_use (fun h1 => growBy_spec h h1 bs 0 size (nA - 16 + 8)); unfold HEAP_BASE, PAGE_SIZE, MAX_ALLOC; try done; try lia.
    + rewrite bool_decide_eq_true_2 by done. by rewrite app_nil_r.
    + framed_tac.
    + lk.
    + intros q h' (-> & Hinv' & Hl & Hfr). exists bs, 0, (align (size + 16 - 0) PAGE_SIZE).
      pose proof (align_spec (size + 16 - 0) PAGE_SIZE ltac:(done) ltac:(lia)).
      rewrite bool_decide_eq_true_2, app_nil_r by done.
      split_and!; [done|lia|lia|done|done|]. intros x Hx. apply Hfr. unfold nA, PAGE_SIZE in *. lia.
  - pose proof (area_facts _ _ _ _ _ Hinv) as (G1 & G2 & Hw & G). simpl total in G.
    pose proof Hw as [? ?]. simpl Z.b2z in *. rewrite Z.add_0_r in *.
    assert (k < size + 16) by (apply (first_fit_none _ _ _ Hff), in_or_app; simpl; auto).
    assert (Ek : nA - 16 = HEAP_BASE + 8 + total p + k - 8) by (unfold nA, HEAP_BASE; lia).
    hstep. rewrite Ek. eapply wp_ld; [done|].
    replace (has k AREA_INUSE) with false
      by (symmetry; pose proof (tag_inuse k false Hw) as E; by rewrite Z.add_0_r in E).
    hstep. unfold HEAP_BASE in *.
    eapply wp_header with (n := k) (u := false); [by rewrite Z.add_0_r|done|lia|lia|].
    replace (18446744072635809792 + 8 + total p + k - 8 - k + 8) with (18446744072635809792 + 8 + total p) by lia.
    hsteps. rewrite uwrap_small by lia.
    wp_use (fun h1 => growBy_spec h h1 p k size (18446744072635809792 + 8 + total p)); unfold HEAP_BASE, PAGE_SIZE, MAX_ALLOC; try done; try lia.
    + by rewrite bool_decide_eq_false_2 by lia.
    + by eapply first_fit_none_app.
    + intros q h' (-> & Hinv' & Hl & Hfr). exists p, k, (align (size + 16 - k) PAGE_SIZE).
      pose proof (align_spec (size + 16 - k) PAGE_SIZE ltac:(done) ltac:(lia)).
      rewrite bool_decide_eq_false_2 by lia.
      split_and!; [done|lia|lia|done|done|]. intros x Hx. apply Hfr. unfold nA, PAGE_SIZE in *. lia.
Qed.
End grow.

(** Only [fresh_words_lookup] is used from here on. *)
#[global] Opaque fresh_words.
