(* ===== verification/HeapSpec.v ===== *)
(** * What the heap promises its clients

    [heap_rep h L]: the heap [h] is well formed, unlocked, fully coalesced,
    and the blocks that clients hold are those of [L] (address and usable
    size).  [kmalloc], [kzalloc], [kfree] and [krealloc] are specified on
    [L] alone; no client sees the tags. *)

From S2P Require Import Prelude Word Heap.

(** No two neighbouring areas are free; [pf]: the area before is free. *)
Fixpoint no_adj (pf : bool) (bs : list area) : bool :=
  match bs with
  | [] => true
  | (_, u) :: r => (u || negb pf) && no_adj (negb u) r
  end.

(** Whether the areas seen so far end in a free one. *)
Definition ends_free (pf : bool) (bs : list area) : bool :=
  fold_left (fun _ b => negb b.2) bs pf.

Definition heap_rep (h : kheap) (L : list (Z * Z)) : Prop :=
  exists bs, heap_inv h bs /\ no_adj false bs = true /\ heapLock h = false /\
    L ≡ₚ live (HEAP_BASE + 8) bs.

(** The payloads of the blocks [L] are the same in both heaps. *)
Definition same_payload (L : list (Z * Z)) (h h' : kheap) : Prop :=
  forall q m x, (q, m) ∈ L -> q <= x < q + m -> hmem h' !! x = hmem h !! x.

Section rep_lemmas.
Lemma no_adj_app pf l1 l2 :
  no_adj pf (l1 ++ l2) = no_adj pf l1 && no_adj (ends_free pf l1) l2.
Proof.
  revert pf. induction l1 as [|[n u] l1 IH]; intros pf; simpl; [done|].
  by rewrite IH, andb_assoc.
Qed.

Lemma ends_free_app pf l1 n u : ends_free pf (l1 ++ [(n, u)]) = negb u.
Proof. unfold ends_free. by rewrite fold_left_app. Qed.

Lemma no_adj_used pf n bs : no_adj pf ((n, true) :: bs) = no_adj false bs.
Proof. done. Qed.

Lemma no_adj_weaken pf bs : no_adj pf bs = true -> no_adj false bs = true.
Proof. destruct bs as [|[n []] bs]; simpl; [done..|]. by destruct pf. Qed.

Lemma live_bounds m a bs q n :
  tiled m a bs -> (q, n) ∈ live a bs ->
  a + 8 <= q /\ 0 <= n /\ q + n + 8 <= a + total bs /\ (q - a) mod 16 = 8.
Proof.
  revert a. induction bs as [|[s u] bs IH]; intros a; simpl; [by rewrite elem_of_nil|].
  intros (_ & _ & [? ?] & Ht). simpl in *. pose proof (tiled_total_nonneg _ _ _ Ht).
  rewrite elem_of_app. intros [Hin|Hin].
  - destruct u; [|by apply elem_of_nil in Hin].
    apply list_elem_of_singleton in Hin as [= -> ->]. split_and!; try lia. dlia.
  - destruct (IH _ Ht Hin) as (? & ? & ? & ?). split_and!; try lia. dlia.
Qed.

Lemma live_split m a bs q n :
  tiled m a bs -> (q, n) ∈ live a bs ->
  exists pre post, bs = pre ++ (n + 16, true) :: post /\ q = a + total pre + 8.
Proof.
  revert a. induction bs as [|[s u] bs IH]; intros a; simpl; [by rewrite elem_of_nil|].
  intros (_ & _ & [? ?] & Ht). simpl in *. rewrite elem_of_app. intros [Hin|Hin].
  - destruct u; [|by apply elem_of_nil in Hin].
    apply list_elem_of_singleton in Hin as [= -> ->]. exists [], bs.
    simpl. split; [|lia]. do 2 f_equal. lia.
  - destruct (IH _ Ht Hin) as (pre & post & -> & ->). exists ((s, u) :: pre), post.
    simpl. split; [done|lia].
Qed.

Lemma live_carve a n sz :
  n <= sz -> exists m, n - 16 <= m /\ live a (carve n sz) = [(a + 8, m)].
Proof.
  intros Hn. unfold carve, HEAP_ALIGN. destruct (Z.ltb_spec 16 (sz - n)); simpl;
    eexists; (split; [|done]); lia.
Qed.

Lemma total_carve n sz : total (carve n sz) = sz.
Proof. unfold carve. destruct (_ <? _); simpl; lia. Qed.

Lemma no_adj_carve n sz pf post :
  no_adj true post = true -> no_adj pf (carve n sz ++ post) = true.
Proof.
  intros H. unfold carve. destruct (_ <? _); simpl; [done|]. by eapply no_adj_weaken.
Qed.

(** The free neighbours hold no blocks. *)
Lemma take_prev_live a pre :
  live a (take_prev pre).1 = live a pre /\
  total (take_prev pre).1 + (take_prev pre).2 = total pre.
Proof.
  destruct (take_prev_cases pre) as [[-> ->]|[(r & m & E & ->)|(r & m & -> & ->)]]; simpl;
    [done|split; [done|lia]|].
  rewrite live_app, total_app. simpl. rewrite app_nil_r. split; [done|lia].
Qed.

Lemma take_next_live a post : live (a + (take_next post).1) (take_next post).2 = live a post.
Proof. destruct post as [|[j []] q]; simpl; [done| |done]. by rewrite Z.add_0_r. Qed.

Lemma take_prev_tiled m a pre : tiled m a pre -> tiled m a (take_prev pre).1.
Proof.
  intros H. destruct (take_prev_cases pre) as [[-> ->]|[(r & n & E & ->)|(r & n & -> & ->)]];
    simpl; [done..|]. by apply tiled_app in H as [? _].
Qed.

Lemma take_next_tiled m a post :
  tiled m a post -> tiled m (a + (take_next post).1) (take_next post).2.
Proof. destruct post as [|[j []] q]; simpl; [done| |]; intros H; [by rewrite Z.add_0_r|apply H]. Qed.

Lemma live_coalesce a pre n post :
  live a (coalesce pre n post) = live a pre ++ live (a + total pre + n) post.
Proof.
  unfold coalesce. pose proof (take_prev_live a pre) as [E1 E2].
  pose proof (take_next_live (a + total pre + n) post) as E3.
  destruct (take_prev pre) as [p k], (take_next post) as [j q]. simpl in *.
  rewrite live_app, E1, <- E3. simpl. do 2 f_equal. lia.
Qed.

Lemma no_adj_coalesce pre n post :
  no_adj false (pre ++ (n, true) :: post) = true ->
  no_adj false (coalesce pre n post) = true.
Proof.
  intros H. unfold coalesce.
  assert (Hq : forall j q, take_next post = (j, q) -> no_adj true q = true).
  { intros j q Hjq. rewrite no_adj_app in H. simpl in H. apply andb_prop in H as [_ H].
    destruct post as [|[m []] r]; injection Hjq as <- <-; done. }
  assert (Hp : forall p k, take_prev pre = (p, k) ->
    no_adj false p = true /\ ends_free false p = false).
  { intros p k Hpk. rewrite no_adj_app in H. apply andb_prop in H as [H _].
    destruct (take_prev_cases pre) as [[-> E]|[(r & m & Er & E)|(r & m & -> & E)]];
      rewrite E in Hpk; injection Hpk as <- <-; [done| |].
    - split; [done|]. by rewrite Er, ends_free_app.
    - rewrite no_adj_app in H. apply andb_prop in H as [H1 H2]. split; [done|].
      simpl in H2. by destruct (ends_free false r). }
  destruct (take_prev pre) as [p k], (take_next post) as [j q].
  destruct (Hp p k eq_refl) as [H1 H2]. specialize (Hq j q eq_refl).
  by rewrite no_adj_app, H1, H2.
Qed.

Lemma same_payload_frame m h h' a p q lo hi :
  tiled m a p -> tiled m hi q -> lo = a + total p ->
  (forall x, ~ (lo <= x < hi) -> hmem h' !! x = hmem h !! x) ->
  same_payload (live a p ++ live hi q) h h'.
Proof.
  intros Tp Tq -> Hfr r n x Hin Hx. apply Hfr.
  apply elem_of_app in Hin as [Hin|Hin].
  - apply (live_bounds _ _ _ _ _ Tp) in Hin. lia.
  - apply (live_bounds _ _ _ _ _ Tq) in Hin. lia.
Qed.

Lemma same_payload_perm L L' h h' :
  L ≡ₚ L' -> same_payload L h h' -> same_payload L' h h'.
Proof. intros HL H q m x Hin. apply (H q m x). by rewrite HL. Qed.

Lemma heap_inv_lock h bs b : heap_inv h bs -> heap_inv (set_heapLock h b) bs.
Proof. by intros []. Qed.

Lemma heap_inv_tiled h pre mid post :
  heap_inv h (pre ++ mid ++ post) ->
  tiled (hmem h) (HEAP_BASE + 8) pre /\ tiled (hmem h) (HEAP_BASE + 8 + total pre) mid /\
  tiled (hmem h) (HEAP_BASE + 8 + total pre + total mid) post.
Proof. intros [_ Ht _ _ _ _ _ _]. by rewrite !tiled_app in Ht. Qed.

Lemma roundSize_spec size :
  0 < size <= MAX_ALLOC -> size <= roundSize size <= size + 15 /\ 16 <= roundSize size <= MAX_ALLOC /\
    roundSize size mod 16 = 0.
Proof.
  unfold roundSize, MAX_ALLOC, HEAP_ALIGN. intros Hs.
  destruct (Z.eqb_spec (size mod 16) 0); [split_and!; dlia|].
  rewrite (uwrap_small 64) by dlia. split_and!; dlia.
Qed.
End rep_lemmas.

(** ** Allocation *)

Section kmalloc_spec.
Context (pageFill : Z -> Z) (Hfill : forall a, guard_word (u64 (pageFill a))).

(** [kmalloc] may have to grow the heap: the address space left for it. *)
Definition has_room (h : kheap) (size : Z) : Prop :=
  heapSize h + size + 32 + PAGE_SIZE < 2 ^ 27 - 8.

(** Allocation out of the free area [sz] between [pre] and [post]. *)
Lemma alloc_rep h h' pre sz post n lo hi :
  tiled (hmem h) (HEAP_BASE + 8) pre ->
  tiled (hmem h) hi post -> hi = HEAP_BASE + 8 + total pre + sz \/ post = [] ->
  no_adj true post = true -> no_adj false pre = true ->
  n + 16 <= sz ->
  heap_inv h' (pre ++ carve (n + 16) sz ++ post) -> heapLock h' = false ->
  lo = HEAP_BASE + 8 + total pre ->
  (forall x, ~ (lo <= x < hi) -> hmem h' !! x = hmem h !! x) ->
  let L := live (HEAP_BASE + 8) pre ++ live hi post in
  exists m, n <= m /\ heap_rep h' ((lo + 8, m) :: L) /\ same_payload L h h'.
Proof.
  intros Tp Tq Hhi Hadj1 Hadj2 Hn Hinv Hl -> Hfr L.
  destruct (live_carve (HEAP_BASE + 8 + total pre) (n + 16) sz Hn) as (m & Hm & E).
  exists m. split_and!; [lia| |].
  - exists (pre ++ carve (n + 16) sz ++ post). split_and!; [done| |done|].
    + rewrite no_adj_app, Hadj2. by apply no_adj_carve.
    + rewrite !live_app, E, total_carve. unfold L.
      destruct Hhi as [-> | ->]; simpl; by rewrite <- Permutation_middle.
  - by eapply same_payload_frame.
Qed.

(** What a successful allocation of [size] bytes promises. *)
Definition allocated (size : Z) (L : list (Z * Z)) (h : kheap) (p : Z) (h' : kheap) : Prop :=
  exists n, size <= n /\ p <> 0 /\ p mod 16 = 0 /\ heap_rep h' ((p, n) :: L) /\
    same_payload L h h'.

Lemma allocated_intro size n L L' h p h' :
  size <= n -> L ≡ₚ L' -> p = HEAP_BASE + 16 + (p - HEAP_BASE - 16) ->
  0 <= p - HEAP_BASE - 16 -> (p - HEAP_BASE) mod 16 = 0 ->
  (exists m, n <= m /\ heap_rep h' ((p, m) :: L') /\ same_payload L' h h') ->
  allocated size L h p h'.
Proof.
  intros Hs HL _ Hp Hp16 (m & Hm & (bs & H1 & H2 & H3 & H4) & Hsame). unfold HEAP_BASE in *.
  exists m. split_and!; [lia|lia|dlia| |by eapply same_payload_perm].
  exists bs. by rewrite HL.
Qed.

Lemma kmalloc_wp h L size :
  heap_rep h L -> 0 < size <= MAX_ALLOC -> has_room h size ->
  wp (kmalloc pageFill size) h (allocated size L h).
Proof.
  intros (bs & Hinv & Hadj & Hl & HL) Hsz Hroom.
  pose proof (roundSize_spec size Hsz) as ([R1 R4] & R2 & R3).
  unfold has_room, MAX_ALLOC, PAGE_SIZE in *.
  unfold kmalloc, MAX_ALLOC. destruct (Z.eqb_spec size 0); [lia|].
  destruct (Z.ltb_spec (2048 * 1024) size); [lia|].
  unfold acquireHeapLock, releaseHeapLock. apply wp_bind. unfold wp at 1. rewrite Hl.
  hsteps. set (h1 := set_heapLock h true).
  pose proof (heap_inv_lock h bs true Hinv) as Hinv1. fold h1 in Hinv1.
  rewrite (hi_start _ _ Hinv1). set (sz := roundSize size) in *.
  wp_use (heapAlloc_spec h1 bs sz Hinv1); [lia|done|].
  intros r h2. destruct (first_fit (sz + 16) bs) as [[[pre fsz] post]|] eqn:Hff.
  - apply first_fit_spec in Hff as [-> Hn]. intros (-> & Hinv2 & Hfr).
    destruct (heap_inv_tiled h pre [(fsz, false)] post Hinv) as (T1 & _ & T3).
    simpl total in T3. rewrite Z.add_0_r in T3.
    pose proof (tiled_total_nonneg _ _ _ T1). pose proof (tiled_total_mod _ _ _ T1).
    rewrite no_adj_app in Hadj. apply andb_prop in Hadj as [A1 A2].
    unfold HEAP_BASE in *. destruct (Z.eqb_spec (18446744072635809792 + 8 + total pre + 8) 0); [lia|].
    hsteps. eapply allocated_intro; unfold HEAP_BASE; [exact R1|exact HL|lia|lia|dlia|].
    rewrite live_app. simpl.
    simpl in A2. apply andb_prop in A2 as [_ A2].
    eapply (alloc_rep h); unfold HEAP_BASE; eauto; [by apply heap_inv_lock|].
    simpl. intros x Hx. by apply Hfr.
  - intros [-> ->]. rewrite Z.eqb_refl. hsteps.
    wp_use (growHeap_spec pageFill h1 bs sz Hfill Hinv1 Hff); [unfold MAX_ALLOC; lia|done|..].
    { unfold PAGE_SIZE. simpl. lia. }
    intros q h3 (p & k & more & -> & Hk & -> & Hinv3 & _ & Hfr). hsteps.
    destruct (heap_inv_tiled h p (if bool_decide (k = 0) then [] else [(k, false)]) []) as (T1 & _ & _);
      [by rewrite app_nil_r|].
    pose proof (tiled_total_nonneg _ _ _ T1). pose proof (tiled_total_mod _ _ _ T1).
    rewrite no_adj_app in Hadj. apply andb_prop in Hadj as [A1 A2].
    eapply allocated_intro; unfold HEAP_BASE in *; [exact R1|exact HL|lia|lia|dlia|].
    rewrite live_app. replace (live _ (if bool_decide _ then _ else _)) with (@nil (Z * Z))
      by (case_bool_decide; done). rewrite app_nil_r.
    rewrite <- (app_nil_r (live _ p)).
    eapply (alloc_rep h _ p (k + more) []); unfold HEAP_BASE; eauto; [done|].
    rewrite app_nil_r. by apply heap_inv_lock.
Qed.
End kmalloc_spec.

(** ** Release *)

Section kfree_spec.
(** [heapFree] applied to a block that is in use. *)
Lemma heapFree_rep h bs q n :
  heap_inv h bs -> no_adj false bs = true -> (q, n) ∈ live (HEAP_BASE + 8) bs ->
  wp (heapFree q (HEAP_BASE + 8) (heapSize h)) h (fun _ h' => exists bs' L,
    heap_inv h' bs' /\ no_adj false bs' = true /\
    live (HEAP_BASE + 8) bs ≡ₚ (q, n) :: L /\ live (HEAP_BASE + 8) bs' = L /\
    same_payload L h h' /\ heapLock h' = heapLock h /\ heapSize h' = heapSize h /\
    exists v, hmem h' !! (q - 8) = Some v /\ has v AREA_INUSE = false).
Proof.
  intros Hinv Hadj Hin.
  destruct (live_split _ _ _ _ _ (hi_tiled _ _ Hinv) Hin) as (pre & post & -> & ->).
  wp_use (heapFree_spec h pre (n + 16) post Hinv).
  intros _ h' (Hinv' & (F1 & F2 & F3 & Fr & _) & Hv).
  destruct (heap_inv_tiled h pre [(n + 16, true)] post Hinv) as (T1 & T2 & T3).
  simpl total in T3. rewrite Z.add_0_r in T3.
  exists (coalesce pre (n + 16) post), (live (HEAP_BASE + 8) pre ++ live (HEAP_BASE + 8 + total pre + (n + 16)) post).
  split_and!; [done|by apply no_adj_coalesce| |by rewrite live_coalesce| |done..|].
  - rewrite live_app. simpl. rewrite <- Permutation_middle.
    by replace (n + 16 - 16) with n by lia.
  - destruct (take_prev_live (HEAP_BASE + 8) pre) as [<- E].
    rewrite <- (take_next_live (HEAP_BASE + 8 + total pre + (n + 16)) post).
    eapply same_payload_frame; [by apply take_prev_tiled|by apply take_next_tiled|reflexivity|].
    intros x Hx. apply Fr. lia.
  - by replace (HEAP_BASE + 8 + total pre + 8 - 8) with (HEAP_BASE + 8 + total pre) by lia.
Qed.

Lemma kfree_wp h L L' q n :
  heap_rep h L -> L ≡ₚ (q, n) :: L' ->
  wp (kfree q) h (fun _ h' => heap_rep h' L' /\ same_payload L' h h' /\
    heapSize h' = heapSize h /\
    exists v, hmem h' !! (q - 8) = Some v /\ has v AREA_INUSE = false).
Proof.
  intros (bs & Hinv & Hadj & Hl & HL) HL'.
  assert (Hin : (q, n) ∈ live (HEAP_BASE + 8) bs).
  { rewrite <- HL, HL'. by left. }
  destruct (live_bounds _ _ _ _ _ (hi_tiled _ _ Hinv) Hin) as (B1 & B2 & B3 & _).
  rewrite (hi_total _ _ Hinv) in B3. pose proof (hi_size _ _ Hinv).
  unfold kfree, HEAP_BASE in *. destruct (Z.eqb_spec q 0); [lia|].
  hsteps. rewrite (hi_start _ _ Hinv). unfold HEAP_BASE. rewrite uwrap_small by lia.
  destruct (Z.ltb_spec (18446744072635809792 + 8) q); [|lia].
  destruct (Z.ltb_spec q (18446744072635809792 + 8 + heapSize h)); [|lia]. simpl andb. cbv iota.
  unfold acquireHeapLock, releaseHeapLock. apply wp_bind. unfold wp at 1. rewrite Hl.
  hsteps. wp_use (heapFree_rep (set_heapLock h true) bs q n); [by apply heap_inv_lock|done|done|].
  intros _ h' (bs' & L1 & G1 & G2 & G3 & G4 & G5 & G6 & G7 & G8). hsteps.
  assert (HP : L1 ≡ₚ L').
  { rewrite HL, G3 in HL'. by apply Permutation_cons_inv in HL'. }
  split_and!; [|by eapply same_payload_perm|done|done].
  exists bs'. split_and!; [by apply heap_inv_lock|done|done|]. by rewrite <- HP, <- G4.
Qed.
End kfree_spec.

(** ** Writing inside a block *)

Section payload.
(** The allocator does not look at the contents of the blocks. *)
Lemma heap_rep_write h h' p n L :
  heap_rep h ((p, n) :: L) ->
  heapStart h' = heapStart h -> heapSize h' = heapSize h -> heapLock h' = heapLock h ->
  (forall x, ~ (p <= x < p + n) -> hmem h' !! x = hmem h !! x) ->
  (forall x, is_Some (hmem h !! x) -> is_Some (hmem h' !! x)) ->
  heap_rep h' ((p, n) :: L) /\ same_payload L h h'.
Proof.
  intros (bs & Hinv & Hadj & Hl & HL) F1 F2 F3 Fr Fm.
  assert (Hin : (p, n) ∈ live (HEAP_BASE + 8) bs) by (rewrite <- HL; by left).
  destruct (live_split _ _ _ _ _ (hi_tiled _ _ Hinv) Hin) as (pre & post & -> & ->).
  destruct (heap_inv_tiled h pre [(n + 16, true)] post Hinv) as (T1 & T2 & T3).
  simpl total in T3. rewrite Z.add_0_r in T3.
  pose proof T2 as (H1 & H2 & [? ?] & _). simpl fst in *. unfold tag in *. simpl in H1, H2.
  split.
  - exists (pre ++ (n + 16, true) :: post). split_and!; [|done|by rewrite F3|done].
    apply (heap_inv_replace h h' pre [(n + 16, true)] [(n + 16, true)] post); [done| |done|].
    + split_and!; try done. intros x Hx. apply Fr. simpl in Hx. lia.
    + simpl. rewrite !Fr by lia. done.
  - eapply (same_payload_perm (live (HEAP_BASE + 8) pre ++
      live (HEAP_BASE + 8 + total pre + (n + 16)) post)).
    { rewrite live_app in HL. simpl in HL. rewrite <- Permutation_middle in HL.
      replace (n + 16 - 16) with n in HL by lia. by apply Permutation_cons_inv in HL. }
    eapply same_payload_frame; [done|done|reflexivity|]. intros x Hx. apply Fr. lia.
Qed.

Lemma heap_rep_block h p n L :
  heap_rep h ((p, n) :: L) ->
  HEAP_BASE + 16 <= p /\ 0 <= n /\ p + n <= HEAP_BASE + heapSize h /\
  heapSize h < 2 ^ 27 - 8 /\ p mod 16 = 0 /\ n mod 16 = 0 /\
  forall x, p <= x < p + n -> x mod 8 = 0 -> is_Some (hmem h !! x).
Proof.
  intros (bs & Hinv & Hadj & Hl & HL).
  assert (Hin : (p, n) ∈ live (HEAP_BASE + 8) bs) by (rewrite <- HL; by left).
  pose proof (live_bounds _ _ _ _ _ (hi_tiled _ _ Hinv) Hin) as (B1 & B2 & B3 & B4).
  destruct (live_split _ _ _ _ _ (hi_tiled _ _ Hinv) Hin) as (pre & post & E & _).
  subst bs. pose proof (area_facts _ _ _ _ _ Hinv) as (_ & _ & [_ ?] & _).
  rewrite (hi_total _ _ Hinv) in B3. pose proof (hi_size _ _ Hinv). unfold HEAP_BASE in *.
  split_and!; try lia; try dlia.
  intros x Hx Hx8. apply (hi_mapped _ _ Hinv); unfold HEAP_BASE; lia.
Qed.

Lemma live_disjoint m a bs p n L q k :
  tiled m a bs -> (p, n) :: L ≡ₚ live a bs -> (q, k) ∈ L ->
  p + n + 16 <= q \/ q + k + 16 <= p.
Proof.
  intros Ht HL Hq.
  assert (Hin : (p, n) ∈ live a bs) by (rewrite <- HL; by left).
  destruct (live_split _ _ _ _ _ Ht Hin) as (pre & post & -> & ->).
  rewrite live_app in HL. simpl in HL. rewrite <- Permutation_middle in HL.
  replace (n + 16 - 16) with n in HL by lia. apply Permutation_cons_inv in HL.
  apply tiled_app in Ht as [T1 (_ & _ & [? ?] & T3)]. simpl in *.
  rewrite HL in Hq. apply elem_of_app in Hq as [Hq|Hq].
  - apply (live_bounds _ _ _ _ _ T1) in Hq. lia.
  - apply (live_bounds _ _ _ _ _ T3) in Hq. lia.
Qed.

Lemma heap_rep_disjoint h p n L q k :
  heap_rep h ((p, n) :: L) -> (q, k) ∈ L -> p + n + 16 <= q \/ q + k + 16 <= p.
Proof.
  intros (bs & Hinv & _ & _ & HL). eapply live_disjoint; [apply Hinv|done].
Qed.

(** [h'] differs from [h] only in the memory of [lo, hi). *)
Definition wrote (lo hi : Z) (h h' : kheap) : Prop :=
  heapStart h' = heapStart h /\ heapSize h' = heapSize h /\ heapLock h' = heapLock h /\
  (forall x, ~ (lo <= x < hi) -> hmem h' !! x = hmem h !! x) /\
  (forall x, is_Some (hmem h !! x) -> is_Some (hmem h' !! x)).

Lemma zeroWords_spec n h p :
  0 <= p -> p + 8 * Z.of_nat n < 2 ^ 64 ->
  (forall i, 0 <= i < Z.of_nat n -> is_Some (hmem h !! (p + 8 * i))) ->
  wp (zeroWords p n) h (fun _ h' => wrote p (p + 8 * Z.of_nat n) h h' /\
    forall i, 0 <= i < Z.of_nat n -> hmem h' !! (p + 8 * i) = Some 0).
Proof.
  revert h p. induction n as [|n IH]; intros h p Hp Hmax Hm; cbn [zeroWords].
  - hsteps. split; [unfold wrote; done|lia].
  - hstep. eapply wp_st; [|lia|].
    { specialize (Hm 0). replace (p + 8 * 0) with p in Hm by lia. apply Hm. lia. }
    rewrite uwrap_small by lia. wp_use IH; [lia|lia| |].
    { intros i Hi. simpl. apply framed_mapped_insert. specialize (Hm (i + 1)).
      replace (p + 8 + 8 * i) with (p + 8 * (i + 1)) by lia. apply Hm. lia. }
    intros _ h' ((F1 & F2 & F3 & F4 & F5) & Hz). simpl in *. split.
    + split_and!; try done.
      * intros x Hx. rewrite F4 by lia. lk.
      * intros x Hx. apply F5. by apply framed_mapped_insert.
    + intros i Hi. destruct (Z.eq_dec i 0) as [->|].
      * rewrite F4 by lia. replace (p + 8 * 0) with p by lia. lk.
      * specialize (Hz (i - 1)). replace (p + 8 + 8 * (i - 1)) with (p + 8 * i) in Hz by lia.
        apply Hz. lia.
Qed.

Lemma copyWords_spec n h d s :
  0 <= d -> d + 8 * Z.of_nat n < 2 ^ 64 -> 0 <= s -> s + 8 * Z.of_nat n < 2 ^ 64 ->
  d + 8 * Z.of_nat n <= s \/ s + 8 * Z.of_nat n <= d ->
  (forall x w, s <= x < s + 8 * Z.of_nat n -> hmem h !! x = Some w -> 0 <= w < 2 ^ 64) ->
  (forall i, 0 <= i < Z.of_nat n ->
     is_Some (hmem h !! (d + 8 * i)) /\ is_Some (hmem h !! (s + 8 * i))) ->
  wp (copyWords d s n) h (fun _ h' => wrote d (d + 8 * Z.of_nat n) h h' /\
    forall i, 0 <= i < Z.of_nat n -> hmem h' !! (d + 8 * i) = hmem h !! (s + 8 * i)).
Proof.
  revert h d s. induction n as [|n IH]; intros h d s Hd Hd' Hs Hs' Hdis Hw Hm; cbn [copyWords].
  - hsteps. split; [unfold wrote; done|lia].
  - destruct (Hm 0 ltac:(lia)) as [Hm1 [w Hm2]].
    replace (d + 8 * 0) with d in Hm1 by lia. replace (s + 8 * 0) with s in Hm2 by lia.
    pose proof (Hw s w ltac:(lia) Hm2). hsteps. rewrite !uwrap_small by lia.
    wp_use IH; simpl; [lia..| | |].
    { intros x v Hx. rewrite lookup_insert_ne by lia. apply Hw. lia. }
    { intros i Hi. destruct (Hm (i + 1) ltac:(lia)).
      replace (d + 8 + 8 * i) with (d + 8 * (i + 1)) by lia.
      replace (s + 8 + 8 * i) with (s + 8 * (i + 1)) by lia.
      split; by apply framed_mapped_insert. }
    intros _ h' ((F1 & F2 & F3 & F4 & F5) & Hz). simpl in *. split.
    + split_and!; try done.
      * intros x Hx. rewrite F4 by lia. lk.
      * intros x Hx. apply F5. by apply framed_mapped_insert.
    + intros i Hi. destruct (Z.eq_dec i 0) as [->|].
      * rewrite F4 by lia. replace (d + 8 * 0) with d by lia.
        replace (s + 8 * 0) with s by lia. rewrite Hm2. lk.
      * specialize (Hz (i - 1) ltac:(lia)).
        replace (d + 8 + 8 * (i - 1)) with (d + 8 * i) in Hz by lia.
        replace (s + 8 + 8 * (i - 1)) with (s + 8 * i) in Hz by lia. rewrite Hz. lk.
Qed.
End payload.

(** ** [kzalloc] and [krealloc] *)

Section zalloc_realloc.
Context (pageFill : Z -> Z) (Hfill : forall a, guard_word (u64 (pageFill a))).

Lemma kzalloc_wp h L size :
  heap_rep h L -> 0 < size <= MAX_ALLOC -> has_room h size -> size mod 8 = 0 ->
  wp (kzalloc pageFill size) h (fun p h' => allocated size L h p h' /\
    forall i, 0 <= i < size / 8 -> hmem h' !! (p + 8 * i) = Some 0).
Proof.
  intros Hrep Hsz Hroom H8. unfold kzalloc. apply wp_bind.
  wp_use (kmalloc_wp pageFill Hfill h L size); [done..|].
  intros p h1 (n & Hn & Hp & Hp16 & Hrep1 & Hsame).
  destruct (heap_rep_block _ _ _ _ Hrep1) as (B1 & B2 & B3 & B4 & _ & _ & Bm).
  unfold HEAP_BASE in *. destruct (Z.eqb_spec p 0); [lia|].
  unfold memset0. rewrite H8. hstep. hstep.
  wp_use (fun h0 => zeroWords_spec (Z.to_nat (size / 8)) h0 p); [lia|dlia| |].
  { intros i Hi. apply Bm; dlia. }
  intros _ h2 (Hw & Hz). rewrite Z.eqb_refl. hstep. hstep.
  destruct Hw as (F1 & F2 & F3 & F4 & F5).
  destruct (heap_rep_write h1 h2 p n L Hrep1) as [Hrep2 Hsame2]; try done.
  { intros x Hx. apply F4. dlia. }
  split; [|intros i Hi; apply Hz; dlia].
  exists n. split_and!; [done..|]. intros q m x Hq Hx.
  rewrite (Hsame2 q m x Hq Hx). by apply (Hsame q m x).
Qed.

(** The words of a block are 64-bit values. *)
Definition words_in (q n : Z) (h : kheap) : Prop :=
  forall x w, q <= x < q + n -> hmem h !! x = Some w -> 0 <= w < 2 ^ 64.

(** What a successful [krealloc] of the block [(q, n)] promises. *)
Definition reallocated (q n newSize : Z) (L : list (Z * Z)) (h : kheap)
    (p : Z) (h' : kheap) : Prop :=
  exists m, newSize <= m /\ p <> 0 /\ heap_rep h' ((p, m) :: L) /\ same_payload L h h' /\
    forall i, 0 <= i < n / 8 -> hmem h' !! (p + 8 * i) = hmem h !! (q + 8 * i).

(** [krealloc]'s slow path: allocate, copy, free. *)
Lemma realloc_move h q n newSize L :
  heap_rep h ((q, n) :: L) -> words_in q n h ->
  n <= newSize -> 0 < newSize <= MAX_ALLOC -> has_room h newSize ->
  wp (newAddr ← kmalloc pageFill newSize;
      copyWords newAddr q (Z.to_nat (n / 8));; kfree q;; mret newAddr) h
    (reallocated q n newSize L h).
Proof.
  intros Hrep Hw Hn Hsz Hroom. apply wp_bind.
  wp_use (kmalloc_wp pageFill Hfill h ((q, n) :: L) newSize); [done..|].
  intros p h1 (m & Hm & Hp & Hp16 & Hrep1 & Hsame). apply wp_bind.
  pose proof (heap_rep_block _ _ _ _ Hrep1) as (B1 & B2 & B3 & B4 & B5 & B6 & Bm).
  assert (Hrep1' : heap_rep h1 ((q, n) :: (p, m) :: L)).
  { destruct Hrep1 as (bs & ? & ? & ? & E). exists bs. split_and!; try done.
    by rewrite Permutation_swap. }
  destruct (heap_rep_block _ _ _ _ Hrep1') as (C1 & C2 & C3 & C4 & C5 & C6 & Cm).
  assert (Hdis : p + m <= q \/ q + n <= p).
  { destruct (heap_rep_disjoint h1 p m _ q n Hrep1); [by left|lia..]. }
  unfold HEAP_BASE in *.
  wp_use (fun h0 => copyWords_spec (Z.to_nat (n / 8)) h0 p q); [lia|dlia|lia|dlia|dlia|..].
  { intros x w Hx. rewrite (Hsame q n x); [apply Hw; dlia|by left|dlia]. }
  { intros i Hi. split; [apply Bm|apply Cm]; dlia. }
  intros _ h2 ((F1 & F2 & F3 & F4 & F5) & Hcopy). apply wp_bind.
  destruct (heap_rep_write h1 h2 p m ((q, n) :: L) Hrep1) as [Hrep2 Hsame2]; try done.
  { intros x Hx. apply F4. dlia. }
  wp_use (kfree_wp h2 ((p, m) :: (q, n) :: L) ((p, m) :: L) q n Hrep2); [by rewrite Permutation_swap|].
  intros _ h3 (Hrep3 & Hsame3 & _ & _). apply wp_ret.
  exists m. split_and!; [done|done|done| |].
  - intros r k x Hr Hx. rewrite (Hsame3 r k x), (Hsame2 r k x), (Hsame r k x) by (done || by right). done.
  - intros i Hi. rewrite (Hsame3 p m), Hcopy by (by left || dlia).
    rewrite (Hsame q n); [done|by left|dlia].
Qed.

(** The state [krealloc] leaves when it extends a block into the free area
    of [k] bytes behind it. *)
Definition extended (h : kheap) (a n ns k : Z) : kheap :=
  set_hmem h (<[a + ns + 16 := k - (ns - n)]> (<[a + n + 16 + k - 8 := k - (ns - n)]>
    (<[a + ns + 8 := ns + 17]> (<[a := ns + 17]> (hmem h))))).

Lemma extended_rep h pre n k post ns :
  heap_inv h (pre ++ (n + 16, true) :: (k, false) :: post) ->
  no_adj false (pre ++ (n + 16, true) :: (k, false) :: post) = true ->
  ns mod 16 = 0 -> n < ns -> ns - n < k ->
  let a := HEAP_BASE + 8 + total pre in
  let h' := extended h a n ns k in
  let L := live (HEAP_BASE + 8) pre ++ live (a + n + 16 + k) post in
  heap_inv h' (pre ++ (ns + 16, true) :: (k - (ns - n), false) :: post) /\
  no_adj false (pre ++ (ns + 16, true) :: (k - (ns - n), false) :: post) = true /\
  live (HEAP_BASE + 8) (pre ++ (ns + 16, true) :: (k - (ns - n), false) :: post) ≡ₚ (a + 8, ns) :: L /\
  same_payload ((a + 8, n) :: L) h h'.
Proof.
  intros Hinv Hadj Hns Hlt Hk a h' L.
  pose proof (area_facts _ _ _ _ _ Hinv) as (_ & _ & [? ?] & F). simpl total in F.
  destruct (heap_inv_tiled h pre [(n + 16, true); (k, false)] post Hinv) as (T1 & T2 & T3).
  simpl total in T3. pose proof T2 as (_ & _ & _ & H1 & H2 & [? ?] & _). fold a in T3.
  simpl fst in *. pose proof (tiled_total_nonneg _ _ _ T3).
  assert (16 <= k - (ns - n) /\ n mod 16 = 0) as [? ?] by dlia.
  assert (E : forall x, ~ (a <= x < a + 8) -> ~ (a + n + 8 <= x < a + n + 16 + k) ->
    hmem h' !! x = hmem h !! x) by (intros x ??; unfold h', extended; lk).
  split_and!.
  - apply (heap_inv_replace h h' pre [(n + 16, true); (k, false)]
      [(ns + 16, true); (k - (ns - n), false)] post); [done| |simpl; lia|].
    + fold a. simpl total. unfold h', extended. framed_tac.
    + fold a. unfold tiled, tag, wf_size, h', extended. simpl fst. simpl snd. simpl Z.b2z.
      rewrite Z.add_0_r.
      replace (a + (ns + 16) - 8) with (a + ns + 8) by lia.
      replace (a + (ns + 16)) with (a + ns + 16) by lia.
      replace (a + ns + 16 + (k - (ns - n)) - 8) with (a + n + 16 + k - 8) by lia.
      split_and!; first [by lk|dlia|lk; f_equal; lia].
  - rewrite no_adj_app in Hadj |- *. done.
  - rewrite live_app. simpl. fold a. rewrite <- Permutation_middle. unfold L.
    replace (a + (ns + 16) + (k - (ns - n))) with (a + n + 16 + k) by lia.
    by replace (ns + 16 - 16) with ns by lia.
  - intros r m x Hr Hx. apply elem_of_cons in Hr as [[= -> ->]|Hr]; [apply E; lia|].
    assert (same_payload L h h') as Hsame.
    { unfold L. replace (a + n + 16 + k) with (a + (n + 16 + (k + 0))) in * by lia.
      eapply same_payload_frame; [done|done|reflexivity|]. fold a. intros y Hy. apply E; lia. }
    by apply (Hsame r m x).
Qed.

Lemma heap_rep_unlock h bs L :
  heap_inv h bs -> no_adj false bs = true -> L ≡ₚ live (HEAP_BASE + 8) bs ->
  heap_rep (set_heapLock h false) L.
Proof. intros. exists bs. split_and!; [by apply heap_inv_lock|done..]. Qed.

Lemma heap_rep_eta h L : heap_rep h L -> set_heapLock (set_heapLock h true) false = h.
Proof. intros (bs & _ & _ & Hl & _). destruct h. simpl in *. by subst. Qed.

(** The branch that extends the block in place. *)
Lemma krealloc_extend h pre n k post ns a :
  heap_inv h (pre ++ (n + 16, true) :: (k, false) :: post) ->
  ns mod 16 = 0 -> n < ns -> ns - n < k -> ns <= MAX_ALLOC ->
  a = HEAP_BASE + 8 + total pre ->
  wp (nextFooter ← getFooterFromHeader (a + n + 16);
      st a (Z.lor (u64 (ns + 16)) AREA_INUSE);;
      if ns - n =? k then
        v ← ld a; st nextFooter v;; releaseHeapLock;; mret (a + 8)
      else
        newFooter ← getFooterFromHeader a;
        v ← ld a;
        st newFooter v;;
        fv ← ld nextFooter;
        st nextFooter (u64 (fv - (ns - n)));;
        fv ← ld nextFooter;
        st (u64 (newFooter + 8)) fv;;
        releaseHeapLock;;
        mret (a + 8)) h (fun p h' =>
    p = a + 8 /\ h' = set_heapLock (extended h a n ns k) false).
Proof.
  intros Hinv Hns Hlt Hk Hmax Ea.
  pose proof (area_facts _ _ _ _ _ Hinv) as (H1 & H2 & [? ?] & F). simpl total in F.
  destruct (heap_inv_tiled h pre [(n + 16, true); (k, false)] post Hinv) as (_ & T2 & T3).
  apply tiled_total_nonneg in T3. pose proof T2 as (_ & _ & _ & G1 & G2 & Hwk & _). rewrite <- Ea in *.
  unfold tag in *. simpl fst in *. simpl snd in *. simpl Z.b2z in *. pose proof Hwk as [? ?].
  replace (a + (n + 16)) with (a + n + 16) in * by lia. rewrite Z.add_0_r in *.
  assert (16 <= k - (ns - n) /\ n mod 16 = 0) as [? ?] by dlia.
  assert (Ha : HEAP_BASE + 8 <= a /\ a + n + 16 + k <= HEAP_BASE + heapSize h)
    by lia.
  assert (Ha8 : a mod 8 = 0) by (unfold HEAP_BASE in *; dlia).
  pose proof (hi_size _ _ Hinv). unfold HEAP_BASE, MAX_ALLOC, AREA_INUSE in *.
  assert (is_Some (hmem h !! (a + ns + 8)) /\ is_Some (hmem h !! (a + ns + 16))) as [Hm1 Hm2].
  { split; apply (hi_mapped _ _ Hinv); unfold HEAP_BASE; (dlia || lia). }
  assert (Hwn : wf_size (ns + 16)) by (unfold wf_size; dlia).
  hstep. eapply wp_footer with (n := k) (u := false); [by rewrite Z.add_0_r|done|lia|lia|].
  rewrite !(uwrap_small 64) by lia. rewrite lor_1_even by dlia.
  destruct (Z.eqb_spec (ns - n) k); [lia|]. hsteps.
  eapply wp_footer with (n := ns + 16) (u := true); [lk|done|lia|lia|].
  replace (a + (ns + 16) - 8) with (a + ns + 8) by lia.
  hsteps. rewrite (uwrap_small 64 (k - (ns - n))) by lia. hsteps.
  rewrite (uwrap_small 64) by lia. replace (a + ns + 8 + 8) with (a + ns + 16) by lia.
  hsteps. split; [done|]. unfold extended, set_heapLock, set_hmem. simpl.
  by replace (ns + 16 + 1) with (ns + 17) by lia.
Qed.

Lemma extended_reallocated h h1 pre n k post ns newSize L a :
  heap_inv h1 (pre ++ (n + 16, true) :: (k, false) :: post) ->
  no_adj false (pre ++ (n + 16, true) :: (k, false) :: post) = true ->
  (a + 8, n) :: L ≡ₚ live (HEAP_BASE + 8) (pre ++ (n + 16, true) :: (k, false) :: post) ->
  ns mod 16 = 0 -> n < ns -> ns - n < k -> newSize <= ns ->
  a = HEAP_BASE + 8 + total pre -> hmem h1 = hmem h -> 0 <= total pre ->
  reallocated (a + 8) n newSize L h (a + 8) (set_heapLock (extended h1 a n ns k) false).
Proof.
  intros Hinv Hadj HL Hns Hlt Hk Hle Ea Em Hp.
  destruct (extended_rep h1 pre n k post ns Hinv Hadj Hns Hlt Hk) as (G1 & G2 & G3 & G4).
  rewrite <- Ea in *.
  assert (HL' : L ≡ₚ live (HEAP_BASE + 8) pre ++ live (a + n + 16 + k) post).
  { rewrite live_app in HL. simpl in HL. rewrite <- Ea, <- Permutation_middle in HL.
    replace (n + 16 - 16) with n in HL by lia. apply Permutation_cons_inv in HL.
    by replace (a + (n + 16) + k) with (a + n + 16 + k) in HL by lia. }
  exists ns. split_and!; [done|unfold HEAP_BASE in *; lia| | |].
  - eapply heap_rep_unlock; [done|done|]. by rewrite G3, HL'.
  - intros r m x Hr Hx. simpl. rewrite <- Em. apply (G4 r m x); [|done].
    right. by rewrite <- HL'.
  - intros i Hi. simpl. rewrite <- Em. apply (G4 (a + 8) n); [by left|].
    assert (8 * (n / 8) <= n) by dlia. lia.
Qed.

Lemma krealloc_wp h q n L newSize :
  heap_rep h ((q, n) :: L) -> words_in q n h ->
  0 < newSize <= MAX_ALLOC -> has_room h (newSize + 16) -> n - 48 < roundSize newSize ->
  wp (krealloc pageFill q newSize) h (reallocated q n newSize L h).
Proof.
  intros Hrep Hw Hsz Hroom Hns. pose proof (roundSize_spec newSize Hsz) as ([R1 R4] & R2 & R3).
  destruct (heap_rep_block _ _ _ _ Hrep) as (B1 & B2 & B3 & B4 & B5 & B6 & Bm).
  pose proof (heap_rep_eta _ _ Hrep) as Heta.
  pose proof Hrep as (bs & Hinv & Hadj & Hl & HL).
  assert (Hin : (q, n) ∈ live (HEAP_BASE + 8) bs) by (rewrite <- HL; by left).
  destruct (live_split _ _ _ _ _ (hi_tiled _ _ Hinv) Hin) as (pre & post & -> & Eq).
  pose proof (heap_inv_lock _ _ true Hinv) as Hinv1. set (h1 := set_heapLock h true) in *.
  pose proof (area_facts _ _ _ _ _ Hinv1) as (H1 & _ & Hwn & F).
  destruct (next_word _ _ _ _ _ Hinv1) as (v & Hv & Hcases).
  set (ns := roundSize newSize) in *.
  remember (HEAP_BASE + 8 + total pre) as a eqn:Ea. replace (a + (n + 16)) with (a + n + 16) in * by lia.
  unfold krealloc, HEAP_BASE, has_room, MAX_ALLOC, PAGE_SIZE in *.
  destruct (Z.eqb_spec q 0); [lia|]. destruct (Z.eqb_spec newSize 0); [lia|].
  unfold acquireHeapLock. apply wp_bind. unfold wp at 1. rewrite Hl. fold h1 ns.
  rewrite (uwrap_small 64 (q - 8)) by lia. replace (q - 8) with a by lia.
  clearbody ns. simpl Z.b2z in H1. hstep.
  eapply wp_footer with (n := n + 16) (u := true); [done|done|lia|lia|].
  rewrite (uwrap_small 64 (a + (n + 16) - 8 + 8)) by lia.
  replace (a + (n + 16) - 8 + 8) with (a + n + 16) by lia.
  hstep. hstep. change (n + 16 + 1) with (n + 16 + Z.b2z true).
  rewrite (tag_area (n + 16) true) by done.
  replace (n + 16 - 16) with n by lia. rewrite (uwrap_small 64 n) by lia.
  assert (Hslow : n < ns -> wp (releaseHeapLock;; newAddr ← kmalloc pageFill ns;
      copyWords newAddr q (Z.to_nat (n / 8));; kfree q;; mret newAddr) h1
      (reallocated q n newSize L h)).
  { intros Hlt. unfold releaseHeapLock. hstep. hstep. rewrite Heta.
    wp_use (realloc_move h q n ns L Hrep Hw);
      [lia|unfold MAX_ALLOC; lia|unfold has_room, PAGE_SIZE; lia|].
    intros p h' (m & Hm & Hrest). exists m. split; [lia|done]. }
  destruct (Z.leb_spec ns n) as [Hle|Hgt].
  { rewrite (uwrap_small 64) by lia.
    destruct (Z.ltb_spec (n - ns + 16) (HEAP_ALIGN * 4)); [|unfold HEAP_ALIGN in *; lia].
    unfold releaseHeapLock. hsteps. rewrite Heta.
    exists n. split_and!; [lia|lia|done|done|done]. }
  rewrite (uwrap_small 64 (ns - n)) by lia. hstep. hstep.
  destruct Hcases as [[Hu _]|[[-> _]|(k & r & -> & -> & Hwk & Hk)]].
  - rewrite Hu. by apply Hslow.
  - rewrite Z.land_0_l. destruct (Z.leb_spec 0 (ns - n)); [|lia].
    rewrite orb_true_r. by apply Hslow.
  - pose proof (tag_area k false Hwk) as Ek. simpl in Ek. rewrite Z.add_0_r in Ek. rewrite Ek.
    destruct (Z.leb_spec k (ns - n)); [rewrite orb_true_r; by apply Hslow|].
    pose proof (tag_inuse k false Hwk) as Ei. simpl in Ei. rewrite Z.add_0_r in Ei. rewrite Ei.
    simpl orb. cbv iota. subst q.
    wp_use (krealloc_extend h1 pre n k r ns a Hinv1); [done|lia|lia|unfold MAX_ALLOC; lia|done|].
    intros p h' [-> ->]. eapply extended_reallocated; (done || lia || eauto).
Qed.
End zalloc_realloc.

(** ** Boot *)

(** With no block held, the heap is one free area. *)
Lemma rep_nil_single h : heap_rep h [] -> heap_inv h [(heapSize h - 8, false)].
Proof.
  intros (bs & Hinv & Hadj & _ & HL). apply Permutation_nil_l in HL.
  assert (Hnil : forall a n r, live a ((n, false) :: r) = [] -> no_adj true r = true -> r = []).
  { intros a n [|[m []] r]; simpl; [done..|]. by intros _ [=]. }
  pose proof Hinv as [_ Ht Htot _ Hs _ _ _].
  destruct bs as [|[n []] r]; [unfold PAGE_SIZE in *; simpl in Htot; lia|done|].
  apply (Hnil _ _ _ (eq_sym HL)) in Hadj as ->. simpl in Htot.
  by replace (heapSize h - 8) with n by lia.
Qed.

Lemma rep_nil_tag h : heap_rep h [] -> hmem h !! (HEAP_BASE + 8) = Some (heapSize h - 8).
Proof.
  intros H%rep_nil_single. destruct (hi_tiled _ _ H) as [Ht _].
  rewrite Ht. unfold tag. simpl. f_equal. lia.
Qed.

Section boot.
Context (pageFill : Z -> Z) (Hfill : forall a, guard_word (u64 (pageFill a))).

Lemma initHeap_wp h :
  heapStart h = HEAP_BASE -> heapSize h = PAGE_SIZE - 8 -> heapLock h = false ->
  wp (initHeap pageFill) h (fun _ h' => heap_rep h' [] /\ heapSize h' = 4088).
Proof.
  intros E1 E2 E3. unfold initHeap, allocPageAt. hstep. hstep. hstep. hstep. hstep. hstep.
  rewrite E1, E2. change (sizeToPages PAGE_SIZE) with 1. unfold set_hmem.
  set (m1 := fresh_words pageFill HEAP_BASE (Z.to_nat (1 * 512)) (hmem h)).
  assert (Hm : forall x, HEAP_BASE <= x < HEAP_BASE + 4096 -> x mod 8 = 0 ->
    m1 !! x = Some (u64 (pageFill x))).
  { intros x Hx Hx8. unfold m1, HEAP_BASE in *. rewrite fresh_words_lookup.
    rewrite bool_decide_eq_true_2; [done|]. split; [lia|dlia]. }
  clearbody m1. rewrite E1, E2, E3.
  change (u64 (HEAP_BASE + (PAGE_SIZE - 8) - 8)) with (HEAP_BASE + 4080).
  change (u64 (HEAP_BASE + 8)) with (HEAP_BASE + 8). change (PAGE_SIZE - 8) with 4088.
  hstep. hstep. hstep. hstep. cbn [heapStart].
  assert (Hs : forall k, HEAP_BASE <= k < HEAP_BASE + 4096 -> k mod 8 = 0 -> is_Some (m1 !! k))
    by (intros; rewrite Hm by done; by eexists).
  hstep. eapply wp_st; [by apply Hs|lia|].
  hstep. eapply wp_ld; [simpl hmem; apply lookup_insert_eq|].
  eapply wp_st; [simpl hmem; apply framed_mapped_insert; by apply Hs|lia|].
  split; [|done]. exists [(4080, false)]. split_and!; [|done|done|done].
  split; simpl; unfold tag, PAGE_SIZE; simpl; try done; try lia.
  - split_and!; [by lk| |by vm_compute..|done].
    replace (HEAP_BASE + 8 + 4080 - 8) with (HEAP_BASE + 4080) by lia. lk.
  - intros a Ha Hr. do 2 apply framed_mapped_insert. rewrite Hm; [by eexists|lia|done].
  - exists (u64 (pageFill HEAP_BASE)). split; [|done]. lk. apply Hm; [lia|done].
  - exists (u64 (pageFill (HEAP_BASE + 4088))). split; [|done]. lk. apply Hm; [lia|done].
Qed.
End boot.

(** ** Concrete heaps *)

(** The heap after boot on zero-filled pages. *)
Definition heap_after {A} (h : kheap) (o : outcome (A * kheap)) : kheap :=
  match o with Done (_, h') => h' | _ => h end.
Definition heap0 : kheap := heap_after bootHeap (initHeap zeroFill bootHeap).

Lemma zeroFill_guard a : guard_word (u64 (zeroFill a)).
Proof. by left. Qed.

Lemma heap0_rep : heap_rep heap0 [].
Proof.
  pose proof (initHeap_wp zeroFill zeroFill_guard bootHeap eq_refl eq_refl eq_refl) as H.
  destruct (proj1 (wp_done _ _ _) H) as (a & h & E & Hrep & _). unfold heap0. rewrite E. exact Hrep.
Qed.

(** A heap in which one client holds one block of at least 48 bytes. *)
Lemma heap1_rep :
  exists q n h, heap_rep h [(q, n)] /\ 48 <= n /\ heapSize h = 4088 /\ words_in q n h /\
    kmalloc zeroFill 48 heap0 = Done (q, h).
Proof.
  pose proof (kmalloc_wp zeroFill zeroFill_guard heap0 [] 48 heap0_rep ltac:(done)) as H.
  assert (Hr : has_room heap0 48) by (vm_compute; done).
  destruct (proj1 (wp_done _ _ _) (H Hr)) as (q & h & E & n & Hn & _ & _ & Hrep & _).
  exists q, n, h. refine (conj Hrep (conj Hn (conj _ (conj _ E)))).
  - enough (heapSize (heap_after heap0 (kmalloc zeroFill 48 heap0)) = 4088) as <- by (by rewrite E).
    by vm_compute.
  - intros x w Hx Hw.
    enough (map_Forall (fun _ w => 0 <= w < 2 ^ 64) (hmem (heap_after heap0 (kmalloc zeroFill 48 heap0)))) as Hall.
    { rewrite E in Hall. by apply (Hall x w). }
    apply (bool_decide_unpack _). by vm_compute.
Qed.

(** ** The properties *)

Section properties.
Context (pageFill : Z -> Z) (Hfill : forall a, guard_word (u64 (pageFill a))).

(** C1: [kmalloc] of a legal size finishes, without fault, with a non-null
    16-byte aligned block of at least that size that becomes one more held
    block; it finds free space or grows the heap; the contents of all held
    blocks, the tags and the lock are as they should be afterwards.  The heap
    has room below its limit, and the words at its two ends, which the code
    reads as tags but never writes, are 0 or odd ([guard_word]). *)
Theorem kmalloc_correct h L size :
  heap_rep h L -> 0 < size <= MAX_ALLOC -> has_room h size ->
  wp (kmalloc pageFill size) h (fun p h' => exists n,
    size <= n /\ p <> 0 /\ p mod 16 = 0 /\ heap_rep h' ((p, n) :: L) /\
    same_payload L h h').
Proof. apply (kmalloc_wp pageFill Hfill). Qed.

(** C2: [kfree] of a held block finishes, takes exactly that block out of
    the held ones, coalesces it with its free neighbours and leaves the
    contents of every other block alone.  Like every [heap_rep] this asks for
    words at the two ends of the heap that are 0 or odd; without that see
    [kfree_reads_guard_word]. *)
Theorem kfree_correct h L q n L' :
  heap_rep h L -> L ≡ₚ (q, n) :: L' ->
  wp (kfree q) h (fun _ h' => heap_rep h' L' /\ same_payload L' h h').
Proof.
  intros Hrep HL. wp_use (kfree_wp h L L' q n Hrep HL). by intros _ h' (? & ? & _).
Qed.

(** C3: [krealloc] of a held block to a size that does not split the block
    finishes with a block of at least the new size that replaces it; the
    old contents are at its start and no other block changes.  The block
    grows in place into a free neighbour or moves.  The words at the two ends of
    the heap and of the pages that it gets are 0 or odd; without that see
    [krealloc_reads_guard_word]. *)
Theorem krealloc_correct h q n L newSize :
  heap_rep h ((q, n) :: L) -> words_in q n h ->
  0 < newSize <= MAX_ALLOC -> has_room h (newSize + 16) -> n - 48 < roundSize newSize ->
  wp (krealloc pageFill q newSize) h (fun p h' => exists m,
    newSize <= m /\ p <> 0 /\ heap_rep h' ((p, m) :: L) /\ same_payload L h h' /\
    forall i, 0 <= i < n / 8 -> hmem h' !! (p + 8 * i) = hmem h !! (q + 8 * i)).
Proof. apply (krealloc_wp pageFill Hfill). Qed.

(** [kzalloc] is [kmalloc] whose block reads as zero. *)
Theorem kzalloc_correct h L size :
  heap_rep h L -> 0 < size <= MAX_ALLOC -> has_room h size -> size mod 8 = 0 ->
  wp (kzalloc pageFill size) h (fun p h' =>
    (exists n, size <= n /\ p <> 0 /\ p mod 16 = 0 /\ heap_rep h' ((p, n) :: L) /\
      same_payload L h h') /\
    forall i, 0 <= i < size / 8 -> hmem h' !! (p + 8 * i) = Some 0).
Proof. apply (kzalloc_wp pageFill Hfill). Qed.

(** [initHeap] turns the boot state into a heap with no held blocks,
    whatever the physical pages hold, as long as the words at the two ends
    do not look like tags of free areas. *)
Theorem initHeap_correct :
  wp (initHeap pageFill) bootHeap (fun _ h => heap_rep h [] /\
    hmem h !! (HEAP_BASE + 8) = Some 4080).
Proof.
  wp_use (initHeap_wp pageFill Hfill bootHeap); [done..|].
  intros _ h [Hrep E]. split; [done|]. by rewrite (rep_nil_tag h Hrep), E.
Qed.
End properties.

(** The blocks that clients hold are aligned, lie in mapped heap memory
    and never overlap: 16 bytes of tags separate any two of them. *)
Theorem heap_blocks_separate h L i j p n q k :
  heap_rep h L -> L !! i = Some (p, n) -> L !! j = Some (q, k) ->
  p mod 16 = 0 /\ (forall x, p <= x < p + n -> x mod 8 = 0 -> is_Some (hmem h !! x)) /\
  (i <> j -> p + n + 16 <= q \/ q + k + 16 <= p).
Proof.
  intros Hrep Hi Hj. pose proof (delete_Permutation _ _ _ Hi) as HP.
  assert (Hrep' : heap_rep h ((p, n) :: delete i L)).
  { destruct Hrep as (bs & ? & ? & ? & E). exists bs. by rewrite <- HP. }
  destruct (heap_rep_block _ _ _ _ Hrep') as (_ & _ & _ & _ & ? & _ & ?).
  split_and!; [done|done|]. intros Hij.
  apply (heap_rep_disjoint h p n (delete i L) q k Hrep').
  apply list_elem_of_lookup. destruct (decide (j < i)%nat).
  - exists j. by rewrite list_lookup_delete_lt.
  - exists (pred j). rewrite list_lookup_delete_ge by lia. by replace (S (pred j)) with j by lia.
Qed.

(** Freeing everything restores one free area: in a heap without held
    blocks the first tag spans the whole heap, however the blocks were
    allocated and freed before. *)
Theorem heap_fully_coalesced h :
  heap_rep h [] -> heap_inv h [(heapSize h - 8, false)].
Proof. apply rep_nil_single. Qed.

(** Freeing a block a second time does nothing. *)
Theorem kfree_twice h L q n L' h1 :
  heap_rep h L -> L ≡ₚ (q, n) :: L' ->
  kfree q h = Done (tt, h1) -> kfree q h1 = Done (tt, h1).
Proof.
  intros Hrep HL Hrun. pose proof (kfree_wp h L L' q n Hrep HL) as Hwp.
  unfold wp in Hwp. rewrite Hrun in Hwp. destruct Hwp as (Hrep1 & _ & Hsz & v & Hv & Hu).
  pose proof (heap_rep_eta _ _ Hrep1) as Heta.
  assert (Hrep' : heap_rep h ((q, n) :: L')).
  { destruct Hrep as (bs & ? & ? & ? & E). exists bs. by rewrite <- HL. }
  destruct (heap_rep_block _ _ _ _ Hrep') as (B1 & B2 & B3 & B4 & _).
  destruct Hrep1 as (bs & Hinv & _ & Hl & _). unfold HEAP_BASE in *.
  enough (wp (kfree q) h1 (fun _ h' => h' = h1)) as H.
  { unfold wp in H. by destruct (kfree q h1) as [[[] h2]| |]; [subst| |]. }
  unfold kfree. destruct (Z.eqb_spec q 0); [lia|]. hsteps.
  destruct ((_ <? _) && _) eqn:Hr; [|by hsteps].
  unfold acquireHeapLock, releaseHeapLock. apply wp_bind. unfold wp at 1. rewrite Hl. hstep.
  unfold heapFree. destruct ((_ <=? _) && _); hsteps; [|by rewrite Heta].
  rewrite uwrap_small by lia. hsteps. rewrite Hu. simpl. by hsteps.
Qed.

(** The run behind [krealloc_shrink_short]: a block of 1008 bytes is shrunk to
    512 bytes and another block is allocated. *)
Definition shrink_run : M kheap (Z * Z) :=
  p ← kmalloc zeroFill 1008;
  q ← krealloc zeroFill p 512;
  r ← kmalloc zeroFill 64;
  mret (q, r).

(** A large shrink gives back 16 bytes too many: after [krealloc] to 512
    bytes the block's own footer and the tag of the block behind it lie in
    the last two of the 64 words that the caller asked for. *)
Theorem krealloc_shrink_short :
  wp shrink_run heap0 (fun '(q, r) h => r = q + 512 /\
    hmem h !! (q + 496) = Some 513 /\ hmem h !! (q + 504) = Some 81).
Proof. vm_compute. split_and!; reflexivity. Qed.

(** The word behind the last area is never written by the code, and a page is
    not cleared when the heap gets it.  [kfree] of the last block reads that
    word as the tag of an area: with an even number left in it the merge writes
    behind the memory of the heap.  [dirtyFill] is a page with 16 there. *)
Definition dirtyFill (a : Z) : Z := if a =? HEAP_BASE + 4088 then 16 else 0.
Definition guard_run (fill : Z -> Z) : M kheap unit := initHeap fill;; p ← kmalloc fill 4064; kfree p.
Theorem kfree_reads_guard_word : guard_run dirtyFill bootHeap = Fault /\ wp (guard_run zeroFill) bootHeap (fun _ h => hmem h !! (HEAP_BASE + 8) = Some 4080).
Proof. split; vm_compute; reflexivity. Qed.
(** And below the first area: freed with an even number in the first word of
    the page, the first block is merged into memory below the heap. *)
Theorem kfree_reads_low_word : guard_run (fun a => if a =? HEAP_BASE then 32 else 0) bootHeap = Fault.
Proof. vm_compute. reflexivity. Qed.
(** [krealloc] of the last block grows it into that word. *)
Definition grow_run (fill : Z -> Z) : M kheap Z := initHeap fill;; p ← kmalloc fill 4064; krealloc fill p 4080.
Theorem krealloc_reads_guard_word : grow_run (fun a => if a =? HEAP_BASE + 4088 then 64 else 0) bootHeap = Fault.
Proof. vm_compute. reflexivity. Qed.

(** ** Witnesses *)

Lemma heap0_room n : 0 <= n <= 4096 -> has_room heap0 n.
Proof. intros. replace (has_room heap0 n) with (4088 + n + 32 + PAGE_SIZE < 2 ^ 27 - 8) by (unfold has_room; do 3 f_equal). unfold PAGE_SIZE. lia. Qed.

Lemma kmalloc_correct_witness :
  (0 < 100 <= MAX_ALLOC) /\ wp (kmalloc zeroFill 100) heap0 (fun p h' => exists n,
      100 <= n /\ p <> 0 /\ p mod 16 = 0 /\ heap_rep h' ((p, n) :: []) /\
      same_payload [] heap0 h').
Proof.
  split; [by vm_compute|].
  exact (kmalloc_correct zeroFill zeroFill_guard heap0 [] 100 heap0_rep ltac:(done)
    (heap0_room 100 ltac:(done))).
Defined.

Lemma kfree_correct_witness : exists q n h,
  heap_rep h [(q, n)] /\ wp (kfree q) h (fun _ h' => heap_rep h' [] /\ same_payload [] h h').
Proof.
  destruct heap1_rep as (q & n & h & Hrep & _). exists q, n, h. split; [exact Hrep|].
  exact (kfree_correct h [(q, n)] q n [] Hrep (Permutation_refl _)).
Defined.

Lemma krealloc_correct_witness : exists q n h,
  heap_rep h [(q, n)] /\
  wp (krealloc zeroFill q 8000) h (fun p h' => exists m,
      8000 <= m /\ p <> 0 /\ heap_rep h' ((p, m) :: []) /\ same_payload [] h h' /\
      forall i, 0 <= i < n / 8 -> hmem h' !! (p + 8 * i) = hmem h !! (q + 8 * i)).
Proof.
  destruct heap1_rep as (q & n & h & Hrep & Hn & Hs & Hw & _). exists q, n, h.
  split; [exact Hrep|].
  apply (krealloc_correct zeroFill zeroFill_guard h q n [] 8000 Hrep Hw ltac:(done)).
  - unfold has_room. rewrite Hs. reflexivity.
  - destruct (heap_rep_block _ _ _ _ Hrep) as (B1 & _ & B3 & _). change (roundSize 8000) with 8000.
    unfold HEAP_BASE in *. lia.
Defined.

Lemma kzalloc_correct_witness :
  wp (kzalloc zeroFill 96) heap0 (fun p h' =>
      (exists n, 96 <= n /\ p <> 0 /\ p mod 16 = 0 /\ heap_rep h' ((p, n) :: []) /\
        same_payload [] heap0 h') /\
      forall i, 0 <= i < 96 / 8 -> hmem h' !! (p + 8 * i) = Some 0).
Proof.
  exact (kzalloc_correct zeroFill zeroFill_guard heap0 [] 96 heap0_rep ltac:(done)
    (heap0_room 96 ltac:(done)) eq_refl).
Defined.

Lemma initHeap_correct_witness :
  (forall a, guard_word (u64 (zeroFill a))) /\
  wp (initHeap zeroFill) bootHeap (fun _ h => heap_rep h [] /\
    hmem h !! (HEAP_BASE + 8) = Some 4080).
Proof. exact (conj zeroFill_guard (initHeap_correct zeroFill zeroFill_guard)). Defined.

Lemma heap_blocks_separate_witness : exists p n h,
  heap_rep h [(p, n)] /\ p mod 16 = 0 /\
  (forall x, p <= x < p + n -> x mod 8 = 0 -> is_Some (hmem h !! x)).
Proof.
  destruct heap1_rep as (q & n & h & Hrep & _). exists q, n, h.
  destruct (heap_blocks_separate h [(q, n)] 0%nat 0%nat q n q n Hrep eq_refl eq_refl) as (H1 & H2 & _).
  exact (conj Hrep (conj H1 H2)).
Defined.

Lemma heap_fully_coalesced_witness :
  heap_rep heap0 [] /\ heap_inv heap0 [(heapSize heap0 - 8, false)].
Proof. exact (conj heap0_rep (heap_fully_coalesced heap0 heap0_rep)). Defined.

Lemma kfree_twice_witness : exists q h h1,
  kfree q h = Done (tt, h1) /\ kfree q h1 = Done (tt, h1).
Proof.
  destruct heap1_rep as (q & n & h & Hrep & _).
  destruct (proj1 (wp_done _ _ _) (kfree_wp h [(q, n)] [] q n Hrep (Permutation_refl _)))
    as ([] & h1 & E & _).
  exists q, h, h1. split; [exact E|].
  exact (kfree_twice h [(q, n)] q n [] h1 Hrep (Permutation_refl _) E).
Defined.
