(* ===== verification/RbTree.v ===== *)
(** * Red-black trees: [kernel/lib/rbtree.c]

    The nodes live in a pointer store; [NULL] is address 0.  [rbSearch],
    [rbInsert] and [rbDelete] are the C functions, statement by statement. *)

From stdpp Require Import sorting.
From S2P Require Import Prelude Word.

Record RbNode := mkRb {
  parent : Z;
  leftChild : Z;
  rightChild : Z;
  value : Z;
  isRed : bool
}.

(** The nodes by address, and the variable the caller's [root] points at. *)
Record rbstate := mkRbState {
  nodes : gmap Z RbNode;
  root : Z
}.

Definition set_nodes (s : rbstate) (m : gmap Z RbNode) : rbstate := mkRbState m (root s).
Definition set_root (p : Z) : M rbstate unit := modify (fun s => mkRbState (nodes s) p).

(** [p->field] and the assignments [p->field = v]. *)
Definition node (p : Z) : M rbstate RbNode := deref (fun s => nodes s !! p).
Definition upd (p : Z) (f : RbNode -> RbNode) : M rbstate unit := fun s =>
  match nodes s !! p with
  | Some n => Done (tt, set_nodes s (<[p := f n]> (nodes s)))
  | None => Fault
  end.
Definition set_parent (p v : Z) : M rbstate unit :=
  upd p (fun n => mkRb v (leftChild n) (rightChild n) (value n) (isRed n)).
Definition set_left (p v : Z) : M rbstate unit :=
  upd p (fun n => mkRb (parent n) v (rightChild n) (value n) (isRed n)).
Definition set_right (p v : Z) : M rbstate unit :=
  upd p (fun n => mkRb (parent n) (leftChild n) v (value n) (isRed n)).
Definition set_red (p : Z) (b : bool) : M rbstate unit :=
  upd p (fun n => mkRb (parent n) (leftChild n) (rightChild n) (value n) b).

Fixpoint bstInsert (fuel : nat) (root newNode : Z) : M rbstate unit :=
  match fuel with
  | O => nofuel
  | S fuel =>
      n ← node newNode;
      r ← node root;
      if value n <? value r then
        if negb (leftChild r =? 0) then bstInsert fuel (leftChild r) newNode
        else set_left root newNode;; set_parent newNode root
      else
        if negb (rightChild r =? 0) then bstInsert fuel (rightChild r) newNode
        else set_right root newNode;; set_parent newNode root
  end.

(** The end of both rotations: [top] takes the place of [nd] under [par]. *)
Definition replaceChild (nd par top : Z) : M rbstate unit :=
  if negb (par =? 0) then
    n ← node nd;
    p ← node par;
    if value n <? value p then set_left par top else set_right par top
  else set_root top.

Definition rbLeftRotate (nd : Z) : M rbstate unit :=
  n ← node nd;
  let rChild := rightChild n in
  let par := parent n in
  r ← node rChild;
  set_right nd (leftChild r);;
  (if negb (leftChild r =? 0) then set_parent (leftChild r) nd else mret tt);;
  set_left rChild nd;;
  n ← node nd;
  set_parent rChild (parent n);;
  set_parent nd rChild;;
  replaceChild nd par rChild.

Definition rbRightRotate (nd : Z) : M rbstate unit :=
  n ← node nd;
  let lChild := leftChild n in
  let par := parent n in
  l ← node lChild;
  set_left nd (rightChild l);;
  (if negb (rightChild l =? 0) then set_parent (rightChild l) nd else mret tt);;
  set_right lChild nd;;
  n ← node nd;
  set_parent lChild (parent n);;
  set_parent nd lChild;;
  replaceChild nd par lChild.

(** [p && p->isRed]. *)
Definition redNode (p : Z) : M rbstate bool :=
  if p =? 0 then mret false else n ← node p; mret (isRed n).

(** One rotation round of [rbInsert]'s loop; returns the new [newNode]. *)
Definition rbInsertRotate (newNode par grandParent : Z) : M rbstate Z :=
  nn ← node newNode;
  p ← node par;
  g ← node grandParent;
  (if value p <? value g then
     (if value p <=? value nn then rbLeftRotate par else mret tt);;
     rbRightRotate grandParent
   else
     (if value nn <? value p then rbRightRotate par else mret tt);;
     rbLeftRotate grandParent);;
  g ← node grandParent;
  gp ← node (parent g);
  set_red grandParent (isRed gp);;
  set_red (parent g) (isRed g);;
  mret (parent g).

Fixpoint rbInsertFix (fuel : nat) (newNode par : Z) : M rbstate unit :=
  match fuel with
  | O => nofuel
  | S fuel =>
      red ← redNode par;
      if negb red then
        if par =? 0 then set_red newNode false;; set_root newNode else mret tt
      else
        p ← node par;
        let grandParent := parent p in
        g ← node grandParent;
        let uncle := if value p <? value g then rightChild g else leftChild g in
        uncleRed ← redNode uncle;
        if (uncleRed : bool) then
          set_red par false;;
          set_red uncle false;;
          set_red grandParent true;;
          g ← node grandParent;
          rbInsertFix fuel grandParent (parent g)
        else
          top ← rbInsertRotate newNode par grandParent;
          t ← node top;
          rbInsertFix fuel top (parent t)
  end.

(** Every loop of the file goes from node to child or from node to parent. *)
Definition rbFuel (s : rbstate) : nat := S (size (nodes s)).

Definition rbInsert (newNode : Z) : M rbstate unit :=
  set_left newNode 0;;
  set_right newNode 0;;
  r ← gets root;
  if r =? 0 then
    set_root newNode;;
    set_parent newNode 0;;
    set_red newNode false
  else
    set_red newNode true;;
    fuel ← gets rbFuel;
    bstInsert fuel r newNode;;
    n ← node newNode;
    rbInsertFix fuel newNode (parent n).

Fixpoint rbSearchFrom (fuel : nat) (curNode v : Z) : M rbstate Z :=
  match fuel with
  | O => nofuel
  | S fuel =>
      if curNode =? 0 then mret 0
      else
        n ← node curNode;
        if v =? value n then mret curNode
        else if v <? value n then rbSearchFrom fuel (leftChild n) v
        else rbSearchFrom fuel (rightChild n) v
  end.
Definition rbSearch (rt v : Z) : M rbstate Z :=
  fuel ← gets rbFuel; rbSearchFrom fuel rt v.

(** ** Deletion *)

Fixpoint leftmost (fuel : nat) (s : Z) : M rbstate Z :=
  match fuel with
  | O => nofuel
  | S fuel =>
      n ← node s;
      if negb (leftChild n =? 0) then leftmost fuel (leftChild n) else mret s
  end.

(** [bstDelete]: the node, its successor (or 0) and the child (or 0); 0 for
    a value that is not in the tree. *)
Definition bstDelete (v : Z) : M rbstate (Z * Z * Z) :=
  r ← gets root;
  del ← rbSearch r v;
  if del =? 0 then mret (0, 0, 0)
  else
    d ← node del;
    if negb (leftChild d =? 0) && negb (rightChild d =? 0) then
      fuel ← gets rbFuel;
      s ← leftmost fuel (rightChild d);
      sn ← node s;
      sp ← node (parent sn);
      (if value sn <? value sp then set_left (parent sn) 0 else set_right (parent sn) 0);;
      sn ← node s;
      mret (del, s, rightChild sn)
    else if negb (leftChild d =? 0) || negb (rightChild d =? 0) then
      let child2 := if negb (leftChild d =? 0) then leftChild d else rightChild d in
      set_parent child2 (parent d);;
      d ← node del;
      (if negb (parent d =? 0) then
         c ← node child2;
         p ← node (parent d);
         if value c <? value p then set_left (parent d) child2
         else set_right (parent d) child2
       else set_root child2);;
      mret (del, 0, child2)
    else
      (if negb (parent d =? 0) then
         p ← node (parent d);
         if value d <? value p then set_left (parent d) 0 else set_right (parent d) 0
       else set_root 0);;
      mret (del, 0, 0).

(** The double-black loop of [rbDelete]. *)
Fixpoint rbDeleteFix (fuel : nat) (child par : Z) : M rbstate unit :=
  match fuel with
  | O => nofuel
  | S fuel =>
      if par =? 0 then
        set_root child;; set_parent child 0
      else
        p ← node par;
        '(sibling, childRight) ←
          (if negb (child =? 0) then
             c ← node child;
             if value c <? value p then mret (rightChild p, true)
             else mret (leftChild p, false)
           else
             if negb (leftChild p =? 0) then mret (leftChild p, true)
             else mret (rightChild p, false));
        sn ← node sibling;
        sibling ←
          (if isRed sn then
             (if (childRight : bool) then rbRightRotate par else rbLeftRotate par);;
             set_red par true;;
             set_red sibling false;;
             p ← node par;
             mret (if childRight then leftChild p else rightChild p)
           else mret sibling);
        sn ← node sibling;
        leftRed ← redNode (leftChild sn);
        rightRed ← redNode (rightChild sn);
        if (childRight : bool) then
          if (leftRed : bool) then
            rbRightRotate par;;
            sn ← node sibling;
            set_red (leftChild sn) false
          else if (rightRed : bool) then
            rbLeftRotate sibling;;
            sn ← node sibling;
            set_red (parent sn) false;;
            rbRightRotate par
          else rbDeleteUp fuel sibling par
        else
          if (rightRed : bool) then
            rbLeftRotate par;;
            sn ← node sibling;
            set_red (rightChild sn) false
          else if (leftRed : bool) then
            rbRightRotate sibling;;
            sn ← node sibling;
            set_red (parent sn) false;;
            rbLeftRotate par
          else rbDeleteUp fuel sibling par
  end
with rbDeleteUp (fuel : nat) (sibling par : Z) : M rbstate unit :=
  match fuel with
  | O => nofuel
  | S fuel =>
      set_red sibling true;;
      p ← node par;
      if isRed p then set_red par false
      else rbDeleteFix fuel par (parent p)
  end.

Definition rbDelete (v : Z) : M rbstate Z :=
  '(del2, successor, child) ← bstDelete v;
  if del2 =? 0 then mret 0
  else
    let del := if negb (successor =? 0) then successor else del2 in
    d ← node del;
    childRed ← redNode child;
    fuel ← gets rbFuel;
    (if isRed d || childRed then
       if negb (child =? 0) then set_red child false else mret tt
     else rbDeleteFix (2 * fuel) child (parent d));;
    if negb (successor =? 0) then
      d2 ← node del2;
      set_parent successor (parent d2);;
      set_left successor (leftChild d2);;
      set_right successor (rightChild d2);;
      set_red successor (isRed d2);;
      (if negb (parent d2 =? 0) then
         p ← node (parent d2);
         if value d2 <? value p then set_left (parent d2) successor
         else set_right (parent d2) successor
       else set_root successor);;
      mret del2
    else mret del2.

(** ** Trees, contexts and their representation in the store *)

Inductive tree : Type :=
| Leaf
| Node (p : Z) (red : bool) (l : tree) (v : Z) (r : tree).

(** One step of the path to the root: the side the hole is on ([true]: left),
    the node, and the other subtree. *)
Record frame := mkFrame {
  fleft : bool; faddr : Z; fred : bool; fval : Z; fsib : tree
}.

Definition ptr (t : tree) : Z := match t with Leaf => 0 | Node p _ _ _ _ => p end.
Definition cpar (c : list frame) : Z := match c with [] => 0 | f :: _ => faddr f end.

Fixpoint elems (t : tree) : list Z :=
  match t with Leaf => [] | Node _ _ l v r => elems l ++ v :: elems r end.
Fixpoint addrs (t : tree) : list Z :=
  match t with Leaf => [] | Node p _ l _ r => p :: addrs l ++ addrs r end.

Definition plugf (f : frame) (t : tree) : tree :=
  if fleft f then Node (faddr f) (fred f) t (fval f) (fsib f)
  else Node (faddr f) (fred f) (fsib f) (fval f) t.
Fixpoint plug (c : list frame) (t : tree) : tree :=
  match c with [] => t | f :: c => plug c (plugf f t) end.

(** The addresses of a context. *)
Fixpoint caddrs (c : list frame) : list Z :=
  match c with [] => [] | f :: c => faddr f :: addrs (fsib f) ++ caddrs c end.

Fixpoint trep (m : gmap Z RbNode) (par : Z) (t : tree) : Prop :=
  match t with
  | Leaf => True
  | Node p red l v r =>
      p <> 0 /\ m !! p = Some (mkRb par (ptr l) (ptr r) v red) /\
      trep m p l /\ trep m p r
  end.

Fixpoint crep (m : gmap Z RbNode) (rt : Z) (c : list frame) (hole : Z) : Prop :=
  match c with
  | [] => rt = hole
  | f :: c =>
      faddr f <> 0 /\
      m !! faddr f = Some (if fleft f
        then mkRb (cpar c) hole (ptr (fsib f)) (fval f) (fred f)
        else mkRb (cpar c) (ptr (fsib f)) hole (fval f) (fred f)) /\
      trep m (faddr f) (fsib f) /\ crep m rt c (faddr f)
  end.

(** The store holds the tree [plug c t], with [t] at the end of the path [c]. *)
Definition rep (s : rbstate) (c : list frame) (t : tree) : Prop :=
  crep (nodes s) (root s) c (ptr t) /\ trep (nodes s) (cpar c) t /\
  NoDup (caddrs c ++ addrs t).

Definition bst (t : tree) : Prop := StronglySorted Z.lt (elems t).

(** The keys before and after the hole of a context. *)
Fixpoint cpre (c : list frame) : list Z :=
  match c with
  | [] => []
  | f :: c => cpre c ++ (if fleft f then [] else elems (fsib f) ++ [fval f])
  end.
Fixpoint cpost (c : list frame) : list Z :=
  match c with
  | [] => []
  | f :: c => (if fleft f then fval f :: elems (fsib f) else []) ++ cpost c
  end.

Section rep_lemmas.
Lemma elems_plug c t : elems (plug c t) = cpre c ++ elems t ++ cpost c.
Proof.
  revert t. induction c as [|f c IH]; intros t; simpl; [by rewrite app_nil_r|].
  rewrite IH. unfold plugf. destruct (fleft f); simpl; rewrite <- ?app_assoc; simpl.
  all: by simplify_list_eq.
Qed.

Lemma trep_frame m m' par t :
  (forall p, p ∈ addrs t -> m' !! p = m !! p) -> trep m par t -> trep m' par t.
Proof.
  revert par. induction t as [|p red l IHl v r IHr]; intros par Hm; simpl; [done|].
  intros (Hp & H1 & Hl & Hr). split_and!; [done| | |].
  - by rewrite Hm by (by left).
  - apply IHl; [|done]. intros q Hq. apply Hm. right. apply elem_of_app. by left.
  - apply IHr; [|done]. intros q Hq. apply Hm. right. apply elem_of_app. by right.
Qed.

Lemma trep_insert m par t p n :
  p ∉ addrs t -> trep m par t -> trep (<[p := n]> m) par t.
Proof.
  intros Hp. apply trep_frame. intros q Hq. apply lookup_insert_ne. by intros ->.
Qed.

Lemma crep_frame m m' rt c h :
  (forall p, p ∈ caddrs c -> m' !! p = m !! p) -> crep m rt c h -> crep m' rt c h.
Proof.
  revert h. induction c as [|f c IH]; intros h Hm; simpl; [done|].
  intros (Hp & H1 & Hs & Hc). split_and!; [done| | |].
  - by rewrite Hm by (by left).
  - eapply trep_frame; [|done]. intros q Hq. apply Hm. right. apply elem_of_app. by left.
  - apply IH; [|done]. intros q Hq. apply Hm. right. apply elem_of_app. by right.
Qed.

Lemma crep_insert m rt c h p n :
  p ∉ caddrs c -> crep m rt c h -> crep (<[p := n]> m) rt c h.
Proof.
  intros Hp. apply crep_frame. intros q Hq. apply lookup_insert_ne. by intros ->.
Qed.

Lemma addrs_plugf f t : addrs (plugf f t) ≡ₚ faddr f :: addrs (fsib f) ++ addrs t.
Proof. unfold plugf. destruct (fleft f); simpl; [|done]. by rewrite (Permutation_app_comm (addrs t)). Qed.

Lemma caddrs_plug c t : addrs (plug c t) ≡ₚ caddrs c ++ addrs t.
Proof.
  revert t. induction c as [|f c IH]; intros t; simpl; [done|].
  rewrite IH, addrs_plugf. rewrite <- app_assoc. rewrite <- Permutation_middle. f_equiv.
  rewrite !app_assoc. f_equiv. apply Permutation_app_comm.
Qed.

(** Moving the hole one node up. *)
Lemma rep_up s f c t : rep s (f :: c) t <-> rep s c (plugf f t).
Proof.
  unfold rep. assert (HP : caddrs (f :: c) ++ addrs t ≡ₚ caddrs c ++ addrs (plugf f t)).
  { rewrite <- !caddrs_plug. done. }
  rewrite HP. unfold plugf. simpl. destruct (fleft f); simpl; tauto.
Qed.

Lemma rep_plug s c t : rep s c t <-> rep s [] (plug c t).
Proof.
  revert t. induction c as [|f c IH]; intros t; simpl; [done|].
  rewrite rep_up, <- IH. tauto.
Qed.
End rep_lemmas.

(** ** Symbolic execution *)

Section rb_wp.
Lemma wp_node s p n (Q : RbNode -> rbstate -> Prop) :
  nodes s !! p = Some n -> Q n s -> wp (node p) s Q.
Proof. intros Hn HQ. apply wp_deref. eauto. Qed.

Lemma wp_upd s p f n (Q : unit -> rbstate -> Prop) :
  nodes s !! p = Some n -> Q tt (set_nodes s (<[p := f n]> (nodes s))) -> wp (upd p f) s Q.
Proof. intros Hn HQ. unfold wp, upd. by rewrite Hn. Qed.
End rb_wp.

Ltac rlk := simpl nodes; simplify_map_eq; first [done | eauto].
Ltac rstep :=
  lazymatch goal with
  | |- wp (_ ≫= _) _ _ => apply wp_bind
  | |- wp (mret _) _ _ => apply wp_ret
  | |- wp (gets _) _ _ => apply wp_gets
  | |- wp (set_root _) _ _ => apply wp_modify
  | |- wp (node _) _ _ => eapply wp_node; [by rlk|]
  | |- wp (set_parent _ _) _ _ => eapply wp_upd; [by rlk|]
  | |- wp (set_left _ _) _ _ => eapply wp_upd; [by rlk|]
  | |- wp (set_right _ _) _ _ => eapply wp_upd; [by rlk|]
  | |- wp (set_red _ _) _ _ => eapply wp_upd; [by rlk|]
  end; cbv beta; simpl parent; simpl leftChild; simpl rightChild; simpl value; simpl isRed.
Ltac rsteps := repeat rstep.

(** Same entries outside the addresses [l]. *)
Definition same_off (l : list Z) (m m' : gmap Z RbNode) : Prop :=
  forall k, k ∉ l -> m' !! k = m !! k.

Section rotate.
Lemma reparent_spec s par t p :
  trep (nodes s) par t -> NoDup (addrs t) ->
  wp (if negb (ptr t =? 0) then set_parent (ptr t) p else mret tt) s (fun _ s' =>
    trep (nodes s') p t /\ root s' = root s /\ same_off (addrs t) (nodes s) (nodes s')).
Proof.
  destruct t as [|q red l v r]; simpl; [by intros; apply wp_ret|].
  intros (Hq & Hm & Hl & Hr) Hnd. destruct (Z.eqb_spec q 0); [done|]. simpl.
  apply NoDup_cons in Hnd as [Hq1 Hnd]. rewrite elem_of_app in Hq1.
  rstep. split_and!; try done; simpl.
  - by rewrite lookup_insert_eq.
  - apply trep_insert; [tauto|done].
  - apply trep_insert; [tauto|done].
  - intros k Hk. rewrite lookup_insert_ne; [done|]. intros ->. apply Hk. by left.
Qed.

(** The compare that picks the child of the parent picks the right one. *)
Definition dir_ok (c : list frame) (v : Z) : Prop :=
  match c with [] => True | f :: _ => (v <? fval f) = fleft f end.

Lemma replaceChild_spec s c nd n top :
  crep (nodes s) (root s) c nd -> NoDup (caddrs c) ->
  nodes s !! nd = Some n -> dir_ok c (value n) ->
  wp (replaceChild nd (cpar c) top) s (fun _ s' =>
    crep (nodes s') (root s') c top /\ same_off (caddrs c) (nodes s) (nodes s')).
Proof.
  intros Hc Hnd Hn Hdir. unfold replaceChild. destruct c as [|f c]; simpl.
  - rstep. split; [done|]. by intros k _.
  - destruct Hc as (Hf & Hm & Hs & Hc). destruct (Z.eqb_spec (faddr f) 0); [done|]. simpl.
    simpl in Hnd, Hdir. apply NoDup_cons in Hnd as [Hf1 Hnd]. rewrite elem_of_app in Hf1.
    rstep. rstep. rstep. rstep.
    replace (value (if fleft f then _ else _)) with (fval f) by (by destruct (fleft f)).
    rewrite Hdir.
    destruct (fleft f) eqn:E; rstep; (split; [|intros k Hk; apply lookup_insert_ne; intros <-; apply Hk; by left]).
    all: simpl; rewrite ?E; split_and!; [done|by rewrite lookup_insert_eq|apply trep_insert; tauto|apply crep_insert; tauto].
Qed.

Lemma rep_node s c p cp l v r :
  rep s c (Node p cp l v r) ->
  nodes s !! p = Some (mkRb (cpar c) (ptr l) (ptr r) v cp) /\ p <> 0.
Proof. by intros (_ & (? & ? & _) & _). Qed.

(** The addresses of a rotation are pairwise different. *)
Record rot_disj (p q : Z) (C A B D : list Z) : Prop := {
  rd_pq : p <> q;
  rd_p : p ∉ A /\ p ∉ B /\ p ∉ D /\ p ∉ C;
  rd_q : q ∉ A /\ q ∉ B /\ q ∉ D /\ q ∉ C;
  rd_BA : A ## B; rd_BD : D ## B; rd_CB : C ## B; rd_AC : A ## C; rd_BC : B ## C; rd_DC : D ## C;
  rd_C : NoDup C; rd_B : NoDup B
}.

Lemma rot_disj_intro p q C A B D :
  NoDup (C ++ q :: p :: A ++ B ++ D) -> rot_disj p q C A B D.
Proof.
  rewrite !NoDup_app, !NoDup_cons, !NoDup_app.
  intros (HC & HCx & Hq & Hp & HA & HAx & HB & HBx & HD).
  assert (forall x, x ∈ C -> x <> q /\ x <> p /\ x ∉ A /\ x ∉ B /\ x ∉ D) as HC'.
  { intros x Hx. specialize (HCx x Hx). rewrite !elem_of_cons, !elem_of_app in HCx. tauto. }
  rewrite !elem_of_cons, !elem_of_app in Hq. rewrite !elem_of_app in Hp.
  assert (forall x, x ∈ A -> x ∉ B /\ x ∉ D) as HA'.
  { intros x Hx. specialize (HAx x Hx). rewrite elem_of_app in HAx. tauto. }
  split; try done; try tauto.
  - intros ->. tauto.
  - split_and!; try tauto. intros H. by apply HC' in H as (_ & ? & _).
  - split_and!; try tauto. intros H. by apply HC' in H as (? & _).
  - intros x H1 H2. by destruct (HA' x H1).
  - intros x H1 H2. by apply (HBx x H2).
  - intros x H1 H2. by destruct (HC' x H1) as (_ & _ & _ & ? & _).
  - intros x H1 H2. by destruct (HC' x H2) as (_ & _ & ? & _).
  - intros x H1 H2. by destruct (HC' x H2) as (_ & _ & _ & ? & _).
  - intros x H1 H2. by destruct (HC' x H2) as (_ & _ & _ & _ & ?).
Qed.

(** What the stores of a rotation do to the other nodes. *)
Lemma rot_frame (m m3 : gmap Z RbNode) (B l : list Z) (p q : Z) :
  (forall k, k ∉ B -> k <> p -> k <> q -> m3 !! k = m !! k) ->
  l ## B -> p ∉ l -> q ∉ l -> forall k, k ∈ l -> m3 !! k = m !! k.
Proof.
  intros H HB Hp Hq k Hk. apply H; [intros ?; by apply (HB k)|by intros ->..].
Qed.

Lemma same_off_frame C m m' par t :
  same_off C m m' -> addrs t ## C -> trep m par t -> trep m' par t.
Proof. intros H Hd. apply trep_frame. intros k Hk. apply H. intros ?. by apply (Hd k). Qed.

Lemma rbLeftRotate_spec s c p cp a vp q cq b vq d :
  rep s c (Node p cp a vp (Node q cq b vq d)) -> dir_ok c vp ->
  wp (rbLeftRotate p) s (fun _ s' => rep s' c (Node q cq (Node p cp a vp b) vq d)).
Proof.
  intros (Hc & (Hp & Hmp & Ha & Hq & Hmq & Hb & Hd) & Hnd) Hdir.
  assert (Hnd' : NoDup (caddrs c ++ addrs (Node q cq (Node p cp a vp b) vq d))).
  { assert (HP : caddrs c ++ addrs (Node p cp a vp (Node q cq b vq d)) ≡ₚ
      caddrs c ++ addrs (Node q cq (Node p cp a vp b) vq d)); [|by rewrite <- HP].
    simpl. f_equiv. by rewrite <- Permutation_middle, Permutation_swap, app_assoc. }
  pose proof Hnd' as Hdis. simpl in Hdis. rewrite <- app_assoc in Hdis.
  apply rot_disj_intro in Hdis as [Dpq (P1 & P2 & P3 & P4) (Q1 & Q2 & Q3 & Q4) ????????].
  unfold rbLeftRotate. do 7 rstep.
  wp_use reparent_spec; [simpl; apply trep_insert; [done|exact Hb]|done|].
  simpl. intros _ s2 (Hb2 & Hroot2 & Hoff2).
  assert (Hp2 : nodes s2 !! p = Some (mkRb (cpar c) (ptr a) (ptr b) vp cp))
    by (rewrite Hoff2 by done; by simplify_map_eq).
  assert (Hq2 : nodes s2 !! q = Some (mkRb p (ptr b) (ptr d) vq cq))
    by (rewrite Hoff2 by done; by simplify_map_eq).
  do 8 rstep. set (m3 := <[p := _]> _).
  assert (Hm3 : forall k, k ∉ addrs b -> k <> p -> k <> q -> m3 !! k = nodes s !! k).
  { intros k ???. unfold m3. simpl. simplify_map_eq. rewrite Hoff2 by done. by simplify_map_eq. }
  wp_use (fun s0 => replaceChild_spec s0 c p (mkRb q (ptr a) (ptr b) vp cp) q); simpl; [|done| |done|].
  { rewrite Hroot2. eapply crep_frame; [|exact Hc]. by eapply rot_frame. }
  { unfold m3. simpl. by simplify_map_eq. }
  intros _ s' (Hc' & Hoff). split_and!; [done| |done]. simpl.
  rewrite !Hoff by done. unfold m3 at 1 2. simpl. simplify_map_eq.
  split_and!; try done; (eapply same_off_frame; [exact Hoff|done|]).
  - eapply trep_frame; [by eapply rot_frame|exact Ha].
  - unfold m3. simpl. repeat (apply trep_insert; [done|]). done.
  - eapply trep_frame; [by eapply rot_frame|exact Hd].
Qed.

Lemma rbRightRotate_spec s c p cp a vp q cq b vq d :
  rep s c (Node p cp (Node q cq d vq b) vp a) -> dir_ok c vp ->
  wp (rbRightRotate p) s (fun _ s' => rep s' c (Node q cq d vq (Node p cp b vp a))).
Proof.
  intros (Hc & (Hp & Hmp & (Hq & Hmq & Hd & Hb) & Ha) & Hnd) Hdir.
  assert (HP : caddrs c ++ addrs (Node q cq d vq (Node p cp b vp a)) ≡ₚ
    caddrs c ++ q :: p :: addrs a ++ addrs b ++ addrs d).
  { simpl. f_equiv. rewrite <- Permutation_middle. do 2 f_equiv.
    rewrite (Permutation_app_comm (addrs d)), (Permutation_app_comm (addrs b)), <- app_assoc. done. }
  assert (Hnd' : NoDup (caddrs c ++ addrs (Node q cq d vq (Node p cp b vp a)))).
  { assert (HP0 : caddrs c ++ addrs (Node p cp (Node q cq d vq b) vp a) ≡ₚ
      caddrs c ++ q :: p :: addrs a ++ addrs b ++ addrs d);
      [|by rewrite HP, <- HP0].
    simpl. f_equiv. rewrite Permutation_swap. do 2 f_equiv.
    by rewrite (Permutation_app_comm (addrs d ++ addrs b)), (Permutation_app_comm (addrs d)). }
  pose proof Hnd' as Hdis. rewrite HP in Hdis.
  apply rot_disj_intro in Hdis as [Dpq (P1 & P2 & P3 & P4) (Q1 & Q2 & Q3 & Q4) ????????].
  unfold rbRightRotate. do 7 rstep.
  wp_use reparent_spec; [simpl; apply trep_insert; [done|exact Hb]|done|].
  simpl. intros _ s2 (Hb2 & Hroot2 & Hoff2).
  assert (Hp2 : nodes s2 !! p = Some (mkRb (cpar c) (ptr b) (ptr a) vp cp))
    by (rewrite Hoff2 by done; by simplify_map_eq).
  assert (Hq2 : nodes s2 !! q = Some (mkRb p (ptr d) (ptr b) vq cq))
    by (rewrite Hoff2 by done; by simplify_map_eq).
  do 8 rstep. set (m3 := <[p := _]> _).
  assert (Hm3 : forall k, k ∉ addrs b -> k <> p -> k <> q -> m3 !! k = nodes s !! k).
  { intros k ???. unfold m3. simpl. simplify_map_eq. rewrite Hoff2 by done. by simplify_map_eq. }
  wp_use (fun s0 => replaceChild_spec s0 c p (mkRb q (ptr b) (ptr a) vp cp) q); simpl; [|done| |done|].
  { rewrite Hroot2. eapply crep_frame; [|exact Hc]. by eapply rot_frame. }
  { unfold m3. simpl. by simplify_map_eq. }
  intros _ s' (Hc' & Hoff). split_and!; [done| |done]. simpl.
  rewrite !Hoff by done. unfold m3 at 1 2. simpl. simplify_map_eq.
  split_and!; try done; (eapply same_off_frame; [exact Hoff|done|]).
  - eapply trep_frame; [by eapply rot_frame|exact Hd].
  - unfold m3. simpl. repeat (apply trep_insert; [done|]). done.
  - eapply trep_frame; [by eapply rot_frame|exact Ha].
Qed.
End rotate.

(** ** Colours, and the loop of [rbInsert] *)

Definition recol (b : bool) (t : tree) : tree :=
  match t with Leaf => Leaf | Node p _ l v r => Node p b l v r end.
Definition recf (b : bool) (f : frame) : frame :=
  mkFrame (fleft f) (faddr f) b (fval f) (fsib f).
Definition is_red (t : tree) : bool :=
  match t with Leaf => false | Node _ red _ _ _ => red end.
(** The same node with the hole on the other side. *)
Definition swapf (f : frame) (t : tree) : frame :=
  mkFrame (negb (fleft f)) (faddr f) (fred f) (fval f) t.

(** The root, at the end of the path, is black. *)
Definition croot_black (c : list frame) : Prop :=
  match last c with None => True | Some f => fred f = false end.

Section colours.
Lemma plugf_swap f t : plugf f t = plugf (swapf f t) (fsib f).
Proof. unfold plugf, swapf. by destruct (fleft f). Qed.
Lemma recol_plugf b f t : recol b (plugf f t) = plugf (recf b f) t.
Proof. unfold plugf. simpl. by destruct (fleft f). Qed.
Lemma elems_plug_congr c t t' : elems t = elems t' -> elems (plug c t) = elems (plug c t').
Proof. intros H. by rewrite !elems_plug, H. Qed.
Lemma addrs_plug_congr c t t' x :
  (forall y, y ∈ addrs t <-> y ∈ addrs t') -> x ∈ addrs (plug c t) <-> x ∈ addrs (plug c t').
Proof. intros H. by rewrite !caddrs_plug, !elem_of_app, H. Qed.
Lemma ptr_plugf f t : ptr (plugf f t) = faddr f.
Proof. unfold plugf. by destruct (fleft f). Qed.
Lemma fval_elem f t : fval f ∈ elems (plugf f t).
Proof. unfold plugf. destruct (fleft f); simpl; apply elem_of_app; right; by left. Qed.
Lemma elems_recol b t : elems (recol b t) = elems t.
Proof. by destruct t. Qed.
Lemma elems_plugf_mono f f' t t' :
  fleft f' = fleft f -> fval f' = fval f -> elems (fsib f') = elems (fsib f) ->
  elems t' = elems t -> elems (plugf f' t') = elems (plugf f t).
Proof. unfold plugf. intros -> E1 E2 E3. destruct (fleft f); simpl; by rewrite ?E1, ?E2, ?E3. Qed.

Lemma rep_nodup_hole s c t : rep s c t -> NoDup (caddrs c) /\ NoDup (addrs t) /\ caddrs c ## addrs t.
Proof.
  intros (_ & _ & Hnd). apply NoDup_app in Hnd as (? & H & ?). split_and!; try done.
Qed.

Lemma set_red_spec s c t b :
  rep s c t -> t <> Leaf -> wp (set_red (ptr t) b) s (fun _ s' => rep s' c (recol b t)).
Proof.
  destruct t as [|p col l v r]; [done|]. intros (Hc & (Hp & Hm & Hl & Hr) & Hnd) _.
  pose proof Hnd as Hd. simpl in Hd. apply NoDup_app in Hd as (_ & Hd1 & Hd2).
  apply NoDup_cons in Hd2 as [Hd2 _]. rewrite elem_of_app in Hd2. simpl.
  rstep. split_and!; simpl; [| |done].
  - apply crep_insert; [|done]. intros H. apply (Hd1 p H). by left.
  - split_and!; [done|by simplify_map_eq|apply trep_insert; tauto..].
Qed.

(** Every node of the represented tree can be read. *)
Lemma redNode_spec s c t :
  rep s c t -> wp (redNode (ptr t)) s (fun b s' => s' = s /\ b = is_red t).
Proof.
  unfold redNode. destruct t as [|p col l v r]; simpl; [by intros _; apply wp_ret|].
  intros H. destruct (rep_node _ _ _ _ _ _ _ H) as [Hm Hp].
  destruct (Z.eqb_spec p 0); [done|]. rstep. by rstep.
Qed.

Lemma redNode_par s c t :
  rep s c t -> wp (redNode (cpar c)) s (fun b s' => s' = s /\
    b = match c with [] => false | f :: _ => fred f end).
Proof.
  destruct c as [|f c]; simpl; intros H.
  - by apply wp_ret.
  - rewrite rep_up in H. pose proof (redNode_spec s c _ H) as H'. rewrite ptr_plugf in H'.
    wp_use H'. intros b s' [-> ->]. split; [done|]. unfold plugf. by destruct (fleft f).
Qed.

(** The key comparisons of the loops find out the sides of the path. *)
Lemma bst_dir f c t v :
  bst (plug (f :: c) t) -> v ∈ elems t -> (v <? fval f) = fleft f.
Proof.
  unfold bst. rewrite elems_plug. simpl. intros Hs Hv.
  destruct (fleft f).
  - apply StronglySorted_app_1_r in Hs.
    apply Z.ltb_lt. eapply (StronglySorted_app_1_elem_of Z.lt); [exact Hs|done|].
    simpl. by left.
  - rewrite <- app_assoc in Hs. apply StronglySorted_app_1_r in Hs.
    apply Z.ltb_ge. apply Z.lt_le_incl.
    eapply (StronglySorted_app_1_elem_of Z.lt); [exact Hs| |].
    + apply elem_of_app. right. by left.
    + apply elem_of_app. by left.
Qed.

Lemma bst_dir_ok c t v : bst (plug c t) -> v ∈ elems t -> dir_ok c v.
Proof. destruct c as [|f c]; [done|]. apply bst_dir. Qed.

Lemma bst_elems c t t' : elems t' = elems t -> bst (plug c t) -> bst (plug c t').
Proof. unfold bst. rewrite !elems_plug. by intros ->. Qed.
End colours.

Section insert_fix.
(** The colour exchange at the end of a round. *)
Lemma swap_colours s c n cn gl gr g gc left l v r gv :
  let T := fun n' => if left : bool then Node n n' l v (Node g cn gl gv gr)
                     else Node n n' (Node g cn gl gv gr) v r in
  rep s c (if left then Node n cn l v (Node g gc gl gv gr)
           else Node n cn (Node g gc gl gv gr) v r) ->
  wp (g' ← node g;
      gp ← node (parent g');
      set_red g (isRed gp);;
      set_red (parent g') (isRed g');;
      mret (parent g')) s (fun p s' => p = n /\ rep s' c (T gc)).
Proof.
  intros T Hrep. pose proof Hrep as (_ & Htr & _).
  assert (Hn : nodes s !! n = Some (mkRb (cpar c) (if left then ptr l else g) (if left then g else ptr r) v cn) /\ nodes s !! g = Some (mkRb n (ptr gl) (ptr gr) gv gc)).
  { destruct left; simpl in Htr; tauto. }
  destruct Hn as [Hn Hg]. do 4 rstep. apply wp_bind.
  assert (Hrep1 : rep s (mkFrame (negb left) n cn v (if left then l else r) :: c) (Node g gc gl gv gr)).
  { rewrite rep_up. unfold plugf. simpl. by destruct left. }
  wp_use (set_red_spec s _ _ cn Hrep1); [done|]. intros _ s1 H1. rewrite rep_up in H1. simpl in H1.
  apply wp_bind.
  pose proof (set_red_spec s1 c _ gc H1) as H2. rewrite ptr_plugf in H2. simpl in H2.
  wp_use H2; [by destruct left|]. intros _ s2 H3. rstep. split; [done|].
  unfold T, plugf in *. simpl in *. by destruct left.
Qed.

Lemma rbInsertRotate_spec s f g c t n cn l v r :
  t = Node n cn l v r -> rep s (f :: g :: c) t -> bst (plug (f :: g :: c) t) ->
  wp (rbInsertRotate n (faddr f) (faddr g)) s (fun p s' => exists T,
    p = ptr T /\ T <> Leaf /\ rep s' c T /\
    elems T = elems (plugf g (plugf f t)) /\ forall x, x ∈ addrs T <-> x ∈ addrs (plugf g (plugf f t))).
Proof.
  intros Et Hrep Hbst.
  assert (Hv : (v <? fval f) = fleft f) by (eapply bst_dir; [exact Hbst|]; subst t; simpl; set_solver).
  pose proof (fval_elem f t) as Hf.
  assert (Hfg : (fval f <? fval g) = fleft g) by (eapply bst_dir; [exact Hbst|done]).
  assert (Hg : dir_ok c (fval g)).
  { eapply (bst_dir_ok _ (plugf g (plugf f t))); [exact Hbst|].
    unfold plugf at 1. destruct (fleft g); simpl; set_solver. }
  pose proof Hrep as Hrep1. rewrite rep_up in Hrep1.
  pose proof Hrep1 as Hrep2. rewrite rep_up in Hrep2.
  assert (exists nn, nodes s !! n = Some nn /\ value nn = v) as (nn & Hnn & Evn).
  { subst t. destruct (rep_node _ _ _ _ _ _ _ Hrep) as [H _]. eauto. }
  assert (exists p, nodes s !! faddr f = Some p /\ value p = fval f) as (pp & Hpp & Evp).
  { unfold plugf in Hrep1. destruct (fleft f); destruct (rep_node _ _ _ _ _ _ _ Hrep1) as [H _]; eauto. }
  assert (exists p, nodes s !! faddr g = Some p /\ value p = fval g) as (gg & Hgg & Evg).
  { unfold plugf at 1 in Hrep2. destruct (fleft g); destruct (rep_node _ _ _ _ _ _ _ Hrep2) as [H _]; eauto. }
  unfold rbInsertRotate. do 6 rstep. rewrite Evn, Evp, Evg, Hfg, Hv.
  replace (fval f <=? v) with (negb (fleft f)) by (rewrite <- Hv; lia).
  clear nn Hnn Evn pp Hpp Evp gg Hgg Evg Hbst. subst t.
  destruct f as [[] fa fc fv fs], g as [[] ga gc gv gs]; unfold plugf in *; simpl in *;
    apply wp_bind; apply wp_bind.
  - apply wp_ret. wp_use (rbRightRotate_spec _ _ _ _ _ _ _ _ _ _ _ Hrep2); [done|].
    intros _ s1 H1. wp_use (fun s0 => swap_colours s0 c fa fc fs gs ga gc true (Node n cn l v r) fv Leaf gv); [exact H1|].
    intros p s2 [-> H2]. eexists. split_and!; [| |exact H2|..]; simpl; [done|done|by simplify_list_eq|set_solver].
  - wp_use (rbRightRotate_spec _ _ _ _ _ _ _ _ _ _ _ Hrep1); [exact Hfg|].
    intros _ s0 H0. rewrite rep_up in H0. unfold plugf in H0. simpl in H0.
    wp_use (rbLeftRotate_spec _ _ _ _ _ _ _ _ _ _ _ H0); [done|].
    intros _ s1 H1. wp_use (fun s0 => swap_colours s0 c n cn gs l ga gc false Leaf v (Node fa fc r fv fs) gv); [exact H1|].
    intros p s2 [-> H2]. eexists. split_and!; [| |exact H2|..]; simpl; [done|done|by simplify_list_eq|set_solver].
  - wp_use (rbLeftRotate_spec _ _ _ _ _ _ _ _ _ _ _ Hrep1); [exact Hfg|].
    intros _ s0 H0. rewrite rep_up in H0. unfold plugf in H0. simpl in H0.
    wp_use (rbRightRotate_spec _ _ _ _ _ _ _ _ _ _ _ H0); [done|].
    intros _ s1 H1. wp_use (fun s0 => swap_colours s0 c n cn r gs ga gc true (Node fa fc fs fv l) v Leaf gv); [exact H1|].
    intros p s2 [-> H2]. eexists. split_and!; [| |exact H2|..]; simpl; [done|done|by simplify_list_eq|set_solver].
  - apply wp_ret. wp_use (rbLeftRotate_spec _ _ _ _ _ _ _ _ _ _ _ Hrep2); [done|].
    intros _ s1 H1. wp_use (fun s0 => swap_colours s0 c fa fc gs fs ga gc false Leaf fv (Node n cn l v r) gv); [exact H1|].
    intros p s2 [-> H2]. eexists. split_and!; [| |exact H2|..]; simpl; [done|done|by simplify_list_eq|set_solver].
Qed.
End insert_fix.

Section insert.
Lemma croot_black_tail f g c : croot_black (f :: g :: c) -> croot_black c.
Proof. unfold croot_black. destruct c as [|h c]; [done|]. by rewrite !last_cons_cons. Qed.

Lemma wp_set_root s c t :
  rep s [] t -> c = ptr t -> wp (set_root c) s (fun _ s' => rep s' [] t).
Proof. intros (Hc & Ht & Hnd) ->. apply wp_modify. done. Qed.

Definition root_black (t : tree) : Prop := is_red t = false.

Lemma root_black_plug c t : croot_black c -> c <> [] -> root_black (plug c t).
Proof.
  revert t. induction c as [|f c IH]; intros t Hc Hne; [done|]. simpl.
  destruct c as [|g c]; simpl.
  - unfold croot_black in Hc. simpl in Hc. unfold plugf, root_black. destruct (fleft f); done.
  - apply IH; [|done]. unfold croot_black in *. by rewrite last_cons_cons in Hc.
Qed.

Lemma rep_par s c t :
  rep s c t -> t <> Leaf -> exists n, nodes s !! ptr t = Some n /\ parent n = cpar c.
Proof.
  destruct t as [|p col l v r]; [done|]. intros H _. simpl.
  destruct (rep_node _ _ _ _ _ _ _ H) as [Hm _]. eauto.
Qed.

(** The recolouring round. *)
Lemma recolour_spec {A} s f g c t (k : M rbstate A) Q :
  fsib g <> Leaf -> rep s (f :: g :: c) t ->
  (forall s', rep s' c (plugf (recf true (mkFrame (fleft g) (faddr g) (fred g) (fval g)
      (recol false (fsib g)))) (plugf (recf false f) t)) -> wp k s' Q) ->
  wp (set_red (faddr f) false;; set_red (ptr (fsib g)) false;; set_red (faddr g) true;; k) s Q.
Proof.
  intros Eu Hrep Hk. rewrite rep_up in Hrep. apply wp_bind.
  pose proof (set_red_spec s _ _ false Hrep) as H1. rewrite ptr_plugf, recol_plugf in H1.
  wp_use H1; [unfold plugf; by destruct (fleft f)|]. intros _ s1 H2.
  rewrite rep_up, plugf_swap, <- rep_up in H2. apply wp_bind.
  wp_use (set_red_spec s1 _ _ false H2); [done|]. intros _ s2 H4. rewrite rep_up, plugf_swap in H4.
  pose proof (set_red_spec s2 _ _ true H4) as H5. rewrite ptr_plugf, recol_plugf in H5.
  simpl in H5. apply wp_bind. wp_use H5; [unfold plugf; simpl; by destruct (negb _)|].
  intros _ s3 H6. unfold swapf in H6. simpl in H6. rewrite negb_involutive in H6. by apply Hk.
Qed.

Lemma rbInsertFix_spec fuel s c t :
  rep s c t -> t <> Leaf -> bst (plug c t) -> croot_black c -> (length c < fuel)%nat ->
  wp (rbInsertFix fuel (ptr t) (cpar c)) s (fun _ s' => exists t',
    rep s' [] t' /\ elems t' = elems (plug c t) /\ root_black t' /\
    forall x, x ∈ addrs t' <-> x ∈ addrs (plug c t)).
Proof.
  revert s c t. induction fuel as [|fuel IH]; intros s c t Hrep Ht Hbst Hblack Hfuel; [lia|].
  cbn [rbInsertFix]. apply wp_bind. wp_use (redNode_par s c t Hrep). intros b s' [-> ->].
  destruct c as [|f c]; simpl.
  { apply wp_bind. wp_use (set_red_spec s [] t false Hrep Ht). intros _ s1 H1.
    wp_use (wp_set_root s1 (ptr t) (recol false t) H1); [by destruct t|].
    intros _ s2 H2. exists (recol false t). split_and!; [done|apply elems_recol|by destruct t|].
    by destruct t. }
  pose proof Hrep as Hrep1. rewrite rep_up in Hrep1.
  assert (faddr f <> 0 /\ exists p, nodes s !! faddr f = Some p /\ value p = fval f /\ parent p = cpar c)
    as (Hf0 & pp & Hpp & Evp & Epar).
  { unfold plugf in Hrep1. destruct (fleft f); destruct (rep_node _ _ _ _ _ _ _ Hrep1) as [H ?]; eauto 10. }
  destruct (fred f) eqn:Ef; simpl.
  2:{ destruct (Z.eqb_spec (faddr f) 0); [done|]. apply wp_ret. exists (plug (f :: c) t).
    split_and!; [exact (proj1 (rep_plug s (f :: c) t) Hrep)|done|by apply root_black_plug|done]. }
  destruct c as [|g c]; [unfold croot_black in Hblack; simpl in Hblack; congruence|].
  pose proof Hrep1 as Hrep2. rewrite rep_up in Hrep2.
  assert (Hfg : (fval f <? fval g) = fleft g).
  { eapply (bst_dir g c (plugf f t)); [exact Hbst|]. apply fval_elem. }
  assert (exists p, nodes s !! faddr g = Some p /\ value p = fval g /\
    (if fleft g then rightChild p else leftChild p) = ptr (fsib g)) as (gg & Hgg & Evg & Eunc).
  { unfold plugf at 1 in Hrep2. destruct (fleft g); destruct (rep_node _ _ _ _ _ _ _ Hrep2) as [H _]; eauto 10. }
  rstep. rstep. rewrite Epar. simpl cpar. rstep. rstep. rewrite Evp, Evg, Hfg, Eunc.
  pose proof Hrep2 as Hrep3. rewrite plugf_swap, <- rep_up in Hrep3.
  apply wp_bind. wp_use (redNode_spec _ _ _ Hrep3). intros b s' [-> ->].
  assert (Hb' : forall T, elems T = elems (plugf g (plugf f t)) -> bst (plug c T)).
  { intros T HT. eapply bst_elems; [exact HT|]. exact Hbst. }
  destruct (is_red (fsib g)) eqn:Hu.
  - eapply recolour_spec; [by destruct (fsib g)|exact Hrep|].
    intros s1 H1. set (T := plugf _ _) in H1.
    assert (HT : elems T = elems (plugf g (plugf f t))).
    { unfold T. apply elems_plugf_mono; simpl; [done|done|apply elems_recol|by apply elems_plugf_mono]. }
    assert (HTa : forall x, x ∈ addrs T <-> x ∈ addrs (plugf g (plugf f t))).
    { intros x. unfold T. rewrite !addrs_plugf. simpl. by destruct (fsib g). }
    assert (HTg : ptr T = faddr g) by (unfold T; by rewrite ptr_plugf).
    destruct (rep_par s1 c T H1) as (m & Hm & Em); [unfold T, plugf; simpl; by destruct (fleft g)|].
    rewrite <- HTg. rstep. eapply wp_node; [exact Hm|]. rewrite Em.
    wp_use (IH s1 c T H1); [unfold T, plugf; simpl; by destruct (fleft g)|by apply Hb'|
      by eapply croot_black_tail|simpl in Hfuel; lia|].
    intros _ s' (t' & G1 & G2 & G3 & G4). exists t'. split_and!; [done| |done|].
    + rewrite G2. exact (elems_plug_congr c T (plugf g (plugf f t)) HT).
    + intros x. rewrite G4. exact (addrs_plug_congr c T (plugf g (plugf f t)) x HTa).
  - apply wp_bind. destruct t as [|n cn l v r] eqn:Et; [done|]. simpl ptr.
    wp_use (rbInsertRotate_spec s f g c _ n cn l v r eq_refl Hrep Hbst).
    intros p s1 (T & -> & HT & H1 & H2 & H3).
    destruct (rep_par s1 c T H1 HT) as (m & Hm & Em).
    rstep. eapply wp_node; [exact Hm|]. rewrite Em.
    wp_use (IH s1 c T H1 HT); [by apply Hb'|by eapply croot_black_tail|simpl in Hfuel; lia|].
    intros _ s' (t' & G1 & G2 & G3 & G4). exists t'. split_and!; [done| |done|].
    + rewrite G2. exact (elems_plug_congr c T (plugf g (plugf f _)) H2).
    + intros x. rewrite G4. exact (addrs_plug_congr c T (plugf g (plugf f _)) x H3).
Qed.
End insert.

(** ** Fuel *)

Fixpoint height (t : tree) : nat :=
  match t with Leaf => 0 | Node _ _ l _ r => S (Nat.max (height l) (height r)) end.

Section fuel.
Lemma height_addrs t : (height t <= length (addrs t))%nat.
Proof. induction t as [|p red l IHl v r IHr]; simpl; [done|]. rewrite length_app. lia. Qed.

Lemma length_caddrs c : (length c <= length (caddrs c))%nat.
Proof. induction c as [|f c IH]; simpl; [done|]. rewrite length_app. lia. Qed.

Lemma trep_dom m par t : trep m par t -> forall p, p ∈ addrs t -> p ∈ dom m.
Proof.
  revert par. induction t as [|q red l IHl v r IHr]; intros par; simpl; [set_solver|].
  intros (_ & Hm & Hl & Hr) p. rewrite elem_of_cons, elem_of_app. intros [->|[H|H]]; eauto.
  apply elem_of_dom. eauto.
Qed.

Lemma rep_size s t : rep s [] t -> (length (addrs t) <= size (nodes s))%nat.
Proof.
  intros (_ & Ht & Hnd). simpl in *.
  rewrite <- (size_list_to_set (C := gset Z) (addrs t)) by done.
  rewrite <- size_dom. apply subseteq_size. intros p. rewrite elem_of_list_to_set.
  by eapply trep_dom.
Qed.

(** The fuel of the loops suffices on any represented tree. *)
Lemma rep_fuel s c t : rep s c t -> (length c + height t < rbFuel s)%nat.
Proof.
  intros H. rewrite rep_plug in H. apply rep_size in H.
  rewrite (Permutation_length (caddrs_plug c t)), length_app in H.
  pose proof (height_addrs t). pose proof (length_caddrs c). unfold rbFuel. lia.
Qed.
End fuel.

Section search.
(** The keys on both sides of a path are on both sides of [v]. *)
Definition between (c : list frame) (v : Z) : Prop :=
  (forall x, x ∈ cpre c -> x < v) /\ (forall y, y ∈ cpost c -> v < y).

Lemma between_left c p red l u r v :
  between c v -> v < u -> bst (plug c (Node p red l u r)) ->
  between (mkFrame true p red u r :: c) v.
Proof.
  intros [H1 H2] Hv Hb. split; simpl.
  - by rewrite app_nil_r.
  - unfold bst in Hb. rewrite elems_plug in Hb. simpl in Hb.
    apply StronglySorted_app_1_r in Hb. rewrite <- app_assoc in Hb.
    apply StronglySorted_app_1_r in Hb. simpl in Hb.
    intros y Hy. apply elem_of_cons in Hy as [->|Hy]; [done|].
    apply StronglySorted_inv in Hb as [_ Hb]. rewrite Forall_forall in Hb.
    specialize (Hb y Hy). lia.
Qed.

Lemma between_right c p red l u r v :
  between c v -> u < v -> bst (plug c (Node p red l u r)) ->
  between (mkFrame false p red u l :: c) v.
Proof.
  intros [H1 H2] Hv Hb. split; simpl; [|done].
  unfold bst in Hb. rewrite elems_plug in Hb. simpl in Hb.
  replace (cpre c ++ (elems l ++ u :: elems r) ++ cpost c)
    with ((cpre c ++ elems l) ++ u :: (elems r ++ cpost c)) in Hb by (by simplify_list_eq).
  intros x. rewrite !elem_of_app, list_elem_of_singleton. intros Hx.
  assert (x <= u); [|lia]. destruct Hx as [Hx|[Hx| ->]]; [| |done];
    apply Z.lt_le_incl; eapply (StronglySorted_app_1_elem_of Z.lt _ _ x u Hb); set_solver.
Qed.

Lemma rbSearchFrom_spec fuel s c t v :
  rep s c t -> bst (plug c t) -> between c v -> (height t < fuel)%nat ->
  wp (rbSearchFrom fuel (ptr t) v) s (fun p s' => s' = s /\
    (p = 0 /\ v ∉ elems (plug c t) \/
     p <> 0 /\ p ∈ addrs (plug c t) /\ exists n, nodes s !! p = Some n /\ value n = v)).
Proof.
  revert c t. induction fuel as [|fuel IH]; intros c t Hrep Hb Hbt Hf; [lia|].
  simpl. destruct t as [|p red l u r]; simpl.
  - apply wp_ret. split; [done|]. left. split; [done|]. rewrite elems_plug. simpl.
    destruct Hbt as [H1 H2]. rewrite elem_of_app. intros [H|H]; [apply H1 in H|apply H2 in H]; lia.
  - destruct (rep_node _ _ _ _ _ _ _ Hrep) as [Hm Hp]. destruct (Z.eqb_spec p 0); [done|].
    rstep. rstep. simpl in Hf. destruct (Z.eqb_spec v u) as [->|Hne].
    { apply wp_ret. split; [done|]. right. split_and!; [done| |eauto].
      rewrite caddrs_plug. apply elem_of_app. right. by left. }
    destruct (Z.ltb_spec v u).
    + apply (IH (mkFrame true p red u r :: c) l); [by rewrite rep_up|done| |lia].
      by eapply between_left.
    + apply (IH (mkFrame false p red u l :: c) r); [by rewrite rep_up|done| |lia].
      eapply between_right; [done|lia|done].
Qed.
End search.

Section rbinsert.
(** A fresh node that has been prepared for insertion. *)
Definition fresh_node (s : rbstate) (n v : Z) (t : tree) : Prop :=
  n <> 0 /\ n ∉ addrs t /\ exists par, nodes s !! n = Some (mkRb par 0 0 v true).

(** Hanging the node at the end of the path. *)
Lemma attach_spec s f c n v :
  rep s (f :: c) Leaf -> fresh_node s n v (plug (f :: c) Leaf) ->
  wp ((if fleft f then set_left (faddr f) n else set_right (faddr f) n);;
      set_parent n (faddr f)) s
    (fun _ s' => rep s' (f :: c) (Node n true Leaf v Leaf)).
Proof.
  intros (Hc & _ & Hnd) (Hn & Hna & par & Hm). rewrite caddrs_plug, app_nil_r in Hna.
  destruct Hc as (Hf & Hmf & Hs & Hc). simpl in Hnd, Hna. rewrite app_nil_r in Hnd.
  rewrite elem_of_cons, elem_of_app in Hna. pose proof Hnd as Hnd'.
  apply NoDup_cons in Hnd' as [Hf1 Hnd']. rewrite elem_of_app in Hf1.
  assert (Hne : n <> faddr f) by tauto. apply wp_bind.
  assert (Hfin : forall s1, root s1 = root s -> nodes s1 !! faddr f = Some (if fleft f
      then mkRb (cpar c) n (ptr (fsib f)) (fval f) (fred f)
      else mkRb (cpar c) (ptr (fsib f)) n (fval f) (fred f)) ->
    nodes s1 !! n = Some (mkRb (faddr f) 0 0 v true) ->
    (forall k, k <> n -> k <> faddr f -> nodes s1 !! k = nodes s !! k) ->
    rep s1 (f :: c) (Node n true Leaf v Leaf)).
  { intros s1 Hr1 E1 E2 E3. split_and!; simpl.
    - rewrite Hr1. split_and!; [done|done| |].
      + eapply trep_frame; [|exact Hs]. intros k Hk. apply E3; intros ->; tauto.
      + eapply crep_frame; [|exact Hc]. intros k Hk. apply E3; intros ->; tauto.
    - done.
    - change (NoDup ((faddr f :: addrs (fsib f) ++ caddrs c) ++ [n])).
      apply NoDup_app. split_and!; [done| |apply NoDup_singleton].
      intros x Hx ->%list_elem_of_singleton. rewrite elem_of_cons, elem_of_app in Hx. tauto. }
  destruct (fleft f); rstep; rstep; simpl; apply Hfin; simpl; try done;
    try (by simplify_map_eq); intros k ??; by simplify_map_eq.
Qed.

Lemma bstInsert_spec fuel s c t n v :
  rep s c t -> t <> Leaf -> bst (plug c t) -> between c v -> v ∉ elems (plug c t) ->
  fresh_node s n v (plug c t) -> (height t < fuel)%nat ->
  wp (bstInsert fuel (ptr t) n) s (fun _ s' => exists c',
    c' <> [] /\ plug c' Leaf = plug c t /\ between c' v /\
    rep s' c' (Node n true Leaf v Leaf)).
Proof.
  revert c t. induction fuel as [|fuel IH]; intros c t Hrep Ht Hb Hbt Hv Hn Hf; [lia|].
  simpl. destruct t as [|p red l u r]; [done|]. simpl ptr.
  destruct (rep_node _ _ _ _ _ _ _ Hrep) as [Hm Hp].
  pose proof Hn as (Hn0 & Hna & par & Hnm). simpl in Hf.
  assert (Hvu : v <> u).
  { intros ->. apply Hv. rewrite elems_plug, !elem_of_app. right. left. simpl.
    apply elem_of_app. right. by left. }
  do 4 rstep. destruct (Z.ltb_spec v u).
  - assert (Hup : rep s (mkFrame true p red u r :: c) l) by (by rewrite rep_up).
    pose proof (between_left c p red l u r v Hbt H Hb) as Hbt'.
    destruct l as [|q qc ql qv qr]; simpl.
    + wp_use (attach_spec s (mkFrame true p red u r) c n v Hup Hn).
      intros _ s' H'. by exists (mkFrame true p red u r :: c).
    + destruct (Z.eqb_spec q 0) as [->|]; [by destruct (rep_node _ _ _ _ _ _ _ Hup)|]. simpl.
      apply (IH (mkFrame true p red u r :: c) (Node q qc ql qv qr)); try done. simpl in *. lia.
  - assert (Hup : rep s (mkFrame false p red u l :: c) r) by (by rewrite rep_up).
    pose proof (between_right c p red l u r v Hbt ltac:(lia) Hb) as Hbt'.
    destruct r as [|q qc ql qv qr]; simpl.
    + wp_use (attach_spec s (mkFrame false p red u l) c n v Hup Hn).
      intros _ s' H'. by exists (mkFrame false p red u l :: c).
    + destruct (Z.eqb_spec q 0) as [->|]; [by destruct (rep_node _ _ _ _ _ _ _ Hup)|]. simpl.
      apply (IH (mkFrame false p red u l :: c) (Node q qc ql qv qr)); try done. simpl in *. lia.
Qed.

(** A state that holds a search tree with a black root and the keys [ks]. *)
Definition rb_tree (s : rbstate) (t : tree) : Prop :=
  rep s [] t /\ bst t /\ root_black t.

Lemma bst_plug_insert c n v :
  bst (plug c Leaf) -> between c v -> bst (plug c (Node n true Leaf v Leaf)).
Proof.
  unfold bst. rewrite !elems_plug. simpl. intros Hs [H1 H2].
  apply StronglySorted_app in Hs as (Ha & Hb & Hc). apply StronglySorted_app_2; [|done|].
  - intros x y Hx Hy. apply elem_of_cons in Hy as [->|Hy]; [by apply H1|by apply Ha].
  - constructor; [done|]. by apply Forall_forall.
Qed.
End rbinsert.

(** ** No operation changes the key of a node *)

Definition keeps_values {A} (m : M rbstate A) : Prop := forall s a s',
  m s = Done (a, s') -> forall p, value <$> nodes s' !! p = value <$> nodes s !! p.

Section keeps.
Lemma kv_bind {A B} (m : M rbstate A) (k : A -> M rbstate B) :
  keeps_values m -> (forall a, keeps_values (k a)) -> keeps_values (m ≫= k).
Proof.
  intros Hm Hk s b s'. unfold mbind, M_bind. destruct (m s) as [[a s1]| |] eqn:E; [|done..].
  intros H p. by rewrite (Hk a s1 b s' H), (Hm s a s1 E).
Qed.
Lemma kv_ret {A} (a : A) : keeps_values (mret a).
Proof. by intros s b s' [= <- <-] p. Qed.
Lemma kv_gets {A} (f : rbstate -> A) : keeps_values (gets f).
Proof. by intros s b s' [= <- <-] p. Qed.
Lemma kv_nofuel {A} : keeps_values (@nofuel rbstate A).
Proof. by intros s b s' ?. Qed.
Lemma kv_root v : keeps_values (set_root v).
Proof. by intros s b s' [= <- <-] p. Qed.
Lemma kv_node p : keeps_values (node p).
Proof. intros s b s'. unfold node, deref. destruct (nodes s !! p); [|done]. by intros [= <- <-] q. Qed.
Lemma kv_upd p f : (forall n, value (f n) = value n) -> keeps_values (upd p f).
Proof.
  intros Hf s b s'. unfold upd. destruct (nodes s !! p) as [n|] eqn:E; [|done].
  intros [= <- <-] q. simpl. destruct (decide (p = q)) as [->|]; simplify_map_eq; [|done].
  by rewrite Hf.
Qed.
Lemma kv_if {A} (b : bool) (m1 m2 : M rbstate A) :
  keeps_values m1 -> keeps_values m2 -> keeps_values (if b then m1 else m2).
Proof. by destruct b. Qed.
End keeps.

Ltac kv_step :=
  first
    [ apply kv_ret | apply kv_gets | apply kv_nofuel | apply kv_root | apply kv_node
    | apply kv_upd; done | apply kv_if | assumption
    | apply kv_bind; [|intros ?] ].
Ltac kv := repeat kv_step.

Section keeps_ops.
Lemma kv_rotate : (forall p, keeps_values (rbLeftRotate p)) /\ (forall p, keeps_values (rbRightRotate p)).
Proof. split; intros p; unfold rbLeftRotate, rbRightRotate, replaceChild; kv. Qed.

Lemma kv_bstInsert fuel rt n : keeps_values (bstInsert fuel rt n).
Proof. revert rt. induction fuel as [|fuel IH]; intros rt; simpl; kv; apply IH. Qed.

Lemma kv_rbInsertFix fuel n par : keeps_values (rbInsertFix fuel n par).
Proof.
  revert n par. destruct kv_rotate as [Hl Hr].
  induction fuel as [|fuel IH]; intros n par; simpl; unfold redNode, rbInsertRotate; kv;
    first [apply Hl | apply Hr | apply IH].
Qed.

Lemma kv_rbInsert n : keeps_values (rbInsert n).
Proof. unfold rbInsert. kv; first [apply kv_bstInsert | apply kv_rbInsertFix]. Qed.
End keeps_ops.

Section insert_spec.
Lemma height_plug c t : (length c + height t <= height (plug c t))%nat.
Proof.
  revert t. induction c as [|f c IH]; intros t; simpl; [done|].
  specialize (IH (plugf f t)). unfold plugf in *. destruct (fleft f); simpl in IH; lia.
Qed.

Lemma croot_black_plug c t : c <> [] -> root_black (plug c t) -> croot_black c.
Proof.
  revert t. induction c as [|f c IH]; intros t Hne Hr; [done|]. unfold croot_black.
  destruct c as [|g c]; simpl in Hr.
  - unfold root_black, plugf in Hr. simpl. by destruct (fleft f).
  - rewrite last_cons_cons. by apply (IH (plugf f t)).
Qed.

Lemma rb_tree_insert_other s t n x :
  rb_tree s t -> n ∉ addrs t -> rb_tree (set_nodes s (<[n := x]> (nodes s))) t.
Proof.
  intros ((Hc & Ht & Hnd) & Hb & Hr) Hn.
  split; [|done]. split_and!; [done|by apply trep_insert|done].
Qed.

Lemma rbInsert_wp s t n n0 :
  rb_tree s t -> n <> 0 -> n ∉ addrs t -> nodes s !! n = Some n0 -> value n0 ∉ elems t ->
  wp (rbInsert n) s (fun _ s' => exists t', rb_tree s' t' /\
    elems t' ≡ₚ value n0 :: elems t /\ (forall x, x ∈ addrs t' <-> x = n \/ x ∈ addrs t)).
Proof.
  intros Ht Hn Hna Hm Hv. unfold rbInsert. rstep. rstep. rstep. rstep. rstep. rstep.
  set (s1 := set_nodes _ _).
  assert (Ht1 : rb_tree s1 t) by (do 2 (apply rb_tree_insert_other; [|done]); done).
  assert (Hm1 : nodes s1 !! n = Some (mkRb (parent n0) 0 0 (value n0) (isRed n0)))
    by (unfold s1; by simplify_map_eq).
  clearbody s1. clear Ht Hm s. pose proof Ht1 as ((Hroot & _) & Hb & Hr). simpl in Hroot.
  destruct t as [|p red l u r]; simpl in Hroot; rewrite Hroot.
  - simpl. do 5 rstep. exists (Node n false Leaf (value n0) Leaf). split_and!.
    + split; [|by split; [repeat constructor|]]. split; [done|]. simpl.
      split; [by simplify_map_eq|apply NoDup_singleton].
    + done.
    + intros x. simpl. set_solver.
  - assert (Hp : p <> 0) by apply Ht1. destruct (Z.eqb_spec p 0); [done|].
    rstep. rstep. rstep. rstep.
    match goal with |- wp _ ?s _ => set (s2 := s) end.
    assert (Ht2 : rb_tree s2 (Node p red l u r)) by (by apply rb_tree_insert_other).
    assert (Hm2 : nodes s2 !! n = Some (mkRb (parent n0) 0 0 (value n0) true))
      by (unfold s2; simpl; by simplify_map_eq).
    clearbody s2. destruct Ht2 as (Hrep & _ & _). apply wp_bind.
    wp_use (bstInsert_spec (rbFuel s2) s2 [] (Node p red l u r) n (value n0) Hrep); try done.
    { split; simpl; set_solver. }
    { split_and!; eauto. }
    { pose proof (rep_fuel _ _ _ Hrep). simpl in *. lia. }
    intros _ s3 (c & Hc & Hplug & Hbt & Hrep3). simpl in Hplug.
    destruct (rep_par s3 c _ Hrep3 ltac:(done)) as (m & Hm3 & Em). simpl in Hm3.
    rstep. eapply wp_node; [exact Hm3|]. rewrite Em.
    wp_use (rbInsertFix_spec (rbFuel s2) s3 c (Node n true Leaf (value n0) Leaf) Hrep3); [done| | | |].
    { apply bst_plug_insert; [by rewrite Hplug|done]. }
    { apply (croot_black_plug c Leaf Hc). by rewrite Hplug. }
    { pose proof (rep_fuel _ _ _ Hrep). pose proof (height_plug c Leaf). rewrite Hplug in *. simpl in *. lia. }
    intros _ s4 (t' & G1 & G2 & G3 & G4). exists t'. split_and!.
    + split_and!; [done| |done]. unfold bst. rewrite G2. apply bst_plug_insert; [by rewrite Hplug|done].
    + rewrite G2, elems_plug. simpl elems at 1. simpl. rewrite <- Permutation_middle. f_equiv.
      change (elems l ++ u :: elems r) with (elems (Node p red l u r)). by rewrite <- Hplug, elems_plug.
    + intros x. rewrite G4, <- Hplug, !caddrs_plug. simpl. set_solver.
Qed.
End insert_spec.

(** ** Concrete trees *)

Section concrete.
(** Insert the keys [vs] one after the other, the node of key [v] at
    address [v]. *)
Fixpoint insertAll (vs : list Z) : M rbstate unit :=
  match vs with
  | [] => mret tt
  | v :: r =>
      modify (fun s => set_nodes s (<[v := mkRb 0 0 0 v false]> (nodes s)));;
      rbInsert v;;
      insertAll r
  end.

(** The tree below an address, read back from the store. *)
Fixpoint readTree (fuel : nat) (m : gmap Z RbNode) (p : Z) : tree :=
  match fuel with
  | O => Leaf
  | S fuel =>
      match m !! p with
      | None => Leaf
      | Some n => Node p (isRed n) (readTree fuel m (leftChild n)) (value n)
                    (readTree fuel m (rightChild n))
      end
  end.

(** The number of black nodes on every path, when it is the same on all. *)
Fixpoint blackHeight (t : tree) : option nat :=
  match t with
  | Leaf => Some 1%nat
  | Node _ red l _ r =>
      match blackHeight l, blackHeight r with
      | Some a, Some b =>
          if Nat.eqb a b then Some (if red then a else S a) else None
      | _, _ => None
      end
  end.
End concrete.

Definition emptyTree : rbstate := mkRbState ∅ 0.
Definition tree_of (m : M rbstate unit) : option tree :=
  match m emptyTree with
  | Done (_, s) => Some (readTree (rbFuel s) (nodes s) (root s))
  | _ => None
  end.

Section properties.
(** C8: inserting a node with a new key into a search tree finishes without
    fault; the result is again a well-linked search tree with a black root,
    on exactly the old nodes and the new one, with exactly the old keys and
    the new one, and no node has changed its key. *)
Theorem rbInsert_correct s t n n0 :
  rb_tree s t -> n <> 0 -> n ∉ addrs t -> nodes s !! n = Some n0 -> value n0 ∉ elems t ->
  wp (rbInsert n) s (fun _ s' =>
    (exists t', rb_tree s' t' /\ elems t' ≡ₚ value n0 :: elems t /\
      forall x, x ∈ addrs t' <-> x = n \/ x ∈ addrs t) /\
    forall p, value <$> nodes s' !! p = value <$> nodes s !! p).
Proof.
  intros Ht Hn Hna Hm Hv. pose proof (rbInsert_wp s t n n0 Ht Hn Hna Hm Hv) as H.
  apply wp_done in H as ([] & s' & E & H). apply wp_done. exists tt, s'.
  split_and!; [done|done|]. by eapply kv_rbInsert.
Qed.

(** A search ends, leaves the tree alone, and finds a node with the key
    exactly when the tree holds the key; [NULL] otherwise. *)
Theorem rbSearch_correct s t v :
  rep s [] t -> bst t ->
  wp (rbSearch (root s) v) s (fun p s' => s' = s /\
    (p = 0 /\ v ∉ elems t \/
     p <> 0 /\ v ∈ elems t /\ p ∈ addrs t /\ exists n, nodes s !! p = Some n /\ value n = v)).
Proof.
  intros Hrep Hb. unfold rbSearch. rstep. rstep.
  pose proof Hrep as (Hroot & Ht & _). simpl in Hroot, Ht. rewrite Hroot.
  wp_use (rbSearchFrom_spec (rbFuel s) s [] t v Hrep Hb).
  { split; simpl; set_solver. }
  { pose proof (rep_fuel _ _ _ Hrep). simpl in *. lia. }
  simpl. intros p s' [-> [H|(Hp & Ha & n & Hn & <-)]]; (split; [done|]); [by left|right].
  split_and!; try done; [|eauto]. clear Hrep Hb Hroot. revert Ha Hn. generalize 0 Ht. clear Ht.
  induction t as [|q c l IHl u r IHr]; intros par; simpl; [set_solver|].
  intros (_ & Hq & Hl & Hr). rewrite elem_of_cons, !elem_of_app, elem_of_cons.
  intros [->|[Ha|Ha]] Hn; [simplify_eq; auto| |]; eauto.
Qed.

(** [rbInsert] does not keep the tree balanced: the loop goes on after a
    rotation, and takes the black node it has just built for a red one whose
    parent is red.  After these seven insertions the paths to the leaves have
    different numbers of black nodes. *)
Theorem rbInsert_unbalanced :
  exists t, tree_of (insertAll [854; 623; 834; 244; 104; 291; 395]) = Some t /\
    StronglySorted Z.lt (elems t) /\ blackHeight t = None.
Proof.
  eexists. split; [by vm_compute|]. split; [|by vm_compute].
  simpl. repeat first [constructor | apply Z.lt_le_incl | lia].
Qed.

(** [rbDelete] of a node whose successor is its right child loses the
    successor's right subtree: of the keys 1, 2, 3, 4 only 1 and 3 are left
    after deleting 2. *)
Theorem rbDelete_loses_subtree :
  exists t t', tree_of (insertAll [2; 1; 3; 4]) = Some t /\ elems t = [1; 2; 3; 4] /\
    tree_of (insertAll [2; 1; 3; 4];; rbDelete 2;; mret tt) = Some t' /\ elems t' = [1; 3].
Proof. eexists _, _. split_and!; by vm_compute. Qed.
End properties.

Section witnesses.
(** Key 5 at address 5, with a second node ready at address 9. *)
Definition small_tree : tree := Node 5 false Leaf 5 Leaf.
Definition small_state : rbstate :=
  mkRbState (<[5 := mkRb 0 0 0 5 false]> (<[9 := mkRb 77 88 99 3 true]> ∅)) 5.

Lemma small_tree_ok : rb_tree small_state small_tree.
Proof.
  split; [|by split; [repeat constructor|]]. split; [done|]. simpl.
  split; [done|apply NoDup_singleton].
Qed.

Lemma rbInsert_correct_witness :
  wp (rbInsert 9) small_state (fun _ s' =>
    (exists t', rb_tree s' t' /\ elems t' ≡ₚ 3 :: elems small_tree /\
      forall x, x ∈ addrs t' <-> x = 9 \/ x ∈ addrs small_tree) /\
    forall p, value <$> nodes s' !! p = value <$> nodes small_state !! p).
Proof.
  apply (rbInsert_correct small_state small_tree 9 (mkRb 77 88 99 3 true) small_tree_ok);
    [done|simpl; set_solver|reflexivity|simpl; set_solver].
Defined.

Lemma rbSearch_correct_witness :
  wp (rbSearch 5 5) small_state (fun p s' => s' = small_state /\
    (p = 0 /\ 5 ∉ elems small_tree \/
     p <> 0 /\ 5 ∈ elems small_tree /\ p ∈ addrs small_tree /\
     exists n, nodes small_state !! p = Some n /\ value n = 5)).
Proof.
  exact (rbSearch_correct small_state small_tree 5 (proj1 small_tree_ok)
    (proj1 (proj2 small_tree_ok))).
Defined.
End witnesses.
