(* ===== verification/ThreadQueue.v ===== *)
(** * Thread queues: [kernel/sched/queue.c]

    The scheduler's shared store: queue entries and threads by address,
    queues by the object that owns them.  The four queue operations are
    refined to operations on lists. *)

From S2P Require Import Prelude Word.

(** The [ThreadInfoQueue] objects of the kernel, by their owner. *)
Inductive qid :=
| QReady (cpu prio : Z)   (* cpuInfos[cpu].readyList[prio] *)
| QSem (sem : Z)          (* the semaphore at an address *)
| QSleep                  (* sleepQueue *)
| QJoin (thread : Z).     (* joinFirst/joinLast of a thread *)

#[export] Instance qid_eq_dec : EqDecision qid.
Proof. solve_decision. Defined.
#[export] Instance qid_countable : Countable qid.
Proof.
  refine (inj_countable'
    (fun q => match q with
              | QReady c p => inl (inl (c, p)) | QSem s => inl (inr s)
              | QSleep => inr (inl tt) | QJoin t => inr (inr t) end)
    (fun x => match x with
              | inl (inl (c, p)) => QReady c p | inl (inr s) => QSem s
              | inr (inl tt) => QSleep | inr (inr t) => QJoin t end) _).
  by intros [].
Defined.

Record ThreadQueueEntry := mkQe {
  qthread : Z;
  sigCont : bool;
  qsigDepth : Z;
  nextThread : Z;
  prevThread : Z;
  queue : option qid;
  prevQueueEntry : Z;
  waitData : Z
}.

Record ThreadInfoQueue := mkQueue { first : Z; last : Z; nrofThreads : Z }.
Definition emptyQueue : ThreadInfoQueue := mkQueue 0 0 0.

Inductive threadState :=
| FINISHED | RUNNING | SCHEDWAIT | LOCKWAIT | SLEEP | PIDWAIT.

Record ThreadInfo := mkThread {
  tstate : threadState;
  tlock : bool;
  cpuAffinity : Z;
  tsigDepth : Z;
  queueEntry : Z;
  priority : Z;
  fixedPriority : bool;
  jiffiesRemaining : Z
}.

Record CpuInfo := mkCpu {
  readyListLock : bool;
  threadLoad : Z;
  nrofReadyThreads : Z;
  active : bool;
  apicID : Z
}.

Record Semaphore := mkSem { semlock : bool; semvalue : Z }.

Record sched := mkSched {
  qes : gmap Z ThreadQueueEntry;
  threads : gmap Z ThreadInfo;
  queues : gmap qid ThreadInfoQueue;
  cpuInfos : list CpuInfo;
  sems : gmap Z Semaphore;
  thisCpu : Z;               (* the index of the CPU that runs *)
  currentThread : Z;
  nrofActiveCPUs : Z;
  ipis : list Z              (* reschedule interrupts sent, by APIC id *)
}.

Definition set_qes (s : sched) m := mkSched m (threads s) (queues s) (cpuInfos s) (sems s) (thisCpu s) (currentThread s) (nrofActiveCPUs s) (ipis s).
Definition set_threads (s : sched) m := mkSched (qes s) m (queues s) (cpuInfos s) (sems s) (thisCpu s) (currentThread s) (nrofActiveCPUs s) (ipis s).
Definition set_queues (s : sched) m := mkSched (qes s) (threads s) m (cpuInfos s) (sems s) (thisCpu s) (currentThread s) (nrofActiveCPUs s) (ipis s).
Definition set_cpuInfos (s : sched) l := mkSched (qes s) (threads s) (queues s) l (sems s) (thisCpu s) (currentThread s) (nrofActiveCPUs s) (ipis s).
Definition set_sems (s : sched) m := mkSched (qes s) (threads s) (queues s) (cpuInfos s) m (thisCpu s) (currentThread s) (nrofActiveCPUs s) (ipis s).
Definition set_currentThread (s : sched) t := mkSched (qes s) (threads s) (queues s) (cpuInfos s) (sems s) (thisCpu s) t (nrofActiveCPUs s) (ipis s).
Definition set_ipis (s : sched) l := mkSched (qes s) (threads s) (queues s) (cpuInfos s) (sems s) (thisCpu s) (currentThread s) (nrofActiveCPUs s) l.

(** Field reads and writes through pointers. *)
Definition getQe (p : Z) : M sched ThreadQueueEntry := deref (fun s => qes s !! p).
Definition updQe (p : Z) (f : ThreadQueueEntry -> ThreadQueueEntry) : M sched unit := fun s =>
  match qes s !! p with
  | Some e => Done (tt, set_qes s (<[p := f e]> (qes s)))
  | None => Fault
  end.
Definition getThread (p : Z) : M sched ThreadInfo := deref (fun s => threads s !! p).
Definition updThread (p : Z) (f : ThreadInfo -> ThreadInfo) : M sched unit := fun s =>
  match threads s !! p with
  | Some t => Done (tt, set_threads s (<[p := f t]> (threads s)))
  | None => Fault
  end.
Definition getQueue (q : qid) : M sched ThreadInfoQueue := deref (fun s => queues s !! q).
Definition updQueue (q : qid) (f : ThreadInfoQueue -> ThreadInfoQueue) : M sched unit := fun s =>
  match queues s !! q with
  | Some x => Done (tt, set_queues s (<[q := f x]> (queues s)))
  | None => Fault
  end.

Definition qe_next (v : Z) (e : ThreadQueueEntry) := mkQe (qthread e) (sigCont e) (qsigDepth e) v (prevThread e) (queue e) (prevQueueEntry e) (waitData e).
Definition qe_prev (v : Z) (e : ThreadQueueEntry) := mkQe (qthread e) (sigCont e) (qsigDepth e) (nextThread e) v (queue e) (prevQueueEntry e) (waitData e).
Definition qe_queue (v : option qid) (e : ThreadQueueEntry) := mkQe (qthread e) (sigCont e) (qsigDepth e) (nextThread e) (prevThread e) v (prevQueueEntry e) (waitData e).
Definition qe_wait (v : Z) (e : ThreadQueueEntry) := mkQe (qthread e) (sigCont e) (qsigDepth e) (nextThread e) (prevThread e) (queue e) (prevQueueEntry e) v.
Definition qe_cont (v : bool) (e : ThreadQueueEntry) := mkQe (qthread e) v (qsigDepth e) (nextThread e) (prevThread e) (queue e) (prevQueueEntry e) (waitData e).
Definition q_first (v : Z) (q : ThreadInfoQueue) := mkQueue v (last q) (nrofThreads q).
Definition q_last (v : Z) (q : ThreadInfoQueue) := mkQueue (first q) v (nrofThreads q).
Definition q_count (d : Z) (q : ThreadInfoQueue) := mkQueue (first q) (last q) (s32 (nrofThreads q + d)).

Definition threadQueuePop (q : qid) : M sched Z :=
  x ← getQueue q;
  let qe := first x in
  if qe =? 0 then mret 0
  else
    e ← getQe qe;
    updQueue q (q_first (nextThread e));;
    x ← getQueue q;
    (if first x =? 0 then updQueue q (q_last 0)
     else updQe (first x) (qe_prev 0));;
    updQueue q (q_count (-1));;
    updQe qe (qe_queue None);;
    mret qe.

Definition threadQueuePush (q : qid) (thread : Z) : M sched unit :=
  t ← getThread thread;
  let qe := queueEntry t in
  updQe qe (qe_queue (Some q));;
  updQe qe (qe_next 0);;
  x ← getQueue q;
  (if negb (last x =? 0) then
     updQe (last x) (qe_next qe);;
     updQe qe (qe_prev (last x))
   else
     updQueue q (q_first qe);;
     updQe qe (qe_prev 0));;
  updQueue q (q_last qe);;
  updQueue q (q_count 1).

Definition threadQueuePushFront (q : qid) (thread : Z) : M sched unit :=
  t ← getThread thread;
  let qe := queueEntry t in
  updQe qe (qe_queue (Some q));;
  updQe qe (qe_prev 0);;
  x ← getQueue q;
  updQe qe (qe_next (first x));;
  updQueue q (q_first qe);;
  x ← getQueue q;
  (if last x =? 0 then updQueue q (q_last qe) else mret tt);;
  updQueue q (q_count 1).

(** Unlinking one entry from the queue it is on. *)
Definition unlinkEntry (qe : Z) : M sched unit :=
  e ← getQe qe;
  match queue e with
  | None => mret tt
  | Some q =>
      (if negb (prevThread e =? 0) then updQe (prevThread e) (qe_next (nextThread e))
       else updQueue q (q_first (nextThread e)));;
      e ← getQe qe;
      (if negb (nextThread e =? 0) then updQe (nextThread e) (qe_prev (prevThread e))
       else updQueue q (q_last (prevThread e)));;
      updQueue q (q_count (-1))
  end.

(** The loop of [threadQueueRemove] over the stacked queue entries. *)
Fixpoint removeEntries (fuel : nat) (qe : Z) : M sched unit :=
  match fuel with
  | O => nofuel
  | S fuel =>
      if qe =? 0 then mret tt
      else
        unlinkEntry qe;;
        updQe qe (qe_queue None);;
        e ← getQe qe;
        removeEntries fuel (prevQueueEntry e)
  end.

Definition threadQueueRemove (thread : Z) : M sched unit :=
  t ← getThread thread;
  fuel ← gets (fun s => S (S (size (qes s))));
  removeEntries fuel (queueEntry t).

(** ** Queues as lists *)

(** The entries [l] are linked in this order on queue [q]; with [back], so
    are their [prevThread] pointers, starting from [prev]. *)
Fixpoint linked (back : bool) (m : gmap Z ThreadQueueEntry) (q : qid) (prev : Z) (l : list Z) : Prop :=
  match l with
  | [] => True
  | p :: r =>
      p <> 0 /\ (exists e, m !! p = Some e /\ queue e = Some q /\
        nextThread e = hd 0 r /\ (back = true -> prevThread e = prev)) /\
      linked back m q p r
  end.

Definition queue_rep (back : bool) (s : sched) (q : qid) (l : list Z) : Prop :=
  NoDup l /\ linked back (qes s) q 0 l /\
  queues s !! q = Some (mkQueue (hd 0 l) (List.last l 0) (Z.of_nat (length l))) /\
  Z.of_nat (length l) < 2 ^ 31 - 1.

Section linked.
Context (back : bool) (q : qid).
Implicit Types (m : gmap Z ThreadQueueEntry) (l : list Z).

Lemma linked_frame m m' prev l :
  (forall p, p ∈ l -> m' !! p = m !! p) -> linked back m q prev l -> linked back m' q prev l.
Proof.
  revert prev. induction l as [|p l IH]; intros prev Hm; simpl; [done|].
  intros (Hp & He & Hl). split_and!; [done|by rewrite Hm by (by left)|].
  apply IH; [|done]. intros k Hk. apply Hm. by right.
Qed.

Lemma linked_elem m prev l p : linked back m q prev l -> p ∈ l -> p <> 0 /\ is_Some (m !! p).
Proof.
  revert prev. induction l as [|x l IH]; intros prev; simpl; [set_solver|].
  intros (Hx & (e & He & _) & Hl) [->|Hp]%elem_of_cons; eauto.
Qed.

(** Appending [p] behind the last entry [z]. *)
Lemma linked_snoc m m' prev l z p e ez :
  linked back m q prev (l ++ [z]) -> z ∉ l -> p <> 0 ->
  (forall k, k ∈ l -> m' !! k = m !! k) ->
  m !! z = Some ez -> m' !! z = Some (qe_next p ez) ->
  m' !! p = Some e -> queue e = Some q -> nextThread e = 0 -> prevThread e = z ->
  linked back m' q prev (l ++ [z; p]).
Proof.
  revert prev. induction l as [|x l IH]; intros prev; simpl.
  - intros (Hz & (e' & He' & Hq & _ & Hpr) & _) _ Hp _ Ez Ez' Ep Eq En Epr.
    simplify_eq. split_and!; [done|exists (qe_next p e'); by split_and!|done|exists e; by split_and!|done].
  - intros (Hx & He & Hl) Hz Hp Hm Ez Ez' Ep Eq En Epr.
    split_and!; [done| |].
    + rewrite Hm by (by left). destruct l; simpl in *; done.
    + apply IH; try done; [set_solver|]. intros k Hk. apply Hm. by right.
Qed.

Lemma linked_last m prev l z :
  linked back m q prev (l ++ [z]) -> z <> 0 /\ exists e, m !! z = Some e /\ queue e = Some q /\
    nextThread e = 0 /\ (back = true -> prevThread e = List.last l prev).
Proof.
  revert prev. induction l as [|x l IH]; intros prev; simpl.
  - intros (Hz & (e & He & Hq & Hn & Hp) & _). eauto 10.
  - intros (_ & _ & Hl). destruct (IH _ Hl) as (Hz & e & He & Hq & Hn & Hp). split; [done|].
    exists e. split_and!; try done. intros Hb. rewrite (Hp Hb). destruct l as [|y l]; [done|].
    clear. revert x y. induction l as [|z l IH]; intros x y; [done|]. apply (IH x z).
Qed.

(** The first entry has a new predecessor. *)
Lemma linked_reprev m m' prev prev' p l e :
  linked back m q prev (p :: l) -> p ∉ l ->
  (forall k, k ∈ l -> m' !! k = m !! k) ->
  m !! p = Some e -> m' !! p = Some (qe_prev prev' e) -> linked back m' q prev' (p :: l).
Proof.
  simpl. intros (Hp & (e' & He' & Hq & Hn & _) & Hl) Hnp Hm Ee Ee'. assert (e' = e) as -> by congruence.
  split_and!; [done| |by eapply linked_frame].
  exists (qe_prev prev' e). by split_and!.
Qed.
End linked.

(** What a queue operation leaves alone: every entry outside [l], every queue
    but [q], and the rest of the scheduler. *)
Definition queue_frame (q : qid) (l : list Z) (s s' : sched) : Prop :=
  (forall p, p ∉ l -> qes s' !! p = qes s !! p) /\
  (forall q', q' <> q -> queues s' !! q' = queues s !! q') /\
  threads s' = threads s /\ cpuInfos s' = cpuInfos s /\ sems s' = sems s /\
  thisCpu s' = thisCpu s /\ currentThread s' = currentThread s /\
  nrofActiveCPUs s' = nrofActiveCPUs s /\ ipis s' = ipis s.

Lemma queue_frame_rep back q q' l l' s s' :
  queue_frame q l s s' -> q' <> q -> l' ## l -> queue_rep back s q' l' -> queue_rep back s' q' l'.
Proof.
  intros (F1 & F2 & _) Hq Hd (Hnd & Hl & Hqs & Hlen). split_and!; [done| |by rewrite F2|done].
  eapply linked_frame; [|done]. intros p Hp. apply F1. intros ?. by apply (Hd p).
Qed.

Section queue_wp.
Lemma wp_getQe s p e (Q : ThreadQueueEntry -> sched -> Prop) :
  qes s !! p = Some e -> Q e s -> wp (getQe p) s Q.
Proof. intros H HQ. apply wp_deref. eauto. Qed.
Lemma wp_updQe s p f e (Q : unit -> sched -> Prop) :
  qes s !! p = Some e -> Q tt (set_qes s (<[p := f e]> (qes s))) -> wp (updQe p f) s Q.
Proof. intros H HQ. unfold wp, updQe. by rewrite H. Qed.
Lemma wp_getThread s p t (Q : ThreadInfo -> sched -> Prop) :
  threads s !! p = Some t -> Q t s -> wp (getThread p) s Q.
Proof. intros H HQ. apply wp_deref. eauto. Qed.
Lemma wp_updThread s p f t (Q : unit -> sched -> Prop) :
  threads s !! p = Some t -> Q tt (set_threads s (<[p := f t]> (threads s))) -> wp (updThread p f) s Q.
Proof. intros H HQ. unfold wp, updThread. by rewrite H. Qed.
Lemma wp_getQueue s q x (Q : ThreadInfoQueue -> sched -> Prop) :
  queues s !! q = Some x -> Q x s -> wp (getQueue q) s Q.
Proof. intros H HQ. apply wp_deref. eauto. Qed.
Lemma wp_updQueue s q f x (Q : unit -> sched -> Prop) :
  queues s !! q = Some x -> Q tt (set_queues s (<[q := f x]> (queues s))) -> wp (updQueue q f) s Q.
Proof. intros H HQ. unfold wp, updQueue. by rewrite H. Qed.
End queue_wp.

(** Relations that writes to an entry, a thread or a queue keep. *)
Section queue_preserves.
Context (R : relation sched).
Lemma preserves_updQe p f : (forall x e, qes x !! p = Some e -> R x (set_qes x (<[p := f e]> (qes x)))) -> preserves R (updQe p f).
Proof. intros HR x a x' He. unfold updQe in He. destruct (qes x !! p) eqn:E; simplify_eq. by apply HR. Qed.
Lemma preserves_updThread p f : (forall x t, threads x !! p = Some t -> R x (set_threads x (<[p := f t]> (threads x)))) -> preserves R (updThread p f).
Proof. intros HR x a x' He. unfold updThread in He. destruct (threads x !! p) eqn:E; simplify_eq. by apply HR. Qed.
Lemma preserves_updQueue q f : (forall x k, queues x !! q = Some k -> R x (set_queues x (<[q := f k]> (queues x)))) -> preserves R (updQueue q f).
Proof. intros HR x a x' He. unfold updQueue in He. destruct (queues x !! q) eqn:E; simplify_eq. by apply HR. Qed.
End queue_preserves.
#[export] Hint Resolve preserves_updQe preserves_updThread preserves_updQueue : preserves.

Ltac qlk := simpl; simplify_map_eq; first [done | eauto].
Ltac qstep :=
  lazymatch goal with
  | |- wp (_ ≫= _) _ _ => apply wp_bind
  | |- wp (mret _) _ _ => apply wp_ret
  | |- wp (gets _) _ _ => apply wp_gets
  | |- wp (modify _) _ _ => apply wp_modify
  | |- wp (getQe _) _ _ => eapply wp_getQe; [by qlk|]
  | |- wp (updQe _ _) _ _ => eapply wp_updQe; [by qlk|]
  | |- wp (getThread _) _ _ => eapply wp_getThread; [by qlk|]
  | |- wp (updThread _ _) _ _ => eapply wp_updThread; [by qlk|]
  | |- wp (getQueue _) _ _ => eapply wp_getQueue; [by qlk|]
  | |- wp (updQueue _ _) _ _ => eapply wp_updQueue; [by qlk|]
  end; cbv beta.
Ltac qsteps := repeat qstep.

Lemma s32_small z : - 2 ^ 31 <= z < 2 ^ 31 -> s32 z = z.
Proof. apply (swrap_small 32). lia. Qed.

Section queue_ops.
(** The store after a push, whatever the queue held. *)
Lemma threadQueuePush_wp back s q l th t p :
  queue_rep back s q l -> threads s !! th = Some t -> queueEntry t = p ->
  p <> 0 -> p ∉ l -> is_Some (qes s !! p) -> Z.of_nat (length l) + 1 < 2 ^ 31 - 1 ->
  wp (threadQueuePush q th) s (fun _ s' =>
    queue_rep back s' q (l ++ [p]) /\ queue_frame q (p :: l) s s').
Proof.
  intros (Hnd & Hl & Hq & Hlen) Ht <- Hp Hpl [e He] Hlen'. set (p := queueEntry t) in *.
  unfold threadQueuePush. qsteps. fold p.
  destruct l as [|z l _] using rev_ind.
  - simpl. qsteps. simpl. split.
    + split_and!; simpl; [apply NoDup_singleton| |by simplify_map_eq|lia].
      split_and!; [done| |done]. eexists. by simplify_map_eq.
    + split_and!; simpl; try done.
      * intros k Hk. assert (k <> p) by set_solver. by simplify_map_eq.
      * intros k Hk. by simplify_map_eq.
  - rewrite last_last in *. apply linked_last in Hl as Hz.
    destruct Hz as (Hz0 & ez & Hez & _). simpl in *.
    assert (Hzp : z <> p) by set_solver.
    destruct (Z.eqb_spec z 0); [done|]. simpl. qsteps. unfold q_count. simpl.
    rewrite length_app in *. simpl in *. rewrite s32_small by lia.
    apply NoDup_app in Hnd as (Hnd1 & Hnd2 & _).
    assert (Hzl : z ∉ l) by (intros H; apply (Hnd2 z H); by left).
    split.
    + split_and!.
      * apply NoDup_app. split_and!; [|set_solver|apply NoDup_singleton].
        apply NoDup_app. split_and!; [done|set_solver|apply NoDup_singleton].
      * rewrite <- app_assoc. simpl.
        eapply linked_snoc; [exact Hl|done|done| |exact Hez|..]; simpl;
          [|by simplify_map_eq|by simplify_map_eq|done..].
        intros k Hk. assert (k <> z) by set_solver. assert (k <> p) by set_solver. by simplify_map_eq.
      * simpl. simplify_map_eq. rewrite last_last. do 2 f_equal.
        -- by destruct l.
        -- rewrite !length_app. simpl. lia.
      * rewrite !length_app. simpl. lia.
    + split_and!; simpl; try done.
      * intros k Hk. assert (k <> z) by set_solver. assert (k <> p) by set_solver. by simplify_map_eq.
      * intros k Hk. by simplify_map_eq.
Qed.

Lemma threadQueuePop_nil back s q :
  queue_rep back s q [] -> wp (threadQueuePop q) s (fun p s' => p = 0 /\ s' = s).
Proof. intros (_ & _ & Hq & _). unfold threadQueuePop. qstep. qstep. simpl. by qstep. Qed.

Lemma threadQueuePop_cons back s q p l :
  queue_rep back s q (p :: l) ->
  wp (threadQueuePop q) s (fun p' s' => p' = p /\ queue_rep back s' q l /\
    queue_frame q (p :: l) s s' /\
    exists e e', qes s !! p = Some e /\ qes s' !! p = Some e' /\ queue e' = None /\
      qthread e' = qthread e /\ qsigDepth e' = qsigDepth e).
Proof.
  intros (Hnd & Hl & Hq & Hlen). pose proof Hl as (Hp & (e & He & Hqe & Hn & Hpr) & Hl').
  apply NoDup_cons in Hnd as [Hpl Hnd]. simpl in Hq. cbn [length] in Hlen. unfold threadQueuePop.
  qstep. qstep. simpl. destruct (Z.eqb_spec p 0); [done|]. qsteps. simpl. rewrite Hn.
  destruct l as [|r l]; simpl.
  - qsteps. split_and!; [done| | |].
    + split_and!; [constructor|done|simpl; by simplify_map_eq|done].
    + split_and!; simpl; try done.
      * intros k Hk. assert (k <> p) by set_solver. by simplify_map_eq.
      * intros k Hk. by simplify_map_eq.
    + exists e. simpl. eexists. split_and!; [done|by simplify_map_eq|done..].
  - pose proof Hl' as (Hr & (er & Her & _) & _). destruct (Z.eqb_spec r 0); [done|].
    assert (p <> r) by set_solver. qsteps. unfold q_count.
    cbn [length] in *. simpl. rewrite s32_small by lia.
    apply NoDup_cons in Hnd as Hnd'. destruct Hnd' as [Hrl _].
    split_and!; [done| | |].
    + split_and!; [done| | |cbn [length]; lia].
      * eapply linked_reprev; [exact Hl'|done| |exact Her|]; simpl; [|by simplify_map_eq].
        intros k Hk. assert (k <> p) by set_solver. assert (k <> r) by set_solver. by simplify_map_eq.
      * simpl. simplify_map_eq. do 2 f_equal. lia.
    + split_and!; simpl; try done.
      * intros k Hk. assert (k <> p) by set_solver. assert (k <> r) by set_solver. by simplify_map_eq.
      * intros k Hk. by simplify_map_eq.
    + exists e. simpl. eexists. split_and!; [done|by simplify_map_eq|done..].
Qed.
End queue_ops.

Section linked_remove.
Context (q : qid).
Implicit Types (m : gmap Z ThreadQueueEntry) (l : list Z).

Lemma last_indep (l : list Z) a b : l <> [] -> List.last l a = List.last l b.
Proof. destruct l as [|z l _] using rev_ind; [done|]. by rewrite !List.last_last. Qed.
Lemma last_in (l : list Z) a : l <> [] -> List.last l a ∈ l.
Proof.
  destruct l as [|z l _] using rev_ind; [done|]. rewrite List.last_last. intros _.
  apply elem_of_app. right. by left.
Qed.
Lemma last_cons_ne (x : Z) l a : l <> [] -> List.last (x :: l) a = List.last l a.
Proof. by destruct l. Qed.

Lemma linked_mid back m prev l1 p l2 :
  linked back m q prev (l1 ++ p :: l2) ->
  p <> 0 /\ exists e, m !! p = Some e /\ queue e = Some q /\ nextThread e = hd 0 l2 /\
    (back = true -> prevThread e = List.last l1 prev).
Proof.
  revert prev. induction l1 as [|x l1 IH]; intros prev; simpl.
  - intros (Hp & (e & ? & ? & ? & ?) & _). eauto 10.
  - intros (_ & _ & Hl). destruct (IH _ Hl) as (Hp & e & H1 & H2 & H3 & H4).
    split; [done|]. exists e. split_and!; try done. intros Hb. rewrite (H4 Hb).
    destruct l1 as [|y l1]; [done|]. clear. revert x y.
    induction l1 as [|z l1 IH]; intros x y; [done|]. apply (IH x z).
Qed.

Lemma linked_remove m m' prev l1 p l2 :
  linked true m q prev (l1 ++ p :: l2) -> NoDup (l1 ++ p :: l2) ->
  (forall k, k ∈ l1 ++ l2 -> k <> List.last l1 0 -> k <> hd 0 l2 -> m' !! k = m !! k) ->
  (l1 <> [] -> forall e, m !! List.last l1 0 = Some e ->
     m' !! List.last l1 0 = Some (qe_next (hd 0 l2) e)) ->
  (l2 <> [] -> forall e, m !! hd 0 l2 = Some e ->
     m' !! hd 0 l2 = Some (qe_prev (List.last l1 prev) e)) ->
  linked true m' q prev (l1 ++ l2).
Proof.
  revert prev. induction l1 as [|x l1 IH]; intros prev Hl Hnd H1 H2 H3; cbn [app linked] in *.
  - destruct Hl as (Hp & _ & Hl). destruct l2 as [|y l2]; [done|]. simpl in *.
    destruct Hl as (Hy & (e & He & Hq & Hn & _) & Hl).
    apply NoDup_cons in Hnd as [_ Hnd]. apply NoDup_cons in Hnd as [Hyl Hnd].
    split_and!; [done| |].
    + eexists. split; [by apply H3|]. by split_and!.
    + eapply linked_frame; [|exact Hl]. intros k Hk. assert (k <> y) by (by intros ->).
      destruct (linked_elem _ _ _ _ _ _ Hl Hk). apply H1; [by right|done..].
  - destruct Hl as (Hx & (e & He & Hq & Hn & Hpr) & Hl).
    apply NoDup_cons in Hnd as [Hxl Hnd].
    assert (Hhd : l2 <> [] -> x <> hd 0 l2).
    { intros Hne ->. apply Hxl. apply elem_of_app. right. right. destruct l2; [done|]. by left. }
    destruct l1 as [|y l1].
    + cbn [app List.last hd] in *. split_and!; [done| |].
      * eexists. split; [by apply H2|]. by split_and!.
      * apply (IH x); try done. intros k Hk Hk1 Hk2. apply H1; [by right|set_solver|done].
    + assert (Hyl : y :: l1 <> []) by done. revert Hyl Hl Hnd Hxl IH H1 H2 H3 Hn.
      generalize (y :: l1). clear l1 y. intros l1 Hne Hl Hnd Hxl IH H1 H2 H3 Hn.
      rewrite !(last_cons_ne x) in * by done.
      assert (x <> List.last l1 0).
      { intros E. apply Hxl. rewrite E. apply elem_of_app. left. by apply last_in. }
      split_and!; [done| |].
      * exists e. split.
        -- rewrite H1; [done|by left|done|]. destruct l2; [done|by apply Hhd].
        -- split_and!; [done| |done]. rewrite Hn. by destruct l1.
      * apply (IH x); try done.
        -- intros k Hk Hk1 Hk2. apply H1; [by right|done|done].
        -- intros _. by apply H2.
        -- intros Hne2 e' He'. rewrite (H3 Hne2 e' He'). by rewrite (last_indep l1 prev x).
Qed.
End linked_remove.

Lemma linked_false_prev m q a b l : linked false m q a l -> linked false m q b l.
Proof.
  destruct l as [|p l]; simpl; [done|]. intros (Hp & (e & ? & ? & ? & _) & Hl).
  split_and!; [done|exists e; by split_and!|done].
Qed.

Section queue_ops2.
Lemma threadQueuePushFront_wp s q l th t p :
  queue_rep false s q l -> threads s !! th = Some t -> queueEntry t = p ->
  p <> 0 -> p ∉ l -> is_Some (qes s !! p) -> Z.of_nat (length l) + 1 < 2 ^ 31 - 1 ->
  wp (threadQueuePushFront q th) s (fun _ s' =>
    queue_rep false s' q (p :: l) /\ queue_frame q (p :: l) s s').
Proof.
  intros (Hnd & Hl & Hq & Hlen) Ht <- Hp Hpl [e He] Hlen'. set (p := queueEntry t) in *.
  assert (Hlast : (List.last l 0 =? 0) = match l with [] => true | _ => false end).
  { destruct l as [|z l _] using rev_ind; [done|]. rewrite last_last.
    apply linked_last in Hl as [Hz _]. destruct (Z.eqb_spec z 0); [done|]. by destruct l. }
  assert (Hfin : forall x s', qes s' = <[p := qe_next (hd 0 l) x]> (qes s) ->
    queue x = Some q ->
    queues s' !! q = Some (mkQueue p (match l with [] => p | _ => List.last l 0 end) (Z.of_nat (length l) + 1)) ->
    (forall q', q' <> q -> queues s' !! q' = queues s !! q') -> threads s' = threads s ->
    cpuInfos s' = cpuInfos s -> sems s' = sems s -> thisCpu s' = thisCpu s -> currentThread s' = currentThread s ->
    nrofActiveCPUs s' = nrofActiveCPUs s -> ipis s' = ipis s -> 
    queue_rep false s' q (p :: l) /\ queue_frame q (p :: l) s s').
  { intros x s' E1 Ex E2 E3 E4 E5 E6 E7 E8 E9 E10. split.
    - split_and!; [by apply NoDup_cons| | |cbn [length]; lia].
      + simpl. rewrite E1. split_and!; [done|eexists; split_and!; [by simplify_map_eq|done..]|].
        eapply linked_frame; [|exact (linked_false_prev _ _ _ p _ Hl)].
        intros k Hk. assert (k <> p) by set_solver. by simplify_map_eq.
      + rewrite E2. cbn [length hd]. do 2 f_equal. lia.
    - split_and!; try done. intros k Hk. assert (k <> p) by set_solver. rewrite E1. by simplify_map_eq. }
  unfold threadQueuePushFront. qsteps. simpl. rewrite Hlast.
  destruct l; qsteps; (eapply (Hfin (qe_prev 0 (qe_queue (Some q) e))); simpl;
    [|done|simplify_map_eq; unfold q_count; simpl; rewrite s32_small; [done|cbn [length] in *; lia]|
     intros q' Hq'; by simplify_map_eq|done..]).
  all: rewrite !insert_insert_eq; done.
Qed.

(** An entry that is on no signal stack is taken out of its queue. *)
Lemma threadQueueRemove_wp s q l1 p l2 th t :
  queue_rep true s q (l1 ++ p :: l2) -> threads s !! th = Some t -> queueEntry t = p ->
  (forall e, qes s !! p = Some e -> prevQueueEntry e = 0) ->
  wp (threadQueueRemove th) s (fun _ s' =>
    queue_rep true s' q (l1 ++ l2) /\ queue_frame q (l1 ++ p :: l2) s s' /\
    exists e, qes s' !! p = Some e /\ queue e = None).
Proof.
  intros (Hnd & Hl & Hq & Hlen) Ht <- Hsig. set (p := queueEntry t) in *.
  destruct (linked_mid _ _ _ _ _ _ _ Hl) as (Hp & e & He & Hqe & Hn & Hpr). specialize (Hpr eq_refl).
  specialize (Hsig e He). rewrite length_app in Hlen. cbn [length] in Hlen.
  apply NoDup_app in Hnd as Hnd'. destruct Hnd' as (Hnd1 & Hnd12 & Hnd2).
  apply NoDup_cons in Hnd2 as [Hp2 Hnd2].
  assert (Hp1 : p ∉ l1) by (intros H; apply (Hnd12 p H); by left).
  assert (Hp12 : forall k, k ∈ l1 -> k ∉ l2).
  { intros k Hk Hk2. apply (Hnd12 k Hk). by right. }
  unfold threadQueueRemove. qsteps. fold p. cbn [removeEntries].
  destruct (Z.eqb_spec p 0); [done|]. unfold unlinkEntry. qsteps. rewrite Hqe. qsteps.
  rewrite Hpr.
  assert (Hlast : l1 <> [] -> (List.last l1 0 =? 0) = false).
  { intros Hne. apply Z.eqb_neq. eapply linked_elem; [exact Hl|].
    apply elem_of_app. left. by apply last_in. }
  assert (Hhd : l2 <> [] -> (hd 0 l2 =? 0) = false).
  { intros Hne. apply Z.eqb_neq. eapply linked_elem; [exact Hl|].
    apply elem_of_app. right. right. destruct l2; [done|]. by left. }
  assert (He1 : l1 <> [] -> exists e1, qes s !! List.last l1 0 = Some e1 /\ List.last l1 0 <> p).
  { intros Hne. pose proof (last_in l1 0 Hne) as Hin.
    destruct (linked_elem _ _ _ _ _ (List.last l1 0) Hl) as [_ [e1 ?]]; [set_solver|].
    exists e1. split; [done|]. intros E. by rewrite E in Hin. }
  assert (He2 : l2 <> [] -> exists e2, qes s !! hd 0 l2 = Some e2 /\ hd 0 l2 <> p /\ hd 0 l2 ∉ l1).
  { intros Hne. assert (hd 0 l2 ∈ l2) as Hin by (destruct l2; [done|by left]).
    destruct (linked_elem _ _ _ _ _ (hd 0 l2) Hl) as [_ [e2 ?]]; [set_solver|].
    exists e2. split_and!; [done|intros E; by rewrite E in Hin|]. intros Hin1. by apply (Hp12 _ Hin1). }
  assert (Hcnt : s32 (Z.of_nat (length (l1 ++ p :: l2)) + -1) = Z.of_nat (length (l1 ++ l2))).
  { rewrite s32_small; rewrite !length_app; cbn [length]; lia. }
  assert (Hfin : forall s' f la c, queues s' !! q = Some (mkQueue f la c) ->
    f = hd 0 (l1 ++ l2) -> la = List.last (l1 ++ l2) 0 -> c = s32 (Z.of_nat (length (l1 ++ p :: l2)) + -1) ->
    (forall q', q' <> q -> queues s' !! q' = queues s !! q') ->
    (forall k, k ∈ l1 ++ l2 -> k <> List.last l1 0 -> k <> hd 0 l2 -> qes s' !! k = qes s !! k) ->
    (forall k, k ∉ l1 ++ p :: l2 -> qes s' !! k = qes s !! k) ->
    (l1 <> [] -> forall e, qes s !! List.last l1 0 = Some e ->
       qes s' !! List.last l1 0 = Some (qe_next (hd 0 l2) e)) ->
    (l2 <> [] -> forall e, qes s !! hd 0 l2 = Some e ->
       qes s' !! hd 0 l2 = Some (qe_prev (List.last l1 0) e)) ->
    qes s' !! p = Some (qe_queue None e) ->
    threads s' = threads s /\ cpuInfos s' = cpuInfos s /\ sems s' = sems s /\
      thisCpu s' = thisCpu s /\ currentThread s' = currentThread s /\
      nrofActiveCPUs s' = nrofActiveCPUs s /\ ipis s' = ipis s ->
    queue_rep true s' q (l1 ++ l2) /\ queue_frame q (l1 ++ p :: l2) s s' /\
    exists e, qes s' !! p = Some e /\ queue e = None).
  { intros s' f la c E1 -> -> -> E1' E2 E3 E4 E5 E6 E7. split; [|split; [|eauto]].
    - split_and!; [|by eapply linked_remove|by rewrite E1, Hcnt|rewrite length_app; lia].
      apply NoDup_app. split_and!; [done|set_solver|done].
    - split; [done|]. by split. }
  assert (Hne : forall x l, l <> [] -> List.last (l1 ++ x :: l) 0 = List.last l 0).
  { intros x l Hl'. destruct l as [|z l _] using rev_ind; [done|].
    rewrite app_comm_cons, app_assoc, !List.last_last. done. }
  assert (Hne' : l2 <> [] -> List.last (l1 ++ l2) 0 = List.last l2 0).
  { intros Hl2. clear -Hl2. destruct l2 as [|z l _] using rev_ind; [done|].
    by rewrite app_assoc, !List.last_last. }
  assert (Fk1 : forall k, k ∈ l1 ++ l2 -> k <> p).
  { intros k Hk ->. apply elem_of_app in Hk as [?|?]; done. }
  assert (Fk2 : forall k, k ∉ l1 ++ p :: l2 ->
    k <> p /\ (l1 <> [] -> k <> List.last l1 0) /\ (l2 <> [] -> k <> hd 0 l2)).
  { intros k Hk. rewrite elem_of_app, elem_of_cons in Hk. split; [|split].
    - tauto.
    - intros Hl1' ->. apply Hk. left. by apply last_in.
    - intros Hl2' ->. apply Hk. right. right. destruct l2; [done|by left]. }
  (destruct (decide (l1 = [])) as [->|Hl1]; [|destruct (He1 Hl1) as (e1 & G1 & G2); rewrite Hlast by done]);
    (destruct (decide (l2 = [])) as [->|Hl2]; [|destruct (He2 Hl2) as (e2 & G3 & G4 & G5)]).
  all: try (assert (List.last l1 0 <> hd 0 l2)
    by (intros E; apply G5; rewrite <- E; by apply last_in)).
  all: cbn [negb List.last Z.eqb]; qsteps; rewrite Hn; rewrite ?Hhd by done; cbn [negb hd Z.eqb]; qsteps; cbn [prevQueueEntry qe_queue];
    rewrite ?Hsig; cbn [removeEntries Z.eqb]; qsteps.
  all: eapply Hfin; unfold q_count, q_first, q_last; cbn [queues set_queues set_qes first last nrofThreads qes];
    [by simplify_map_eq|..|by simplify_map_eq|done].
  all: try (intros q' Hq'; by simplify_map_eq).
  all: try (intros k Hk; destruct (Fk2 k Hk) as (K1 & K2 & K3);
    try specialize (K2 Hl1); try specialize (K3 Hl2); by simplify_map_eq).
  all: try (intros k Hk ??; pose proof (Fk1 k Hk); by simplify_map_eq).
  all: try (intros Hx e' He'; by simplify_map_eq).
  all: try (intros Hx e' He'; simplify_map_eq; by rewrite Hpr).
  all: first [by rewrite ?Hpr, ?app_nil_r | by destruct l2 | by destruct l1 | by rewrite Hne, Hne'].
Qed.
End queue_ops2.

(** ** Queues are disjoint, and unaffected by the other updates *)

Section queues.
Lemma queue_rep_ext back s s' q l :
  qes s' = qes s -> queues s' = queues s -> queue_rep back s q l -> queue_rep back s' q l.
Proof. unfold queue_rep. by intros -> ->. Qed.

Lemma linked_queue back m q prev l p :
  linked back m q prev l -> p ∈ l -> exists e, m !! p = Some e /\ queue e = Some q.
Proof.
  revert prev. induction l as [|x l IH]; intros prev; simpl; [by rewrite elem_of_nil|].
  intros (_ & (e & ? & ? & _) & Hl) [->|Hp]%elem_of_cons; eauto.
Qed.

Lemma queue_rep_disjoint b b' s q q' l l' :
  queue_rep b s q l -> queue_rep b' s q' l' -> q <> q' -> l ## l'.
Proof.
  intros (_ & Hl & _) (_ & Hl' & _) Hne p H1 H2.
  destruct (linked_queue _ _ _ _ _ _ Hl H1) as (e & He & Eq).
  destruct (linked_queue _ _ _ _ _ _ Hl' H2) as (e' & He' & Eq'). congruence.
Qed.

Lemma linked_weaken m q a b l : linked true m q a l -> linked false m q b l.
Proof.
  revert a b. induction l as [|p l IH]; intros a b; simpl; [done|].
  intros (Hp & (e & ? & ? & ? & _) & Hl). split_and!; [done|exists e; by split_and!|eauto].
Qed.

Lemma queue_rep_weaken s q l : queue_rep true s q l -> queue_rep false s q l.
Proof. intros (? & H & ? & ?). split_and!; try done. by eapply linked_weaken. Qed.

(** A queue holds at most all entries of the store. *)
Lemma queue_length back s q l p :
  queue_rep back s q l -> p ∉ l -> is_Some (qes s !! p) -> (length l < size (qes s))%nat.
Proof.
  intros (Hnd & Hl & _) Hp Hm.
  assert (Hnd' : NoDup (p :: l)) by (by constructor).
  assert (size (list_to_set (p :: l) : gset Z) <= size (dom (qes s)))%nat as H.
  { apply subseteq_size. intros x. rewrite elem_of_list_to_set, elem_of_dom.
    intros [->|Hx]%elem_of_cons; [done|]. destruct (linked_queue _ _ _ _ _ _ Hl Hx) as (e & ? & _). eauto. }
  rewrite size_list_to_set, size_dom in H by done. simpl in H. lia.
Qed.
End queues.

(** ** Concrete schedulers *)

(** Two CPUs that idle at load 1, threads 1 and 2 with entries 11 and 12. *)
Definition idleQueues : gmap qid ThreadInfoQueue :=
  list_to_map ((fun '(c, i) => (QReady c i, emptyQueue)) <$>
    ((fun i => (0, i)) <$> [0; 1; 2; 3; 4; 5; 6; 7]) ++ ((fun i => (1, i)) <$> [0; 1; 2; 3; 4; 5; 6; 7])).
Definition demoQe (thread next prev : Z) (q : option qid) (wait : Z) : ThreadQueueEntry :=
  mkQe thread false 0 next prev q 0 wait.
Definition demoThread (qe prio : Z) : ThreadInfo := mkThread RUNNING false 0 0 qe prio false 50.
Definition demoCpu : CpuInfo := mkCpu false 1 0 true 7.

(** Both threads sleep, thread 1 for one more tick and thread 2 for five. *)
Definition sleepers : sched :=
  mkSched (<[11 := demoQe 1 12 0 (Some QSleep) 1]> (<[12 := demoQe 2 0 11 (Some QSleep) 5]> ∅))
    (<[1 := demoThread 11 3]> (<[2 := demoThread 12 3]> ∅))
    (<[QSleep := mkQueue 11 12 2]> idleQueues) [demoCpu; demoCpu] ∅ 0 0 1 [].

(** Nobody sleeps; thread 1 runs; a semaphore of value 0 at address 500. *)
Definition runners (value : Z) : sched :=
  mkSched (<[11 := demoQe 1 0 0 None 0]> (<[12 := demoQe 2 0 0 None 0]> ∅))
    (<[1 := demoThread 11 3]> (<[2 := demoThread 12 3]> ∅))
    (<[QSem 500 := emptyQueue]> idleQueues) [demoCpu; demoCpu]
    (<[500 := mkSem false value]> ∅) 0 1 1 [].

(** Thread 1 waits on the semaphore. *)
Definition waiter : sched :=
  mkSched (<[11 := demoQe 1 0 0 (Some (QSem 500)) 0]> (<[12 := demoQe 2 0 0 None 0]> ∅))
    (<[1 := mkThread LOCKWAIT false 0 0 11 3 false 50]> (<[2 := demoThread 12 3]> ∅))
    (<[QSem 500 := mkQueue 11 11 1]> idleQueues) [demoCpu; demoCpu]
    (<[500 := mkSem false 0]> ∅) 0 2 1 [].

Section concrete.
Lemma empty_queue_rep back s q : queues s !! q = Some emptyQueue -> queue_rep back s q [].
Proof. intros H. split_and!; [constructor|done|done|done]. Qed.

Lemma waiter_queue : queue_rep true waiter (QSem 500) [11].
Proof.
  split_and!; [apply NoDup_singleton| |done|done].
  simpl. split_and!; [done| |done]. exists (demoQe 1 0 0 (Some (QSem 500)) 0). by split_and!.
Qed.
End concrete.

(** ** The properties *)

Section properties.
(** A thread queue is first in, first out: after a push, the entry that
    is popped is the one that has been there longest, and the rest stays in
    order with the new entry at its end. *)
Theorem threadQueue_fifo back s q l th t :
  queue_rep back s q l -> threads s !! th = Some t -> queueEntry t <> 0 ->
  queueEntry t ∉ l -> is_Some (qes s !! queueEntry t) -> Z.of_nat (length l) + 1 < 2 ^ 31 - 1 ->
  wp (threadQueuePush q th;; threadQueuePop q) s (fun p s' =>
    p = hd 0 (l ++ [queueEntry t]) /\ queue_rep back s' q (tl (l ++ [queueEntry t]))).
Proof.
  intros Hq Ht Hp Hpl Hm Hlen. apply wp_bind.
  wp_use (threadQueuePush_wp back s q l th t _ Hq Ht eq_refl Hp Hpl Hm Hlen).
  intros _ s1 [Hq1 _]. destruct (l ++ [queueEntry t]) as [|x l'] eqn:E; [by destruct l|].
  wp_use (threadQueuePop_cons back s1 q x l' Hq1). intros p s2 (-> & Hq2 & _). done.
Qed.

(** [threadQueueRemove] takes a thread out of the middle of its queue in
    place: the others stay linked both ways in the same order, the counter
    drops by one and no other queue or entry is touched. *)
Theorem threadQueueRemove_correct s q l1 l2 th t :
  queue_rep true s q (l1 ++ queueEntry t :: l2) -> threads s !! th = Some t ->
  (forall e, qes s !! queueEntry t = Some e -> prevQueueEntry e = 0) ->
  wp (threadQueueRemove th) s (fun _ s' =>
    queue_rep true s' q (l1 ++ l2) /\
    (forall q' l', q' <> q -> queue_rep true s q' l' -> queue_rep true s' q' l') /\
    exists e, qes s' !! queueEntry t = Some e /\ queue e = None).
Proof.
  intros Hq Ht Hs. wp_use (threadQueueRemove_wp s q l1 _ l2 th t Hq Ht eq_refl Hs).
  intros _ s' (Hq' & Hfr & He). split_and!; [done| |done].
  intros q' l' Hne Hl'. eapply queue_frame_rep; [exact Hfr|done| |exact Hl'].
  by eapply queue_rep_disjoint.
Qed.

(** [threadQueuePushFront] leaves the back link of the old first entry
    alone, so that removing this entry empties the queue: the thread pushed
    in front is lost although it was never popped. *)
Theorem pushFront_then_remove_loses :
  wp (threadQueuePush (QSem 500) 1;; threadQueuePushFront (QSem 500) 2;;
      threadQueueRemove 1) (runners 0) (fun _ s' =>
    queues s' !! QSem 500 = Some (mkQueue 0 0 1) /\
    option_map queue (qes s' !! 12) = Some (Some (QSem 500))).
Proof. vm_compute. split; reflexivity. Qed.

Lemma threadQueue_fifo_witness :
  wp (threadQueuePush (QSem 500) 2;; threadQueuePop (QSem 500)) waiter (fun p s' =>
    p = 11 /\ queue_rep true s' (QSem 500) [12]).
Proof.
  apply (threadQueue_fifo true waiter (QSem 500) [11] 2 (demoThread 12 3));
    [apply waiter_queue|reflexivity|done|simpl; set_solver|by eexists|done].
Defined.

Lemma threadQueueRemove_correct_witness :
  wp (threadQueueRemove 1) waiter (fun _ s' =>
    queue_rep true s' (QSem 500) [] /\
    (forall q' l', q' <> QSem 500 -> queue_rep true waiter q' l' -> queue_rep true s' q' l') /\
    exists e, qes s' !! 11 = Some e /\ queue e = None).
Proof.
  apply (threadQueueRemove_correct waiter (QSem 500) [] [] 1
    (mkThread LOCKWAIT false 0 0 11 3 false 50)); [apply waiter_queue|reflexivity|].
  simpl. by intros e [= <-].
Defined.
End properties.
