(* ===== verification/ReadyQueue.v ===== *)
(** * Scheduling: [sched/readyqueue.c], [sched/lock.c] and [sched/sleep.c]

    The multilevel feedback ready queues of every CPU, the semaphores and the
    sleep queue, on the store of [ThreadQueue]. *)

From S2P Require Import Prelude Word ThreadQueue.

Definition JIFFY_HZ : Z := 1000.
Definition TIMESLICE_BASE : Z := JIFFY_HZ / 10.
Definition NROF_QUEUE_PRIORITIES : Z := 8.

Definition timeslice (prio : Z) : Z := s32 (Z.shiftl TIMESLICE_BASE prio).

Definition t_state (v : threadState) (t : ThreadInfo) := mkThread v (tlock t) (cpuAffinity t) (tsigDepth t) (queueEntry t) (priority t) (fixedPriority t) (jiffiesRemaining t).
Definition t_lock (v : bool) (t : ThreadInfo) := mkThread (tstate t) v (cpuAffinity t) (tsigDepth t) (queueEntry t) (priority t) (fixedPriority t) (jiffiesRemaining t).
Definition t_affinity (v : Z) (t : ThreadInfo) := mkThread (tstate t) (tlock t) v (tsigDepth t) (queueEntry t) (priority t) (fixedPriority t) (jiffiesRemaining t).
Definition t_priority (v : Z) (t : ThreadInfo) := mkThread (tstate t) (tlock t) (cpuAffinity t) (tsigDepth t) (queueEntry t) v (fixedPriority t) (jiffiesRemaining t).
Definition t_jiffies (v : Z) (t : ThreadInfo) := mkThread (tstate t) (tlock t) (cpuAffinity t) (tsigDepth t) (queueEntry t) (priority t) (fixedPriority t) v.

(** Spinlocks: taking one that is already held never returns on this CPU. *)
Definition acquireThread (p : Z) : M sched unit :=
  t ← getThread p;
  if tlock t then fault else updThread p (t_lock true).
Definition releaseThread (p : Z) : M sched unit := updThread p (t_lock false).

Definition getCpu (i : Z) : M sched CpuInfo :=
  deref (fun s => if i <? 0 then None else cpuInfos s !! Z.to_nat i).
Definition updCpu (i : Z) (f : CpuInfo -> CpuInfo) : M sched unit :=
  c ← getCpu i;
  modify (fun s => set_cpuInfos s (<[Z.to_nat i := f c]> (cpuInfos s))).
Definition cpu_lock (v : bool) (c : CpuInfo) := mkCpu v (threadLoad c) (nrofReadyThreads c) (active c) (apicID c).
Definition cpu_load (d : Z) (c : CpuInfo) := mkCpu (readyListLock c) (u32 (threadLoad c + d)) (nrofReadyThreads c) (active c) (apicID c).
Definition cpu_ready (d : Z) (c : CpuInfo) := mkCpu (readyListLock c) (threadLoad c) (u32 (nrofReadyThreads c + d)) (active c) (apicID c).
Definition acquireReadyList (i : Z) : M sched unit :=
  c ← getCpu i;
  if readyListLock c then fault else updCpu i (cpu_lock true).
Definition releaseReadyList (i : Z) : M sched unit := updCpu i (cpu_lock false).

(** ** [readyqueue.c] *)

(** The new priority value of a thread that leaves the CPU. *)
Definition newPriority (t : ThreadInfo) : Z :=
  let slice := timeslice (priority t) in
  let remaining := jiffiesRemaining t in
  if fixedPriority t || ((0 <? remaining) && (remaining <? Z.quot slice 2)) then priority t
  else if remaining <? 1 then
    if priority t <? NROF_QUEUE_PRIORITIES - 1 then priority t + 1 else priority t
  else if Z.quot slice 2 <=? remaining then
    if 1 <? priority t then priority t - 1 else priority t
  else priority t.

Definition calcNewPriority (thread : Z) : M sched unit :=
  updThread thread (fun t => t_priority (newPriority t) t).

(** [getThreadFromCPU]: the loop over the priorities, from [i] on. *)
Fixpoint getThreadFrom (n : nat) (cpu i : Z) : M sched Z :=
  match n with
  | O => mret 0
  | S n =>
      qe ← threadQueuePop (QReady cpu i);
      if negb (qe =? 0) then
        e ← getQe qe;
        updCpu cpu (cpu_ready (-1));;
        updThread (qthread e) (t_jiffies (timeslice i));;
        mret (qthread e)
      else getThreadFrom n cpu (i + 1)
  end.
Definition getThreadFromCPU (cpu : Z) : M sched Z :=
  getThreadFrom (Z.to_nat NROF_QUEUE_PRIORITIES) cpu 0.

(** The search for the busiest other CPU that has a ready thread. *)
Fixpoint busiestFrom (n : nat) (i thisCPU : Z) (busiest : option Z) (load : Z) : M sched (option Z) :=
  match n with
  | O => mret busiest
  | S n =>
      if i =? thisCPU then busiestFrom n (i + 1) thisCPU busiest load
      else
        acquireReadyList i;;
        c ← getCpu i;
        let '(busiest, load) :=
          if (0 <? nrofReadyThreads c) && (load <? threadLoad c)
          then (Some i, threadLoad c) else (busiest, load) in
        releaseReadyList i;;
        busiestFrom n (i + 1) thisCPU busiest load
  end.

Definition readyQueuePop : M sched Z :=
  thisCPU ← gets thisCpu;
  acquireReadyList thisCPU;;
  ret ← getThreadFromCPU thisCPU;
  releaseReadyList thisCPU;;
  nactive ← gets nrofActiveCPUs;
  if negb (ret =? 0) || (nactive <? 2) then mret ret
  else
    ncpus ← gets (fun s => length (cpuInfos s));
    busiest ← busiestFrom ncpus 0 thisCPU None 0;
    match busiest with
    | None => mret 0
    | Some b =>
        acquireReadyList b;;
        ret ← getThreadFromCPU b;
        (if negb (ret =? 0) then
           acquireThread ret;;
           updThread ret (t_affinity thisCPU);;
           t ← getThread ret;
           updCpu b (cpu_load (- (NROF_QUEUE_PRIORITIES - priority t)));;
           acquireReadyList thisCPU;;
           updCpu thisCPU (cpu_load (NROF_QUEUE_PRIORITIES - priority t));;
           releaseReadyList thisCPU;;
           releaseThread ret
         else mret tt);;
        releaseReadyList b;;
        mret ret
    end.

(** The first active CPU without load, if any. *)
Fixpoint idleCpu (i : Z) (l : list CpuInfo) : option Z :=
  match l with
  | [] => None
  | c :: r => if active c && (threadLoad c =? 0) then Some i else idleCpu (i + 1) r
  end.

Definition readyQueuePush (qe : Z) : M sched unit :=
  e ← getQe qe;
  let thread := qthread e in
  t ← getThread thread;
  if qsigDepth e <? tsigDepth t then updQe qe (qe_cont true)
  else
    updThread thread (t_state SCHEDWAIT);;
    calcNewPriority thread;;
    t ← getThread thread;
    let prio := priority t in
    c ← getCpu (cpuAffinity t);
    idle ← gets (fun s => idleCpu 0 (cpuInfos s));
    cpuIndex ←
      (if negb (threadLoad c =? 0) then
         match idle with
         | Some i => updThread thread (t_affinity i);; mret i
         | None => mret (cpuAffinity t)
         end
       else mret (cpuAffinity t));
    acquireReadyList cpuIndex;;
    updCpu cpuIndex (cpu_load (NROF_QUEUE_PRIORITIES - prio));;
    updCpu cpuIndex (cpu_ready 1);;
    threadQueuePush (QReady cpuIndex prio) thread;;
    releaseReadyList cpuIndex;;
    this ← gets thisCpu;
    c ← getCpu cpuIndex;
    if negb (this =? cpuIndex) then modify (fun s => set_ipis s (apicID c :: ipis s))
    else mret tt.

Definition readyQueueExchange (thread : Z) (front : bool) : M sched Z :=
  thisCPU ← gets thisCpu;
  (if front then
     acquireReadyList thisCPU;;
     t ← getThread thread;
     threadQueuePushFront (QReady thisCPU (priority t)) thread
   else
     t ← getThread thread;
     let oldPriority := priority t in
     calcNewPriority thread;;
     acquireReadyList thisCPU;;
     t ← getThread thread;
     updCpu thisCPU (cpu_load (priority t - oldPriority));;
     threadQueuePush (QReady thisCPU (priority t)) thread);;
  updCpu thisCPU (cpu_ready 1);;
  ret ← getThreadFromCPU thisCPU;
  releaseReadyList thisCPU;;
  mret ret.

(** ** [lock.c] *)

Definition getSem (p : Z) : M sched Semaphore := deref (fun s => sems s !! p).
Definition updSem (p : Z) (f : Semaphore -> Semaphore) : M sched unit := fun s =>
  match sems s !! p with
  | Some x => Done (tt, set_sems s (<[p := f x]> (sems s)))
  | None => Fault
  end.
Definition sem_lock (v : bool) (x : Semaphore) := mkSem v (semvalue x).
Definition sem_add (d : Z) (x : Semaphore) := mkSem (semlock x) (s32 (semvalue x + d)).
Definition acquireSem (p : Z) : M sched unit :=
  x ← getSem p; if semlock x then fault else updSem p (sem_lock true).
Definition releaseSem (p : Z) : M sched unit := updSem p (sem_lock false).

Definition semInit (p value : Z) : M sched unit :=
  updSem p (fun x => mkSem (semlock x) value).

(** [semWait] of the current thread: [true] when it goes on at once, [false]
    when it ends in [kthreadStop], queued on the semaphore and with its own
    lock held (the switch releases it). *)
Definition semWait (p : Z) : M sched bool :=
  curThread ← gets currentThread;
  acquireThread curThread;;
  acquireSem p;;
  x ← getSem p;
  if 0 <? semvalue x then
    updSem p (sem_add (-1));;
    releaseSem p;;
    releaseThread curThread;;
    mret true
  else
    threadQueuePush (QSem p) curThread;;
    releaseSem p;;
    updThread curThread (t_state LOCKWAIT);;
    mret false.

Definition semSignal (p : Z) : M sched unit :=
  acquireSem p;;
  x ← getSem p;
  (if 0 <? semvalue x then updSem p (sem_add 1)
   else
     freed ← threadQueuePop (QSem p);
     if negb (freed =? 0) then readyQueuePush freed else updSem p (sem_add 1));;
  releaseSem p.

(** ** [sleep.c] *)

(** [kthreadSleep]: [false] when the thread stops. *)
Definition kthreadSleep (millis : Z) : M sched bool :=
  let sleepTime := u64 (millis * 1000) / JIFFY_HZ in
  if sleepTime =? 0 then mret true
  else
    curThread ← gets currentThread;
    acquireThread curThread;;
    t ← getThread curThread;
    updQe (queueEntry t) (qe_wait sleepTime);;
    updThread curThread (t_state SLEEP);;
    threadQueuePush QSleep curThread;;
    mret false.

(** The loop of [sleepSkipTime]; [curThread] 0 is [NULL]. *)
Fixpoint sleepLoop (fuel : nat) (curThread qe : Z) (higher : bool) : M sched bool :=
  match fuel with
  | O => nofuel
  | S fuel =>
      if qe =? 0 then mret higher
      else
        e ← getQe qe;
        let thrd := qthread e in
        (if negb (thrd =? curThread) then acquireThread thrd else mret tt);;
        updQe qe (qe_wait (u64 (waitData e - 1)));;
        e ← getQe qe;
        higher ←
          (if waitData e =? 0 then
             (if negb (prevThread e =? 0) then updQe (prevThread e) (qe_next (nextThread e))
              else updQueue QSleep (q_first (nextThread e)));;
             e ← getQe qe;
             (if negb (nextThread e =? 0) then updQe (nextThread e) (qe_prev (prevThread e))
              else updQueue QSleep (q_last (prevThread e)));;
             match queue e with
             | Some q => updQueue q (q_count (-1))
             | None => fault
             end;;
             updQe qe (qe_queue None);;
             readyQueuePush qe;;
             t ← getThread thrd;
             if curThread =? 0 then mret true
             else
               c ← getThread curThread;
               mret (if priority t <? priority c then true else higher)
           else mret higher);
        (if negb (thrd =? curThread) then releaseThread thrd else mret tt);;
        e ← getQe qe;
        sleepLoop fuel curThread (nextThread e) higher
  end.

Definition sleepSkipTime (curThread : Z) : M sched bool :=
  x ← getQueue QSleep;
  fuel ← gets (fun s => S (S (size (qes s))));
  sleepLoop fuel curThread (first x) false.

Definition sysSleep (seconds nanoSeconds : Z) : M sched Z :=
  let millis := u64 (u64 (seconds * 1000) + nanoSeconds / 1000000) in
  kthreadSleep millis;; mret 0.

(** ** Priorities *)

Definition valid_priority (p : Z) : Prop := 0 <= p < NROF_QUEUE_PRIORITIES.

Section priorities.
Lemma timeslice_value p : valid_priority p -> timeslice p = 100 * 2 ^ p.
Proof.
  unfold valid_priority, NROF_QUEUE_PRIORITIES. intros Hp. unfold timeslice.
  change TIMESLICE_BASE with 100. rewrite Z.shiftl_mul_pow2 by lia.
  assert (2 ^ p <= 2 ^ 7) by (apply Z.pow_le_mono_r; lia).
  assert (0 < 2 ^ p) by (apply Z.pow_pos_nonneg; lia).
  apply s32_small. lia.
Qed.

Lemma newPriority_range t :
  valid_priority (priority t) ->
  valid_priority (newPriority t) /\ Z.abs (newPriority t - priority t) <= 1 /\
  (1 <= priority t -> 1 <= newPriority t) /\
  (fixedPriority t = true -> newPriority t = priority t).
Proof.
  unfold newPriority, valid_priority, NROF_QUEUE_PRIORITIES. intros Hp.
  destruct (fixedPriority t); simpl; [split_and!; intros; lia|].
  repeat case_match; split_and!; intros; first [done | lia].
Qed.
End priorities.

(** ** Choosing the next thread *)

(** The first entry of the best non-empty ready list: its priority, the entry
    and the rest of its list. *)
Fixpoint pick (n : nat) (i : Z) (ls : Z -> list Z) : option (Z * Z * list Z) :=
  match n with
  | O => None
  | S n => match ls i with
           | [] => pick n (i + 1) ls
           | p :: l => Some (i, p, l)
           end
  end.

(** The ready lists of one CPU. *)
Definition ready_lists (back : bool) (s : sched) (cpu : Z) (ls : Z -> list Z) : Prop :=
  forall i, valid_priority i -> queue_rep back s (QReady cpu i) (ls i).

Section get_thread.
Lemma wp_getCpu s i c (Q : CpuInfo -> sched -> Prop) :
  0 <= i -> cpuInfos s !! Z.to_nat i = Some c -> Q c s -> wp (getCpu i) s Q.
Proof.
  intros Hi Hc HQ. apply wp_deref. destruct (Z.ltb_spec i 0); [lia|]. eauto.
Qed.

Lemma wp_updCpu s i f c (Q : unit -> sched -> Prop) :
  0 <= i -> cpuInfos s !! Z.to_nat i = Some c ->
  Q tt (set_cpuInfos s (<[Z.to_nat i := f c]> (cpuInfos s))) -> wp (updCpu i f) s Q.
Proof.
  intros Hi Hc HQ. unfold updCpu. apply wp_bind. eapply wp_getCpu; [done|done|].
  by apply wp_modify.
Qed.

(** Every queued entry belongs to a thread. *)
Definition entries_ok (s : sched) (ls : Z -> list Z) : Prop :=
  forall i p, p ∈ ls i -> exists e t, qes s !! p = Some e /\ threads s !! qthread e = Some t.

(** What taking entry [p] off [QReady cpu j] does. *)
Definition taken (back : bool) (s s' : sched) (cpu j p : Z) (l : list Z) (r : Z) : Prop :=
  exists e t c, qes s !! p = Some e /\ r = qthread e /\ threads s !! r = Some t /\
    queue_rep back s' (QReady cpu j) l /\
    (forall b q l', q <> QReady cpu j -> queue_rep b s q l' -> queue_rep b s' q l') /\
    threads s' = <[r := t_jiffies (timeslice j) t]> (threads s) /\
    cpuInfos s !! Z.to_nat cpu = Some c /\
    cpuInfos s' = <[Z.to_nat cpu := cpu_ready (-1) c]> (cpuInfos s) /\
    sems s' = sems s /\ thisCpu s' = thisCpu s /\ currentThread s' = currentThread s.

Lemma getThreadFrom_spec back n s cpu i ls c :
  (forall j, i <= j < i + Z.of_nat n -> queue_rep back s (QReady cpu j) (ls j)) ->
  entries_ok s ls -> 0 <= cpu -> cpuInfos s !! Z.to_nat cpu = Some c ->
  wp (getThreadFrom n cpu i) s (fun r s' =>
    match pick n i ls with
    | None => r = 0 /\ s' = s
    | Some (j, p, l) => ls j = p :: l /\ taken back s s' cpu j p l r
    end).
Proof.
  intros Hls Hok Hcpu Hc. revert i Hls. induction n as [|n IH]; intros i Hls; cbn [getThreadFrom pick].
  { by apply wp_ret. }
  pose proof (Hls i ltac:(lia)) as Hi. apply wp_bind. destruct (ls i) as [|p l] eqn:El.
  - wp_use (threadQueuePop_nil back s _ Hi). intros r s' [-> ->]. simpl.
    apply IH. intros j Hj. apply Hls. lia.
  - destruct (Hok i p) as (e & t & He & Ht); [rewrite El; by left|].
    assert (p <> 0) as Hp by apply Hi.
    wp_use (threadQueuePop_cons back s _ p l Hi).
    intros r s1 (-> & Hrep & Hfr & e0 & e1 & He0 & He1 & _ & Eth & _).
    assert (e0 = e) as -> by congruence.
    destruct (Z.eqb_spec p 0); [done|]. simpl. pose proof Hfr as (_ & _ & F1 & F2 & F3 & F4 & F5 & _).
    apply wp_bind. eapply wp_getQe; [exact He1|]. rewrite Eth.
    apply wp_bind. eapply wp_updCpu; [done|by rewrite F2|].
    apply wp_bind. eapply wp_updThread; [simpl; by rewrite F1|]. apply wp_ret.
    split; [done|]. exists e, t, c. simpl. rewrite F1, F2. split_and!; try done.
    intros b q l' Hq Hl'. eapply queue_rep_ext; [| |eapply (queue_frame_rep b _ q); [exact Hfr|done| |exact Hl']]; [done..|].
    by eapply queue_rep_disjoint.
Qed.
End get_thread.

(** ** Making a thread ready *)

Section push.
(** The store as the scheduler keeps it: lists for every ready queue of
    every CPU, free locks, at most [2^31 - 2] queue entries. *)
Record sched_inv (s : sched) (L : Z -> Z -> list Z) : Prop := {
  si_lists : forall cpu i, 0 <= cpu < Z.of_nat (length (cpuInfos s)) -> valid_priority i ->
    queue_rep false s (QReady cpu i) (L cpu i);
  si_locks : forall n c, cpuInfos s !! n = Some c -> readyListLock c = false;
  si_size : Z.of_nat (size (qes s)) < 2 ^ 31 - 2
}.

Lemma idleCpu_range i l j :
  idleCpu i l = Some j -> i <= j < i + Z.of_nat (length l) /\
    exists c, l !! Z.to_nat (j - i) = Some c /\ active c = true /\ threadLoad c = 0.
Proof.
  revert i. induction l as [|c l IH]; intros i; simpl; [done|].
  destruct (active c && (threadLoad c =? 0)) eqn:E.
  - intros [= <-]. split; [lia|]. exists c. rewrite Z.sub_diag. simpl.
    apply andb_prop in E as [E1 E2]. split_and!; [done|done|lia].
  - intros H. destruct (IH _ H) as (Hr & c' & Hc' & Hac). split; [lia|]. exists c'.
    replace (Z.to_nat (j - i)) with (S (Z.to_nat (j - (i + 1)))) by lia. done.
Qed.

Lemma lookup_range {A} (l : list A) i :
  0 <= i < Z.of_nat (length l) -> exists x, l !! Z.to_nat i = Some x.
Proof. intros Hi. destruct (lookup_lt_is_Some_2 l (Z.to_nat i)) as [x Hx]; [lia|eauto]. Qed.

(** The ready lists after an entry is appended to one of them. *)
Definition L_push (L : Z -> Z -> list Z) (cpu i p : Z) : Z -> Z -> list Z := fun c j =>
  if bool_decide (c = cpu /\ j = i) then L c j ++ [p] else L c j.

(** The thread [th] was made ready: it waits at the end of the list of some
    CPU and priority, and nothing else has moved. *)
Definition made_ready (s s' : sched) (L : Z -> Z -> list Z) (p th : Z) (t : ThreadInfo) : Prop :=
  exists cpu i, 0 <= cpu < Z.of_nat (length (cpuInfos s)) /\ valid_priority i /\
    (i = newPriority t /\ Z.abs (i - priority t) <= 1) /\ sched_inv s' (L_push L cpu i p) /\
    threads s' = <[th := t_affinity cpu (t_priority i (t_state SCHEDWAIT t))]> (threads s) /\
    (forall b q l, (forall c j, q <> QReady c j) -> p ∉ l -> queue_rep b s q l -> queue_rep b s' q l) /\
    (forall x, x <> p -> x ∉ L cpu i -> qes s' !! x = qes s !! x) /\
    sems s' = sems s /\ thisCpu s' = thisCpu s /\ currentThread s' = currentThread s /\
    ipis s' = (if cpu =? thisCpu s then ipis s
               else match cpuInfos s !! Z.to_nat cpu with
                    | Some c => apicID c :: ipis s | None => ipis s end).

Lemma sched_inv_fresh s L p e cpu i :
  sched_inv s L -> qes s !! p = Some e -> queue e = None ->
  0 <= cpu < Z.of_nat (length (cpuInfos s)) -> valid_priority i -> p ∉ L cpu i.
Proof.
  intros HI He Hq Hc Hi Hin. destruct (si_lists _ _ HI cpu i Hc Hi) as (_ & Hl & _).
  destruct (linked_queue _ _ _ _ _ _ Hl Hin) as (e' & ? & ?). congruence.
Qed.

Definition lists_ok (s : sched) (L : Z -> Z -> list Z) : Prop :=
  forall c j, 0 <= c < Z.of_nat (length (cpuInfos s)) -> valid_priority j ->
    queue_rep false s (QReady c j) (L c j).

(** Appending an entry to a ready list. *)
Lemma lists_push s s' L cpu i p :
  lists_ok s L -> (forall c j, 0 <= c < Z.of_nat (length (cpuInfos s)) -> valid_priority j -> p ∉ L c j) ->
  queue_rep false s' (QReady cpu i) (L cpu i ++ [p]) ->
  queue_frame (QReady cpu i) (p :: L cpu i) s s' ->
  0 <= cpu < Z.of_nat (length (cpuInfos s)) -> valid_priority i -> lists_ok s' (L_push L cpu i p).
Proof.
  intros HI Hfresh Hrep Hfr Hcpu Hi. pose proof Hfr as (_ & _ & _ & F2 & _).
  intros c j Hc Hj. rewrite F2 in Hc. unfold L_push. case_bool_decide as E.
  - by destruct E as [-> ->].
  - eapply queue_frame_rep; [exact Hfr|intros [= -> ->]; tauto| |by apply HI].
    intros x Hx [->|Hx']%elem_of_cons; [by apply (Hfresh c j Hc Hj)|].
    refine (queue_rep_disjoint false false s (QReady c j) (QReady cpu i) _ _ _ _ _ x Hx Hx');
      [by apply HI..|]. intros [= -> ->]; tauto.
Qed.

Lemma queue_frame_size q l s s' :
  queue_frame q l s s' -> (forall x, x ∈ l -> is_Some (qes s !! x)) -> 
  (size (qes s') <= size (qes s))%nat.
Proof.
  intros (F1 & _) Hl. rewrite <- !size_dom. apply subseteq_size. intros x. rewrite !elem_of_dom.
  destruct (decide (x ∈ l)); [by intros _; apply Hl|]. by rewrite F1.
Qed.

Lemma sched_inv_ext s s' L :
  qes s' = qes s -> queues s' = queues s -> length (cpuInfos s') = length (cpuInfos s) ->
  (forall n c, cpuInfos s' !! n = Some c -> readyListLock c = false) ->
  sched_inv s L -> sched_inv s' L.
Proof.
  intros E1 E2 E3 E4 HI. split; [|done|by rewrite E1; apply HI].
  intros c j. rewrite E3. intros Hc Hj. eapply queue_rep_ext; [done|done|by apply (si_lists _ _ HI)].
Qed.

(** The enqueueing part of [readyQueuePush]. *)
Lemma enqueue_wp s L cpu prio th t p :
  sched_inv s L -> threads s !! th = Some t -> queueEntry t = p -> p <> 0 ->
  is_Some (qes s !! p) -> (forall c j, 0 <= c < Z.of_nat (length (cpuInfos s)) -> valid_priority j -> p ∉ L c j) ->
  0 <= cpu < Z.of_nat (length (cpuInfos s)) -> valid_priority prio ->
  wp (acquireReadyList cpu;;
      updCpu cpu (cpu_load (NROF_QUEUE_PRIORITIES - prio));;
      updCpu cpu (cpu_ready 1);;
      threadQueuePush (QReady cpu prio) th;;
      releaseReadyList cpu;;
      this ← gets thisCpu;
      c ← getCpu cpu;
      if negb (this =? cpu) then modify (fun s => set_ipis s (apicID c :: ipis s))
      else mret tt) s (fun _ s' => sched_inv s' (L_push L cpu prio p) /\ threads s' = threads s /\
    (forall b q l, (forall c j, q <> QReady c j) -> p ∉ l -> queue_rep b s q l -> queue_rep b s' q l) /\
    (forall x, x <> p -> x ∉ L cpu prio -> qes s' !! x = qes s !! x) /\
    sems s' = sems s /\ thisCpu s' = thisCpu s /\ currentThread s' = currentThread s /\
    ipis s' = (if cpu =? thisCpu s then ipis s
               else match cpuInfos s !! Z.to_nat cpu with
                    | Some c => apicID c :: ipis s | None => ipis s end)).
Proof.
  intros HI Ht Hqe Hp Hpe Hfresh Hcpu Hprio.
  destruct (lookup_range _ _ Hcpu) as [c Hc]. pose proof (si_locks _ _ HI _ _ Hc) as Hlock.
  assert (Hlen : (Z.to_nat cpu < length (cpuInfos s))%nat) by lia.
  unfold acquireReadyList, releaseReadyList. apply wp_bind. apply wp_bind.
  eapply wp_getCpu; [lia|done|]. rewrite Hlock. eapply wp_updCpu; [lia|done|].
  apply wp_bind. eapply wp_updCpu; [lia|simpl; by rewrite list_lookup_insert_eq|].
  apply wp_bind. eapply wp_updCpu; [lia|simpl; rewrite list_lookup_insert_eq; [done|by rewrite length_insert]|].
  apply wp_bind. set (c' := cpu_ready 1 _).
  match goal with |- wp _ ?s1 _ => set (s1' := s1) end.
  assert (E1 : cpuInfos s1' = <[Z.to_nat cpu := c']> (cpuInfos s)).
  { unfold s1'. simpl. by rewrite !list_insert_insert_eq. }
  assert (Hrep1 : queue_rep false s1' (QReady cpu prio) (L cpu prio)).
  { eapply queue_rep_ext; [| |by apply (si_lists _ _ HI)]; done. }
  pose proof (queue_length _ _ _ _ _ Hrep1 (Hfresh cpu prio Hcpu Hprio) Hpe) as Hlen1.
  pose proof (si_size _ _ HI) as Hsz. change (size (qes s1')) with (size (qes s)) in Hlen1.
  wp_use (threadQueuePush_wp false s1' (QReady cpu prio) (L cpu prio) th t p Hrep1 Ht Hqe Hp);
    [by apply Hfresh|done|lia|].
  intros _ s2 [Hrep2 Hfr]. pose proof Hfr as (G1 & G2 & G3 & G4 & G5 & G6 & G7 & G8 & G9).
  apply wp_bind. eapply wp_updCpu; [lia|rewrite G4, E1; by apply list_lookup_insert_eq|].
  apply wp_bind, wp_gets, wp_bind. cbn [thisCpu set_cpuInfos]. rewrite G4, E1, list_insert_insert_eq.
  eapply wp_getCpu; [lia|simpl; by apply list_lookup_insert_eq|].
  set (s3 := set_cpuInfos s2 _).
  assert (HI3 : sched_inv s3 (L_push L cpu prio p)).
  { assert (lists_ok s2 (L_push L cpu prio p)) as Hl2.
    { eapply (lists_push s1'); unfold lists_ok; rewrite ?E1, ?length_insert; try done.
      intros x j Hx Hj. eapply queue_rep_ext; [| |by apply (si_lists _ _ HI)]; done. }
    split.
    - intros x j Hx Hj. eapply queue_rep_ext; [| |apply Hl2; [|done]]; [done..|].
      unfold s3 in Hx. simpl in Hx. rewrite !length_insert in Hx.
      by rewrite G4, E1, length_insert.
    - intros n x. unfold s3. simpl. destruct (decide (n = Z.to_nat cpu)) as [->|].
      + rewrite list_lookup_insert_eq by done. by intros [= <-].
      + rewrite list_lookup_insert_ne by done. apply (si_locks _ _ HI).
    - assert (size (qes s2) <= size (qes s))%nat; [|simpl; lia].
      eapply (queue_frame_size _ _ s1'); [exact Hfr|].
      intros x [->|Hx]%elem_of_cons; [done|]. destruct Hrep1 as (_ & Hl1 & _).
      destruct (linked_queue _ _ _ _ _ _ Hl1 Hx) as (e & He & _). eauto. }
  assert (Hq3 : forall b q l, (forall c j, q <> QReady c j) -> p ∉ l -> queue_rep b s q l -> queue_rep b s3 q l).
  { intros b q l Hq Hpl Hl. eapply queue_rep_ext; [| |eapply queue_frame_rep; [exact Hfr|by apply Hq| |]]; try done.
    intros x Hx [->|Hx']%elem_of_cons; [done|].
    by apply (queue_rep_disjoint b false s1' q (QReady cpu prio) l (L cpu prio) Hl Hrep1 (Hq _ _) x). }
  assert (Hx3 : forall x, x <> p -> x ∉ L cpu prio -> qes s3 !! x = qes s !! x).
  { intros x Hx Hx'. simpl. apply G1. by intros [->|?]%elem_of_cons. }
  rewrite G6. rewrite Z.eqb_sym, Hc. change (thisCpu s1') with (thisCpu s).
  destruct (cpu =? thisCpu s) eqn:Ec; simpl.
  - apply wp_ret. by split_and!.
  - apply wp_modify. split; [|split_and!; [done|exact Hq3|exact Hx3|done..|simpl; by rewrite G9]].
    apply (sched_inv_ext s3); try done. apply (si_locks _ _ HI3).
Qed.

(** A thread that can be made ready: it is on no queue, its current entry is
    the one at hand, and its fields are in range. *)
Definition runnable (s : sched) (p th : Z) (t : ThreadInfo) : Prop :=
  p <> 0 /\ threads s !! th = Some t /\ queueEntry t = p /\
  (exists e, qes s !! p = Some e /\ qthread e = th /\ queue e = None /\ tsigDepth t <= qsigDepth e) /\
  0 <= cpuAffinity t < Z.of_nat (length (cpuInfos s)) /\ valid_priority (priority t).

Lemma made_ready_intro s s' L p th t cpu i t' :
  0 <= cpu < Z.of_nat (length (cpuInfos s)) -> valid_priority i -> (i = newPriority t /\ Z.abs (i - priority t) <= 1) ->
  t' = t_affinity cpu (t_priority i (t_state SCHEDWAIT t)) ->
  sched_inv s' (L_push L cpu i p) /\ threads s' = <[th := t']> (threads s) /\
    (forall b q l, (forall c j, q <> QReady c j) -> p ∉ l -> queue_rep b s q l -> queue_rep b s' q l) /\
    (forall x, x <> p -> x ∉ L cpu i -> qes s' !! x = qes s !! x) /\
    sems s' = sems s /\ thisCpu s' = thisCpu s /\ currentThread s' = currentThread s /\
    ipis s' = (if cpu =? thisCpu s then ipis s
               else match cpuInfos s !! Z.to_nat cpu with
                    | Some c => apicID c :: ipis s | None => ipis s end) ->
  made_ready s s' L p th t.
Proof. intros Hc Hi Ha -> (? & ? & ? & ? & ? & ? & ? & ?). exists cpu, i. split_and!; done || lia. Qed.

Lemma newPriority_state v t : newPriority (t_state v t) = newPriority t.
Proof. done. Qed.

Lemma readyQueuePush_wp s L p th t :
  sched_inv s L -> runnable s p th t ->
  wp (readyQueuePush p) s (fun _ s' => made_ready s s' L p th t).
Proof.
  intros HI (Hp & Ht & Hqe & (e & He & Eth & Hq & Hsig) & Haff & Hprio).
  assert (Hfresh : forall c j, 0 <= c < Z.of_nat (length (cpuInfos s)) -> valid_priority j -> p ∉ L c j)
    by (intros; by eapply sched_inv_fresh).
  destruct (newPriority_range t Hprio) as (Hnp & Habs & _ & _).
  destruct (lookup_range _ _ Haff) as [c Hc].
  unfold readyQueuePush, calcNewPriority. do 2 qstep. rewrite Eth. do 2 qstep.
  destruct (Z.ltb_spec (qsigDepth e) (tsigDepth t)); [lia|].
  do 6 qstep. apply wp_bind. eapply wp_getCpu; [simpl; lia|exact Hc|]. do 2 qstep.
  set (t1 := t_priority _ _). assert (Et1 : t1 = t_priority (newPriority t) (t_state SCHEDWAIT t)) by done.
  match goal with |- wp _ ?x _ => set (s1 := x) end.
  assert (HI1 : sched_inv s1 L) by (apply (sched_inv_ext s); try done; apply (si_locks _ _ HI)).
  assert (Ht1 : threads s1 = <[th := t1]> (threads s)).
  { unfold s1. simpl. by rewrite insert_insert_eq. }
  assert (Hgo : forall s2 cpu t2, sched_inv s2 L -> cpuInfos s2 = cpuInfos s -> qes s2 = qes s ->
    queues s2 = queues s -> sems s2 = sems s -> thisCpu s2 = thisCpu s -> currentThread s2 = currentThread s ->
    ipis s2 = ipis s -> threads s2 = <[th := t2]> (threads s) -> queueEntry t2 = p ->
    0 <= cpu < Z.of_nat (length (cpuInfos s)) ->
    t2 = t_affinity cpu (t_priority (newPriority t) (t_state SCHEDWAIT t)) ->
    wp (acquireReadyList cpu;;
      updCpu cpu (cpu_load (NROF_QUEUE_PRIORITIES - newPriority t));;
      updCpu cpu (cpu_ready 1);;
      threadQueuePush (QReady cpu (newPriority t)) th;;
      releaseReadyList cpu;;
      this ← gets thisCpu;
      c ← getCpu cpu;
      if negb (this =? cpu) then modify (fun s => set_ipis s (apicID c :: ipis s))
      else mret tt) s2 (fun _ s' => made_ready s s' L p th t)).
  { intros s2 cpu t2 HI2 E1 E2 E3 E4 E5 E6 E7 E8 E9 Hcpu Et2.
    wp_use (enqueue_wp s2 L cpu (newPriority t) th t2 p HI2); try done.
    - by rewrite E8, lookup_insert_eq.
    - rewrite E2. eauto.
    - by rewrite E1.
    - by rewrite E1.
    - intros _ s' (G1 & G2 & G3 & G4 & G5 & G6 & G7 & G8).
      eapply (made_ready_intro _ _ _ _ _ _ cpu (newPriority t) t2); try done.
      rewrite E1, E2, E4, E5, E6, E7, E8 in *. split_and!; try done.
      intros b q l Hq' Hpl Hl. apply G3; [done|done|]. by eapply queue_rep_ext; [..|exact Hl]. }
  apply wp_bind. destruct (negb (threadLoad c =? 0)); [destruct (idleCpu 0 _) as [i|] eqn:Ei|].
  - destruct (idleCpu_range _ _ _ Ei) as [Hr _].
    apply wp_bind. eapply wp_updThread; [by rewrite Ht1, lookup_insert_eq|]. apply wp_ret.
    eapply (Hgo _ i (t_affinity i t1)); try done.
    + apply (sched_inv_ext s1); try done. apply (si_locks _ _ HI1).
    + simpl. by rewrite !insert_insert_eq.
  - apply wp_ret. by eapply (Hgo s1 (cpuAffinity t1)).
  - apply wp_ret. by eapply (Hgo s1 (cpuAffinity t1)).
Qed.
End push.

(** ** Semaphores *)

(** The semaphore as its clients know it: a value and the waiting entries. *)
Definition sem_rep (s : sched) (p v : Z) (l : list Z) : Prop :=
  sems s !! p = Some (mkSem false v) /\ queue_rep true s (QSem p) l /\
  0 <= v < 2 ^ 31 - 1 /\ (0 < v -> l = []).

(** The abstract semaphore: what each operation does to value and waiters. *)
Inductive sem_event :=
| Passed (who : Z)      (* a wait that goes on at once *)
| Blocked (who : Z)     (* a wait that queues up *)
| Woke (who : Z)        (* a signal that wakes a waiter *)
| Raised.               (* a signal that raises the value *)

Inductive sem_step : Z * list Z -> sem_event -> Z * list Z -> Prop :=
| step_pass v l who : 0 < v -> sem_step (v, l) (Passed who) (v - 1, l)
| step_block v l who : v <= 0 -> sem_step (v, l) (Blocked who) (v, l ++ [who])
| step_wake v l who : v <= 0 -> sem_step (v, who :: l) (Woke who) (v, l)
| step_raise v l : 0 < v \/ l = [] -> sem_step (v, l) Raised (v + 1, l).

(** Any interleaving of waits and signals, each atomic under the lock. *)
Inductive sem_steps (v0 : Z) : list sem_event -> Z * list Z -> Prop :=
| steps_nil : sem_steps v0 [] (v0, [])
| steps_snoc tr st ev st' :
    sem_steps v0 tr st -> sem_step st ev st' -> sem_steps v0 (tr ++ [ev]) st'.

Definition blocked_in (tr : list sem_event) : list Z :=
  omap (fun ev => match ev with Blocked w => Some w | _ => None end) tr.
Definition woken_in (tr : list sem_event) : list Z :=
  omap (fun ev => match ev with Woke w => Some w | _ => None end) tr.
Definition count (f : sem_event -> bool) (tr : list sem_event) : Z :=
  Z.of_nat (length (filter (fun ev => f ev = true) tr)).
Definition is_signal (ev : sem_event) : bool := match ev with Woke _ | Raised => true | _ => false end.
Definition is_acquire (ev : sem_event) : bool := match ev with Passed _ | Woke _ => true | _ => false end.

Section sem.
Lemma count_snoc f tr ev : count f (tr ++ [ev]) = count f tr + (if f ev then 1 else 0).
Proof.
  unfold count. rewrite filter_app, length_app. destruct (f ev) eqn:E.
  - rewrite filter_cons_True by done. simpl. lia.
  - rewrite filter_cons_False by (by rewrite E). simpl. lia.
Qed.

Lemma wp_getSem s p x (Q : Semaphore -> sched -> Prop) :
  sems s !! p = Some x -> Q x s -> wp (getSem p) s Q.
Proof. intros H HQ. apply wp_deref. eauto. Qed.
Lemma wp_updSem s p f x (Q : unit -> sched -> Prop) :
  sems s !! p = Some x -> Q tt (set_sems s (<[p := f x]> (sems s))) -> wp (updSem p f) s Q.
Proof. intros H HQ. unfold wp, updSem. by rewrite H. Qed.

Lemma sem_rep_ext s s' p v v' l :
  qes s' = qes s -> queues s' = queues s -> sems s' !! p = Some (mkSem false v') ->
  0 <= v' < 2 ^ 31 - 1 -> (0 < v' -> l = []) -> sem_rep s p v l -> sem_rep s' p v' l.
Proof.
  intros E1 E2 E3 Hv Hl (_ & Hq & _ & _). split; [done|]. split; [|by split].
  by eapply queue_rep_ext; [..|exact Hq].
Qed.

(** A wait by the current thread. *)
Lemma semWait_wp s p v l t pe :
  sem_rep s p v l -> threads s !! currentThread s = Some t -> tlock t = false ->
  queueEntry t = pe -> pe <> 0 -> pe ∉ l -> is_Some (qes s !! pe) ->
  Z.of_nat (size (qes s)) < 2 ^ 31 - 2 ->
  wp (semWait p) s (fun go s' => exists ev v' l',
    sem_step (v, l) ev (v', l') /\ sem_rep s' p v' l' /\ qes s' !! pe <> None /\
    (go = true -> ev = Passed pe /\ threads s' = threads s) /\
    (go = false -> ev = Blocked pe /\
      threads s' = <[currentThread s := t_state LOCKWAIT (t_lock true t)]> (threads s))).
Proof.
  intros Hrep Ht Hlock Hqe Hpe Hpl Hpm Hsz.
  pose proof Hrep as (Hsem & Hq & Hv & Hvl).
  unfold semWait, acquireThread, releaseThread, acquireSem, releaseSem.
  apply wp_bind, wp_gets. apply wp_bind, wp_bind. eapply wp_getThread; [done|]. rewrite Hlock.
  eapply wp_updThread; [done|].
  apply wp_bind, wp_bind. eapply wp_getSem; [done|]. simpl semlock. cbv iota.
  eapply wp_updSem; [done|]. apply wp_bind. eapply wp_getSem; [simpl; apply lookup_insert_eq|].
  cbn [semvalue sem_lock]. destruct (Z.ltb_spec 0 v) as [Hpos|Hneg].
  - apply wp_bind. eapply wp_updSem; [simpl; apply lookup_insert_eq|].
    apply wp_bind. eapply wp_updSem; [simpl; apply lookup_insert_eq|].
    apply wp_bind. eapply wp_updThread; [simpl; apply lookup_insert_eq|]. apply wp_ret.
    exists (Passed pe), (v - 1), l. split_and!.
    + by constructor.
    + eapply sem_rep_ext; [| | | | |exact Hrep]; simpl; try done; [|lia|by intros; apply Hvl].
      rewrite lookup_insert_eq. unfold sem_lock, sem_add. simpl. do 2 f_equal. apply s32_small. lia.
    + simpl. by destruct Hpm as [? ->].
    + intros _. split; [done|]. simpl. rewrite !insert_insert_eq. apply insert_id. rewrite Ht.
      destruct t. simpl in *. by subst.
    + done.
  - apply wp_bind.
    match goal with |- wp _ ?x _ => set (s1 := x) end.
    assert (Hq1 : queue_rep true s1 (QSem p) l) by (eapply queue_rep_ext; [..|exact Hq]; done).
    pose proof (queue_length _ _ _ _ _ Hq Hpl Hpm).
    wp_use (threadQueuePush_wp true s1 (QSem p) l (currentThread s) (t_lock true t) pe Hq1);
      [by simpl; rewrite lookup_insert_eq|done|done|done|done|lia|].
    intros _ s2 [Hq2 (G1 & G2 & G3 & G4 & G5 & G6 & G7 & _)].
    apply wp_bind. eapply wp_updSem; [rewrite G5; simpl; apply lookup_insert_eq|].
    apply wp_bind. eapply wp_updThread; [simpl; rewrite G3; simpl; apply lookup_insert_eq|]. apply wp_ret.
    exists (Blocked pe), v, (l ++ [pe]). split_and!.
    + constructor. lia.
    + split_and!; simpl; [by rewrite G5, lookup_insert_eq|by eapply queue_rep_ext; [..|exact Hq2]|lia..].
    + simpl. destruct Hq2 as (_ & Hl2 & _).
      destruct (linked_queue _ _ _ _ _ pe Hl2) as (e & -> & _); [|done].
      apply elem_of_app. right. by left.
    + done.
    + intros _. split; [done|]. simpl. rewrite G3. unfold s1. simpl. by rewrite insert_insert_eq.
Qed.

(** A signal with nobody waiting. *)
Lemma semSignal_raise s p v :
  sem_rep s p v [] -> v + 1 < 2 ^ 31 - 1 ->
  wp (semSignal p) s (fun _ s' => sem_rep s' p (v + 1) [] /\ threads s' = threads s /\
    qes s' = qes s).
Proof.
  intros Hrep Hmax. pose proof Hrep as (Hsem & Hq & Hv & Hvl).
  unfold semSignal, acquireSem, releaseSem.
  apply wp_bind, wp_bind. eapply wp_getSem; [done|]. simpl semlock. cbv iota.
  eapply wp_updSem; [done|]. apply wp_bind. eapply wp_getSem; [simpl; apply lookup_insert_eq|].
  cbn [semvalue sem_lock]. apply wp_bind.
  match goal with |- wp _ ?x _ => set (s1 := x) end.
  assert (Hs1 : sems s1 !! p = Some (mkSem true v)) by (simpl; apply lookup_insert_eq).
  assert (Hadd : wp (updSem p (sem_add 1)) s1 (fun _ s' =>
    sems s' !! p = Some (mkSem true (v + 1)) /\ threads s' = threads s /\ qes s' = qes s /\ queues s' = queues s)).
  { eapply wp_updSem; [done|]. simpl. split_and!; try done. rewrite lookup_insert_eq.
    unfold sem_add. simpl. do 2 f_equal. apply s32_small. lia. }
  assert (Hend : forall s2, sems s2 !! p = Some (mkSem true (v + 1)) /\ threads s2 = threads s /\
    qes s2 = qes s /\ queues s2 = queues s ->
    wp (updSem p (sem_lock false)) s2 (fun _ s' => sem_rep s' p (v + 1) [] /\ threads s' = threads s /\ qes s' = qes s)).
  { intros s2 (E1 & E2 & E3 & E4). eapply wp_updSem; [done|]. split_and!; try done.
    eapply sem_rep_ext; [| | | | |exact Hrep]; simpl; try done; [by rewrite lookup_insert_eq|lia]. }
  destruct (Z.ltb_spec 0 v).
  - wp_use Hadd. intros _ s2 H2. by apply Hend.
  - assert (Hq1 : queue_rep true s1 (QSem p) []) by (eapply queue_rep_ext; [..|exact Hq]; done).
    apply wp_bind. wp_use (threadQueuePop_nil true s1 _ Hq1). intros r s2 [-> ->]. simpl.
    wp_use Hadd. intros _ s2 H2. by apply Hend.
Qed.

(** A signal with waiters makes the one that has waited longest ready. *)
Lemma semSignal_wake s L p l pe th t e :
  sem_rep s p 0 (pe :: l) -> sched_inv s L ->
  qes s !! pe = Some e -> qthread e = th -> tsigDepth t <= qsigDepth e ->
  threads s !! th = Some t -> queueEntry t = pe ->
  0 <= cpuAffinity t < Z.of_nat (length (cpuInfos s)) -> valid_priority (priority t) ->
  wp (semSignal p) s (fun _ s' => sem_rep s' p 0 l /\
    exists cpu i, 0 <= cpu < Z.of_nat (length (cpuInfos s)) /\ valid_priority i /\
      Z.abs (i - priority t) <= 1 /\ sched_inv s' (L_push L cpu i pe) /\
      threads s' = <[th := t_affinity cpu (t_priority i (t_state SCHEDWAIT t))]> (threads s)).
Proof.
  intros Hrep HI He Eth Hsig Ht Hqe Haff Hprio. pose proof Hrep as (Hsem & Hq & _ & _).
  unfold semSignal, acquireSem, releaseSem.
  apply wp_bind, wp_bind. eapply wp_getSem; [done|]. simpl semlock. cbv iota.
  eapply wp_updSem; [done|]. apply wp_bind. eapply wp_getSem; [simpl; apply lookup_insert_eq|].
  cbn [semvalue sem_lock]. change (0 <? 0) with false. cbv iota. apply wp_bind, wp_bind.
  match goal with |- wp _ ?x _ => set (s1 := x) end.
  assert (Hq1 : queue_rep true s1 (QSem p) (pe :: l)) by (eapply queue_rep_ext; [..|exact Hq]; done).
  assert (HI1 : sched_inv s1 L) by (apply (sched_inv_ext s); try done; apply (si_locks _ _ HI)).
  assert (Hpe : pe <> 0) by apply Hq. 
  wp_use (threadQueuePop_cons true s1 _ pe l Hq1).
  intros r s2 (-> & Hq2 & Hfr & e0 & e2 & He0 & He2 & Hn2 & Eth2 & Esig2).
  assert (e0 = e) as -> by (change (qes s1) with (qes s) in He0; congruence).
  pose proof Hfr as (G1 & G2 & G3 & G4 & G5 & G6 & G7 & _).
  destruct (Z.eqb_spec pe 0); [done|]. cbn [negb].
  assert (HI2 : sched_inv s2 L).
  { split.
    - rewrite G4. intros c j Hc Hj. pose proof (si_lists _ _ HI1 c j Hc Hj) as Hcj.
      eapply queue_frame_rep; [exact Hfr|done| |exact Hcj].
      by eapply queue_rep_disjoint.
    - rewrite G4. apply (si_locks _ _ HI1).
    - pose proof (si_size _ _ HI1). assert (size (qes s2) <= size (qes s1))%nat; [|lia].
      eapply queue_frame_size; [exact Hfr|]. intros x Hx. destruct Hq1 as (_ & Hl1 & _).
      destruct (linked_queue _ _ _ _ _ _ Hl1 Hx) as (? & ? & _). eauto. }
  wp_use (readyQueuePush_wp s2 L pe th t HI2).
  { split; [done|]. split; [by rewrite G3|]. split; [done|]. split; [|by rewrite G4].
    exists e2. split_and!; [done|by rewrite Eth2|done|lia]. }
  intros _ s3 (cpu & i & Hcpu & Hi & [_ Habs] & HI3 & Eth3 & Hoth & _ & Esem & _).
  eapply wp_updSem; [by rewrite Esem, G5; simpl; apply lookup_insert_eq|].
  rewrite G4 in Hcpu. split.
  - split_and!; simpl; [by rewrite lookup_insert_eq| |done..].
    eapply queue_rep_ext; [| |apply (Hoth true (QSem p) l)]; try done.
    by destruct Hq as (Hnd & _); apply NoDup_cons in Hnd as [? _].
  - exists cpu, i. split; [exact Hcpu|]. split; [done|]. split; [done|]. split.
    + apply (sched_inv_ext s3); try done. apply (si_locks _ _ HI3).
    + simpl. by rewrite Eth3, G3.
Qed.
End sem.

Section concrete.
Lemma idle_inv s :
  cpuInfos s = [demoCpu; demoCpu] -> Z.of_nat (size (qes s)) < 2 ^ 31 - 2 ->
  (forall c i, (c = 0 \/ c = 1) -> valid_priority i -> queues s !! QReady c i = Some emptyQueue) ->
  sched_inv s (fun _ _ => []).
Proof.
  intros E Hsz Hq. split; [|rewrite E|done].
  - rewrite E. simpl. intros c i Hc Hi. apply empty_queue_rep, Hq; [lia|done].
  - intros n c H. by destruct n as [|[|n]]; simplify_eq/=.
Qed.

Lemma idleQueues_empty c i :
  (c = 0 \/ c = 1) -> valid_priority i -> idleQueues !! QReady c i = Some emptyQueue.
Proof.
  unfold valid_priority, NROF_QUEUE_PRIORITIES. intros Hc Hi.
  assert (i = 0 \/ i = 1 \/ i = 2 \/ i = 3 \/ i = 4 \/ i = 5 \/ i = 6 \/ i = 7) as H by lia.
  destruct Hc as [-> | ->]; repeat destruct H as [->|H]; subst; by vm_compute.
Qed.

Lemma runners_inv v : sched_inv (runners v) (fun _ _ => []).
Proof.
  apply idle_inv; [done|by vm_compute|]. intros c i Hc Hi.
  cbn [queues runners waiter]. rewrite lookup_insert_ne by done. by apply idleQueues_empty.
Qed.
Lemma waiter_inv : sched_inv waiter (fun _ _ => []).
Proof.
  apply idle_inv; [done|by vm_compute|]. intros c i Hc Hi.
  cbn [queues runners waiter]. rewrite lookup_insert_ne by done. by apply idleQueues_empty.
Qed.
Lemma waiter_sem : sem_rep waiter 500 0 [11].
Proof. split_and!; [done|apply waiter_queue|done..]. Qed.
End concrete.

(** ** The properties *)

Section properties.
(** [getThreadFromCPU] takes the first entry of the best non-empty ready
    list of the CPU, gives its thread the time slice of that priority, counts
    it out of the CPU and leaves every other queue alone; it returns [NULL],
    and changes nothing, exactly when all lists are empty. *)
Theorem getThreadFromCPU_correct s cpu ls c :
  ready_lists true s cpu ls -> entries_ok s ls -> 0 <= cpu ->
  cpuInfos s !! Z.to_nat cpu = Some c ->
  wp (getThreadFromCPU cpu) s (fun r s' =>
    match pick 8 0 ls with
    | None => r = 0 /\ s' = s
    | Some (i, p, l) => exists e t,
        ls i = p :: l /\ qes s !! p = Some e /\ r = qthread e /\ threads s !! r = Some t /\
        queue_rep true s' (QReady cpu i) l /\
        (forall q l', q <> QReady cpu i -> queue_rep true s q l' -> queue_rep true s' q l') /\
        threads s' = <[r := t_jiffies (timeslice i) t]> (threads s) /\
        cpuInfos s' = <[Z.to_nat cpu := cpu_ready (-1) c]> (cpuInfos s)
    end).
Proof.
  intros Hls Hok Hcpu Hc. unfold getThreadFromCPU.
  wp_use (getThreadFrom_spec true 8 s cpu 0 ls c); try done.
  intros r s'. destruct (pick 8 0 ls) as [[[i p] l]|]; [|done].
  intros [El (e & t & c' & H1 & H2 & H3 & H4 & H5 & H6 & H7 & H8 & _)].
  assert (c' = c) as -> by congruence. exists e, t. split_and!; try done. intros q l'. apply H5.
Qed.

(** C7: [readyQueuePush] of a thread that is on no queue finishes with the
    thread at the end of the ready list of one CPU: its state is
    [SCHEDWAIT], its priority stays in range and moves by at most one step,
    no other queue changes, all ready-list locks are free again, and a CPU
    other than the running one is sent a reschedule interrupt. *)
Theorem readyQueuePush_correct s L p th t :
  sched_inv s L -> runnable s p th t ->
  wp (readyQueuePush p) s (fun _ s' => exists cpu i,
    valid_priority i /\ Z.abs (i - priority t) <= 1 /\
    sched_inv s' (L_push L cpu i p) /\
    threads s' = <[th := t_affinity cpu (t_priority i (t_state SCHEDWAIT t))]> (threads s) /\
    (cpu <> thisCpu s -> exists c, cpuInfos s !! Z.to_nat cpu = Some c /\ ipis s' = apicID c :: ipis s)).
Proof.
  intros HI Hr. wp_use (readyQueuePush_wp s L p th t HI Hr).
  intros _ s' (cpu & i & Hcpu & Hi & [_ Ha] & HI' & Ht & _ & _ & _ & _ & _ & Hipi).
  exists cpu, i. split_and!; try done. intros Hne. destruct (Z.eqb_spec cpu (thisCpu s)); [done|].
  destruct (lookup_range _ _ Hcpu) as [c Hc]. rewrite Hc in Hipi. eauto.
Qed.

(** C5: [semWait] by the running thread refines the abstract semaphore: with
    a positive value it takes one unit and goes on with the thread as it was;
    otherwise it queues the thread behind all earlier waiters and stops it. *)
Theorem semWait_correct s p v l t :
  sem_rep s p v l -> threads s !! currentThread s = Some t -> tlock t = false ->
  queueEntry t <> 0 -> queueEntry t ∉ l -> is_Some (qes s !! queueEntry t) ->
  Z.of_nat (size (qes s)) < 2 ^ 31 - 2 ->
  wp (semWait p) s (fun go s' => exists v' l',
    sem_rep s' p v' l' /\
    sem_step (v, l) (if go then Passed (queueEntry t) else Blocked (queueEntry t)) (v', l') /\
    threads s' = if go then threads s
                 else <[currentThread s := t_state LOCKWAIT (t_lock true t)]> (threads s)).
Proof.
  intros Hrep Ht Hl Hp Hpl Hm Hsz.
  wp_use (semWait_wp s p v l t _ Hrep Ht Hl eq_refl Hp Hpl Hm Hsz).
  intros [] s' (ev & v' & l' & Hst & Hrep' & _ & H1 & H2); exists v', l'.
  - destruct (H1 eq_refl) as [-> ?]. done.
  - destruct (H2 eq_refl) as [-> ?]. done.
Qed.

(** C6: [semSignal] refines the abstract semaphore: with waiters it makes the
    one that has waited longest ready (and only that one) and the value stays
    zero; with none it raises the value. *)
Theorem semSignal_correct s L p v l :
  sem_rep s p v l -> sched_inv s L -> v + 1 < 2 ^ 31 - 1 ->
  (forall pe r, l = pe :: r -> exists e t, qes s !! pe = Some e /\
    threads s !! qthread e = Some t /\ queueEntry t = pe /\ tsigDepth t <= qsigDepth e /\
    0 <= cpuAffinity t < Z.of_nat (length (cpuInfos s)) /\ valid_priority (priority t)) ->
  wp (semSignal p) s (fun _ s' => exists v' l',
    sem_rep s' p v' l' /\
    sem_step (v, l) (match l with [] => Raised | pe :: _ => Woke pe end) (v', l') /\
    match l with
    | [] => threads s' = threads s
    | pe :: _ => exists cpu i t th, sched_inv s' (L_push L cpu i pe) /\
        threads s !! th = Some t /\ queueEntry t = pe /\
        threads s' = <[th := t_affinity cpu (t_priority i (t_state SCHEDWAIT t))]> (threads s)
    end).
Proof.
  intros Hrep HI Hmax Hl. destruct l as [|pe l].
  - wp_use (semSignal_raise s p v Hrep Hmax). intros _ s' (Hrep' & Ht & _).
    exists (v + 1), []. split_and!; [done| |done]. constructor. by right.
  - destruct (Hl pe l eq_refl) as (e & t & He & Ht & Hqe & Hsig & Haff & Hprio).
    assert (v = 0) as ->.
    { destruct Hrep as (_ & _ & Hv & Hne). destruct (Z.eq_dec v 0); [done|].
      by specialize (Hne ltac:(lia)). }
    wp_use (semSignal_wake s L p l pe (qthread e) t e); try done.
    intros _ s' (Hrep' & cpu & i & _ & _ & _ & HI' & Ht').
    exists 0, l. split_and!; [done|by constructor|]. by exists cpu, i, t, (qthread e).
Qed.

(** A wake-up finds the thread of the entry. *)
Definition wakeable (s : sched) (pe : Z) : Prop := exists e t, qes s !! pe = Some e /\ threads s !! qthread e = Some t /\ queueEntry t = pe /\
  tsigDepth t <= qsigDepth e /\ 0 <= cpuAffinity t < Z.of_nat (length (cpuInfos s)) /\ valid_priority (priority t).
Definition firstWaiter (s : sched) (p : Z) : Z := match queues s !! QSem p with Some k => first k | None => 0 end.
(** Runs of the code on the semaphore at [p]: [semWait] by whichever thread is
    current, its entry not waiting there already, and [semSignal]; between the
    calls the rest of the kernel does what it likes to everything but this
    semaphore and its queue. *)
Inductive semRun (p : Z) (s0 : sched) : list sem_event -> sched -> Prop :=
| run_start : semRun p s0 [] s0
| run_other tr s s' : semRun p s0 tr s -> (forall v l, sem_rep s p v l -> sem_rep s' p v l) -> semRun p s0 tr s'
| run_wait tr s t e go s' :
    semRun p s0 tr s -> threads s !! currentThread s = Some t -> tlock t = false -> queueEntry t <> 0 ->
    qes s !! queueEntry t = Some e -> queue e <> Some (QSem p) -> Z.of_nat (size (qes s)) < 2 ^ 31 - 2 ->
    semWait p s = Done (go, s') ->
    semRun p s0 (tr ++ [if go : bool then Passed (queueEntry t) else Blocked (queueEntry t)]) s'
| run_signal tr s L s' :
    semRun p s0 tr s -> sched_inv s L -> (forall x, sems s !! p = Some x -> semvalue x + 2 < 2 ^ 31) ->
    (firstWaiter s p <> 0 -> wakeable s (firstWaiter s p)) -> semSignal p s = Done (tt, s') ->
    semRun p s0 (tr ++ [if firstWaiter s p =? 0 then Raised else Woke (firstWaiter s p)]) s'.

(** The code's runs are runs of the abstract semaphore. *)
Lemma semRun_steps p s0 v0 tr s : sem_rep s0 p v0 [] -> semRun p s0 tr s -> exists v l, sem_rep s p v l /\ sem_steps v0 tr (v, l).
Proof.
  intros H0. induction 1 as [|tr s s' _ (v & l & Hr & Hst) Hother|tr s t e go s' _ (v & l & Hr & Hst) Ht Hl Hne He Hq Hsz Hw|tr s L s' _ (v & l & Hr & Hst) HI Hmax Hwk Hs].
  - exists v0, []. split; [done|constructor].
  - exists v, l. split; [by apply Hother|done].
  - pose proof Hr as (_ & (_ & Hlk & _) & _ & _).
    assert (Hnl : queueEntry t ∉ l). { intros Hin. destruct (linked_queue _ _ _ _ _ _ Hlk Hin) as (e' & He' & Hq'). congruence. }
    pose proof (semWait_wp s p v l t _ Hr Ht Hl eq_refl Hne Hnl (ex_intro _ e He) Hsz) as Hwp. unfold wp in Hwp. rewrite Hw in Hwp.
    destruct Hwp as (ev & v' & l' & Hst' & Hr' & _ & Hgo & Hstop). exists v', l'. split; [done|]. apply (steps_snoc _ _ (v, l)); [done|].
    destruct go; [by destruct (Hgo eq_refl) as [-> _]|by destruct (Hstop eq_refl) as [-> _]].
  - pose proof Hr as (Hsem & (_ & Hlk & Hqs & _) & Hv & Hvl). specialize (Hmax _ Hsem). cbn in Hmax.
    assert (Hf : firstWaiter s p = hd 0 l) by (unfold firstWaiter; by rewrite Hqs). rewrite Hf in *. destruct l as [|pe l]; cbn [hd] in *.
    + pose proof (semSignal_raise s p v Hr ltac:(lia)) as Hwp. unfold wp in Hwp. rewrite Hs in Hwp. destruct Hwp as (Hr' & _).
      exists (v + 1), []. split; [done|]. apply (steps_snoc _ _ (v, [])); [done|]. constructor. by right.
    + destruct Hlk as [Hpe _]. destruct (Hwk Hpe) as (e & t & He & Ht & Hqe & Hsig & Haff & Hprio). rewrite (proj2 (Z.eqb_neq pe 0)) by done.
      assert (v = 0) as ->. { destruct (Z.eq_dec v 0); [done|]. by specialize (Hvl ltac:(lia)). }
      pose proof (semSignal_wake s L p l pe (qthread e) t e Hr HI He eq_refl Hsig Ht Hqe Haff Hprio) as Hwp. unfold wp in Hwp. rewrite Hs in Hwp.
      destruct Hwp as (Hr' & _). exists 0, l. split; [done|]. apply (steps_snoc _ _ (0, pe :: l)); [done|by constructor].
Qed.
Lemma steps_conserve v0 tr v l :
  0 <= v0 -> sem_steps v0 tr (v, l) ->
  0 <= v /\ (0 < v -> l = []) /\ blocked_in tr = woken_in tr ++ l /\
  v0 + count is_signal tr = v + count is_acquire tr.
Proof.
  intros Hv0 H. remember (v, l) as st eqn:E. revert v l E.
  induction H as [|tr st ev st' Htr IH Hst]; intros v l E.
  { injection E as <- <-. split_and!; unfold count; simpl; done || lia. }
  subst st'. destruct st as [v1 l1]. destruct (IH v1 l1 eq_refl) as (I1 & I2 & I3 & I4).
  rewrite !count_snoc. unfold blocked_in, woken_in in *. rewrite !omap_app, I3.
  inversion Hst; subst; simpl; rewrite ?app_nil_r; split_and!; try lia.
  all: try (by rewrite <- ?app_assoc).
  all: intros Hpos; try lia; try (apply I2; lia).
  match goal with H : 0 < v1 \/ l = [] |- _ => destruct H as [?|?]; [by apply I2|done] end.
Qed.
(** C4: whatever the interleaving of [semWait] and [semSignal] on a semaphore,
    by whatever threads and with whatever else the kernel does in between,
    units are conserved (initial value plus signals = value plus
    acquisitions), threads are woken in the order in which they blocked, the
    value never gets negative, and no wake-up is lost: nobody waits while the
    value is positive. *)
Theorem sem_conservation p s0 v0 tr s :
  sem_rep s0 p v0 [] -> semRun p s0 tr s -> exists v l, sem_rep s p v l /\
  0 <= v /\ (0 < v -> l = []) /\ blocked_in tr = woken_in tr ++ l /\
  v0 + count is_signal tr = v + count is_acquire tr.
Proof.
  intros H0 Hr. destruct (semRun_steps p s0 v0 tr s H0 Hr) as (v & l & Hrep & Hst). exists v, l. split; [done|].
  eapply steps_conserve; [|exact Hst]. apply H0.
Qed.

(** [sleepSkipTime] stops early: waking a thread relinks its entry into
    a ready list before the loop reads the entry's [nextThread].  Of two
    sleeping threads with 1 and 5 ticks left the first is woken, and the
    tick of the second is lost. *)
Theorem sleepSkipTime_loses_tick :
  wp (sleepSkipTime 0) sleepers (fun _ s' =>
    option_map queue (qes s' !! 11) = Some (Some (QReady 0 3)) /\
    option_map waitData (qes s' !! 12) = Some 5 /\
    queues s' !! QSleep = Some (mkQueue 12 12 1)).
Proof. vm_compute. split_and!; reflexivity. Qed.

(** [readyQueueExchange] books a drop in priority with the wrong sign:
    the load of a CPU counts 8 minus the priority of each thread, yet a
    thread that goes from priority 3 to 4 raises it by one. *)
Theorem readyQueueExchange_load_sign :
  let s0 := set_threads (runners 0) (<[1 := mkThread RUNNING false 0 0 11 3 false 0]> (threads (runners 0))) in
  wp (readyQueueExchange 1 false) s0 (fun r s' =>
    r = 1 /\ option_map priority (threads s' !! 1) = Some 4 /\
    option_map threadLoad (cpuInfos s' !! 0%nat) = Some 2).
Proof. vm_compute. split_and!; reflexivity. Qed.
End properties.

Section witnesses.
Lemma getThreadFromCPU_correct_witness : exists s',
  wp (getThreadFromCPU 0) s' (fun r s'' => r = 0 /\ s'' = s').
Proof.
  exists (runners 0).
  apply (getThreadFromCPU_correct (runners 0) 0 (fun _ => []) demoCpu);
    [|intros i p Hp; by apply elem_of_nil in Hp|done|reflexivity].
  intros i Hi. apply empty_queue_rep. cbn [queues runners]. rewrite lookup_insert_ne by done.
  apply idleQueues_empty; [by left|done].
Defined.

Lemma readyQueuePush_correct_witness :
  wp (readyQueuePush 11) (runners 0) (fun _ s' => exists cpu i,
    valid_priority i /\ Z.abs (i - 3) <= 1 /\
    sched_inv s' (L_push (fun _ _ => []) cpu i 11) /\
    threads s' = <[1 := t_affinity cpu (t_priority i (t_state SCHEDWAIT (demoThread 11 3)))]> (threads (runners 0)) /\
    (cpu <> 0 -> exists c, cpuInfos (runners 0) !! Z.to_nat cpu = Some c /\ ipis s' = apicID c :: ipis (runners 0))).
Proof.
  apply (readyQueuePush_correct (runners 0) (fun _ _ => []) 11 1 (demoThread 11 3) (runners_inv 0)).
  split_and!; try done. exists (demoQe 1 0 0 None 0). by split_and!.
Defined.

Lemma semWait_correct_witness :
  wp (semWait 500) (runners 1) (fun go s' => exists v' l',
    sem_rep s' 500 v' l' /\
    sem_step (1, []) (if go then Passed 11 else Blocked 11) (v', l') /\
    threads s' = if go then threads (runners 1)
                 else <[1 := t_state LOCKWAIT (t_lock true (demoThread 11 3))]> (threads (runners 1))).
Proof.
  apply (semWait_correct (runners 1) 500 1 [] (demoThread 11 3));
    [|reflexivity|done|done|set_solver|by eexists|by vm_compute].
  split_and!; try done. by apply empty_queue_rep.
Defined.

Lemma semSignal_correct_witness :
  wp (semSignal 500) waiter (fun _ s' => exists v' l',
    sem_rep s' 500 v' l' /\ sem_step (0, [11]) (Woke 11) (v', l') /\
    exists cpu i t th, sched_inv s' (L_push (fun _ _ => []) cpu i 11) /\
        threads waiter !! th = Some t /\ queueEntry t = 11 /\
        threads s' = <[th := t_affinity cpu (t_priority i (t_state SCHEDWAIT t))]> (threads waiter)).
Proof.
  apply (semSignal_correct waiter (fun _ _ => []) 500 0 [11] waiter_sem waiter_inv); [done|].
  intros pe r [= <- <-]. exists (demoQe 1 0 0 (Some (QSem 500)) 0), (mkThread LOCKWAIT false 0 0 11 3 false 50).
  by split_and!.
Defined.

(** Thread 1 blocks; thread 2 gets the processor and signals. *)
Definition afterWait : sched := match semWait 500 (runners 0) with Done (_, s) => s | _ => runners 0 end.
Definition switched : sched := set_currentThread afterWait 2.
Definition afterSignal : sched := match semSignal 500 switched with Done (_, s) => s | _ => runners 0 end.
Lemma switched_queues : queues switched = <[QSem 500 := mkQueue 11 11 1]> (queues (runners 0)).
Proof. vm_compute. reflexivity. Qed.
Lemma switched_inv : sched_inv switched (fun _ _ => []).
Proof.
  apply idle_inv; [vm_compute; reflexivity|vm_compute; reflexivity|]. intros c i Hc Hi.
  rewrite switched_queues. cbn [queues runners waiter]. rewrite !lookup_insert_ne by done. by apply idleQueues_empty.
Qed.
Lemma runners_run : semRun 500 (runners 0) [Blocked 11; Woke 11] afterSignal.
Proof.
  refine (run_signal 500 (runners 0) [Blocked 11] switched (fun _ _ => []) afterSignal _ switched_inv _ _ _).
  - refine (run_other _ _ _ afterWait _ _ _); [|intros v l (H1 & H2 & H3); split; [exact H1|split; [exact H2|exact H3]]].
    refine (run_wait 500 (runners 0) [] (runners 0) (demoThread 11 3) (demoQe 1 0 0 None 0) false afterWait _ _ _ _ _ _ _ _).
    1: constructor. all: vm_compute; try reflexivity; discriminate.
  - intros x Hx. assert (E : sems switched !! 500 = Some (mkSem false 0)) by (vm_compute; reflexivity). rewrite E in Hx. injection Hx as <-. cbn. lia.
  - intros _. eexists _, _. split_and!; vm_compute; try reflexivity; try discriminate; done.
  - vm_compute. reflexivity.
Qed.
Lemma sem_conservation_witness : exists v l, sem_rep afterSignal 500 v l /\
  0 <= v /\ (0 < v -> l = []) /\ blocked_in [Blocked 11; Woke 11] = woken_in [Blocked 11; Woke 11] ++ l /\
  0 + count is_signal [Blocked 11; Woke 11] = v + count is_acquire [Blocked 11; Woke 11].
Proof.
  apply (sem_conservation 500 (runners 0)); [|exact runners_run].
  split_and!; try done. by apply empty_queue_rep.
Defined.
End witnesses.
