(* ===== verification/PhysPaging.v ===== *)
(** * Physical page stacks: [kernel/mm/physpaging.c] and [arch/.../mm/init.c]

    Free physical pages are kept on stacks that live in free pages
    themselves: the page mapped at a stack's address holds a link to the
    previous stack page and 511 page addresses. *)

From S2P Require Import Prelude Word Heap.

Definition LARGEPAGE_SIZE : Z := PAGE_SIZE * 512.
Definition PAGE_STACK_LENGTH : Z := PAGE_SIZE / 8 - 1.
Definition LOWMEM_SIZE : Z := 0x01000000.

Inductive stk := SmallPages | LargePages | SmallCleanPages | LargeCleanPages.

Record PageStackInfo := mkStack {
  stack : Z;          (* virtual address of the stack page *)
  sp : Z;
  nrofPages : Z;
  slock : bool
}.

(** Physical memory by word, the page mapped at each stack and buffer
    address, and the allocator's globals. *)
Record phys := mkPhys {
  pmem : gmap Z Z;
  pmap : gmap Z Z;
  smallPages : PageStackInfo;
  largePages : PageStackInfo;
  smallCleanPages : PageStackInfo;
  largeCleanPages : PageStackInfo;
  freeBufferSmall : Z;
  freeBufferLarge : Z;
  totalPhysPages : Z
}.

Definition info (k : stk) (s : phys) : PageStackInfo :=
  match k with
  | SmallPages => smallPages s | LargePages => largePages s
  | SmallCleanPages => smallCleanPages s | LargeCleanPages => largeCleanPages s
  end.
Definition set_info (k : stk) (i : PageStackInfo) (s : phys) : phys :=
  match k with
  | SmallPages => mkPhys (pmem s) (pmap s) i (largePages s) (smallCleanPages s) (largeCleanPages s) (freeBufferSmall s) (freeBufferLarge s) (totalPhysPages s)
  | LargePages => mkPhys (pmem s) (pmap s) (smallPages s) i (smallCleanPages s) (largeCleanPages s) (freeBufferSmall s) (freeBufferLarge s) (totalPhysPages s)
  | SmallCleanPages => mkPhys (pmem s) (pmap s) (smallPages s) (largePages s) i (largeCleanPages s) (freeBufferSmall s) (freeBufferLarge s) (totalPhysPages s)
  | LargeCleanPages => mkPhys (pmem s) (pmap s) (smallPages s) (largePages s) (smallCleanPages s) i (freeBufferSmall s) (freeBufferLarge s) (totalPhysPages s)
  end.
Definition set_pmem (m : gmap Z Z) (s : phys) : phys :=
  mkPhys m (pmap s) (smallPages s) (largePages s) (smallCleanPages s) (largeCleanPages s) (freeBufferSmall s) (freeBufferLarge s) (totalPhysPages s).
Definition set_pmap (m : gmap Z Z) (s : phys) : phys :=
  mkPhys (pmem s) m (smallPages s) (largePages s) (smallCleanPages s) (largeCleanPages s) (freeBufferSmall s) (freeBufferLarge s) (totalPhysPages s).

Definition upd_sp (k : stk) (v : Z) : M phys unit :=
  modify (fun s => let i := info k s in set_info k (mkStack (stack i) v (nrofPages i) (slock i)) s).
Definition add_pages (k : stk) (d : Z) : M phys unit :=
  modify (fun s => let i := info k s in set_info k (mkStack (stack i) (sp i) (u64 (nrofPages i + d)) (slock i)) s).
Definition acquireStack (k : stk) : M phys unit :=
  i ← gets (info k);
  if slock i then fault else modify (set_info k (mkStack (stack i) (sp i) (nrofPages i) true)).
Definition releaseStack (k : stk) : M phys unit :=
  modify (fun s => let i := info k s in set_info k (mkStack (stack i) (sp i) (nrofPages i) false) s).

(** [mmMapPage] and [mmGetPageEntry] at the addresses of the stacks and of
    the clean buffer; page tables for them exist since [mmInitPaging]. *)
Definition mmMapPage (vaddr paddr : Z) : M phys unit :=
  modify (fun s => set_pmap (<[vaddr := Z.land paddr 0x0000FFFFFFFFF000]> (pmap s)) s).
Definition mmGetPageEntry (vaddr : Z) : M phys Z :=
  gets (fun s => default 0 (pmap s !! vaddr)).

(** Words of the page mapped at [vaddr]; nothing mapped is a page fault. *)
Definition readAt (vaddr off : Z) : M phys Z :=
  deref (fun s => p ← pmap s !! vaddr; pmem s !! (p + off)).
Definition writeAt (vaddr off v : Z) : M phys unit :=
  p ← deref (fun s => pmap s !! vaddr);
  modify (fun s => set_pmem (<[p + off := u64 v]> (pmem s)) s).

(** [struct PageStack]: [prevStack] at offset 0, [pages[i]] from offset 8. *)
Definition popPage (k : stk) : M phys Z :=
  acquireStack k;;
  i ← gets (info k);
  if (0 <=? sp i) && (sp i <? PAGE_STACK_LENGTH - 1) then
    newPage ← readAt (stack i) (8 + 8 * sp i);
    upd_sp k (sp i - 1);;
    add_pages k (-1);;
    releaseStack k;;
    mret newPage
  else if sp i =? -1 then
    add_pages k (-1);;
    newPage ← mmGetPageEntry (stack i);
    prev ← readAt (stack i) 0;
    if negb (prev =? 0) then
      prev ← readAt (stack i) 0;
      mmMapPage (stack i) prev;;
      upd_sp k (PAGE_STACK_LENGTH - 1);;
      releaseStack k;;
      mret (Z.lor newPage 1)
    else
      upd_sp k (-2);;
      releaseStack k;;
      mret (Z.lor newPage 1)
  else
    upd_sp k (-2);;
    releaseStack k;;
    mret 0.

Definition pushPage (k : stk) (newPage : Z) : M phys unit :=
  acquireStack k;;
  add_pages k 1;;
  i ← gets (info k);
  (if (-1 <=? sp i) && (sp i <? PAGE_STACK_LENGTH - 1) then
     upd_sp k (sp i + 1);;
     writeAt (stack i) (8 + 8 * (sp i + 1)) newPage
   else
     oldStack ← (if negb (sp i =? -2) then mmGetPageEntry (stack i) else mret 0);
     mmMapPage (stack i) newPage;;
     writeAt (stack i) 0 oldStack;;
     upd_sp k (-1));;
  releaseStack k.

(** The loop of [splitLargePage]: [n] pages from [largePage + i] on. *)
Fixpoint pushPages (n : nat) (k : stk) (page : Z) : M phys unit :=
  match n with
  | O => mret tt
  | S n => pushPage k page;; pushPages n k (u64 (page + PAGE_SIZE))
  end.

Definition splitLargePage (large small : stk) : M phys Z :=
  largePage ← popPage large;
  if largePage =? 0 then mret 0
  else
    pushPages (Z.to_nat (LARGEPAGE_SIZE / PAGE_SIZE - 1)) small (u64 (largePage + PAGE_SIZE));;
    mret largePage.

Fixpoint zeroAt (vaddr off : Z) (n : nat) : M phys unit :=
  match n with
  | O => mret tt
  | S n => writeAt vaddr off 0;; zeroAt vaddr (off + 8) n
  end.
Definition cleanSmallPage (page : Z) : M phys unit :=
  b ← gets freeBufferSmall;
  mmMapPage b page;;
  zeroAt b 0 (Z.to_nat (PAGE_SIZE / 8)).

Definition mmInitPhysPaging (firstStack freeMemBufferSmall freeMemBufferLarge : Z) : M phys unit :=
  modify (fun s =>
    let init (i : PageStackInfo) (a : Z) := mkStack a (-1) (nrofPages i) (slock i) in
    mkPhys (pmem s) (pmap s)
      (init (smallPages s) firstStack)
      (init (largePages s) (u64 (firstStack + PAGE_SIZE)))
      (init (smallCleanPages s) (u64 (firstStack + PAGE_SIZE * 2)))
      (init (largeCleanPages s) (u64 (firstStack + PAGE_SIZE * 3)))
      freeMemBufferSmall freeMemBufferLarge (totalPhysPages s)).

Definition allocPhysPage : M phys Z :=
  page ← popPage SmallPages;
  if page =? 0 then
    page ← popPage SmallCleanPages;
    if page =? 0 then
      page ← splitLargePage LargePages SmallPages;
      if page =? 0 then splitLargePage LargeCleanPages SmallCleanPages
      else mret page
    else mret page
  else mret page.

Definition allocCleanPhysPage : M phys Z :=
  page ← popPage SmallCleanPages;
  if page =? 0 then
    page ← popPage SmallPages;
    if page =? 0 then
      page ← splitLargePage LargeCleanPages SmallCleanPages;
      if page =? 0 then
        page ← splitLargePage LargePages SmallPages;
        if page =? 0 then mret 0
        else cleanSmallPage page;; mret page
      else mret page
    else cleanSmallPage page;; mret page
  else if has page 1 then
    let page := Z.land page (2 ^ 64 - 2) in
    cleanSmallPage page;; mret page
  else mret page.

Definition allocLargePhysPage : M phys Z :=
  page ← popPage LargePages;
  if page =? 0 then popPage LargeCleanPages else mret page.

Definition deallocPhysPage (page : Z) : M phys unit := pushPage SmallPages page.
Definition deallocLargePhysPage (page : Z) : M phys unit := pushPage LargePages page.

Definition getNrofPages : M phys Z :=
  gets (fun s => u64 (nrofPages (smallPages s) + nrofPages (smallCleanPages s) +
    nrofPages (largePages s) * (LARGEPAGE_SIZE / PAGE_SIZE))).

(** ** The page stacks as lists

    [ls k] is the list of pages on stack [k] in the order in which they will
    be popped: those of its topmost stack page, and that page itself.  A pop that
    comes to the stack page below finds it full, with the index 510, which it
    does not accept: it returns 0 and forgets the page ([popPage_full_loses]).
    So the pages further below, [below k] in number, are counted but cannot be
    had. *)

(** No page can be popped: the stack is empty, or at a full stack page. *)
Definition exhausted (v : Z) : bool := (v =? -2) || (v =? 510).
(** The page that pushes and pops use, if there is one. *)
Definition stack_page (k : stk) (s : phys) : option Z :=
  if exhausted (sp (info k s)) then None else pmap s !! stack (info k s).

Definition page_of (v : Z) : Z := Z.land v 0x0000FFFFFFFFF000.

(** Entry [i] of the stack page [P] is [es !! i]. *)
Definition entries (m : gmap Z Z) (P : Z) (es : list Z) : Prop :=
  forall i x, es !! i = Some x -> m !! (P + (8 + 8 * Z.of_nat i)) = Some x.

Section representation.
Context (below : stk -> Z).
Definition stack_rep (k : stk) (s : phys) (l : list Z) : Prop :=
  slock (info k s) = false /\ nrofPages (info k s) = Z.of_nat (length l) + below k /\
  match stack_page k s with
  | None => exhausted (sp (info k s)) = true /\ l = []
  | Some P => exists es, l = rev es ++ [Z.lor P 1] /\
      sp (info k s) = Z.of_nat (length es) - 1 /\ (length es <= 510)%nat /\
      is_Some (pmem s !! (P + 0)) /\ P mod PAGE_SIZE = 0 /\ entries (pmem s) P es
  end.

Record phys_inv (s : phys) (ls : stk -> list Z) : Prop := {
  pi_bases : forall k k', stack (info k s) = stack (info k' s) -> k = k';
  pi_apart : forall k k' P, stack_page k s = Some P -> stack_page k' s = Some P -> k = k';
  pi_rep : forall k, stack_rep k s (ls k);
  pi_below : forall k, 0 <= below k < 2 ^ 52
}.
End representation.

#[export] Instance stk_eq_dec : EqDecision stk.
Proof. solve_decision. Defined.

Definition upd_list (ls : stk -> list Z) (k : stk) (l : list Z) : stk -> list Z :=
  fun k' => if decide (k' = k) then l else ls k'.


Section stacks.
Lemma info_set k i s : info k (set_info k i s) = i.
Proof. by destruct k. Qed.
Lemma info_set_ne k k' i s : k' <> k -> info k' (set_info k i s) = info k' s.
Proof. by destruct k, k'. Qed.
Lemma info_pmem k m s : info k (set_pmem m s) = info k s.
Proof. by destruct k. Qed.
Lemma info_pmap k m s : info k (set_pmap m s) = info k s.
Proof. by destruct k. Qed.
Lemma pmem_info k i s : pmem (set_info k i s) = pmem s.
Proof. by destruct k. Qed.
Lemma pmap_info k i s : pmap (set_info k i s) = pmap s.
Proof. by destruct k. Qed.

Lemma page_of_aligned v : page_of v mod PAGE_SIZE = 0.
Proof.
  unfold page_of, PAGE_SIZE. change 4096 with (2 ^ 12). rewrite <- Z.land_ones by lia.
  rewrite <- Z.land_assoc. change (Z.land _ (Z.ones 12)) with 0. apply Z.land_0_r.
Qed.

Lemma aligned_apart P Q x y :
  P mod PAGE_SIZE = 0 -> Q mod PAGE_SIZE = 0 -> P <> Q ->
  0 <= x < PAGE_SIZE -> 0 <= y < PAGE_SIZE -> P + x <> Q + y.
Proof. unfold PAGE_SIZE. dlia. Qed.

Lemma upd_list_eq ls k l : upd_list ls k l k = l.
Proof. unfold upd_list. by rewrite decide_True. Qed.
Lemma upd_list_ne ls k k' l : k' <> k -> upd_list ls k l k' = ls k'.
Proof. intros. unfold upd_list. by rewrite decide_False. Qed.

(** What an operation on stack [k] may change. *)
Record stack_frame (k : stk) (s s' : phys) : Prop := {
  sf_info : forall k', k' <> k -> info k' s' = info k' s;
  sf_base : stack (info k s') = stack (info k s);
  sf_pmap : forall a, a <> stack (info k s) -> pmap s' !! a = pmap s !! a;
  sf_fresh : forall k' P, k' <> k -> stack_page k' s = Some P -> stack_page k s' <> Some P;
  sf_pmem : forall k' P x, k' <> k -> stack_page k' s = Some P -> 0 <= x < PAGE_SIZE ->
    pmem s' !! (P + x) = pmem s !! (P + x)
}.

Section frames.
Context (below : stk -> Z).
Lemma frame_page k k' s s' ls :
  phys_inv below s ls -> stack_frame k s s' -> k' <> k -> stack_page k' s' = stack_page k' s.
Proof.
  intros HI HF Hne. unfold stack_page. rewrite (sf_info _ _ _ HF) by done.
  case_match; [done|]. apply (sf_pmap _ _ _ HF). intros E. by apply Hne, (pi_bases _ _ _ HI).
Qed.

Lemma phys_inv_frame k s s' ls l :
  phys_inv below s ls -> stack_frame k s s' -> stack_rep below k s' l -> phys_inv below s' (upd_list ls k l).
Proof.
  intros HI HF Hl. pose proof (fun k' => frame_page k k' s s' ls HI HF) as Hpg. split.
  - intros k1 k2 E. apply (pi_bases _ _ _ HI).
    destruct (decide (k1 = k)) as [->|], (decide (k2 = k)) as [->|];
      rewrite ?(sf_base _ _ _ HF), ?(sf_info _ _ _ HF) in E by done; congruence.
  - intros k1 k2 P E1 E2.
    destruct (decide (k1 = k)) as [->|N1], (decide (k2 = k)) as [->|N2]; [done| | |].
    + rewrite Hpg in E2 by done. by destruct (sf_fresh _ _ _ HF k2 P).
    + rewrite Hpg in E1 by done. by destruct (sf_fresh _ _ _ HF k1 P).
    + rewrite Hpg in E1, E2 by done. by eapply (pi_apart _ _ _ HI).
  - intros k'. destruct (decide (k' = k)) as [->|Hne]; [by rewrite upd_list_eq|].
    rewrite upd_list_ne by done. destruct (pi_rep _ _ _ HI k') as (H1 & H2 & H3).
    unfold stack_rep. rewrite (sf_info _ _ _ HF), Hpg by done. split_and!; [done..|].
    destruct (stack_page k' s) as [P|] eqn:EP; [|done].
    destruct H3 as (es & ? & ? & ? & Hz & ? & Hes). exists es. split_and!; try done.
    + by rewrite (sf_pmem _ _ _ HF k').
    + intros i x Hx. pose proof (lookup_lt_Some _ _ _ Hx).
      rewrite (sf_pmem _ _ _ HF k'); [by apply Hes|done..|]. unfold PAGE_SIZE. lia.
  - apply (pi_below _ _ _ HI).
Qed.

(** The pages of the stacks are aligned, and pairwise apart. *)
Lemma page_aligned k s ls P :
  phys_inv below s ls -> stack_page k s = Some P -> P mod PAGE_SIZE = 0.
Proof.
  intros HI E. destruct (pi_rep _ _ _ HI k) as (_ & _ & H). rewrite E in H.
  by destruct H as (? & _ & _ & _ & _ & ? & _).
Qed.

End frames.

Lemma wp_acquireStack k s Q :
  wp (acquireStack k) s Q <-> slock (info k s) = false /\
    Q tt (set_info k (mkStack (stack (info k s)) (sp (info k s)) (nrofPages (info k s)) true) s).
Proof.
  unfold acquireStack. wp_simpl. destruct (slock (info k s)); [|by wp_simpl; naive_solver].
  unfold wp, fault. naive_solver.
Qed.
Lemma wp_readAt v off s Q :
  wp (readAt v off) s Q <-> exists p x, pmap s !! v = Some p /\ pmem s !! (p + off) = Some x /\ Q x s.
Proof.
  unfold readAt. wp_simpl. destruct (pmap s !! v) as [p|]; simpl; [|naive_solver].
  split; [intros (a & H & ?); by exists p, a|intros (p' & x & [= <-] & ? & ?); eauto].
Qed.
Lemma wp_writeAt v off x s Q :
  wp (writeAt v off x) s Q <-> exists p, pmap s !! v = Some p /\
    Q tt (set_pmem (<[p + off := u64 x]> (pmem s)) s).
Proof. unfold writeAt. wp_simpl. split; intros (p & ? & ?); exists p; by wp_simpl. Qed.

Lemma set_info_twice k i j s : set_info k i (set_info k j s) = set_info k i s.
Proof. by destruct k. Qed.
Lemma set_info_pmem k i m s : set_info k i (set_pmem m s) = set_pmem m (set_info k i s).
Proof. by destruct k. Qed.
Lemma set_info_pmap k i m s : set_info k i (set_pmap m s) = set_pmap m (set_info k i s).
Proof. by destruct k. Qed.

(** An update of the counters of [k] alone. *)
Lemma frame_info k s v n b :
  (forall k' P, k' <> k -> stack_page k' s = Some P -> exhausted v = false ->
     pmap s !! stack (info k s) <> Some P) ->
  stack_frame k s (set_info k (mkStack (stack (info k s)) v n b) s).
Proof.
  intros H. split.
  - intros. by apply info_set_ne.
  - by rewrite info_set.
  - intros. by rewrite pmap_info.
  - intros k' P Hne HP. unfold stack_page. rewrite info_set, pmap_info. simpl.
    destruct (exhausted v) eqn:Ev; [done|eauto].
  - intros. by rewrite pmem_info.
Qed.
End stacks.

Ltac psteps := repeat (progress (unfold upd_sp, add_pages, releaseStack, mmMapPage, mmGetPageEntry;
  wp_simpl; rewrite ?info_set, ?info_pmem, ?info_pmap, ?pmem_info, ?pmap_info,
    ?set_info_pmem, ?set_info_pmap, ?set_info_twice; simpl)).

Section stack_operations.
Context (below : stk -> Z) (k : stk) (s : phys) (ls : stk -> list Z) (HI : phys_inv below s ls).

Lemma stack_page_set v n b :
  stack_page k (set_info k (mkStack (stack (info k s)) v n b) s) =
  if exhausted v then None else pmap s !! stack (info k s).
Proof. unfold stack_page. by rewrite info_set, pmap_info. Qed.

Lemma pop_frame v n b :
  stack_page k s <> None \/ exhausted v = true ->
  stack_frame k s (set_info k (mkStack (stack (info k s)) v n b) s).
Proof.
  intros Hp. apply frame_info. intros k' P Hne HP Hv E. apply Hne, (pi_apart _ _ _ HI _ _ P HP).
  destruct Hp as [Hp|]; [|congruence]. unfold stack_page in *. destruct (exhausted (sp (info k s))); done.
Qed.

(** The end of a pop that leaves the list [l]. *)
Lemma pop_done (r x v n : Z) l :
  r = x -> stack_page k s <> None \/ exhausted v = true ->
  stack_rep below k (set_info k (mkStack (stack (info k s)) v n false) s) l ->
  (r = x /\ phys_inv below (set_info k (mkStack (stack (info k s)) v n false) s) (upd_list ls k l)) /\
  stack_frame k s (set_info k (mkStack (stack (info k s)) v n false) s) /\
  forall k' P, stack_page k' (set_info k (mkStack (stack (info k s)) v n false) s) = Some P ->
    stack_page k' s = Some P.
Proof.
  intros Hr Hv Hl. pose proof (pop_frame v n false Hv) as HF.
  split_and!; [done|by eapply (phys_inv_frame below)|done|]. intros k' P.
  destruct (decide (k' = k)) as [->|Hne]; [|by rewrite (frame_page below k k' s _ ls HI HF)].
  rewrite stack_page_set. destruct (exhausted v) eqn:Ev; [done|]. destruct Hv as [Hv|]; [|congruence]. unfold stack_page in *.
  by destruct (exhausted (sp (info k s))).
Qed.

(** The end of a pop of a stack page: the one below is mapped, and is full. *)
Lemma pop_below (r x z n : Z) :
  r = x -> n = below k ->
  let s' := set_pmap (<[stack (info k s) := z]> (pmap s)) (set_info k (mkStack (stack (info k s)) (PAGE_STACK_LENGTH - 1) n false) s) in
  (r = x /\ phys_inv below s' (upd_list ls k [])) /\ stack_frame k s s' /\
  forall k' P, stack_page k' s' = Some P -> stack_page k' s = Some P.
Proof.
  intros Hr Hn s'. assert (Hnone : stack_page k s' = None) by (unfold s', stack_page; rewrite info_pmap, info_set; done).
  assert (HF : stack_frame k s s').
  { split.
    - intros k' Hne. unfold s'. rewrite info_pmap. by apply info_set_ne.
    - unfold s'. by rewrite info_pmap, info_set.
    - intros a Ha. unfold s'. simpl. by rewrite lookup_insert_ne.
    - intros k' P _ _. by rewrite Hnone.
    - intros k' P y _ _ _. unfold s'. simpl. by rewrite pmem_info. }
  split_and!; [done| |done|].
  - eapply (phys_inv_frame below); [done|done|]. unfold stack_rep. rewrite Hnone. unfold s'. rewrite info_pmap, info_set. simpl. split_and!; [done|lia|done|done].
  - intros k' P. destruct (decide (k' = k)) as [->|Hne]; [by rewrite Hnone|by rewrite (frame_page below k k' s _ ls HI HF)].
Qed.

Lemma popPage_spec :
  wp (popPage k) s (fun r s' =>
    match ls k with
    | [] => r = 0 /\ phys_inv below s' (upd_list ls k [])
    | x :: l => r = x /\ phys_inv below s' (upd_list ls k l)
    end /\ stack_frame k s s' /\
    forall k' P, stack_page k' s' = Some P -> stack_page k' s = Some P).
Proof.
  pose proof (pi_below _ _ _ HI k) as Hbel. destruct (pi_rep _ _ _ HI k) as (Hlock & Hn & Hrep).
  unfold popPage. wp_simpl. apply wp_acquireStack. split; [done|]. wp_simpl. rewrite info_set. simpl.
  destruct (stack_page k s) as [P|] eqn:EP.
  - destruct Hrep as (es & El & Hsp & Hes & [z Hz] & HP & Hent).
    assert (Hpm : pmap s !! stack (info k s) = Some P).
    { unfold stack_page in EP. by case_match. }
    destruct es as [|x es _] using rev_ind.
    + simpl in *. rewrite Hsp, El in *. cbn [length] in Hn. simpl. psteps. rewrite Hpm. simpl.
      apply wp_readAt. exists P, z. rewrite pmap_info, pmem_info. split_and!; [done|done|].
      rewrite wp_if. destruct (Z.eqb_spec z 0) as [->|Hz0]; cbn [negb].
      * psteps. apply pop_done; [done|by right|].
        unfold stack_rep. rewrite stack_page_set, info_set. simpl. split; [done|]. split; [rewrite uwrap_small; lia|done].
      * apply wp_bind, wp_readAt. exists P, z. rewrite pmap_info, pmem_info. split_and!; [done|done|].
        psteps. apply pop_below; [done|]. rewrite uwrap_small; lia.
    + rewrite length_app in Hsp, Hes. simpl in Hsp, Hes. rewrite Hsp.
      change (PAGE_STACK_LENGTH - 1) with 510.
      rewrite (proj2 (andb_true_iff _ _)) by (split; [apply Z.leb_le|apply Z.ltb_lt]; lia).
      apply wp_bind, wp_readAt. exists P, x. rewrite pmap_info, pmem_info. split_and!; [done| |].
      { replace (Z.of_nat (length es + 1) - 1) with (Z.of_nat (length es)) by lia.
        apply Hent. rewrite lookup_app_r by lia. by rewrite Nat.sub_diag. }
      psteps. rewrite El, rev_unit. simpl.
      apply pop_done; [done|left; by rewrite EP|].
      unfold stack_rep. rewrite stack_page_set, info_set, pmem_info. simpl.
      rewrite Hn, El, rev_unit. simpl. split; [done|]. rewrite length_app, length_rev. simpl.
      split; [rewrite uwrap_small; lia|].
      assert (Hv : exhausted (Z.of_nat (length es + 1) - 1 - 1) = false) by (apply orb_false_iff; rewrite !Z.eqb_neq; lia). rewrite Hv, Hpm.
      exists es. split_and!; [done|lia|lia|by eexists|done|].
      intros i y Hy. apply Hent. by rewrite lookup_app_l by (by eapply lookup_lt_Some).
  - destruct Hrep as [Hsp El]. rewrite El in *. apply orb_true_iff in Hsp. rewrite !Z.eqb_eq in Hsp.
    destruct Hsp as [Hsp|Hsp]; rewrite Hsp; simpl; psteps.
    all: apply pop_done; [done|by right|]; unfold stack_rep; rewrite stack_page_set, info_set; simpl; by rewrite Hn.
Qed.


(** The list after a push: the first page of a stack holds the stack. *)
Definition pushed (l : list Z) (page : Z) : list Z :=
  match l with [] => [Z.lor (page_of page) 1] | _ => page :: l end.

Lemma frame_push v n P x y :
  stack_page k s = Some P -> 0 <= x < PAGE_SIZE ->
  stack_frame k s (set_pmem (<[P + x := y]> (pmem s))
    (set_info k (mkStack (stack (info k s)) v n false) s)).
Proof.
  intros HP Hx. destruct (pop_frame v n false) as [F1 F2 F3 F4 F5]; [left; by rewrite HP|].
  split; rewrite ?info_pmem; try done.
  - intros k' Q z Hne HQ Hz. simpl. rewrite lookup_insert_ne; [done|].
    assert (P <> Q) by (intros ->; by apply Hne, (pi_apart _ _ _ HI k' k Q)).
    apply aligned_apart; [by eapply (page_aligned below)|by eapply (page_aligned below)|done..].
Qed.

Lemma frame_first P v n y :
  (forall k' Q, stack_page k' s = Some Q -> Q <> P) -> P mod PAGE_SIZE = 0 ->
  stack_frame k s (set_pmem (<[P + 0 := y]> (pmem s)) (set_pmap (<[stack (info k s) := P]> (pmap s))
    (set_info k (mkStack (stack (info k s)) v n false) s))).
Proof.
  intros Hf HP. split; rewrite ?info_pmem, ?info_pmap, ?info_set; try done.
  - intros k' Hne. rewrite ?info_pmem, ?info_pmap. by apply info_set_ne.
  - intros a Ha. simpl. by rewrite lookup_insert_ne.
  - intros k' Q Hne HQ. unfold stack_page. rewrite info_pmem, info_pmap, info_set. simpl.
    rewrite lookup_insert_eq. destruct (exhausted v); [done|].
    intros [= ->]. by eapply Hf.
  - intros k' Q x Hne HQ Hx. simpl. rewrite lookup_insert_ne; [done|].
    apply aligned_apart; [done|by eapply (page_aligned below)|intros ->; by eapply Hf|done..].
Qed.

(** The end of a push. *)
Lemma push_done page s' :
  stack_frame k s s' -> stack_rep below k s' (pushed (ls k) page) ->
  (forall P, stack_page k s' = Some P -> stack_page k s = Some P \/ ls k = [] /\ P = page_of page) ->
  phys_inv below s' (upd_list ls k (pushed (ls k) page)) /\
  forall k' P, stack_page k' s' = Some P ->
    stack_page k' s = Some P \/ ls k = [] /\ P = page_of page.
Proof.
  intros HF Hl Hp. split; [by eapply (phys_inv_frame below)|]. intros k' P.
  destruct (decide (k' = k)) as [->|Hne]; [apply Hp|].
  rewrite (frame_page below k k' s _ ls HI HF) by done. by left.
Qed.

Lemma pushPage_spec page :
  0 <= page < 2 ^ 64 -> (length (ls k) <= 510)%nat ->
  (ls k = [] -> forall k' P, stack_page k' s = Some P -> P <> page_of page) ->
  wp (pushPage k page) s (fun _ s' =>
    phys_inv below s' (upd_list ls k (pushed (ls k) page)) /\
    forall k' P, stack_page k' s' = Some P ->
      stack_page k' s = Some P \/ ls k = [] /\ P = page_of page).
Proof.
  intros Hpg Hlen Hfr. pose proof (pi_below _ _ _ HI k) as Hbel. destruct (pi_rep _ _ _ HI k) as (Hlock & Hn & Hrep).
  unfold pushPage. wp_simpl. apply wp_acquireStack. split; [done|]. psteps.
  rewrite wp_if. change (PAGE_STACK_LENGTH - 1) with 510.
  destruct (stack_page k s) as [P|] eqn:EP.
  - destruct Hrep as (es & El & Hsp & Hes & Hz & HP & Hent).
    assert (Hpm : pmap s !! stack (info k s) = Some P).
    { unfold stack_page in EP. by case_match. }
    assert (length (ls k) = S (length es)) as Ell by (rewrite El, length_app, length_rev; simpl; lia).
    rewrite (proj2 (andb_true_iff _ _)) by (split; [apply Z.leb_le|apply Z.ltb_lt]; lia).
    psteps. apply wp_writeAt. rewrite pmap_info. exists P. split; [done|]. psteps.
    apply push_done.
    + apply frame_push; [done|unfold PAGE_SIZE; lia].
    + unfold stack_rep, stack_page. rewrite info_pmem, info_set. simpl. rewrite pmap_info.
      assert (Hv : exhausted (sp (info k s) + 1) = false) by (apply orb_false_iff; rewrite !Z.eqb_neq; lia). rewrite Hv, Hpm.
      assert (pushed (ls k) page = page :: ls k) as -> by (by destruct (ls k)).
      split; [done|]. simpl. split; [rewrite uwrap_small; lia|].
      exists (es ++ [page]). rewrite El, rev_unit, length_app. simpl.
      split_and!; [done|lia|lia| |done|].
      * rewrite lookup_insert_ne by lia. done.
      * intros i x Hx. destruct (decide (i = length es)) as [->|Hi].
        -- rewrite lookup_app_r, Nat.sub_diag in Hx by lia. injection Hx as <-.
           replace (sp (info k s) + 1) with (Z.of_nat (length es)) by lia.
           rewrite lookup_insert_eq, uwrap_small by lia. done.
        -- pose proof (lookup_lt_Some _ _ _ Hx) as Hlt. rewrite length_app in Hlt. simpl in Hlt.
           rewrite lookup_insert_ne by lia. apply Hent. by rewrite lookup_app_l in Hx by lia.
    + intros P'. rewrite EP. unfold stack_page. rewrite info_pmem, info_set. simpl. rewrite pmap_info.
      case_match; [done|]. rewrite Hpm. intros HP'. by left.
  - destruct Hrep as [Hsp El]. apply orb_true_iff in Hsp. rewrite !Z.eqb_eq in Hsp.
    assert (Hsp' : (-1 <=? sp (info k s)) && (sp (info k s) <? 510) = false).
    { apply andb_false_iff. rewrite Z.leb_gt, Z.ltb_ge. lia. }
    rewrite Hsp'. apply wp_bind.
    apply (wp_mono _ _ (fun old s1 => s1 = set_info k (mkStack (stack (info k s)) (sp (info k s)) (u64 (nrofPages (info k s) + 1)) true) s)).
    { rewrite wp_if. by destruct (negb _); psteps. }
    intros old s1 ->. psteps. apply wp_writeAt. simpl.
    rewrite lookup_insert_eq. eexists. split; [done|]. psteps.
    fold (page_of page). apply push_done.
    + apply frame_first; [|apply page_of_aligned]. by apply Hfr.
    + unfold stack_rep, stack_page. rewrite info_pmem, info_pmap, info_set. simpl.
      rewrite lookup_insert_eq, El. simpl. split; [done|]. split; [rewrite Hn, El, uwrap_small; simpl; lia|].
      exists []. split_and!; [done|done|simpl; lia|rewrite lookup_insert_eq; by eexists|apply page_of_aligned|].
      intros i x Hx. by rewrite lookup_nil in Hx.
    + intros P'. unfold stack_page. rewrite info_pmem, info_pmap, info_set. simpl.
      rewrite lookup_insert_eq. intros [= <-]. by right.
Qed.
End stack_operations.

(** ** Splitting large pages, and allocation *)

(** The list after [n] pushes of consecutive pages. *)
Fixpoint push_all (n : nat) (l : list Z) (page : Z) : list Z :=
  match n with
  | O => l
  | S n => push_all n (pushed l page) (u64 (page + PAGE_SIZE))
  end.

(** No stack lives in the page that would hold the next stack. *)
Definition no_stack_in (s : phys) (page : Z) : Prop :=
  forall k P, stack_page k s = Some P -> P <> page_of page.

Section allocation.
Context (below : stk -> Z).
Lemma phys_inv_ext s ls ls' : phys_inv below s ls -> (forall k, ls k = ls' k) -> phys_inv below s ls'.
Proof. intros [H1 H2 H3 H4] E. split; [done|done| |done]. intros k. rewrite <- E. apply H3. Qed.

Lemma stack_length s ls k : phys_inv below s ls -> (length (ls k) <= 511)%nat.
Proof.
  intros HI. destruct (pi_rep _ _ _ HI k) as (_ & _ & H). case_match.
  - destruct H as (es & -> & _ & ? & _). rewrite length_app, length_rev. simpl. lia.
  - destruct H as [_ ->]. simpl. lia.
Qed.

Lemma pushed_length l page : length (pushed l page) = S (length l).
Proof. by destruct l. Qed.
Lemma pushed_ne l page : pushed l page <> [].
Proof. by destruct l. Qed.

Lemma pushPages_spec n k s ls page :
  phys_inv below s ls -> 0 <= page < 2 ^ 64 -> (length (ls k) + n <= 511)%nat ->
  (ls k = [] -> no_stack_in s page) ->
  wp (pushPages n k page) s (fun _ s' => phys_inv below s' (upd_list ls k (push_all n (ls k) page))).
Proof.
  revert s ls page. induction n as [|n IH]; intros s ls page HI Hpg Hlen Hfr; simpl.
  - wp_simpl. eapply phys_inv_ext; [exact HI|]. intros k'. unfold upd_list. by case_decide; subst.
  - apply wp_bind. wp_use (pushPage_spec below k s ls HI page Hpg); [lia|done|].
    intros _ s1 [HI1 _].
    wp_use (IH s1 _ (u64 (page + PAGE_SIZE)) HI1 (uwrap_range 64 _ ltac:(lia)));
      rewrite ?upd_list_eq, ?pushed_length; [lia|by intros ?%pushed_ne|].
    intros _ s2 HI2. eapply phys_inv_ext; [exact HI2|]. intros k'. unfold upd_list. by case_decide.
Qed.

(** The allocator's first choice among its stacks, and its lists afterwards. *)
Definition take_from (k : stk) (ls : stk -> list Z) : option (Z * (stk -> list Z)) :=
  match ls k with [] => None | x :: l => Some (x, upd_list ls k l) end.
Definition split_from (large small : stk) (ls : stk -> list Z) : option (Z * (stk -> list Z)) :=
  '(x, ls') ← take_from large ls;
  Some (x, upd_list ls' small (push_all 511 (ls small) (u64 (x + PAGE_SIZE)))).
Definition alloc_from (ls : stk -> list Z) : option (Z * (stk -> list Z)) :=
  match take_from SmallPages ls with
  | Some r => Some r
  | None =>
    match take_from SmallCleanPages ls with
    | Some r => Some r
    | None =>
      match split_from LargePages SmallPages ls with
      | Some r => Some r
      | None => split_from LargeCleanPages SmallCleanPages ls
      end
    end
  end.

(** What an allocation that refines [o] does. *)
Definition allocates (o : option (Z * (stk -> list Z))) (s : phys) (ls : stk -> list Z) (r : Z) (s' : phys) : Prop :=
  (forall k P, stack_page k s' = Some P -> stack_page k s = Some P) /\
  match o with
  | Some (x, ls') => r = x /\ phys_inv below s' ls'
  | None => r = 0 /\ phys_inv below s' ls
  end.

Lemma popPage_take k s ls :
  phys_inv below s ls -> wp (popPage k) s (allocates (take_from k ls) s ls).
Proof.
  intros HI. wp_use (popPage_spec below k s ls HI). intros r s' (H1 & _ & H2). split; [done|].
  unfold take_from. destruct (ls k) eqn:E; [|done]. destruct H1 as [-> H1]. split; [done|].
  eapply phys_inv_ext; [exact H1|]. intros k'. unfold upd_list. by case_decide; subst.
Qed.

Lemma splitLargePage_take large small s ls :
  phys_inv below s ls -> large <> small -> ls small = [] -> (forall x, x ∈ ls large -> x <> 0) ->
  (forall x l, ls large = x :: l -> no_stack_in s (u64 (x + PAGE_SIZE))) ->
  wp (splitLargePage large small) s (fun r s' =>
    match split_from large small ls with
    | Some (x, ls') => r = x /\ x <> 0 /\ phys_inv below s' ls'
    | None => allocates None s ls r s'
    end).
Proof.
  intros HI Hne Hs Hnz Hfr. unfold splitLargePage. apply wp_bind.
  wp_use (popPage_take large s ls HI). intros r s1 [Hpg H1].
  unfold split_from, take_from in *.
  destruct (ls large) as [|x l] eqn:El; cbn [mbind option_bind].
  - destruct H1 as [-> H1]. by apply wp_ret.
  - destruct H1 as [-> H1]. assert (x <> 0) as Hx by (apply Hnz; left).
    destruct (Z.eqb_spec x 0); [done|]. change (Z.to_nat _) with 511%nat.
    assert (upd_list ls large l small = []) as E by (by rewrite upd_list_ne).
    pose proof (pushPages_spec 511 small s1 _ (u64 (x + PAGE_SIZE)) H1 (uwrap_range 64 _ ltac:(lia))) as Hp.
    rewrite E, Hs in *. apply wp_bind. wp_use Hp; [cbn [length]; lia| |].
    + intros _ k P HP. eapply Hfr; [done|]. by apply Hpg.
    + intros _ s2 H2. wp_simpl. by split_and!.
Qed.
End allocation.

(** Page addresses below the mask are their own page. *)
Lemma page_of_small p : 0 <= p < 2 ^ 48 -> p mod PAGE_SIZE = 0 -> page_of p = p.
Proof.
  intros Hp Ha. unfold page_of. change 0x0000FFFFFFFFF000 with (Z.land (2 ^ 64 - 2 ^ 12) (Z.ones 48)).
  rewrite Z.land_assoc, Z.land_ones, land_high_mask by lia.
  unfold PAGE_SIZE in Ha. change (2 ^ 12) with 4096. rewrite Ha, Z.sub_0_r. apply Z.mod_small. lia.
Qed.

Lemma page_of_lor_1 p : page_of (Z.lor p 1) = page_of p.
Proof. unfold page_of. rewrite Z.land_lor_distr_l. change (Z.land 1 _) with 0. apply Z.lor_0_r. Qed.

(** [n] consecutive pages from [p] on. *)
Definition pages_from (p n : Z) : list Z := (fun i => p + PAGE_SIZE * i) <$> seqZ 0 n.

Lemma pages_from_S p n : 0 <= n -> pages_from p (n + 1) = p :: pages_from (p + PAGE_SIZE) n.
Proof.
  intros Hn. unfold pages_from. rewrite seqZ_cons by lia. simpl. f_equal; [lia|].
  replace (Z.pred (n + 1)) with n by lia. change (Z.succ 0) with (1 + 0). rewrite <- fmap_add_seqZ, <- list_fmap_compose.
  apply list_fmap_ext. intros i x _. simpl. lia.
Qed.

Lemma push_all_pages n l p :
  0 <= p -> p mod PAGE_SIZE = 0 -> p + PAGE_SIZE * Z.of_nat n < 2 ^ 48 ->
  page_of <$> push_all n l p ≡ₚ (page_of <$> l) ++ pages_from p (Z.of_nat n).
Proof.
  revert l p. induction n as [|n IH]; intros l p Hp Ha Hn; cbn [push_all].
  { by rewrite app_nil_r. }
  replace (Z.of_nat (S n)) with (Z.of_nat n + 1) in * by lia. unfold PAGE_SIZE in *.
  rewrite uwrap_small by lia. rewrite IH; [|lia|dlia|lia].
  rewrite (pages_from_S p) by lia. unfold PAGE_SIZE. rewrite <- Permutation_middle.
  rewrite app_comm_cons. f_equiv. destruct l as [|x l]; cbn [pushed].
  - by rewrite fmap_cons, page_of_lor_1, !page_of_small by (unfold PAGE_SIZE; rewrite ?page_of_small; unfold PAGE_SIZE; done || lia).
  - by rewrite fmap_cons, page_of_small by (unfold PAGE_SIZE; done || lia).
Qed.

(** ** The properties *)

(** C36: [allocPhysPage] takes the page on top of the stack of free pages, else
    of the stack of clean pages; only when both give none does it take a large
    page, keep its first small page and put the other 511 on the stack.  It
    returns 0 exactly when all four stacks give none, and always leaves four
    well-formed stacks behind.  Stacks may have any number of stack pages; the
    pages that a stack gives are those of its topmost stack page and that page
    itself, for the code forgets a full one ([popPage_full_loses]).  No page is 0,
    and the first page that a split puts on the empty small stack is not a page
    that another stack lives in. *)
Theorem allocPhysPage_correct below s ls :
  phys_inv below s ls -> (forall k x, x ∈ ls k -> x <> 0) ->
  (forall k x l, ls k = x :: l -> k = LargePages \/ k = LargeCleanPages ->
    no_stack_in s (u64 (x + PAGE_SIZE))) ->
  wp allocPhysPage s (fun r s' =>
    match alloc_from ls with
    | Some (x, ls') => r = x /\ phys_inv below s' ls'
    | None => r = 0 /\ phys_inv below s' ls
    end).
Proof.
  intros HI Hnz Hfr. unfold allocPhysPage, alloc_from. apply wp_bind.
  wp_use (popPage_take below SmallPages s ls HI). intros r s1 [Hp1 H1]. unfold take_from at 1 in H1.
  unfold take_from at 1. destruct (ls SmallPages) as [|x l] eqn:E1.
  2:{ destruct H1 as [-> H1]. destruct (Z.eqb_spec x 0) as [Ex|]; [|done].
      destruct (Hnz SmallPages x); [rewrite E1; left|done]. }
  destruct H1 as [-> H1]. simpl (0 =? 0). cbv iota. apply wp_bind.
  wp_use (popPage_take below SmallCleanPages s1 ls H1). intros r s2 [Hp2 H2]. unfold take_from at 1 in H2.
  unfold take_from at 1. destruct (ls SmallCleanPages) as [|x l] eqn:E2.
  2:{ destruct H2 as [-> H2]. destruct (Z.eqb_spec x 0) as [Ex|]; [|done].
      destruct (Hnz SmallCleanPages x); [rewrite E2; left|done]. }
  destruct H2 as [-> H2]. simpl (0 =? 0). cbv iota. apply wp_bind.
  wp_use (splitLargePage_take below LargePages SmallPages s2 ls H2); [done|done|apply Hnz| |].
  { intros x l E k P HP. eapply (Hfr _ _ _ E); [by left|]. by apply Hp1, Hp2. }
  intros r s3 H3. destruct (split_from LargePages SmallPages ls) as [[x ls']|].
  { destruct H3 as (-> & Hx & H3). by destruct (Z.eqb_spec x 0). }
  destruct H3 as (Hp3 & -> & H3). simpl (0 =? 0). cbv iota.
  wp_use (splitLargePage_take below LargeCleanPages SmallCleanPages s3 ls H3); [done|done|apply Hnz| |].
  { intros x l E k P HP. eapply (Hfr _ _ _ E); [by right|]. by apply Hp1, Hp2, Hp3. }
  intros r s4 H4. destruct (split_from LargeCleanPages SmallCleanPages ls) as [[x ls']|].
  - by destruct H4 as (-> & _ & H4).
  - by destruct H4 as (_ & -> & H4).
Qed.

(** Splitting a large page loses no page and hands none out twice: the
    page that is returned and the 511 pushed ones are exactly the 512 small
    pages of the large one. *)
Theorem splitLargePage_partition below s ls x l large small :
  phys_inv below s ls -> large <> small -> ls small = [] -> ls large = x :: l ->
  (forall y, y ∈ ls large -> y <> 0) ->
  no_stack_in s (u64 (x + PAGE_SIZE)) ->
  0 <= x -> x mod PAGE_SIZE = 0 -> x + LARGEPAGE_SIZE < 2 ^ 48 ->
  wp (splitLargePage large small) s (fun r s' => exists ls', phys_inv below s' ls' /\
    r = x /\ ls' large = l /\ page_of <$> r :: ls' small ≡ₚ pages_from x 512).
Proof.
  intros HI Hne Hs Hl Hnz Hfr Hx Ha Hb. wp_use (splitLargePage_take below large small s ls HI Hne Hs Hnz).
  { intros y l' E. by rewrite Hl in E; injection E as -> ->. }
  intros r s'. unfold split_from, take_from. rewrite Hl. cbn [mbind option_bind].
  intros (-> & _ & H). eexists. split; [exact H|]. split; [done|].
  rewrite upd_list_eq, (upd_list_ne _ small large), upd_list_eq by done. split; [done|].
  unfold LARGEPAGE_SIZE, PAGE_SIZE in *. rewrite Hs, fmap_cons, push_all_pages; unfold PAGE_SIZE in *;
    rewrite ?uwrap_small by lia; [|lia|dlia|lia].
  rewrite page_of_small by (unfold PAGE_SIZE; done || lia). change 512 with (511 + 1).
  by rewrite (pages_from_S x 511).
Qed.

(** A freed page is the next one to be allocated, as long as its stack has
    room left. *)
Theorem deallocPhysPage_allocPhysPage below s ls page :
  phys_inv below s ls -> 0 < page < 2 ^ 64 -> (0 < length (ls SmallPages) <= 510)%nat ->
  wp (deallocPhysPage page;; allocPhysPage) s (fun r s' => r = page /\ phys_inv below s' ls).
Proof.
  intros HI Hp Hl. apply wp_bind. unfold deallocPhysPage.
  wp_use (pushPage_spec below SmallPages s ls HI page); [lia|lia|by intros E; rewrite E in Hl; simpl in Hl; lia|].
  intros _ s1 [HI1 _]. unfold allocPhysPage. apply wp_bind.
  wp_use (popPage_take below SmallPages s1 _ HI1). intros r s2 [_ H]. unfold take_from in H.
  rewrite upd_list_eq in H. destruct (ls SmallPages) as [|x l] eqn:E; [simpl in Hl; lia|].
  destruct H as [-> H2]. destruct (Z.eqb_spec page 0); [lia|]. wp_simpl. split; [done|].
  eapply phys_inv_ext; [exact H2|]. intros k. unfold upd_list. by case_decide; subst.
Qed.

(** A pop at an index that is neither on the page nor its end. *)
Lemma popPage_out k s :
  slock (info k s) = false -> sp (info k s) = PAGE_STACK_LENGTH - 1 \/ sp (info k s) = -2 ->
  wp (popPage k) s (fun r s' => r = 0 /\
    s' = set_info k (mkStack (stack (info k s)) (-2) (nrofPages (info k s)) false) s).
Proof.
  intros Hl Hsp. unfold popPage. wp_simpl. apply wp_acquireStack. split; [done|].
  psteps. destruct Hsp as [-> | ->]; by psteps.
Qed.

(** A stack page that is full, with 511 entries, is lost: [popPage] does
    not accept its top index, returns 0 and marks the stack empty, so that the
    next pop returns 0 as well, although the counter still counts all pages. *)
Theorem popPage_full_loses k s :
  slock (info k s) = false -> sp (info k s) = PAGE_STACK_LENGTH - 1 ->
  wp (popPage k;; popPage k) s (fun r s' =>
    r = 0 /\ sp (info k s') = -2 /\ nrofPages (info k s') = nrofPages (info k s) /\ pmem s' = pmem s).
Proof.
  intros Hl Hsp. apply wp_bind. wp_use (popPage_out k s Hl); [by left|]. intros _ s1 [_ ->].
  wp_use (popPage_out k); rewrite ?info_set; [done|by right|].
  intros r s2 [-> ->]. by rewrite info_set, !pmem_info.
Qed.

(** ** Witnesses *)

(** One free large page, at 2 MiB, that holds its own stack, on top of a full
    stack page at 16 MiB. *)
Definition one_large : phys :=
  mkPhys {[ 0x200000 := 0x1000000 ]} {[ 0x9000 := 0x200000 ]} (mkStack 0x8000 (-2) 0 false)
    (mkStack 0x9000 (-1) 513 false) (mkStack 0xA000 (-2) 0 false) (mkStack 0xB000 (-2) 0 false) 0 0 0.
Definition one_large_lists (k : stk) : list Z :=
  match k with LargePages => [0x200001] | _ => [] end.
Definition one_large_below (k : stk) : Z := match k with LargePages => 512 | _ => 0 end.

Section witnesses.
Lemma one_large_page k P : stack_page k one_large = Some P -> k = LargePages /\ P = 0x200000.
Proof. destruct k; vm_compute; try done. by intros [= <-]. Qed.

Lemma one_large_inv : phys_inv one_large_below one_large one_large_lists.
Proof.
  split.
  - by intros [] [].
  - intros k k' P [-> _]%one_large_page [-> _]%one_large_page. done.
  - intros []; split_and!; try done. exists []. split_and!; try done. simpl. lia.
  - intros []; done.
Qed.

Lemma allocPhysPage_correct_witness :
  wp allocPhysPage one_large (fun r s' =>
    match alloc_from one_large_lists with
    | Some (x, ls') => r = x /\ phys_inv one_large_below s' ls'
    | None => r = 0 /\ phys_inv one_large_below s' one_large_lists
    end).
Proof.
  apply (allocPhysPage_correct one_large_below one_large one_large_lists one_large_inv).
  - intros [] x; simpl; rewrite ?elem_of_cons; set_solver.
  - intros k x l E _ k' P [_ ->]%one_large_page. destruct k; simplify_eq/=. by vm_compute.
Defined.

(** A large page that is not itself a stack page is what gets split. *)
Definition two_large : phys :=
  mkPhys (<[0x200008 := 0x400000]> {[ 0x200000 := 0 ]}) {[ 0x9000 := 0x200000 ]} (mkStack 0x8000 (-2) 0 false)
    (mkStack 0x9000 0 2 false) (mkStack 0xA000 (-2) 0 false) (mkStack 0xB000 (-2) 0 false) 0 0 0.
Definition two_large_lists (k : stk) : list Z :=
  match k with LargePages => [0x400000; 0x200001] | _ => [] end.

Lemma two_large_page k P : stack_page k two_large = Some P -> k = LargePages /\ P = 0x200000.
Proof. destruct k; vm_compute; try done. by intros [= <-]. Qed.
Lemma two_large_inv : phys_inv (fun _ => 0) two_large two_large_lists.
Proof.
  split.
  - by intros [] [].
  - intros k k' P [-> _]%two_large_page [-> _]%two_large_page. done.
  - intros []; split_and!; try done. exists [0x400000]. split_and!; try done; [simpl; lia|].
    intros [|i] x; simpl; [by intros [= <-]|done].
  - intros []; done.
Qed.

Lemma splitLargePage_partition_witness :
  wp (splitLargePage LargePages SmallPages) two_large (fun r s' => exists ls', phys_inv (fun _ => 0) s' ls' /\
    r = 0x400000 /\ ls' LargePages = [0x200001] /\ page_of <$> r :: ls' SmallPages ≡ₚ pages_from 0x400000 512).
Proof.
  apply (splitLargePage_partition (fun _ => 0) two_large two_large_lists 0x400000 [0x200001] LargePages SmallPages two_large_inv);
    try done.
  - intros y. simpl. rewrite !elem_of_cons. set_solver.
  - intros k' P [_ ->]%two_large_page. by vm_compute.
Defined.

(** One free small page besides the page of the stack. *)
Definition two_small : phys :=
  mkPhys (<[0x5008 := 0x6000]> {[ 0x5000 := 0 ]}) {[ 0x8000 := 0x5000 ]} (mkStack 0x8000 0 2 false)
    (mkStack 0x9000 (-2) 0 false) (mkStack 0xA000 (-2) 0 false) (mkStack 0xB000 (-2) 0 false) 0 0 0.
Definition two_small_lists (k : stk) : list Z :=
  match k with SmallPages => [0x6000; 0x5001] | _ => [] end.

Lemma two_small_page k P : stack_page k two_small = Some P -> k = SmallPages /\ P = 0x5000.
Proof. destruct k; vm_compute; try done. by intros [= <-]. Qed.
Lemma two_small_inv : phys_inv (fun _ => 0) two_small two_small_lists.
Proof.
  split.
  - by intros [] [].
  - intros k k' P [-> _]%two_small_page [-> _]%two_small_page. done.
  - intros []; split_and!; try done. exists [0x6000]. split_and!; try done; [simpl; lia|].
    intros [|i] x; simpl; [by intros [= <-]|done].
  - intros []; done.
Qed.

Lemma deallocPhysPage_allocPhysPage_witness :
  wp (deallocPhysPage 0x7000;; allocPhysPage) two_small (fun r s' =>
    r = 0x7000 /\ phys_inv (fun _ => 0) s' two_small_lists).
Proof. apply (deallocPhysPage_allocPhysPage (fun _ => 0) two_small two_small_lists 0x7000 two_small_inv); simpl; lia. Defined.

Lemma popPage_full_loses_witness :
  let s := set_info SmallPages (mkStack 0x8000 510 512 false) two_small in
  wp (popPage SmallPages;; popPage SmallPages) s (fun r s' =>
    r = 0 /\ sp (info SmallPages s') = -2 /\ nrofPages (info SmallPages s') = 512 /\ pmem s' = pmem s).
Proof. intros s. apply (popPage_full_loses SmallPages s); reflexivity. Defined.
End witnesses.
