(* ===== verification/LowMem.v ===== *)
(** * Low memory: [kernel/mm/lowmem.c]

    The first 16 MiB of physical memory are handed out page by page from a
    bitmap of 16-bit segments, in which a set bit is a free page. *)

From S2P Require Import Prelude Word Heap PhysPaging.

Definition BITS_PER_SEG : Z := 16.
Definition NROF_SEGS : Z := LOWMEM_SIZE / PAGE_SIZE / BITS_PER_SEG.

(** [bitmap]: a list of [NROF_SEGS] 16-bit words; an index out of range is
    not an access of the bitmap. *)
Notation lowmem := (list Z).

Definition getSeg (i : Z) : M lowmem Z := deref (fun b => b !! Z.to_nat i).
Definition setSeg (i v : Z) : M lowmem unit := fun b =>
  if (0 <=? i) && (i <? Z.of_nat (length b)) then Done (tt, <[Z.to_nat i := u16 v]> b) else Fault.
Definition atomicXchg16 (i v : Z) : M lowmem Z :=
  old ← getSeg i; setSeg i v;; mret old.
Definition atomicOr16 (i v : Z) : M lowmem unit :=
  old ← getSeg i; setSeg i (Z.lor old v).

(** The inner loop of [allocLowPhysPages]: [k] candidates from bit [i] on. *)
Fixpoint findRun (k : nat) (i val bitmask : Z) : option Z :=
  match k with
  | O => None
  | S k =>
    if Z.land (Z.shiftr val i) bitmask =? bitmask then Some i
    else findRun k (i + 1) val bitmask
  end.

(** The outer loop: [k] segments from [curSeg] on. *)
Fixpoint allocSegs (k : nat) (curSeg nrofPages bitmask : Z) : M lowmem Z :=
  match k with
  | O => mret 0
  | S k =>
    val ← atomicXchg16 curSeg 0;
    match findRun (Z.to_nat (BITS_PER_SEG - nrofPages + 1)) 0 val bitmask with
    | Some i =>
      setSeg curSeg (Z.land val (Z.lnot (Z.shiftl bitmask i)));;
      mret ((curSeg * BITS_PER_SEG + i) * PAGE_SIZE)
    | None =>
      setSeg curSeg val;;
      allocSegs k (curSeg + 1) nrofPages bitmask
    end
  end.

Definition allocLowPhysPages (nrofPages : Z) : M lowmem Z :=
  if nrofPages >? BITS_PER_SEG then mret 0
  else allocSegs (Z.to_nat NROF_SEGS) 0 nrofPages (u16 (Z.shiftl 1 nrofPages - 1)).

(** The loop of [deallocLowPhysPages]; every turn raises [i]. *)
Fixpoint deallocLoop (fuel : nat) (i seg bit nrofPages : Z) : M lowmem unit :=
  match fuel with
  | O => nofuel
  | S fuel =>
    if i <? nrofPages then
      if (bit =? 0) && (nrofPages >=? BITS_PER_SEG) then
        setSeg seg (2 ^ 16 - 1);;
        deallocLoop fuel (u16 (i + BITS_PER_SEG)) (u16 (seg + 1)) bit nrofPages
      else
        atomicOr16 seg (Z.shiftl 1 bit);;
        if bit + 1 =? BITS_PER_SEG then
          deallocLoop fuel (u16 (i + 1)) (u16 (seg + 1)) 0 nrofPages
        else deallocLoop fuel (u16 (i + 1)) seg (bit + 1) nrofPages
    else mret tt
  end.

Definition deallocLowPhysPages (startPage nrofPages : Z) : M lowmem unit :=
  let page := s32 (startPage / PAGE_SIZE) in
  deallocLoop (S (Z.to_nat nrofPages)) 0 (u16 (page / BITS_PER_SEG)) (page mod BITS_PER_SEG) nrofPages.

(** ** Free pages *)

Definition wf_lowmem (b : lowmem) : Prop :=
  length b = Z.to_nat NROF_SEGS /\ forall i v, b !! i = Some v -> 0 <= v < 2 ^ 16.

(** Page number [p] is free. *)
Definition page_free (b : lowmem) (p : Z) : bool :=
  Z.testbit (default 0 (b !! Z.to_nat (p / BITS_PER_SEG))) (p mod BITS_PER_SEG).

(** The pages [p .. p + n - 1] lie in one segment and are free. *)
Definition run_free (b : lowmem) (p n : Z) : Prop :=
  0 <= p < NROF_SEGS * BITS_PER_SEG /\ p mod BITS_PER_SEG + n <= BITS_PER_SEG /\
  forall q, p <= q < p + n -> page_free b q = true.

Definition within (p n q : Z) : bool := (p <=? q) && (q <? p + n).

Section bits.
Lemma mask_run val i n :
  0 <= i -> 0 <= n ->
  (Z.land (Z.shiftr val i) (Z.ones n) =? Z.ones n) = true <->
  forall j, i <= j < i + n -> Z.testbit val j = true.
Proof.
  intros Hi Hn. rewrite Z.eqb_eq. split.
  - intros E j Hj. assert (H : Z.testbit (Z.land (Z.shiftr val i) (Z.ones n)) (j - i) = true).
    { rewrite E. apply Z.ones_spec_low. lia. }
    rewrite Z.land_spec, Z.shiftr_spec in H by lia. apply andb_prop in H as [H _].
    by replace (j - i + i) with j in H by lia.
  - intros H. apply Z.bits_inj'. intros j Hj. rewrite Z.land_spec, Z.shiftr_spec by lia.
    destruct (Z.lt_ge_cases j n).
    + rewrite Z.ones_spec_low by lia. rewrite H by lia. done.
    + rewrite Z.ones_spec_high by lia. by rewrite andb_false_r.
Qed.

Lemma clear_run val i n j :
  0 <= i -> 0 <= n -> 0 <= j ->
  Z.testbit (Z.land val (Z.lnot (Z.shiftl (Z.ones n) i))) j = Z.testbit val j && negb (within i n j).
Proof.
  intros Hi Hn Hj. rewrite Z.land_spec, Z.lnot_spec, Z.shiftl_spec by lia. do 2 f_equal.
  unfold within. destruct (Z.leb_spec i j); simpl.
  - destruct (Z.ltb_spec j (i + n)); [apply Z.ones_spec_low|apply Z.ones_spec_high]; lia.
  - apply Z.testbit_neg_r. lia.
Qed.

Lemma clear_range val m w : 0 <= w -> 0 <= val < 2 ^ w -> 0 <= Z.land val m < 2 ^ w.
Proof.
  intros Hw [H1 H2]. split; [apply Z.land_nonneg; by left|].
  rewrite <- (Z.mod_small val (2 ^ w)), <- Z.land_ones, <- Z.land_assoc, (Z.land_comm _ m) by lia.
  rewrite Z.land_assoc, Z.land_ones by lia. apply Z.mod_pos_bound. lia.
Qed.

Lemma bitmask_ones n : 0 <= n <= 16 -> u16 (Z.shiftl 1 n - 1) = Z.ones n.
Proof.
  intros. rewrite Z.shiftl_1_l, Z.ones_equiv, uwrap_small; [lia|].
  assert (2 ^ n <= 2 ^ 16) by (apply Z.pow_le_mono_r; lia).
  assert (0 < 2 ^ n) by (apply Z.pow_pos_nonneg; lia). lia.
Qed.

Lemma findRun_spec k i val n :
  0 <= i -> 0 <= n ->
  match findRun k i val (Z.ones n) with
  | Some r => i <= r < i + Z.of_nat k /\ forall j, r <= j < r + n -> Z.testbit val j = true
  | None => forall r, i <= r < i + Z.of_nat k -> exists j, r <= j < r + n /\ Z.testbit val j = false
  end.
Proof.
  intros Hi Hn. revert i Hi. induction k as [|k IH]; intros i Hi; simpl; [intros; lia|].
  destruct (_ =? _) eqn:E.
  - split; [lia|]. by apply mask_run.
  - specialize (IH (i + 1) ltac:(lia)). case_match.
    + destruct IH. split; [lia|done].
    + intros r Hr. destruct (Z.eq_dec r i) as [->|]; [|apply IH; lia].
      apply not_true_iff_false in E. rewrite mask_run in E by done.
      destruct (decide (Exists (fun j => Z.testbit val j = false) (seqZ i n))) as [Hx|Hx].
      * apply Exists_exists in Hx as (j & Hj%elem_of_seqZ & ?). by exists j.
      * destruct E. intros j Hj. apply not_false_iff_true. intros Hf. apply Hx, Exists_exists.
        exists j. by rewrite elem_of_seqZ.
Qed.
End bits.

Section segments.
Lemma wp_getSeg i b Q :
  wp (getSeg i) b Q <-> exists v, b !! Z.to_nat i = Some v /\ Q v b.
Proof. apply wp_deref. Qed.
Lemma wp_setSeg i v b Q :
  0 <= i < Z.of_nat (length b) -> Q tt (<[Z.to_nat i := u16 v]> b) -> wp (setSeg i v) b Q.
Proof.
  intros Hi HQ. unfold wp, setSeg.
  by rewrite (proj2 (andb_true_iff _ _)) by (split; [apply Z.leb_le|apply Z.ltb_lt]; lia).
Qed.
Lemma wp_xchg i b v Q :
  0 <= i -> b !! Z.to_nat i = Some v -> Q v (<[Z.to_nat i := 0]> b) -> wp (atomicXchg16 i 0) b Q.
Proof.
  intros Hi Hv HQ. unfold atomicXchg16. apply wp_bind, wp_getSeg. exists v. split; [done|].
  apply wp_bind, wp_setSeg; [apply lookup_lt_Some in Hv; lia|done].
Qed.

Lemma wf_lookup b i : wf_lowmem b -> 0 <= i < NROF_SEGS -> exists v, b !! Z.to_nat i = Some v /\ 0 <= v < 2 ^ 16.
Proof.
  intros [Hl Hv] Hi. destruct (lookup_lt_is_Some_2 b (Z.to_nat i)) as [v E]; [rewrite Hl; lia|].
  exists v. eauto.
Qed.

Lemma wf_insert b i v : wf_lowmem b -> 0 <= v < 2 ^ 16 -> wf_lowmem (<[i := v]> b).
Proof.
  intros [Hl Hb] Hv. split; [by rewrite length_insert|]. intros j x.
  intros [(-> & -> & _)|[_ Hx]]%list_lookup_insert_Some; [done|eauto].
Qed.

Lemma page_free_insert b i v p :
  0 <= i < Z.of_nat (length b) -> 0 <= p ->
  page_free (<[Z.to_nat i := v]> b) p =
  if p / BITS_PER_SEG =? i then Z.testbit v (p mod BITS_PER_SEG) else page_free b p.
Proof.
  intros Hi Hp. unfold page_free. assert (0 <= p / BITS_PER_SEG) by (apply Z.div_pos; unfold BITS_PER_SEG; lia).
  destruct (Z.eqb_spec (p / BITS_PER_SEG) i) as [->|Hne].
  - by rewrite list_lookup_insert_eq by lia.
  - by rewrite list_lookup_insert_ne by lia.
Qed.

Lemma seg_split p : p = p / 16 * 16 + p mod 16 /\ 0 <= p mod 16 < 16.
Proof. dlia. Qed.

Lemma run_in_seg b seg val n i :
  0 <= seg < NROF_SEGS -> b !! Z.to_nat seg = Some val ->
  0 <= i -> 1 <= n -> i + n <= 16 ->
  run_free b (seg * 16 + i) n <-> forall j, i <= j < i + n -> Z.testbit val j = true.
Proof.
  unfold run_free, page_free, BITS_PER_SEG. change NROF_SEGS with 256. intros Hs Hv Hi Hn Hin. split.
  - intros (_ & _ & H) j Hj. specialize (H (seg * 16 + j) ltac:(lia)).
    replace ((seg * 16 + j) / 16) with seg in H by dlia. rewrite Hv in H. simpl in H.
    by replace ((seg * 16 + j) mod 16) with j in H by dlia.
  - intros H. split_and!; [lia|lia|dlia|]. intros q Hq.
    replace (q / 16) with seg by dlia. rewrite Hv. simpl. apply H. dlia.
Qed.

Lemma allocSegs_spec k seg n b :
  wf_lowmem b -> 1 <= n <= 16 -> 0 <= seg -> seg + Z.of_nat k = NROF_SEGS ->
  wp (allocSegs k seg n (Z.ones n)) b (fun r b' =>
    (exists p, r = p * PAGE_SIZE /\ run_free b p n /\ wf_lowmem b' /\
      forall q, 0 <= q -> page_free b' q = page_free b q && negb (within p n q)) \/
    (r = 0 /\ b' = b /\ forall p, seg * BITS_PER_SEG <= p -> ~ run_free b p n)).
Proof.
  intros Hb Hn. revert seg. induction k as [|k IH]; intros seg Hs Hk; simpl.
  - apply wp_ret. right. split_and!; [done|done|]. intros p Hp (H & _). unfold BITS_PER_SEG in *. lia.
  - destruct (wf_lookup b seg Hb ltac:(lia)) as (val & Hval & Hr).
    pose proof (lookup_lt_Some _ _ _ Hval) as Hlt.
    apply wp_bind. apply (wp_xchg seg b val); [done..|].
    pose proof (findRun_spec (Z.to_nat (BITS_PER_SEG - n + 1)) 0 val n ltac:(lia) ltac:(lia)) as Hf.
    unfold BITS_PER_SEG in *. destruct (findRun _ _ _ _) as [i|].
    + destruct Hf as [Hi Hbits]. apply wp_bind, wp_setSeg; [rewrite length_insert; lia|].
      rewrite list_insert_insert_eq. apply wp_ret. left. exists (seg * 16 + i).
      assert (Hc : 0 <= Z.land val (Z.lnot (Z.shiftl (Z.ones n) i)) < 2 ^ 16) by (by apply clear_range).
      rewrite uwrap_small by done. split_and!; [done|by apply (run_in_seg b seg val); try lia|by apply wf_insert|].
      intros q Hq. rewrite page_free_insert by lia. destruct (seg_split q) as [Eq Hm]. unfold BITS_PER_SEG.
      destruct (Z.eqb_spec (q / 16) seg) as [E|Hne].
      * rewrite clear_run by lia. unfold page_free, BITS_PER_SEG. rewrite E, Hval. simpl. do 2 f_equal.
        unfold within. rewrite E in Eq. f_equal; [destruct (Z.leb_spec i (q mod 16)), (Z.leb_spec (seg * 16 + i) q)
          |destruct (Z.ltb_spec (q mod 16) (i + n)), (Z.ltb_spec q (seg * 16 + i + n))]; lia || done.
      * unfold within. destruct (Z.leb_spec (seg * 16 + i) q); simpl; [|by rewrite andb_true_r].
        destruct (Z.ltb_spec q (seg * 16 + i + n)); [|by rewrite andb_true_r]. dlia.
    + apply wp_bind, wp_setSeg; [rewrite length_insert; lia|].
      rewrite list_insert_insert_eq, uwrap_small by done. rewrite list_insert_id by done.
      wp_use (IH (seg + 1)); [lia|lia|]. intros r b' [H|(-> & -> & H)]; [by left|right].
      split_and!; [done|done|]. intros p Hp Hrun.
      destruct (Z.lt_ge_cases p ((seg + 1) * 16)) as [Hlt'|]; [|by eapply H].
      destruct (seg_split p) as [Ep Hm]. assert (p / 16 = seg) as E by dlia. rewrite E in Ep.
      pose proof Hrun as (_ & Hfit & _). unfold BITS_PER_SEG in Hfit. rewrite Ep in Hrun.
      rewrite (run_in_seg b seg val) in Hrun by lia || done.
      destruct (Hf (p mod 16)) as (j & Hj & Hj'); [lia|]. rewrite Hrun in Hj' by lia. done.
Qed.
End segments.

Section dealloc.
Lemma wp_or i x b v Q :
  0 <= i -> b !! Z.to_nat i = Some v -> 0 <= Z.lor v x < 2 ^ 16 ->
  Q tt (<[Z.to_nat i := Z.lor v x]> b) -> wp (atomicOr16 i x) b Q.
Proof.
  intros Hi Hv Hr HQ. unfold atomicOr16. apply wp_bind, wp_getSeg. exists v. split; [done|].
  apply wp_setSeg; [apply lookup_lt_Some in Hv; lia|]. by rewrite uwrap_small.
Qed.

Lemma lor_bit_range v bit : 0 <= v < 2 ^ 16 -> 0 <= bit < 16 -> 0 <= Z.lor v (Z.shiftl 1 bit) < 2 ^ 16.
Proof.
  intros Hv Hb. assert (0 <= Z.shiftl 1 bit) by (apply Z.shiftl_nonneg; lia).
  assert (H0 : 0 <= Z.lor v (Z.shiftl 1 bit)) by (apply Z.lor_nonneg; lia). split; [done|].
  destruct (Z.eq_dec (Z.lor v (Z.shiftl 1 bit)) 0) as [->|Hne]; [lia|].
  apply Z.log2_lt_pow2; [lia|]. rewrite Z.log2_lor, Z.log2_shiftl by lia.
  change (Z.log2 1) with 0. apply Z.max_lub_lt; [|lia].
  destruct (Z.eq_dec v 0) as [->|]; [done|]. apply Z.log2_lt_pow2; lia.
Qed.

Lemma lor_bit_test v bit j :
  0 <= bit -> 0 <= j -> Z.testbit (Z.lor v (Z.shiftl 1 bit)) j = Z.testbit v j || (j =? bit).
Proof.
  intros Hb Hj. rewrite Z.lor_spec, Z.shiftl_1_l, Z.pow2_bits_eqb, Z.eqb_sym by lia. done.
Qed.

(** Freeing one page. *)
Lemma free_page_wp seg bit b Q :
  wf_lowmem b -> 0 <= seg < NROF_SEGS -> 0 <= bit < 16 ->
  (forall b', wf_lowmem b' ->
    (forall q, 0 <= q -> page_free b' q = page_free b q || (q =? seg * 16 + bit)) -> Q tt b') ->
  wp (atomicOr16 seg (Z.shiftl 1 bit)) b Q.
Proof.
  intros Hb Hs Hbit HQ. destruct (wf_lookup b seg Hb Hs) as (v & Hv & Hr).
  pose proof (lookup_lt_Some _ _ _ Hv). pose proof (lor_bit_range v bit Hr Hbit).
  eapply wp_or; [lia|exact Hv|done|]. apply HQ; [by apply wf_insert|]. intros q Hq.
  rewrite page_free_insert by lia. destruct (seg_split q) as [Eq Hm]. unfold BITS_PER_SEG.
  destruct (Z.eqb_spec (q / 16) seg) as [E|Hne].
  - rewrite lor_bit_test by lia. unfold page_free, BITS_PER_SEG. rewrite E, Hv. simpl. f_equal.
    rewrite E in Eq. destruct (Z.eqb_spec (q mod 16) bit), (Z.eqb_spec q (seg * 16 + bit)); lia || done.
  - destruct (Z.eqb_spec q (seg * 16 + bit)); [|by rewrite orb_false_r]. dlia.
Qed.

Lemma deallocLoop_spec fuel i seg bit n b :
  wf_lowmem b -> 0 <= i <= n -> n < 16 -> (Z.to_nat (n - i) < fuel)%nat ->
  0 <= seg -> 0 <= bit < 16 -> seg * 16 + bit + (n - i) <= NROF_SEGS * 16 ->
  wp (deallocLoop fuel i seg bit n) b (fun _ b' => wf_lowmem b' /\
    forall q, 0 <= q -> page_free b' q = page_free b q || within (seg * 16 + bit) (n - i) q).
Proof.
  revert i seg bit b. induction fuel as [|fuel IH]; intros i seg bit b Hb Hi Hn Hf Hs Hbit Hend; [lia|].
  change NROF_SEGS with 256 in *. simpl. destruct (Z.ltb_spec i n).
  2:{ apply wp_ret. split; [done|]. intros q Hq. unfold within. replace (n - i) with 0 by lia.
      destruct (Z.leb_spec (seg * 16 + bit) q), (Z.ltb_spec q (seg * 16 + bit + 0)); simpl;
        try lia; by rewrite orb_false_r. }
  destruct (Z.geb_spec n BITS_PER_SEG) as [Hge|_]; [unfold BITS_PER_SEG in Hge; lia|].
  rewrite andb_false_r. apply wp_bind, free_page_wp; [done|change NROF_SEGS with 256; lia|done|].
  intros b1 Hb1 Hfree. rewrite (uwrap_small 16 (i + 1)) by lia.
  assert (Hstep : forall q, (q =? seg * 16 + bit) || within (seg * 16 + bit + 1) (n - (i + 1)) q =
    within (seg * 16 + bit) (n - i) q).
  { intros q. unfold within. destruct (Z.eqb_spec q (seg * 16 + bit)), (Z.leb_spec (seg * 16 + bit + 1) q),
      (Z.leb_spec (seg * 16 + bit) q), (Z.ltb_spec q (seg * 16 + bit + 1 + (n - (i + 1)))),
      (Z.ltb_spec q (seg * 16 + bit + (n - i))); simpl; lia || done. }
  unfold BITS_PER_SEG. destruct (Z.eqb_spec (bit + 1) 16) as [E|Hne].
  - rewrite uwrap_small by lia. wp_use (IH (i + 1) (seg + 1) 0 b1); try done; try lia.
    intros _ b2 [Hb2 H2]. split; [done|]. intros q Hq. rewrite H2, Hfree by done.
    rewrite <- orb_assoc, <- Hstep. do 3 f_equal. lia.
  - wp_use (IH (i + 1) seg (bit + 1) b1); try done; try lia.
    intros _ b2 [Hb2 H2]. split; [done|]. intros q Hq. rewrite H2, Hfree by done.
    rewrite <- orb_assoc, <- Hstep. do 3 f_equal. lia.
Qed.

Lemma wf_ext b b' :
  wf_lowmem b -> wf_lowmem b' -> (forall q, 0 <= q -> page_free b q = page_free b' q) -> b = b'.
Proof.
  intros Hb Hb' H. apply list_eq_same_length with (n := Z.to_nat NROF_SEGS); [by destruct Hb'|by destruct Hb|].
  intros i x y Hi Hx Hy. destruct Hb as [_ Hb], Hb' as [_ Hb'].
  specialize (Hb _ _ Hx). specialize (Hb' _ _ Hy). apply Z.bits_inj'. intros j Hj.
  destruct (Z.lt_ge_cases j 16).
  - specialize (H (Z.of_nat i * 16 + j) ltac:(lia)). unfold page_free, BITS_PER_SEG in H.
    replace ((Z.of_nat i * 16 + j) / 16) with (Z.of_nat i) in H by dlia.
    replace ((Z.of_nat i * 16 + j) mod 16) with j in H by dlia.
    by rewrite Nat2Z.id, Hx, Hy in H.
  - rewrite <- (Z.mod_small x (2 ^ 16)), <- (Z.mod_small y (2 ^ 16)) by lia.
    by rewrite !Z.mod_pow2_bits_high by lia.
Qed.
End dealloc.

(** ** The properties *)

(** [allocLowPhysPages] of 1 to 16 pages returns the address of that many
    consecutive free pages within one segment and takes exactly these out of
    the free ones; when no segment has such a run it returns 0 and leaves the
    bitmap alone. *)
Theorem allocLowPhysPages_correct b n :
  wf_lowmem b -> 1 <= n <= 16 ->
  wp (allocLowPhysPages n) b (fun r b' =>
    (exists p, r = p * PAGE_SIZE /\ run_free b p n /\ wf_lowmem b' /\
      forall q, 0 <= q -> page_free b' q = page_free b q && negb (within p n q)) \/
    (r = 0 /\ b' = b /\ forall p, ~ run_free b p n)).
Proof.
  intros Hb Hn. unfold allocLowPhysPages. rewrite bitmask_ones by lia.
  destruct (Z.gtb_spec n BITS_PER_SEG) as [Hgt|_]; [unfold BITS_PER_SEG in Hgt; lia|].
  wp_use (allocSegs_spec (Z.to_nat NROF_SEGS) 0 n b Hb Hn); [lia|done|].
  intros r b' [H|(? & ? & H)]; [by left|right]. split_and!; [done|done|].
  intros p Hrun. apply (H p); [|done]. destruct Hrun. lia.
Qed.

(** [deallocLowPhysPages] of fewer than 16 pages makes exactly these pages
    free, across segment borders too. *)
Theorem deallocLowPhysPages_correct b p n :
  wf_lowmem b -> 0 <= n < 16 -> 0 <= p -> p + n <= NROF_SEGS * BITS_PER_SEG ->
  wp (deallocLowPhysPages (p * PAGE_SIZE) n) b (fun _ b' => wf_lowmem b' /\
    forall q, 0 <= q -> page_free b' q = page_free b q || within p n q).
Proof.
  change (NROF_SEGS * BITS_PER_SEG) with 4096. intros Hb Hn Hp Hend. unfold deallocLowPhysPages.
  replace (p * PAGE_SIZE / PAGE_SIZE) with p by (unfold PAGE_SIZE; dlia).
  rewrite swrap_small by (unfold BITS_PER_SEG; lia). unfold BITS_PER_SEG.
  destruct (seg_split p) as [Ep Hm]. rewrite uwrap_small by dlia.
  assert (0 <= p / 16) by (apply Z.div_pos; lia).
  wp_use (deallocLoop_spec (S (Z.to_nat n)) 0 (p / 16) (p mod 16) n b Hb);
    try lia; [change NROF_SEGS with 256; lia|].
  intros _ b' [Hb' Hfree]. split; [done|]. intros q Hq. rewrite Hfree by done.
  rewrite <- Ep. by rewrite Z.sub_0_r.
Qed.

(** Giving back what was allocated restores the bitmap bit for bit. *)
Theorem lowmem_roundtrip b n :
  wf_lowmem b -> 1 <= n < 16 -> (exists p, run_free b p n) ->
  wp (r ← allocLowPhysPages n; deallocLowPhysPages r n) b (fun _ b' => b' = b).
Proof.
  intros Hb Hn [p0 Hp0]. apply wp_bind. unfold allocLowPhysPages. rewrite bitmask_ones by lia.
  destruct (Z.gtb_spec n BITS_PER_SEG) as [Hgt|_]; [unfold BITS_PER_SEG in Hgt; lia|].
  wp_use (allocSegs_spec (Z.to_nat NROF_SEGS) 0 n b Hb); [lia|lia|done|].
  intros r b1 [(p & -> & Hrun & Hb1 & H1)|(_ & _ & H)]; [|by destruct (H p0); [destruct Hp0; lia|]].
  destruct Hrun as (Hp & Hfit & Hall). change (NROF_SEGS * BITS_PER_SEG) with 4096 in Hp.
  unfold BITS_PER_SEG in Hfit. destruct (seg_split p) as [Ep Hm]. unfold deallocLowPhysPages.
  replace (p * PAGE_SIZE / PAGE_SIZE) with p by (unfold PAGE_SIZE; dlia).
  rewrite swrap_small by lia. unfold BITS_PER_SEG. rewrite uwrap_small by dlia.
  wp_use (deallocLoop_spec (S (Z.to_nat n)) 0 (p / 16) (p mod 16) n b1 Hb1);
    try (change NROF_SEGS with 256); try dlia.
  intros _ b2 [Hb2 H2]. apply wf_ext; [done..|]. intros q Hq.
  rewrite H2, H1, <- Ep, Z.sub_0_r by done.
  destruct (within p n q) eqn:E; simpl; [|by rewrite andb_true_r, orb_false_r].
  rewrite andb_false_r. symmetry. apply Hall. unfold within in E.
  apply andb_prop in E as [?%Z.leb_le ?%Z.ltb_lt]. lia.
Qed.

(** A range that starts a segment and ends inside another one is freed too
    far: the test for a whole segment looks at the number of pages of the call
    and not at the pages that are left.  Freeing 17 pages frees 32. *)
Theorem deallocLowPhysPages_frees_extra :
  wp (deallocLowPhysPages 0 17) (replicate 256 0) (fun _ b' =>
    page_free b' 31 = true /\ page_free b' 32 = false).
Proof. vm_compute. by split. Qed.

(** ** Witnesses *)

Section witnesses.
Definition low_demo : lowmem := <[3%nat := 0xFF0]> (replicate 256 0).

Lemma low_demo_wf : wf_lowmem low_demo.
Proof.
  apply (wf_insert (replicate 256 0) 3 0xFF0); [|done]. split; [done|].
  by intros i v [-> _]%lookup_replicate.
Qed.

Lemma low_demo_run : run_free low_demo 52 3.
Proof.
  split_and!; [done|done|done|]. intros q Hq.
  assert (q = 52 \/ q = 53 \/ q = 54) as [-> |[-> | ->]] by lia; done.
Qed.

Lemma allocLowPhysPages_correct_witness :
  wp (allocLowPhysPages 3) low_demo (fun r b' =>
    (exists p, r = p * PAGE_SIZE /\ run_free low_demo p 3 /\ wf_lowmem b' /\
      forall q, 0 <= q -> page_free b' q = page_free low_demo q && negb (within p 3 q)) \/
    (r = 0 /\ b' = low_demo /\ forall p, ~ run_free low_demo p 3)).
Proof. exact (allocLowPhysPages_correct low_demo 3 low_demo_wf ltac:(lia)). Defined.

Lemma deallocLowPhysPages_correct_witness :
  wp (deallocLowPhysPages (62 * PAGE_SIZE) 5) low_demo (fun _ b' => wf_lowmem b' /\
    forall q, 0 <= q -> page_free b' q = page_free low_demo q || within 62 5 q).
Proof. apply (deallocLowPhysPages_correct low_demo 62 5 low_demo_wf); by vm_compute. Defined.

Lemma lowmem_roundtrip_witness :
  wp (r ← allocLowPhysPages 3; deallocLowPhysPages r 3) low_demo (fun _ b' => b' = low_demo).
Proof.
  exact (lowmem_roundtrip low_demo 3 low_demo_wf ltac:(lia) (ex_intro _ 52 low_demo_run)).
Defined.
End witnesses.
