(* ===== verification/CString.v ===== *)
(** * C strings: [phlibc/src/string.c]

    Byte memory holds [char]s, which are signed on this target.  A read or
    write of an address that is not mapped is a fault; the loops over strings
    have fuel, since nothing but a zero byte ends them. *)

From S2P Require Import Prelude Word.

Definition bytes := gmap Z Z.
Notation s8 := (swrap 8).

Definition rd (a : Z) : M (gmap Z Z) Z := deref (fun m => m !! a).
Definition wr (a v : Z) : M (gmap Z Z) unit := fun m =>
  match m !! a with Some _ => Done (tt, <[a := v]> m) | None => Fault end.

(** [n] bytes one by one, and [n] words of eight bytes, as [memcpy] copies. *)
Fixpoint copyBytes (n : nat) (dest src : Z) : M (gmap Z Z) unit :=
  match n with
  | O => mret tt
  | S n => c ← rd src; wr dest c;; copyBytes n (dest + 1) (src + 1)
  end.
Fixpoint readWord8 (n : nat) (src : Z) : M (gmap Z Z) (list Z) :=
  match n with
  | O => mret []
  | S n => c ← rd src; l ← readWord8 n (src + 1); mret (c :: l)
  end.
Fixpoint writeWord8 (l : list Z) (dest : Z) : M (gmap Z Z) unit :=
  match l with
  | [] => mret tt
  | c :: l => wr dest c;; writeWord8 l (dest + 1)
  end.
Fixpoint copyWords (n : nat) (dest src : Z) : M (gmap Z Z) unit :=
  match n with
  | O => mret tt
  | S n => w ← readWord8 8 src; writeWord8 w dest;; copyWords n (dest + 8) (src + 8)
  end.

Definition memcpy (dest src n : Z) : M (gmap Z Z) Z :=
  (if negb (n mod 8 =? 0) then copyBytes (Z.to_nat n) dest src
   else copyWords (Z.to_nat (n / 8)) dest src);;
  mret dest.

Fixpoint memsetLoop (n : nat) (str c : Z) : M (gmap Z Z) unit :=
  match n with
  | O => mret tt
  | S n => wr str (s8 c);; memsetLoop n (str + 1) c
  end.
Definition memset (str c n : Z) : M (gmap Z Z) Z := memsetLoop (Z.to_nat n) str c;; mret str.

Fixpoint memcmpLoop (n : nat) (a b : Z) : M (gmap Z Z) Z :=
  match n with
  | O => mret 0
  | S n =>
    x ← rd a; y ← rd b;
    if negb (x - y =? 0) then mret (x - y) else memcmpLoop n (a + 1) (b + 1)
  end.
Definition memcmp (a b n : Z) : M (gmap Z Z) Z := memcmpLoop (Z.to_nat n) a b.

Fixpoint memchrLoop (n : nat) (s c : Z) : M (gmap Z Z) Z :=
  match n with
  | O => mret 0
  | S n => x ← rd s; if x =? c then mret s else memchrLoop n (s + 1) c
  end.
Definition memchr (s c n : Z) : M (gmap Z Z) Z := memchrLoop (Z.to_nat n) s c.

Fixpoint strlenFrom (fuel : nat) (str ret : Z) : M (gmap Z Z) Z :=
  match fuel with
  | O => nofuel
  | S fuel => c ← rd str; if c =? 0 then mret ret else strlenFrom fuel (str + 1) (ret + 1)
  end.
Definition strlen (fuel : nat) (str : Z) : M (gmap Z Z) Z := strlenFrom fuel str 0.

Fixpoint strcpyLoop (fuel : nat) (dest src : Z) : M (gmap Z Z) unit :=
  match fuel with
  | O => nofuel
  | S fuel => c ← rd src; wr dest c;; if c =? 0 then mret tt else strcpyLoop fuel (dest + 1) (src + 1)
  end.
Definition strcpy (fuel : nat) (dest src : Z) : M (gmap Z Z) Z := strcpyLoop fuel dest src;; mret dest.

Fixpoint strchr (fuel : nat) (s c : Z) : M (gmap Z Z) Z :=
  match fuel with
  | O => nofuel
  | S fuel => x ← rd s; if x =? 0 then mret 0 else if x =? c then mret s else strchr fuel (s + 1) c
  end.
Fixpoint strchrnul (fuel : nat) (s c : Z) : M (gmap Z Z) Z :=
  match fuel with
  | O => nofuel
  | S fuel => x ← rd s; if x =? 0 then mret s else if x =? c then mret s else strchrnul fuel (s + 1) c
  end.

Definition strcmp (fuel : nat) (s1 s2 : Z) : M (gmap Z Z) Z :=
  len ← strlen fuel s1;
  memcmp s1 s2 (s32 (len + 1)).

(** The inner loops of [strpbrk] and [strspn]: is [x] in [accept]? *)
Fixpoint accepts (fuel : nat) (x a : Z) : M (gmap Z Z) bool :=
  match fuel with
  | O => nofuel
  | S fuel => y ← rd a; if y =? 0 then mret false else if x =? y then mret true else accepts fuel x (a + 1)
  end.
Fixpoint strpbrk (fuel : nat) (s accept : Z) : M (gmap Z Z) Z :=
  match fuel with
  | O => nofuel
  | S f =>
    x ← rd s;
    if x =? 0 then mret 0
    else
      found ← accepts fuel x accept;
      if (found : bool) then mret s else strpbrk f (s + 1) accept
  end.

(** [strspn]: nothing in the loop changes [ret]. *)
Fixpoint strspnFrom (fuel : nat) (s accept ret : Z) : M (gmap Z Z) Z :=
  match fuel with
  | O => nofuel
  | S f =>
    x ← rd (s + ret);
    if x =? 0 then mret ret
    else
      found ← accepts fuel x accept;
      if (found : bool) then strspnFrom f s accept ret else mret ret
  end.
Definition strspn (fuel : nat) (s accept : Z) : M (gmap Z Z) Z := strspnFrom fuel s accept 0.

Fixpoint strstrFrom (fuel : nat) (str substr len pos : Z) : M (gmap Z Z) Z :=
  match fuel with
  | O => nofuel
  | S fuel =>
    x ← rd (str + pos);
    if x =? 0 then mret 0
    else
      e ← memcmp str substr len;
      if e =? 0 then mret (str + pos) else strstrFrom fuel str substr len (pos + 1)
  end.
Definition strstr (fuel : nat) (str substr : Z) : M (gmap Z Z) Z :=
  len ← strlen fuel substr;
  strstrFrom fuel str substr len 0.

(** [ctype.h] *)
Definition isdigit (c : Z) : bool := (48 <=? c) && (c <=? 57).
Definition isalpha (c : Z) : bool := ((65 <=? c) && (c <=? 90)) || ((97 <=? c) && (c <=? 122)).
Definition isalnum (c : Z) : bool := isdigit c || isalpha c.
Definition isxdigit (c : Z) : bool := isdigit c || ((65 <=? c) && (c <=? 70)) || ((97 <=? c) && (c <=? 102)).
Definition isspace (c : Z) : bool :=
  (c =? 32) || (c =? 9) || (c =? 13) || (c =? 10) || (c =? 11) || (c =? 12).
Definition iscntrl (c : Z) : bool := (c <? 0x20) && negb (c =? 0).
Definition isgraph (c : Z) : bool := (0x20 <? c) && (c <? 0x7F).
Definition islower (c : Z) : bool := (97 <=? c) && (c <=? 122).
Definition isupper (c : Z) : bool := (65 <=? c) && (c <=? 90).
Definition ispunct (c : Z) : bool := isgraph c && negb (isalnum c).
Definition isprint (c : Z) : bool := isgraph c || isspace c.
Definition toupper (c : Z) : Z := if (97 <=? c) && (c <=? 122) then c + (97 - 65) else c.
Definition tolower (c : Z) : Z := if (65 <=? c) && (c <=? 90) then c + (65 - 97) else c.

(** ** Strings in memory *)

(** The bytes [l] are at [a]. *)
Definition holds (m : gmap Z Z) (a : Z) (l : list Z) : Prop :=
  forall i c, l !! i = Some c -> m !! (a + Z.of_nat i) = Some c.
(** The string [l] is at [a]: no zero byte in it, and one behind it. *)
Definition cstr (m : gmap Z Z) (a : Z) (l : list Z) : Prop :=
  holds m a (l ++ [0]) /\ 0 ∉ l.
(** [n] mapped bytes at [a]. *)
Definition room (m : gmap Z Z) (a n : Z) : Prop :=
  forall x, a <= x < a + n -> is_Some (m !! x).

Section strings.
Lemma wp_rd a m Q : wp (rd a) m Q <-> exists c, m !! a = Some c /\ Q c m.
Proof. exact (wp_deref (fun m : gmap Z Z => m !! a) m Q). Qed.
Lemma wp_wr a v m (Q : unit -> gmap Z Z -> Prop) : is_Some (m !! a) -> Q tt (<[a := v]> m) -> wp (wr a v) m Q.
Proof. intros [x Hx] HQ. unfold wp, wr. by rewrite Hx. Qed.

Lemma holds_cons m a c l : holds m a (c :: l) <-> m !! a = Some c /\ holds m (a + 1) l.
Proof.
  split.
  - intros H. split; [specialize (H 0%nat c eq_refl); by rewrite Z.add_0_r in H|].
    intros i x Hx. specialize (H (S i) x Hx). by replace (a + 1 + Z.of_nat i) with (a + Z.of_nat (S i)) by lia.
  - intros [H1 H2] [|i] x Hx; [injection Hx as <-; by rewrite Z.add_0_r|].
    specialize (H2 i x Hx). by replace (a + Z.of_nat (S i)) with (a + 1 + Z.of_nat i) by lia.
Qed.

Lemma cstr_cons m a c l : cstr m a (c :: l) <-> m !! a = Some c /\ c <> 0 /\ cstr m (a + 1) l.
Proof.
  unfold cstr. cbn [app]. rewrite holds_cons, not_elem_of_cons. naive_solver.
Qed.
Lemma cstr_nil m a : cstr m a [] <-> m !! a = Some 0.
Proof.
  unfold cstr. cbn [app]. rewrite holds_cons. split; [naive_solver|]. intros H. split; [|set_solver].
  split; [done|]. intros i x Hx. by rewrite lookup_nil in Hx.
Qed.

Lemma room_S m a n : room m a (Z.of_nat (S n)) -> is_Some (m !! a) /\ room m (a + 1) (Z.of_nat n).
Proof. intros H. split; [apply H; lia|]. intros x Hx. apply H. lia. Qed.

(** What [memcpy] does to memory when the two ranges do not overlap. *)
Definition copied (m m' : gmap Z Z) (dest src n : Z) : Prop :=
  (forall i, 0 <= i < n -> m' !! (dest + i) = m !! (src + i)) /\
  (forall x, ~ dest <= x < dest + n -> m' !! x = m !! x).

Lemma copied_trans m m1 m2 dest src n k :
  0 <= n -> 0 <= k -> dest + (n + k) <= src \/ src + (n + k) <= dest ->
  copied m m1 dest src n -> copied m1 m2 (dest + n) (src + n) k -> copied m m2 dest src (n + k).
Proof.
  intros Hn Hk Hap [A1 A2] [B1 B2]. split.
  - intros i Hi. destruct (Z.lt_ge_cases i n).
    + rewrite B2 by lia. apply A1. lia.
    + specialize (B1 (i - n) ltac:(lia)). replace (dest + n + (i - n)) with (dest + i) in B1 by lia.
      rewrite B1, A2 by lia. f_equal. lia.
  - intros x Hx. rewrite B2, A2 by lia. done.
Qed.

Lemma copyBytes_spec n dest src m :
  room m src (Z.of_nat n) -> room m dest (Z.of_nat n) ->
  dest + Z.of_nat n <= src \/ src + Z.of_nat n <= dest ->
  wp (copyBytes n dest src) m (fun _ m' => copied m m' dest src (Z.of_nat n)).
Proof.
  revert dest src m. induction n as [|n IH]; intros dest src m Hs Hd Hap; cbn [copyBytes].
  { apply wp_ret. split; [intros; lia|done]. }
  destruct (room_S _ _ _ Hs) as [[c Hc] Hs'], (room_S _ _ _ Hd) as [Hd0 Hd'].
  apply wp_bind, wp_rd. exists c. split; [done|]. apply wp_bind, wp_wr; [done|].
  wp_use (IH (dest + 1) (src + 1) (<[dest := c]> m)); [| |lia|].
  - intros x Hx. rewrite lookup_insert_ne by lia. by apply Hs'.
  - intros x Hx. rewrite lookup_insert_ne by lia. by apply Hd'.
  - intros _ m' Hm'. replace (Z.of_nat (S n)) with (1 + Z.of_nat n) by lia.
    eapply copied_trans; [lia|lia|lia| |exact Hm']. split.
    + intros i Hi. replace i with 0 by lia. by rewrite !Z.add_0_r, lookup_insert_eq.
    + intros x Hx. apply lookup_insert_ne. lia.
Qed.

Lemma readWord8_spec n src m :
  room m src (Z.of_nat n) ->
  wp (readWord8 n src) m (fun l m' => m' = m /\ length l = n /\ holds m src l).
Proof.
  revert src. induction n as [|n IH]; intros src Hs; cbn [readWord8].
  { apply wp_ret. split_and!; [done|done|]. intros i c Hc. by rewrite lookup_nil in Hc. }
  destruct (room_S _ _ _ Hs) as [[c Hc] Hs'].
  apply wp_bind, wp_rd. exists c. split; [done|]. apply wp_bind. wp_use (IH (src + 1) Hs').
  intros l m' (-> & Hl & Hh). apply wp_ret. split_and!; [done|simpl; lia|]. by apply holds_cons.
Qed.

Lemma writeWord8_spec l dest m :
  room m dest (Z.of_nat (length l)) ->
  wp (writeWord8 l dest) m (fun _ m' => holds m' dest l /\
    forall x, ~ dest <= x < dest + Z.of_nat (length l) -> m' !! x = m !! x).
Proof.
  revert dest m. induction l as [|c l IH]; intros dest m Hd; cbn [writeWord8].
  { apply wp_ret. split; [intros i c Hc; by rewrite lookup_nil in Hc|done]. }
  destruct (room_S _ _ _ Hd) as [Hd0 Hd']. apply wp_bind, wp_wr; [done|].
  wp_use (IH (dest + 1) (<[dest := c]> m)).
  { intros x Hx. rewrite lookup_insert_ne by lia. by apply Hd'. }
  intros _ m' [H1 H2]. cbn [length]. split.
  - apply holds_cons. split; [|done]. rewrite H2 by lia. apply lookup_insert_eq.
  - intros x Hx. rewrite H2 by lia. apply lookup_insert_ne. lia.
Qed.

(** One unit of a copy. *)
Lemma copyUnit_spec k dest src m :
  room m src (Z.of_nat k) -> room m dest (Z.of_nat k) ->
  exists l m', readWord8 k src m = Done (l, m) /\ writeWord8 l dest m = Done (tt, m') /\ copied m m' dest src (Z.of_nat k).
Proof.
  intros Hs Hd. pose proof (readWord8_spec k src m Hs) as Hr. apply wp_done in Hr as (l & m0 & Hr & -> & Hl & Hh).
  pose proof (writeWord8_spec l dest m) as Hw. rewrite Hl in Hw. apply wp_done in Hw as ([] & m1 & Hw & Hd1 & Ho); [|done].
  exists l, m1. split_and!; [done|done|]. split; [|done].
  intros i Hi. destruct (lookup_lt_is_Some_2 l (Z.to_nat i)) as [c Hc]; [lia|].
  pose proof (Hd1 _ _ Hc) as E1. pose proof (Hh _ _ Hc) as E2. rewrite Z2Nat.id in E1, E2 by lia. congruence.
Qed.

Lemma copyWords8_spec n dest src m :
  let k := 8 * Z.of_nat n in
  room m src k -> room m dest k -> dest + k <= src \/ src + k <= dest ->
  wp (copyWords n dest src) m (fun _ m' => copied m m' dest src k).
Proof.
  revert dest src m. induction n as [|n IH]; intros dest src m k Hs Hd Hap; subst k; cbn [copyWords].
  { apply wp_ret. split; [intros; lia|done]. }
  destruct (copyUnit_spec 8 dest src m) as (l & m1 & Hr & Hw & Hc1); [intros x Hx; apply Hs; lia|intros x Hx; apply Hd; lia|].
  apply wp_bind. unfold wp at 1. rewrite Hr. apply wp_bind. unfold wp at 1. rewrite Hw.
  destruct Hc1 as [Hc1 Ho]. wp_use (IH (dest + 8) (src + 8) m1); [| |lia|].
  - intros x Hx. rewrite Ho by lia. apply Hs. lia.
  - intros x Hx. rewrite Ho by lia. apply Hd. lia.
  - intros _ m2 H2. replace (8 * Z.of_nat (S n)) with (8 + 8 * Z.of_nat n) by lia.
    by eapply copied_trans; [lia|lia|lia|split; [exact Hc1|exact Ho]|].
Qed.

Lemma strlenFrom_spec fuel l a m r :
  cstr m a l -> (length l < fuel)%nat ->
  wp (strlenFrom fuel a r) m (fun x m' => x = r + Z.of_nat (length l) /\ m' = m).
Proof.
  revert a r fuel. induction l as [|c l IH]; intros a r fuel Hs Hf; (destruct fuel; [lia|]); cbn [strlenFrom].
  - apply cstr_nil in Hs. apply wp_bind, wp_rd. exists 0. split; [done|]. simpl. apply wp_ret. split; [lia|done].
  - apply cstr_cons in Hs as (Hc & Hne & Hs). apply wp_bind, wp_rd. exists c. split; [done|].
    destruct (Z.eqb_spec c 0); [done|]. wp_use (IH (a + 1) (r + 1) fuel Hs); [simpl in Hf; lia|].
    intros x m' [-> ->]. split; [simpl; lia|done].
Qed.
End strings.

Section comparing.
Lemma strcpyLoop_spec fuel l dest src m :
  cstr m src l -> room m dest (Z.of_nat (length l) + 1) -> (length l < fuel)%nat ->
  dest + (Z.of_nat (length l) + 1) <= src \/ src + (Z.of_nat (length l) + 1) <= dest ->
  wp (strcpyLoop fuel dest src) m (fun _ m' => copied m m' dest src (Z.of_nat (length l) + 1)).
Proof.
  revert dest src m fuel. induction l as [|c l IH]; intros dest src m fuel Hs Hd Hf Hap;
    (destruct fuel; [lia|]); cbn [strcpyLoop]; simpl length in *.
  - apply cstr_nil in Hs. apply wp_bind, wp_rd. exists 0. split; [done|].
    apply wp_bind, wp_wr; [apply Hd; lia|]. simpl. apply wp_ret. split.
    + intros i Hi. replace i with 0 by lia. by rewrite !Z.add_0_r, lookup_insert_eq.
    + intros x Hx. apply lookup_insert_ne. lia.
  - apply cstr_cons in Hs as (Hc & Hne & Hs). apply wp_bind, wp_rd. exists c. split; [done|].
    apply wp_bind, wp_wr; [apply Hd; lia|]. destruct (Z.eqb_spec c 0); [done|].
    assert (Hs1 : cstr (<[dest := c]> m) (src + 1) l).
    { destruct Hs as [Hh H0]. split; [|done]. intros i x Hx.
      pose proof (lookup_lt_Some _ _ _ Hx) as Hlt. rewrite length_app in Hlt. simpl in Hlt.
      rewrite lookup_insert_ne by lia. by apply Hh. }
    wp_use (IH (dest + 1) (src + 1) (<[dest := c]> m) fuel Hs1); [|lia|lia|].
    + intros x Hx. destruct (decide (x = dest)); [lia|]. rewrite lookup_insert_ne by lia. apply Hd. lia.
    + intros _ m' Hm'. replace (Z.of_nat (S (length l)) + 1) with (1 + (Z.of_nat (length l) + 1)) by lia.
      eapply copied_trans; [lia|lia|lia| |exact Hm']. split.
      * intros i Hi. replace i with 0 by lia. by rewrite !Z.add_0_r, lookup_insert_eq.
      * intros x Hx. apply lookup_insert_ne. lia.
Qed.

(** Comparing one byte more than the first string is long. *)
Lemma memcmpLoop_strings l1 l2 a b m :
  cstr m a l1 -> cstr m b l2 ->
  wp (memcmpLoop (S (length l1)) a b) m (fun r m' => m' = m /\ (r = 0 <-> l1 = l2)).
Proof.
  revert l2 a b. induction l1 as [|x l1 IH]; intros [|y l2] a b H1 H2; cbn [length memcmpLoop].
  - apply cstr_nil in H1, H2. apply wp_bind, wp_rd. exists 0. split; [done|].
    apply wp_bind, wp_rd. exists 0. split; [done|]. simpl. by apply wp_ret.
  - apply cstr_nil in H1. apply cstr_cons in H2 as (H2 & Hy & _). apply wp_bind, wp_rd. exists 0. split; [done|].
    apply wp_bind, wp_rd. exists y. split; [done|]. destruct (Z.eqb_spec (0 - y) 0); [lia|]. simpl negb. cbv iota.
    apply wp_ret. split; [done|]. split; [lia|done].
  - apply cstr_nil in H2. apply cstr_cons in H1 as (H1 & Hx & _). apply wp_bind, wp_rd. exists x. split; [done|].
    apply wp_bind, wp_rd. exists 0. split; [done|]. destruct (Z.eqb_spec (x - 0) 0); [lia|]. simpl negb. cbv iota.
    apply wp_ret. split; [done|]. split; [lia|done].
  - apply cstr_cons in H1 as (H1 & Hx & H1'), H2 as (H2 & Hy & H2').
    apply wp_bind, wp_rd. exists x. split; [done|]. apply wp_bind, wp_rd. exists y. split; [done|].
    destruct (Z.eqb_spec (x - y) 0) as [E|E]; simpl negb; cbv iota.
    + wp_use (IH l2 (a + 1) (b + 1) H1' H2'). intros r m' [-> Hr]. split; [done|].
      assert (x = y) as -> by lia. rewrite Hr. split; [by intros ->|by intros [= ->]].
    + apply wp_ret. split; [done|]. split; [lia|]. intros [= -> ->]. lia.
Qed.

(** An accepted character is found, if the fuel lasts. *)
Lemma accepts_in fuel x a m l :
  cstr m a l -> x ∈ l -> accepts fuel x a m = NoFuel \/ accepts fuel x a m = Done (true, m).
Proof.
  revert a fuel. induction l as [|y l IH]; intros a fuel Hs Hx; [by apply elem_of_nil in Hx|].
  destruct fuel as [|fuel]; [by left|]. apply cstr_cons in Hs as (Hy & Hne & Hs).
  cbn [accepts]. unfold mbind, M_bind, rd, deref. rewrite Hy.
  destruct (Z.eqb_spec y 0); [done|]. destruct (Z.eqb_spec x y); [by right|].
  apply IH; [done|]. by apply elem_of_cons in Hx as [->|].
Qed.
End comparing.

Lemma holds_frame m m' a l :
  holds m a l -> (forall x, a <= x < a + Z.of_nat (length l) -> m' !! x = m !! x) -> holds m' a l.
Proof. intros Hh Hm i c Hc. pose proof (lookup_lt_Some _ _ _ Hc). rewrite Hm by lia. by apply Hh. Qed.
Lemma room_frame m m' a n : room m a n -> (forall x, a <= x < a + n -> m' !! x = m !! x) -> room m' a n.
Proof. intros Hr Hm x Hx. rewrite Hm by done. by apply Hr. Qed.

(** A copy of bytes that are known. *)
Lemma copied_holds m m' dst src l :
  copied m m' dst src (Z.of_nat (length l)) -> holds m src l -> holds m' dst l.
Proof. intros [Hc _] Hh i c Hi. rewrite Hc by (pose proof (lookup_lt_Some _ _ _ Hi); lia). by apply Hh. Qed.
Lemma holds_room m a l : holds m a l -> room m a (Z.of_nat (length l)).
Proof.
  intros Hh x Hx. destruct (lookup_lt_is_Some_2 l (Z.to_nat (x - a))) as [c Hc]; [lia|].
  specialize (Hh _ _ Hc). exists c. by replace (a + Z.of_nat (Z.to_nat (x - a))) with x in Hh by lia.
Qed.
Lemma holds_app m a l1 l2 : holds m a l1 -> holds m (a + Z.of_nat (length l1)) l2 -> holds m a (l1 ++ l2).
Proof.
  intros H1 H2 i c Hi. apply lookup_app_Some in Hi as [Hi|[Hl Hi]]; [by apply H1|].
  specialize (H2 _ _ Hi). by replace (a + Z.of_nat (length l1) + Z.of_nat (i - length l1)) with (a + Z.of_nat i) in H2 by lia.
Qed.
Lemma holds_prefix m a l n : holds m a l -> holds m a (take n l).
Proof. intros Hh i c Hi. apply lookup_take_Some in Hi as [Hi _]. by apply Hh. Qed.

(** ** The properties *)

Lemma memcpy_spec dest src n m :
  0 <= n -> room m src n -> room m dest n -> dest + n <= src \/ src + n <= dest ->
  wp (memcpy dest src n) m (fun r m' => r = dest /\ copied m m' dest src n).
Proof.
  intros Hn Hs Hd Hap. unfold memcpy. apply wp_bind.
  destruct (Z.eqb_spec (n mod 8) 0) as [E|E]; cbn [negb].
  - wp_use (copyWords8_spec (Z.to_nat (n / 8)) dest src m);
      replace (8 * Z.of_nat (Z.to_nat (n / 8))) with n by dlia; [done..|].
    intros _ m' Hm'. by apply wp_ret.
  - wp_use (copyBytes_spec (Z.to_nat n) dest src m); rewrite Z2Nat.id by done; [done..|].
    intros _ m' Hm'. by apply wp_ret.
Qed.

(** The first position of a character. *)
Fixpoint firstAt (c : Z) (l : list Z) : option nat :=
  match l with [] => None | x :: l => if x =? c then Some 0%nat else S <$> firstAt c l end.
Lemma memchrLoop_spec l s c m :
  holds m s l ->
  wp (memchrLoop (length l) s c) m (fun r m' => m' = m /\ r = match firstAt c l with Some i => s + Z.of_nat i | None => 0 end).
Proof.
  revert s. induction l as [|x l IH]; intros s Hh; [by apply wp_ret|]. apply holds_cons in Hh as [Hx Hh].
  cbn [memchrLoop length firstAt]. apply wp_bind, wp_rd. exists x. split; [done|].
  destruct (x =? c); [apply wp_ret; split; [done|lia]|]. wp_use (IH (s + 1) Hh).
  intros r m' (-> & ->). split; [done|]. destruct (firstAt c l); simpl; lia.
Qed.

(** [memcpy] of any length, by bytes or by words, leaves a copy of the
    source at the destination, touches nothing else, and returns the
    destination. *)
Theorem memcpy_correct dest src n m :
  0 <= n -> room m src n -> room m dest n -> dest + n <= src \/ src + n <= dest ->
  wp (memcpy dest src n) m (fun r m' => r = dest /\ copied m m' dest src n).
Proof. apply memcpy_spec. Qed.

(** [strcpy] copies a string with its terminating zero, so that the
    destination holds the same string, and writes nothing else. *)
Theorem strcpy_correct fuel l dest src m :
  cstr m src l -> room m dest (Z.of_nat (length l) + 1) -> (length l < fuel)%nat ->
  dest + (Z.of_nat (length l) + 1) <= src \/ src + (Z.of_nat (length l) + 1) <= dest ->
  wp (strcpy fuel dest src) m (fun r m' => r = dest /\ cstr m' dest l /\
    forall x, ~ dest <= x < dest + (Z.of_nat (length l) + 1) -> m' !! x = m !! x).
Proof.
  intros Hs Hd Hf Hap. unfold strcpy. apply wp_bind.
  wp_use (strcpyLoop_spec fuel l dest src m Hs Hd Hf Hap). intros _ m' [H1 H2]. apply wp_ret.
  split_and!; [done| |done]. destruct Hs as [Hh H0]. split; [|done]. intros i c Hc.
  pose proof (lookup_lt_Some _ _ _ Hc) as Hlt. rewrite length_app in Hlt. simpl in Hlt.
  rewrite H1 by lia. by apply Hh.
Qed.

(** [strcmp] of two strings ends and returns 0 exactly for equal ones. *)
Theorem strcmp_correct fuel l1 l2 s1 s2 m :
  cstr m s1 l1 -> cstr m s2 l2 -> (length l1 < fuel)%nat -> Z.of_nat (length l1) < 2 ^ 31 - 1 ->
  wp (strcmp fuel s1 s2) m (fun r m' => m' = m /\ (r = 0 <-> l1 = l2)).
Proof.
  intros H1 H2 Hf Hl. unfold strcmp. apply wp_bind.
  wp_use (strlenFrom_spec fuel l1 s1 m 0 H1 Hf). intros r m' [-> ->].
  unfold memcmp. rewrite swrap_small by lia.
  replace (Z.to_nat (0 + Z.of_nat (length l1) + 1)) with (S (length l1)) by lia.
  by apply memcmpLoop_strings.
Qed.

(** [strspn] never returns when the string starts with an accepted
    character: its loop does not advance, and no amount of fuel is enough. *)
Theorem strspn_diverges fuel s accept x l acc m :
  cstr m s (x :: l) -> cstr m accept acc -> x ∈ acc -> strspn fuel s accept m = NoFuel.
Proof.
  intros Hs Ha Hx. apply cstr_cons in Hs as (Hs & Hne & _). unfold strspn.
  induction fuel as [|fuel IH]; [done|]. cbn [strspnFrom]. unfold mbind, M_bind, rd, deref.
  rewrite Z.add_0_r, Hs. destruct (Z.eqb_spec x 0); [done|].
  destruct (accepts_in (S fuel) x accept m acc Ha Hx) as [-> | ->]; [done|exact IH].
Qed.

(** The case conversions go the wrong way: [toupper] of a lower-case
    letter and [tolower] of an upper-case one are no letters at all or letters
    of the same case, never the other case. *)
Theorem case_conversions_wrong c :
  (islower c = true -> isupper (toupper c) = false /\ toupper c = c + 32) /\
  (isupper c = true -> islower (tolower c) = false /\ tolower c = c - 32).
Proof.
  unfold islower, isupper, toupper, tolower. split; intros H; rewrite H;
    apply andb_prop in H as [H1%Z.leb_le H2%Z.leb_le]; (split; [|lia]).
  - destruct (Z.leb_spec 65 (c + (97 - 65))), (Z.leb_spec (c + (97 - 65)) 90); simpl; lia || done.
  - destruct (Z.leb_spec 97 (c + (65 - 97))), (Z.leb_spec (c + (65 - 97)) 122); simpl; lia || done.
Qed.

(** [strstr] compares at the start of the string in every turn: in
    ["ab"] it does not find ["b"]. *)
Theorem strstr_misses :
  let m := <[1 := 97]> (<[2 := 98]> (<[3 := 0]> (<[11 := 98]> (<[12 := 0]> (∅ : gmap Z Z))))) in
  cstr m 1 [97; 98] /\ cstr m 11 [98] /\ wp (strstr 10 1 11) m (fun r _ => r = 0).
Proof.
  split_and!; [rewrite !cstr_cons, cstr_nil|rewrite cstr_cons, cstr_nil|]; by vm_compute.
Qed.

(** ** Witnesses *)

Section witnesses.
(** ["ab"] at 1, ["ac"] at 11, and eight mapped bytes at 21. *)
Definition str_demo : gmap Z Z :=
  list_to_map [(1, 97); (2, 98); (3, 0); (11, 97); (12, 99); (13, 0);
    (21, 7); (22, 7); (23, 7); (24, 7)].

Lemma str_demo_ab : cstr str_demo 1 [97; 98].
Proof. rewrite !cstr_cons, cstr_nil. by vm_compute. Qed.
Lemma str_demo_ac : cstr str_demo 11 [97; 99].
Proof. rewrite !cstr_cons, cstr_nil. by vm_compute. Qed.
Lemma str_demo_room n : 0 <= n <= 3 -> room str_demo 21 n /\ room str_demo 1 n.
Proof.
  intros Hn. split; intros x Hx.
  - assert (x = 21 \/ x = 22 \/ x = 23) as [->|[->| ->]] by lia; by eexists.
  - assert (x = 1 \/ x = 2 \/ x = 3) as [->|[->| ->]] by lia; by eexists.
Qed.

Lemma memcpy_correct_witness :
  wp (memcpy 21 1 3) str_demo (fun r m' => r = 21 /\ copied str_demo m' 21 1 3).
Proof.
  apply (memcpy_correct 21 1 3 str_demo); [lia|apply str_demo_room; lia|apply str_demo_room; lia|lia].
Defined.

Lemma strcpy_correct_witness :
  wp (strcpy 5 21 1) str_demo (fun r m' => r = 21 /\ cstr m' 21 [97; 98] /\
    forall x, ~ 21 <= x < 21 + (Z.of_nat (length [97; 98]) + 1) -> m' !! x = str_demo !! x).
Proof.
  apply (strcpy_correct 5 [97; 98] 21 1 str_demo str_demo_ab); simpl; [apply str_demo_room; lia|lia|lia].
Defined.

Lemma strcmp_correct_witness :
  wp (strcmp 5 1 11) str_demo (fun r m' => m' = str_demo /\ (r = 0 <-> [97; 98] = [97; 99])).
Proof. apply (strcmp_correct 5 _ _ 1 11 str_demo str_demo_ab str_demo_ac); simpl; lia. Defined.

Lemma strspn_diverges_witness : strspn 1000 1 11 str_demo = NoFuel.
Proof. apply (strspn_diverges 1000 1 11 97 [98] [97; 99] str_demo str_demo_ab str_demo_ac). set_solver. Defined.
End witnesses.
