(* ===== verification/Creds.v ===== *)
(** * User and group ids: [kernel/sched/pgrp.c], the credentials

    [sysGetId], [sysSetId] and [sysSetReuid] on the credentials of a process.
    All ids are signed 32-bit integers. *)

From S2P Require Import Prelude Word Errno.


Inductive getid :=
| SYSGETID_PID | SYSGETID_PPID | SYSGETID_PGID | SYSGETID_SID
| SYSGETID_UID | SYSGETID_EUID | SYSGETID_GID | SYSGETID_EGID | GetidOther.
Inductive setid := SYSSETID_UID | SYSSETID_EUID | SYSSETID_GID | SYSSETID_EGID | SetidOther.

Record ProcessCred := mkCred {
  ruid : Z; euid : Z; suid : Z;
  rgid : Z; egid : Z; sgid : Z
}.

(** The fields of a process that these calls read. *)
Record ProcessIds := mkIds { pid : Z; ppid : Z; pgid : Z; sid : Z; cred : ProcessCred }.

(** [getProcFromPid]: the processes by id; [self] is the caller. *)
Definition sysGetId (procs : gmap Z ProcessIds) (self : ProcessIds) (id : Z) (which : getid) : Z :=
  match (if negb (id =? 0) then procs !! id else Some self) with
  | None => - ESRCH
  | Some proc =>
    match which with
    | SYSGETID_PID => pid proc
    | SYSGETID_PPID => ppid proc
    | SYSGETID_PGID => pgid proc
    | SYSGETID_SID => sid proc
    | SYSGETID_UID => ruid (cred proc)
    | SYSGETID_EUID => euid (cred proc)
    | SYSGETID_GID => rgid (cred proc)
    | SYSGETID_EGID => egid (cred proc)
    | GetidOther => - EINVAL
    end
  end.

Definition set_uids (r e s : Z) (c : ProcessCred) := mkCred r e s (rgid c) (egid c) (sgid c).
Definition set_gids (r e s : Z) (c : ProcessCred) := mkCred (ruid c) (euid c) (suid c) r e s.

(** The result and the new credentials. *)
Definition sysSetId (id : Z) (which : setid) (c : ProcessCred) : Z * ProcessCred :=
  if id <? 0 then (- EINVAL, c)
  else
    match which with
    | SYSSETID_UID =>
      if negb (euid c =? 0) then
        if (id =? ruid c) || (id =? suid c) then (0, set_uids (ruid c) id (suid c) c)
        else (- EPERM, c)
      else (0, set_uids id id id c)
    | SYSSETID_EUID =>
      if negb (euid c =? 0) && negb (id =? ruid c) && negb (id =? suid c) then (- EPERM, c)
      else (0, set_uids (ruid c) id (suid c) c)
    | SYSSETID_GID =>
      if negb (egid c =? 0) then
        if (id =? rgid c) || (id =? sgid c) then (0, set_gids (rgid c) id (sgid c) c)
        else (- EPERM, c)
      else (0, set_gids id id id c)
    | SYSSETID_EGID =>
      if negb (egid c =? 0) && negb (id =? rgid c) && negb (id =? sgid c) then (- EPERM, c)
      else (0, set_gids (rgid c) id (sgid c) c)
    | SetidOther => (- EINVAL, c)
    end.

(** Both halves of [sysSetReuid] have the same text for the user and the group
    ids: [r], [e] and [s] are the ids of the half, [nr] and [ne] the arguments.
    The result and the new real and effective ids. *)
Definition setReHalf (nr ne r e s : Z) : Z * Z * Z :=
  if negb (e =? 0) then
    let may := (ne >=? 0) && ((ne =? r) || (ne =? e) || (ne =? s)) in
    if negb may && (ne >=? 0) then (- EPERM, r, e)
    else
      if (nr >=? 0) && ((nr =? r) || (nr =? e)) then (0, nr, if may then ne else e)
      else if ne >=? 0 then (- EPERM, r, e)
      else (0, r, if may then ne else e)
  else (0, if nr >=? 0 then nr else r, if ne >=? 0 then ne else e).

Definition sysSetReuid (nruid neuid : Z) (which : bool) (c : ProcessCred) : Z * ProcessCred :=
  if which then
    let '(ret, r, e) := setReHalf nruid neuid (rgid c) (egid c) (sgid c) in (ret, set_gids r e (sgid c) c)
  else
    let '(ret, r, e) := setReHalf nruid neuid (ruid c) (euid c) (suid c) in (ret, set_uids r e (suid c) c).

(** ** Privileges *)

(** The system calls that change credentials, as steps of a process. *)
Inductive cred_step : ProcessCred -> ProcessCred -> Prop :=
| step_setid c id which : cred_step c (sysSetId id which c).2
| step_setreuid c r e which : cred_step c (sysSetReuid r e which c).2.

(** The user ids, and the group ids, that a process holds. *)
Definition uids (c : ProcessCred) : list Z := [ruid c; euid c; suid c].
Definition gids (c : ProcessCred) : list Z := [rgid c; egid c; sgid c].

Section privileges.
Lemma setReHalf_held nr ne r e s :
  e <> 0 -> forall ret r' e', setReHalf nr ne r e s = (ret, r', e') ->
  (r' = r \/ r' = e) /\ (e' = r \/ e' = e \/ e' = s) /\ (ret <> 0 -> r' = r /\ e' = e).
Proof.
  intros He ret r' e'. unfold setReHalf, EPERM.
  destruct (Z.eqb_spec e 0); [done|]. cbn [negb].
  destruct (Z.geb_spec ne 0), (Z.eqb_spec ne r), (Z.eqb_spec ne e), (Z.eqb_spec ne s); cbn;
    destruct (Z.geb_spec nr 0), (Z.eqb_spec nr r), (Z.eqb_spec nr e); cbn;
    intros [= <- <- <-]; split_and!; intros; lia.
Qed.

(** One call of a process without the privilege of the half it changes. *)
Lemma cred_step_uids c c' :
  cred_step c c' -> euid c <> 0 -> uids c' ⊆ uids c.
Proof.
  intros Hs He. destruct Hs as [c id which|c r e which]; unfold uids.
  - unfold sysSetId. destruct (id <? 0); [done|]. destruct which; simpl; try done.
    + destruct (Z.eqb_spec (euid c) 0); [done|]. simpl.
      destruct (Z.eqb_spec id (ruid c)), (Z.eqb_spec id (suid c)); simpl; subst; set_solver.
    + destruct (Z.eqb_spec (euid c) 0); [done|]. simpl.
      destruct (Z.eqb_spec id (ruid c)), (Z.eqb_spec id (suid c)); simpl; subst; set_solver.
    + destruct (negb (egid c =? 0)); [|done]. by destruct (_ || _).
    + by destruct (_ && _).
  - unfold sysSetReuid. destruct which.
    + by destruct (setReHalf _ _ _ _ _) as [[ret r'] e'].
    + destruct (setReHalf r e (ruid c) (euid c) (suid c)) as [[ret r'] e'] eqn:E.
      destruct (setReHalf_held _ _ _ _ _ He _ _ _ E) as (Hr & He' & _). simpl. set_solver.
Qed.

Lemma cred_step_gids c c' :
  cred_step c c' -> egid c <> 0 -> gids c' ⊆ gids c.
Proof.
  intros Hs He. destruct Hs as [c id which|c r e which]; unfold gids.
  - unfold sysSetId. destruct (id <? 0); [done|]. destruct which; simpl; try done.
    + destruct (negb (euid c =? 0)); [|done]. by destruct (_ || _).
    + by destruct (_ && _).
    + destruct (Z.eqb_spec (egid c) 0); [done|]. simpl.
      destruct (Z.eqb_spec id (rgid c)), (Z.eqb_spec id (sgid c)); simpl; subst; set_solver.
    + destruct (Z.eqb_spec (egid c) 0); [done|]. simpl.
      destruct (Z.eqb_spec id (rgid c)), (Z.eqb_spec id (sgid c)); simpl; subst; set_solver.
  - unfold sysSetReuid. destruct which.
    + destruct (setReHalf r e (rgid c) (egid c) (sgid c)) as [[ret r'] e'] eqn:E.
      destruct (setReHalf_held _ _ _ _ _ He _ _ _ E) as (Hr & He' & _). simpl. set_solver.
    + by destruct (setReHalf _ _ _ _ _) as [[ret r'] e'].
Qed.
End privileges.

(** ** The properties *)

(** C37: no sequence of the credential calls gains a privilege: a process none
    of whose user ids is root only ever has user ids that it had at the start,
    and the same holds of its group ids. *)
Theorem no_privilege_gain c c' :
  rtc cred_step c c' ->
  (0 ∉ uids c -> uids c' ⊆ uids c) /\ (0 ∉ gids c -> gids c' ⊆ gids c).
Proof.
  intros H. induction H as [c|c c1 c2 Hs _ [IHu IHg]]; [done|]. split; intros H0.
  - assert (H1 : uids c1 ⊆ uids c) by (apply cred_step_uids; [done|]; unfold uids in H0; set_solver).
    etransitivity; [apply IHu|exact H1]. intros Hin. by apply H0, H1.
  - assert (H1 : gids c1 ⊆ gids c) by (apply cred_step_gids; [done|]; unfold gids in H0; set_solver).
    etransitivity; [apply IHg|exact H1]. intros Hin. by apply H0, H1.
Qed.

(** A call that fails changes nothing. *)
Theorem failed_call_changes_nothing c :
  (forall id which, (sysSetId id which c).1 <> 0 -> (sysSetId id which c).2 = c) /\
  (forall r e which, (sysSetReuid r e which c).1 <> 0 -> (sysSetReuid r e which c).2 = c).
Proof.
  assert (Hh : forall nr ne r e s, (setReHalf nr ne r e s).1.1 <> 0 -> setReHalf nr ne r e s = ((setReHalf nr ne r e s).1.1, r, e)).
  { intros nr ne r e s. unfold setReHalf. repeat (case_match; simpl; try done). }
  split.
  - intros id which. unfold sysSetId. repeat (case_match; simpl; try done).
  - intros r e which. unfold sysSetReuid. destruct which.
    + specialize (Hh r e (rgid c) (egid c) (sgid c)).
      destruct (setReHalf _ _ _ _ _) as [[ret r'] e']. simpl in *. intros Hr.
      injection (Hh Hr) as -> ->. by destruct c.
    + specialize (Hh r e (ruid c) (euid c) (suid c)).
      destruct (setReHalf _ _ _ _ _) as [[ret r'] e']. simpl in *. intros Hr.
      injection (Hh Hr) as -> ->. by destruct c.
Qed.

(** [sysSetReuid] tests the wrong argument after its check of the real id:
    an unprivileged process that asks for somebody else's real id, and leaves
    its effective id alone, is told that it succeeded although nothing has
    changed. *)
Theorem sysSetReuid_hides_error c nr :
  euid c <> 0 -> 0 <= nr -> nr <> ruid c -> nr <> euid c -> sysSetReuid nr (-1) false c = (0, c).
Proof.
  intros He Hn H1 H2. unfold sysSetReuid, setReHalf. destruct (Z.eqb_spec (euid c) 0); [done|].
  destruct (Z.eqb_spec nr (ruid c)); [done|]. destruct (Z.eqb_spec nr (euid c)); [done|].
  cbn [negb andb orb Z.geb Z.compare]. rewrite andb_false_r. by destruct c.
Qed.

(** ** Witnesses *)

Section witnesses.
Definition user_cred : ProcessCred := mkCred 1000 1000 1001 100 100 100.

Lemma no_privilege_gain_witness :
  (0 ∉ uids user_cred -> uids (sysSetId 1001 SYSSETID_EUID user_cred).2 ⊆ uids user_cred) /\
  (0 ∉ gids user_cred -> gids (sysSetId 1001 SYSSETID_EUID user_cred).2 ⊆ gids user_cred).
Proof.
  apply (no_privilege_gain user_cred). eapply rtc_l; [apply (step_setid _ 1001 SYSSETID_EUID)|apply rtc_refl].
Defined.

Lemma sysSetReuid_hides_error_witness : sysSetReuid 0 (-1) false user_cred = (0, user_cred).
Proof. apply (sysSetReuid_hides_error user_cred 0); done. Defined.
End witnesses.
