(* ===== verification/Printk.v ===== *)
(** * Kernel messages: [kernel/main/print.c]

    Characters are their codes, strings are lists of non-zero characters.
    [printk] formats into a buffer of 512 bytes on the stack; a write past it
    is a fault of the model. *)

From S2P Require Import Prelude Word.

Definition PRINTK_STACK_BUF_SZ : Z := 512.

(** ** Digits *)

Definition hexDigit (n : Z) : Z := if n <? 10 then n + 48 else n + (65 - 10).

(** [hexprint]: nibbles [len .. 0]; [k] is [len + 1]. *)
Fixpoint hexprint (k : nat) (value : Z) : list Z :=
  match k with
  | O => []
  | S len => hexDigit (Z.land (Z.shiftr value (Z.of_nat len * 4)) 0x0F) :: hexprint len value
  end.

(** [buffer] of [decprint]: the last [k] decimal digits, as C divides. *)
Fixpoint decDigits (k : nat) (value : Z) : list Z :=
  match k with
  | O => []
  | S k => decDigits k (Z.quot value 10) ++ [Z.rem value 10 + 48]
  end.

(** The copy loop from index 1: zeros are skipped up to the first other digit. *)
Fixpoint skipZeros (zero : bool) (l : list Z) : list Z :=
  match l with
  | [] => []
  | c :: l => if negb zero || negb (c =? 48) then c :: skipZeros false l else skipZeros zero l
  end.

Definition decprint (value : Z) : list Z :=
  if value =? 0 then [48]
  else
    let neg := value <? 0 in
    let value := if neg then s32 (- value) else value in
    (if neg then [45] else []) ++ skipZeros true (tail (decDigits 10 value)).

(** ** Formatting *)

(** The variable arguments. *)
Inductive arg := AInt (n : Z) | AStr (s : list Z).

(** What a conversion appends, and the arguments that are left. *)
Definition convert (c : Z) (args : list arg) : option (list Z * list arg) :=
  if c =? 99 then (* 'c' *)
    match args with AInt n :: args => Some ([swrap 8 n], args) | _ => None end
  else if c =? 100 then (* 'd' *)
    match args with AInt n :: args => Some (decprint (s32 n), args) | _ => None end
  else if c =? 115 then (* 's' *)
    match args with AStr s :: args => Some (s, args) | _ => None end
  else if c =? 120 then (* 'x' *)
    match args with AInt n :: args => Some (hexprint 8 (u32 n), args) | _ => None end
  else if c =? 88 then (* 'X' *)
    match args with AInt n :: args => Some (hexprint 16 (u64 n), args) | _ => None end
  else if c =? 37 then Some ([37], args)
  else Some ([], args).

(** The console: whether [stdout] is set, and what it has been sent. *)
Record console := mkConsole { stdout : bool; written : list (list Z) }.

(** [buf[i++] = ...] for each character; [buf] is the part written so far. *)
Definition append (buf s : list Z) : M console (list Z) :=
  if Z.of_nat (length (buf ++ s)) <=? PRINTK_STACK_BUF_SZ then mret (buf ++ s) else fault.
Definition output (s : list Z) : M console unit :=
  modify (fun k => mkConsole (stdout k) (written k ++ [s])).

Fixpoint vprintkLoop (fmt : list Z) (args : list arg) (buf : list Z) : M console unit :=
  match fmt with
  | [] =>
    (* buf[i] = 0; stdout(buf) *)
    if Z.of_nat (length buf) <? PRINTK_STACK_BUF_SZ then output buf else fault
  | c :: fmt =>
    if negb (c =? 37) then
      buf ← append buf [c];
      vprintkLoop fmt args buf
    else
      match fmt with
      | [] => mret tt                        (* case 0: return *)
      | c :: fmt =>
        match convert c args with
        | None => fault                      (* no such argument *)
        | Some (s, args) =>
          buf ← append buf s;
          vprintkLoop fmt args buf
        end
      end
  end.

Definition vprintk (fmt : list Z) (args : list arg) : M console unit :=
  set ← gets stdout;
  if negb set then mret tt else vprintkLoop fmt args [].
Definition printk := vprintk.

Definition putc (c : Z) : M console unit :=
  set ← gets stdout; if negb set then mret tt else output [c].
Definition puts (text : list Z) : M console unit :=
  set ← gets stdout; if negb set then mret tt else output text.
Definition hexprint64 (value : Z) : M console unit :=
  set ← gets stdout; if negb set then mret tt else output (hexprint 16 value).
Definition hexprintln64 (value : Z) : M console unit :=
  set ← gets stdout;
  if negb set then mret tt else hexprint64 value;; output [10].
Definition setKernelStdout (on : bool) : M console unit :=
  modify (fun k => mkConsole on (written k)).

(** ** Reading digits back *)

Definition hexValue (c : Z) : Z := if c <? 65 then c - 48 else c - 55.
Definition readHex (l : list Z) : Z := fold_left (fun a c => a * 16 + hexValue c) l 0.
Definition readDec (l : list Z) : Z := fold_left (fun a c => a * 10 + (c - 48)) l 0.
Definition readSigned (l : list Z) : Z :=
  match l with 45 :: l => - readDec l | _ => readDec l end.

(** ** What a format means *)

(** The numeral of [v] in base ten: digits that read back as [v], without zeros
    in front; a negative number has a minus sign. *)
Definition numeral (v : Z) (ds : list Z) : Prop :=
  Forall (fun c => 48 <= c <= 57) ds /\ ds <> [] /\ (head ds = Some 48 -> ds = [48]) /\ readDec ds = v.
Inductive decimal : Z -> list Z -> Prop :=
| decimal_pos v ds : numeral v ds -> decimal v ds
| decimal_neg v ds : v < 0 -> numeral (- v) ds -> decimal v (45 :: ds).
(** [k] digits in base sixteen, upper case. *)
Definition hexadecimal (k : nat) (v : Z) (l : list Z) : Prop :=
  length l = k /\ Forall (fun c => 48 <= c <= 57 \/ 65 <= c <= 70) l /\ readHex l = v.

(** What a format with its arguments means: a character, a decimal number of at
    most nine digits, a string, 8 or 16 hexadecimal digits, a percent sign, and
    nothing for an unknown conversion. *)
Inductive expands : list Z -> list arg -> list Z -> Prop :=
| expands_end args : expands [] args []
| expands_plain c fmt args out : c <> 37 -> expands fmt args out -> expands (c :: fmt) args (c :: out)
| expands_char n fmt args out : 0 < n < 128 -> expands fmt args out -> expands (37 :: 99 :: fmt) (AInt n :: args) (n :: out)
| expands_dec n l fmt args out : - 10 ^ 9 < n < 10 ^ 9 -> decimal n l -> expands fmt args out -> expands (37 :: 100 :: fmt) (AInt n :: args) (l ++ out)
| expands_string s fmt args out : expands fmt args out -> expands (37 :: 115 :: fmt) (AStr s :: args) (s ++ out)
| expands_hex n l fmt args out : hexadecimal 8 (n mod 2 ^ 32) l -> expands fmt args out -> expands (37 :: 120 :: fmt) (AInt n :: args) (l ++ out)
| expands_hex64 n l fmt args out : hexadecimal 16 (n mod 2 ^ 64) l -> expands fmt args out -> expands (37 :: 88 :: fmt) (AInt n :: args) (l ++ out)
| expands_percent fmt args out : expands fmt args out -> expands (37 :: 37 :: fmt) args (37 :: out)
| expands_unknown c fmt args out : c ∉ [99; 100; 115; 120; 88; 37] -> expands fmt args out -> expands (37 :: c :: fmt) args out.

(** ** Positional notation *)

Section positional.
Context (b : Z) (f : Z -> Z) (ok : Z -> Prop).
Definition value (l : list Z) : Z := fold_left (fun a c => a * b + f c) l 0.
Context (Hb : 1 < b) (Hf : forall c, ok c -> 0 <= f c < b) (Hinj : forall c c', ok c -> ok c' -> f c = f c' -> c = c').

Lemma value_acc l a : fold_left (fun a c => a * b + f c) l a = a * b ^ Z.of_nat (length l) + value l.
Proof.
  unfold value. revert a. induction l as [|c l IH]; intros a; cbn [fold_left length]; [simpl; lia|].
  rewrite IH, (IH (0 * b + _)). rewrite Nat2Z.inj_succ, Z.pow_succ_r by lia. lia.
Qed.
Lemma value_cons c l : value (c :: l) = f c * b ^ Z.of_nat (length l) + value l.
Proof. unfold value at 1. cbn [fold_left]. rewrite value_acc. lia. Qed.
Lemma value_bound l : Forall ok l -> 0 <= value l < b ^ Z.of_nat (length l).
Proof.
  induction 1 as [|c l Hc _ IH]; [done|]. rewrite value_cons. cbn [length]. rewrite Nat2Z.inj_succ, Z.pow_succ_r by lia. specialize (Hf c Hc). nia.
Qed.
(** Numbers of the same length have the same digits. *)
Lemma value_unique l l' : Forall ok l -> Forall ok l' -> length l = length l' -> value l = value l' -> l = l'.
Proof.
  intros Hl. revert l'. induction Hl as [|c l Hc Hl IH]; intros [|c' l'] Hl' Hlen Hv; try done. apply Forall_cons in Hl' as [Hc' Hl']. injection Hlen as Hlen.
  rewrite !value_cons, Hlen in Hv. pose proof (value_bound l Hl). pose proof (value_bound l' Hl'). rewrite Hlen in *. set (p := b ^ Z.of_nat (length l')) in *.
  destruct (Z.div_mod_unique p (f c) (f c') (value l) (value l')) as [E1 E2]; [lia..|]. f_equal; [by apply Hinj|by apply IH].
Qed.
End positional.

Lemma readDec_value l : readDec l = value 10 (fun c => c - 48) l.
Proof. done. Qed.
Lemma readHex_value l : readHex l = value 16 hexValue l.
Proof. done. Qed.
Lemma dec_bound l : Forall (fun c => 48 <= c <= 57) l -> 0 <= value 10 (fun c => c - 48) l < 10 ^ Z.of_nat (length l).
Proof. apply value_bound; lia. Qed.
(** A number has one numeral. *)
Lemma numeral_unique v ds ds' : numeral v ds -> numeral v ds' -> ds = ds'.
Proof.
  intros (H1 & H2 & H3 & H4) (H1' & H2' & H3' & H4'). rewrite readDec_value in *.
  assert (Hlow : forall ds, Forall (fun c => 48 <= c <= 57) ds -> ds <> [] -> (head ds = Some 48 -> ds = [48]) -> ds = [48] \/ 10 ^ Z.of_nat (pred (length ds)) <= value 10 (fun c => c - 48) ds).
  { intros [|c l] Hd Hne Hz; [done|]. apply Forall_cons in Hd as [Hc Hd]. destruct (decide (c = 48)) as [->|]; [left; by apply Hz|right].
    rewrite value_cons by lia. cbn [length pred]. pose proof (dec_bound l Hd) as Hl. cbv beta. set (p := 10 ^ Z.of_nat (length l)) in *. nia. }
  pose proof (dec_bound ds H1) as Hb. pose proof (dec_bound ds' H1') as Hb'.
  assert (Hlen : forall a b : nat, (1 <= b)%nat -> 10 ^ Z.of_nat (pred a) < 10 ^ Z.of_nat b -> (a <= b)%nat) by (intros a b Hb1 Hp; apply Z.pow_lt_mono_r_iff in Hp; lia).
  assert (L : (1 <= length ds)%nat) by (destruct ds; [done|cbn; lia]). assert (L' : (1 <= length ds')%nat) by (destruct ds'; [done|cbn; lia]).
  eapply (value_unique 10 (fun c => c - 48) (fun c => 48 <= c <= 57)); [lia|lia|cbv beta; lia|done|done| |congruence].
  destruct (Hlow ds H1 H2 H3) as [->|Hl], (Hlow ds' H1' H2' H3') as [->|Hl']; [done| | |].
  - change (value 10 _ [48]) with 0 in H4. pose proof (Z.pow_pos_nonneg 10 (Z.of_nat (pred (length ds')))). lia.
  - change (value 10 _ [48]) with 0 in H4'. pose proof (Z.pow_pos_nonneg 10 (Z.of_nat (pred (length ds)))). lia.
  - apply Nat.le_antisymm; apply Hlen; lia.
Qed.

(** The same with the conversions of the code and without its buffer. *)
Fixpoint converted (fmt : list Z) (args : list arg) : option (list Z) :=
  match fmt with
  | [] => Some []
  | c :: fmt =>
    if negb (c =? 37) then (fun o => c :: o) <$> converted fmt args
    else
      match fmt with
      | [] => None
      | c :: fmt => '(s, args) ← convert c args; app s <$> converted fmt args
      end
  end.

Section digits.
Lemma hexValue_digit n : 0 <= n < 16 -> hexValue (hexDigit n) = n.
Proof.
  intros Hn. unfold hexValue, hexDigit. destruct (Z.ltb_spec n 10).
  - destruct (Z.ltb_spec (n + 48) 65); lia.
  - destruct (Z.ltb_spec (n + (65 - 10)) 65); lia.
Qed.

Lemma readHex_acc l a :
  fold_left (fun a c => a * 16 + hexValue c) l a = a * 16 ^ Z.of_nat (length l) + readHex l.
Proof. by apply value_acc. Qed.

Lemma hexprint_length k v : length (hexprint k v) = k.
Proof. induction k; simpl; congruence. Qed.

Lemma hexprint_read k v : 0 <= v -> readHex (hexprint k v) = v mod 16 ^ Z.of_nat k.
Proof.
  intros Hv. induction k as [|k IH].
  - by rewrite Z.mod_1_r.
  - cbn [hexprint]. unfold readHex. cbn [fold_left]. rewrite readHex_acc, hexprint_length, IH.
    rewrite Z.shiftr_div_pow2 by lia. change 0x0F with (Z.ones 4). rewrite Z.land_ones by lia.
    rewrite hexValue_digit by (change (2 ^ 4) with 16; apply Z.mod_pos_bound; lia).
    replace (2 ^ (Z.of_nat k * 4)) with (16 ^ Z.of_nat k)
      by (rewrite Z.mul_comm, Z.pow_mul_r by lia; done).
    assert (0 < 16 ^ Z.of_nat k) by (apply Z.pow_pos_nonneg; lia).
    rewrite Nat2Z.inj_succ, Z.pow_succ_r, (Z.mul_comm 16), Z.rem_mul_r by lia.
    change (2 ^ 4) with 16. lia.
Qed.

Lemma decDigits_length k v : length (decDigits k v) = k.
Proof. revert v. induction k; intros v; cbn [decDigits]; [done|]. rewrite length_app, IHk. simpl. lia. Qed.

Lemma readDec_snoc l c : readDec (l ++ [c]) = readDec l * 10 + (c - 48).
Proof. unfold readDec. by rewrite fold_left_app. Qed.

Lemma decDigits_read k v : 0 <= v -> readDec (decDigits k v) = v mod 10 ^ Z.of_nat k.
Proof.
  revert v. induction k as [|k IH]; intros v Hv; cbn [decDigits]; [by rewrite Z.mod_1_r|].
  rewrite readDec_snoc, Z.quot_div_nonneg, Z.rem_mod_nonneg, IH by (lia || apply Z.div_pos; lia).
  assert (0 < 10 ^ Z.of_nat k) by (apply Z.pow_pos_nonneg; lia).
  rewrite Nat2Z.inj_succ, Z.pow_succ_r, Z.rem_mul_r by lia. lia.
Qed.

Lemma decDigits_digits k v c : 0 <= v -> c ∈ decDigits k v -> 48 <= c <= 57.
Proof.
  revert v. induction k as [|k IH]; intros v Hv; cbn [decDigits]; [by rewrite elem_of_nil|].
  rewrite elem_of_app, list_elem_of_singleton. intros [H| ->].
  - eapply IH; [|exact H]. apply Z.quot_pos; lia.
  - rewrite Z.rem_mod_nonneg by lia. pose proof (Z.mod_pos_bound v 10). lia.
Qed.

(** Dropping the first of [k + 1] digits drops the multiples of [10 ^ k]. *)
Lemma decDigits_tail k v : 0 <= v -> readDec (tail (decDigits (S k) v)) = v mod 10 ^ Z.of_nat k.
Proof.
  revert v. induction k as [|k IH]; intros v Hv; [by rewrite Z.mod_1_r|].
  remember (S k) as k' eqn:Ek. cbn [decDigits].
  assert (Hl : decDigits k' (Z.quot v 10) <> []).
  { intros E. apply (f_equal length) in E. rewrite decDigits_length in E. simpl in E. lia. }
  replace (tail (decDigits k' (Z.quot v 10) ++ [Z.rem v 10 + 48]))
    with (tail (decDigits k' (Z.quot v 10)) ++ [Z.rem v 10 + 48])
    by (by destruct (decDigits k' (Z.quot v 10))).
  rewrite readDec_snoc, Z.rem_mod_nonneg, Z.quot_div_nonneg by lia. subst k'.
  rewrite IH by (apply Z.div_pos; lia).
  assert (0 < 10 ^ Z.of_nat k) by (apply Z.pow_pos_nonneg; lia).
  rewrite (Nat2Z.inj_succ k), Z.pow_succ_r, Z.rem_mul_r by lia. lia.
Qed.

Lemma skipZeros_false l : skipZeros false l = l.
Proof. induction l; simpl; congruence. Qed.

Lemma skipZeros_read l : readDec (skipZeros true l) = readDec l.
Proof.
  induction l as [|c l IH]; [done|]. cbn [skipZeros negb orb].
  destruct (Z.eqb_spec c 48) as [->|]; cbn [negb]; [by rewrite IH|by rewrite skipZeros_false].
Qed.

Lemma skipZeros_head l : head (skipZeros true l) <> Some 48.
Proof.
  induction l as [|c l IH]; [done|]. cbn [skipZeros negb orb].
  destruct (Z.eqb_spec c 48) as [->|]; cbn [negb]; [done|]. simpl. congruence.
Qed.

Lemma skipZeros_in c l z : c ∈ skipZeros z l -> c ∈ l.
Proof.
  revert z. induction l as [|x l IH]; intros z; cbn [skipZeros]; [done|].
  destruct (_ || _); rewrite ?elem_of_cons; [intros [->|?]|intros ?]; eauto.
Qed.

Lemma readSigned_pos l : (forall c, c ∈ l -> 48 <= c <= 57) -> readSigned l = readDec l.
Proof.
  intros H. destruct l as [|c l]; [done|]. specialize (H c (list_elem_of_here _ _)).
  unfold readSigned. assert (Hne : c <> 45) by lia.
  destruct c as [|p|p]; try done. do 6 (destruct p as [p|p|]; try done).
Qed.

(** ** Formats *)

Lemma append_ok buf s k (Q : list Z -> console -> Prop) :
  wp (append buf s) k Q <->
  Z.of_nat (length (buf ++ s)) <= PRINTK_STACK_BUF_SZ /\ Q (buf ++ s) k.
Proof.
  unfold append. destruct (Z.leb_spec (Z.of_nat (length (buf ++ s))) PRINTK_STACK_BUF_SZ).
  - rewrite wp_ret. naive_solver.
  - unfold wp, fault. split; [done|]. intros []. lia.
Qed.

Lemma vprintkLoop_spec n : forall fmt args buf k out,
  (length fmt <= n)%nat -> converted fmt args = Some out ->
  Z.of_nat (length (buf ++ out)) < PRINTK_STACK_BUF_SZ ->
  wp (vprintkLoop fmt args buf) k (fun _ k' => stdout k' = stdout k /\ written k' = written k ++ [buf ++ out]).
Proof.
  assert (Hle : forall a b c : list Z, Z.of_nat (length (a ++ b ++ c)) < PRINTK_STACK_BUF_SZ ->
    Z.of_nat (length (a ++ b)) <= PRINTK_STACK_BUF_SZ /\
    Z.of_nat (length ((a ++ b) ++ c)) < PRINTK_STACK_BUF_SZ).
  { intros a b c. rewrite <- app_assoc, !length_app. lia. }
  induction n as [|n IH]; intros [|c fmt] args buf k out Hn He Hl; simpl in Hn; try lia; simpl in He.
  1,2: injection He as <-; rewrite app_nil_r in *; simpl;
    rewrite (proj2 (Z.ltb_lt _ _) Hl); apply wp_modify; by simpl.
  cbn [vprintkLoop]. destruct (Z.eqb_spec c 37) as [->|Hc]; cbn [negb] in *.
  - destruct fmt as [|c fmt]; [done|].
    destruct (convert c args) as [[s args']|]; [|done]. simpl in He.
    destruct (converted fmt args') as [o|] eqn:Eo; [|done]. injection He as <-.
    destruct (Hle _ _ _ Hl) as [H1 H2]. apply wp_bind, append_ok. split; [done|].
    wp_use (IH fmt args' (buf ++ s) k o); [simpl in Hn; lia|done|done|].
    intros _ k' [? ->]. by rewrite app_assoc.
  - destruct (converted fmt args) as [o|] eqn:Eo; [|done]. injection He as <-.
    change (c :: o) with ([c] ++ o) in *. destruct (Hle _ _ _ Hl) as [H1 H2].
    apply wp_bind, append_ok. split; [done|].
    wp_use (IH fmt args (buf ++ [c]) k o); [lia|done|done|]. intros _ k' [? ->]. by rewrite app_assoc.
Qed.

(** Once more than the buffer holds has to be written, there is a fault. *)
Lemma vprintkLoop_fault n : forall fmt args buf k out,
  (length fmt <= n)%nat -> converted fmt args = Some out ->
  PRINTK_STACK_BUF_SZ <= Z.of_nat (length (buf ++ out)) -> vprintkLoop fmt args buf k = Fault.
Proof.
  assert (Happ : forall (buf s : list Z) (K : list Z -> M console unit) k,
    (Z.of_nat (length (buf ++ s)) <= PRINTK_STACK_BUF_SZ -> K (buf ++ s) k = Fault) ->
    (append buf s ≫= K) k = Fault).
  { intros buf s K k HK. unfold mbind, M_bind, append.
    destruct (Z.leb_spec (Z.of_nat (length (buf ++ s))) PRINTK_STACK_BUF_SZ); [by apply HK|done]. }
  induction n as [|n IH]; intros [|c fmt] args buf k out Hn He Hl; simpl in Hn; try lia; simpl in He.
  1,2: injection He as <-; rewrite app_nil_r in *; simpl; by rewrite (proj2 (Z.ltb_ge _ _) Hl).
  cbn [vprintkLoop]. destruct (Z.eqb_spec c 37) as [->|Hc]; cbn [negb] in *.
  - destruct fmt as [|c fmt]; [done|].
    destruct (convert c args) as [[s args']|]; [|done]. simpl in He.
    destruct (converted fmt args') as [o|] eqn:Eo; [|done]. injection He as <-.
    apply Happ. intros _. eapply IH; [simpl in Hn; lia|done|by rewrite <- app_assoc].
  - destruct (converted fmt args) as [o|] eqn:Eo; [|done]. injection He as <-.
    apply Happ. intros _. eapply IH; [lia|done|by rewrite <- app_assoc].
Qed.

(** The digits of the code are those of the numeral. *)
Lemma decprint_digits w c : 0 <= w -> c ∈ skipZeros true (tail (decDigits 10 w)) -> 48 <= c <= 57.
Proof.
  intros Hw Hc%skipZeros_in. eapply (decDigits_digits 10 w); [done|]. destruct (decDigits 10 w); [done|]. by right.
Qed.
Lemma decprint_numeral w : 0 < w < 10 ^ 9 -> numeral w (skipZeros true (tail (decDigits 10 w))).
Proof.
  intros Hw. assert (Hrd : readDec (skipZeros true (tail (decDigits 10 w))) = w) by (rewrite skipZeros_read, (decDigits_tail 9) by lia; apply Z.mod_small; lia).
  split_and!; [|intros E; rewrite E in Hrd; cbn in Hrd; lia|intros E; by apply skipZeros_head in E|done].
  apply Forall_forall. intros c Hc. by apply (decprint_digits w); [lia|].
Qed.
Lemma decimal_decprint v l : - 10 ^ 9 < v < 10 ^ 9 -> decimal v l -> l = decprint v.
Proof.
  intros Hv Hl. unfold decprint. destruct (Z.eqb_spec v 0) as [->|Hne].
  { assert (H0 : numeral 0 [48]) by (split_and!; [by repeat constructor|done|done|done]). inversion Hl as [? ? Hn|]; subst; [by eapply numeral_unique|lia]. }
  inversion Hl as [? ? Hn|? ds Hneg Hn]; subst.
  - assert (0 <= v) by (destruct Hn as (Hd & _ & _ & <-); rewrite readDec_value; apply (dec_bound l Hd)). destruct (Z.ltb_spec v 0); [lia|].
    eapply numeral_unique; [exact Hn|]. apply decprint_numeral. lia.
  - destruct (Z.ltb_spec v 0); [|lia]. cbn [app]. f_equal. rewrite swrap_small by lia. eapply numeral_unique; [exact Hn|]. apply decprint_numeral. lia.
Qed.
Lemma hexprint_digits k v : Forall (fun c => 48 <= c <= 57 \/ 65 <= c <= 70) (hexprint k v).
Proof.
  induction k as [|k IH]; cbn [hexprint]; constructor; [|done]. change 0x0F with (Z.ones 4). rewrite Z.land_ones by lia.
  pose proof (Z.mod_pos_bound (Z.shiftr v (Z.of_nat k * 4)) (2 ^ 4)). unfold hexDigit. destruct (Z.ltb_spec (Z.shiftr v (Z.of_nat k * 4) mod 2 ^ 4) 10); lia.
Qed.
Lemma hexadecimal_hexprint k v l : 0 <= v < 16 ^ Z.of_nat k -> hexadecimal k v l -> l = hexprint k v.
Proof.
  intros Hv (Hk & Hd & Hr). eapply (value_unique 16 hexValue (fun c => 48 <= c <= 57 \/ 65 <= c <= 70)).
  - lia.
  - unfold hexValue. intros c Hc. destruct (Z.ltb_spec c 65); lia.
  - unfold hexValue. intros c c' Hc Hc'. destruct (Z.ltb_spec c 65), (Z.ltb_spec c' 65); lia.
  - done.
  - apply hexprint_digits.
  - by rewrite hexprint_length.
  - rewrite <- !readHex_value, hexprint_read, Z.mod_small by lia. done.
Qed.
Lemma expands_converted fmt args out : expands fmt args out -> converted fmt args = Some out.
Proof.
  induction 1 as [|c fmt args out Hc _ IH|n fmt args out Hn _ IH|n l fmt args out Hn Hl _ IH|s fmt args out _ IH|n l fmt args out Hl _ IH|n l fmt args out Hl _ IH|fmt args out _ IH|c fmt args out Hc _ IH]; cbn [converted].
  - done.
  - rewrite (proj2 (Z.eqb_neq c 37)) by done. cbn [negb]. by rewrite IH.
  - cbn. rewrite swrap_small by lia. by rewrite IH.
  - cbn [convert Z.eqb Pos.eqb negb mbind option_bind]. rewrite swrap_small by lia. rewrite IH. by rewrite <- (decimal_decprint n l).
  - cbn. by rewrite IH.
  - cbn [convert Z.eqb Pos.eqb negb mbind option_bind]. rewrite IH. rewrite <- (hexadecimal_hexprint 8 _ l); [done| |exact Hl]. apply Z.mod_pos_bound. lia.
  - cbn [convert Z.eqb Pos.eqb negb mbind option_bind]. rewrite IH. rewrite <- (hexadecimal_hexprint 16 _ l); [done| |exact Hl]. apply Z.mod_pos_bound. lia.
  - cbn. by rewrite IH.
  - rewrite !not_elem_of_cons in Hc. destruct Hc as (? & ? & ? & ? & ? & ? & _). cbn [Z.eqb Pos.eqb negb]. unfold convert.
    rewrite !(proj2 (Z.eqb_neq c _)) by done. cbn. by rewrite IH.
Qed.
End digits.

(** ** The properties *)

(** [hexprint] of [k] digits writes exactly [k] characters, which read
    back as the value modulo [16 ^ k]; with 8 digits for ['x'] and 16 for
    ['X'] that is the value itself. *)
Theorem hexprint_roundtrip k v :
  0 <= v -> length (hexprint k v) = k /\ readHex (hexprint k v) = v mod 16 ^ Z.of_nat k.
Proof. intros Hv. split; [apply hexprint_length|by apply hexprint_read]. Qed.

(** [decprint] writes a decimal number without leading zeros that reads
    back as the value, as long as the value has at most nine digits. *)
Theorem decprint_roundtrip v :
  - 10 ^ 9 < v < 10 ^ 9 ->
  readSigned (decprint v) = v /\ (v <> 0 -> forall l, decprint v <> 48 :: l).
Proof.
  intros Hv. unfold decprint. destruct (Z.eqb_spec v 0) as [->|Hne]; [done|].
  assert (Hrd : forall w, 0 <= w < 10 ^ 9 -> readDec (skipZeros true (tail (decDigits 10 w))) = w).
  { intros w Hw. rewrite skipZeros_read, (decDigits_tail 9) by lia. apply Z.mod_small. exact Hw. }
  destruct (Z.ltb_spec v 0) as [Hneg|Hpos].
  - rewrite swrap_small by lia. split; [|done]. cbn [app readSigned]. rewrite Hrd by lia. lia.
  - cbn [app]. rewrite readSigned_pos by (intros c; apply decprint_digits; lia). split; [apply Hrd; lia|].
    intros _ l E. by apply (skipZeros_head (tail (decDigits 10 v))); rewrite E.
Qed.

(** The copy loop of [decprint] starts at the second of its ten digits, so
    numbers from 10^9 on lose their leading digit: 2000000015 prints as 15,
    and 1000000000 as nothing at all. *)
Theorem decprint_drops_digit :
  decprint 2000000015 = [49; 53] /\ decprint 1000000000 = [] /\
  (forall v, 10 ^ 9 <= v < 2 ^ 31 -> readDec (decprint v) = v mod 10 ^ 9).
Proof.
  split_and!; [done|done|]. intros v Hv. unfold decprint.
  destruct (Z.eqb_spec v 0); [lia|]. destruct (Z.ltb_spec v 0); [lia|].
  cbn [app]. rewrite skipZeros_read. by apply (decDigits_tail 9); lia.
Qed.

(** C33: [printk] sends what its format means to the console in one piece, if
    that fits the buffer with its terminating zero; a longer text overruns the
    buffer, which nothing checks.  The meaning is that of [expands]: decimal
    numbers have at most nine digits (longer ones are [decprint_drops_digit]),
    and every conversion has its argument. *)
Theorem printk_correct fmt args k out :
  stdout k = true -> expands fmt args out ->
  if Z.of_nat (length out) <? PRINTK_STACK_BUF_SZ
  then wp (printk fmt args) k (fun _ k' => stdout k' = true /\ written k' = written k ++ [out])
  else printk fmt args k = Fault.
Proof.
  intros Hk He%expands_converted. unfold printk, vprintk.
  destruct (Z.ltb_spec (Z.of_nat (length out)) PRINTK_STACK_BUF_SZ) as [Hl|Hl].
  - apply wp_bind, wp_gets. rewrite Hk. cbn [negb].
    wp_use (vprintkLoop_spec (length fmt) fmt args [] k out); [lia|done|done|].
    intros _ k' [? ?]. by rewrite <- Hk.
  - unfold mbind, M_bind, gets. rewrite Hk. cbn [negb]. by eapply (vprintkLoop_fault (length fmt)).
Qed.

(** ** Witnesses *)

Section witnesses.
Lemma hexprint_roundtrip_witness :
  length (hexprint 8 0xCAFE) = 8%nat /\ readHex (hexprint 8 0xCAFE) = 0xCAFE mod 16 ^ Z.of_nat 8.
Proof. exact (hexprint_roundtrip 8 0xCAFE ltac:(lia)). Defined.

Lemma decprint_roundtrip_witness :
  readSigned (decprint (-305)) = -305 /\ (-305 <> 0 -> forall l, decprint (-305) <> 48 :: l).
Proof. exact (decprint_roundtrip (-305) ltac:(lia)). Defined.

(** ["x=%d %x\n"] of -42 and 0xCAFE. *)
Lemma demo_expands : expands [120; 61; 37; 100; 32; 37; 120; 10] [AInt (-42); AInt 0xCAFE] [120; 61; 45; 52; 50; 32; 48; 48; 48; 48; 67; 65; 70; 69; 10].
Proof.
  do 2 (apply expands_plain; [done|]). apply (expands_dec (-42) [45; 52; 50]); [lia| |].
  { apply decimal_neg; [lia|]. split_and!; [repeat constructor; lia|done|done|done]. }
  apply expands_plain; [done|]. apply (expands_hex 0xCAFE [48; 48; 48; 48; 67; 65; 70; 69]).
  { split_and!; [done|repeat constructor; lia|done]. }
  apply expands_plain; [done|]. apply expands_end.
Qed.
Lemma printk_correct_witness :
  wp (printk [120; 61; 37; 100; 32; 37; 120; 10] [AInt (-42); AInt 0xCAFE]) (mkConsole true []) (fun _ k' =>
    stdout k' = true /\ written k' = [[120; 61; 45; 52; 50; 32; 48; 48; 48; 48; 67; 65; 70; 69; 10]]).
Proof. exact (printk_correct _ _ (mkConsole true []) _ eq_refl demo_expands). Defined.
End witnesses.
