(* ===== verification/Pipe.v ===== *)
(** * Pipes: [kernel/fs/pipe.c]

    [pipeWrite] and [pipeRead] run concurrently.  Each is a loop of four
    atomic actions per byte: wait for the semaphore, access the buffer, signal
    the other semaphore, advance the index.  The model interleaves the actions
    of the two threads in every order.  A semaphore is its value; a wait is
    not enabled while the value is 0, which is what [semWait] is proved to
    amount to in [ReadyQueue]. *)

From S2P Require Import Prelude Word.

Definition PIPE_BUF : Z := 4096.

Record Pipe := mkPipe {
  bytesFree : Z;
  bytesUsed : Z;
  rIndex : Z;
  wIndex : Z;
  pbuf : gmap Z Z
}.

(** Where a thread is in its loop; [AtWait] is the head of the loop. *)
Inductive pc := AtWait | AtBuf | AtSignal | AtIndex.
#[export] Instance pc_eq_dec : EqDecision pc.
Proof. solve_decision. Defined.

(** A thread in [pipeWrite]: the bytes from [cbuf] on, of which there are
    [size] left. *)
Record writer := mkWriter { wpc : pc; cbuf : list Z }.
(** A thread in [pipeRead]: the bytes read so far, and how many are wanted. *)
Record reader := mkReader { rpc : pc; got : list Z; wanted : nat }.

Definition writerStep (w : writer) (p : Pipe) : option (writer * Pipe) :=
  match cbuf w with
  | [] => None                                           (* while (size) *)
  | c :: rest =>
    match wpc w with
    | AtWait =>
      if 0 <? bytesFree p then
        Some (mkWriter AtBuf (c :: rest), mkPipe (bytesFree p - 1) (bytesUsed p) (rIndex p) (wIndex p) (pbuf p))
      else None
    | AtBuf =>
      Some (mkWriter AtSignal (c :: rest),
            mkPipe (bytesFree p) (bytesUsed p) (rIndex p) (wIndex p) (<[wIndex p := c]> (pbuf p)))
    | AtSignal =>
      Some (mkWriter AtIndex (c :: rest), mkPipe (bytesFree p) (bytesUsed p + 1) (rIndex p) (wIndex p) (pbuf p))
    | AtIndex =>
      Some (mkWriter AtWait rest,
            mkPipe (bytesFree p) (bytesUsed p) (rIndex p) ((wIndex p + 1) mod PIPE_BUF) (pbuf p))
    end
  end.

Definition readerStep (r : reader) (p : Pipe) : option (reader * Pipe) :=
  match rpc r with
  | AtWait =>
    if decide (length (got r) = wanted r) then None      (* while (ret != size) *)
    else if 0 <? bytesUsed p then
      Some (mkReader AtBuf (got r) (wanted r), mkPipe (bytesFree p) (bytesUsed p - 1) (rIndex p) (wIndex p) (pbuf p))
    else None
  | AtBuf =>
    c ← pbuf p !! rIndex p;
    Some (mkReader AtSignal (got r ++ [c]) (wanted r), p)
  | AtSignal =>
    Some (mkReader AtIndex (got r) (wanted r), mkPipe (bytesFree p + 1) (bytesUsed p) (rIndex p) (wIndex p) (pbuf p))
  | AtIndex =>
    Some (mkReader AtWait (got r) (wanted r),
          mkPipe (bytesFree p) (bytesUsed p) ((rIndex p + 1) mod PIPE_BUF) (wIndex p) (pbuf p))
  end.

Record system := mkSystem { pipe : Pipe; wr : writer; rd : reader }.

Inductive step : system -> system -> Prop :=
| step_writer s w p : writerStep (wr s) (pipe s) = Some (w, p) -> step s (mkSystem p w (rd s))
| step_reader s r p : readerStep (rd s) (pipe s) = Some (r, p) -> step s (mkSystem p (wr s) r).

(** [sysPipe]'s new pipe, a call of [pipeWrite] and one of [pipeRead]. *)
Definition newPipe : Pipe := mkPipe PIPE_BUF 0 0 0 ∅.
Definition start (data : list Z) (n : nat) : system :=
  mkSystem newPipe (mkWriter AtWait data) (mkReader AtWait [] n).

(** Both calls have returned. *)
Definition finished (s : system) : Prop :=
  cbuf (wr s) = [] /\ rpc (rd s) = AtWait /\ length (got (rd s)) = wanted (rd s).

(** The actions that are left: every step takes one away. *)
Definition pc_left (c : pc) : nat :=
  match c with AtWait => 4 | AtBuf => 3 | AtSignal => 2 | AtIndex => 1 end.
Definition writer_left (w : writer) : nat :=
  match cbuf w with [] => 0 | _ :: rest => pc_left (wpc w) + 4 * length rest end.
Definition reader_left (r : reader) : nat :=
  match rpc r with
  | AtWait => 4 * (wanted r - length (got r))
  | AtBuf => 3 + 4 * (wanted r - length (got r) - 1)
  | AtSignal => 2 + 4 * (wanted r - length (got r))
  | AtIndex => 1 + 4 * (wanted r - length (got r))
  end.
Definition steps_left (s : system) : nat := (writer_left (wr s) + reader_left (rd s))%nat.

(** ** The invariant *)

(** [pre] are the bytes whose turn of the writer's loop is complete, [nr] the
    number of complete turns of the reader; [past c k] is 1 if at most [k]
    actions are left of the turn. *)
Definition past (c : pc) (k : nat) : Z := if (pc_left c <=? k)%nat then 1 else 0.

Record pipe_inv (data : list Z) (n : nat) (s : system) (pre : list Z) (nr : Z) : Prop := {
  pv_data : data = pre ++ cbuf (wr s);
  pv_idle : cbuf (wr s) = [] -> wpc (wr s) = AtWait;
  pv_windex : wIndex (pipe s) = Z.of_nat (length pre) mod PIPE_BUF;
  pv_rindex : rIndex (pipe s) = nr mod PIPE_BUF;
  pv_got : Z.of_nat (length (got (rd s))) = nr + past (rpc (rd s)) 2;
  pv_nr : 0 <= nr;
  pv_wanted : wanted (rd s) = n;
  pv_bound : nr + past (rpc (rd s)) 3 <= Z.of_nat n;
  pv_free : bytesFree (pipe s) =
    PIPE_BUF - (Z.of_nat (length pre) + past (wpc (wr s)) 3)
             + (nr + past (rpc (rd s)) 1);
  pv_used : bytesUsed (pipe s) =
    Z.of_nat (length pre) + past (wpc (wr s)) 1
      - (nr + past (rpc (rd s)) 3);
  pv_free0 : 0 <= bytesFree (pipe s);
  pv_used0 : 0 <= bytesUsed (pipe s);
  (* what has been read is a prefix of the data *)
  pv_prefix : got (rd s) = take (length (got (rd s))) data;
  (* the bytes in between are in the buffer *)
  pv_buf : forall j c, Z.of_nat (length (got (rd s))) <= Z.of_nat j ->
    Z.of_nat j < Z.of_nat (length pre) + past (wpc (wr s)) 2 ->
    data !! j = Some c -> pbuf (pipe s) !! (Z.of_nat j mod PIPE_BUF) = Some c
}.

Section invariant.
Context (data : list Z) (n : nat).

Lemma start_inv : pipe_inv data n (start data n) [] 0.
Proof. split; unfold past, PIPE_BUF; simpl; try done; try lia; intros; lia. Qed.

Lemma mod_apart a b : 0 <= a < b -> b - a < PIPE_BUF -> a mod PIPE_BUF <> b mod PIPE_BUF.
Proof. unfold PIPE_BUF. dlia. Qed.

Lemma index_step x : (x mod PIPE_BUF + 1) mod PIPE_BUF = (x + 1) mod PIPE_BUF.
Proof. apply Zplus_mod_idemp_l. Qed.

Lemma writer_inv s w p pre nr :
  pipe_inv data n s pre nr -> writerStep (wr s) (pipe s) = Some (w, p) ->
  exists pre', pipe_inv data n (mkSystem p w (rd s)) pre' nr.
Proof.
  intros [D I W R G N Wt B F U F0 U0 Pf Bf] Hs. destruct s as [q [c l] [rc g m]]; simpl in *.
  unfold writerStep in Hs. simpl in Hs. destruct l as [|x l]; [done|]. destruct c.
  - destruct (Z.ltb_spec 0 (bytesFree q)); [|done]. injection Hs as <- <-. exists pre.
    unfold past in *. split; unfold past in *; simpl in *; try done; try lia.
  - injection Hs as <- <-. exists pre. unfold past in *. split; unfold past in *; simpl in *; try done; try lia.
    intros j y Hj1 Hj2 Hy. destruct (decide (j = length pre)) as [->|Hne].
    + rewrite W, lookup_insert_eq. rewrite D, lookup_app_r, Nat.sub_diag in Hy by lia. done.
    + assert (Hfull : Z.of_nat (length pre) - Z.of_nat j < PIPE_BUF).
      { destruct rc; simpl in *; lia. }
      rewrite lookup_insert_ne; [apply Bf; [done|lia|done]|]. rewrite W.
      apply not_eq_sym, mod_apart; lia.
  - injection Hs as <- <-. exists pre. unfold past in *. split; unfold past in *; simpl in *; try done; try lia.
  - injection Hs as <- <-. exists (pre ++ [x]). unfold past in *.
    assert (Hlen : Z.of_nat (length (pre ++ [x])) = Z.of_nat (length pre) + 1) by (rewrite length_app; simpl; lia).
    split; unfold past in *; simpl in *; rewrite ?Hlen; try done; try lia.
    + by rewrite <- app_assoc.
    + by rewrite W, index_step.
    + intros j y Hj1 Hj2 Hy. apply Bf; [done|lia|done].
Qed.

Lemma reader_inv s r p pre nr :
  pipe_inv data n s pre nr -> readerStep (rd s) (pipe s) = Some (r, p) ->
  exists nr', pipe_inv data n (mkSystem p (wr s) r) pre nr'.
Proof.
  intros [D I W R G N Wt B F U F0 U0 Pf Bf] Hs. destruct s as [q [c l] [rc g m]]; simpl in *.
  unfold readerStep in Hs. simpl in Hs. destruct rc.
  - destruct (decide (length g = m)); [done|]. destruct (Z.ltb_spec 0 (bytesUsed q)); [|done].
    injection Hs as <- <-. exists nr. unfold past in *. split; unfold past in *; simpl in *; try done; try lia.
  - assert (Hj : Z.of_nat (length g) = nr) by (unfold past in G; simpl in G; lia).
    destruct (lookup_lt_is_Some_2 data (length g)) as [x Hx].
    { rewrite D, length_app. unfold past in *. destruct l as [|y l]; [|simpl; destruct c; simpl in *; lia].
      rewrite (I eq_refl) in *. simpl in *. lia. }
    assert (Hb : pbuf q !! rIndex q = Some x).
    { rewrite R, <- Hj. apply Bf; [lia| |done]. unfold past in *. destruct c; simpl in *; lia. }
    rewrite Hb in Hs. injection Hs as <- <-. exists nr. unfold past in *.
    assert (Hlen : Z.of_nat (length (g ++ [x])) = Z.of_nat (length g) + 1) by (rewrite length_app; simpl; lia).
    split; unfold past in *; simpl in *; rewrite ?Hlen; try done; try lia.
    + rewrite length_app, Nat.add_1_r. erewrite take_S_r; [|exact Hx]. by rewrite <- Pf.
    + intros j y Hj1. apply Bf. lia.
  - injection Hs as <- <-. exists nr. unfold past in *. split; unfold past in *; simpl in *; try done; try lia.
  - injection Hs as <- <-. exists (nr + 1). unfold past in *. split; unfold past in *; simpl in *; try done; try lia.
    by rewrite R, index_step.
Qed.

Lemma reachable_inv s : rtc step (start data n) s -> exists pre nr, pipe_inv data n s pre nr.
Proof.
  intros Hs. apply (rtc_ind_r (R := step) (fun s => exists pre nr, pipe_inv data n s pre nr) (start data n)); [|clear s Hs|exact Hs].
  - exists [], 0. apply start_inv.
  - intros s t _ Ht (pre & nr & HI). destruct Ht as [s w p E|s r p E].
    + destruct (writer_inv _ _ _ _ _ HI E) as [pre' ?]. eauto.
    + destruct (reader_inv _ _ _ _ _ HI E) as [nr' ?]. eauto.
Qed.
End invariant.

(** Two writers on one pipe; [sch] says which of them acts. *)
Fixpoint runWriters (sch : list bool) (w1 w2 : writer) (p : Pipe) : option (writer * writer * Pipe) :=
  match sch with
  | [] => Some (w1, w2, p)
  | true :: sch => '(w1, p) ← writerStep w1 p; runWriters sch w1 w2 p
  | false :: sch => '(w2, p) ← writerStep w2 p; runWriters sch w1 w2 p
  end.

(** ** The properties *)

(** C28: in every interleaving of a writer and a reader, what has been read is a
    prefix of what was written, and the bytes in the pipe never exceed its
    buffer. *)
Theorem pipe_fifo data n s :
  rtc step (start data n) s ->
  (exists rest, data = got (rd s) ++ rest) /\ (length (got (rd s)) <= n)%nat /\
  0 <= bytesFree (pipe s) /\ 0 <= bytesUsed (pipe s) /\
  bytesFree (pipe s) + bytesUsed (pipe s) <= PIPE_BUF.
Proof.
  intros Hs. destruct (reachable_inv data n s Hs) as (pre & nr & HI). destruct HI as [D I W R G N Wt B F U F0 U0 Pf Bf].
  split_and!; [|unfold past in *; destruct (rpc (rd s)); simpl in *; lia|done|done|].
  - exists (drop (length (got (rd s))) data). rewrite Pf at 1. by rewrite take_drop.
  - unfold past in *. destruct (rpc (rd s)), (wpc (wr s)); simpl in *; lia.
Qed.

(** C29: one writer and one reader of a pipe, whatever the lengths: every step
    brings the two calls nearer to their end; and when no step is possible the
    reader has the first bytes of the data, as many as it asked for, or all of
    them if it asked for more, in which case it waits for ever; otherwise it has
    returned; and the writer has returned when what the reader leaves fits the
    buffer.  So a reader that asks for as many bytes as are written, or for up to
    a buffer less, never deadlocks. *)
Theorem pipe_delivers data n s :
  rtc step (start data n) s ->
  (forall t, step s t -> (steps_left t < steps_left s)%nat) /\
  ((forall t, ~ step s t) -> got (rd s) = take n data /\
    ((n <= length data)%nat -> Z.of_nat (length data) <= Z.of_nat n + PIPE_BUF -> finished s) /\
    ((n <= length data)%nat -> rpc (rd s) = AtWait /\ length (got (rd s)) = wanted (rd s))).
Proof.
  intros Hs. destruct (reachable_inv data _ s Hs) as (pre & nr & HI).
  pose proof HI as [D I W R G N Wt B F U F0 U0 Pf Bf]. split.
  - intros t Ht. unfold steps_left. destruct Ht as [s w p E|s r p E]; simpl.
    + unfold writerStep, writer_left in *. destruct (cbuf (wr s)) as [|c l]; [done|].
      destruct (wpc (wr s)); [destruct (0 <? bytesFree (pipe s)); [|done]|..]; injection E as <- <-; simpl;
        [lia..|]. destruct l; simpl; lia.
    + unfold readerStep, reader_left in *. destruct (rpc (rd s)) eqn:Er.
      * destruct (decide _); [done|]. destruct (0 <? bytesUsed (pipe s)); [|done]. injection E as <- <-. simpl.
        unfold past in *. simpl in *. lia.
      * destruct (pbuf (pipe s) !! rIndex (pipe s)); [|done]. injection E as <- <-. simpl.
        rewrite length_app. unfold past in *. simpl in *. lia.
      * injection E as <- <-. simpl. lia.
      * injection E as <- <-. simpl. lia.
  - intros Hstuck.
    assert (Hw : writerStep (wr s) (pipe s) = None).
    { destruct (writerStep _ _) as [[w p]|] eqn:E; [|done]. destruct (Hstuck _ (step_writer _ _ _ E)). }
    assert (Hr : readerStep (rd s) (pipe s) = None).
    { destruct (readerStep _ _) as [[r p]|] eqn:E; [|done]. destruct (Hstuck _ (step_reader _ _ _ E)). }
    unfold writerStep in Hw. unfold readerStep in Hr. unfold finished. rewrite Wt.
    assert (Hlen : Z.of_nat (length data) = Z.of_nat (length pre) + Z.of_nat (length (cbuf (wr s))))
      by (rewrite D at 1; rewrite length_app; lia).
    assert (Hend : rpc (rd s) = AtWait /\ Z.of_nat (length (got (rd s))) = nr /\
      ((nr = Z.of_nat n /\ (cbuf (wr s) = [] \/ Z.of_nat n + PIPE_BUF < Z.of_nat (length data))) \/
       (nr < Z.of_nat n /\ nr = Z.of_nat (length data) /\ cbuf (wr s) = []))).
    { unfold past in *. destruct (rpc (rd s)) eqn:Er; simpl in *; try done.
      - split; [done|]. split; [lia|]. destruct (cbuf (wr s)) as [|c l]; simpl in *.
        + rewrite (I eq_refl) in *. simpl in *. destruct (decide _); [left; split; [lia|by left]|].
          destruct (Z.ltb_spec 0 (bytesUsed (pipe s))); [done|right; split_and!; [lia|lia|done]].
        + destruct (wpc (wr s)); try done. simpl in *.
          destruct (Z.ltb_spec 0 (bytesFree (pipe s))); [done|]. unfold PIPE_BUF in *.
          destruct (decide _); [left; split; [lia|right; lia]|]. destruct (Z.ltb_spec 0 (bytesUsed (pipe s))); [done|lia].
      - exfalso. destruct (lookup_lt_is_Some_2 data (length (got (rd s)))) as [x Hx].
        { destruct (cbuf (wr s)) as [|c l] eqn:Ec; [rewrite (I eq_refl) in *|destruct (wpc (wr s))]; simpl in *; lia. }
        rewrite R, <- (Z.add_0_r nr), <- G in Hr. rewrite (Bf _ x) in Hr; [done|lia| |done].
        destruct (wpc (wr s)); simpl in *; lia. }
    destruct Hend as (Hpc & Hg & [[Hn Hw']|(Hn & Hd & Hc)]).
    + split; [|split; [|split; [done|lia]]]; [rewrite Pf; f_equal; lia|]. intros Hle Hcap.
      destruct Hw' as [Hc|]; [|lia]. split_and!; [done|done|lia].
    + split; [|split; lia]. rewrite Pf, !firstn_all2; [done|lia|lia].
Qed.

(** Two writers of one pipe lose data: the index is read and advanced
    without the lock of the pipe, so both can store to the same place.  Here
    two one-byte writes both return, the reader is told of two bytes, and the
    first byte and the place of the second are gone. *)
Theorem pipe_writers_race :
  match runWriters [true; false; true; false; true; true; false; false]
    (mkWriter AtWait [65]) (mkWriter AtWait [66]) newPipe with
  | Some (w1, w2, p) => cbuf w1 = [] /\ cbuf w2 = [] /\ bytesUsed p = 2 /\
      pbuf p !! 0 = Some 66 /\ pbuf p !! 1 = None
  | None => False
  end.
Proof. vm_compute. split_and!; reflexivity. Qed.

(** ** Witnesses *)

Section witnesses.
Definition pipe_run : system :=
  mkSystem (mkPipe (PIPE_BUF - 1) 0 0 0 ∅) (mkWriter AtBuf [65; 66]) (mkReader AtWait [] 2).
Lemma pipe_run_reachable : rtc step (start [65; 66] 2) pipe_run.
Proof. eapply rtc_l; [by apply (step_writer (start [65; 66] 2))|]. apply rtc_refl. Qed.

Lemma pipe_fifo_witness :
  (exists rest, [65; 66] = got (rd pipe_run) ++ rest) /\ (length (got (rd pipe_run)) <= 2)%nat /\
  0 <= bytesFree (pipe pipe_run) /\ 0 <= bytesUsed (pipe pipe_run) /\
  bytesFree (pipe pipe_run) + bytesUsed (pipe pipe_run) <= PIPE_BUF.
Proof. exact (pipe_fifo [65; 66] 2 pipe_run pipe_run_reachable). Defined.

Lemma pipe_delivers_witness :
  (forall t, step pipe_run t -> (steps_left t < steps_left pipe_run)%nat) /\
  ((forall t, ~ step pipe_run t) -> got (rd pipe_run) = take 2 [65; 66] /\
    ((2 <= 2)%nat -> 2 <= 2 + PIPE_BUF -> finished pipe_run) /\
    ((2 <= 2)%nat -> rpc (rd pipe_run) = AtWait /\ length (got (rd pipe_run)) = wanted (rd pipe_run))).
Proof. exact (pipe_delivers [65; 66] 2 pipe_run pipe_run_reachable). Defined.
End witnesses.
