(* ===== verification/Irq.v ===== *)
(** * Interrupt vectors: [kernel/main/irq.c]

    A bitmap of the vectors in use and a table of handlers.  [interrupt_t] is
    8 bits wide, so that vectors below 32 wrap around when 32 is taken off. *)

From S2P Require Import Prelude Word Errno.

Definition IRQDESC_START : Z := 32.
Definition IRQDESC_NROF_ENTRIES : Z := 128 - 32.

(** A handler is the address of its function, 0 if there is none. *)
Record IrqDescriptor := mkIrq {
  handler : Z; name : Z; irqFlags : Z; irqCount : Z
}.

(** The globals, and the handlers that have been called. *)
Record irqs := mkIrqs {
  irqBitmap : list Z;
  irqBitmapLock : bool;
  irqDescs : list IrqDescriptor;
  called : list Z
}.

Definition set_bitmap (b : list Z) (s : irqs) := mkIrqs b (irqBitmapLock s) (irqDescs s) (called s).
Definition set_irqLock (l : bool) (s : irqs) := mkIrqs (irqBitmap s) l (irqDescs s) (called s).
Definition set_descs (d : list IrqDescriptor) (s : irqs) := mkIrqs (irqBitmap s) (irqBitmapLock s) d (called s).

Definition acquireBitmap : M irqs unit := fun s =>
  if irqBitmapLock s then Fault else Done (tt, set_irqLock true s).
Definition releaseBitmap : M irqs unit := modify (set_irqLock false).
Definition readWord (i : Z) : M irqs Z := deref (fun s => irqBitmap s !! Z.to_nat i).
Definition writeWord (i v : Z) : M irqs unit := fun s =>
  if (0 <=? i) && (i <? Z.of_nat (length (irqBitmap s)))
  then Done (tt, set_bitmap (<[Z.to_nat i := u32 v]> (irqBitmap s)) s) else Fault.
Definition readDesc (i : Z) : M irqs IrqDescriptor := deref (fun s => irqDescs s !! Z.to_nat i).
Definition writeDesc (i : Z) (d : IrqDescriptor) : M irqs unit := fun s =>
  if (0 <=? i) && (i <? Z.of_nat (length (irqDescs s)))
  then Done (tt, set_descs (<[Z.to_nat i := d]> (irqDescs s)) s) else Fault.

(** The inner loop of [allocIrqVec]: the first clear bit; a 32-bit word runs
    out of ones after 32 turns. *)
Fixpoint firstClear (fuel : nat) (bit bitPos : Z) : option Z :=
  match fuel with
  | O => None
  | S fuel => if has bit 1 then firstClear fuel (Z.shiftr bit 1) (bitPos + 1) else Some bitPos
  end.

(** The outer loop over the words [i], ...: the array and bit positions. *)
Fixpoint findVec (n : nat) (i : Z) : M irqs (option (Z * Z)) :=
  match n with
  | O => mret None
  | S n =>
    w ← readWord i;
    if negb (w =? 2 ^ 32 - 1) then
      match firstClear 33 w 0 with
      | None => nofuel
      | Some bitPos =>
        writeWord i (Z.lor w (u32 (Z.shiftl 1 bitPos)));;
        mret (Some (i, bitPos))
      end
    else findVec n (i + 1)
  end.

Definition allocIrqVec : M irqs Z :=
  acquireBitmap;;
  found ← findVec (Z.to_nat (IRQDESC_NROF_ENTRIES / 32)) 0;
  releaseBitmap;;
  match found with
  | None => mret 0
  | Some (arrayPos, bitPos) => mret (u8 (arrayPos * 32 + bitPos + IRQDESC_START))
  end.

Definition deallocIrqVec (vec : Z) : M irqs unit :=
  let vec := u8 (vec - IRQDESC_START) in
  let bitPos := vec mod 32 in
  let arrayPos := vec / 32 in
  acquireBitmap;;
  w ← readWord arrayPos;
  writeWord arrayPos (Z.land w (Z.lnot (Z.shiftl 1 bitPos)));;
  releaseBitmap.

Definition routeInterrupt (h vec flags nm : Z) : M irqs Z :=
  let vec := u8 (vec - IRQDESC_START) in
  if vec >=? IRQDESC_NROF_ENTRIES then mret (- EINVAL)
  else
    d ← readDesc vec;
    if negb (handler d =? 0) then mret (- EBUSY)
    else
      let bitPos := vec mod 32 in
      let arrayPos := vec / 32 in
      acquireBitmap;;
      w ← readWord arrayPos;
      writeWord arrayPos (Z.lor w (u32 (Z.shiftl 1 bitPos)));;
      releaseBitmap;;
      writeDesc vec (mkIrq h nm flags 0);;
      mret 0.

Definition unrouteInterrupt (vec : Z) : M irqs Z :=
  let vec := u8 (vec - IRQDESC_START) in
  if vec >=? IRQDESC_NROF_ENTRIES then mret (- EINVAL)
  else
    d ← readDesc vec;
    writeDesc vec (mkIrq 0 (name d) (irqFlags d) (irqCount d));;
    mret 0.

(** The call of a handler is recorded; what it does is its own matter. *)
Definition handleIRQ (vec : Z) : M irqs unit :=
  let vec := u8 (vec - IRQDESC_START) in
  if vec >=? IRQDESC_NROF_ENTRIES then mret tt
  else
    d ← readDesc vec;
    if handler d =? 0 then mret tt
    else
      modify (fun s => mkIrqs (irqBitmap s) (irqBitmapLock s) (irqDescs s) (called s ++ [handler d]));;
      d ← readDesc vec;
      writeDesc vec (mkIrq (handler d) (name d) (irqFlags d) (u32 (irqCount d + 1))).

(** ** Vectors in use *)

Record irq_inv (s : irqs) : Prop := {
  ii_words : length (irqBitmap s) = 3%nat;
  ii_range : forall i w, irqBitmap s !! i = Some w -> 0 <= w < 2 ^ 32;
  ii_descs : length (irqDescs s) = 96%nat;
  ii_lock : irqBitmapLock s = false
}.

(** Whether vector [v] is marked in the bitmap. *)
Definition in_use (s : irqs) (v : Z) : bool :=
  let v := v - IRQDESC_START in
  Z.testbit (default 0 (irqBitmap s !! Z.to_nat (v / 32))) (v mod 32).
Definition is_vector (v : Z) : Prop := 32 <= v < 128.

Section vectors.
Lemma firstClear_spec fuel w p :
  0 <= w < 2 ^ (Z.of_nat fuel - 1) ->
  exists b, firstClear fuel w p = Some (p + b) /\ 0 <= b < Z.of_nat fuel /\
    Z.testbit w b = false /\ forall j, 0 <= j < b -> Z.testbit w j = true.
Proof.
  revert w p. induction fuel as [|fuel IH]; intros w p Hw.
  { simpl in Hw. lia. }
  cbn [firstClear]. change (has w 1) with (has w (2 ^ 0)). rewrite has_pow2 by lia.
  destruct (Z.testbit w 0) eqn:E.
  - assert (0 < fuel)%nat as Hf.
    { destruct fuel; [|lia]. change (2 ^ (Z.of_nat 1 - 1)) with 1 in Hw. replace w with 0 in E by lia. done. }
    destruct (IH (Z.shiftr w 1) (p + 1)) as (b & -> & Hb & Hc & Hlow).
    { rewrite Z.shiftr_div_pow2 by lia. change (2 ^ 1) with 2. split; [apply Z.div_pos; lia|].
      apply Z.div_lt_upper_bound; [lia|]. rewrite <- Z.pow_succ_r by lia.
      replace (Z.succ (Z.of_nat fuel - 1)) with (Z.of_nat (S fuel) - 1) by lia. lia. }
    exists (b + 1). split_and!; [f_equal; lia|lia|lia| |].
    + by rewrite Z.shiftr_spec in Hc by lia.
    + intros j Hj. destruct (Z.eq_dec j 0) as [->|]; [done|].
      specialize (Hlow (j - 1) ltac:(lia)). rewrite Z.shiftr_spec in Hlow by lia.
      by replace (j - 1 + 1) with j in Hlow by lia.
  - exists 0. split_and!; [f_equal; lia|lia|lia|done|intros; lia].
Qed.

Lemma wp_readWord i s Q : wp (readWord i) s Q <-> exists w, irqBitmap s !! Z.to_nat i = Some w /\ Q w s.
Proof. exact (wp_deref (fun s => irqBitmap s !! Z.to_nat i) s Q). Qed.
Lemma wp_writeWord i v s (Q : unit -> irqs -> Prop) :
  0 <= i < Z.of_nat (length (irqBitmap s)) ->
  Q tt (set_bitmap (<[Z.to_nat i := u32 v]> (irqBitmap s)) s) -> wp (writeWord i v) s Q.
Proof.
  intros Hi HQ. unfold wp, writeWord.
  by rewrite (proj2 (andb_true_iff _ _)) by (split; [apply Z.leb_le|apply Z.ltb_lt]; lia).
Qed.
Lemma wp_readDesc i s Q : wp (readDesc i) s Q <-> exists d, irqDescs s !! Z.to_nat i = Some d /\ Q d s.
Proof. exact (wp_deref (fun s => irqDescs s !! Z.to_nat i) s Q). Qed.
Lemma wp_writeDesc i d s (Q : unit -> irqs -> Prop) :
  0 <= i < Z.of_nat (length (irqDescs s)) ->
  Q tt (set_descs (<[Z.to_nat i := d]> (irqDescs s)) s) -> wp (writeDesc i d) s Q.
Proof.
  intros Hi HQ. unfold wp, writeDesc.
  by rewrite (proj2 (andb_true_iff _ _)) by (split; [apply Z.leb_le|apply Z.ltb_lt]; lia).
Qed.
Lemma wp_acquireBitmap s (Q : unit -> irqs -> Prop) :
  irqBitmapLock s = false -> Q tt (set_irqLock true s) -> wp acquireBitmap s Q.
Proof. intros Hl HQ. unfold wp, acquireBitmap. by rewrite Hl. Qed.

Lemma word_lookup s i : length (irqBitmap s) = 3%nat -> 0 <= i < 3 -> exists w, irqBitmap s !! Z.to_nat i = Some w.
Proof. intros E Hi. apply lookup_lt_is_Some_2. rewrite E. lia. Qed.
Lemma desc_lookup s i : length (irqDescs s) = 96%nat -> 0 <= i < 96 -> exists d, irqDescs s !! Z.to_nat i = Some d.
Proof. intros E Hi. apply lookup_lt_is_Some_2. rewrite E. lia. Qed.

Lemma set_bit_range w b : 0 <= w < 2 ^ 32 -> 0 <= b < 32 -> 0 <= Z.lor w (u32 (Z.shiftl 1 b)) < 2 ^ 32.
Proof.
  intros Hw Hb. assert (0 <= u32 (Z.shiftl 1 b) < 2 ^ 32) by (apply uwrap_range; lia).
  split; [apply Z.lor_nonneg; lia|].
  destruct (Z.eq_dec (Z.lor w (u32 (Z.shiftl 1 b))) 0) as [->|Hne]; [lia|].
  assert (0 <= Z.lor w (u32 (Z.shiftl 1 b))) by (apply Z.lor_nonneg; lia).
  apply Z.log2_lt_pow2; [lia|]. rewrite Z.log2_lor by lia.
  apply Z.max_lub_lt; [destruct (Z.eq_dec w 0) as [->|]|destruct (Z.eq_dec (u32 (Z.shiftl 1 b)) 0) as [->|]];
    first [done | apply Z.log2_lt_pow2; lia].
Qed.

Lemma set_bit_test w b j :
  0 <= b < 32 -> 0 <= j < 32 -> Z.testbit (Z.lor w (u32 (Z.shiftl 1 b))) j = Z.testbit w j || (j =? b).
Proof.
  intros Hb Hj. rewrite Z.lor_spec. unfold uwrap.
  rewrite Z.mod_pow2_bits_low, Z.shiftl_1_l, Z.pow2_bits_eqb, Z.eqb_sym by lia. done.
Qed.

(** The effect of an update of one bit on the vectors in use. *)
Lemma in_use_insert s i w w' b l d c :
  length (irqBitmap s) = 3%nat -> 0 <= i < 3 -> irqBitmap s !! Z.to_nat i = Some w -> 0 <= b < 32 ->
  forall f, (forall j, 0 <= j < 32 -> Z.testbit w' j = if j =? b then f else Z.testbit w j) ->
  forall v, is_vector v ->
  in_use (mkIrqs (<[Z.to_nat i := w']> (irqBitmap s)) l d c) v =
  if v =? i * 32 + b + IRQDESC_START then f else in_use s v.
Proof.
  intros Hlen Hi Hw Hb f Hf v Hv. unfold in_use, is_vector, IRQDESC_START in *. simpl.
  destruct (Z.eq_dec ((v - 32) / 32) i) as [E|Hne].
  - rewrite E, list_lookup_insert_eq, Hw by lia. simpl.
    rewrite Hf by (apply Z.mod_pos_bound; lia).
    destruct (Z.eqb_spec ((v - 32) mod 32) b), (Z.eqb_spec v (i * 32 + b + 32)); done || dlia.
  - rewrite list_lookup_insert_ne by (assert (0 <= (v - 32) / 32) by (apply Z.div_pos; lia); lia).
    destruct (Z.eqb_spec v (i * 32 + b + 32)); [|done]. destruct Hne. dlia.
Qed.

Lemma full_word j : 0 <= j < 32 -> Z.testbit (2 ^ 32 - 1) j = true.
Proof. intros. change (2 ^ 32 - 1) with (Z.ones 32). apply Z.ones_spec_low. lia. Qed.

(** A word that is not all ones has a clear bit below 32. *)
Lemma clear_bit_exists w b :
  0 <= w < 2 ^ 32 -> w <> 2 ^ 32 - 1 -> 0 <= b <= 32 ->
  (forall j, 0 <= j < b -> Z.testbit w j = true) -> b < 32.
Proof.
  intros Hw Hne Hb Hlow. destruct (Z.eq_dec b 32) as [->|]; [|lia]. destruct Hne.
  change (2 ^ 32 - 1) with (Z.ones 32). apply Z.bits_inj'. intros j Hj.
  destruct (Z.lt_ge_cases j 32).
  - rewrite Hlow, Z.ones_spec_low by lia. done.
  - rewrite Z.ones_spec_high by lia. rewrite <- (Z.mod_small w (2 ^ 32)) by done.
    apply Z.mod_pow2_bits_high. lia.
Qed.

Lemma findVec_spec n i s :
  length (irqBitmap s) = 3%nat -> (forall k w, irqBitmap s !! k = Some w -> 0 <= w < 2 ^ 32) ->
  0 <= i -> i + Z.of_nat n = 3 -> (forall v, is_vector v -> v < i * 32 + IRQDESC_START -> in_use s v = true) ->
  wp (findVec n i) s (fun r s' =>
    match r with
    | None => s' = s /\ forall v, is_vector v -> in_use s v = true
    | Some (a, b) => exists w, i <= a < 3 /\ 0 <= b < 32 /\ irqBitmap s !! Z.to_nat a = Some w /\
        Z.testbit w b = false /\ s' = set_bitmap (<[Z.to_nat a := Z.lor w (u32 (Z.shiftl 1 b))]> (irqBitmap s)) s /\
        forall v, is_vector v -> v < a * 32 + b + IRQDESC_START -> in_use s v = true
    end).
Proof.
  intros Hlen Hr. revert i. induction n as [|n IH]; intros i Hi Hn Hprev; cbn [findVec].
  { apply wp_ret. split; [done|]. intros v Hv. apply Hprev; [done|]. unfold is_vector, IRQDESC_START in *. lia. }
  destruct (word_lookup s i Hlen ltac:(lia)) as [w Hw]. pose proof (Hr _ _ Hw) as Hwr.
  apply wp_bind, wp_readWord. exists w. split; [done|].
  destruct (Z.eqb_spec w (2 ^ 32 - 1)) as [Ew|Hne]; cbn [negb].
  - apply wp_mono with (Q := fun r s' =>
      match r with
      | None => s' = s /\ forall v, is_vector v -> in_use s v = true
      | Some (a, b) => exists w, i + 1 <= a < 3 /\ 0 <= b < 32 /\ irqBitmap s !! Z.to_nat a = Some w /\
        Z.testbit w b = false /\ s' = set_bitmap (<[Z.to_nat a := Z.lor w (u32 (Z.shiftl 1 b))]> (irqBitmap s)) s /\
        forall v, is_vector v -> v < a * 32 + b + IRQDESC_START -> in_use s v = true
      end).
    + apply IH; [lia|lia|]. intros v Hv Hlt. destruct (Z.lt_ge_cases v (i * 32 + IRQDESC_START)); [by apply Hprev|].
      unfold in_use, is_vector, IRQDESC_START in *. replace ((v - 32) / 32) with i by dlia.
      rewrite Hw. simpl default. rewrite Ew. apply full_word. apply Z.mod_pos_bound. lia.
    + intros [[a b]|] s'; [|done]. intros (w' & ? & Hrest). exists w'. split; [lia|exact Hrest].
  - destruct (firstClear_spec 33 w 0) as (b & -> & Hb & Hc & Hlow); [simpl; lia|]. rewrite Z.add_0_l.
    assert (b < 32) as Hb' by (apply (clear_bit_exists w b); [done|done|lia|done]).
    apply wp_bind, wp_writeWord; [lia|]. apply wp_ret. exists w.
    rewrite (uwrap_small 32 (Z.lor w (u32 (Z.shiftl 1 b)))) by (apply set_bit_range; lia). split_and!; try lia; try done.
    intros v Hv Hlt. destruct (Z.lt_ge_cases v (i * 32 + IRQDESC_START)); [by apply Hprev|].
    unfold in_use, is_vector, IRQDESC_START in *. replace ((v - 32) / 32) with i by dlia.
    rewrite Hw. simpl default. apply Hlow. dlia.
Qed.
End vectors.

(** ** The properties *)

(** [allocIrqVec] returns the lowest vector that is not in use and marks
    it and no other; it returns 0 exactly when all 96 are in use. *)
Theorem allocIrqVec_correct s :
  irq_inv s ->
  wp allocIrqVec s (fun r s' => irq_inv s' /\ irqDescs s' = irqDescs s /\
    ((r = 0 /\ s' = s /\ forall v, is_vector v -> in_use s v = true) \/
     (is_vector r /\ in_use s r = false /\
      (forall v, is_vector v -> v < r -> in_use s v = true) /\
      forall v, is_vector v -> in_use s' v = in_use s v || (v =? r)))).
Proof.
  intros [H1 H2 H3 H4]. unfold allocIrqVec. apply wp_bind, wp_acquireBitmap; [done|]. apply wp_bind.
  wp_use (findVec_spec (Z.to_nat (IRQDESC_NROF_ENTRIES / 32)) 0 (set_irqLock true s));
    [done|done|done|done|unfold is_vector, IRQDESC_START; lia|].
  intros [[a b]|] s1.
  - intros (w & Ha & Hb & Hw & Hc & -> & Hlow). simpl in Hw.
    apply wp_bind. unfold releaseBitmap. apply wp_modify, wp_ret. simpl.
    set (r := u8 (a * 32 + b + IRQDESC_START)).
    assert (Er : r = a * 32 + b + IRQDESC_START) by (apply uwrap_small; unfold IRQDESC_START; lia).
    split_and!; [split; simpl; try done|done|].
    + by rewrite length_insert.
    + intros i x [(_ & <- & _)|[_ Hx]]%list_lookup_insert_Some; [|eauto]. apply set_bit_range; [eauto|lia].
    + right. rewrite Er. split_and!; [unfold is_vector, IRQDESC_START; lia..| |done|].
      * unfold in_use, IRQDESC_START. replace ((a * 32 + b + 32 - 32) / 32) with a by dlia.
        rewrite Hw. simpl default. by replace ((a * 32 + b + 32 - 32) mod 32) with b by dlia.
      * intros v Hv.
        etransitivity; [apply (in_use_insert s a w _ b _ _ _ H1 ltac:(lia) Hw Hb true); [intros j Hj|done]|].
        2: { rewrite <- Er. fold r. destruct (v =? r); [by rewrite orb_true_r|by rewrite orb_false_r]. }
        rewrite set_bit_test by lia. destruct (j =? b); [apply orb_true_r|apply orb_false_r].
  - intros [-> Hall]. apply wp_bind. unfold releaseBitmap. apply wp_modify, wp_ret.
    assert (Es : set_irqLock false (set_irqLock true s) = s) by (destruct s; simpl in *; by subst).
    rewrite Es. split_and!; [by split|done|]. by left.
Qed.

(** Giving a vector back leaves it free and every other vector as it was,
    so that the next allocation can return it. *)
Theorem deallocIrqVec_correct s v :
  irq_inv s -> is_vector v ->
  wp (deallocIrqVec v) s (fun _ s' => irq_inv s' /\ irqDescs s' = irqDescs s /\
    forall u, is_vector u -> in_use s' u = in_use s u && negb (u =? v)).
Proof.
  intros [H1 H2 H3 H4] Hv. unfold deallocIrqVec, is_vector, IRQDESC_START in *.
  rewrite uwrap_small by lia. apply wp_bind, wp_acquireBitmap; [done|].
  destruct (word_lookup s ((v - 32) / 32)) as [w Hw]; [done|dlia|].
  apply wp_bind, wp_readWord. exists w. split; [done|]. pose proof (H2 _ _ Hw) as Hwr.
  apply wp_bind, wp_writeWord; [simpl; rewrite H1; dlia|]. unfold releaseBitmap. apply wp_modify. simpl.
  assert (Hb : 0 <= (v - 32) mod 32 < 32) by (apply Z.mod_pos_bound; lia).
  assert (Hn : 0 <= Z.land w (Z.lnot (Z.shiftl 1 ((v - 32) mod 32))) < 2 ^ 32).
  { split; [apply Z.land_nonneg; lia|]. rewrite <- (Z.mod_small w (2 ^ 32)), <- Z.land_ones by lia.
    rewrite <- Z.land_assoc, (Z.land_comm (Z.ones 32)), Z.land_assoc, Z.land_ones by lia.
    apply Z.mod_pos_bound. lia. }
  rewrite uwrap_small by done. split_and!; [split; simpl; try done|done|].
  - by rewrite length_insert.
  - intros i x [(_ & <- & _)|[_ Hx]]%list_lookup_insert_Some; [done|eauto].
  - intros u Hu. etransitivity; [apply (in_use_insert s ((v - 32) / 32) w _ ((v - 32) mod 32) _ _ _ H1
      ltac:(dlia) Hw Hb false); [intros j Hj|done]|].
    2: { unfold IRQDESC_START. replace ((v - 32) / 32 * 32 + (v - 32) mod 32 + 32) with v by dlia.
      destruct (u =? v); [by rewrite andb_false_r|by rewrite andb_true_r]. }
    rewrite Z.land_spec, Z.lnot_spec, Z.shiftl_1_l, Z.pow2_bits_eqb, Z.eqb_sym by lia.
    destruct (j =? _); [apply andb_false_r|apply andb_true_r].
Qed.

(** A vector that has been routed calls its handler once per interrupt and
    counts it, and cannot be routed a second time; after it is unrouted an
    interrupt calls nothing. *)
Theorem routed_interrupt s h v flags nm d :
  irq_inv s -> is_vector v -> h <> 0 ->
  irqDescs s !! Z.to_nat (v - 32) = Some d -> handler d = 0 ->
  wp (e ← routeInterrupt h v flags nm; handleIRQ v;; e' ← routeInterrupt h v flags nm;
      unrouteInterrupt v;; handleIRQ v;; mret (e, e')) s (fun r s' =>
    r = (0, - EBUSY) /\ called s' = called s ++ [h] /\ in_use s' v = true /\
    irqDescs s' !! Z.to_nat (v - 32) = Some (mkIrq 0 nm flags 1)).
Proof.
  intros [H1 H2 H3 H4] Hv Hh Hd Hz. unfold is_vector, IRQDESC_START in *.
  destruct (word_lookup s ((v - 32) / 32)) as [w Hw]; [done|dlia|].
  assert (Hb : 0 <= (v - 32) mod 32 < 32) by (apply Z.mod_pos_bound; lia).
  assert (Hvec : u8 (v - IRQDESC_START) = v - 32) by (apply uwrap_small; unfold IRQDESC_START; lia).
  assert (Hge : (v - 32 >=? IRQDESC_NROF_ENTRIES) = false) by (unfold IRQDESC_NROF_ENTRIES; lia).
  unfold routeInterrupt, handleIRQ, unrouteInterrupt. rewrite Hvec, Hge. clear Hvec Hge.
  assert (Hlen : forall (x : IrqDescriptor), length (<[Z.to_nat (v - 32) := x]> (irqDescs s)) = 96%nat)
    by (intros; by rewrite length_insert).
  rewrite !wp_bind. apply wp_readDesc. exists d. split; [done|]. rewrite Hz. cbn [negb Z.eqb].
  rewrite !wp_bind. apply wp_acquireBitmap; [done|]. rewrite !wp_bind. apply wp_readWord.
  exists w. split; [done|]. rewrite !wp_bind. apply wp_writeWord; [simpl; rewrite H1; dlia|].
  rewrite !wp_bind. unfold releaseBitmap. apply wp_modify. rewrite !wp_bind.
  apply wp_writeDesc; [simpl; rewrite H3; lia|]. apply wp_ret. rewrite !wp_bind.
  apply wp_readDesc. eexists. simpl irqDescs. split; [apply list_lookup_insert_eq; lia|].
  simpl handler. destruct (Z.eqb_spec h 0); [done|]. rewrite !wp_bind. apply wp_modify.
  rewrite !wp_bind. apply wp_readDesc. eexists. simpl irqDescs. split; [apply list_lookup_insert_eq; lia|].
  apply wp_writeDesc; [simpl; rewrite Hlen; lia|]. rewrite !wp_bind.
  apply wp_readDesc. eexists. simpl irqDescs. split; [apply list_lookup_insert_eq; rewrite Hlen; lia|].
  simpl handler. destruct (Z.eqb_spec h 0); [done|]. cbn [negb]. apply wp_ret.
  rewrite !wp_bind. apply wp_readDesc. eexists. simpl irqDescs.
  split; [apply list_lookup_insert_eq; rewrite Hlen; lia|]. rewrite !wp_bind.
  apply wp_writeDesc; [simpl; rewrite length_insert, Hlen; lia|]. apply wp_ret.
  rewrite !wp_bind. apply wp_readDesc. eexists. simpl irqDescs.
  split; [apply list_lookup_insert_eq; rewrite length_insert, Hlen; lia|]. simpl handler. cbn [Z.eqb].
  apply wp_ret, wp_ret. simpl. split_and!; [done|done| |].
  - unfold in_use. simpl. unfold IRQDESC_START. rewrite list_lookup_insert_eq by (rewrite H1; dlia). simpl default.
    rewrite uwrap_small by (apply set_bit_range; [eauto|lia]). rewrite set_bit_test by lia.
    by rewrite Z.eqb_refl, orb_true_r.
  - apply list_lookup_insert_eq. rewrite length_insert, Hlen. lia.
Qed.

(** ** Witnesses *)

Section witnesses.
(** Vectors 32 to 39 are in use; no handlers. *)
Definition irq_demo : irqs := mkIrqs [0xFF; 0; 0] false (replicate 96 (mkIrq 0 0 0 0)) [].
Lemma irq_demo_inv : irq_inv irq_demo.
Proof.
  split; [done| |reflexivity|done]. intros i w H.
  destruct i as [|[|[|i]]]; simplify_eq/=; lia.
Qed.

Lemma allocIrqVec_correct_witness :
  wp allocIrqVec irq_demo (fun r s' => irq_inv s' /\ irqDescs s' = irqDescs irq_demo /\
    ((r = 0 /\ s' = irq_demo /\ forall v, is_vector v -> in_use irq_demo v = true) \/
     (is_vector r /\ in_use irq_demo r = false /\
      (forall v, is_vector v -> v < r -> in_use irq_demo v = true) /\
      forall v, is_vector v -> in_use s' v = in_use irq_demo v || (v =? r)))).
Proof. exact (allocIrqVec_correct irq_demo irq_demo_inv). Defined.

Lemma deallocIrqVec_correct_witness :
  wp (deallocIrqVec 35) irq_demo (fun _ s' => irq_inv s' /\ irqDescs s' = irqDescs irq_demo /\
    forall u, is_vector u -> in_use s' u = in_use irq_demo u && negb (u =? 35)).
Proof. apply (deallocIrqVec_correct irq_demo 35 irq_demo_inv). unfold is_vector. lia. Defined.

Lemma routed_interrupt_witness :
  wp (e ← routeInterrupt 0x1234 50 0 7; handleIRQ 50;; e' ← routeInterrupt 0x1234 50 0 7;
      unrouteInterrupt 50;; handleIRQ 50;; mret (e, e')) irq_demo (fun r s' =>
    r = (0, - EBUSY) /\ called s' = called irq_demo ++ [0x1234] /\ in_use s' 50 = true /\
    irqDescs s' !! Z.to_nat (50 - 32) = Some (mkIrq 0 7 0 1)).
Proof.
  apply (routed_interrupt irq_demo 0x1234 50 0 7 (mkIrq 0 0 0 0) irq_demo_inv);
    [unfold is_vector; lia|done|reflexivity|reflexivity].
Defined.
End witnesses.
