(* ===== verification/MemInit.v ===== *)
(** * The boot memory map: [kernel/arch/x86_64/mm/init.c]

    [mmInitPaging] hands the free ranges of the firmware's memory map to the
    low-memory bitmap and to the page stacks. *)

From S2P Require Import Prelude Word Heap PhysPaging LowMem.

Definition ENTRYTYPE_FREE : Z := 1.
Definition NROF_PAGE_STACKS : Z := 4.

Record MmapEntry := mkMmap { attr : Z; maddr : Z; mnrofPages : Z }.

(** The state of both allocators. *)
Record memory := mkMemory { lowm : lowmem; high : phys }.

Definition onLow {A} (m : M lowmem A) : M memory A := fun s =>
  match m (lowm s) with
  | Done (a, b) => Done (a, mkMemory b (high s)) | Fault => Fault | NoFuel => NoFuel
  end.
Definition onHigh {A} (m : M phys A) : M memory A := fun s =>
  match m (high s) with
  | Done (a, p) => Done (a, mkMemory (lowm s) p) | Fault => Fault | NoFuel => NoFuel
  end.
Definition addTotal (n : Z) : M phys unit :=
  modify (fun s => mkPhys (pmem s) (pmap s) (smallPages s) (largePages s) (smallCleanPages s)
    (largeCleanPages s) (freeBufferSmall s) (freeBufferLarge s) (u64 (totalPhysPages s + n))).

(** The loop over high memory; every turn lowers [nrofPages]. *)
Fixpoint releasePages (fuel : nat) (addr nrofPages : Z) : M phys unit :=
  match fuel with
  | O => nofuel
  | S fuel =>
    if nrofPages =? 0 then mret tt
    else if has addr (LARGEPAGE_SIZE - 1) || (nrofPages <? LARGEPAGE_SIZE / PAGE_SIZE) then
      deallocPhysPage addr;;
      releasePages fuel (u64 (addr + PAGE_SIZE)) (nrofPages - 1)
    else
      deallocLargePhysPage addr;;
      releasePages fuel (u64 (addr + LARGEPAGE_SIZE)) (nrofPages - LARGEPAGE_SIZE / PAGE_SIZE)
  end.

(** The stack pages: [n] pages from [addr] mapped from [vaddr] on. *)
Fixpoint mapStacks (n : nat) (vaddr addr : Z) : M phys unit :=
  match n with
  | O => mret tt
  | S n => mmMapPage vaddr addr;; mapStacks n (vaddr + PAGE_SIZE) (addr + PAGE_SIZE)
  end.

Section init.
(** The linker's symbol for the end of the kernel image. *)
Context (BSS_END_ADDR : Z).

(** The part of an entry below [LOWMEM_SIZE]; the rest of it is returned. *)
Definition releaseLow (addr nrofPages : Z) : M memory (option (Z * Z)) :=
  if addr <? LOWMEM_SIZE then
    if u64 (addr + nrofPages * PAGE_SIZE) <=? LOWMEM_SIZE then
      onLow (deallocLowPhysPages addr (u16 nrofPages));; mret None
    else
      let lowPages := (LOWMEM_SIZE - addr) / PAGE_SIZE in
      onLow (deallocLowPhysPages addr (u16 lowPages));;
      mret (Some (LOWMEM_SIZE, u64 (nrofPages - lowPages)))
  else mret (Some (addr, nrofPages)).

(** The set-up of the page stacks in the first range that has room for them:
    the new start and length of the range. *)
Definition setUpStacks (addr nrofPages : Z) : M phys (Z * Z) :=
  let bssEnd := align BSS_END_ADDR LARGEPAGE_SIZE in
  let addr := u64 (addr + PAGE_SIZE) in    (* this page becomes the table for [bssEnd] *)
  let zeroBuffer := bssEnd in
  let bssEnd := u64 (bssEnd + PAGE_SIZE) in
  mapStacks (Z.to_nat NROF_PAGE_STACKS) bssEnd addr;;
  mmInitPhysPaging bssEnd zeroBuffer 0;;
  mret (u64 (addr + PAGE_SIZE * NROF_PAGE_STACKS), nrofPages - 1 - NROF_PAGE_STACKS).

Fixpoint mmInitPagingFrom (mmap : list MmapEntry) (first : bool) : M memory unit :=
  match mmap with
  | [] => mret tt
  | e :: mmap =>
    if negb (attr e =? ENTRYTYPE_FREE) then mmInitPagingFrom mmap first
    else
      rest ← releaseLow (maddr e) (mnrofPages e);
      match rest with
      | None => mmInitPagingFrom mmap first
      | Some (addr, nrofPages) =>
        let setUp := first && (nrofPages >=? NROF_PAGE_STACKS + 1) in
        '(addr, nrofPages) ← (if setUp then onHigh (setUpStacks addr nrofPages) else mret (addr, nrofPages));
        onHigh (addTotal nrofPages);;
        onHigh (releasePages (S (Z.to_nat nrofPages)) addr nrofPages);;
        mmInitPagingFrom mmap (first && negb setUp)
      end
  end.
Definition mmInitPaging (mmap : list MmapEntry) : M memory unit := mmInitPagingFrom mmap true.
End init.

(** ** Properties *)

(** The small pages that the two stacks of [releasePages] count. *)
Definition pages_counted (s : phys) : Z :=
  nrofPages (smallPages s) + 512 * nrofPages (largePages s).

(** A stack that can be pushed on: unlocked and with a mapped page. *)
Definition pushable (s : phys) (k : stk) : Prop :=
  slock (info k s) = false /\ is_Some (pmap s !! stack (info k s)).

Section counting.
Lemma pushPage_count k page s n :
  pushable s k -> nrofPages (info k s) = n -> 0 <= n -> n + 1 < 2 ^ 64 ->
  wp (pushPage k page) s (fun _ s' => nrofPages (info k s') = n + 1 /\ pushable s' k /\
    forall k', k' <> k -> info k' s' = info k' s /\ (pushable s k' -> pushable s' k')).
Proof.
  intros [Hl [P HP]] Hn H0 H1. unfold pushPage. wp_simpl. apply wp_acquireStack. split; [done|].
  psteps. rewrite wp_if. destruct ((_ <=? _) && _).
  - psteps. apply wp_writeAt. rewrite pmap_info. exists P. split; [done|]. psteps.
    rewrite Hn, uwrap_small by lia. split_and!; [done|split; rewrite ?info_pmem, ?info_set; [done|]|].
    + simpl. rewrite pmap_info. by exists P.
    + intros k' Hne. rewrite info_pmem, info_set_ne by done. split; [done|].
      intros [? ?]. split; [by rewrite info_pmem, info_set_ne by done|].
      rewrite info_pmem, info_set_ne by done. simpl. by rewrite pmap_info.
  - assert (Hold : forall Q : Z -> phys -> Prop, (forall o, Q o (set_info k (mkStack (stack (info k s))
        (sp (info k s)) (u64 (nrofPages (info k s) + 1)) true) s)) ->
      wp (if negb (sp (info k s) =? -2) then mmGetPageEntry (stack (info k s)) else mret 0)
        (set_info k (mkStack (stack (info k s)) (sp (info k s)) (u64 (nrofPages (info k s) + 1)) true) s) Q).
    { intros Q HQ. destruct (negb _); [unfold mmGetPageEntry; apply wp_gets|apply wp_ret]; apply HQ. }
    rewrite wp_bind. apply Hold. intros o. psteps. apply wp_writeAt. simpl. rewrite lookup_insert_eq.
    eexists. split; [done|]. psteps. rewrite Hn, uwrap_small by lia. split_and!; [done|split|].
    + by rewrite info_pmem, info_pmap, info_set.
    + rewrite info_pmem, info_pmap, info_set. simpl. rewrite lookup_insert_eq. by eexists.
    + intros k' Hne. rewrite info_pmem, info_pmap, info_set_ne by done. split; [done|].
      intros [? ?]. split; rewrite info_pmem, info_pmap, info_set_ne by done; [done|]. simpl.
      by apply lookup_insert_is_Some'; right.
Qed.

(** Handing a range of high memory to the page stacks ends, and counts
    every page of the range once: as a small page, or as one of the 512 pages
    of an aligned large one. *)
Theorem releasePages_counts fuel addr n s :
  pushable s SmallPages -> pushable s LargePages ->
  0 <= nrofPages (smallPages s) -> 0 <= nrofPages (largePages s) ->
  nrofPages (smallPages s) + n < 2 ^ 64 -> nrofPages (largePages s) + n < 2 ^ 64 ->
  0 <= n < Z.of_nat fuel ->
  wp (releasePages fuel addr n) s (fun _ s' => pages_counted s' = pages_counted s + n).
Proof.
  unfold pages_counted.
  revert addr n s. induction fuel as [|fuel IH]; intros addr n s Hs Hl H1 H2 B1 B2 Hf; [lia|].
  cbn [releasePages]. destruct (Z.eqb_spec n 0) as [->|Hn]; [apply wp_ret; lia|].
  change (LARGEPAGE_SIZE / PAGE_SIZE) with 512.
  destruct (has _ _ || _) eqn:E; apply wp_bind.
  - unfold deallocPhysPage.
    wp_use (pushPage_count SmallPages addr s (nrofPages (smallPages s)) Hs eq_refl H1); [lia|].
    intros _ s1 (E1 & Hs1 & Ho). destruct (Ho LargePages) as [E2 Hl1]; [done|].
    simpl in E1, E2. specialize (Hl1 Hl).
    wp_use (IH (u64 (addr + PAGE_SIZE)) (n - 1) s1 Hs1 Hl1); rewrite ?E1, ?E2; try lia.
  - apply orb_false_elim in E as [_ E%Z.ltb_ge]. unfold deallocLargePhysPage.
    wp_use (pushPage_count LargePages addr s (nrofPages (largePages s)) Hl eq_refl H2); [lia|].
    intros _ s1 (E1 & Hl1 & Ho). destruct (Ho SmallPages) as [E2 Hs1]; [done|].
    simpl in E1, E2. specialize (Hs1 Hs).
    wp_use (IH (u64 (addr + LARGEPAGE_SIZE)) (n - 512) s1 Hs1 Hl1); rewrite ?E1, ?E2; try lia.
Qed.

Lemma releasePages_counts_witness :
  let s := set_pmap (<[0x8000 := 0x5000]> (pmap two_large)) two_large in
  wp (releasePages 1000 0x1FF000 600) s (fun _ s' => pages_counted s' = 1024 + 600).
Proof.
  intros s. apply (releasePages_counts 1000 0x1FF000 600 s); try done.
  all: split; [done|by eexists].
Defined.
End counting.
