(* ===== verification/Efi.v ===== *)
(** * The boot loader: [arch/x86_64/init/efi/main.c] and [initrd.c]

    The memory map of the firmware becomes, in place, the memory map that
    [MemInit] reads; the frame buffer, the ACPI root pointer and the path of the
    initial RAM disk.  The firmware is the class [BootServices]; memory is the
    byte memory of [Bytes]. *)

From S2P Require Import Prelude Word Bytes.
From S2P Require MemInit.

Definition PAGE_SIZE : Z := 0x1000.
Definition sizeofMmapEntry : Z := 24.
Definition sizeofDescriptor : Z := 40.

(** Statuses, and what a call gives back. *)
Class BootServices (E : Type) := {
  AllocatePages : Z -> E -> Z * Z * E;                        (* status, address *)
  FreePages : Z -> Z -> E -> E;
  (* status, size, bytes of the map, key, size of a descriptor *)
  GetMemoryMap : Z -> E -> Z * Z * list Z * Z * Z * E
}.

Record mode := mkMode {
  FrameBufferBase : Z; FrameBufferSize : Z; HorizontalResolution : Z; VerticalResolution : Z; PixelsPerScanLine : Z;
  PixelFormat : Z; RedMask : Z; GreenMask : Z; BlueMask : Z; ReservedMask : Z
}.
Record BootInfo := mkBootInfo {
  mmap : Z; mmapLen : Z; lowMemReservedEnd : Z; initrd : Z; initrdLen : Z;
  fbAddr : Z; fbSize : Z; fbXRes : Z; fbYres : Z; fbPitch : Z; fbBpp : Z; fbIsRgb : bool;
  fbR : Z * Z; fbG : Z * Z; fbB : Z * Z; fbRes : Z * Z;        (* size and shift *)
  rsdp : Z
}.
Record efi (E : Type) := mkEfi { emem : gmap Z Z; env : E; info : BootInfo }.
Arguments mkEfi {E}.
Arguments emem {E}.
Arguments env {E}.
Arguments info {E}.
Definition bi_mmap p n e (b : BootInfo) := mkBootInfo p n e (initrd b) (initrdLen b) (fbAddr b) (fbSize b) (fbXRes b) (fbYres b) (fbPitch b) (fbBpp b) (fbIsRgb b) (fbR b) (fbG b) (fbB b) (fbRes b) (rsdp b).
Definition bi_fb (m : mode) isRgb r g bl res (b : BootInfo) :=
  mkBootInfo (mmap b) (mmapLen b) (lowMemReservedEnd b) (initrd b) (initrdLen b) (FrameBufferBase m) (FrameBufferSize m) (HorizontalResolution m) (VerticalResolution m)
    (u32 (PixelsPerScanLine m * 4)) 32 isRgb r g bl res (rsdp b).
Definition bi_rsdp p (b : BootInfo) := mkBootInfo (mmap b) (mmapLen b) (lowMemReservedEnd b) (initrd b) (initrdLen b) (fbAddr b) (fbSize b) (fbXRes b) (fbYres b) (fbPitch b) (fbBpp b) (fbIsRgb b) (fbR b) (fbG b) (fbB b) (fbRes b) p.

(** ** The memory map *)

(** The kind of memory that the kernel knows. *)
Definition attrOf (type : Z) : Z :=
  if (type =? 3) || (type =? 4) || (type =? 7) then 1 else if type =? 9 then 3 else 2.
(** [oldMmap] and [newMmap] are the same buffer. *)
Fixpoint translateMmap (n : nat) (i mmapBuf mmapDescSize : Z) : M (gmap Z Z) unit :=
  match n with
  | O => mret tt
  | S n =>
      let oldMmap := mmapBuf + i * mmapDescSize in
      let newMmap := mmapBuf + i * sizeofMmapEntry in
      addr ← ld 8 (oldMmap + 8);
      nrofPages ← ld 8 (oldMmap + 24);
      type ← ld 4 oldMmap;
      stBytes (toBytes 8 addr) newMmap;;
      stBytes (toBytes 8 nrofPages) (newMmap + 8);;
      stBytes (toBytes 4 (attrOf type)) (newMmap + 16);;
      translateMmap n (i + 1) mmapBuf mmapDescSize
  end.

Section loader.
Context {E : Type} `{BootServices E}.
Notation eM := (M (efi E)).
Definition onMem {A} (m : M (gmap Z Z) A) : eM A := fun s =>
  match m (emem s) with Done (a, x) => Done (a, mkEfi x (env s) (info s)) | Fault => Fault | NoFuel => NoFuel end.
Definition service {A} (f : E -> A * E) : eM A := fun s => let '(a, e) := f (env s) in Done (a, mkEfi (emem s) e (info s)).
Definition setInfo (f : BootInfo -> BootInfo) : eM unit := modify (fun s => mkEfi (emem s) (env s) (f (info s))).
(** The firmware writes the map to the buffer. *)
Definition getMemoryMap (size buf : Z) : eM (Z * Z * Z * Z) := fun s =>
  let '(status, size, l, key, descSize, e) := GetMemoryMap size (env s) in
  Done ((status, size, key, descSize), mkEfi (if status =? 0 then store buf l (emem s) else emem s) e (info s)).

(** The buffer, its size, the key and the size of a descriptor; [None] is the
    error.  Every turn asks for one page more. *)
Fixpoint readMmap (fuel : nat) (mmapSize : Z) : eM (option (Z * Z * Z * Z)) :=
  match fuel with
  | O => nofuel
  | S fuel =>
      '(status, buf) ← service (AllocatePages (mmapSize / PAGE_SIZE));
      if negb (status =? 0) then mret None
      else
        '(ret, mmapSize, key, descSize) ← getMemoryMap mmapSize buf;
        if ret =? 0 then mret (Some (buf, mmapSize, key, descSize))
        else if Z.land ret 0xFFFFFFFF =? 5 then
          service (fun e => (tt, FreePages buf (mmapSize / PAGE_SIZE) e));;
          readMmap fuel (u64 (mmapSize + PAGE_SIZE))
        else mret None
  end.
(** The key, or the error. *)
Definition efiHandleMmap (fuel : nat) : eM (option Z) :=
  r ← readMmap fuel PAGE_SIZE;
  match r with
  | None => mret None
  | Some (buf, mmapSize, key, descSize) =>
      if descSize =? 0 then fault
      else
        let mmapLen := mmapSize / descSize in
        onMem (translateMmap (Z.to_nat mmapLen) 0 buf descSize);;
        setInfo (bi_mmap buf mmapLen 0x1000);;
        mret (Some key)
  end.

(** ** The frame buffer *)

(** Shift and size of a mask; what is not found keeps its value. *)
Fixpoint shiftAndSizeFrom (n : nat) (i : Z) (mask : Z) (on : bool) (shift size : Z) : Z * Z :=
  match n with
  | O => (shift, size)
  | S n =>
      let bit := Z.testbit mask i in
      if negb on && bit then shiftAndSizeFrom n (i + 1) mask true i size
      else if on && negb bit then (shift, i - shift)
      else shiftAndSizeFrom n (i + 1) mask on shift size
  end.
Definition efiGetShiftAndSize (mask : Z) (old : Z * Z) : Z * Z :=
  let '(shift, size) := shiftAndSizeFrom 32 0 mask false old.2 old.1 in (size, shift).
Definition efiHandleGop (m : option mode) : eM bool :=
  match m with
  | None => mret false
  | Some m =>
      b ← gets info;
      if PixelFormat m =? 0 then setInfo (bi_fb m false (8, 0) (8, 8) (8, 16) (8, 24));; mret true
      else if PixelFormat m =? 1 then setInfo (bi_fb m true (fbR b) (fbG b) (fbB b) (fbRes b));; mret true
      else if PixelFormat m =? 2 then
        setInfo (bi_fb m (fbIsRgb b) (efiGetShiftAndSize (RedMask m) (fbR b)) (efiGetShiftAndSize (GreenMask m) (fbG b))
          (efiGetShiftAndSize (BlueMask m) (fbB b)) (efiGetShiftAndSize (ReservedMask m) (fbRes b)));; mret true
      else setInfo (bi_fb m (fbIsRgb b) (fbR b) (fbG b) (fbB b) (fbRes b));; mret false
  end.

(** ** The ACPI root pointer *)

Definition efiAcpiTableGuid : list Z := toBytes 4 0x8868E871 ++ toBytes 2 0xE4F1 ++ toBytes 2 0x11D3 ++ [0xBC; 0x22; 0x00; 0x80; 0xC7; 0x3C; 0x88; 0x81].
(** The configuration table: identifiers and addresses. *)
Definition efiHandleRsdp (table : list (list Z * Z)) : eM bool :=
  match list_find (fun e => e.1 = efiAcpiTableGuid) table with
  | Some (_, e) => setInfo (bi_rsdp e.2);; mret true
  | None => mret false
  end.
End loader.

(** ** The path of the initial RAM disk: [initrd.c] *)

Definition BACKSLASH : Z := 92.
Definition initrdPath : list Z := [105; 110; 105; 116; 114; 100; 0].
(** A node of a device path: type, subtype, and the text behind them. *)
Record node := mkNode { ntype : Z; nsub : Z; ntext : list Z }.   (* characters, with the final 0 *)
(** [Length]. *)
Definition nodeLength (n : node) : Z := 4 + 2 * Z.of_nat (length (ntext n)).
Definition isFilePath (n : node) : bool := (ntype n =? 4) && (nsub n =? 4).
Definition poolSize (nodes : list node) : Z := foldr (fun n acc => (if isFilePath n then nodeLength n - 4 + 2 else 0) + acc) 0 nodes + 2.

(** The buffer of [cap] characters is filled up to [buf]. *)
Definition putc16 (cap : Z) (buf : list Z) (c : Z) : option (list Z) := if Z.of_nat (length buf) <? cap then Some (buf ++ [c]) else None.
Fixpoint put16 (cap : Z) (buf l : list Z) : option (list Z) :=
  match l with [] => Some buf | c :: l => buf ← putc16 cap buf c; put16 cap buf l end.
(** The text and [size]; a node without a character is cut to less than nothing. *)
Fixpoint pathNodes (cap : Z) (nodes : list node) (buf : list Z) (size : Z) : option (list Z * Z) :=
  match nodes with
  | [] => Some (buf, size)
  | n :: nodes =>
      if isFilePath n then
        let curSize := nodeLength n - 4 - 2 in
        c ← head (ntext n);
        let lead := negb (c =? BACKSLASH) in
        buf ← (if lead then putc16 cap buf BACKSLASH else Some buf);
        buf ← put16 cap buf (take (Z.to_nat (Z.quot curSize 2)) (ntext n));
        pathNodes cap nodes buf (u64 (size + (if lead then 2 else 0) + curSize))
      else pathNodes cap nodes buf size
  end.
Definition getKernelPath (nodes : list node) : option (list Z * Z) :=
  let cap := poolSize nodes / 2 in
  '(buf, size) ← pathNodes cap nodes [] 0;
  buf ← putc16 cap buf 0;
  Some (buf, s64 size).

(** [kernelPathSize] cut behind the last backslash. *)
Fixpoint cutFrom (n : nat) (kernelPath : list Z) (size : Z) : Z :=
  match n with
  | O => size
  | S i => if bool_decide (kernelPath !! i = Some BACKSLASH) then (Z.of_nat i + 1) * 2 else cutFrom i kernelPath size
  end.
(** [newInitrdPath]. *)
Definition initrdFile (nodes : list node) : option (list Z) :=
  '(kernelPath, kernelPathSize) ← getKernelPath nodes;
  if kernelPathSize <? 0 then None
  else
    let kernelPathSize := cutFrom (Z.to_nat (kernelPathSize / 2)) kernelPath kernelPathSize in
    Some (take (Z.to_nat (kernelPathSize / 2)) kernelPath ++ initrdPath).
(** Pages for the file. *)
Definition initrdNrofPages (initrdSize : Z) : Z := if Z.land initrdSize 0xFFF =? 0 then initrdSize / 0x1000 else initrdSize / 0x1000 + 1.

(** ** The memory map is translated in place *)

Record descriptor := mkDescriptor { dtype : Z; physicalStart : Z; virtualStart : Z; dpages : Z; attribute : Z; dpad : Z; rest : list Z }.
Definition descBytes (d : descriptor) : list Z :=
  toBytes 4 (dtype d) ++ toBytes 4 (dpad d) ++ toBytes 8 (physicalStart d) ++ toBytes 8 (virtualStart d) ++ toBytes 8 (dpages d) ++ toBytes 8 (attribute d) ++ rest d.
Definition wfDescriptor (descSize : Z) (d : descriptor) : Prop :=
  0 <= dtype d < 2 ^ 32 /\ 0 <= physicalStart d < 2 ^ 64 /\ 0 <= dpages d < 2 ^ 64 /\ Z.of_nat (length (descBytes d)) = descSize.
(** The entry that the kernel sees. *)
Definition entryOf (d : descriptor) : MemInit.MmapEntry := MemInit.mkMmap (attrOf (dtype d)) (physicalStart d) (dpages d).
Definition entryBytes (e : MemInit.MmapEntry) : list Z := toBytes 8 (MemInit.maddr e) ++ toBytes 8 (MemInit.mnrofPages e) ++ toBytes 4 (MemInit.attr e).
(** [mmap[i]] of [struct MmapEntry]s. *)
Definition mmapAt (m : gmap Z Z) (mmap : Z) (es : list MemInit.MmapEntry) : Prop := forall i e, es !! i = Some e -> text_at m (mmap + Z.of_nat i * sizeofMmapEntry) (entryBytes e).
Lemma length_entryBytes e : length (entryBytes e) = 20%nat.
Proof. unfold entryBytes. by rewrite !length_app, !length_toBytes. Qed.

Lemma wp_ldNum n a x m (Q : Z -> gmap Z Z -> Prop) : text_at m a (toBytes n x) -> 0 <= x < 256 ^ Z.of_nat n -> 0 <= a -> a + Z.of_nat n < 2 ^ 64 -> Q x m -> wp (ld n a) m Q.
Proof.
  intros Ht Hx Ha Hn HQ. unfold ld. apply wp_fmap. rewrite <- (length_toBytes n x) at 1. apply ldBytes_spec; [done|done|by rewrite length_toBytes|]. by rewrite fromBytes_toBytes.
Qed.
Lemma desc_fields m a d : text_at m a (descBytes d) -> text_at m a (toBytes 4 (dtype d)) /\ text_at m (a + 8) (toBytes 8 (physicalStart d)) /\ text_at m (a + 24) (toBytes 8 (dpages d)).
Proof.
  intros Ht. unfold descBytes in Ht. apply text_at_app in Ht as [H1 Ht]. apply text_at_app in Ht as [_ Ht]. apply text_at_app in Ht as [H2 Ht]. apply text_at_app in Ht as [_ Ht]. apply text_at_app in Ht as [H3 _].
  rewrite !length_toBytes in *. split; [done|]. replace (a + 8) with (a + Z.of_nat 4 + Z.of_nat 4) by lia. split; [done|]. by replace (a + 24) with (a + Z.of_nat 4 + Z.of_nat 4 + Z.of_nat 8 + Z.of_nat 8) by lia.
Qed.
(** Writing an entry. *)
Lemma stEntry_spec e a m (Q : unit -> gmap Z Z -> Prop) (k : M (gmap Z Z) unit) : mapped m a 20 -> 0 <= a -> a + 20 < 2 ^ 64 -> wp k (store a (entryBytes e) m) Q ->
  wp (stBytes (toBytes 8 (MemInit.maddr e)) a;; stBytes (toBytes 8 (MemInit.mnrofPages e)) (a + 8);; stBytes (toBytes 4 (MemInit.attr e)) (a + 16);; k) m Q.
Proof.
  intros Hm Ha Hl HQ. unfold entryBytes in HQ. rewrite !store_app, !length_toBytes in HQ.
  apply wp_bind. wp_use (stBytes_spec (V := gmap Z Z)); [cbn [bytes plainMem]; rewrite length_toBytes; by eapply mapped_part; [exact Hm|lia|lia]|done|rewrite length_toBytes; lia|]. intros _ m1 ->. cbn [setBytes bytes plainMem].
  apply wp_bind. wp_use (stBytes_spec (V := gmap Z Z)); [cbn [bytes plainMem]; rewrite length_toBytes; apply mapped_store; by eapply mapped_part; [exact Hm|lia|lia]|lia|rewrite length_toBytes; lia|]. intros _ m2 ->. cbn [setBytes bytes plainMem].
  apply wp_bind. wp_use (stBytes_spec (V := gmap Z Z)); [cbn [bytes plainMem]; rewrite length_toBytes; do 2 apply mapped_store; by eapply mapped_part; [exact Hm|lia|lia]|lia|rewrite length_toBytes; lia|]. intros _ m3 ->. cbn [setBytes bytes plainMem].
  replace (a + 16) with (a + Z.of_nat 8 + Z.of_nat 8) by lia. exact HQ.
Qed.
Lemma attrOf_range t : 0 <= attrOf t < 2 ^ 32.
Proof. unfold attrOf. repeat case_match; lia. Qed.

Lemma length_descs descSize ds : Forall (wfDescriptor descSize) ds -> Z.of_nat (length (concat (descBytes <$> ds))) = Z.of_nat (length ds) * descSize.
Proof.
  induction ds as [|d ds IH]; intros Hwf; [done|]. apply Forall_cons in Hwf as [(_ & _ & _ & Hd) Hwf]. specialize (IH Hwf).
  rewrite fmap_cons. cbn [concat length]. rewrite length_app. nia.
Qed.
(** C39: The loader turns the memory map of the firmware into that of the kernel
    in the same buffer: although every entry is written over descriptors, each
    one holds the start, the length and the kind of its own descriptor, when
    descriptors are at least as long as the specification says. *)
Theorem translateMmap_in_place descSize buf m ds : sizeofDescriptor <= descSize -> Forall (wfDescriptor descSize) ds ->
  0 <= buf -> buf + Z.of_nat (length ds) * descSize < 2 ^ 64 -> text_at m buf (concat (descBytes <$> ds)) ->
  wp (translateMmap (length ds) 0 buf descSize) m (fun _ m' => mmapAt m' buf (entryOf <$> ds)).
Proof.
  intros Hsz Hwf Hb Hend Ht. unfold sizeofDescriptor in Hsz.
  assert (Hgen : forall done todo m, length (entryOf <$> done) = length done -> Forall (wfDescriptor descSize) todo -> mmapAt m buf (entryOf <$> done) ->
    text_at m (buf + Z.of_nat (length done) * descSize) (concat (descBytes <$> todo)) -> mapped m buf (Z.of_nat (length done + length todo) * descSize) ->
    buf + Z.of_nat (length done + length todo) * descSize < 2 ^ 64 ->
    wp (translateMmap (length todo) (Z.of_nat (length done)) buf descSize) m (fun _ m' => mmapAt m' buf (entryOf <$> (done ++ todo)))).
  2: { specialize (Hgen [] ds m eq_refl Hwf). cbn in Hgen. apply Hgen; [intros i e Hi; done|by rewrite Z.add_0_r| |done].
    replace (Z.of_nat (length ds) * descSize) with (Z.of_nat (length (concat (descBytes <$> ds)))); [by apply mapped_text|by rewrite (length_descs _ _ Hwf)]. }
  clear m ds Hwf Hend Ht. intros dn todo. revert dn. induction todo as [|d todo IH]; intros dn m Hl Hwf Hdone Htodo Hm Hend; cbn [length translateMmap] in *.
  { apply wp_ret. by rewrite app_nil_r. }
  apply Forall_cons in Hwf as [(W1 & W2 & W3 & W4) Hwf]. cbn [fmap list_fmap concat] in Htodo. apply text_at_app in Htodo as [Hd Htodo]. rewrite W4 in Htodo.
  destruct (desc_fields _ _ _ Hd) as (F1 & F2 & F3). set (n := Z.of_nat (length dn)) in *.
  assert (Hn : 0 <= n /\ n * 40 <= n * descSize /\ Z.of_nat (length dn + S (length todo)) * descSize = n * descSize + descSize + Z.of_nat (length todo) * descSize /\ 0 <= Z.of_nat (length todo) * descSize) by (unfold n; nia).
  destruct Hn as (N1 & N2 & N3 & N4). rewrite N3 in Hm, Hend. unfold sizeofMmapEntry in *.
  apply wp_bind. eapply (wp_ldNum 8); [exact F2|lia|lia|lia|]. apply wp_bind. eapply (wp_ldNum 8); [exact F3|lia|lia|lia|]. apply wp_bind. eapply (wp_ldNum 4); [exact F1|lia|lia|lia|].
  apply (stEntry_spec (entryOf d)); [by eapply mapped_part; [exact Hm|lia|lia]|lia|lia|]. set (m1 := store _ _ m).
  replace (n + 1) with (Z.of_nat (length (dn ++ [d]))) by (rewrite length_app; cbn; lia).
  eapply wp_mono; [apply (IH (dn ++ [d]) m1)|].
  - by rewrite length_fmap.
  - done.
  - intros i e Hi. unfold m1. rewrite fmap_app in Hi. apply lookup_app_Some in Hi as [Hi|[Hge Hi]].
    + apply text_at_store_apart; [by apply Hdone|]. rewrite length_entryBytes. pose proof (lookup_lt_Some _ _ _ Hi) as Hlt. rewrite length_fmap in Hlt. unfold sizeofMmapEntry. lia.
    + rewrite length_fmap in Hge, Hi. destruct (i - length dn)%nat eqn:Ei; [|done]. injection Hi as <-. replace (Z.of_nat i) with n by (unfold n; lia). apply store_text.
  - rewrite length_app. cbn [length]. replace (buf + Z.of_nat (length dn + 1) * descSize) with (buf + n * descSize + descSize) by (unfold n; lia).
    apply text_at_store_apart; [done|]. rewrite length_entryBytes. right. lia.
  - apply mapped_store. rewrite length_app. cbn [length]. replace (Z.of_nat (length dn + 1 + length todo) * descSize) with (n * descSize + descSize + Z.of_nat (length todo) * descSize) by (unfold n; lia). done.
  - rewrite length_app. cbn [length]. unfold n in *. nia.
  - cbv beta. intros _ m' Hres. by rewrite <- app_assoc in Hres.
Qed.

(** ** Masks *)

Definition contiguous (shift size : Z) : Z := Z.shiftl (Z.ones size) shift.
Definition runs : list (Z * Z) := filter (fun p => p.1 + p.2 < 32) (list_prod (seqZ 0 32) (seqZ 1 31)).
Lemma runs_found : Forall (fun p => forall old, efiGetShiftAndSize (contiguous p.1 p.2) old = (p.2, p.1)) runs.
Proof. let l := eval vm_compute in runs in change runs with l. repeat (apply Forall_cons; split; [by intros []|]). by apply Forall_nil. Qed.
(** A run of bits below bit 31 has the shift and the size that the loader
    finds; one that ends with bit 31 keeps the size from before. *)
Theorem efiGetShiftAndSize_correct shift size old : 0 <= shift -> 0 < size -> shift + size < 32 -> efiGetShiftAndSize (contiguous shift size) old = (size, shift).
Proof.
  intros Hs Hz Hlt. pose proof runs_found as Hr. rewrite Forall_forall in Hr. apply (Hr (shift, size)). apply list_elem_of_filter. split; [done|].
  apply list_elem_of_In, in_prod; apply list_elem_of_In, elem_of_seqZ; lia.
Qed.
Theorem top_mask_keeps_size old : efiGetShiftAndSize (contiguous 24 8) old = (old.1, 24).
Proof. by destruct old. Qed.

(** ** The path of the initial RAM disk *)

(** A node with the text [s], and what it adds to the path. *)
Definition fileNode (s : list Z) : node := mkNode 4 4 (s ++ [0]).
Definition lead (s : list Z) : list Z := if bool_decide (head s = Some BACKSLASH) then s else BACKSLASH :: s.
Definition pathOf (ss : list (list Z)) : list Z := concat (lead <$> ss).
Lemma put16_room cap l : forall buf, Z.of_nat (length buf + length l) <= cap -> put16 cap buf l = Some (buf ++ l).
Proof.
  induction l as [|c l IH]; intros buf Hc; cbn [put16 length] in *; [by rewrite app_nil_r|]. unfold putc16. rewrite (proj2 (Z.ltb_lt _ _)) by lia. cbn.
  rewrite IH by (rewrite length_app; cbn; lia). by rewrite <- app_assoc.
Qed.
Definition roomFor (ss : list (list Z)) : Z := foldr (fun s acc => Z.of_nat (length s) + 2 + acc) 0 ss.
Lemma nodeLength_file s : nodeLength (fileNode s) - 4 - 2 = 2 * Z.of_nat (length s).
Proof. unfold nodeLength, fileNode. cbn [ntext]. rewrite length_app. cbn [length]. lia. Qed.
Lemma roomFor_nonneg ss : 0 <= roomFor ss.
Proof. unfold roomFor. induction ss as [|s ss IH]; cbn [foldr]; lia. Qed.
Lemma poolSize_files ss : poolSize (fileNode <$> ss) = 2 * roomFor ss + 2.
Proof.
  unfold poolSize. enough (E : foldr (fun n acc => (if isFilePath n then nodeLength n - 4 + 2 else 0) + acc) 0 (fileNode <$> ss) = 2 * roomFor ss) by lia.
  induction ss as [|s ss IH]; [done|]. rewrite fmap_cons. cbn [foldr]. rewrite IH. unfold nodeLength, roomFor. cbn [isFilePath fileNode ntype nsub ntext Z.eqb Pos.eqb andb foldr]. rewrite length_app. cbn [length]. lia.
Qed.
Lemma pathNodes_spec cap ss : forall buf size, Forall (fun s => s <> []) ss -> Z.of_nat (length buf) + roomFor ss < cap -> 0 <= size -> size + 2 * roomFor ss < 2 ^ 63 ->
  pathNodes cap (fileNode <$> ss) buf size = Some (buf ++ pathOf ss, size + 2 * Z.of_nat (length (pathOf ss))) /\ Z.of_nat (length (pathOf ss)) <= roomFor ss.
Proof.
  induction ss as [|s ss IH]; intros buf size Hne Hc Hs Hb; [cbn; by rewrite app_nil_r, Z.add_0_r|]. apply Forall_cons in Hne as [Hs0 Hne]. rewrite fmap_cons.
  assert (Hr : roomFor (s :: ss) = Z.of_nat (length s) + 2 + roomFor ss) by done. pose proof (roomFor_nonneg ss) as Hr0.
  cbn [pathNodes]. change (isFilePath (fileNode s)) with true. change (ntext (fileNode s)) with (s ++ [0]). rewrite nodeLength_file, Z.mul_comm, Z.quot_mul, Nat2Z.id, take_app_length, Z.mul_comm by done.
  destruct s as [|c s]; [done|]. cbn [app head]. unfold mbind, option_bind. rewrite Hr in *.
  assert (El : pathOf ((c :: s) :: ss) = lead (c :: s) ++ pathOf ss) by done. rewrite El. unfold lead. cbn [head length] in *.
  destruct (Z.eqb_spec c BACKSLASH) as [->|Hbs]; cbn [negb].
  - rewrite bool_decide_true by done. rewrite put16_room by (cbn [length]; lia).
    destruct (IH (buf ++ BACKSLASH :: s) (u64 (size + 0 + 2 * Z.of_nat (S (length s)))) Hne) as [E1 E2]; [rewrite length_app; cbn; lia|rewrite uwrap_small; lia|rewrite uwrap_small; lia|].
    rewrite E1. rewrite uwrap_small by lia. rewrite !length_app, <- app_assoc. cbn [length]. split; [do 2 f_equal; lia|lia].
  - rewrite bool_decide_false by (by intros [= ?]). unfold putc16 at 1. rewrite (proj2 (Z.ltb_lt _ _)) by lia. rewrite put16_room by (rewrite length_app; cbn [length]; lia).
    destruct (IH ((buf ++ [BACKSLASH]) ++ c :: s) (u64 (size + 2 + 2 * Z.of_nat (S (length s)))) Hne) as [E1 E2]; [rewrite !length_app; cbn; lia|rewrite uwrap_small; lia|rewrite uwrap_small; lia|].
    rewrite E1. rewrite uwrap_small by lia. rewrite !length_app, <- !app_assoc. cbn [length app]. split; [do 2 f_equal; lia|lia].
Qed.
Lemma cutFrom_spec path d f size : BACKSLASH ∉ f -> path = d ++ BACKSLASH :: f -> forall rest, cutFrom (length path) (path ++ rest) size = (Z.of_nat (length d) + 1) * 2.
Proof.
  intros Hf ->. induction f as [|c f IH] using rev_ind; intros rest.
  - rewrite length_app. cbn [length]. rewrite Nat.add_1_r. cbn [cutFrom]. rewrite bool_decide_true; [done|]. rewrite <- app_assoc. cbn [app]. by apply list_lookup_middle.
  - apply not_elem_of_app in Hf as [Hf Hc]. rewrite app_comm_cons, app_assoc, length_app. cbn [length]. rewrite Nat.add_1_r. cbn [cutFrom]. rewrite bool_decide_false.
    + rewrite <- app_assoc. by apply IH.
    + rewrite <- app_assoc. cbn [app]. rewrite list_lookup_middle by done. set_solver.
Qed.
Lemma last_backslash ss : ss <> [] -> exists d f, pathOf ss = d ++ BACKSLASH :: f /\ BACKSLASH ∉ f.
Proof.
  intros Hne. assert (Hin : BACKSLASH ∈ pathOf ss).
  { destruct ss as [|s ss]; [done|]. unfold pathOf. rewrite fmap_cons. cbn [concat]. apply elem_of_app. left. unfold lead. case_bool_decide as Eh; [|by left]. destruct s; [done|]. injection Eh as ->. by left. }
  induction (pathOf ss) as [|c l IH] using rev_ind; [by apply elem_of_nil in Hin|]. destruct (decide (c = BACKSLASH)) as [->|Hc].
  - exists l, []. split; [done|set_solver].
  - apply elem_of_app in Hin as [Hin|Hin]; [|set_solver]. destruct (IH Hin) as (d & f & -> & Hf). exists d, (f ++ [c]). split; [by rewrite <- app_assoc|set_solver].
Qed.
(** The initial RAM disk is the file [initrd] in the directory of the loader:
    what the path of the loader has up to its last backslash, and the name; the
    pool that was asked for has room for the path. *)
Theorem initrdFile_correct ss : ss <> [] -> Forall (fun s => s <> []) ss -> roomFor ss < 2 ^ 60 ->
  exists d f, pathOf ss = d ++ BACKSLASH :: f /\ BACKSLASH ∉ f /\ initrdFile (fileNode <$> ss) = Some (d ++ BACKSLASH :: initrdPath).
Proof.
  intros Hne Hs Hb. destruct (last_backslash ss Hne) as (d & f & Ep & Hf). exists d, f. split; [done|]. split; [done|].
  unfold initrdFile, getKernelPath. rewrite poolSize_files. replace ((2 * roomFor ss + 2) / 2) with (roomFor ss + 1) by dlia.
  destruct (pathNodes_spec (roomFor ss + 1) ss [] 0 Hs) as [E1 E2]; [cbn; lia|done|lia|]. cbn [app] in E1. rewrite Z.add_0_l in E1. unfold mbind, option_bind. rewrite E1.
  unfold putc16. rewrite (proj2 (Z.ltb_lt _ _)) by lia. rewrite swrap_small by lia. rewrite (proj2 (Z.ltb_ge _ _)) by lia.
  replace (Z.to_nat (2 * Z.of_nat (length (pathOf ss)) / 2)) with (length (pathOf ss)) by dlia. rewrite (cutFrom_spec _ d f _ Hf Ep).
  replace (Z.to_nat ((Z.of_nat (length d) + 1) * 2 / 2)) with (length (d ++ [BACKSLASH])) by (rewrite length_app; cbn [length]; dlia).
  rewrite Ep. replace ((d ++ BACKSLASH :: f) ++ [0]) with ((d ++ [BACKSLASH]) ++ f ++ [0]) by (by rewrite <- !app_assoc). rewrite take_app_length. by rewrite <- app_assoc.
Qed.

Section witnesses.
(** One usable and one reserved range in descriptors of 48 bytes. *)
Definition demoDescriptors : list descriptor := [mkDescriptor 7 0x100000 0 0x500 15 0 (replicate 8 0xAA); mkDescriptor 0 0x600000 0 0x10 15 0 (replicate 8 0xAA)].
Lemma translateMmap_in_place_witness :
  wp (translateMmap 2 0 0x8000 48) (store 0x8000 (concat (descBytes <$> demoDescriptors)) ∅) (fun _ m' =>
    mmapAt m' 0x8000 [MemInit.mkMmap 1 0x100000 0x500; MemInit.mkMmap 2 0x600000 0x10]).
Proof.
  apply (translateMmap_in_place 48 0x8000 (store 0x8000 (concat (descBytes <$> demoDescriptors)) ∅) demoDescriptors).
  - unfold sizeofDescriptor. lia.
  - repeat constructor; by vm_compute.
  - lia.
  - cbn. lia.
  - apply store_text.
Defined.

(** A firmware whose map has 9000 bytes, and what it was asked for. *)
Inductive asked := Allocated (pages : Z) | Freed (pages : Z) | Map (size : Z).
#[local] Instance small_firmware : BootServices (list asked) := {
  AllocatePages n l := (0, 0x10000, Allocated n :: l);
  FreePages _ n l := Freed n :: l;
  GetMemoryMap size l := if size <? 9000 then (5, 9000, [], 0, 48, Map size :: l) else (0, 9000, [], 1, 48, Map size :: l)
}.
Definition noInfo : BootInfo := mkBootInfo 0 0 0 0 0 0 0 0 0 0 0 false (0, 0) (0, 0) (0, 0) (0, 0) 0.
(** The size that the firmware wants replaces that of the buffer: two pages are
    freed where one was allocated, and then the firmware is promised more bytes
    than the pages have. *)
Theorem readMmap_frees_too_much :
  wp (readMmap 5 PAGE_SIZE) (mkEfi ∅ [] noInfo) (fun _ s' => rev (env s') = [Allocated 1; Map 4096; Freed 2; Allocated 3; Map 13096]).
Proof. by vm_compute. Qed.
End witnesses.
