(* ===== verification/PeBuild.v ===== *)
(** * The loader image: [arch/x86_64/init/efi/tools/build.c]

    The tool that puts a PE header before the kernel: the loadable segments of
    the ELF file become sections.  Files are lists of bytes. *)

From S2P Require Import Prelude Word Bytes.

Definition NROF_SECTIONS : Z := 3.
Definition VMEM_OFFSET : Z := 0xFFFFFFFF80000000.
Definition sizeofElfPHEntry : Z := 56.
Definition sizeofPeHeader : Z := 368.
Definition HEADER_SIZE : Z := 0x1000.

Record PeSect := mkSect { sname : list Z; virtualSize : Z; virtualAddress : Z; rawSize : Z; rawPointer : Z; characteristics : Z }.
Record ElfHeader := mkElf { magic : list Z; etype : Z; machine : Z; entryAddr : Z; phOff : Z; phentSize : Z; phnum : Z }.
Record ElfPHEntry := mkPH { ptype : Z; pflags : Z; pOffset : Z; pVAddr : Z; pFileSz : Z; pMemSz : Z }.
(** The fields of the header that the tool fills in, [curPESection] and
    [imageEnd]. *)
Record pe := mkPe {
  sects : list PeSect; baseOfText : Z; sizeOfCode : Z; sizeOfInitializedData : Z; entryPoint : Z; sizeOfImage : Z;
  curPESection : Z; imageEnd : Z
}.
Definition noSect : PeSect := mkSect [] 0 0 0 0 0.
Definition peHdr : pe := mkPe (replicate 3 noSect) 0 0 0 0 0 0 0.

Definition checkElfHeader (h : ElfHeader) : bool :=
  bool_decide (magic h = [0x7f; 69; 76; 70]) && (etype h =? 2) && (machine h =? 0x3E) && (phentSize h =? sizeofElfPHEntry).

(** [val &= ~0xFFF] keeps 64 bits. *)
Definition align (val : Z) : Z := if Z.land val 0xFFF =? 0 then val else u64 (Z.land val (Z.lnot 0xFFF) + 0x1000).

Definition dotSetup : list Z := [46; 115; 101; 116; 117; 112].
Definition dotText : list Z := [46; 116; 101; 120; 116].
Definition dotData : list Z := [46; 100; 97; 116; 97].
Definition sectionOf (name : list Z) (e : ElfPHEntry) (vaddr chars : Z) : PeSect :=
  mkSect name (u32 (pFileSz e)) (u32 vaddr) (u32 (align (pFileSz e))) (u32 (align (pOffset e) + 0x1000)) chars.
Definition setSect (s : PeSect) (p : pe) : list PeSect := <[Z.to_nat (curPESection p) := s]> (sects p).

Definition parsePHEnt (e : ElfPHEntry) (p : pe) : pe :=
  if negb (ptype e =? 1) then p
  else if NROF_SECTIONS <=? curPESection p then p                      (* too many *)
  else
    let vaddr := u64 (pVAddr e + 0x1000) in
    if has (pflags e) 1 then
      let setup := vaddr <? VMEM_OFFSET in
      let va := if setup then vaddr else u64 (vaddr - (VMEM_OFFSET + 0x01000000)) in
      mkPe (setSect (sectionOf (if setup then dotSetup else dotText) e va 0x60000020) p) (if setup then u32 va else baseOfText p)
        (u32 (sizeOfCode p + align (pFileSz e))) (sizeOfInitializedData p) (entryPoint p) (sizeOfImage p) (curPESection p + 1) (imageEnd p)
    else if has (pflags e) 2 then
      let va := u64 (vaddr - (VMEM_OFFSET + 0x01000000)) in
      let e_end := u64 (align (pFileSz e) + va + 0x1000) in
      mkPe (setSect (sectionOf dotData e va 0xc0000040) p) (baseOfText p) (sizeOfCode p) (u32 (sizeOfInitializedData p + align (pFileSz e)))
        (entryPoint p) (sizeOfImage p) (curPESection p + 2) (Z.max (imageEnd p) e_end)
    else p.
Definition fillIn (h : ElfHeader) (p : pe) : pe :=
  mkPe (sects p) (baseOfText p) (sizeOfCode p) (sizeOfInitializedData p) (u32 (entryAddr h + 0x1000)) (u32 (imageEnd p)) (curPESection p) (imageEnd p).
Definition buildHeader (h : ElfHeader) (phs : list ElfPHEntry) : option pe :=
  if checkElfHeader h then Some (fillIn h (foldl (fun p e => parsePHEnt e p) peHdr phs)) else None.
(** The image: the header, what follows it in the memory of the tool up to a
    page, and the kernel. *)
Definition image (header behind kernel : list Z) : list Z := header ++ take (Z.to_nat (HEADER_SIZE - sizeofPeHeader)) (header ++ behind) ++ kernel.

(** ** Properties *)

(** [align] rounds up to pages. *)
Theorem align_correct val : 0 <= val < 2 ^ 64 - 0x1000 -> val <= align val < val + 0x1000 /\ align val mod 0x1000 = 0.
Proof.
  intros Hv. unfold align. change 0xFFF with (Z.ones 12). rewrite Z.land_ones by lia. change (2 ^ 12) with 0x1000.
  destruct (Z.eqb_spec (val mod 0x1000) 0) as [E|E]; [lia|]. rewrite <- Z.ldiff_land, Z.ldiff_ones_r, Z.shiftl_mul_pow2, Z.shiftr_div_pow2 by lia. change (2 ^ 12) with 0x1000.
  rewrite uwrap_small by (revert Hv E; clear; dlia). revert Hv E; clear; dlia.
Qed.
(** A kernel with its three segments, set-up code at low addresses, text and
    data: one section for each, at the address that the loader code expects, with
    the bytes of the segment behind the header. *)
Definition kernelSegments (setup text data : ElfPHEntry) : Prop :=
  ptype setup = 1 /\ ptype text = 1 /\ ptype data = 1 /\ has (pflags setup) 1 = true /\ has (pflags text) 1 = true /\ has (pflags data) 1 = false /\ has (pflags data) 2 = true /\
  0 <= pVAddr setup /\ pVAddr setup + 0x1000 < VMEM_OFFSET /\ VMEM_OFFSET + 0x01000000 <= pVAddr text + 0x1000 < 2 ^ 64 /\ VMEM_OFFSET + 0x01000000 <= pVAddr data + 0x1000 < 2 ^ 64.
Lemma parse_code e p : ptype e = 1 -> has (pflags e) 1 = true -> curPESection p < 3 -> 0 <= pVAddr e -> pVAddr e + 0x1000 < 2 ^ 64 ->
  let setup := pVAddr e + 0x1000 <? VMEM_OFFSET in
  parsePHEnt e p = mkPe (setSect (sectionOf (if setup then dotSetup else dotText) e (if setup then pVAddr e + 0x1000 else u64 (pVAddr e + 0x1000 - (VMEM_OFFSET + 0x01000000))) 0x60000020) p)
    (if setup then u32 (pVAddr e + 0x1000) else baseOfText p) (u32 (sizeOfCode p + align (pFileSz e))) (sizeOfInitializedData p) (entryPoint p) (sizeOfImage p) (curPESection p + 1) (imageEnd p).
Proof.
  intros T F Hc H0 H1. unfold parsePHEnt. rewrite T, F, (uwrap_small 64 (pVAddr e + _)) by lia. rewrite (proj2 (Z.leb_gt NROF_SECTIONS _)) by (unfold NROF_SECTIONS; lia).
  cbn [negb Z.eqb Pos.eqb]. cbv zeta. by destruct (_ <? VMEM_OFFSET).
Qed.
Lemma parse_data e p : ptype e = 1 -> has (pflags e) 1 = false -> has (pflags e) 2 = true -> curPESection p < 3 ->
  let va := u64 (u64 (pVAddr e + 0x1000) - (VMEM_OFFSET + 0x01000000)) in
  parsePHEnt e p = mkPe (setSect (sectionOf dotData e va 0xc0000040) p) (baseOfText p) (sizeOfCode p) (u32 (sizeOfInitializedData p + align (pFileSz e)))
    (entryPoint p) (sizeOfImage p) (curPESection p + 2) (Z.max (imageEnd p) (u64 (align (pFileSz e) + va + 0x1000))).
Proof. intros T F1 F2 Hc. unfold parsePHEnt. rewrite T, F1, F2. by rewrite (proj2 (Z.leb_gt NROF_SECTIONS _)) by (unfold NROF_SECTIONS; lia). Qed.
Lemma parse_full e p : 3 <= curPESection p -> parsePHEnt e p = p.
Proof. intros Hc. unfold parsePHEnt. rewrite (proj2 (Z.leb_le NROF_SECTIONS _)) by (unfold NROF_SECTIONS; lia). by destruct (negb _). Qed.
Theorem buildHeader_sections h setup text data p : checkElfHeader h = true -> kernelSegments setup text data -> buildHeader h [setup; text; data] = Some p ->
  sects p = [sectionOf dotSetup setup (pVAddr setup + 0x1000) 0x60000020; sectionOf dotText text (pVAddr text + 0x1000 - (VMEM_OFFSET + 0x01000000)) 0x60000020;
             sectionOf dotData data (pVAddr data + 0x1000 - (VMEM_OFFSET + 0x01000000)) 0xc0000040] /\
  entryPoint p = u32 (entryAddr h + 0x1000) /\ baseOfText p = u32 (pVAddr setup + 0x1000).
Proof.
  intros Hh (T1 & T2 & T3 & F1 & F2 & F3 & F4 & A1 & A2 & A3 & A4). unfold buildHeader. rewrite Hh. intros [= <-]. cbn [foldl].
  assert (Hv : VMEM_OFFSET = 0xFFFFFFFF80000000) by done. rewrite (parse_code setup) by (done || lia). rewrite (proj2 (Z.ltb_lt _ VMEM_OFFSET)) by lia.
  rewrite (parse_code text) by (done || lia). rewrite (proj2 (Z.ltb_ge _ VMEM_OFFSET)) by lia. rewrite (parse_data data) by done.
  rewrite (uwrap_small 64 (pVAddr data + _)), !(uwrap_small 64 (_ - _)) by lia. done.
Qed.
(** A data segment takes two of the three places: behind it nothing is read any
    more when it is the second. *)
Theorem data_takes_two_places e p : ptype e = 1 -> has (pflags e) 1 = false -> has (pflags e) 2 = true -> curPESection p = 1 -> forall e', parsePHEnt e' (parsePHEnt e p) = parsePHEnt e p.
Proof. intros T F1 F2 Hc e'. rewrite (parse_data e) by (done || lia). apply parse_full. cbn [curPESection]. lia. Qed.
