(* ===== verification/PageMap.v ===== *)
(** * Page tables: [kernel/arch/x86_64/mm/map.c]

    The four levels of page tables are reached through the recursive entry
    510 of the root table: the entry of a virtual address at a level is itself
    at a fixed virtual address.  The model keeps the entries by that address. *)

From S2P Require Import Prelude Word Heap PhysPaging.

Definition PAGE_FLAG_PRESENT : Z := 1.
Definition PAGE_FLAG_WRITE : Z := 2.
Definition PAGE_FLAG_USER : Z := 4.
Definition PAGE_FLAG_SIZE : Z := 128.
Definition PAGE_FLAG_KERNEL : Z := 256.
Definition PAGE_FLAG_INUSE : Z := 512.
Definition PAGE_FLAG_SHARED : Z := 2048.
Definition PAGE_FLAG_EXEC : Z := 2 ^ 63.
Definition PAGE_MASK : Z := 0x0000FFFFFFFFF000.

Definition NROF_PAGE_LEVELS : Z := 4.
Definition NROF_PTES : Z := 512.
Definition PE_MASK : Z := 0xFFFFFFFFFFFFFFF8.

Definition pageLevelBase (level : Z) : Z :=
  nth (Z.to_nat level)
    [0xFFFFFF0000000000; 0xFFFFFF7F80000000; 0xFFFFFF7FBFC00000; 0xFFFFFF7FBFDFE000] 0.

Definition getAddrFromPte (pte level : Z) : Z :=
  let ret := u64 (Z.shiftl pte (9 * (level + 1))) in
  if has ret (2 ^ 47) then Z.lor ret (Z.shiftl 0xFFFF 48)
  else Z.land ret (u64 (Z.lnot (Z.shiftl 0xFFFF 48))).

Definition mmGetEntry (addr level : Z) : Z :=
  let addr := Z.land addr 0x0000FFFFFFFFFFFF in
  Z.lor (Z.land (Z.shiftr addr (9 * (level + 1))) PE_MASK) (pageLevelBase level).

(** What the page tables ask of the physical pages: a zeroed page, and a way
    to give a page back.  While [pages_left] of so many more pages holds,
    allocation returns a page, which has no flag above bit 0 set. *)
Class PageAllocator (P : Type) := {
  allocClean : M P Z;
  freePage : Z -> M P unit
}.
Class PageAllocatorOk (P : Type) `{PageAllocator P} (pages_left : P -> nat -> Prop) := {
  allocClean_ok p k : pages_left p (S k) ->
    wp allocClean p (fun r p' => pages_left p' k /\ PAGE_SIZE <= r < 2 ^ 48 /\ 0 <= r mod PAGE_SIZE <= 1);
  pages_less p k : pages_left p (S k) -> pages_left p k
}.

#[export] Instance phys_allocator : PageAllocator phys := {
  allocClean := allocCleanPhysPage;
  freePage := deallocPhysPage
}.

(** The page-table entries by their virtual address, the pool of physical
    pages, and the globals of [map.c] and [virtpaging.c]. *)
Record vm (P : Type) := mkVm {
  ptes : gmap Z Z;
  pool : P;
  nxEnabled : bool;
  freePhysPages : Z;
  freeStart : Z;
  KVMemEnd : Z;
  KVMemLock : bool;
  dirty : gmap Z Z          (* words written through [ioremap], by physical address *)
}.
Arguments mkVm {P}.
Arguments ptes {P}.
Arguments pool {P}.
Arguments nxEnabled {P}.
Arguments freePhysPages {P}.
Arguments freeStart {P}.
Arguments KVMemEnd {P}.
Arguments KVMemLock {P}.
Arguments dirty {P}.

Section map.
Context {P : Type} `{PageAllocator P}.

Definition set_ptes (m : gmap Z Z) (s : vm P) : vm P :=
  mkVm m (pool s) (nxEnabled s) (freePhysPages s) (freeStart s) (KVMemEnd s) (KVMemLock s) (dirty s).
Definition set_pool (p : P) (s : vm P) : vm P :=
  mkVm (ptes s) p (nxEnabled s) (freePhysPages s) (freeStart s) (KVMemEnd s) (KVMemLock s) (dirty s).
Definition set_freePhys (n : Z) (s : vm P) : vm P :=
  mkVm (ptes s) (pool s) (nxEnabled s) n (freeStart s) (KVMemEnd s) (KVMemLock s) (dirty s).

(** Allocator calls, and [freePhysPages += d]. *)
Definition onPool {A} (m : M P A) : M (vm P) A := fun s =>
  match m (pool s) with
  | Done (a, p) => Done (a, set_pool p s)
  | Fault => Fault
  | NoFuel => NoFuel
  end.
Definition addFree (d : Z) : M (vm P) unit :=
  modify (fun s => set_freePhys (u64 (freePhysPages s + d)) s).

(** [*p] and [*p = v] for an entry; an entry of a table that does not exist
    is a page fault. *)
Definition readPte (p : Z) : M (vm P) Z := deref (fun s => ptes s !! p).
Definition writePte (p v : Z) : M (vm P) unit := fun s =>
  match ptes s !! p with
  | Some _ => Done (tt, set_ptes (<[p := u64 v]> (ptes s)) s)
  | None => Fault
  end.

(** [n] zero entries from [p] on. *)
Fixpoint zeroPtes (n : nat) (p : Z) (m : gmap Z Z) : gmap Z Z :=
  match n with
  | O => m
  | S n => <[p := 0]> (zeroPtes n (p + 8) m)
  end.

(** [*p = v] where [v] holds a zeroed page that becomes a table: its entries
    appear where the recursive mapping puts them.  The page at physical address
    0 is no zeroed page: it is what an allocation that failed returns, which
    the code does not look at, and what lies there is not modelled. *)
Definition writeTable (p v : Z) : M (vm P) unit :=
  if Z.land v PAGE_MASK =? 0 then fault
  else
    writePte p v;;
    modify (fun s => set_ptes (zeroPtes (Z.to_nat NROF_PTES) (getAddrFromPte p 0) (ptes s)) s).

(** [*p = 0] where [p] may hold a table: its entries are gone. *)
Definition dropTable (p : Z) : M (vm P) unit :=
  writePte p 0;;
  modify (fun s => set_ptes (foldr (fun i m => delete (getAddrFromPte p 0 + 8 * i) m) (ptes s) (seqZ 0 NROF_PTES)) s).

Definition mmSetPageEntry (addr level entry : Z) : M (vm P) unit :=
  writePte (mmGetEntry addr level) entry.

(** The loop of [mmGetPageEntry], from level [i - 1] down. *)
Fixpoint getPageEntryFrom (i : nat) (vaddr : Z) : M (vm P) Z :=
  match i with
  | O => mret 0
  | S i =>
    entry ← readPte (mmGetEntry vaddr (Z.of_nat i));
    if negb (has entry PAGE_FLAG_PRESENT) then mret 0
    else if (Z.of_nat i =? 0) || has entry PAGE_FLAG_SIZE then mret (Z.land entry PAGE_MASK)
    else getPageEntryFrom i vaddr
  end.
Definition mmGetPageEntry (vaddr : Z) : M (vm P) Z := getPageEntryFrom 4 vaddr.

(** The loop of [allocTables], for the levels [i .. 1]. *)
Fixpoint allocTablesFrom (i : nat) (vaddr flags : Z) : M (vm P) unit :=
  match i with
  | O => mret tt
  | S j =>
    let p := mmGetEntry vaddr (Z.of_nat i) in
    entry ← readPte p;
    (if negb (has entry PAGE_FLAG_PRESENT) then
       page ← onPool allocClean;
       addFree (-1);;
       writeTable p (Z.lor (Z.lor (Z.lor page PAGE_FLAG_PRESENT) flags) PAGE_FLAG_WRITE)
     else mret tt);;
    allocTablesFrom j vaddr flags
  end.
Definition allocTables (vaddr flags : Z) : M (vm P) unit := allocTablesFrom 3 vaddr flags.

(** The flags with the exec bit turned into the NX bit. *)
Definition nxFlags (nx : bool) (flags : Z) : Z :=
  if nx then Z.lxor flags PAGE_FLAG_EXEC else Z.land flags (u64 (Z.lnot PAGE_FLAG_EXEC)).

Definition mmMapPage (vaddr paddr flags : Z) : M (vm P) unit :=
  nx ← gets nxEnabled;
  let flags := nxFlags nx flags in
  allocTables vaddr flags;;
  mmSetPageEntry vaddr 0 (Z.lor (Z.lor paddr flags) PAGE_FLAG_PRESENT).

Definition mmSetPageFlags (vaddr flags : Z) : M (vm P) unit :=
  nx ← gets nxEnabled;
  let flags := nxFlags nx flags in
  allocTables vaddr flags;;
  writePte (mmGetEntry vaddr 0) flags.

Definition mmUnmapPage (vaddr : Z) : M (vm P) unit := mmSetPageFlags vaddr 0.

Definition mmUnmapBootPages : M (vm P) unit :=
  dropTable (mmGetEntry 0 2);; dropTable (mmGetEntry 0 3).

(** [mmUnmapUserspaceHelper] at level [lv], where [below] is the call for the
    level below; [entries] is its loop over the entries of the table. *)
Fixpoint unmapEntries (below : Z -> M (vm P) unit) (lv : nat) (n : nat) (pte pageBase : Z) : M (vm P) unit :=
  match n with
  | O => mret tt
  | S n =>
    entry ← readPte pte;
    (if negb (Z.of_nat lv =? 0) && has entry PAGE_FLAG_PRESENT then
       below pageBase;;
       dropTable pte
     else if (Z.of_nat lv =? 0) && has entry PAGE_FLAG_PRESENT && has entry PAGE_FLAG_INUSE then
       if has entry PAGE_FLAG_SHARED || (Z.land entry PAGE_MASK =? 0) then mret tt (* printk *)
       else onPool (freePage (Z.land entry PAGE_MASK))
     else mret tt);;
    unmapEntries below lv n (pte + 8) (u64 (pageBase + Z.shiftl PAGE_SIZE (Z.of_nat lv * 9)))
  end.

Fixpoint mmUnmapUserspaceHelper (lv : nat) (base : Z) : M (vm P) unit :=
  unmapEntries (match lv with O => fun _ => mret tt | S l => mmUnmapUserspaceHelper l end) lv
    (Z.to_nat (if Z.of_nat lv =? NROF_PAGE_LEVELS - 1 then NROF_PTES / 2 else NROF_PTES))
    (mmGetEntry base (Z.of_nat lv)) base;;
  if negb (Z.of_nat lv =? NROF_PAGE_LEVELS - 1) then
    entry ← readPte (mmGetEntry base (Z.of_nat lv + 1));
    onPool (freePage (Z.land entry PAGE_MASK))
  else mret tt.

Definition mmUnmapUserspace : M (vm P) unit := mmUnmapUserspaceHelper 3 0.

(** The loop of [mmSetWritable]; [pte] is the same entry in every turn. *)
Fixpoint setWritableLoop (n : nat) (pte : Z) (write : bool) : M (vm P) unit :=
  match n with
  | O => mret tt
  | S n =>
    entry ← readPte pte;
    writePte pte (if write then Z.lor entry PAGE_FLAG_WRITE else Z.land entry (Z.lnot PAGE_FLAG_WRITE));;
    setWritableLoop n pte write
  end.
Definition mmSetWritable (addr size : Z) (write : bool) : M (vm P) unit :=
  setWritableLoop (Z.to_nat (sizeToPages size)) (mmGetEntry addr 0) write.
End map.

(** ** Entry addresses *)

(** Level [l] covers [2 ^ shift l] bytes of address space per entry. *)
Definition shift (l : Z) : Z := 12 + 9 * l.
Definition canonical (a : Z) : Prop := 0 <= a < 2 ^ 47 \/ 2 ^ 64 - 2 ^ 47 <= a < 2 ^ 64.
Definition is_level (l : Z) : Prop := l = 0 \/ l = 1 \/ l = 2 \/ l = 3.

(** The addresses that the recursive entry does not cover. *)
Definition not_recursive (a : Z) : Prop :=
  a mod 2 ^ 48 < 510 * 2 ^ 39 \/ 511 * 2 ^ 39 <= a mod 2 ^ 48.

Section entry_addresses.
Lemma entry_field m k :
  0 <= m < 2 ^ 48 -> 0 <= k -> Z.land (Z.shiftr m k) PE_MASK = 8 * (m / 2 ^ (k + 3)).
Proof.
  intros Hm Hk. assert (0 < 2 ^ k) by (apply Z.pow_pos_nonneg; lia).
  assert (0 <= m / 2 ^ k) by (apply Z.div_pos; lia).
  assert (m / 2 ^ k <= m) by (apply Z.div_le_upper_bound; nia).
  change PE_MASK with (2 ^ 64 - 2 ^ 3). rewrite Z.shiftr_div_pow2, land_high_mask by lia.
  rewrite Z.pow_add_r, <- Z.div_div by lia. generalize (m / 2 ^ k). change (2 ^ 3) with 8. dlia.
Qed.

Lemma mmGetEntry_value a l :
  0 <= a -> is_level l ->
  mmGetEntry a l = 8 * (a mod 2 ^ 48 / 2 ^ shift l) + pageLevelBase l.
Proof.
  intros Ha Hl. unfold mmGetEntry. change 0x0000FFFFFFFFFFFF with (Z.ones 48).
  assert (0 <= l <= 3) as Hl' by (unfold is_level in Hl; lia).
  rewrite Z.land_ones by lia. set (m := a mod 2 ^ 48).
  assert (0 <= m < 2 ^ 48) by (apply Z.mod_pos_bound; lia).
  rewrite entry_field by lia. replace (9 * (l + 1) + 3) with (shift l) by (unfold shift; lia).
  assert (0 < 2 ^ shift l) by (apply Z.pow_pos_nonneg; unfold shift; lia).
  assert (0 <= m / 2 ^ shift l < 2 ^ (36 - 9 * l)).
  { split; [apply Z.div_pos; lia|]. apply Z.div_lt_upper_bound; [lia|].
    rewrite <- Z.pow_add_r by (unfold shift; lia).
    replace (shift l + (36 - 9 * l)) with 48 by (unfold shift; lia). lia. }
  assert (E : exists b, pageLevelBase l = b * 2 ^ (39 - 9 * l)).
  { destruct Hl as [->|[->|[->| ->]]]; [by exists 0x1FFFFFE|by exists 0x3FFFFFDFE|by exists 0x7FFFFFBFDFE|by exists 0xFFFFFF7FBFDFE]. }
  destruct E as [b ->]. apply lor_add; [lia|].
  replace (39 - 9 * l) with (3 + (36 - 9 * l)) by lia. rewrite Z.pow_add_r by lia. lia.
Qed.

(** Sign extension from bit 47. *)
Lemma canon_value r :
  0 <= r < 2 ^ 64 ->
  (if has r (2 ^ 47) then Z.lor r (Z.shiftl 0xFFFF 48) else Z.land r (u64 (Z.lnot (Z.shiftl 0xFFFF 48)))) =
  if 2 ^ 47 <=? r mod 2 ^ 48 then 2 ^ 64 - 2 ^ 48 + r mod 2 ^ 48 else r mod 2 ^ 48.
Proof.
  intros Hr. rewrite has_pow2 by lia.
  assert (Z.testbit r 47 = (2 ^ 47 <=? r mod 2 ^ 48)) as ->.
  { rewrite <- (Z.mod_pow2_bits_low r 48 47) by lia.
    assert (0 <= r mod 2 ^ 48 < 2 ^ 48) by (apply Z.mod_pos_bound; lia).
    rewrite Z.testbit_eqb by lia. destruct (Z.leb_spec (2 ^ 47) (r mod 2 ^ 48)).
    - by replace (r mod 2 ^ 48 / 2 ^ 47) with 1 by dlia.
    - by rewrite Z.div_small by lia. }
  destruct (_ <=? _).
  - apply Z.bits_inj'. intros n Hn.
    change (Z.shiftl 0xFFFF 48) with (0xFFFF * 2 ^ 48).
    rewrite (Z.div_mod r (2 ^ 48)) at 1 by lia.
    rewrite (Z.add_comm (2 ^ 48 * _)), Z.mul_comm.
    replace (2 ^ 64 - 2 ^ 48 + r mod 2 ^ 48) with (r mod 2 ^ 48 + 0xFFFF * 2 ^ 48) by lia.
    assert (0 <= r mod 2 ^ 48 < 2 ^ 48) by (apply Z.mod_pos_bound; lia).
    rewrite <- !lor_add, <- Z.lor_assoc by lia. rewrite !Z.lor_spec. f_equal.
    assert (0 <= r / 2 ^ 48 < 2 ^ 16) by (split; [apply Z.div_pos|apply Z.div_lt_upper_bound]; lia).
    destruct (Z.lt_ge_cases n 48); [by rewrite !Z.mul_pow2_bits_low by lia|].
    rewrite !Z.mul_pow2_bits by lia. destruct (Z.lt_ge_cases (n - 48) 16).
    + change 0xFFFF with (Z.ones 16). rewrite (Z.ones_spec_low 16) by lia. by rewrite orb_true_r.
    + change 0xFFFF with (Z.ones 16). rewrite (Z.ones_spec_high 16) by lia.
      by rewrite <- (Z.mod_small (r / 2 ^ 48) (2 ^ 16)), Z.mod_pow2_bits_high by lia.
  - change (u64 _) with (Z.ones 48). apply Z.land_ones. lia.
Qed.

Lemma getAddrFromPte_value p l :
  is_level l ->
  getAddrFromPte p l = let r := p * 2 ^ (9 * (l + 1)) mod 2 ^ 48 in
    if 2 ^ 47 <=? r then 2 ^ 64 - 2 ^ 48 + r else r.
Proof.
  intros Hl. unfold getAddrFromPte. rewrite Z.shiftl_mul_pow2 by (destruct Hl as [->|[->|[->| ->]]]; lia).
  rewrite canon_value by (apply uwrap_range; lia). cbv zeta. unfold uwrap.
  rewrite <- (Znumtheory.Zmod_div_mod (2 ^ 48) (2 ^ 64)); [done|lia|lia|]. exists (2 ^ 16). lia.
Qed.

Lemma page_start i B : B mod 4096 = 0 -> 8 * i + B - (8 * i + B) mod 4096 = 4096 * (i / 512) + B.
Proof.
  intros HB. rewrite Z.add_mod, HB, Z.add_0_r, Z.mod_mod by lia.
  change 4096 with (8 * 512) at 1. rewrite Z.mul_mod_distr_l by lia.
  pose proof (Z.div_mod i 512). lia.
Qed.

(** The table that entry [l + 1] of an address refers to is the page in which
    its entry [l] lies. *)
Lemma table_of_entry a l :
  0 <= a -> l = 1 \/ l = 2 \/ l = 3 ->
  getAddrFromPte (mmGetEntry a l) 0 = mmGetEntry a (l - 1) - mmGetEntry a (l - 1) mod PAGE_SIZE.
Proof.
  intros Ha Hl. rewrite getAddrFromPte_value by (by left).
  rewrite !mmGetEntry_value by (unfold is_level; lia).
  set (m := a mod 2 ^ 48). assert (0 <= m < 2 ^ 48) by (apply Z.mod_pos_bound; lia).
  assert (E : m / 2 ^ shift l = m / 2 ^ shift (l - 1) / 512).
  { assert (0 < 2 ^ shift (l - 1)) by (apply Z.pow_pos_nonneg; unfold shift; lia).
    rewrite Z.div_div by lia. change 512 with (2 ^ 9).
    rewrite <- Z.pow_add_r by (unfold shift; lia). do 2 f_equal. unfold shift. lia. }
  rewrite E. assert (0 <= m / 2 ^ shift (l - 1) < 2 ^ (45 - 9 * l)).
  { assert (0 < 2 ^ shift (l - 1)) by (apply Z.pow_pos_nonneg; unfold shift; lia).
    split; [apply Z.div_pos; lia|]. apply Z.div_lt_upper_bound; [lia|].
    rewrite <- Z.pow_add_r by (unfold shift; lia).
    replace (shift (l - 1) + (45 - 9 * l)) with 48 by (unfold shift; lia). lia. }
  revert H0. generalize (m / 2 ^ shift (l - 1)). clear m E H Ha. intros i Hi.
  change (2 ^ (9 * (0 + 1))) with 512. change (2 ^ 48) with 281474976710656.
  change (2 ^ 47) with 140737488355328. change (2 ^ 64) with 18446744073709551616.
  unfold PAGE_SIZE. cbv zeta.
  enough ((8 * (i / 512) + pageLevelBase l) * 512 mod 281474976710656 =
    pageLevelBase (l - 1) mod 281474976710656 + 4096 * (i / 512) /\
    140737488355328 <= pageLevelBase (l - 1) mod 281474976710656 /\
    pageLevelBase (l - 1) mod 4096 = 0 /\
    pageLevelBase (l - 1) / 281474976710656 = 65535) as (-> & Hb & Hm & Hd).
  { destruct (Z.leb_spec 140737488355328 (pageLevelBase (l - 1) mod 281474976710656 + 4096 * (i / 512))).
    - rewrite page_start by done. pose proof (Z.div_mod (pageLevelBase (l - 1)) 281474976710656). lia.
    - assert (0 <= i / 512) by (apply Z.div_pos; lia). lia. }
  assert (Hc : forall x y, x mod 281474976710656 = y mod 281474976710656 -> 0 <= y < 281474976710656 ->
    x mod 281474976710656 = y) by (intros x y -> ?; by apply Z.mod_small).
  destruct Hl as [->|[->| ->]]; (split; [|split_and!; done]); apply Hc; clear Hc.
  all: let e := eval vm_compute in (2 ^ (45 - 9 * 1)) in change (2 ^ (45 - 9 * 1)) with e in Hi.
  all: let e := eval vm_compute in (2 ^ (45 - 9 * 2)) in change (2 ^ (45 - 9 * 2)) with e in Hi.
  all: let e := eval vm_compute in (2 ^ (45 - 9 * 3)) in change (2 ^ (45 - 9 * 3)) with e in Hi.
  all: match goal with |- context [pageLevelBase ?a mod ?b] =>
    let e := eval vm_compute in (pageLevelBase a mod b) in change (pageLevelBase a mod b) with e end.
  all: match goal with |- context [pageLevelBase ?a] =>
    let e := eval vm_compute in (pageLevelBase a) in change (pageLevelBase a) with e | _ => idtac end; dlia.
Qed.
End entry_addresses.

(** ** Walks through the tables *)

(** The entry of [v] at level [l] refers to a table. *)
Definition has_table (m : gmap Z Z) (v l : Z) : Prop :=
  exists e, m !! mmGetEntry v l = Some e /\
    has e PAGE_FLAG_PRESENT = true /\ has e PAGE_FLAG_SIZE = false.

(** The tables for [v]: the root table is there, and an entry that is present
    refers to a table that is there. *)
Definition walk_ok (m : gmap Z Z) (v : Z) : Prop :=
  is_Some (m !! mmGetEntry v 3) /\
  forall l e, 1 <= l <= 3 -> m !! mmGetEntry v l = Some e -> has e PAGE_FLAG_PRESENT = true ->
    has e PAGE_FLAG_SIZE = false /\ is_Some (m !! mmGetEntry v (l - 1)).

Section walks.
(** Outside the recursive region the entries of an address at two levels lie
    in different pages. *)
Lemma entry_pages v l l' :
  0 <= v -> not_recursive v -> 0 <= l < l' -> l' <= 3 ->
  mmGetEntry v l / PAGE_SIZE <> mmGetEntry v l' / PAGE_SIZE.
Proof.
  intros Hv Hr Hl Hl'. rewrite !mmGetEntry_value by (unfold is_level; lia).
  unfold not_recursive in Hr. set (m := v mod 2 ^ 48) in *.
  assert (Hm : 0 <= m < 2 ^ 48) by (apply Z.mod_pos_bound; lia). clearbody m.
  assert (Hx : forall k, 0 <= k <= 3 -> 0 <= m / 2 ^ shift k < 2 ^ (36 - 9 * k)).
  { intros k Hk. assert (0 < 2 ^ shift k) by (apply Z.pow_pos_nonneg; unfold shift; lia).
    split; [apply Z.div_pos; lia|]. apply Z.div_lt_upper_bound; [lia|].
    rewrite <- Z.pow_add_r by (unfold shift; lia).
    replace (shift k + (36 - 9 * k)) with 48 by (unfold shift; lia). lia. }
  pose proof (Hx l' ltac:(lia)) as H2. clear Hx. unfold PAGE_SIZE.
  assert (l = 0 \/ l = 1 \/ l = 2) as [->|[->| ->]] by lia;
    (assert (l' = 1 \/ l' = 2 \/ l' = 3) as [->|[->| ->]] by lia); try lia;
    unfold pageLevelBase; simpl nth; unfold shift in *; simpl Z.add in *; simpl Z.mul in *; simpl Z.sub in *;
    repeat match goal with
    | |- context [2 ^ ?k] => let e := eval vm_compute in (2 ^ k) in change (2 ^ k) with e in *
    | H : context [2 ^ ?k] |- _ => let e := eval vm_compute in (2 ^ k) in change (2 ^ k) with e in *
    end;
    match goal with |- context [?x + _] => idtac end; dlia.
Qed.

Lemma zeroPtes_in n p m i : 0 <= i < Z.of_nat n -> zeroPtes n p m !! (p + 8 * i) = Some 0.
Proof.
  revert p i. induction n as [|n IH]; intros p i Hi; [lia|]. simpl.
  destruct (Z.eq_dec i 0) as [->|]; [by rewrite Z.add_0_r, lookup_insert_eq|].
  rewrite lookup_insert_ne by lia.
  replace (p + 8 * i) with (p + 8 + 8 * (i - 1)) by lia. apply IH. lia.
Qed.

Lemma zeroPtes_out n p m a : ~ p <= a < p + 8 * Z.of_nat n -> zeroPtes n p m !! a = m !! a.
Proof.
  revert p. induction n as [|n IH]; intros p Ha; [done|]. simpl.
  rewrite lookup_insert_ne by lia. apply IH. lia.
Qed.
End walks.

Section mapping.
Context {P : Type} `{PageAllocator P} (pages_left : P -> nat -> Prop) `{!PageAllocatorOk P pages_left}.
Context (v flags : Z) (Hv : 0 <= v) (Hr : not_recursive v).
Context (Hflags : has flags PAGE_FLAG_SIZE = false) (Hf0 : 0 <= flags < 2 ^ 64).

Lemma wp_readPte p (s : vm P) Q :
  wp (readPte p) s Q <-> exists e, ptes s !! p = Some e /\ Q e s.
Proof. exact (wp_deref (fun s : vm P => ptes s !! p) s Q). Qed.
Lemma wp_writePte p x (s : vm P) (Q : unit -> vm P -> Prop) :
  is_Some (ptes s !! p) -> Q tt (set_ptes (<[p := u64 x]> (ptes s)) s) -> wp (writePte p x) s Q.
Proof. intros [e He] HQ. unfold wp, writePte. by rewrite He. Qed.
Lemma wp_onPool {A} (m : M P A) (s : vm P) (Q : A -> vm P -> Prop) :
  wp m (pool s) (fun a p => Q a (set_pool p s)) -> wp (onPool m) s Q.
Proof. unfold wp, onPool. by destruct (m (pool s)) as [[a p]| |]. Qed.

(** After [writeTable] the entry has its value, the table that it refers to
    is empty, and the entries at the other levels are what they were. *)
Lemma writeTable_spec l x (s : vm P) (Q : unit -> vm P -> Prop) :
  1 <= l <= 3 -> Z.land x PAGE_MASK <> 0 -> is_Some (ptes s !! mmGetEntry v l) ->
  (forall s', pool s' = pool s -> nxEnabled s' = nxEnabled s ->
    ptes s' !! mmGetEntry v l = Some (u64 x) -> ptes s' !! mmGetEntry v (l - 1) = Some 0 ->
    (forall k, 0 <= k <= 3 -> k <> l -> k <> l - 1 -> ptes s' !! mmGetEntry v k = ptes s !! mmGetEntry v k) ->
    Q tt s') ->
  wp (writeTable (mmGetEntry v l) x) s Q.
Proof.
  intros Hl Hx Hs HQ. unfold writeTable. rewrite (proj2 (Z.eqb_neq _ 0)) by done. apply wp_bind, wp_writePte; [done|]. wp_simpl.
  assert (Hn : Z.of_nat (Z.to_nat NROF_PTES) = 512) by done.
  revert Hn. generalize (Z.to_nat NROF_PTES). intros n Hn.
  rewrite table_of_entry by lia. simpl ptes.
  set (e := mmGetEntry v (l - 1)).
  assert (Hpg : forall k, 0 <= k <= 3 -> k <> l - 1 ->
    ~ e - e mod PAGE_SIZE <= mmGetEntry v k < e - e mod PAGE_SIZE + 8 * Z.of_nat n).
  { intros k Hk Hne Hin. assert (Ep : mmGetEntry v k / PAGE_SIZE = e / PAGE_SIZE).
    { unfold PAGE_SIZE in *. rewrite Hn in Hin. revert Hin. clear. generalize e, (mmGetEntry v k). clear. dlia. }
    destruct (Z.lt_ge_cases k (l - 1)).
    - eapply (entry_pages v k (l - 1)); [done|done|lia|lia|done].
    - eapply (entry_pages v (l - 1) k); [done|done|lia|lia|done]. }
  assert (H8 : e mod 8 = 0).
  { unfold e. rewrite mmGetEntry_value by (unfold is_level; lia).
    rewrite Z.mul_comm, Z.add_comm, Z_mod_plus_full.
    assert (l = 1 \/ l = 2 \/ l = 3) as [->|[->| ->]] by lia; done. }
  apply HQ; try done; simpl ptes.
  - rewrite zeroPtes_out by (apply Hpg; lia). by rewrite lookup_insert_eq.
  - pose proof (zeroPtes_in n (e - e mod PAGE_SIZE) (<[mmGetEntry v l := u64 x]> (ptes s))
      (e mod PAGE_SIZE / 8)) as Hz.
    replace (e - e mod PAGE_SIZE + 8 * (e mod PAGE_SIZE / 8)) with e in Hz
      by (unfold PAGE_SIZE; revert H8; clear; generalize e; dlia).
    apply Hz. rewrite Hn. unfold PAGE_SIZE. revert H8. clear. generalize e. dlia.
  - intros k Hk H1 H2. rewrite zeroPtes_out by (by apply Hpg). rewrite lookup_insert_ne; [done|].
    intros E. destruct (Z.lt_ge_cases k l).
    + eapply (entry_pages v k l); [done|done|lia|lia|by rewrite E].
    + eapply (entry_pages v l k); [done|done|lia|lia|by rewrite E].
Qed.

Lemma table_frame page : PAGE_SIZE <= page < 2 ^ 48 -> Z.land page PAGE_MASK <> 0.
Proof.
  unfold PAGE_SIZE. intros Hp. change PAGE_MASK with (Z.land (2 ^ 64 - 2 ^ 12) (Z.ones 48)).
  rewrite Z.land_assoc, Z.land_ones, land_high_mask by lia. rewrite Z.mod_small by (revert Hp; clear; dlia). change (2 ^ 12) with 4096. revert Hp. clear. dlia.
Qed.
Lemma table_value page f :
  PAGE_SIZE <= page < 2 ^ 48 -> 0 <= page mod PAGE_SIZE <= 1 -> 0 <= f < 2 ^ 64 -> has f PAGE_FLAG_SIZE = false ->
  let y := Z.lor (Z.lor (Z.lor page PAGE_FLAG_PRESENT) f) PAGE_FLAG_WRITE in let x := u64 y in
  has x PAGE_FLAG_PRESENT = true /\ has x PAGE_FLAG_SIZE = false /\ Z.land y PAGE_MASK <> 0.
Proof.
  intros Hp1 Hm Hf Hs y. assert (Hp : 0 <= page < 2 ^ 48) by (unfold PAGE_SIZE in Hp1; lia). revert Hp Hm Hf Hs. cut (Z.land y PAGE_MASK <> 0).
  2:{ unfold y. rewrite !Z.land_lor_distr_l. intros [[[E _]%Z.lor_eq_0_iff _]%Z.lor_eq_0_iff _]%Z.lor_eq_0_iff. by apply (table_frame page). }
  intros Hy. cut (0 <= page < 2 ^ 48 -> 0 <= page mod PAGE_SIZE <= 1 -> 0 <= f < 2 ^ 64 -> has f PAGE_FLAG_SIZE = false -> has (u64 y) PAGE_FLAG_PRESENT = true /\ has (u64 y) PAGE_FLAG_SIZE = false); [naive_solver|]. clear Hp1 Hy. subst y.
  intros Hp Hm Hf Hs. unfold uwrap. unfold PAGE_FLAG_PRESENT, PAGE_FLAG_SIZE, PAGE_FLAG_WRITE in *.
  change 1 with (2 ^ 0) in *. change 128 with (2 ^ 7) in *. change 2 with (2 ^ 1) at 1 3.
  rewrite !has_pow2, !Z.mod_pow2_bits_low, !Z.lor_spec by lia. rewrite has_pow2 in Hs by lia.
  rewrite Hs, !Z.pow2_bits_eqb by lia. cbn -[Z.testbit]. rewrite !orb_true_r, !orb_false_r. split; [done|].
  rewrite <- (Z.mod_pow2_bits_low page 12 7) by lia. change (2 ^ 12) with PAGE_SIZE.
  assert (page mod PAGE_SIZE = 0 \/ page mod PAGE_SIZE = 1) as [-> | ->] by lia; done.
Qed.

Lemma allocTablesFrom_spec i k (s : vm P) (Q : unit -> vm P -> Prop) :
  (i <= 3)%nat -> pages_left (pool s) (i + k) ->
  is_Some (ptes s !! mmGetEntry v (Z.of_nat i)) ->
  (forall l, Z.of_nat i < l <= 3 -> has_table (ptes s) v l) ->
  (forall l e, 1 <= l <= Z.of_nat i -> ptes s !! mmGetEntry v l = Some e -> has e PAGE_FLAG_PRESENT = true ->
    has e PAGE_FLAG_SIZE = false /\ is_Some (ptes s !! mmGetEntry v (l - 1))) ->
  (forall s', pages_left (pool s') k -> nxEnabled s' = nxEnabled s ->
    (forall l, 1 <= l <= 3 -> has_table (ptes s') v l) -> is_Some (ptes s' !! mmGetEntry v 0) -> Q tt s') ->
  wp (allocTablesFrom i v flags) s Q.
Proof.
  revert s. induction i as [|j IH]; intros s Hi Hp Hm Hup Hdown HQ; cbn [allocTablesFrom].
  { apply wp_ret, HQ; [done|done|intros; apply Hup; lia|done]. }
  set (l := Z.of_nat (S j)) in *. assert (Ej : Z.of_nat j = l - 1) by lia.
  destruct Hm as [e He]. apply wp_bind, wp_readPte. exists e. split; [done|].
  destruct (has e PAGE_FLAG_PRESENT) eqn:Epr; cbn [negb].
  - apply wp_bind, wp_ret. destruct (Hdown l e ltac:(lia) He Epr) as [Hsz Hnext].
    apply IH; [lia|by apply pages_less|by rewrite Ej| |intros; eapply Hdown; eauto; lia|done].
    intros d Hk. destruct (Z.eq_dec d l) as [->|]; [by exists e|apply Hup; lia].
  - rewrite !wp_bind. apply wp_onPool. wp_use (allocClean_ok (pool s) (j + k) Hp).
    intros page p (Hp' & Hpg & Hmod). rewrite !wp_bind. unfold addFree. apply wp_modify.
    destruct (table_value page flags Hpg Hmod Hf0 Hflags) as (Hvp & Hvs & Hnz).
    apply writeTable_spec; [lia|done|by exists e|]. simpl. intros s' Epool Enx E1 E0 Eo.
    apply IH; [lia|by rewrite Epool|by rewrite Ej, E0| | |intros s2 H1 H2 H3 H4; apply HQ; [done|by rewrite H2, Enx|done|done]].
    + intros d Hk. destruct (Z.eq_dec d l) as [->|]; [by eexists|].
      unfold has_table. rewrite Eo by lia. apply Hup. lia.
    + intros d ek Hk Hek Hpr. destruct (Z.eq_dec d (l - 1)) as [->|].
      { rewrite E0 in Hek. by injection Hek as <-. }
      rewrite Eo in Hek by lia. destruct (Hdown d ek ltac:(lia) Hek Hpr) as [? Hn]. split; [done|].
      by rewrite Eo by lia.
Qed.

Lemma allocTables_spec k (s : vm P) (Q : unit -> vm P -> Prop) :
  pages_left (pool s) (3 + k) -> walk_ok (ptes s) v ->
  (forall s', pages_left (pool s') k -> nxEnabled s' = nxEnabled s ->
    (forall l, 1 <= l <= 3 -> has_table (ptes s') v l) -> is_Some (ptes s' !! mmGetEntry v 0) -> Q tt s') ->
  wp (allocTables v flags) s Q.
Proof.
  intros Hp [H3 Hw] HQ. apply (allocTablesFrom_spec 3 k); try done. intros l Hl. lia.
Qed.
End mapping.

(** ** The properties *)

(** [getAddrFromPte] inverts [mmGetEntry] at every level: the entry of a
    canonical address leads back to the start of the range that the entry
    maps. *)
Theorem getAddrFromPte_mmGetEntry a l :
  canonical a -> is_level l ->
  getAddrFromPte (mmGetEntry a l) l = a - a mod 2 ^ shift l.
Proof.
  intros Ha Hl. assert (0 <= l <= 3) as Hl' by (unfold is_level in Hl; lia).
  rewrite getAddrFromPte_value, mmGetEntry_value by (unfold canonical in Ha; lia || done).
  cbv zeta. set (w := 2 ^ shift l). assert (Hw : 0 < w) by (apply Z.pow_pos_nonneg; unfold shift; lia).
  assert (E : (8 * (a mod 2 ^ 48 / w) + pageLevelBase l) * 2 ^ (9 * (l + 1)) mod 2 ^ 48 =
    a mod 2 ^ 48 - (a mod 2 ^ 48) mod w).
  { rewrite Z.mul_add_distr_r.
    replace (8 * (a mod 2 ^ 48 / w) * 2 ^ (9 * (l + 1))) with (w * (a mod 2 ^ 48 / w)).
    2:{ unfold w, shift. replace (12 + 9 * l) with (3 + 9 * (l + 1)) by lia. rewrite Z.pow_add_r by lia. lia. }
    rewrite <- Z.add_mod_idemp_r by lia.
    replace (pageLevelBase l * 2 ^ (9 * (l + 1)) mod 2 ^ 48) with 0
      by (destruct Hl as [->|[->|[->| ->]]]; reflexivity).
    assert (0 <= a mod 2 ^ 48 < 2 ^ 48) by (apply Z.mod_pos_bound; lia).
    pose proof (Z.div_mod (a mod 2 ^ 48) w). pose proof (Z.mod_pos_bound (a mod 2 ^ 48) w Hw).
    rewrite Z.add_0_r, Z.mod_small; [lia|]. split; [apply Z.mul_nonneg_nonneg; [lia|apply Z.div_pos; lia]|lia]. }
  rewrite E. assert (Hd : (w | 2 ^ 47)).
  { exists (2 ^ (47 - shift l)). unfold w. rewrite <- Z.pow_add_r by (unfold shift; lia).
    f_equal. unfold shift. lia. }
  assert (Hm : (a mod 2 ^ 48) mod w = a mod w).
  { symmetry. apply Znumtheory.Zmod_div_mod; [lia|lia|]. etransitivity; [exact Hd|]. by exists 2. }
  rewrite Hm. pose proof (Z.mod_pos_bound a w Hw). destruct Hd as [c Hc].
  destruct Ha as [Ha|Ha].
  - rewrite (Z.mod_small a (2 ^ 48)) by lia. destruct (Z.leb_spec (2 ^ 47) (a - a mod w)); lia.
  - assert (Ea : a mod 2 ^ 48 = a - (2 ^ 64 - 2 ^ 48)).
    { symmetry. apply (Z.mod_unique a (2 ^ 48) (2 ^ 16 - 1)); lia. }
    rewrite Ea. destruct (Z.leb_spec (2 ^ 47) (a - (2 ^ 64 - 2 ^ 48) - a mod w)); [lia|].
    pose proof (Z.div_mod a w). enough (2 ^ 64 - 2 ^ 47 <= a - a mod w) by lia.
    replace (2 ^ 64 - 2 ^ 47) with (w * ((2 ^ 17 - 1) * c)) by nia.
    replace (a - a mod w) with (w * (a / w)) by lia. apply Z.mul_le_mono_nonneg_l; [lia|].
    apply Z.div_le_lower_bound; nia.
Qed.

Section translation.
Context {P : Type} `{PageAllocator P} (pages_left : P -> nat -> Prop) `{!PageAllocatorOk P pages_left}.

(** A walk through present tables ends at the entry of level 0. *)
Lemma mmGetPageEntry_walk v e (s : vm P) (Q : Z -> vm P -> Prop) :
  (forall l, 1 <= l <= 3 -> has_table (ptes s) v l) -> ptes s !! mmGetEntry v 0 = Some e ->
  Q (if has e PAGE_FLAG_PRESENT then Z.land e PAGE_MASK else 0) s -> wp (mmGetPageEntry v) s Q.
Proof.
  intros Ht He HQ. unfold mmGetPageEntry. cbn [getPageEntryFrom].
  destruct (Ht 3 ltac:(lia)) as (e3 & H3 & P3 & S3), (Ht 2 ltac:(lia)) as (e2 & H2 & P2 & S2),
    (Ht 1 ltac:(lia)) as (e1 & H1 & P1 & S1).
  apply wp_bind, wp_readPte. exists e3. split; [done|]. rewrite P3, S3. cbn -[mmGetEntry].
  apply wp_bind, wp_readPte. exists e2. split; [done|]. rewrite P2, S2. cbn -[mmGetEntry].
  apply wp_bind, wp_readPte. exists e1. split; [done|]. rewrite P1, S1. cbn -[mmGetEntry].
  apply wp_bind, wp_readPte. exists e. split; [done|].
  destruct (has e PAGE_FLAG_PRESENT); cbn; by apply wp_ret.
Qed.

Lemma set_entry_table v x (s : vm P) l :
  0 <= v -> not_recursive v -> 1 <= l <= 3 -> has_table (ptes s) v l ->
  has_table (<[mmGetEntry v 0 := x]> (ptes s)) v l.
Proof.
  intros Hv Hr Hl (e & He & ? & ?). exists e. split_and!; try done. rewrite lookup_insert_ne; [done|].
  intros E. eapply (entry_pages v 0 l); [done|done|lia|lia|by rewrite E].
Qed.

Lemma nxFlags_range nx f : 0 <= f < 2 ^ 64 -> 0 <= nxFlags nx f < 2 ^ 64.
Proof.
  intros Hf. unfold nxFlags, PAGE_FLAG_EXEC. destruct nx.
  - assert (0 <= Z.lxor f (2 ^ 63)) by (apply Z.lxor_nonneg; lia). split; [done|].
    destruct (Z.eq_dec (Z.lxor f (2 ^ 63)) 0) as [->|]; [lia|]. apply Z.log2_lt_pow2; [lia|].
    eapply Z.le_lt_trans; [apply Z.log2_lxor; lia|]. change (Z.log2 (2 ^ 63)) with 63.
    destruct (Z.eq_dec f 0) as [->|]; [done|]. apply Z.max_lub_lt; [apply Z.log2_lt_pow2|]; lia.
  - split; [apply Z.land_nonneg; lia|]. change (u64 _) with (Z.ones 63). rewrite Z.land_ones by lia.
    pose proof (Z.mod_pos_bound f (2 ^ 63)). lia.
Qed.

Lemma nxFlags_bit nx f k : 0 <= k < 63 -> Z.testbit (nxFlags nx f) k = Z.testbit f k.
Proof.
  intros Hk. unfold nxFlags, PAGE_FLAG_EXEC. destruct nx.
  - rewrite Z.lxor_spec, Z.pow2_bits_false by lia. apply xorb_false_r.
  - change (u64 _) with (Z.ones 63). rewrite Z.land_spec, Z.ones_spec_low by lia. apply andb_true_r.
Qed.

Lemma nxFlags_has nx f k : 0 <= k < 63 -> has (nxFlags nx f) (2 ^ k) = has f (2 ^ k).
Proof. intros. rewrite !has_pow2 by lia. by apply nxFlags_bit. Qed.

Lemma nxFlags_mask nx f : Z.land f PAGE_MASK = 0 -> Z.land (nxFlags nx f) PAGE_MASK = 0.
Proof.
  intros E. apply Z.bits_inj'. intros k Hk. rewrite Z.land_spec, Z.bits_0.
  destruct (Z.lt_ge_cases k 63).
  - rewrite nxFlags_bit by lia. by rewrite <- Z.land_spec, E, Z.bits_0.
  - assert (Z.testbit PAGE_MASK k = false) as ->; [|apply andb_false_r].
    apply Z.bits_above_log2; [done|]. change (Z.log2 PAGE_MASK) with 47. lia.
Qed.

Lemma entry_value paddr f :
  0 <= paddr < 2 ^ 48 -> paddr mod PAGE_SIZE = 0 -> 0 <= f < 2 ^ 64 -> Z.land f PAGE_MASK = 0 ->
  let e := u64 (Z.lor (Z.lor paddr f) PAGE_FLAG_PRESENT) in
  has e PAGE_FLAG_PRESENT = true /\ Z.land e PAGE_MASK = paddr.
Proof.
  intros Hp Ha Hf Hm e. unfold e, uwrap. split.
  - unfold PAGE_FLAG_PRESENT. change 1 with (2 ^ 0) at 2. rewrite has_pow2, Z.mod_pow2_bits_low by lia.
    rewrite Z.lor_spec. apply orb_true_r.
  - rewrite <- Z.land_ones, <- Z.land_assoc by lia. change (Z.land (Z.ones 64) PAGE_MASK) with PAGE_MASK.
    rewrite !Z.land_lor_distr_l, Hm. change (Z.land PAGE_FLAG_PRESENT PAGE_MASK) with 0.
    rewrite !Z.lor_0_r. by apply page_of_small.
Qed.

(** C34: after [mmMapPage] the address translates to the page that was mapped,
    and its entry has the flags that were asked for, with the bit for execution
    inverted or cleared, whatever tables existed before and whichever the call had
    to create; the tables of the address stay well formed.  The address lies
    outside of the region of the tables themselves, its tables are well formed
    before, the flags leave the size bit and the bits of the address alone, and
    there are pages for three tables. *)
Theorem mmMapPage_mmGetPageEntry k v paddr flags (s : vm P) :
  pages_left (pool s) (3 + k) -> walk_ok (ptes s) v -> 0 <= v -> not_recursive v ->
  0 <= paddr < 2 ^ 48 -> paddr mod PAGE_SIZE = 0 ->
  0 <= flags < 2 ^ 64 -> has flags PAGE_FLAG_SIZE = false -> Z.land flags PAGE_MASK = 0 ->
  wp (mmMapPage v paddr flags;; mmGetPageEntry v) s (fun r s' =>
    r = paddr /\ ptes s' !! mmGetEntry v 0 = Some (Z.lor (Z.lor paddr (nxFlags (nxEnabled s) flags)) PAGE_FLAG_PRESENT) /\
    pages_left (pool s') k /\ forall l, 1 <= l <= 3 -> has_table (ptes s') v l).
Proof.
  intros Hp Hw Hv Hr Hpa Ha Hf Hs Hm. unfold mmMapPage. rewrite !wp_bind. apply wp_gets. cbv zeta.
  apply wp_bind. apply (allocTables_spec pages_left v _) with (k := k); try done.
  { change PAGE_FLAG_SIZE with (2 ^ 7). by rewrite nxFlags_has by lia. }
  { by apply nxFlags_range. }
  intros s1 Hp1 _ Ht1 H01. unfold mmSetPageEntry. apply wp_writePte; [done|].
  pose proof (nxFlags_range (nxEnabled s) flags Hf) as Hnr.
  destruct (entry_value paddr (nxFlags (nxEnabled s) flags)) as [E1 E2]; [done|done|done|by apply nxFlags_mask|].
  assert (Hlor : forall a b, 0 <= a < 2 ^ 64 -> 0 <= b < 2 ^ 64 -> 0 <= Z.lor a b < 2 ^ 64).
  { intros a b Ha' Hb'. assert (0 <= Z.lor a b) by (apply Z.lor_nonneg; lia). split; [done|]. destruct (Z.eq_dec (Z.lor a b) 0) as [->|]; [lia|].
    apply Z.log2_lt_pow2; [lia|]. rewrite Z.log2_lor by lia.
    apply Z.max_lub_lt; [destruct (Z.eq_dec a 0) as [->|]|destruct (Z.eq_dec b 0) as [->|]]; try done; apply Z.log2_lt_pow2; lia. }
  rewrite (uwrap_small 64) in * by (apply Hlor; [apply Hlor; lia|done]).
  eapply mmGetPageEntry_walk.
  - intros l Hl. apply set_entry_table; [done|done|done|by apply Ht1].
  - apply lookup_insert_eq.
  - rewrite E1, E2. split_and!; [done|apply lookup_insert_eq|done|]. intros l Hl. apply set_entry_table; [done|done|done|by apply Ht1].
Qed.

(** [mmSetPageFlags] without the present bit, and so [mmUnmapPage], makes
    the address translate to nothing. *)
Theorem mmSetPageFlags_unmaps k v flags (s : vm P) :
  pages_left (pool s) (3 + k) -> walk_ok (ptes s) v -> 0 <= v -> not_recursive v ->
  0 <= flags < 2 ^ 64 -> has flags PAGE_FLAG_SIZE = false -> has flags PAGE_FLAG_PRESENT = false ->
  wp (mmSetPageFlags v flags;; mmGetPageEntry v) s (fun r s' =>
    r = 0 /\ pages_left (pool s') k /\ ptes s' !! mmGetEntry v 0 = Some (nxFlags (nxEnabled s) flags)).
Proof.
  intros Hp Hw Hv Hr Hf Hs Hpr. unfold mmSetPageFlags. rewrite !wp_bind. apply wp_gets. cbv zeta.
  apply wp_bind. apply (allocTables_spec pages_left v _) with (k := k); try done.
  { change PAGE_FLAG_SIZE with (2 ^ 7). by rewrite nxFlags_has by lia. }
  { by apply nxFlags_range. }
  intros s1 Hp1 _ Ht1 H01. apply wp_writePte; [done|].
  rewrite uwrap_small by (by apply nxFlags_range). eapply mmGetPageEntry_walk.
  - intros l Hl. apply set_entry_table; [done|done|done|by apply Ht1].
  - apply lookup_insert_eq.
  - unfold PAGE_FLAG_PRESENT. change 1 with (2 ^ 0). rewrite nxFlags_has by lia.
    change (2 ^ 0) with PAGE_FLAG_PRESENT. rewrite Hpr. split_and!; [done|done|]. apply lookup_insert_eq.
Qed.
End translation.

(** ** Witnesses *)

(** A pool that is a list of zeroed pages. *)
#[export] Instance list_allocator : PageAllocator (list Z) := {
  allocClean := fun l => match l with [] => Done (0, []) | x :: l => Done (x, l) end;
  freePage := fun p l => Done (tt, p :: l)
}.
Definition list_ok (l : list Z) (k : nat) : Prop := (k <= length l)%nat /\ Forall (fun x => PAGE_SIZE <= x < 2 ^ 48 /\ x mod PAGE_SIZE = 0) l.
#[export] Instance list_allocator_ok : PageAllocatorOk (list Z) list_ok.
Proof.
  split.
  - intros l k [Hk Hl]. destruct Hl as [|x l [? E] Hl]; [cbn in Hk; lia|]. change (wp (mret x) l (fun r p' => list_ok p' k /\ PAGE_SIZE <= r < 2 ^ 48 /\ 0 <= r mod PAGE_SIZE <= 1)). apply wp_ret. split; [|lia]. split; [cbn in Hk; lia|done].
  - intros l k [Hk Hl]. split; [lia|done].
Qed.

Section witnesses.
(** Only the root table exists. *)
Definition empty_space : vm (list Z) :=
  mkVm (zeroPtes 512 0xFFFFFF7FBFDFE000 ∅) [0x1000; 0x2000; 0x3000] true 100 0 0 false ∅.

Lemma empty_space_walk : walk_ok (ptes empty_space) 0x400000.
Proof.
  split; [by vm_compute; eexists|]. intros l e Hl.
  assert (l = 1 \/ l = 2 \/ l = 3) as [->|[->| ->]] by lia; vm_compute; [done..|].
  by intros [= <-].
Qed.

Lemma empty_space_ok : list_ok (pool empty_space) 3.
Proof. split; [done|]. repeat constructor; done. Qed.

Lemma getAddrFromPte_mmGetEntry_witness :
  getAddrFromPte (mmGetEntry 0xFFFFFFFF80123456 1) 1 = 0xFFFFFFFF80123456 - 0xFFFFFFFF80123456 mod 2 ^ shift 1.
Proof.
  apply (getAddrFromPte_mmGetEntry 0xFFFFFFFF80123456 1); [right; by vm_compute|by right; left].
Defined.

Lemma mmMapPage_mmGetPageEntry_witness :
  wp (mmMapPage 0x400000 0x7000 PAGE_FLAG_WRITE;; mmGetPageEntry 0x400000) empty_space (fun r s' =>
    r = 0x7000 /\ ptes s' !! mmGetEntry 0x400000 0 = Some (0x7003 + 2 ^ 63) /\ list_ok (pool s') 0 /\ forall l, 1 <= l <= 3 -> has_table (ptes s') 0x400000 l).
Proof.
  apply (mmMapPage_mmGetPageEntry list_ok 0 0x400000 0x7000 PAGE_FLAG_WRITE empty_space
    empty_space_ok empty_space_walk); try done. by left.
Defined.

Lemma mmSetPageFlags_unmaps_witness :
  wp (mmSetPageFlags 0x400000 PAGE_FLAG_INUSE;; mmGetPageEntry 0x400000) empty_space (fun r s' =>
    r = 0 /\ list_ok (pool s') 0 /\
    ptes s' !! mmGetEntry 0x400000 0 = Some (nxFlags true PAGE_FLAG_INUSE)).
Proof.
  apply (mmSetPageFlags_unmaps list_ok 0 0x400000 PAGE_FLAG_INUSE empty_space
    empty_space_ok empty_space_walk); try done. by left.
Defined.
End witnesses.
