(* ===== verification/VirtPaging.v ===== *)
(** * Kernel virtual memory: [kernel/arch/x86_64/mm/virtpaging.c]

    Free kernel address space is a list threaded through unused page-table
    entries: the entry of the first page of a free range packs the range's
    length and a pointer to the entry that starts the next range.
    [mmCreateAddressSpace] of [map.c] is here too, since it uses [ioremap]. *)

From S2P Require Import Prelude Word Heap PhysPaging PageMap.

Definition MIN_PHYSPAGES : Z := 16.
Definition PACKED_ADDR_MASK : Z := 0x0000FFFFFFFFFFFF.
Definition PACKED_SIZE_SHIFT : Z := 48.
Definition NOT_ADDR_MASK : Z := 2 ^ 64 - 2 ^ 48.        (* ~PACKED_ADDR_MASK *)

(** [&p[n]] for a [pte_t *p]. *)
Definition idx (p n : Z) : Z := u64 (p + 8 * n).

Definition unpackAddrAndSize (packed : Z) : Z * Z :=
  (if negb (Z.land packed PACKED_ADDR_MASK =? 0) then Z.lor packed NOT_ADDR_MASK else 0,
   u32 (Z.shiftr packed PACKED_SIZE_SHIFT)).
Definition packAddrAndSize (next size : Z) : Z :=
  Z.lor (Z.land next PACKED_ADDR_MASK) (u64 (Z.shiftl size PACKED_SIZE_SHIFT)).
(** The new value of [*pte] in [updateAddr] and [updateSize]. *)
Definition updateAddr (pte next : Z) : Z :=
  Z.lor (Z.land pte PACKED_ADDR_MASK) (Z.land next PACKED_ADDR_MASK).
Definition updateSize (pte size : Z) : Z :=
  Z.lor (Z.land pte NOT_ADDR_MASK) (u64 (Z.shiftl size PACKED_SIZE_SHIFT)).

Section virt.
Context {P : Type} `{PageAllocator P}.
(** The linker's symbols, and the fuel for walks along the free list. *)
Context (BSS_END_ADDR VMEM_OFFSET : Z) (fuel : nat).

Definition set_freeStart (p : Z) : M (vm P) unit :=
  modify (fun s => mkVm (ptes s) (pool s) (nxEnabled s) (freePhysPages s) p (KVMemEnd s) (KVMemLock s) (dirty s)).
Definition set_KVMemEnd (p : Z) : M (vm P) unit :=
  modify (fun s => mkVm (ptes s) (pool s) (nxEnabled s) (freePhysPages s) (freeStart s) p (KVMemLock s) (dirty s)).
Definition set_lock (b : bool) (s : vm P) : vm P :=
  mkVm (ptes s) (pool s) (nxEnabled s) (freePhysPages s) (freeStart s) (KVMemEnd s) b (dirty s).
Definition acquireKVMem : M (vm P) unit := fun s =>
  if KVMemLock s then Fault else Done (tt, set_lock true s).
Definition releaseKVMem : M (vm P) unit := modify (set_lock false).

Definition updatePteAddr (pte next : Z) : M (vm P) unit :=
  e ← readPte pte; writePte pte (updateAddr e next).
Definition updatePteSize (pte size : Z) : M (vm P) unit :=
  e ← readPte pte; writePte pte (updateSize e size).

(** [if (prev) updateAddr(prev, p) else freeStart = p]. *)
Definition relink (prev p : Z) : M (vm P) unit :=
  if prev =? 0 then set_freeStart p else updatePteAddr prev p.

(** The search of [allocVMem]: the block that was found, if any, and the last
    values of [curFree], [prev] and [curNrofPages]. *)
Fixpoint findFree (f : nat) (curFree prev nrofPages : Z) : M (vm P) (option Z * Z * Z * Z) :=
  match f with
  | O => nofuel
  | S f =>
    if curFree =? 0 then mret (None, curFree, prev, 0)
    else
      packed ← readPte curFree;
      let '(next, curNrofPages) := unpackAddrAndSize packed in
      if curNrofPages >=? nrofPages then
        let curNrofPages := curNrofPages - nrofPages in
        (if curNrofPages =? 0 then relink prev next
         else
           let newFree := idx curFree nrofPages in
           writePte newFree (packAddrAndSize next curNrofPages);;
           relink prev newFree);;
        mret (Some curFree, curFree, prev, curNrofPages)
      else if negb (next =? 0) then findFree f next curFree nrofPages
      else mret (None, curFree, prev, curNrofPages)
  end.

(** New page tables behind the end of the kernel's address space. *)
Fixpoint growTables (n : nat) : M (vm P) bool :=
  match n with
  | O => mret true
  | S n =>
    newPT ← onPool allocClean;
    if newPT =? 0 then mret false
    else
      e ← gets KVMemEnd;
      writeTable (mmGetEntry e 1) (Z.lor (Z.lor newPT PAGE_FLAG_PRESENT) PAGE_FLAG_WRITE);;
      set_KVMemEnd (u64 (e + LARGEPAGE_SIZE));;
      growTables n
  end.

(** [allocVMem] when no block is big enough. *)
Definition growVMem (curFree prev curNrofPages nrofPages : Z) : M (vm P) Z :=
  e ← gets KVMemEnd;
  let newEntry := mmGetEntry e 0 in
  let morePagesNeeded :=
    if negb (curFree =? 0) && (e =? idx curFree curNrofPages)
    then u32 (nrofPages - curNrofPages) else nrofPages in
  let nrofPTs := morePagesNeeded / 512 + (if morePagesNeeded mod 512 =? 0 then 0 else 1) in
  ok ← growTables (Z.to_nat nrofPTs);
  if negb ok then mret 0
  else if negb (curFree =? 0) && (newEntry =? idx curFree curNrofPages) then
    e' ← gets KVMemEnd;
    let newEntry := idx curFree nrofPages in
    let diff := u32 (u64 (mmGetEntry e' 0 - newEntry) / PAGE_SIZE) in
    writePte newEntry (packAddrAndSize 0 diff);;
    relink prev newEntry;;
    mret curFree
  else
    let nrofLeftOverPages := u32 (nrofPTs * 512 - nrofPages) in
    let freeEntry := idx newEntry nrofPages in
    writePte freeEntry (packAddrAndSize 0 nrofLeftOverPages);;
    relink prev freeEntry;;
    mret newEntry.

Definition allocVMem (nrofPages : Z) : M (vm P) Z :=
  curFree ← gets freeStart;
  '(found, curFree, prev, curNrofPages) ← findFree fuel curFree 0 nrofPages;
  match found with
  | Some p => mret p
  | None => growVMem curFree prev curNrofPages nrofPages
  end.

Fixpoint deallocVMemLoop (f : nat) (start nrofPages nextFree prev : Z) : M (vm P) unit :=
  match f with
  | O => nofuel
  | S f =>
    if nextFree =? 0 then mret tt
    else
      packed ← readPte nextFree;
      let '(next, nextNrofPages) := unpackAddrAndSize packed in
      if idx start nrofPages =? nextFree then
        writePte start (packAddrAndSize next (u32 (nrofPages + nextNrofPages)));;
        relink prev start
      else if start =? idx nextFree nextNrofPages then
        updatePteSize nextFree (u32 (nrofPages + nextNrofPages))
      else if start >? idx nextFree nextNrofPages then
        writePte start (packAddrAndSize next nrofPages);;
        updatePteAddr nextFree start
      else deallocVMemLoop f start nrofPages next nextFree
  end.
Definition deallocVMem (start nrofPages : Z) : M (vm P) unit :=
  nextFree ← gets freeStart;
  deallocVMemLoop fuel start nrofPages nextFree 0.

Definition mmInitVirtPaging : M (vm P) unit :=
  let bssEnd := u64 (align BSS_END_ADDR LARGEPAGE_SIZE + 5 * PAGE_SIZE) in
  let KVEnd := if bssEnd mod LARGEPAGE_SIZE =? 0 then bssEnd
               else u64 (bssEnd - bssEnd mod LARGEPAGE_SIZE + LARGEPAGE_SIZE) in
  set_KVMemEnd KVEnd;;
  let entry := mmGetEntry bssEnd 0 in
  (if bssEnd =? KVEnd then
     page ← onPool allocClean;
     writeTable (mmGetEntry bssEnd 1) (Z.lor (Z.lor page PAGE_FLAG_PRESENT) PAGE_FLAG_WRITE);;
     writePte entry (packAddrAndSize 0 512)
   else
     writePte entry (packAddrAndSize 0 (u32 ((KVEnd - bssEnd) / PAGE_SIZE))));;
  set_freeStart entry.

(** [for (i = 0; i < n; i++) mem[i] = v(i)]. *)
Fixpoint fillPtes (n : nat) (mem : Z) (v step : Z) : M (vm P) unit :=
  match n with
  | O => mret tt
  | S n => writePte mem v;; fillPtes n (idx mem 1) (v + step) step
  end.

Definition allocKPages (size flags : Z) : M (vm P) Z :=
  let flags := Z.lor (Z.lor flags PAGE_FLAG_INUSE) PAGE_FLAG_KERNEL in
  let nrofPages := u32 (sizeToPages size) in
  free ← gets freePhysPages;
  if (nrofPages >? free) || (free - nrofPages <? MIN_PHYSPAGES) then mret 0
  else
    addFree (- nrofPages);;
    acquireKVMem;;
    mem ← allocVMem nrofPages;
    if mem =? 0 then releaseKVMem;; mret 0
    else
      fillPtes (Z.to_nat nrofPages) mem flags 0;;
      releaseKVMem;;
      mret (getAddrFromPte mem 0).

Fixpoint setFlagsFrom (n : nat) (addr flags : Z) : M (vm P) unit :=
  match n with
  | O => mret tt
  | S n => mmSetPageFlags addr flags;; setFlagsFrom n (u64 (addr + PAGE_SIZE)) flags
  end.
Definition allocPageAt (addr size flags : Z) : M (vm P) unit :=
  let nrofPages := u32 (sizeToPages size) in
  (if has flags PAGE_FLAG_INUSE then addFree (- nrofPages) else mret tt);;
  setFlagsFrom (Z.to_nat nrofPages) addr flags.

(** The loop of [deallocPages]. *)
Fixpoint freePtes (n : nat) (mem : Z) : M (vm P) unit :=
  match n with
  | O => mret tt
  | S n =>
    e ← readPte mem;
    (if has e PAGE_FLAG_PRESENT && has e PAGE_FLAG_INUSE && negb (Z.land e PAGE_MASK =? 0)
        && negb (has e PAGE_FLAG_SHARED)
     then onPool (freePage (Z.land e PAGE_MASK)) else mret tt);;
    writePte mem 0;;
    freePtes n (idx mem 1)
  end.
Definition deallocPages (addr size : Z) : M (vm P) unit :=
  let nrofPages := u32 (sizeToPages size) in
  addFree nrofPages;;
  let mem := mmGetEntry addr 0 in
  freePtes (Z.to_nat nrofPages) mem;;
  if addr >? VMEM_OFFSET then deallocVMem mem nrofPages else mret tt.

Definition ioremap (paddr size : Z) : M (vm P) Z :=
  let paddrDiff := paddr mod PAGE_SIZE in
  let nrofPages := u32 (sizeToPages (u64 (size + paddrDiff))) in
  acquireKVMem;;
  mem ← allocVMem nrofPages;
  if mem =? 0 then releaseKVMem;; mret 0
  else
    fillPtes (Z.to_nat nrofPages) mem
      (Z.lor (Z.lor (paddr - paddrDiff) PAGE_FLAG_PRESENT) PAGE_FLAG_WRITE) PAGE_SIZE;;
    releaseKVMem;;
    mret (u64 (getAddrFromPte mem 0 + paddrDiff)).

Definition iounmap (addr size : Z) : M (vm P) unit :=
  let addrDiff := addr mod PAGE_SIZE in
  let nrofPages := u32 (sizeToPages (u64 (size + addrDiff))) in
  let mem := mmGetEntry (addr - addrDiff) 0 in
  fillPtes (Z.to_nat nrofPages) mem 0 0;;
  deallocVMem mem nrofPages.

(** A word written through the pointer that [ioremap] returned for [paddr]. *)
Definition writeMapped (paddr off v : Z) : M (vm P) unit :=
  modify (fun s => mkVm (ptes s) (pool s) (nxEnabled s) (freePhysPages s) (freeStart s) (KVMemEnd s)
    (KVMemLock s) (<[paddr + off := u64 v]> (dirty s))).

Definition mmCreateAddressSpace : M (vm P) Z :=
  physpml4 ← onPool allocClean;
  if physpml4 =? 0 then mret 0
  else
    pml4 ← ioremap physpml4 PAGE_SIZE;
    if pml4 =? 0 then onPool (freePage physpml4);; mret 0
    else
      writeMapped physpml4 (8 * 510) (Z.lor (Z.lor physpml4 PAGE_FLAG_PRESENT) PAGE_FLAG_WRITE);;
      kernelEntry ← readPte (0xFFFFFF7FBFDFE000 + 8 * 511);
      writeMapped physpml4 (8 * 511) kernelEntry;;
      iounmap pml4 PAGE_SIZE;;
      mret physpml4.
End virt.

(** ** Packed list entries *)

(** A pointer into the page tables, which lie in the top 2^48 bytes. *)
Definition kernel_ptr (p : Z) : Prop := 2 ^ 64 - 2 ^ 48 < p < 2 ^ 64.

Section packing.
Lemma not_addr_mask : NOT_ADDR_MASK = (2 ^ 16 - 1) * 2 ^ 48.
Proof. reflexivity. Qed.

Lemma land_addr_mask v : Z.land v PACKED_ADDR_MASK = v mod 2 ^ 48.
Proof. change PACKED_ADDR_MASK with (Z.ones 48). apply Z.land_ones. lia. Qed.

Lemma pack_value p n : 0 <= n < 2 ^ 16 -> packAddrAndSize p n = p mod 2 ^ 48 + n * 2 ^ 48.
Proof.
  intros Hn. unfold packAddrAndSize, PACKED_SIZE_SHIFT.
  rewrite land_addr_mask, Z.shiftl_mul_pow2, uwrap_small by lia.
  apply lor_add; [lia|]. apply Z.mod_pos_bound. lia.
Qed.

Lemma pack_range p n : 0 <= n < 2 ^ 16 -> 0 <= packAddrAndSize p n < 2 ^ 64.
Proof. intros Hn. rewrite pack_value by done. pose proof (Z.mod_pos_bound p (2 ^ 48)). lia. Qed.

Lemma pack_low p n : 0 <= n < 2 ^ 16 -> packAddrAndSize p n mod 2 ^ 48 = p mod 2 ^ 48.
Proof. intros Hn. rewrite pack_value, Z_mod_plus_full, Z.mod_mod by lia. done. Qed.

Lemma pack_high p n : 0 <= n < 2 ^ 16 -> packAddrAndSize p n / 2 ^ 48 = n.
Proof.
  intros Hn. rewrite pack_value, Z.div_add, Z.div_small by (lia || apply Z.mod_pos_bound; lia). done.
Qed.

Lemma lor_not_addr v : 0 <= v < 2 ^ 64 -> Z.lor v NOT_ADDR_MASK = 2 ^ 64 - 2 ^ 48 + v mod 2 ^ 48.
Proof.
  intros Hv. rewrite not_addr_mask. pose proof (Z.mod_pos_bound v (2 ^ 48)).
  replace (2 ^ 64 - 2 ^ 48 + v mod 2 ^ 48) with (v mod 2 ^ 48 + (2 ^ 16 - 1) * 2 ^ 48) by lia.
  rewrite <- lor_add by lia. rewrite (Z.div_mod v (2 ^ 48)) at 1 by lia.
  rewrite (Z.add_comm (2 ^ 48 * _)), (Z.mul_comm (2 ^ 48)), <- lor_add, <- Z.lor_assoc by lia. f_equal.
  assert (0 <= v / 2 ^ 48 < 2 ^ 16) by (split; [apply Z.div_pos|apply Z.div_lt_upper_bound]; lia).
  apply Z.bits_inj'. intros n Hn. rewrite Z.lor_spec.
  destruct (Z.lt_ge_cases n 48); [by rewrite !Z.mul_pow2_bits_low by lia|].
  rewrite !Z.mul_pow2_bits by lia. change (2 ^ 16 - 1) with (Z.ones 16).
  destruct (Z.lt_ge_cases (n - 48) 16).
  - rewrite Z.ones_spec_low by lia. apply orb_true_r.
  - rewrite <- (Z.mod_small (v / 2 ^ 48) (2 ^ 16)), Z.mod_pow2_bits_high by lia. done.
Qed.

Lemma unpack_value v :
  0 <= v < 2 ^ 64 ->
  unpackAddrAndSize v = (if v mod 2 ^ 48 =? 0 then 0 else 2 ^ 64 - 2 ^ 48 + v mod 2 ^ 48, v / 2 ^ 48).
Proof.
  intros Hv. unfold unpackAddrAndSize. rewrite land_addr_mask, lor_not_addr, Z.shiftr_div_pow2 by (done || unfold PACKED_SIZE_SHIFT; lia).
  unfold PACKED_SIZE_SHIFT. rewrite uwrap_small by (split; [apply Z.div_pos|apply Z.div_lt_upper_bound]; lia).
  by destruct (_ =? _).
Qed.

Lemma kernel_ptr_mod p : kernel_ptr p -> p = 2 ^ 64 - 2 ^ 48 + p mod 2 ^ 48 /\ p mod 2 ^ 48 <> 0.
Proof.
  unfold kernel_ptr. intros Hp. assert (p mod 2 ^ 48 = p - (2 ^ 16 - 1) * 2 ^ 48) as ->; [|lia].
  symmetry. apply (Z.mod_unique p (2 ^ 48) (2 ^ 16 - 1)); lia.
Qed.

Lemma unpack_pack p n :
  p = 0 \/ kernel_ptr p -> 0 <= n < 2 ^ 16 -> unpackAddrAndSize (packAddrAndSize p n) = (p, n).
Proof.
  intros Hp Hn. rewrite unpack_value, pack_low, pack_high by (done || by apply pack_range).
  destruct Hp as [->|[E Hne]%kernel_ptr_mod]; [done|]. destruct (Z.eqb_spec (p mod 2 ^ 48) 0); [lia|].
  by rewrite <- E.
Qed.
End packing.

(** ** The free list *)

(** [free_list m p l]: from [p] on the list has the blocks [l], each with the
    entry it starts at and its number of pages. *)
Fixpoint free_list (m : gmap Z Z) (p : Z) (l : list (Z * Z)) : Prop :=
  match l with
  | [] => p = 0
  | (q, n) :: l => p = q /\ kernel_ptr q /\ 0 < n < 2 ^ 16 /\
      exists next, m !! q = Some (packAddrAndSize next n) /\ free_list m next l
  end.

(** The entry that starts a block of [l] is none of [a], [a + 8], ..., *)
Definition apart (a n : Z) (l : list (Z * Z)) : Prop :=
  Forall (fun b => ~ a <= fst b < a + 8 * n) l.

Section free_lists.
Context {P : Type} `{PageAllocator P}.

Lemma free_list_ptr m p l : free_list m p l -> p = 0 \/ kernel_ptr p.
Proof. destruct l as [|[q n] l]; simpl; [by left|]. intros (-> & ? & _). by right. Qed.

Lemma free_list_unpack m p n l :
  free_list m p ((p, n) :: l) -> exists next, m !! p = Some (packAddrAndSize next n) /\
    unpackAddrAndSize (packAddrAndSize next n) = (next, n) /\ free_list m next l.
Proof.
  intros (_ & _ & Hn & next & Hm & Hl). exists next. split_and!; [done| |done].
  apply unpack_pack; [by eapply free_list_ptr|lia].
Qed.

Lemma free_list_ext m m' p l :
  free_list m p l -> (forall b, b ∈ l -> m' !! fst b = m !! fst b) -> free_list m' p l.
Proof.
  revert p. induction l as [|[q n] l IH]; intros p; simpl; [done|].
  intros (-> & Hk & Hn & next & Hm & Hl) HE. split_and!; try done; try lia.
  exists next. split; [rewrite <- Hm; apply (HE (q, n)); left|]. apply IH; [done|].
  intros b Hb. apply HE. by right.
Qed.

Lemma fillPtes_spec n mem v step (s : vm P) (Q : unit -> vm P -> Prop) :
  0 <= mem -> mem + 8 * Z.of_nat n <= 2 ^ 64 ->
  (forall i, 0 <= i < Z.of_nat n -> is_Some (ptes s !! (mem + 8 * i))) ->
  (forall s', pool s' = pool s -> freePhysPages s' = freePhysPages s -> freeStart s' = freeStart s ->
    KVMemEnd s' = KVMemEnd s -> KVMemLock s' = KVMemLock s ->
    (forall i, 0 <= i < Z.of_nat n -> ptes s' !! (mem + 8 * i) = Some (u64 (v + step * i))) ->
    (forall a, ~ mem <= a < mem + 8 * Z.of_nat n -> ptes s' !! a = ptes s !! a) -> Q tt s') ->
  wp (fillPtes n mem v step) s Q.
Proof.
  revert mem v s. induction n as [|n IH]; intros mem v s H0 H1 Hm HQ; simpl.
  { apply wp_ret. apply HQ; try done. intros. lia. }
  apply wp_bind, wp_writePte.
  { rewrite <- (Z.add_0_r mem). change 0 with (8 * 0). apply Hm. lia. }
  destruct n as [|n'].
  { simpl. apply wp_ret. apply HQ; try done; simpl.
    - intros i Hi. replace i with 0 by lia. rewrite !Z.mul_0_r, !Z.add_0_r. apply lookup_insert_eq.
    - intros a Ha. apply lookup_insert_ne. lia. }
  unfold idx. rewrite uwrap_small by lia.
  apply IH; [lia|lia| |].
  - intros i Hi. simpl. rewrite lookup_insert_ne by lia.
    replace (mem + 8 * 1 + 8 * i) with (mem + 8 * (i + 1)) by lia. apply Hm. lia.
  - intros s' E1 E2 E3 E4 E5 Hin Hout. apply HQ; try done.
    + intros i Hi. destruct (Z.eq_dec i 0) as [->|].
      * rewrite Hout by lia. simpl. rewrite !Z.mul_0_r, !Z.add_0_r. apply lookup_insert_eq.
      * replace (mem + 8 * i) with (mem + 8 * 1 + 8 * (i - 1)) by lia. rewrite Hin by lia.
        do 2 f_equal. lia.
    + intros a Ha. rewrite Hout by lia. simpl. apply lookup_insert_ne. lia.
Qed.

(** The list after [k] pages are taken from its first block. *)
Definition take_first (p n k : Z) (l : list (Z * Z)) : list (Z * Z) :=
  if n =? k then l else (p + 8 * k, n - k) :: l.

(** Allocation from the first block, which is what [allocVMem] tries first. *)
Lemma allocVMem_first fuel p n k l (s : vm P) (Q : Z -> vm P -> Prop) :
  free_list (ptes s) (freeStart s) ((p, n) :: l) -> 1 <= k <= n -> apart p n l ->
  (forall i, 0 <= i < n -> is_Some (ptes s !! (p + 8 * i))) -> p + 8 * n < 2 ^ 64 ->
  (forall s', pool s' = pool s -> freePhysPages s' = freePhysPages s -> KVMemEnd s' = KVMemEnd s ->
    KVMemLock s' = KVMemLock s -> free_list (ptes s') (freeStart s') (take_first p n k l) ->
    (forall a, is_Some (ptes s !! a) -> is_Some (ptes s' !! a)) -> Q p s') ->
  wp (allocVMem (S fuel) k) s Q.
Proof.
  intros Hl Hk Ha Hm Hend HQ. pose proof Hl as (E & Hp & Hn & _).
  unfold allocVMem. apply wp_bind, wp_gets. rewrite E. cbn [findFree].
  destruct (Z.eqb_spec p 0); [unfold kernel_ptr in Hp; lia|].
  rewrite E in Hl. destruct (free_list_unpack _ _ _ _ Hl) as (next & Hpk & Hun & Hnext).
  apply wp_bind, wp_bind, wp_readPte. exists (packAddrAndSize next n). split; [done|]. rewrite Hun.
  destruct (Z.geb_spec n k); [|lia]. unfold take_first in HQ.
  apply wp_bind. destruct (Z.eqb_spec (n - k) 0).
  - unfold relink. simpl. apply wp_modify. apply wp_ret. simpl. apply wp_ret.
    destruct (Z.eqb_spec n k); [|lia]. by apply HQ.
  - destruct (Z.eqb_spec n k); [lia|]. unfold relink. simpl. apply wp_bind.
    unfold idx. unfold kernel_ptr in Hp. rewrite (uwrap_small 64 (p + 8 * k)) by lia.
    apply wp_writePte; [apply Hm; lia|]. apply wp_modify. apply wp_ret. simpl. apply wp_ret.
    rewrite uwrap_small by (apply pack_range; lia). apply HQ; try done; simpl.
    + split_and!; [done|unfold kernel_ptr; lia..|]. exists next. split; [apply lookup_insert_eq|].
      eapply free_list_ext; [exact Hnext|]. intros b Hb. apply lookup_insert_ne.
      unfold apart in Ha. rewrite Forall_forall in Ha. specialize (Ha b Hb). lia.
    + intros a Hs. destruct (decide (a = p + 8 * k)) as [->|]; [by rewrite lookup_insert_eq|].
      by rewrite lookup_insert_ne.
Qed.
End free_lists.

(** ** The properties *)

(** Packed list entries are read back as they were packed. *)
Theorem unpack_packAddrAndSize p n :
  p = 0 \/ kernel_ptr p -> 0 <= n < 2 ^ 16 -> unpackAddrAndSize (packAddrAndSize p n) = (p, n).
Proof. apply unpack_pack. Qed.

(** [updateAddr] and [updateSize] mask with each other's mask: an entry
    whose address is updated loses its size, and its new address is the
    bitwise or of both; an entry whose size is updated loses its address. *)
Theorem update_masks_swapped p q n k :
  0 <= n < 2 ^ 16 -> 0 <= k < 2 ^ 16 ->
  updateAddr (packAddrAndSize p n) q = Z.lor (p mod 2 ^ 48) (q mod 2 ^ 48) /\
  updateSize (packAddrAndSize p n) k = Z.lor n k * 2 ^ 48.
Proof.
  intros Hn Hk. unfold updateAddr, updateSize. split.
  - by rewrite !land_addr_mask, pack_low.
  - change NOT_ADDR_MASK with (2 ^ 64 - 2 ^ 48). rewrite land_high_mask by (lia || by apply pack_range).
    rewrite pack_low, pack_value by done. unfold PACKED_SIZE_SHIFT.
    replace (p mod 2 ^ 48 + n * 2 ^ 48 - p mod 2 ^ 48) with (Z.shiftl n 48) by (rewrite Z.shiftl_mul_pow2 by lia; lia).
    rewrite (uwrap_small 64 (Z.shiftl k 48)) by (rewrite Z.shiftl_mul_pow2; lia).
    by rewrite <- Z.shiftl_lor, Z.shiftl_mul_pow2 by lia.
Qed.

Section properties.
Context {P : Type} `{PageAllocator P}.

(** [allocKPages] hands out the start of the first free block when that is
    long enough: it returns the block's address, marks exactly the requested
    pages as in use with the requested flags, shortens the free list by them
    (or by the whole block), books the pages and frees the lock. *)
Theorem allocKPages_correct fuel p n l size flags (s : vm P) :
  let k := sizeToPages size in
  free_list (ptes s) (freeStart s) ((p, n) :: l) -> apart p n l -> KVMemLock s = false ->
  (forall i, 0 <= i < n -> is_Some (ptes s !! (p + 8 * i))) -> p + 8 * n < 2 ^ 64 ->
  1 <= k <= n -> k + MIN_PHYSPAGES <= freePhysPages s < 2 ^ 64 ->
  wp (allocKPages (S fuel) size flags) s (fun r s' =>
    r = getAddrFromPte p 0 /\ KVMemLock s' = false /\ freePhysPages s' = freePhysPages s - k /\
    free_list (ptes s') (freeStart s') (take_first p n k l) /\
    forall i, 0 <= i < k -> ptes s' !! (p + 8 * i) =
      Some (u64 (Z.lor (Z.lor flags PAGE_FLAG_INUSE) PAGE_FLAG_KERNEL))).
Proof.
  intros k Hl Ha Hlock Hm Hend Hk Hfree. pose proof Hl as (_ & Hp & Hn & _).
  unfold kernel_ptr, MIN_PHYSPAGES in *.
  unfold allocKPages. fold k. rewrite (uwrap_small 32 k) by lia. apply wp_bind, wp_gets.
  destruct (Z.gtb_spec k (freePhysPages s)); [lia|].
  destruct (Z.ltb_spec (freePhysPages s - k) MIN_PHYSPAGES); [unfold MIN_PHYSPAGES in *; lia|]. simpl orb.
  cbv iota. apply wp_bind. unfold addFree. apply wp_modify. apply wp_bind.
  unfold wp at 1, acquireKVMem. simpl. rewrite Hlock. apply wp_bind.
  eapply (allocVMem_first fuel p n k l); try done.
  intros s1 _ Ef _ _ Hl1 Hm1. simpl in Ef, Hm1. destruct (Z.eqb_spec p 0); [lia|].
  apply wp_bind, fillPtes_spec; [lia|lia|intros i Hi; apply Hm1, Hm; lia|].
  intros s2 _ E2 E3 _ _ Hin Hout. apply wp_bind. unfold releaseKVMem. apply wp_modify. apply wp_ret. simpl.
  split_and!; [done|done| | |].
  - rewrite E2, Ef. rewrite uwrap_small; lia.
  - rewrite E3. eapply free_list_ext; [exact Hl1|]. intros b Hb. apply Hout.
    unfold apart in Ha. rewrite Forall_forall in Ha. unfold take_first in Hb.
    destruct (Z.eqb_spec n k); [specialize (Ha b Hb); lia|].
    apply elem_of_cons in Hb as [->|Hb]; simpl; [lia|]. specialize (Ha b Hb). lia.
  - intros i Hi. rewrite Hin by lia. by rewrite Z.mul_0_l, Z.add_0_r.
Qed.

(** Address space below the free blocks is never given back: when the
    freed range does not touch a block and lies behind none of them,
    [deallocVMem] walks to the end of the list and changes nothing. *)
Theorem deallocVMem_leaks fuel start k l (s : vm P) :
  free_list (ptes s) (freeStart s) l -> (length l < fuel)%nat ->
  (forall q n, (q, n) ∈ l -> idx start k <> q /\ start < idx q n) ->
  wp (deallocVMem fuel start k) s (fun _ s' => s' = s).
Proof.
  intros Hl Hf Hb. unfold deallocVMem. apply wp_bind, wp_gets. revert Hl Hf Hb.
  generalize (freeStart s), 0. revert fuel. induction l as [|[q n] l IH]; intros fuel a prev Hl Hf Hb.
  - destruct fuel; [simpl in Hf; lia|]. simpl in Hl. subst a. by apply wp_ret.
  - destruct fuel as [|fuel]; [simpl in Hf; lia|]. cbn [deallocVMemLoop].
    pose proof Hl as (-> & Hp & _). destruct (Z.eqb_spec q 0); [unfold kernel_ptr in Hp; lia|].
    destruct (free_list_unpack _ _ _ _ Hl) as (next & Hpk & Hun & Hnext).
    apply wp_bind, wp_readPte. exists (packAddrAndSize next n). split; [done|]. rewrite Hun.
    destruct (Hb q n) as [H1 H2]; [left|]. destruct (Z.eqb_spec (idx start k) q); [done|].
    destruct (Z.eqb_spec start (idx q n)); [lia|]. destruct (Z.gtb_spec start (idx q n)); [lia|].
    apply IH; [done|simpl in Hf; lia|]. intros. apply Hb. by right.
Qed.
End properties.

(** ** Witnesses *)

Section witnesses.
(** One free block of 507 pages at the start of a table. *)
Definition vm_demo : vm (list Z) :=
  let p := 0xFFFFFFFFC0100000 in
  mkVm (<[p := packAddrAndSize 0 507]> (zeroPtes 512 p ∅)) [] true 1000 p 0 false ∅.

Lemma vm_demo_list : free_list (ptes vm_demo) (freeStart vm_demo) [(0xFFFFFFFFC0100000, 507)].
Proof.
  cbn [free_list]. split; [reflexivity|]. split; [by unfold kernel_ptr|]. split; [done|].
  exists 0. split; [apply lookup_insert_eq|done].
Qed.

Lemma vm_demo_mapped i : 0 <= i < 507 -> is_Some (ptes vm_demo !! (0xFFFFFFFFC0100000 + 8 * i)).
Proof.
  intros Hi. unfold vm_demo. cbv zeta. cbn [ptes]. destruct (Z.eq_dec i 0) as [->|].
  - exists (packAddrAndSize 0 507). apply lookup_insert_eq.
  - exists 0. rewrite lookup_insert_ne by lia. apply (zeroPtes_in 512). lia.
Qed.

Lemma unpack_packAddrAndSize_witness :
  unpackAddrAndSize (packAddrAndSize 0xFFFFFFFFC0100000 507) = (0xFFFFFFFFC0100000, 507).
Proof. apply (unpack_packAddrAndSize 0xFFFFFFFFC0100000 507); [right; by unfold kernel_ptr|lia]. Defined.

Lemma update_masks_swapped_witness :
  updateAddr (packAddrAndSize 0x1000 7) 0x2000 = Z.lor (0x1000 mod 2 ^ 48) (0x2000 mod 2 ^ 48) /\
  updateSize (packAddrAndSize 0x1000 7) 9 = Z.lor 7 9 * 2 ^ 48.
Proof. exact (update_masks_swapped 0x1000 0x2000 7 9 ltac:(lia) ltac:(lia)). Defined.

Lemma allocKPages_correct_witness :
  wp (allocKPages 1 0x3000 PAGE_FLAG_WRITE) vm_demo (fun r s' =>
    r = getAddrFromPte 0xFFFFFFFFC0100000 0 /\ KVMemLock s' = false /\
    freePhysPages s' = freePhysPages vm_demo - sizeToPages 0x3000 /\
    free_list (ptes s') (freeStart s') (take_first 0xFFFFFFFFC0100000 507 (sizeToPages 0x3000) []) /\
    forall i, 0 <= i < sizeToPages 0x3000 -> ptes s' !! (0xFFFFFFFFC0100000 + 8 * i) =
      Some (u64 (Z.lor (Z.lor PAGE_FLAG_WRITE PAGE_FLAG_INUSE) PAGE_FLAG_KERNEL))).
Proof.
  apply (allocKPages_correct 0 0xFFFFFFFFC0100000 507 [] 0x3000 PAGE_FLAG_WRITE vm_demo vm_demo_list);
    [constructor|reflexivity|exact vm_demo_mapped|by vm_compute|by vm_compute|by vm_compute].
Defined.

Lemma deallocVMem_leaks_witness :
  wp (deallocVMem 2 0xFFFFFFFFC00F0000 3) vm_demo (fun _ s' => s' = vm_demo).
Proof.
  apply (deallocVMem_leaks 2 0xFFFFFFFFC00F0000 3 _ vm_demo vm_demo_list); [simpl; lia|].
  intros q n [= -> ->]%list_elem_of_singleton. by vm_compute.
Defined.
End witnesses.
