(* ===== verification/Printf.v ===== *)
(** * Formatted output of the C library: [phlibc/src/printf.c]

    [vsnprintf] and the number printers write into a byte addressed memory
    through [ADD_TO_BUF], whose early [return -E2BIG] is the left case of a
    sum.  Format and string arguments are lists of non-zero characters that do
    not overlap the destination.  Floats are the standard library's IEEE 754
    reference model.  Streams are an interface, [Stdio]. *)

From Stdlib Require Import SpecFloat.
From S2P Require Import Prelude Word Errno CString Printk.


(** What [printf.c] uses of the buffered streams: [fwrite(ptr, 1, len, stream)]
    with its result. *)
Class Stdio (F : Type) := fwrite : Z -> list Z -> F -> Z * F.
Definition STDOUT : Z := 1.

Record libc (F : Type) := mkLibc { cmem : gmap Z Z; errno : Z; files : F }.
Arguments mkLibc {F} cmem errno files.
Arguments cmem {F} l.
Arguments errno {F} l.
Arguments files {F} l.

(** The variable arguments: 64-bit integers, strings ([None] is [NULL]) and
    doubles. *)
Inductive arg := AInt (n : Z) | AStr (s : option (list Z)) | ADouble (f : spec_float).

Definition isFlag (c : Z) : bool :=
  (c =? 45) || (c =? 43) || (c =? 32) || (c =? 35) || (c =? 48).

Fixpoint flagPresent (flags : list Z) (flag : Z) : bool :=
  match flags with
  | [] => false
  | f :: flags => if f =? flag then true else flagPresent flags flag
  end.

(** [varLength] is a character, 0 if there is none. *)
Definition truncateInt (n : Z) (sign : bool) (varLength : Z) : Z :=
  if varLength =? 0 then
    let n := Z.land n 0xFFFFFFFF in
    if sign && has n 0x80000000 then Z.lor n 0xFFFFFFFF00000000 else n
  else if varLength =? 104 (* 'h' *) then
    let n := Z.land n 0xFFFF in
    if sign && has n 0x8000 then Z.lor n 0xFFFFFFFFFFFF0000 else n
  else n.

(** ** The digits in [char temp[100]], last digit first

    [k] is the room left in [temp]; [None] is [return -E2BIG]. *)

Fixpoint decTemp (k : nat) (n : Z) : option (list Z) :=
  if n =? 0 then Some []
  else match k with
       | O => None
       | S k => cons (n mod 10 + 48) <$> decTemp k (n / 10)
       end.

Fixpoint hexTemp (k : nat) (n : Z) (caps : bool) (precision : Z) : option (list Z) :=
  if precision =? 0 then Some []
  else match k with
       | O => None
       | S k =>
         let c := n mod 16 in
         let n := n / 16 in
         let c := if c <? 10 then c + 48 else if caps then c + (65 - 10) else c + (97 - 10) in
         if precision =? -1
         then if n =? 0 then Some [c] else cons c <$> hexTemp k n caps precision
         else cons c <$> hexTemp k n caps (s32 (precision - 1))
       end.

(** [while (n - nLen > 0) ADD_TO_BUF(temp, 100, nLen, c)] *)
Fixpoint padTemp (k : nat) (temp : list Z) (n c : Z) : option (list Z) :=
  if s32 (n - Z.of_nat (length temp)) >? 0 then
    match k with
    | O => None
    | S k => padTemp k (temp ++ [c]) n c
    end
  else Some temp.
Definition padTo (temp : list Z) (n c : Z) : option (list Z) := padTemp (100 - length temp) temp n c.

Section printf.
Context {F : Type}.

(** Code that may return early, with the value on the left. *)
Notation ret_or A := (M (libc F) (Z + A)%type).
Definition ok {A} (a : A) : ret_or A := mret (inr a).
Definition ebind {A B} (m : ret_or A) (k : A -> ret_or B) : ret_or B :=
  r ← m; match r with inl e => mret (inl e) | inr a => k a end.
Definition fits {A} (o : option A) : ret_or A :=
  mret (match o with None => inl (- E2BIG) | Some a => inr a end).
Definition returned (m : ret_or Z) : M (libc F) Z :=
  r ← m; mret (match r with inl e => e | inr v => v end).
Notation "'let!' x := m 'in' k" := (ebind m (fun x => k)) (at level 200, x name, m at level 100, k at level 200).

Definition set_cmem (m : gmap Z Z) (s : libc F) : libc F := mkLibc m (errno s) (files s).
Definition setErrno (e : Z) : M (libc F) unit := modify (fun s => mkLibc (cmem s) e (files s)).
Definition store (a v : Z) : M (libc F) unit := fun s =>
  match cmem s !! a with
  | Some _ => Done (tt, set_cmem (<[a := v]> (cmem s)) s)
  | None => Fault
  end.

(** The macro [ADD_TO_BUF]; the result is the new [used]. *)
Definition addToBuf (buf bufLen used c : Z) : ret_or Z :=
  if used =? bufLen then mret (inl (- E2BIG))
  else store (buf + used) (swrap 8 c);; ok (used + 1).

Fixpoint addAll (buf bufLen used : Z) (l : list Z) : ret_or Z :=
  match l with
  | [] => ok used
  | c :: l => let! used := addToBuf buf bufLen used c in addAll buf bufLen used l
  end.

(** [while (width - nLen > 0) ADD_TO_BUF(buf, bufLen, ret, pad)]: neither
    side of the test changes in the loop. *)
Fixpoint padRight (fuel : nat) (buf bufLen used pad width nLen : Z) : ret_or Z :=
  match fuel with
  | O => nofuel
  | S fuel =>
    if s32 (width - nLen) >? 0
    then let! used := addToBuf buf bufLen used pad in padRight fuel buf bufLen used pad width nLen
    else ok used
  end.

Definition printDec (fuel : nat) (buf bufLen n : Z) (sign : bool) (flags : list Z)
    (width precision varLength : Z) : M (libc F) Z :=
  returned (
    let n := truncateInt n sign varLength in
    let neg := sign && has n (2 ^ 63) in
    let! ret := (if neg then addToBuf buf bufLen 0 45
                 else if flagPresent flags 43 then addToBuf buf bufLen 0 43
                 else if flagPresent flags 32 then addToBuf buf bufLen 0 32
                 else ok 0) in
    let n := if neg then u64 (- s64 n) else n in
    let! temp := fits (if n =? 0 then Some [48] else decTemp 100 n) in
    let! temp := fits (padTo temp precision 48) in
    let pad := if flagPresent flags 48 then 48 else 32 in
    let lJustify := flagPresent flags 45 in
    let! temp := fits (if lJustify then padTo temp width pad else Some temp) in
    let! ret := addAll buf bufLen ret (rev temp) in
    if lJustify then ok ret
    else padRight fuel buf bufLen ret pad width (Z.of_nat (length temp))).

Definition printHex (buf bufLen n : Z) (caps : bool) (flags : list Z)
    (width precision varLength : Z) : M (libc F) Z :=
  returned (
    let n := truncateInt n false varLength in
    let! ret := (if flagPresent flags 43 then addToBuf buf bufLen 0 43
                 else if flagPresent flags 32 then addToBuf buf bufLen 0 32
                 else ok 0) in
    let! temp := fits (if (n =? 0) && (precision =? -1) then Some [0] else hexTemp 100 n caps precision) in
    let! ret := addAll buf bufLen ret (rev temp) in
    ok (Z.of_nat (length temp))).

(** ** Floats *)

Definition toFloat (x : spec_float) : spec_float :=
  match x with S754_finite s m e => binary_normalize 24 128 (cond_Zopp s (Zpos m)) e s | _ => x end.
Definition toDouble (x : spec_float) : spec_float :=
  match x with S754_finite s m e => binary_normalize 53 1024 (cond_Zopp s (Zpos m)) e s | _ => x end.
Definition floatOf (n : Z) : spec_float := binary_normalize 24 128 n 0 false.

(** Conversion to [unsigned long], towards zero; undefined outside its range. *)
Definition toUlong (x : spec_float) : option Z :=
  match x with
  | S754_zero _ => Some 0
  | S754_finite false m e =>
    let n := if 0 <=? e then Zpos m * 2 ^ e else Zpos m / 2 ^ (- e) in
    if n <? 2 ^ 64 then Some n else None
  | _ => None
  end.
Definition ulong (x : spec_float) : ret_or Z :=
  match toUlong x with Some n => ok n | None => fault end.

(** One call of [printDec] inside [printFloat]: its result, an error too, is
    added to [ret]. *)
Definition printFloat (fuel : nat) (buf bufLen : Z) (f : spec_float) : M (libc F) Z :=
  returned (
    let neg := SFltb f (S754_zero false) in
    let! ret := (if neg then addToBuf buf bufLen 0 45 else ok 0) in
    let f := if neg then SFopp f else f in
    let! i := ulong f in
    let! d := (r ← printDec fuel (buf + ret) (s32 (bufLen - ret)) i false [] (-1) (-1) 0; ok r) in
    let! ret := addToBuf buf bufLen (ret + d) 46 in
    let f := SFmul 24 128 (SFsub 24 128 f (floatOf i)) (floatOf 1000000) in
    let f := toFloat (SFadd 53 1024 (toDouble f) (S754_finite false 1 (-1))) in
    let! i := ulong f in
    let! d := (r ← printDec fuel (buf + ret) (s32 (bufLen - ret)) i false [] (-1) 6 0; ok r) in
    ok (ret + d)).

(** ** Parsing a conversion *)

Fixpoint takeFlags (k : nat) (c : list Z) : list Z * list Z :=
  match k, c with
  | S k, x :: c' => if isFlag x then let '(fl, r) := takeFlags k c' in (x :: fl, r) else ([], c)
  | _, _ => ([], c)
  end.

Fixpoint skipDigits (c : list Z) : list Z :=
  match c with
  | x :: c' => if isdigit x then skipDigits c' else c
  | [] => []
  end.

(** A width or a precision: a number is skipped and means -1, a star takes
    an argument. *)
Definition parseNumber (c : list Z) (args : list arg) : option (Z * list Z * list arg) :=
  match c with
  | x :: c' =>
    if isdigit x then Some (-1, skipDigits c, args)
    else if x =? 42 then
      match args with AInt n :: args => Some (s32 n, c', args) | _ => None end
    else Some (-1, c, args)
  | [] => Some (-1, c, args)
  end.

Definition parsePrecision (c : list Z) (args : list arg) : option (Z * list Z * list arg) :=
  match c with
  | x :: c' => if x =? 46 then parseNumber c' args else Some (-1, c, args)
  | [] => Some (-1, c, args)
  end.

Fixpoint parseLength (varLength : Z) (c : list Z) : Z * list Z :=
  match c with
  | x :: c' =>
    if (x =? 104) || (x =? 73) || (x =? 76) || (x =? 108) then parseLength x c' else (varLength, c)
  | [] => (varLength, c)
  end.

(** ** [vsnprintf] *)

Section vsnprintf.
Context (fuel : nat) (undefined : Z -> M (libc F) unit) (buf size : Z).

Definition fail {A} (e : Z) : ret_or A := setErrno e;; mret (inl (-1)).

(** The common end of the number cases. *)
Definition counted (len : Z) (m : M (libc F) Z) : ret_or Z :=
  error ← m;
  if error <? 0 then fail (s32 (- error)) else ok (len + error).

(** [size - len] as an [int]. *)
Definition bufLeft (len : Z) : Z := s32 (u64 (size - len)).

(** [va_arg] of the wrong kind, or of too many arguments, is a fault. *)
Definition argInt (args : list arg) : ret_or (Z * list arg) :=
  match args with AInt n :: args => ok (n, args) | _ => fault end.

(** The switch over the conversion character: the new [len] and the
    arguments that are left. *)
Definition convert (c len width precision varLength : Z) (flags : list Z) (args : list arg) :
    ret_or (Z * list arg) :=
  let with_args args (m : ret_or Z) : ret_or (Z * list arg) := let! len := m in ok (len, args) in
  if c =? 37 (* '%' *) then with_args args (addToBuf buf size len 37)
  else if c =? 99 (* 'c' *) then
    let! na := argInt args in with_args na.2 (addToBuf buf size len na.1)
  else if c =? 115 (* 's' *) then
    match args with
    | AStr None :: args => with_args args (addToBuf buf size len 37)
    | AStr (Some s) :: args => with_args args (addAll buf size len s)
    | _ => fault
    end
  else if c =? 110 (* 'n' *) then ok (len, args)
  else if (c =? 100) || (c =? 105) (* 'd', 'i' *) then
    let! na := argInt args in
    with_args na.2 (counted len (printDec fuel (buf + len) (bufLeft len) na.1 true flags width precision varLength))
  else if c =? 117 (* 'u' *) then
    let! na := argInt args in
    with_args na.2 (counted len (printDec fuel (buf + len) (bufLeft len) na.1 false flags width precision varLength))
  else if c =? 120 (* 'x' *) then
    let! na := argInt args in
    with_args na.2 (counted len (printHex (buf + len) (bufLeft len) na.1 false flags width precision varLength))
  else if (c =? 112) || (c =? 88) (* 'p', 'X' *) then
    let varLength := if c =? 112 then 108 else varLength in
    let! na := argInt args in
    with_args na.2 (counted len (printHex (buf + len) (bufLeft len) na.1 true flags width precision varLength))
  else if (c =? 103) || (c =? 102) (* 'g', 'f' *) then
    match args with
    | ADouble f :: args => with_args args (counted len (printFloat fuel (buf + len) (bufLeft len) (toFloat f)))
    | _ => fault
    end
  else undefined c;; fail EINVAL.

Fixpoint vsnprintfLoop (k : nat) (format : list Z) (args : list arg) (len : Z) : ret_or Z :=
  match k, format with
  | _, [] =>
    store (buf + len) 0;; ok (s32 len)
  | O, _ => nofuel
  | S k, c :: format =>
    if negb (c =? 37) then
      store (buf + len) (swrap 8 c);;             (* no test against size *)
      vsnprintfLoop k format args (len + 1)
    else
      let '(flags, format) := takeFlags 5 format in
      match parseNumber format args with
      | None => fault
      | Some (width, format, args) =>
        match parsePrecision format args with
        | None => fault
        | Some (precision, format, args) =>
          let '(varLength, format) := parseLength 0 format in
          match format with
          | [] => fail EINVAL
          | c :: format =>
            let! la := convert c len width precision varLength flags args in
            vsnprintfLoop k format la.2 la.1
          end
        end
      end
  end.

Definition vsnprintf_with (format : list Z) (args : list arg) : M (libc F) Z :=
  returned (vsnprintfLoop (length format) format args 0).
End vsnprintf.

(** ** The callers *)

Context `{Stdio F}.

Definition fwriteTo (stream : Z) (l : list Z) : M (libc F) Z := fun s =>
  let '(r, f) := fwrite stream l (files s) in Done (r, mkLibc (cmem s) (errno s) f).

(** [char buf[512]] at address 0, alone in its memory.  After a failure [len]
    is -1, and [fwrite] is asked for [(size_t)-1] bytes of the buffer. *)
Definition vfprintf_with (vs : list Z -> list arg -> M (libc F) Z) (stream : Z)
    (format : list Z) (args : list arg) : M (libc F) Z :=
  outer ← gets cmem;
  modify (set_cmem (gset_to_gmap 0 (list_to_set (seqZ 0 512))));;
  len ← vs format args;
  local ← gets cmem;
  modify (set_cmem outer);;
  if 512 <? u64 len then fault
  else
    error ← fwriteTo stream ((fun i => default 0 (local !! i)) <$> seqZ 0 len);
    mret (if s32 error =? 0 then len else s32 error).

(** [printf("undefined: %c\n", c)]: its format has only conversions that are
    defined. *)
Definition printUndefined (fuel : nat) (c : Z) : M (libc F) unit :=
  vfprintf_with (vsnprintf_with fuel (fun _ => fault) 0 512) STDOUT
    [117; 110; 100; 101; 102; 105; 110; 101; 100; 58; 32; 37; 99; 10] [AInt c];;
  mret tt.

Definition vsnprintf (fuel : nat) (buf size : Z) : list Z -> list arg -> M (libc F) Z :=
  vsnprintf_with fuel (printUndefined fuel) buf size.

Definition vfprintf (fuel : nat) : Z -> list Z -> list arg -> M (libc F) Z :=
  vfprintf_with (vsnprintf fuel 0 512).
Definition fprintf := vfprintf.
Definition printf (fuel : nat) : list Z -> list arg -> M (libc F) Z := vfprintf fuel STDOUT.

Definition snprintf (fuel : nat) (buf size : Z) (format : list Z) (args : list arg) : M (libc F) Z :=
  error ← vsnprintf fuel buf size format args;
  (if error <? 0 then
     e ← gets errno;                              (* "snprintf fail: %d\n" *)
     printf fuel [115; 110; 112; 114; 105; 110; 116; 102; 32; 102; 97; 105; 108; 58; 32; 37; 100; 10] [AInt (u32 e)];;
     mret tt
   else mret tt);;
  mret error.

Definition sprintf (fuel : nat) (buf : Z) (format : list Z) (args : list arg) : M (libc F) Z :=
  error ← vsnprintf fuel buf 0x7FFFFFFF format args;
  (if error <? 0 then
     e ← gets errno;                              (* "sprintf fail: %d\n" *)
     printf fuel [115; 112; 114; 105; 110; 116; 102; 32; 102; 97; 105; 108; 58; 32; 37; 100; 10] [AInt (u32 e)];;
     mret tt
   else mret tt);;
  mret error.
End printf.

(** ** Reference: what a format means *)

Fixpoint decimal (k : nat) (n : Z) : list Z :=
  match k with
  | O => []
  | S k => if n <? 10 then [n + 48] else decimal k (n / 10) ++ [n mod 10 + 48]
  end.
Definition signedText (v : Z) : list Z := if v <? 0 then 45 :: decimal 20 (- v) else decimal 20 v.

Definition hexChar (caps : bool) (d : Z) : Z := if d <? 10 then d + 48 else d + (if caps then 55 else 87).
Fixpoint hexadecimal (k : nat) (caps : bool) (n : Z) : list Z :=
  match k with
  | O => []
  | S k => if n <? 16 then [hexChar caps n] else hexadecimal k caps (n / 16) ++ [hexChar caps (n mod 16)]
  end.

(** The pieces of a format, without flags, width and precision. *)
Inductive item :=
| Lit (c : Z) | Percent | Char (c : Z) | Str (l : list Z)
| Dec (long : bool) (n : Z) | Unsigned (long : bool) (n : Z) | Hex (caps long : bool) (n : Z).

Definition conversion (long : bool) (c : Z) : list Z := 37 :: (if long then [108; c] else [c]).
Definition formatOf (i : item) : list Z :=
  match i with
  | Lit c => [c] | Percent => [37; 37] | Char _ => [37; 99] | Str _ => [37; 115]
  | Dec long _ => conversion long 100 | Unsigned long _ => conversion long 117
  | Hex caps long _ => conversion long (if caps then 88 else 120)
  end.
Definition argsOf (i : item) : list arg :=
  match i with
  | Lit _ | Percent => [] | Str l => [AStr (Some l)]
  | Char n | Dec _ n | Unsigned _ n | Hex _ _ n => [AInt n]
  end.
Definition uvalue (long : bool) (n : Z) : Z := if long then n else u32 n.
Definition textOf (i : item) : list Z :=
  match i with
  | Lit c | Char c => [c] | Percent => [37] | Str l => l
  | Dec long n => signedText (if long then s64 n else s32 n)
  | Unsigned long n => decimal 20 (uvalue long n)
  | Hex caps long n => hexadecimal 16 caps (uvalue long n)
  end.
(** Integer arguments fill a 64-bit slot; hexadecimal zero is left out. *)
Definition wf_item (i : item) : Prop :=
  match i with
  | Lit c => c <> 37
  | Dec _ n | Unsigned _ n => 0 <= n < 2 ^ 64
  | Hex _ long n => 0 <= n < 2 ^ 64 /\ uvalue long n <> 0
  | _ => True
  end.

Fixpoint writeList (a : Z) (l : list Z) (m : gmap Z Z) : gmap Z Z :=
  match l with
  | [] => m
  | c :: l => writeList (a + 1) l (<[a := swrap 8 c]> m)
  end.

Section writing.
Lemma writeList_app a l1 l2 m :
  writeList a (l1 ++ l2) m = writeList (a + Z.of_nat (length l1)) l2 (writeList a l1 m).
Proof.
  revert a m. induction l1 as [|c l1 IH]; intros a m; cbn [app writeList length]; [by rewrite Z.add_0_r|].
  rewrite IH. f_equal. lia.
Qed.

Lemma writeList_out a l m x :
  ~ a <= x < a + Z.of_nat (length l) -> writeList a l m !! x = m !! x.
Proof.
  revert a m. induction l as [|c l IH]; intros a m Hx; cbn [writeList length] in *; [done|].
  rewrite IH by lia. apply lookup_insert_ne. lia.
Qed.

Lemma writeList_holds a l m : holds (writeList a l m) a (swrap 8 <$> l).
Proof.
  revert a m. induction l as [|c l IH]; intros a m.
  - intros [|i] c Hc; discriminate Hc.
  - cbn [writeList]. apply holds_cons. split; [|apply IH].
    rewrite writeList_out by lia. apply lookup_insert_eq.
Qed.

Lemma writeList_room a l m b n : room m b n -> room (writeList a l m) b n.
Proof.
  revert a m. induction l as [|c l IH]; intros a m Hr; cbn [writeList]; [done|].
  apply IH. intros x Hx. destruct (decide (a = x)) as [->|]; [by rewrite lookup_insert_eq|].
  rewrite lookup_insert_ne by done. by apply Hr.
Qed.

Lemma decTemp_decimal k j n :
  0 < n < 10 ^ Z.of_nat j -> (j <= k)%nat -> decTemp k n = Some (rev (decimal j n)).
Proof.
  revert j n. induction k as [|k IH]; intros j n Hn Hj; cbn [decTemp].
  { replace j with 0%nat in Hn by lia. simpl in Hn. lia. }
  destruct (Z.eqb_spec n 0); [lia|]. destruct j as [|j]; [simpl in Hn; lia|]. cbn [decimal].
  destruct (Z.ltb_spec n 10).
  - rewrite Z.div_small, Z.mod_small by lia. by destruct k.
  - rewrite Nat2Z.inj_succ, Z.pow_succ_r in Hn by lia.
    rewrite (IH j) by (lia || dlia). by rewrite rev_app_distr.
Qed.

Lemma hexTemp_hexadecimal k j caps n :
  0 <= n < 16 ^ Z.of_nat (S j) -> (j < k)%nat ->
  hexTemp k n caps (-1) = Some (rev (hexadecimal (S j) caps n)).
Proof.
  revert j n. induction k as [|k IH]; intros j n Hn Hj; [lia|]. cbn [hexTemp Z.eqb].
  assert (Hc : forall d, (if d <? 10 then d + 48 else if caps then d + (65 - 10) else d + (97 - 10)) = hexChar caps d).
  { intros d. unfold hexChar. by destruct (d <? 10), caps. }
  rewrite Hc. cbn [hexadecimal]. destruct (Z.ltb_spec n 16).
  - by rewrite Z.div_small, Z.mod_small by lia.
  - assert (n / 16 <> 0) by dlia. destruct (Z.eqb_spec (n / 16) 0); [done|].
    rewrite Nat2Z.inj_succ, Z.pow_succ_r in Hn by lia. destruct j as [|j]; [simpl in Hn; lia|].
    rewrite (IH j) by (lia || (change (Pos.eqb 1 1) with true; dlia)). by rewrite rev_app_distr.
Qed.

Lemma decimal_length k n : (length (decimal k n) <= k)%nat.
Proof.
  revert n. induction k as [|k IH]; intros n; cbn [decimal]; [done|].
  destruct (n <? 10); [simpl; lia|]. rewrite length_app. specialize (IH (n / 10)). simpl. lia.
Qed.

Lemma truncate_unsigned n (long : bool) :
  0 <= n < 2 ^ 64 -> truncateInt n false (if long then 108 else 0) = uvalue long n.
Proof.
  intros Hn. destruct long; [done|]. unfold truncateInt, uvalue. simpl andb. cbn [Z.eqb].
  change 0xFFFFFFFF with (Z.ones 32). by rewrite Z.land_ones by lia.
Qed.

Lemma truncate_signed n (long : bool) :
  0 <= n < 2 ^ 64 -> truncateInt n true (if long then 108 else 0) = u64 (if long then s64 n else s32 n).
Proof.
  intros Hn. destruct long.
  - unfold truncateInt, swrap, uwrap. cbn [Z.eqb Pos.eqb]. rewrite (Z.mod_small n (2 ^ 64)) by done.
    destruct (Z.ltb_spec n (2 ^ (64 - 1))); [by rewrite Z.mod_small|].
    rewrite <- (Z.mod_unique (n - 2 ^ 64) (2 ^ 64) (-1) n); lia.
  - unfold truncateInt. cbn [Z.eqb andb]. change 0xFFFFFFFF with (Z.ones 32). rewrite Z.land_ones by lia.
    unfold swrap, uwrap. set (u := n mod 2 ^ 32).
    assert (Hu : 0 <= u < 2 ^ 32) by (apply Z.mod_pos_bound; lia).
    change 0x80000000 with (2 ^ 31). rewrite has_pow2 by lia.
    rewrite Z.testbit_eqb by lia. change (32 - 1) with 31.
    destruct (Z.ltb_spec u (2 ^ 31)).
    + rewrite Z.div_small by lia. simpl. by rewrite Z.mod_small by lia.
    + assert (E : u / 2 ^ 31 = 1) by dlia. rewrite E. cbn [Z.modulo Z.div_eucl Z.eqb].
      change (1 mod 2 =? 1) with true. cbn [andb].
      change 0xFFFFFFFF00000000 with (0xFFFFFFFF * 2 ^ 32). rewrite lor_add by lia.
      rewrite <- (Z.mod_unique (u - 2 ^ 32) (2 ^ 64) (-1) (u + 0xFFFFFFFF * 2 ^ 32)); lia.
Qed.

(** The sign test and the negation of [printDec]. *)
Lemma sign_bit v : - 2 ^ 63 <= v < 2 ^ 63 -> has (u64 v) (2 ^ 63) = (v <? 0).
Proof.
  intros Hv. rewrite has_pow2, Z.testbit_eqb by lia. unfold uwrap. destruct (Z.ltb_spec v 0).
  - rewrite <- (Z.mod_unique v (2 ^ 64) (-1) (v + 2 ^ 64)) by lia.
    replace ((v + 2 ^ 64) / 2 ^ 63) with 1 by dlia. done.
  - rewrite (Z.mod_small v), Z.div_small by lia. done.
Qed.
Lemma negated v : - 2 ^ 63 <= v < 0 -> u64 (- s64 (u64 v)) = - v.
Proof.
  intros Hv. unfold uwrap, swrap. rewrite Z.mod_mod by lia.
  rewrite <- (Z.mod_unique v (2 ^ 64) (-1) (v + 2 ^ 64)) by lia.
  destruct (Z.ltb_spec (v + 2 ^ 64) (2 ^ (64 - 1))); [lia|].
  rewrite Z.mod_small; lia.
Qed.
End writing.

Section emission.
Context {F : Type}.
Implicit Types s : libc F.

Lemma wp_store a v s (Q : unit -> libc F -> Prop) :
  is_Some (cmem s !! a) -> Q tt (set_cmem (<[a := v]> (cmem s)) s) -> wp (store a v) s Q.
Proof. intros [x Hx] HQ. unfold wp, store. by rewrite Hx. Qed.

Lemma wp_ebind {A B} (m : M (libc F) (Z + A)) (k : A -> M (libc F) (Z + B)) s Q :
  wp (ebind m k) s Q <->
  wp m s (fun r s' => match r with inl e => Q (inl e) s' | inr a => wp (k a) s' Q end).
Proof.
  unfold ebind. rewrite wp_bind. split; intros H; wp_use H; intros [e|a] s'; [by rewrite wp_ret|done|by rewrite wp_ret|done].
Qed.
Lemma wp_ok {A} (a : A) s (Q : Z + A -> libc F -> Prop) : wp (ok a) s Q <-> Q (inr a) s.
Proof. done. Qed.
Lemma wp_returned (m : M (libc F) (Z + Z)) s Q :
  wp (returned m) s Q <-> wp m s (fun r s' => match r with inl e => Q e s' | inr v => Q v s' end).
Proof. unfold returned. rewrite wp_bind. split; intros H; wp_use H; intros [e|v] s'; by rewrite wp_ret. Qed.

(** [l] has been written behind the first [used] characters. *)
Definition emitted (buf used : Z) (l : list Z) s (r : Z + Z) s' : Prop :=
  r = inr (used + Z.of_nat (length l)) /\ s' = set_cmem (writeList (buf + used) l (cmem s)) s.

Lemma emitted_nil buf used s : emitted buf used [] s (inr used) s.
Proof. split; [f_equal; simpl; lia|by destruct s]. Qed.

Lemma addToBuf_fits buf bufLen used c s :
  used < bufLen -> is_Some (cmem s !! (buf + used)) ->
  wp (addToBuf buf bufLen used c) s (emitted buf used [c] s).
Proof.
  intros Hu Hm. unfold addToBuf. destruct (Z.eqb_spec used bufLen); [lia|].
  apply wp_bind, wp_store; [done|]. by apply wp_ok.
Qed.

Lemma addAll_fits buf bufLen used l s :
  used + Z.of_nat (length l) <= bufLen -> room (cmem s) (buf + used) (Z.of_nat (length l)) ->
  wp (addAll buf bufLen used l) s (emitted buf used l s).
Proof.
  revert used s. induction l as [|c l IH]; intros used s Hu Hr; cbn [addAll].
  { apply wp_ok, emitted_nil. }
  destruct (room_S _ _ _ Hr) as [H0 Hr']. simpl length in Hu.
  apply wp_ebind. wp_use addToBuf_fits; [lia|done|]. intros r s1 [-> ->].
  simpl Z.of_nat. wp_use (IH (used + 1)); [lia| |].
  - cbn [set_cmem cmem]. apply writeList_room. by rewrite Z.add_assoc.
  - intros r s' [-> ->]. split; [f_equal; simpl length; lia|].
    unfold set_cmem. cbn [cmem errno files writeList]. by rewrite Z.add_assoc.
Qed.

Lemma padTo_none temp c : (length temp <= 100)%nat -> padTo temp (-1) c = Some temp.
Proof.
  intros Hl. unfold padTo. destruct (100 - length temp)%nat; cbn [padTemp];
    rewrite swrap_small by lia; destruct (Z.gtb_spec (-1 - Z.of_nat (length temp)) 0); lia || done.
Qed.

Lemma padRight_none fuel buf bufLen used pad n s Q :
  (0 < fuel)%nat -> 0 <= n <= 100 -> Q (inr used) s -> wp (padRight fuel buf bufLen used pad (-1) n) s Q.
Proof.
  intros Hf Hn HQ. destruct fuel; [lia|]. cbn [padRight]. rewrite swrap_small by lia.
  destruct (Z.gtb_spec (-1 - n) 0); [lia|]. by apply wp_ok.
Qed.

(** The value [v] an argument stands for after truncation. *)
Definition stands_for (n : Z) (sign : bool) (varLength v : Z) : Prop :=
  if sign then - 2 ^ 63 <= v < 2 ^ 63 /\ truncateInt n true varLength = u64 v
  else 0 <= v < 2 ^ 64 /\ truncateInt n false varLength = v.

Lemma printDec_text fuel buf bufLen n sign varLength v s :
  stands_for n sign varLength v -> (0 < fuel)%nat ->
  Z.of_nat (length (signedText v)) <= bufLen ->
  room (cmem s) buf (Z.of_nat (length (signedText v))) ->
  wp (printDec fuel buf bufLen n sign [] (-1) (-1) varLength) s (fun r s' =>
    r = Z.of_nat (length (signedText v)) /\ s' = set_cmem (writeList buf (signedText v) (cmem s)) s).
Proof.
  intros Hv Hf Hl Hr. unfold printDec. apply wp_returned. cbn [flagPresent].
  set (a := if v <? 0 then - v else v).
  assert (Ha : 0 <= a < 2 ^ 64) by (unfold a; destruct sign, Hv; destruct (Z.ltb_spec v 0); lia).
  assert (Hneg : sign && has (truncateInt n sign varLength) (2 ^ 63) = (v <? 0)).
  { destruct sign, Hv as [Hv ->]; [by apply sign_bit|]. destruct (Z.ltb_spec v 0); [lia|done]. }
  assert (Habs : (if v <? 0 then u64 (- s64 (truncateInt n sign varLength)) else truncateInt n sign varLength) = a).
  { unfold a. destruct sign, Hv as [Hv ->]; destruct (Z.ltb_spec v 0); [apply negated; lia|apply uwrap_small; lia|lia|done]. }
  rewrite Hneg, Habs.
  assert (Ht : (if a =? 0 then Some [48] else decTemp 100 a) = Some (rev (decimal 20 a))).
  { destruct (Z.eqb_spec a 0) as [->|]; [done|]. apply decTemp_decimal; lia. }
  rewrite Ht. set (d := decimal 20 a) in *.
  assert (Hd : (length d <= 20)%nat) by apply decimal_length.
  assert (Hs : signedText v = (if v <? 0 then [45] else []) ++ d) by (unfold signedText, d, a; by destruct (v <? 0)).
  rewrite Hs in *. rewrite length_app, Nat2Z.inj_add in *.
  apply wp_ebind. eapply (wp_mono _ _ (emitted buf 0 (if v <? 0 then [45] else []) s)).
  { destruct (v <? 0); [|apply wp_ok, emitted_nil].
    apply addToBuf_fits; [simpl in Hl; lia|]. rewrite Z.add_0_r. apply Hr. simpl. lia. }
  intros r s1 [-> ->]. rewrite !Z.add_0_r. apply wp_ebind, wp_ret. apply wp_ebind, wp_ret.
  rewrite padTo_none by (rewrite length_rev; lia). apply wp_ebind, wp_ret. apply wp_ebind.
  rewrite rev_involutive. wp_use addAll_fits; [lia| |].
  { cbn [set_cmem cmem]. apply writeList_room. intros x Hx. apply Hr. lia. }
  intros r s' [-> ->]. apply padRight_none; [done|rewrite length_rev; lia|]. split; [lia|].
  unfold set_cmem. cbn [cmem errno files]. by rewrite writeList_app, Z.add_0_l.
Qed.

Lemma printHex_text buf bufLen n caps varLength v s :
  stands_for n false varLength v -> v <> 0 ->
  Z.of_nat (length (hexadecimal 16 caps v)) <= bufLen ->
  room (cmem s) buf (Z.of_nat (length (hexadecimal 16 caps v))) ->
  wp (printHex buf bufLen n caps [] (-1) (-1) varLength) s (fun r s' =>
    r = Z.of_nat (length (hexadecimal 16 caps v)) /\
    s' = set_cmem (writeList buf (hexadecimal 16 caps v) (cmem s)) s).
Proof.
  intros [Hv Hn] H0 Hl Hr. unfold printHex. apply wp_returned. cbn [flagPresent]. rewrite Hn.
  apply wp_ebind, wp_ok. destruct (Z.eqb_spec v 0); [done|]. cbn [andb].
  rewrite (hexTemp_hexadecimal 100 15) by lia. apply wp_ebind, wp_ret. apply wp_ebind.
  rewrite rev_involutive. wp_use addAll_fits; [lia|by rewrite Z.add_0_r|].
  intros r s' [-> ->]. apply wp_ok. rewrite length_rev, Z.add_0_r. done.
Qed.
End emission.

(** Evaluate a turn of the loop on known characters. *)
Ltac step :=
  cbn [vsnprintfLoop takeFlags isFlag parseNumber parsePrecision parseLength isdigit convert conversion app
       negb orb andb Z.eqb Pos.eqb Z.leb Z.compare Pos.compare Pos.compare_cont fst snd argInt].

Section formats.
Context {F : Type}.
Context (fuel : nat) (undef : Z -> M (libc F) unit) (buf size : Z).
Context (Hfuel : (0 < fuel)%nat) (Hsize : 0 < size < 2 ^ 31).
Implicit Types s : libc F.

Lemma left_room len : 0 <= len <= size -> bufLeft size len = size - len.
Proof. intros Hl. unfold bufLeft. rewrite uwrap_small, swrap_small by lia. done. Qed.

Lemma counted_spec len (m : M (libc F) Z) t s (Q : Z + Z -> libc F -> Prop) :
  wp m s (fun r s' => r = Z.of_nat (length t) /\ s' = set_cmem (writeList (buf + len) t (cmem s)) s) ->
  Q (inr (len + Z.of_nat (length t))) (set_cmem (writeList (buf + len) t (cmem s)) s) ->
  wp (counted len m) s Q.
Proof.
  intros Hm HQ. unfold counted. apply wp_bind. wp_use Hm. intros r s' [-> ->].
  destruct (Z.ltb_spec (Z.of_nat (length t)) 0); [lia|]. by apply wp_ok.
Qed.

(** One piece of the format is one turn of the loop. *)
Lemma vsnprintfLoop_item i k rest args len s Q :
  wf_item i -> 0 <= len -> len + Z.of_nat (length (textOf i)) <= size ->
  room (cmem s) (buf + len) (Z.of_nat (length (textOf i))) ->
  wp (vsnprintfLoop fuel undef buf size k rest args (len + Z.of_nat (length (textOf i))))
     (set_cmem (writeList (buf + len) (textOf i) (cmem s)) s) Q ->
  wp (vsnprintfLoop fuel undef buf size (S k) (formatOf i ++ rest) (argsOf i ++ args) len) s Q.
Proof.
  intros Hw Hl Ht Hr HQ.
  assert (Hadd : forall c Q', textOf i = [c] ->
    Q' (inr (len + 1)) (set_cmem (writeList (buf + len) [c] (cmem s)) s) ->
    wp (addToBuf buf size len c) s Q').
  { intros c Q' E HQ'. rewrite E in *. change (Z.of_nat (length [c])) with 1 in *.
    wp_use (addToBuf_fits (F := F)); [lia|apply Hr; lia|]. by intros r s' [-> ->]. }
  assert (Hnum : forall n sign long v Q', stands_for n sign (if long : bool then 108 else 0) v -> textOf i = signedText v ->
    Q' (inr (len + Z.of_nat (length (textOf i)))) (set_cmem (writeList (buf + len) (textOf i) (cmem s)) s) ->
    wp (counted len (printDec fuel (buf + len) (bufLeft size len) n sign [] (-1) (-1) (if long then 108 else 0))) s Q').
  { intros n sign long v Q' Hv E HQ'. rewrite left_room by lia. eapply counted_spec; [|exact HQ'].
    rewrite E in *. apply printDec_text; [done|done|lia|done]. }
  destruct i as [c| |c|l|long n|long n|caps long n]; cbn [formatOf argsOf textOf wf_item] in *.
  - cbn [app vsnprintfLoop]. destruct (Z.eqb_spec c 37); [done|]. cbn [negb].
    apply wp_bind, wp_store; [apply Hr; simpl; lia|exact HQ].
  - step. apply wp_ebind, wp_ebind. apply Hadd; [done|]. exact HQ.
  - step. apply wp_ebind, wp_ebind, wp_ok, wp_ebind. apply Hadd; [done|]. exact HQ.
  - step. apply wp_ebind, wp_ebind. wp_use (addAll_fits (F := F)); [lia|done|]. intros r s' [-> ->]. exact HQ.
  - destruct long; step; apply wp_ebind, wp_ebind, wp_ok, wp_ebind; cbn [fst snd].
    + eapply (Hnum n true true (s64 n)); [|done|exact HQ]. split; [|by apply (truncate_signed n true)].
      unfold swrap. destruct (Z.ltb_spec (n mod 2 ^ 64) (2 ^ (64 - 1))); pose proof (Z.mod_pos_bound n (2 ^ 64)); lia.
    + eapply (Hnum n true false (s32 n)); [|done|exact HQ]. split; [|by apply (truncate_signed n false)].
      unfold swrap. destruct (Z.ltb_spec (n mod 2 ^ 32) (2 ^ (32 - 1))); pose proof (Z.mod_pos_bound n (2 ^ 32)); lia.
  - assert (Hv : 0 <= uvalue long n < 2 ^ 64).
    { unfold uvalue, uwrap. destruct long; [done|]. pose proof (Z.mod_pos_bound n (2 ^ 32)). lia. }
    assert (E : decimal 20 (uvalue long n) = signedText (uvalue long n)).
    { unfold signedText. destruct (Z.ltb_spec (uvalue long n) 0); [lia|done]. }
    assert (Hst : stands_for n false (if long then 108 else 0) (uvalue long n)) by (split; [done|by apply truncate_unsigned]).
    destruct long; step; apply wp_ebind, wp_ebind, wp_ok, wp_ebind; cbn [fst snd].
    + by eapply (Hnum n false true).
    + by eapply (Hnum n false false).
  - destruct Hw as [Hn H0].
    assert (Hv : 0 <= uvalue long n < 2 ^ 64).
    { unfold uvalue, uwrap. destruct long; [done|]. pose proof (Z.mod_pos_bound n (2 ^ 32)). lia. }
    assert (Hst : stands_for n false (if long then 108 else 0) (uvalue long n)) by (split; [done|by apply truncate_unsigned]).
    assert (Hx : wp (counted len (printHex (buf + len) (bufLeft size len) n caps [] (-1) (-1) (if long then 108 else 0))) s
      (fun r s' => r = inr (len + Z.of_nat (length (hexadecimal 16 caps (uvalue long n)))) /\
        s' = set_cmem (writeList (buf + len) (hexadecimal 16 caps (uvalue long n)) (cmem s)) s)).
    { rewrite left_room by lia. eapply counted_spec; [|done]. apply printHex_text; [done|done|lia|done]. }
    destruct long, caps; step; apply wp_ebind, wp_ebind, wp_ok, wp_ebind; wp_use Hx;
      intros r s' [-> ->]; exact HQ.
Qed.

Definition formats (l : list item) : list Z := concat (map formatOf l).
Definition arguments (l : list item) : list arg := concat (map argsOf l).
Definition texts (l : list item) : list Z := concat (map textOf l).

Lemma vsnprintfLoop_spec l k len s :
  Forall wf_item l -> (length l <= k)%nat -> 0 <= len ->
  len + Z.of_nat (length (texts l)) < size ->
  room (cmem s) (buf + len) (Z.of_nat (length (texts l)) + 1) ->
  wp (vsnprintfLoop fuel undef buf size k (formats l) (arguments l) len) s (fun r s' =>
    r = inr (len + Z.of_nat (length (texts l))) /\
    s' = set_cmem (writeList (buf + len) (texts l ++ [0]) (cmem s)) s).
Proof.
  revert k len s. unfold formats, arguments, texts.
  induction l as [|i l IH]; intros k len s Hw Hk Hl Ht Hr; cbn [map concat] in *.
  - assert (E : vsnprintfLoop fuel undef buf size k [] [] len = (store (buf + len) 0;; ok (s32 len))) by (by destruct k).
    rewrite E. apply wp_bind, wp_store; [apply Hr; simpl; lia|]. apply wp_ok. split; [|done].
    simpl in Ht. rewrite swrap_small by lia. simpl. f_equal. lia.
  - apply Forall_cons in Hw as [Hi Hw]. destruct k as [|k]; [simpl in Hk; lia|].
    rewrite length_app, Nat2Z.inj_add in *.
    apply vsnprintfLoop_item; [done|done|lia|intros x Hx; apply Hr; lia|].
    wp_use IH; [done|simpl in Hk; lia|lia|lia| |].
    + cbn [set_cmem cmem]. apply writeList_room. intros x Hx. apply Hr. lia.
    + intros r s' [-> ->]. split; [f_equal; lia|]. unfold set_cmem. cbn [cmem errno files].
      by rewrite <- app_assoc, (writeList_app _ (textOf i)), Z.add_assoc.
Qed.
End formats.

Section bounds.
Context {F : Type}.
Context (buf bufLen : Z).

(** [m] continues at [used]: it writes only inside the buffer, and either
    succeeds with the new [used] or reports that the buffer is full. *)
Definition stays (used : Z) (m : M (libc F) (Z + Z)) : Prop := forall s : libc F,
  0 <= used <= bufLen -> room (cmem s) buf bufLen ->
  wp m s (fun r s' => exists out,
    s' = set_cmem (writeList (buf + used) out (cmem s)) s /\ used + Z.of_nat (length out) <= bufLen /\
    (r = inr (used + Z.of_nat (length out)) \/ r = inl (- E2BIG))).

Lemma stays_ok used : stays used (ok used).
Proof. intros s Hu Hr. apply wp_ok. exists []. split_and!; [by destruct s|simpl; lia|left; f_equal; simpl; lia]. Qed.

Lemma stays_full used : stays used (mret (inl (- E2BIG))).
Proof. intros s Hu Hr. apply wp_ret. exists []. split_and!; [by destruct s|simpl; lia|by right]. Qed.

Lemma stays_bind used m k :
  stays used m -> (forall u, used <= u -> stays u (k u)) -> stays used (ebind m k).
Proof.
  intros Hm Hk s Hu Hr. apply wp_ebind. wp_use (Hm s Hu Hr).
  intros r s1 (out & -> & Hl & [-> | ->]); [|by exists out; auto].
  wp_use (Hk (used + Z.of_nat (length out))); [lia|lia|by apply writeList_room|].
  intros r s2 (out' & -> & Hl' & Hr'). exists (out ++ out').
  rewrite length_app, Nat2Z.inj_add, writeList_app, !Z.add_assoc in *. split_and!; [done|lia|done].
Qed.

Lemma stays_add used c : stays used (addToBuf buf bufLen used c).
Proof.
  intros s Hu Hr. unfold addToBuf. destruct (Z.eqb_spec used bufLen); [by apply stays_full|].
  apply wp_bind, wp_store; [apply Hr; lia|]. apply wp_ok. exists [c]. simpl. split_and!; [done|lia|by left].
Qed.

Lemma stays_addAll used l : stays used (addAll buf bufLen used l).
Proof.
  revert used. induction l as [|c l IH]; intros used; cbn [addAll]; [apply stays_ok|].
  apply stays_bind; [apply stays_add|auto].
Qed.

Lemma stays_padRight fuel used pad w n :
  bufLen - used < Z.of_nat fuel -> stays used (padRight fuel buf bufLen used pad w n).
Proof.
  revert used. induction fuel as [|fuel IH]; intros used Hf; [intros s Hu; lia|]. cbn [padRight].
  destruct (_ >? 0); [|apply stays_ok].
  destruct (Z.eqb_spec used bufLen) as [->|Hne].
  - intros s Hu Hr. apply wp_ebind. unfold addToBuf. rewrite Z.eqb_refl. apply wp_ret.
    exists []. split_and!; [by destruct s|simpl; lia|by right].
  - intros s Hu Hr. apply wp_ebind. wp_use (addToBuf_fits (F := F)); [lia|apply Hr; lia|].
    intros r s1 [-> ->]. cbn [length]. change (Z.of_nat 1) with 1.
    wp_use (IH (used + 1)); [lia|lia|by apply writeList_room|].
    intros r s2 (out & -> & Hl & Hor). exists (pad :: out). cbn [length]. split_and!; [|lia|].
    + unfold set_cmem. cbn [cmem errno files writeList]. by rewrite Z.add_assoc.
    + destruct Hor as [->| ->]; [left; f_equal; lia|by right].
Qed.

Lemma stays_fits {A} used (o : option A) (k : A -> M (libc F) (Z + Z)) :
  (forall a, stays used (k a)) -> stays used (ebind (fits o) k).
Proof.
  intros Hk s Hu Hr. apply wp_ebind, wp_ret. destruct o as [a|]; [by apply Hk|by apply stays_full].
Qed.
End bounds.

Section properties.
Context `{Stdio F}.
Implicit Types s : libc F.

(** C35: [vsnprintf] with enough room writes exactly what the format means, for
    formats of literal characters, [%%], [%c], [%s] and the integer conversions
    [%d], [%u], [%x] and [%X] of ints and longs without flags, width or precision,
    where [%x] and [%X] get numbers other than 0 ([hex_zero_ends_string];
    widths are [right_justify_fails]); it ends the text with a zero and returns
    its length; nothing else changes. *)
Theorem vsnprintf_correct fuel buf size l s :
  (0 < fuel)%nat -> 0 < size < 2 ^ 31 -> Forall wf_item l ->
  Z.of_nat (length (texts l)) < size -> room (cmem s) buf (Z.of_nat (length (texts l)) + 1) ->
  wp (vsnprintf fuel buf size (formats l) (arguments l)) s (fun r s' =>
    r = Z.of_nat (length (texts l)) /\ holds (cmem s') buf (swrap 8 <$> texts l ++ [0]) /\
    (forall x, ~ buf <= x <= buf + r -> cmem s' !! x = cmem s !! x) /\
    errno s' = errno s /\ files s' = files s).
Proof.
  intros Hf Hs Hw Hl Hr. unfold vsnprintf, vsnprintf_with. apply wp_returned.
  assert (Hk : (length l <= length (formats l))%nat).
  { unfold formats. clear. induction l as [|i l IH]; [done|]. cbn [map concat]. rewrite length_app.
    assert (0 < length (formatOf i))%nat by (by destruct i as [| | | | []| []| ? []]; simpl; lia). simpl. lia. }
  wp_use (vsnprintfLoop_spec (F := F)); [done|done|done|done|done|done|by rewrite Z.add_0_r|].
  intros r s' [-> ->]. rewrite Z.add_0_r, Z.add_0_l. split_and!; [done|apply writeList_holds| |done|done].
  intros x Hx. cbn [set_cmem cmem]. apply writeList_out. rewrite length_app. simpl. lia.
Qed.

(** Whatever the number, the flags, the width and the precision, [printDec]
    returns, writes nothing outside the buffer it is given, and returns the
    number of characters it has written there or [-E2BIG]. *)
Theorem printDec_bounded fuel buf bufLen n sign flags width precision varLength s :
  0 <= bufLen < Z.of_nat fuel -> room (cmem s) buf bufLen ->
  wp (printDec fuel buf bufLen n sign flags width precision varLength) s (fun r s' =>
    (0 <= r <= bufLen \/ r = - E2BIG) /\
    (forall x, ~ buf <= x < buf + bufLen -> cmem s' !! x = cmem s !! x) /\
    errno s' = errno s /\ files s' = files s).
Proof.
  intros Hb Hr. unfold printDec. apply wp_returned.
  eapply wp_mono; [eapply (stays_bind buf bufLen 0)|]; [| |lia|done|].
  - repeat case_match; apply stays_add || apply stays_ok.
  - intros u Hu. do 3 (apply stays_fits; intros ?). apply stays_bind; [apply stays_addAll|].
    intros u' Hu'. destruct (flagPresent flags 45); [apply stays_ok|]. apply stays_padRight. lia.
  - cbv beta. intros r s' (out & -> & Hl & Hor). rewrite !Z.add_0_r, !Z.add_0_l in *.
    assert (HQ : forall x, ~ buf <= x < buf + bufLen -> writeList buf out (cmem s) !! x = cmem s !! x).
    { intros x Hx. apply writeList_out. lia. }
    destruct Hor as [-> | ->]; (split_and!; [lia|exact HQ|done|done]).
Qed.

(** A format without conversions is copied whole, and ended with a zero,
    whatever [size] is: nothing stops at the end of the buffer. *)
Theorem plain_format_ignores_size fuel buf size l s :
  37 ∉ l -> Z.of_nat (length l) < 2 ^ 31 -> room (cmem s) buf (Z.of_nat (length l) + 1) ->
  wp (vsnprintf fuel buf size l []) s (fun r s' =>
    r = Z.of_nat (length l) /\ s' = set_cmem (writeList buf (l ++ [0]) (cmem s)) s).
Proof.
  intros Hl Hlen Hr. unfold vsnprintf, vsnprintf_with. apply wp_returned.
  assert (HL : forall len s, 0 <= len -> len + Z.of_nat (length l) < 2 ^ 31 -> room (cmem s) (buf + len) (Z.of_nat (length l) + 1) ->
    wp (vsnprintfLoop fuel (printUndefined fuel) buf size (length l) l [] len) s (fun r s' =>
      r = inr (len + Z.of_nat (length l)) /\ s' = set_cmem (writeList (buf + len) (l ++ [0]) (cmem s)) s)).
  { clear - Hl. induction l as [|c l IH]; intros len s H0 Hlen Hr; cbn [length vsnprintfLoop app].
    - apply wp_bind, wp_store; [apply Hr; simpl; lia|]. apply wp_ok. split; [|done].
      simpl in *. rewrite swrap_small by lia. f_equal. lia.
    - apply not_elem_of_cons in Hl as [Hc Hl]. destruct (Z.eqb_spec c 37); [done|]. cbn [negb].
      simpl length in *. apply wp_bind, wp_store; [apply Hr; lia|].
      wp_use (IH Hl (len + 1)); [lia|lia| |].
      + cbn [set_cmem cmem]. rewrite Z.add_assoc. apply (writeList_room _ [c]). intros x Hx. apply Hr. lia.
      + intros r s' [-> ->]. split; [f_equal; lia|]. unfold set_cmem. cbn [cmem errno files writeList].
        by rewrite Z.add_assoc. }
  wp_use HL; [done|lia|by rewrite Z.add_0_r|]. intros r s' [-> ->]. by rewrite Z.add_0_r.
Qed.
End properties.

(** The reference digits read back as the number. *)
Lemma decimal_reads k n : 0 <= n < 10 ^ Z.of_nat k -> readDec (decimal k n) = n.
Proof.
  revert n. induction k as [|k IH]; intros n Hn; cbn [decimal]; [simpl in Hn; unfold readDec; simpl; lia|].
  destruct (Z.ltb_spec n 10); [unfold readDec; simpl; lia|].
  rewrite Nat2Z.inj_succ, Z.pow_succ_r in Hn by lia. rewrite readDec_snoc, IH by dlia. dlia.
Qed.

(** ** Witnesses *)

Section witnesses.
(** A stream that records what it is sent, and a buffer of 32 bytes. *)
#[local] Instance recorder : Stdio (list (list Z)) := fun _ l f => (Z.of_nat (length l), f ++ [l]).
Definition printf_demo : libc (list (list Z)) := mkLibc (gset_to_gmap 7 (list_to_set (seqZ 0 32))) 0 [].
Definition demo_items : list item := [Lit 65; Dec false (2 ^ 64 - 12); Percent; Dec true (2 ^ 63); Str [66; 67]; Hex true true 0xBEEF].

Lemma printf_demo_room n : n <= 32 -> room (cmem printf_demo) 0 n.
Proof.
  intros Hn x Hx. exists 7. unfold printf_demo. cbn [cmem]. apply lookup_gset_to_gmap_Some. split; [|done].
  apply elem_of_list_to_set, elem_of_seqZ. lia.
Qed.

(** [%*d] with a width that is larger than the number always fails: the
    padding loop tests the same length for ever, and runs into the end of the
    buffer; with the flag for left justification the padding comes first. *)
Theorem right_justify_fails :
  wp (vsnprintf 100 0 32 [37; 42; 100] [AInt 5; AInt 12]) printf_demo (fun r s' =>
    r = -1 /\ errno s' = E2BIG) /\
  wp (vsnprintf 100 0 32 [37; 45; 42; 100] [AInt 5; AInt 12]) printf_demo (fun r s' =>
    r = 5 /\ ((fun i => cmem s' !! i) <$> seqZ 0 5) = Some <$> [32; 32; 32; 49; 50]).
Proof. vm_compute. repeat split. Qed.

(** [%x] of zero writes a zero byte, which ends the string there. *)
Theorem hex_zero_ends_string :
  wp (vsnprintf 100 0 32 [37; 120; 65] [AInt 0]) printf_demo (fun r s' =>
    r = 2 /\ cmem s' !! 0 = Some 0).
Proof. vm_compute. by split. Qed.

(** [%f] prints the integer part modulo [2 ^ 32]. *)
Theorem float_truncates :
  wp (vsnprintf 100 0 32 [37; 102] [ADouble (binary_normalize 53 1024 1 32 false)]) printf_demo (fun r s' =>
    r = 8 /\ ((fun i => cmem s' !! i) <$> seqZ 0 8) = Some <$> [48; 46; 48; 48; 48; 48; 48; 48]).
Proof. vm_compute. by split. Qed.

Lemma vsnprintf_correct_witness :
  Forall wf_item demo_items /\
  wp (vsnprintf 1 0 32 (formats demo_items) (arguments demo_items)) printf_demo (fun r s' =>
    r = Z.of_nat (length (texts demo_items)) /\ holds (cmem s') 0 (swrap 8 <$> texts demo_items ++ [0]) /\
    (forall x, ~ 0 <= x <= 0 + r -> cmem s' !! x = cmem printf_demo !! x) /\
    errno s' = errno printf_demo /\ files s' = files printf_demo).
Proof.
  assert (Hw : Forall wf_item demo_items) by (repeat constructor; by vm_compute).
  split; [exact Hw|]. eapply (vsnprintf_correct 1 0 32 demo_items); [lia|lia|exact Hw|by vm_compute|].
  apply printf_demo_room. by vm_compute.
Defined.

Lemma printDec_bounded_witness :
  wp (printDec 33 0 32 12 true [48] 40 3 108) printf_demo (fun r s' =>
    (0 <= r <= 32 \/ r = - E2BIG) /\
    (forall x, ~ 0 <= x < 0 + 32 -> cmem s' !! x = cmem printf_demo !! x) /\
    errno s' = errno printf_demo /\ files s' = files printf_demo).
Proof. apply (printDec_bounded 33 0 32); [lia|]. apply printf_demo_room. lia. Defined.
End witnesses.
