(* ===== verification/Fd.v ===== *)
(** * File descriptors: [kernel/fs/syscalls.c] and [kernel/fs/pipe.c]

    The descriptor table of the running process: eight inline entries and a
    table on the kernel heap.  An entry is a flag word and a union of a
    [struct File] with pointers; the pointers overlay the first two words of
    the file, and so they do here.  A reference to an entry outside the arrays,
    or to an object that was freed, is a fault.  The file system below and the
    kernel heap are interfaces. *)

From S2P Require Import Prelude Word Errno Pipe.

Definition NROF_INLINE_FDS : Z := 8.
Definition MAX_FDS : Z := 64.
Definition PROCFILE_FLAG_USED : Z := 1.
Definition PROCFILE_FLAG_CLOEXEC : Z := 2.
Definition PROCFILE_FLAG_SHARED : Z := 4.
Definition PROCFILE_FLAG_PIPE : Z := 8.
Definition PROCFILE_FLAG_PIPE_WRITE : Z := 16.


Definition SYSOPEN_FLAG_CREATE : Z := 1.
Definition SYSOPEN_FLAG_READ : Z := 2.
Definition SYSOPEN_FLAG_WRITE : Z := 4.
Definition SYSOPEN_FLAG_CLOEXEC : Z := 8.
Definition SYSOPEN_FLAG_APPEND : Z := 16.
Definition SYSOPEN_FLAG_DIR : Z := 32.
Definition SYSOPEN_FLAG_EXCL : Z := 64.
Definition SYSOPEN_FLAG_TRUNC : Z := 128.
Definition SYSOPEN_PERM_SHIFT : Z := 8.
Definition SYSOPEN_PERM_MASK : Z := 0xFFF.
Definition SYSACCESS_OK : Z := 1.
Definition SYSACCESS_X : Z := 2.
Definition SYSACCESS_W : Z := 4.
Definition SYSACCESS_R : Z := 8.
Definition AT_FDCWD : Z := -1.
Definition AT_REMOVEDIR : Z := 1.
Definition ITYPE_MASK : Z := 7.
Definition ITYPE_DIR : Z := 1.
Definition ITYPE_FILE : Z := 2.
Definition ITYPE_CHAR : Z := 3.
Definition CREATE_PERM_SHIFT : Z := 8.
Definition PERM_W : Z := 2.
Definition PERM_R : Z := 4.
Definition NAME_MAX : Z := 256.

(** [struct File]; [inode] 0 is [NULL]. *)
Record File := mkFile { flock : Z; frefCount : Z; fflags : Z; inode : Z; offset : Z }.
#[export] Instance File_eq_dec : EqDecision File.
Proof. solve_decision. Defined.

Record ProcessFile := mkPF { pflags : Z; pfile : File }.

(** The pointer arms of the union lie over [lock] and [refCount]. *)
Definition pfPtr (pf : ProcessFile) : Z := flock (pfile pf) + frefCount (pfile pf) * 2 ^ 32.
Definition setPfPtr (p : Z) (pf : ProcessFile) : ProcessFile :=
  mkPF (pflags pf) (mkFile (p mod 2 ^ 32) (p / 2 ^ 32) (fflags (pfile pf)) (inode (pfile pf)) (offset (pfile pf))).
Definition setFlags (f : Z) (pf : ProcessFile) : ProcessFile := mkPF f (pfile pf).
Definition setFile (f : File) (pf : ProcessFile) : ProcessFile := mkPF (pflags pf) f.

Definition sizeofProcessFile : Z := 40.
Definition sizeofFile : Z := 32.
Definition sizeofPipe : Z := 72.

Record PipeObj := mkPipeObj { pipeBuf : Z; pipeRefs : Z; pipeState : Pipe }.

(** ** Interfaces *)

(** The kernel heap and the page allocator, by addresses: 0 is a failure. *)
Class KernelMemory (H : Type) := {
  kmalloc : Z -> H -> Z * H;
  krealloc : Z -> Z -> H -> Z * H;
  kfree : Z -> H -> H;
  allocKPages : Z -> H -> Z * H;
  deallocPages : Z -> Z -> H -> H
}.

(** What the system calls use of the file system.  An operation on an open
    file may change the file and the file system, and may fault. *)
Class Vfs (V : Type) := {
  fsWrite : File -> Z -> Z -> M V (Z * File);
  fsRead : File -> Z -> Z -> M V (Z * File);
  fsOpen : File -> M V (Z * File);
  fsClose : File -> M V File;
  fsTruncate : File -> Z -> M V (Z * File);
  fsSeek : File -> Z -> Z -> M V (Z * File);
  fsCreate : File -> Z -> list Z -> Z -> M V (Z * File);
  fsGetDent : Z -> Z -> Z -> M V Z;
  fsUnlink : Z -> list Z -> M V Z;
  fsRename : Z -> list Z -> Z -> list Z -> Z -> M V Z;
  fsAccessAllowed : Z -> Z -> M V bool;
  getInodeFromPath : Z -> list Z -> M V Z;
  getBaseDirFromPath : Z -> list Z -> M V (Z * Z);
  inodeType : Z -> M V Z;
  lockInode : Z -> M V unit;
  unlockInode : Z -> M V unit;
  addInodeRef : Z -> Z -> M V unit;
  devIoctl : File -> Z -> Z -> M V (option (Z * File));    (* None: no such operation *)
  pipeWrite : Z -> Z -> Z -> M V Z;
  pipeRead : Z -> Z -> Z -> M V Z
}.

(** ** State *)

Record proc (H V : Type) := mkProc {
  inlineFDs : list ProcessFile;
  fds : Z;
  nrofFDs : Z;
  nrofUsedFDs : Z;
  fdLock : bool;
  cwd : Z;
  tables : gmap Z (list ProcessFile);      (* heap objects: descriptor tables, *)
  sharedFiles : gmap Z File;               (* shared files *)
  pipes : gmap Z PipeObj;                  (* and pipes *)
  userInts : gmap Z Z;                     (* ints stored in user memory *)
  kmem : H;
  vfs : V
}.
Arguments mkProc {H V}.
Arguments inlineFDs {H V}.
Arguments fds {H V}.
Arguments nrofFDs {H V}.
Arguments nrofUsedFDs {H V}.
Arguments fdLock {H V}.
Arguments cwd {H V}.
Arguments tables {H V}.
Arguments sharedFiles {H V}.
Arguments pipes {H V}.
Arguments userInts {H V}.
Arguments kmem {H V}.
Arguments vfs {H V}.

(** Where an entry is, and where an open file is. *)
Inductive pfRef := Inline (i : Z) | Table (p i : Z).
Inductive fileRef := InEntry (r : pfRef) | Shared (p : Z).
(** [union FilePipe] *)
Inductive FilePipe := NoFile | FPFile (f : fileRef) | FPPipe (p : Z).

Section fd.
Context {H V : Type} `{KernelMemory H} `{Vfs V}.
Context (stale : ProcessFile).             (* what fresh heap memory holds *)
Notation state := (proc H V).

Definition set_inline (l : list ProcessFile) (s : state) : state :=
  mkProc l (fds s) (nrofFDs s) (nrofUsedFDs s) (fdLock s) (cwd s) (tables s) (sharedFiles s) (pipes s) (userInts s) (kmem s) (vfs s).
Definition set_fds (p n : Z) (s : state) : state :=
  mkProc (inlineFDs s) p n (nrofUsedFDs s) (fdLock s) (cwd s) (tables s) (sharedFiles s) (pipes s) (userInts s) (kmem s) (vfs s).
Definition set_used (n : Z) (s : state) : state :=
  mkProc (inlineFDs s) (fds s) (nrofFDs s) n (fdLock s) (cwd s) (tables s) (sharedFiles s) (pipes s) (userInts s) (kmem s) (vfs s).
Definition set_lock (b : bool) (s : state) : state :=
  mkProc (inlineFDs s) (fds s) (nrofFDs s) (nrofUsedFDs s) b (cwd s) (tables s) (sharedFiles s) (pipes s) (userInts s) (kmem s) (vfs s).
Definition set_cwd (i : Z) (s : state) : state :=
  mkProc (inlineFDs s) (fds s) (nrofFDs s) (nrofUsedFDs s) (fdLock s) i (tables s) (sharedFiles s) (pipes s) (userInts s) (kmem s) (vfs s).
Definition set_tables (t : gmap Z (list ProcessFile)) (s : state) : state :=
  mkProc (inlineFDs s) (fds s) (nrofFDs s) (nrofUsedFDs s) (fdLock s) (cwd s) t (sharedFiles s) (pipes s) (userInts s) (kmem s) (vfs s).
Definition set_shared (m : gmap Z File) (s : state) : state :=
  mkProc (inlineFDs s) (fds s) (nrofFDs s) (nrofUsedFDs s) (fdLock s) (cwd s) (tables s) m (pipes s) (userInts s) (kmem s) (vfs s).
Definition set_pipes (m : gmap Z PipeObj) (s : state) : state :=
  mkProc (inlineFDs s) (fds s) (nrofFDs s) (nrofUsedFDs s) (fdLock s) (cwd s) (tables s) (sharedFiles s) m (userInts s) (kmem s) (vfs s).
Definition set_user (m : gmap Z Z) (s : state) : state :=
  mkProc (inlineFDs s) (fds s) (nrofFDs s) (nrofUsedFDs s) (fdLock s) (cwd s) (tables s) (sharedFiles s) (pipes s) m (kmem s) (vfs s).
Definition set_kmem (h : H) (s : state) : state :=
  mkProc (inlineFDs s) (fds s) (nrofFDs s) (nrofUsedFDs s) (fdLock s) (cwd s) (tables s) (sharedFiles s) (pipes s) (userInts s) h (vfs s).
Definition set_vfs (v : V) (s : state) : state :=
  mkProc (inlineFDs s) (fds s) (nrofFDs s) (nrofUsedFDs s) (fdLock s) (cwd s) (tables s) (sharedFiles s) (pipes s) (userInts s) (kmem s) v.

(** Interface calls. *)
Definition onMem {A} (f : H -> A * H) : M state A := fun s =>
  let '(a, h) := f (kmem s) in Done (a, set_kmem h s).
Definition onVfs {A} (m : M V A) : M state A := fun s =>
  match m (vfs s) with
  | Done (a, v) => Done (a, set_vfs v s)
  | Fault => Fault
  | NoFuel => NoFuel
  end.

Definition acquireFdLock : M state unit := fun s =>
  if fdLock s then Fault else Done (tt, set_lock true s).
Definition releaseFdLock : M state unit := modify (set_lock false).

(** An index below 0 is in front of the array. *)
Definition lookupPF (r : pfRef) (s : state) : option ProcessFile :=
  match r with
  | Inline i => if i <? 0 then None else inlineFDs s !! Z.to_nat i
  | Table p i => if i <? 0 then None else tables s !! p ≫= fun l => l !! Z.to_nat i
  end.
Definition readPF (r : pfRef) : M state ProcessFile := deref (lookupPF r).
Definition writePF (r : pfRef) (pf : ProcessFile) : M state unit := fun s =>
  match lookupPF r s, r with
  | None, _ => Fault
  | Some _, Inline i => Done (tt, set_inline (<[Z.to_nat i := pf]> (inlineFDs s)) s)
  | Some _, Table p i =>
    Done (tt, set_tables (alter (fun l => <[Z.to_nat i := pf]> l) p (tables s)) s)
  end.
Definition updPF (r : pfRef) (f : ProcessFile -> ProcessFile) : M state unit :=
  pf ← readPF r; writePF r (f pf).

Definition readFile (r : fileRef) : M state File :=
  match r with
  | InEntry r => pfile <$> readPF r
  | Shared p => deref (fun s => sharedFiles s !! p)
  end.
Definition writeFile (r : fileRef) (f : File) : M state unit :=
  match r with
  | InEntry r => updPF r (setFile f)
  | Shared p => modify (fun s => set_shared (<[p := f]> (sharedFiles s)) s)
  end.
(** A file-system operation on an open file. *)
Definition onFile {A} (r : fileRef) (op : File -> M V (A * File)) : M state A :=
  f ← readFile r;
  af ← onVfs (op f);
  writeFile r af.2;;
  mret af.1.
Definition lockFile (r : fileRef) : M state unit :=
  f ← readFile r;
  if flock f =? 0 then writeFile r (mkFile 1 (frefCount f) (fflags f) (inode f) (offset f)) else fault.
Definition unlockFile (r : fileRef) : M state unit :=
  f ← readFile r; writeFile r (mkFile 0 (frefCount f) (fflags f) (inode f) (offset f)).

(** ** Descriptors *)

Definition getFileFromFD (fd : Z) : M state (Z * FilePipe) :=
  n ← gets nrofFDs;
  tbl ← gets fds;
  r ← (if fd <? NROF_INLINE_FDS then mret (Some (Inline fd))
       else if fd - NROF_INLINE_FDS <? n then
         pf ← readPF (Table tbl fd);
         mret (if has (pflags pf) PROCFILE_FLAG_USED then Some (Table tbl (fd - NROF_INLINE_FDS)) else None)
       else mret None);
  match r with
  | None => mret (- EBADF, NoFile)
  | Some r =>
    pf ← readPF r;
    if has (pflags pf) PROCFILE_FLAG_PIPE then
      mret (if has (pflags pf) PROCFILE_FLAG_PIPE_WRITE then 3 else 1, FPPipe (pfPtr pf))
    else
      let f := if has (pflags pf) PROCFILE_FLAG_SHARED then Shared (pfPtr pf) else InEntry r in
      file ← readFile f;
      mret (if inode file =? 0 then (- EBADF, NoFile) else (0, FPFile f))
  end.

(** The search loops: the first entry without [PROCFILE_FLAG_USED]. *)
Fixpoint findUnused (l : list ProcessFile) (i : Z) : option Z :=
  match l with
  | [] => None
  | pf :: l => if has (pflags pf) PROCFILE_FLAG_USED then findUnused l (i + 1) else Some i
  end.

(** [fds[0 .. n-1]]; [None] if the table is shorter. *)
Definition readTable (p n : Z) : M state (list ProcessFile) :=
  l ← deref (fun s => tables s !! p);
  if Z.of_nat (length l) <? n then fault else mret (take (Z.to_nat n) l).

(** [krealloc] of the table at [p] to [n] entries. *)
Definition reallocTable (p n : Z) : M state Z :=
  l ← deref (fun s => tables s !! p);
  q ← onMem (krealloc p (n * sizeofProcessFile));
  (if q =? 0 then mret tt
   else modify (fun s => set_tables
     (<[q := take (Z.to_nat n) l ++ replicate (Z.to_nat n - length l) stale]> (delete p (tables s))) s));;
  mret q.

(** The result is [fileno] or an error; the entry is [*pf], [None] if it was
    not set. *)
Definition allocateFD : M state (Z * option pfRef) :=
  l ← gets inlineFDs;
  tbl ← gets fds;
  n ← gets nrofFDs;
  let finish (r : option pfRef) (fileno : Z) : M state (Z * option pfRef) :=
    match r with
    | None => fault                          (* file is NULL *)
    | Some r => updPF r (setFlags PROCFILE_FLAG_USED);; mret (fileno, Some r)
    end in
  match findUnused (take 8 l) 0 with
  | Some i => finish (Some (Inline i)) i
  | None =>
    if tbl =? 0 then
      p ← onMem (kmalloc sizeofProcessFile);
      (if p =? 0 then mret tt
       else modify (fun s => set_tables (<[p := [stale]]> (tables s)) s));;
      modify (set_fds p n);;
      if p =? 0 then mret (- ENOMEM, None)
      else modify (set_fds p 1);; finish None 0
    else
      t ← readTable tbl n;
      match findUnused t 0 with
      | Some i => finish (Some (Table tbl i)) (i + NROF_INLINE_FDS)
      | None =>
        modify (set_fds tbl (n + 1));;
        p ← reallocTable tbl (n + 1);
        if p =? 0 then mret (- ENOMEM, None)
        else modify (set_fds p (n + 1));; finish (Some (Table p n)) NROF_INLINE_FDS
      end
  end.

Definition getCwd (dirfd : Z) : M state Z :=
  if dirfd =? AT_FDCWD then gets cwd
  else
    acquireFdLock;;
    efp ← getFileFromFD dirfd;
    ret ← match efp with
          | (0, FPFile f) => inode <$> readFile f
          | _ => mret 0
          end;
    releaseFdLock;;
    mret ret.

(** ** User pointers: [include/userspace.h] *)

Definition USER_END : Z := 0xFFFF8000 * 2 ^ 32.
Definition validateUserPointer (ptr size : Z) : Z :=
  if has ptr USER_END || (u64 (USER_END - ptr) <? size) then - EINVAL else 0.
(** A string is its address and its characters without the final zero. *)
Fixpoint validateFrom (a : Z) (str : list Z) : Z :=
  if has a USER_END then - EINVAL
  else match str with [] => 0 | _ :: str => validateFrom (u64 (a + 1)) str end.
Definition validateUserString (str : Z * list Z) : Z := validateFrom str.1 str.2.

(** ** System calls on open files *)

Definition sysWrite (fd buffer size : Z) : M state Z :=
  let error := validateUserPointer buffer size in
  if negb (error =? 0) then mret error
  else
    efp ← getFileFromFD fd;
    let '(error, fp) := efp in
    if error <? 0 then mret error
    else if has error 1 then
      if negb (has error 2) then mret (- EBADF)
      else match fp with FPPipe p => s32 <$> onVfs (pipeWrite p buffer size) | _ => fault end
    else match fp with FPFile f => onFile f (fun file => fsWrite file buffer size) | _ => fault end.

Definition sysRead (fd buffer size : Z) : M state Z :=
  let error := validateUserPointer buffer size in
  if negb (error =? 0) then mret error
  else
    efp ← getFileFromFD fd;
    let '(error, fp) := efp in
    if error <? 0 then mret error
    else if has error 1 then
      if has error 2 then mret (- EBADF)
      else match fp with FPPipe p => s32 <$> onVfs (pipeRead p buffer size) | _ => fault end
    else match fp with FPFile f => s32 <$> onFile f (fun file => fsRead file buffer size) | _ => fault end.

Definition sysIoctl (fd request argument : Z) : M state Z :=
  efp ← getFileFromFD fd;
  match efp with
  | (0, FPFile f) =>
    lockFile f;;
    file ← readFile f;
    let i := inode file in
    onVfs (lockInode i);;
    type ← onVfs (inodeType i);
    ret ← (if Z.land type ITYPE_MASK =? ITYPE_CHAR then
             file ← readFile f;
             rf ← onVfs (devIoctl file request argument);
             match rf with
             | Some (ret, file) => writeFile f file;; mret ret
             | None => mret (- ENOSYS)
             end
           else mret (- ENOSYS));
    onVfs (unlockInode i);;
    unlockFile f;;
    mret ret
  | _ => mret (- EBADF)
  end.

Definition sizeofGetDent : Z := 264.
Definition sysGetDent (fd buf : Z) : M state Z :=
  let ret := validateUserPointer buf sizeofGetDent in
  if negb (ret =? 0) then mret ret
  else
    efp ← getFileFromFD fd;
    match efp with
    | (0, FPFile f) =>
      lockFile f;;
      file ← readFile f;
      ret ← onVfs (fsGetDent (inode file) buf (u32 (offset file)));
      (if ret =? 0 then mret tt
       else
         file ← readFile f;
         writeFile f (mkFile (flock file) (frefCount file) (fflags file) (inode file) (u64 (offset file + 1))));;
      unlockFile f;;
      mret ret
    | _ => mret (- EBADF)
    end.

Definition sysSeek (fd off whence : Z) : M state Z :=
  efp ← getFileFromFD fd;
  match efp with
  | (0, FPFile f) => onFile f (fun file => fsSeek file off whence)
  | _ => mret (- EBADF)
  end.

(** ** System calls on paths

    A path is its address and its characters; [&path[i]] is the rest. *)

Definition isDir (i : Z) : M state bool :=
  t ← onVfs (inodeType i); mret (Z.land t ITYPE_MASK =? ITYPE_DIR).
Definition accessAllowed (i mode : Z) : M state bool := onVfs (fsAccessAllowed i mode).
Definition lookupPath (dir : Z) (path : list Z) : M state Z := onVfs (getInodeFromPath dir path).
Definition lookupBase (dir : Z) (path : list Z) : M state (Z * Z) := onVfs (getBaseDirFromPath dir path).
Definition from (i : Z) (path : list Z) : list Z := drop (Z.to_nat i) path.

(** The branch of [sysOpen] that creates the file. *)
Definition openCreate (r : pfRef) (fileno cwd : Z) (fileName : list Z) (flags : Z) : M state Z :=
  base ← lookupBase cwd fileName;
  let '(dir, fileNameIndex) := base in
  if dir =? 0 then mret (- ENOENT)
  else
    ok ← accessAllowed dir PERM_W;
    if negb ok then mret (- EACCES)
    else
      let type := Z.lor (if has flags SYSOPEN_FLAG_DIR then ITYPE_DIR else ITYPE_FILE)
        (Z.shiftl (Z.land (Z.shiftr flags SYSOPEN_PERM_SHIFT) SYSOPEN_PERM_MASK) CREATE_PERM_SHIFT) in
      error ← onFile (InEntry r) (fun f => fsCreate f dir (from fileNameIndex fileName) type);
      mret (if error =? 0 then fileno else error).

(** The branch that opens an existing file. *)
Definition openExisting (r : pfRef) (fileno inode flags : Z) : M state Z :=
  let mode := Z.lor (if has flags SYSACCESS_R then PERM_R else 0) (if has flags SYSACCESS_W then PERM_W else 0) in
  ok ← accessAllowed inode mode;
  if negb ok then mret (- EACCES)
  else
    f ← readFile (InEntry r);
    writeFile (InEntry r) (mkFile (flock f) (frefCount f) (fflags f) inode (offset f));;
    type ← onVfs (inodeType inode);
    error ← (if has flags SYSOPEN_FLAG_TRUNC && (Z.land type ITYPE_MASK =? ITYPE_FILE)
             then onFile (InEntry r) (fun f => fsTruncate f 0) else mret 0);
    if negb (error =? 0) then mret error
    else
      error ← onFile (InEntry r) (fun f => fsOpen f);
      mret (if error =? 0 then fileno else error).

Definition OPEN_MODES : Z :=
  Z.lor SYSOPEN_FLAG_READ (Z.lor SYSOPEN_FLAG_WRITE (Z.lor SYSOPEN_FLAG_DIR SYSOPEN_FLAG_APPEND)).

Definition sysOpen (dirfd : Z) (fileName : Z * list Z) (flags : Z) : M state Z :=
  if has flags SYSOPEN_FLAG_DIR && has flags SYSOPEN_FLAG_WRITE then mret (- EISDIR)
  else
    let error := validateUserString fileName in
    if negb (error =? 0) then mret error
    else
      acquireFdLock;;
      fpf ← allocateFD;
      releaseFdLock;;
      match fpf with
      | (fileno, None) => mret fileno                  (* fileno < 0 *)
      | (fileno, Some r) =>
        f ← readFile (InEntry r);
        writeFile (InEntry r) (mkFile (flock f) (frefCount f) (Z.land flags OPEN_MODES) (inode f) (offset f));;
        cwd ← getCwd dirfd;
        inode ← lookupPath cwd fileName.2;
        if (inode =? 0) && has flags SYSOPEN_FLAG_CREATE then openCreate r fileno cwd fileName.2 flags
        else if has flags SYSOPEN_FLAG_EXCL then mret (- EEXIST)
        else if inode =? 0 then mret (- ENOENT)
        else openExisting r fileno inode flags
      end.

Definition refOfFD (tbl fd : Z) : pfRef :=
  if fd <? NROF_INLINE_FDS then Inline fd else Table tbl (fd - NROF_INLINE_FDS).

Definition sysClose (fd : Z) : M state Z :=
  tbl ← gets fds;
  let r := refOfFD tbl fd in
  pf ← readPF r;
  if negb (has (pflags pf) PROCFILE_FLAG_USED) then mret (- EBADF)
  else
    acquireFdLock;;
    (if has (pflags pf) PROCFILE_FLAG_SHARED then
       let p := pfPtr pf in
       f ← readFile (Shared p);
       let refCount := u32 (frefCount f - 1) in
       writeFile (Shared p) (mkFile (flock f) refCount (fflags f) (inode f) (offset f));;
       if refCount =? 0 then
         modify (fun s => set_shared (delete p (sharedFiles s)) (set_kmem (kfree p (kmem s)) s))
       else mret tt
     else onFile (InEntry r) (fun f => pair tt <$> fsClose f));;
    updPF r (setFlags 0);;
    (if fd >=? NROF_INLINE_FDS then
       n ← gets nrofUsedFDs;
       modify (set_used (s32 (n - 1)));;
       if s32 (n - 1) =? 0 then
         modify (fun s => set_tables (delete tbl (tables s)) (set_kmem (kfree tbl (kmem s)) s))
       else mret tt
     else mret tt);;
    releaseFdLock;;
    mret 0.

Definition sysChDir (path : Z * list Z) : M state Z :=
  let error := validateUserString path in
  if negb (error =? 0) then mret error
  else
    c ← gets cwd;
    inode ← lookupPath c path.2;
    if inode =? 0 then mret (- ENOENT)
    else
      d ← isDir inode;
      if negb d then mret (- ENOTDIR)
      else
        onVfs (addInodeRef inode 1);;
        onVfs (addInodeRef c (-1));;
        modify (set_cwd inode);;
        mret 0.

Definition sysAccess (dirfd : Z) (path : Z * list Z) (mode : Z) : M state Z :=
  if negb (Z.land mode (Z.lnot 0xF) =? 0) ||
     (has mode SYSACCESS_OK && has mode (Z.lor SYSACCESS_R (Z.lor SYSACCESS_W SYSACCESS_X)))
  then mret (- EINVAL)
  else
    let error := validateUserString path in
    if negb (error =? 0) then mret error
    else
      c ← getCwd dirfd;
      inode ← lookupPath c path.2;
      if inode =? 0 then mret (- ENOENT)
      else if has mode SYSACCESS_OK then mret 0
      else ok ← accessAllowed inode (Z.shiftr mode 1); mret (if (ok : bool) then 0 else - EACCES).

Definition sysUnlink (dirfd : Z) (path : Z * list Z) (flags : Z) : M state Z :=
  let error := validateUserString path in
  if negb (error =? 0) then mret error
  else
    c ← getCwd dirfd;
    inode ← lookupPath c path.2;
    if inode =? 0 then mret (- ENOENT)
    else
      d ← isDir inode;
      if d && negb (has flags AT_REMOVEDIR) then mret (- EISDIR)
      else
        base ← lookupBase c path.2;
        onVfs (fsUnlink base.1 (from base.2 path.2)).

Definition sysRename (oldDirfd : Z) (oldPath : Z * list Z) (newDirfd : Z) (newPath : Z * list Z) (flags : Z) :
    M state Z :=
  let error := validateUserString oldPath in
  if negb (error =? 0) then mret error
  else
    let error := validateUserString newPath in
    if negb (error =? 0) then mret error
    else
      oldDir ← getCwd oldDirfd;
      newDir ← getCwd newDirfd;
      old ← lookupBase oldDir oldPath.2;
      new ← lookupBase newDir newPath.2;
      let oldName := from old.2 oldPath.2 in
      if NAME_MAX <=? s32 (Z.of_nat (length oldName)) then mret (- E2BIG)
      else onVfs (fsRename new.1 (from new.2 newPath.2) old.1 oldName flags).

(** ** Pipes and duplicates: [fs/pipe.c] *)

(** The entries of the two ends. *)
Definition linkEnds (rf wf : pfRef) (pipe flags : Z) : M state unit :=
  (if has flags SYSOPEN_FLAG_CLOEXEC
   then updPF rf (fun pf => setFlags (Z.lor (pflags pf) PROCFILE_FLAG_CLOEXEC) pf) else mret tt);;
  updPF rf (fun pf => setFlags (Z.lor (pflags pf) PROCFILE_FLAG_PIPE) pf);;
  pf ← readPF rf;
  updPF wf (setFlags (Z.lor (pflags pf) PROCFILE_FLAG_PIPE_WRITE));;
  updPF rf (setPfPtr pipe);;
  updPF wf (setPfPtr pipe).

(** The two stores at the end go to user memory that [validateUserPointer] has
    accepted; it checks the range and not that the pages are there.  A page
    fault in them, which happens with the lock of the descriptors taken, is not
    modelled: the model is of the calls whose stores succeed. *)
Definition sysPipe (fd flags : Z) : M state Z :=
  let error := validateUserPointer fd (4 * 2) in
  if negb (error =? 0) then mret error
  else
    acquireFdLock;;
    rd ← allocateFD;
    match rd with
    | (readFD, None) => releaseFdLock;; releaseFdLock;; mret readFD
    | (readFD, Some rf) =>
      wr ← allocateFD;
      match wr with
      | (_, None) =>
        releaseFdLock;;
        sysClose readFD;;                              (* error = readFD *)
        mret readFD
      | (writeFD, Some wf) =>
        buf ← onMem (allocKPages PIPE_BUF);
        if buf =? 0 then
          releaseFdLock;; sysClose writeFD;; sysClose readFD;; mret (- ENOMEM)
        else
          pipe ← onMem (kmalloc sizeofPipe);
          if pipe =? 0 then
            releaseFdLock;;
            onMem (fun h => (tt, deallocPages buf PIPE_BUF h));;
            sysClose writeFD;; sysClose readFD;; mret (- ENOMEM)
          else
            modify (fun s => set_pipes (<[pipe := mkPipeObj buf 2 newPipe]> (pipes s)) s);;
            linkEnds rf wf pipe flags;;
            modify (fun s => set_user (<[fd := readFD]> (userInts s)) s);;
            modify (fun s => set_user (<[u64 (fd + 4) := writeFD]> (userInts s)) s);;
            releaseFdLock;;
            mret 0
      end
    end.

Definition copyFD (pf newPF : pfRef) (shared : Z) : M state unit :=
  e ← readPF pf;
  if negb (has (pflags e) PROCFILE_FLAG_USED) then mret tt
  else if has (pflags e) PROCFILE_FLAG_PIPE then
    o ← deref (fun s => pipes s !! pfPtr e);
    modify (fun s => set_pipes (<[pfPtr e := mkPipeObj (pipeBuf o) (u32 (pipeRefs o + 1)) (pipeState o)]> (pipes s)) s);;
    updPF newPF (setFlags (pflags e));;
    updPF newPF (setPfPtr (pfPtr e))
  else
    (if negb (has (pflags e) PROCFILE_FLAG_SHARED) then
       if shared =? 0 then fault else
       (* memset(shared, 0, sizeof(struct File)) *)
       modify (fun s => set_shared (<[shared := mkFile 0 1 0 (inode (pfile e)) 0]> (sharedFiles s)) s);;
       updPF pf (setFlags (Z.lor (pflags e) PROCFILE_FLAG_SHARED));;
       updPF pf (setPfPtr shared)
     else mret tt);;
    e ← readPF pf;
    updPF newPF (setFlags (pflags e));;
    updPF newPF (setPfPtr (pfPtr e));;
    f ← readFile (Shared (pfPtr e));
    writeFile (Shared (pfPtr e)) (mkFile (flock f) (u32 (frefCount f + 1)) (fflags f) (inode f) (offset f)).

(** [memset(pf, 0, n)] of [n] bytes: the bytes at [start .. start + size - 1] of
    the entry hold [v]. *)
Definition zeroField (n start size v : Z) : Z :=
  let k := Z.max 0 (Z.min size (n - start)) in Z.shiftl (Z.shiftr v (8 * k)) (8 * k).
Definition zeroEntry (n : Z) (pf : ProcessFile) : ProcessFile :=
  mkPF (zeroField n 0 4 (pflags pf))
    (mkFile (zeroField n 8 4 (flock (pfile pf))) (zeroField n 12 4 (frefCount (pfile pf)))
       (zeroField n 16 4 (fflags (pfile pf))) (zeroField n 24 8 (inode (pfile pf))) (zeroField n 32 8 (offset (pfile pf)))).
(** [memset(fds + i, 0, n)]; the count is in bytes. *)
Fixpoint zeroEntries (n : Z) (l : list ProcessFile) : list ProcessFile :=
  match l with
  | [] => []
  | pf :: l => zeroEntry n pf :: zeroEntries (n - sizeofProcessFile) l
  end.

(** The second half of [sysDup]: the new entry, [None] if [newPF] was never
    set, or an error. *)
Definition dupTarget (newFD : Z) : M state (Z + Z * option pfRef) :=
  tbl ← gets fds;
  n ← gets nrofFDs;
  if newFD <? 0 then inr <$> allocateFD
  else if newFD >=? MAX_FDS then mret (inl (- EBADF))
  else if newFD - NROF_INLINE_FDS >=? n then
    let n' := newFD - NROF_INLINE_FDS + 1 in
    p ← reallocTable tbl n';
    if p =? 0 then mret (inl (- ENOMEM))
    else
      modify (fun s => set_tables
        (alter (fun l => take (Z.to_nat n) l ++ zeroEntries (n' - n) (drop (Z.to_nat n) l)) p (tables s)) s);;
      modify (set_fds p n');;
      modify (fun s => set_used (s32 (nrofUsedFDs s + (newFD - NROF_INLINE_FDS))) s);;
      mret (inr (newFD, Some (Table p (newFD - NROF_INLINE_FDS))))
  else
    releaseFdLock;;
    sysClose newFD;;
    acquireFdLock;;
    mret (inr (newFD, None)).

Definition sysDup (oldFD newFD flags : Z) : M state Z :=
  acquireFdLock;;
  tbl ← gets fds;
  n ← gets nrofFDs;
  if (NROF_INLINE_FDS <=? oldFD) && (oldFD - NROF_INLINE_FDS >=? n) then releaseFdLock;; mret (- EBADF)
  else
    let oldPF := refOfFD tbl oldFD in
    if negb (has oldFD PROCFILE_FLAG_USED) then releaseFdLock;; mret (- EBADF)
    else
      pf ← readPF oldPF;
      let needs := negb (has (pflags pf) PROCFILE_FLAG_PIPE || has (pflags pf) PROCFILE_FLAG_SHARED) in
      shared ← (if needs then onMem (kmalloc sizeofFile) else mret 0);
      if needs && (shared =? 0) then releaseFdLock;; mret (- ENOMEM)
      else
        t ← dupTarget newFD;
        match t with
        | inl error =>
          (if shared =? 0 then mret tt else onMem (fun h => (tt, kfree shared h)));;
          releaseFdLock;; mret error
        | inr (_, None) => fault                       (* newPF is not initialised *)
        | inr (newFD, Some newPF) =>
          copyFD oldPF newPF shared;;
          updPF newPF (fun pf => setFlags
            (if has flags SYSOPEN_FLAG_CLOEXEC then Z.lor (pflags pf) PROCFILE_FLAG_CLOEXEC
             else Z.land (pflags pf) (Z.lnot PROCFILE_FLAG_CLOEXEC)) pf);;
          releaseFdLock;;
          mret newFD
        end.

(** [fsCloseOnExec] of [fs/main.c]. *)
Fixpoint closeMarked (n : nat) (i : Z) (ref : Z -> pfRef) : M state unit :=
  match n with
  | O => mret tt
  | S n =>
    pf ← readPF (ref i);
    (if has (pflags pf) PROCFILE_FLAG_USED && has (pflags pf) PROCFILE_FLAG_CLOEXEC
     then sysClose i;; mret tt else mret tt);;
    closeMarked n (i + 1) ref
  end.
Definition fsCloseOnExec : M state Z :=
  closeMarked 8 0 Inline;;
  tbl ← gets fds;
  n ← gets nrofFDs;
  closeMarked (Z.to_nat n) 0 (Table tbl);;
  mret 0.
End fd.

(** ** Inline entries *)

(** Reduce the updates of the state. *)
Ltac fdsimpl :=
  cbn [inlineFDs fds nrofFDs nrofUsedFDs fdLock cwd tables sharedFiles pipes userInts kmem vfs
       set_inline set_fds set_used set_lock set_cwd set_tables set_shared set_pipes set_user set_kmem set_vfs].

Section running.
Context {S A B : Type}.
Lemma bind_gets (f : S -> A) (k : A -> M S B) s : (gets f ≫= k) s = k (f s) s.
Proof. done. Qed.
Lemma bind_done (m : M S A) (k : A -> M S B) s a s' : m s = Done (a, s') -> (m ≫= k) s = k a s'.
Proof. intros E. unfold mbind, M_bind. by rewrite E. Qed.
Lemma bind_fault (m : M S A) (k : A -> M S B) s : m s = Fault -> (m ≫= k) s = Fault.
Proof. intros E. unfold mbind, M_bind. by rewrite E. Qed.
End running.

Section inline.
Context {H V : Type} `{KernelMemory H} `{Vfs V}.
Context (stale : ProcessFile).
Implicit Types s : proc H V.

Lemma wp_acquireFdLock s (Q : unit -> proc H V -> Prop) :
  fdLock s = false -> Q tt (set_lock true s) -> wp acquireFdLock s Q.
Proof. intros Hl HQ. unfold wp, acquireFdLock. by rewrite Hl. Qed.

Lemma lookup_inline (i : nat) s : lookupPF (Inline (Z.of_nat i)) s = inlineFDs s !! i.
Proof. simpl. destruct (Z.ltb_spec (Z.of_nat i) 0); [lia|]. by rewrite Nat2Z.id. Qed.

Lemma wp_readPF (i : nat) pf s (Q : ProcessFile -> proc H V -> Prop) :
  inlineFDs s !! i = Some pf -> Q pf s -> wp (readPF (Inline (Z.of_nat i))) s Q.
Proof. intros Hi HQ. apply wp_deref. exists pf. by rewrite lookup_inline. Qed.

Lemma wp_writePF (i : nat) pf s (Q : unit -> proc H V -> Prop) :
  (i < length (inlineFDs s))%nat -> Q tt (set_inline (<[i := pf]> (inlineFDs s)) s) ->
  wp (writePF (Inline (Z.of_nat i)) pf) s Q.
Proof.
  intros Hi HQ. apply lookup_lt_is_Some_2 in Hi as [x Hx]. unfold wp, writePF.
  rewrite lookup_inline, Hx. by rewrite Nat2Z.id.
Qed.

Lemma wp_updPF (i : nat) pf f s (Q : unit -> proc H V -> Prop) :
  inlineFDs s !! i = Some pf -> Q tt (set_inline (<[i := f pf]> (inlineFDs s)) s) ->
  wp (updPF (Inline (Z.of_nat i)) f) s Q.
Proof.
  intros Hi HQ. apply wp_bind, (wp_readPF i pf); [done|].
  apply wp_writePF; [|done]. by eapply lookup_lt_Some.
Qed.

(** The first unused entry. *)
Definition first_unused (l : list ProcessFile) (i : nat) : Prop :=
  (exists pf, l !! i = Some pf /\ has (pflags pf) PROCFILE_FLAG_USED = false) /\
  forall k pf, (k < i)%nat -> l !! k = Some pf -> has (pflags pf) PROCFILE_FLAG_USED = true.

Lemma findUnused_first l i n : first_unused l i -> findUnused l n = Some (n + Z.of_nat i).
Proof.
  revert i n. induction l as [|pf l IH]; intros i n [(x & Hx & Hf) Hu]; [done|]. cbn [findUnused].
  destruct i as [|i].
  - injection Hx as ->. rewrite Hf. f_equal. lia.
  - rewrite (Hu 0%nat pf) by (lia || done). rewrite (IH i); [f_equal; lia|].
    split; [by exists x|]. intros k y Hk Hy. apply (Hu (S k) y); [lia|done].
Qed.

Lemma findUnused_none l n :
  (forall pf, pf ∈ l -> has (pflags pf) PROCFILE_FLAG_USED = true) -> findUnused l n = None.
Proof.
  revert n. induction l as [|pf l IH]; intros n Hl; [done|]. cbn [findUnused].
  rewrite (Hl pf) by (by left). apply IH. intros x Hx. apply Hl. by right.
Qed.

(** A free inline entry is taken before anything else. *)
Lemma allocateFD_inline i pf s Q :
  length (inlineFDs s) = 8%nat -> first_unused (inlineFDs s) i -> inlineFDs s !! i = Some pf ->
  Q (Z.of_nat i, Some (Inline (Z.of_nat i)))
    (set_inline (<[i := setFlags PROCFILE_FLAG_USED pf]> (inlineFDs s)) s) ->
  wp (allocateFD stale) s Q.
Proof.
  intros Hl Hf Hi HQ. unfold allocateFD. apply wp_bind, wp_gets, wp_bind, wp_gets, wp_bind, wp_gets.
  rewrite take_ge, (findUnused_first _ i) by (lia || done).
  apply wp_bind, (wp_updPF i pf); [done|]. by apply wp_ret.
Qed.

Lemma first_unused_insert l i j pf x :
  (i < length l)%nat -> first_unused (<[i := x]> l) j -> j <> i -> has (pflags pf) PROCFILE_FLAG_USED = true ->
  first_unused (<[i := pf]> l) j.
Proof.
  intros Hl [(y & Hy & Hu) Hj] Hne Hpf. rewrite list_lookup_insert_ne in Hy by congruence.
  split; [exists y; by rewrite list_lookup_insert_ne by congruence|].
  intros k z Hk Hz. destruct (decide (k = i)) as [->|Hki].
  - rewrite list_lookup_insert_eq in Hz by done. by injection Hz as <-.
  - rewrite list_lookup_insert_ne in Hz by congruence. apply (Hj k z Hk). by rewrite list_lookup_insert_ne by congruence.
Qed.

Lemma wp_onMem {A} (f : H -> A * H) s (Q : A -> proc H V -> Prop) :
  Q (f (kmem s)).1 (set_kmem (f (kmem s)).2 s) -> wp (onMem f) s Q.
Proof. intros HQ. unfold wp, onMem. by destruct (f (kmem s)). Qed.
Lemma wp_onVfs {A} (m : M V A) a v s (Q : A -> proc H V -> Prop) :
  m (vfs s) = Done (a, v) -> Q a (set_vfs v s) -> wp (onVfs m) s Q.
Proof. intros E HQ. unfold wp, onVfs. by rewrite E. Qed.

Lemma pfPtr_set p pf : pfPtr (setPfPtr p pf) = p.
Proof. unfold pfPtr, setPfPtr. cbn [pfile flock frefCount]. dlia. Qed.

Lemma getFileFromFD_pipe (i : nat) pf s Q :
  (i < 8)%nat -> inlineFDs s !! i = Some pf -> has (pflags pf) PROCFILE_FLAG_PIPE = true ->
  Q (if has (pflags pf) PROCFILE_FLAG_PIPE_WRITE then 3 else 1, FPPipe (pfPtr pf)) s ->
  wp (getFileFromFD (Z.of_nat i)) s Q.
Proof.
  intros Hi Hl Hp HQ. unfold getFileFromFD. apply wp_bind, wp_gets, wp_bind, wp_gets, wp_bind.
  unfold NROF_INLINE_FDS. destruct (Z.ltb_spec (Z.of_nat i) 8); [|lia]. apply wp_ret.
  apply wp_bind, (wp_readPF i pf); [done|]. rewrite Hp. by apply wp_ret.
Qed.
End inline.

(** ** Reference counts of shared files *)

Section sharing.
(** An entry that refers to the shared file at [p]. *)
Definition shares (p : Z) (pf : ProcessFile) : bool :=
  has (pflags pf) PROCFILE_FLAG_SHARED && (pfPtr pf =? p).
Fixpoint sharers (p : Z) (l : list ProcessFile) : Z :=
  match l with
  | [] => 0
  | pf :: l => (if shares p pf then 1 else 0) + sharers p l
  end.

Lemma sharers_insert p l i x y :
  l !! i = Some x ->
  sharers p (<[i := y]> l) = sharers p l - (if shares p x then 1 else 0) + (if shares p y then 1 else 0).
Proof.
  revert i. induction l as [|z l IH]; intros [|i] Hx; try done.
  - injection Hx as ->. change (<[0%nat := y]> (x :: l)) with (y :: l). cbn [sharers]. lia.
  - change (<[S i := y]> (z :: l)) with (z :: <[i := y]> l). cbn [sharers]. rewrite (IH i Hx). lia.
Qed.

Lemma sharers_nonneg p l : 0 <= sharers p l.
Proof. induction l as [|x l IH]; cbn [sharers]; [lia|]. destruct (shares p x); lia. Qed.
Lemma sharers_length p l : sharers p l <= Z.of_nat (length l).
Proof. induction l as [|x l IH]; cbn [sharers length]; [lia|]. destruct (shares p x); lia. Qed.

Lemma sharers_pos p l i pf : l !! i = Some pf -> shares p pf = true -> 0 < sharers p l.
Proof.
  revert i. induction l as [|x l IH]; intros [|i] Hi Hs; try done; cbn [sharers].
  - injection Hi as ->. rewrite Hs. pose proof (sharers_nonneg p l). lia.
  - specialize (IH i Hi Hs). destruct (shares p x); lia.
Qed.

Context {H V : Type} `{KernelMemory H} `{Vfs V}.
(** References from elsewhere: the tables of other processes. *)
Context (others : Z -> Z).
Implicit Types s : proc H V.

Definition references (s : proc H V) (p : Z) : Z := sharers p (inlineFDs s) + others p.

Record share_inv (s : proc H V) : Prop := {
  si_length : length (inlineFDs s) = 8%nat;
  si_others : forall p, 0 <= others p < 2 ^ 31;
  si_flags : forall i pf, inlineFDs s !! i = Some pf -> has (pflags pf) PROCFILE_FLAG_SHARED = true ->
    has (pflags pf) PROCFILE_FLAG_USED = true /\ has (pflags pf) PROCFILE_FLAG_PIPE = false;
  si_count : forall p, match sharedFiles s !! p with
    | Some f => frefCount f = references s p /\ 0 < references s p
    | None => references s p = 0
    end
}.

Lemma references_bound s p : share_inv s -> 0 <= references s p < 2 ^ 32 - 1.
Proof.
  intros HI. unfold references. pose proof (sharers_nonneg p (inlineFDs s)).
  pose proof (sharers_length p (inlineFDs s)). rewrite (si_length s HI) in *. pose proof (si_others s HI p). lia.
Qed.

Lemma shared_exists s i pf : share_inv s -> inlineFDs s !! i = Some pf ->
  has (pflags pf) PROCFILE_FLAG_SHARED = true ->
  exists f, sharedFiles s !! pfPtr pf = Some f /\ frefCount f = references s (pfPtr pf) /\ 0 < references s (pfPtr pf).
Proof.
  intros HI Hi Hs. pose proof (si_count s HI (pfPtr pf)) as Hc.
  assert (0 < sharers (pfPtr pf) (inlineFDs s)).
  { eapply sharers_pos; [done|]. unfold shares. by rewrite Hs, Z.eqb_refl. }
  pose proof (si_others s HI (pfPtr pf)). unfold references in *.
  destruct (sharedFiles s !! pfPtr pf) as [f|]; [|lia]. by exists f.
Qed.

Lemma wp_readShared p f s Q : sharedFiles s !! p = Some f -> Q f s -> wp (readFile (Shared p)) s Q.
Proof. intros Hp HQ. apply wp_deref. by exists f. Qed.

(** The state after the entry [i] and the shared file of [p] have changed. *)
Lemma share_inv_update s s' i x y :
  share_inv s -> inlineFDs s !! i = Some x -> inlineFDs s' = <[i := y]> (inlineFDs s) ->
  (has (pflags y) PROCFILE_FLAG_SHARED = true ->
   has (pflags y) PROCFILE_FLAG_USED = true /\ has (pflags y) PROCFILE_FLAG_PIPE = false) ->
  (forall p, match sharedFiles s' !! p with
    | Some f => frefCount f = references s p - (if shares p x then 1 else 0) + (if shares p y then 1 else 0) /\ 0 < frefCount f
    | None => references s p - (if shares p x then 1 else 0) + (if shares p y then 1 else 0) = 0
    end) -> share_inv s'.
Proof.
  intros HI Hx Hs' Hy Hc. split.
  - rewrite Hs', length_insert. apply HI.
  - apply HI.
  - intros k pf Hk Hsh. rewrite Hs' in Hk. destruct (decide (k = i)) as [->|Hne].
    + rewrite list_lookup_insert_eq in Hk by (by eapply lookup_lt_Some). injection Hk as <-. by apply Hy.
    + rewrite list_lookup_insert_ne in Hk by congruence. by eapply HI.
  - intros p. specialize (Hc p). unfold references in *. rewrite Hs', (sharers_insert p _ i x y Hx).
    destruct (sharedFiles s' !! p) as [f|]; lia.
Qed.
End sharing.

Section properties.
Context {H V : Type} `{KernelMemory H} `{Vfs V}.
Context (stale : ProcessFile).
Implicit Types s : proc H V.

(** A user range that is accepted lies below the kernel: it starts in the
    lower half and does not wrap around. *)
Theorem validateUserPointer_safe ptr size :
  0 <= ptr < 2 ^ 64 -> 0 <= size < 2 ^ 64 -> validateUserPointer ptr size = 0 ->
  0 <= ptr < 2 ^ 47 /\ ptr + size <= USER_END.
Proof.
  intros Hp Hs Hv. unfold validateUserPointer in Hv. destruct (has ptr USER_END) eqn:E; [done|].
  assert (Hlow : ptr < 2 ^ 47).
  { unfold has in E. apply negb_false_iff, Z.eqb_eq in E.
    change USER_END with (2 ^ 64 - 2 ^ 47) in E. rewrite land_high_mask in E by lia.
    pose proof (Z.mod_pos_bound ptr (2 ^ 47)). lia. }
  split; [lia|]. cbn [orb] in Hv.
  destruct (Z.ltb_spec (u64 (USER_END - ptr)) size) as [|Hle]; [done|].
  rewrite uwrap_small in Hle by (unfold USER_END; lia). lia.
Qed.

Lemma linkEnds_spec (i j : nat) pfi pfj p flags s :
  i <> j -> inlineFDs s !! i = Some pfi -> inlineFDs s !! j = Some pfj ->
  pflags pfi = PROCFILE_FLAG_USED ->
  wp (linkEnds (Inline (Z.of_nat i)) (Inline (Z.of_nat j)) p flags) s (fun _ s' => exists f,
    has f PROCFILE_FLAG_PIPE = true /\ has f PROCFILE_FLAG_PIPE_WRITE = false /\
    s' = set_inline (<[j := setPfPtr p (setFlags (Z.lor f PROCFILE_FLAG_PIPE_WRITE) pfj)]>
                    (<[i := setPfPtr p (setFlags f pfi)]> (inlineFDs s))) s).
Proof.
  intros Hij Hi Hj Hf. unfold linkEnds.
  pose proof (lookup_lt_Some _ _ _ Hi). pose proof (lookup_lt_Some _ _ _ Hj). apply wp_bind.
  eapply (wp_mono _ _ (fun _ s' => exists f, has f PROCFILE_FLAG_PIPE_WRITE = false /\
    s' = set_inline (<[i := setFlags f pfi]> (inlineFDs s)) s)).
  { destruct (has flags SYSOPEN_FLAG_CLOEXEC).
    - apply (wp_updPF i pfi); [done|]. rewrite Hf. by exists 3.
    - apply wp_ret. exists 1. split; [done|]. rewrite list_insert_id; [by destruct s|].
      rewrite Hi. f_equal. unfold setFlags. destruct pfi. cbn [pflags pfile] in *. by subst. }
  intros _ s1 (f & Hw & ->). apply wp_bind, (wp_updPF i (setFlags f pfi)); fdsimpl.
  { by apply list_lookup_insert_eq. }
  rewrite list_insert_insert_eq. cbn [pflags setFlags pfile]. set (g := Z.lor f PROCFILE_FLAG_PIPE).
  apply wp_bind, (wp_readPF i (setFlags g pfi)); fdsimpl; [by apply list_lookup_insert_eq|].
  apply wp_bind, (wp_updPF j pfj); fdsimpl; [by rewrite list_lookup_insert_ne by done|].
  apply wp_bind, (wp_updPF i (setFlags g pfi)); fdsimpl.
  { rewrite list_lookup_insert_ne by done. by apply list_lookup_insert_eq. }
  apply (wp_updPF j (setFlags (Z.lor g PROCFILE_FLAG_PIPE_WRITE) pfj)); fdsimpl.
  { rewrite list_lookup_insert_ne by done. apply list_lookup_insert_eq. by rewrite length_insert. }
  exists g. unfold g at 1 2. rewrite !has_lor, Hw, orb_true_r. split_and!; [done|done|].
  unfold set_inline. fdsimpl. f_equal. rewrite (list_insert_insert_ne _ j i) by done.
  by rewrite !list_insert_insert_eq, (list_insert_insert_ne _ i j), list_insert_insert_eq by done.
Qed.

(** C23: [sysPipe] on a process with two free inline entries gives the two
    lowest of them to the read end and the write end of one new, empty pipe
    with two references, stores them in the user's array, which can be written,
    and changes no other descriptor. *)
Theorem sysPipe_correct fd flags i j s buf h1 p h2 :
  0 <= fd < 2 ^ 64 -> validateUserPointer fd 8 = 0 -> fdLock s = false -> length (inlineFDs s) = 8%nat ->
  (i < j)%nat -> first_unused (inlineFDs s) i ->
  first_unused (<[i := mkPF PROCFILE_FLAG_USED (mkFile 0 0 0 0 0)]> (inlineFDs s)) j ->
  allocKPages PIPE_BUF (kmem s) = (buf, h1) -> buf <> 0 -> kmalloc sizeofPipe h1 = (p, h2) -> p <> 0 ->
  wp (sysPipe stale fd flags) s (fun r s' =>
    r = 0 /\ fdLock s' = false /\
    userInts s' !! fd = Some (Z.of_nat i) /\ userInts s' !! u64 (fd + 4) = Some (Z.of_nat j) /\
    pipes s' !! p = Some (mkPipeObj buf 2 newPipe) /\
    wp (getFileFromFD (Z.of_nat i)) s' (fun x _ => x = (1, FPPipe p)) /\
    wp (getFileFromFD (Z.of_nat j)) s' (fun x _ => x = (3, FPPipe p)) /\
    forall k, k <> i -> k <> j -> inlineFDs s' !! k = inlineFDs s !! k).
Proof.
  intros Hfd Hv Hlock Hlen Hij Hi Hj Hbuf Hb0 Hp Hp0. unfold sysPipe. change (4 * 2) with 8. rewrite Hv. cbn [Z.eqb negb].
  destruct (proj1 Hi) as (pfi & Hpi & Hui). destruct (proj1 Hj) as (pfj & Hpj & Huj).
  assert (Hlj : (j < 8)%nat) by (apply lookup_lt_Some in Hpj; by rewrite length_insert, Hlen in Hpj).
  rewrite list_lookup_insert_ne in Hpj by lia.
  apply wp_bind, wp_acquireFdLock; [done|]. apply wp_bind, (allocateFD_inline stale i pfi); [done|done|done|]. fdsimpl.
  apply wp_bind, (allocateFD_inline stale j pfj); fdsimpl; [by rewrite length_insert| | |].
  { eapply first_unused_insert; [lia|exact Hj|lia|done]. }
  { by rewrite list_lookup_insert_ne by lia. }
  apply wp_bind, wp_onMem. fdsimpl. rewrite Hbuf. cbn [fst snd]. destruct (Z.eqb_spec buf 0); [done|].
  apply wp_bind, wp_onMem. fdsimpl. rewrite Hp. cbn [fst snd]. destruct (Z.eqb_spec p 0); [done|].
  apply wp_bind, wp_modify, wp_bind. fdsimpl.
  wp_use (linkEnds_spec i j (setFlags PROCFILE_FLAG_USED pfi) (setFlags PROCFILE_FLAG_USED pfj)); fdsimpl; [lia| | |done|].
  { rewrite list_lookup_insert_ne by lia. apply list_lookup_insert_eq. lia. }
  { apply list_lookup_insert_eq. rewrite length_insert. lia. }
  intros _ s1 (f & Hf & Hw & ->).
  apply wp_bind, wp_modify. apply wp_bind, wp_modify. apply wp_bind, wp_modify. apply wp_ret. fdsimpl.
  set (l2 := <[j := setPfPtr p _]> _).
  assert (Hne : u64 (fd + 4) <> fd) by (unfold uwrap; dlia).
  split_and!; [done|done| |apply lookup_insert_eq|apply lookup_insert_eq| | |].
  - rewrite lookup_insert_ne by done. apply lookup_insert_eq.
  - apply (getFileFromFD_pipe i (setPfPtr p (setFlags f pfi))); cbn [pflags setPfPtr setFlags]; [lia| |done|by rewrite Hw, pfPtr_set].
    unfold l2. fdsimpl. rewrite list_lookup_insert_ne by lia. apply list_lookup_insert_eq. rewrite !length_insert. lia.
  - apply (getFileFromFD_pipe j (setPfPtr p (setFlags (Z.lor f PROCFILE_FLAG_PIPE_WRITE) pfj)));
      cbn [pflags setPfPtr setFlags]; rewrite ?has_lor, ?Hf, ?orb_true_r, ?pfPtr_set; [lia| |done|done].
    apply list_lookup_insert_eq. rewrite !length_insert. lia.
  - intros k Hki Hkj. unfold l2. by rewrite !list_lookup_insert_ne by congruence.
Qed.

Lemma readPF_inline (i : nat) s : (i < 8)%nat -> refOfFD (fds s) (Z.of_nat i) = Inline (Z.of_nat i).
Proof. intros Hi. unfold refOfFD, NROF_INLINE_FDS. destruct (Z.ltb_spec (Z.of_nat i) 8); [done|lia]. Qed.

Lemma shares_unshared p pf : has (pflags pf) PROCFILE_FLAG_SHARED = false -> shares p pf = false.
Proof. intros Hs. unfold shares. by rewrite Hs. Qed.

(** What [sysClose] does to the object behind the entry. *)
Lemma releaseFile_spec others i pf s Q :
  share_inv others s -> inlineFDs s !! i = Some pf ->
  (has (pflags pf) PROCFILE_FLAG_SHARED = false -> exists f v, fsClose (pfile pf) (vfs s) = Done (f, v)) ->
  (forall x s', inlineFDs s' !! i = Some x -> (forall k, k <> i -> inlineFDs s' !! k = inlineFDs s !! k) ->
    pflags x = pflags pf -> share_inv others (set_inline (<[i := setFlags 0 x]> (inlineFDs s')) s') ->
    fdLock s' = fdLock s -> Q tt s') ->
  wp (if has (pflags pf) PROCFILE_FLAG_SHARED then
       let p := pfPtr pf in
       f ← readFile (Shared p);
       let refCount := u32 (frefCount f - 1) in
       writeFile (Shared p) (mkFile (flock f) refCount (fflags f) (inode f) (offset f));;
       if refCount =? 0 then
         modify (fun s => set_shared (delete p (sharedFiles s)) (set_kmem (kfree p (kmem s)) s))
       else mret tt
     else onFile (InEntry (Inline (Z.of_nat i))) (fun f => pair tt <$> fsClose f)) s Q.
Proof.
  intros HI Hi Hcl HQ. destruct (has (pflags pf) PROCFILE_FLAG_SHARED) eqn:Hs.
  - destruct (shared_exists others s i pf HI Hi Hs) as (f & Hf & Hc & Hpos). cbv zeta.
    pose proof (references_bound others s (pfPtr pf) HI).
    apply wp_bind, (wp_readShared (pfPtr pf) f); [done|]. rewrite uwrap_small by lia.
    apply wp_bind, wp_modify. fdsimpl.
    assert (Hinv : forall h m, (forall q, q <> pfPtr pf -> m !! q = sharedFiles s !! q) ->
      match m !! pfPtr pf with
      | Some g => frefCount g = frefCount f - 1 /\ 0 < frefCount g | None => frefCount f = 1 end ->
      share_inv others (set_inline (<[i := setFlags 0 pf]> (inlineFDs s)) (set_shared m (set_kmem h s)))).
    { intros h m Hm Hmp. eapply (share_inv_update others s _ i pf (setFlags 0 pf)); [done|done|done|done|].
      intros q. fdsimpl. rewrite (shares_unshared q (setFlags 0 pf)) by done. unfold shares at 1 2. rewrite Hs. cbn [andb].
      destruct (Z.eqb_spec (pfPtr pf) q) as [<-|Hne].
      - destruct (m !! pfPtr pf); lia.
      - rewrite Hm by congruence. pose proof (si_count others s HI q). destruct (sharedFiles s !! q); lia. }
    destruct (Z.eqb_spec (frefCount f - 1) 0).
    + apply wp_modify. eapply HQ; fdsimpl; [done|done|done| |done].
      eapply (Hinv _ (delete (pfPtr pf) (<[pfPtr pf := _]> (sharedFiles s)))).
      * intros q Hq. by rewrite lookup_delete_ne, lookup_insert_ne by congruence.
      * rewrite lookup_delete_eq. lia.
    + apply wp_ret. eapply HQ; fdsimpl; [done|done|done| |done].
      eapply (Hinv (kmem s) (<[pfPtr pf := _]> (sharedFiles s))).
      * intros q Hq. by rewrite lookup_insert_ne by congruence.
      * rewrite lookup_insert_eq. cbn [frefCount]. lia.
  - unfold onFile, readFile. apply wp_bind, wp_fmap, (wp_readPF i pf); [done|].
    destruct (Hcl eq_refl) as (f & v & Ef). apply wp_bind, (wp_onVfs _ (tt, f) v).
    { unfold fmap, M_fmap, mbind, M_bind. by rewrite Ef. }
    cbn [fst snd].
    apply wp_bind, (wp_updPF i pf); [done|]. apply wp_ret. fdsimpl.
    apply (HQ (setFile f pf)); fdsimpl; [apply list_lookup_insert_eq; by eapply lookup_lt_Some| |done| |done].
    { intros k Hk. by rewrite list_lookup_insert_ne by congruence. }
    rewrite list_insert_insert_eq. eapply (share_inv_update others s _ i pf); [done|done|fdsimpl; done|done|].
    intros q. fdsimpl. rewrite (shares_unshared q pf), (shares_unshared q) by done.
    pose proof (si_count others s HI q). destruct (sharedFiles s !! q); lia.
Qed.

(** C24: [sysClose] of an inline descriptor frees the entry and no other, drops
    exactly the reference it held to a shared file, and frees the shared file
    with the last reference to it: the reference counts stay exact. *)
Theorem sysClose_correct others i pf s :
  share_inv others s -> (i < 8)%nat -> inlineFDs s !! i = Some pf -> fdLock s = false ->
  (has (pflags pf) PROCFILE_FLAG_SHARED = false -> exists f v, fsClose (pfile pf) (vfs s) = Done (f, v)) ->
  wp (sysClose (Z.of_nat i)) s (fun r s' =>
    if has (pflags pf) PROCFILE_FLAG_USED then
      r = 0 /\ share_inv others s' /\ fdLock s' = false /\
      (exists x, inlineFDs s' !! i = Some x /\ pflags x = 0) /\
      forall k, k <> i -> inlineFDs s' !! k = inlineFDs s !! k
    else r = - EBADF /\ s' = s).
Proof.
  intros HI Hi8 Hi Hlock Hcl. unfold sysClose. apply wp_bind, wp_gets. rewrite (readPF_inline i) by done.
  apply wp_bind, (wp_readPF i pf); [done|].
  destruct (has (pflags pf) PROCFILE_FLAG_USED); cbn [negb]; [|by apply wp_ret].
  apply wp_bind, wp_acquireFdLock; [done|]. apply wp_bind.
  eapply (releaseFile_spec others i pf (set_lock true s)); [|done|done|].
  { destruct HI. by split. }
  intros x s' Hx Hk Hfl HI' Hl'. apply wp_bind, (wp_updPF i x); [done|].
  unfold NROF_INLINE_FDS. destruct (Z.geb_spec (Z.of_nat i) 8); [lia|].
  apply wp_bind, wp_ret, wp_bind, wp_modify, wp_ret. fdsimpl. split_and!; [done| |done| |].
  - destruct HI'. by split.
  - exists (setFlags 0 x). split; [|done]. apply list_lookup_insert_eq. by eapply lookup_lt_Some.
  - intros k Hne. rewrite list_lookup_insert_ne by congruence. by apply Hk.
Qed.

(** [copyFD] of an open file makes both entries refer to one shared file and
    keeps the reference counts exact.  A file that was not shared before gets a
    new shared file that starts at offset 0 without flags, whatever its offset
    and flags were. *)
Theorem copyFD_correct others i j pf pf' shared s :
  share_inv others s -> i <> j -> inlineFDs s !! i = Some pf -> inlineFDs s !! j = Some pf' ->
  has (pflags pf) PROCFILE_FLAG_USED = true -> has (pflags pf) PROCFILE_FLAG_PIPE = false ->
  has (pflags pf') PROCFILE_FLAG_SHARED = false -> shared <> 0 -> sharedFiles s !! shared = None ->
  wp (copyFD (Inline (Z.of_nat i)) (Inline (Z.of_nat j)) shared) s (fun _ s' =>
    share_inv others s' /\
    exists p x y, inlineFDs s' !! i = Some x /\ inlineFDs s' !! j = Some y /\
      shares p x = true /\ shares p y = true /\
      (has (pflags pf) PROCFILE_FLAG_SHARED = false ->
       sharedFiles s' !! p = Some (mkFile 0 2 0 (inode (pfile pf)) 0))).
Proof.
  intros HI Hij Hi Hj Hu Hp Hs' Hne0 Hfresh. unfold copyFD.
  apply wp_bind, (wp_readPF i pf); [done|]. rewrite Hu, Hp. cbn [negb].
  apply wp_bind.
  eapply (wp_mono _ _ (fun _ s1 => share_inv others s1 /\ (exists x, inlineFDs s1 !! i = Some x /\
    has (pflags x) PROCFILE_FLAG_SHARED = true /\ has (pflags x) PROCFILE_FLAG_USED = true /\
    has (pflags x) PROCFILE_FLAG_PIPE = false /\ (has (pflags pf) PROCFILE_FLAG_SHARED = false ->
      sharedFiles s1 !! pfPtr x = Some (mkFile 0 1 0 (inode (pfile pf)) 0))) /\ inlineFDs s1 !! j = Some pf')).
  { destruct (has (pflags pf) PROCFILE_FLAG_SHARED) eqn:Hs; cbn [negb].
    { apply wp_ret. split_and!; [done| |done]. exists pf. by rewrite Hs. }
    destruct (Z.eqb_spec shared 0); [done|]. apply wp_bind, wp_modify.
    apply wp_bind, (wp_updPF i pf); [done|]. eapply (wp_updPF i); fdsimpl.
    { apply list_lookup_insert_eq. by eapply lookup_lt_Some. }
    rewrite list_insert_insert_eq. set (x := setPfPtr shared _).
    assert (Hx : has (pflags x) PROCFILE_FLAG_SHARED = true /\ has (pflags x) PROCFILE_FLAG_USED = true /\
      has (pflags x) PROCFILE_FLAG_PIPE = false).
    { unfold x. cbn [pflags setPfPtr setFlags]. by rewrite !has_lor, Hu, Hp, orb_true_r. }
    destruct Hx as (Hx1 & Hx2 & Hx3). split_and!; [| |by rewrite list_lookup_insert_ne by done].
    - eapply (share_inv_update others s _ i pf x); [done|done|fdsimpl; done|done|].
      intros q. fdsimpl. rewrite (shares_unshared q pf) by done. unfold shares, x. rewrite pfPtr_set. fold x. rewrite Hx1. cbn [andb].
      pose proof (si_count others s HI q) as Hc. destruct (Z.eqb_spec shared q) as [<-|Hne].
      + rewrite lookup_insert_eq. rewrite Hfresh in Hc. cbn [frefCount]. lia.
      + rewrite lookup_insert_ne by done. destruct (sharedFiles s !! q); lia.
    - exists x. split_and!; [apply list_lookup_insert_eq; by eapply lookup_lt_Some|done..|].
      intros _. unfold x. rewrite pfPtr_set. apply lookup_insert_eq. }
  intros _ s1 (HI1 & (x & Hx & Hxs & Hxu & Hxp & Hnew) & Hj1).
  destruct (shared_exists others s1 i x HI1 Hx Hxs) as (f & Hf & Hc & Hpos).
  pose proof (references_bound others s1 (pfPtr x) HI1).
  apply wp_bind, (wp_readPF i x); [done|]. apply wp_bind, (wp_updPF j pf'); [done|].
  apply wp_bind. eapply (wp_updPF j); fdsimpl.
  { apply list_lookup_insert_eq. by eapply lookup_lt_Some. }
  rewrite list_insert_insert_eq. set (y := setPfPtr (pfPtr x) _).
  assert (Hy : forall q, shares q y = (pfPtr x =? q)).
  { intros q. unfold shares, y. rewrite pfPtr_set. cbn [pflags setPfPtr setFlags]. by rewrite Hxs. }
  apply wp_bind, (wp_readShared (pfPtr x) f); [done|]. apply wp_modify. rewrite uwrap_small by lia. split.
  - eapply (share_inv_update others s1 _ j pf' y); [done|done|fdsimpl; done|intros _; by split|].
    intros q. fdsimpl. rewrite (shares_unshared q pf'), Hy by done.
    pose proof (si_count others s1 HI1 q). destruct (Z.eqb_spec (pfPtr x) q) as [<-|Hne].
    + rewrite lookup_insert_eq. cbn [frefCount]. lia.
    + rewrite lookup_insert_ne by done. destruct (sharedFiles s1 !! q); lia.
  - exists (pfPtr x), x, y. fdsimpl. rewrite Hy. unfold shares. rewrite Hxs, Z.eqb_refl. split_and!; [by rewrite list_lookup_insert_ne by done| |done|done|].
    + apply list_lookup_insert_eq. by eapply lookup_lt_Some.
    + intros Hs. specialize (Hnew Hs). rewrite Hf in Hnew. injection Hnew as ->. apply lookup_insert_eq.
Qed.

Lemma sysOpen_prefix i pf dirfd path flags s Q :
  fdLock s = false -> length (inlineFDs s) = 8%nat -> first_unused (inlineFDs s) i -> inlineFDs s !! i = Some pf ->
  validateUserString path = 0 -> has flags SYSOPEN_FLAG_DIR && has flags SYSOPEN_FLAG_WRITE = false ->
  let x := mkPF PROCFILE_FLAG_USED (mkFile (flock (pfile pf)) (frefCount (pfile pf)) (Z.land flags OPEN_MODES)
    (inode (pfile pf)) (offset (pfile pf))) in
  let s1 := set_inline (<[i := x]> (inlineFDs s)) s in
  wp (cwd ← getCwd dirfd; inode ← lookupPath cwd path.2;
      if (inode =? 0) && has flags SYSOPEN_FLAG_CREATE then openCreate (Inline (Z.of_nat i)) (Z.of_nat i) cwd path.2 flags
      else if has flags SYSOPEN_FLAG_EXCL then mret (- EEXIST)
      else if inode =? 0 then mret (- ENOENT)
      else openExisting (Inline (Z.of_nat i)) (Z.of_nat i) inode flags) s1 Q ->
  wp (sysOpen stale dirfd path flags) s Q.
Proof.
  intros Hlock Hlen Hf Hi Hv Hfl x s1 HQ. unfold sysOpen. rewrite Hfl, Hv. cbn [Z.eqb negb].
  apply wp_bind, wp_acquireFdLock; [done|]. apply wp_bind, (allocateFD_inline stale i pf); [done|done|done|]. fdsimpl.
  apply wp_bind, wp_modify. fdsimpl.
  assert (Hlt : (i < length (inlineFDs s))%nat) by (by eapply lookup_lt_Some).
  apply wp_bind, wp_fmap, (wp_readPF i (setFlags PROCFILE_FLAG_USED pf)); fdsimpl; [by apply list_lookup_insert_eq|].
  apply wp_bind, (wp_updPF i (setFlags PROCFILE_FLAG_USED pf)); fdsimpl; [by apply list_lookup_insert_eq|].
  rewrite list_insert_insert_eq. unfold s1 in HQ. destruct s. cbn in *. subst. exact HQ.
Qed.

Fixpoint unused (l : list ProcessFile) : nat :=
  match l with
  | [] => 0
  | pf :: l => (if has (pflags pf) PROCFILE_FLAG_USED then 0 else 1) + unused l
  end%nat.

Lemma unused_cases l :
  (unused l = 0%nat /\ forall pf, pf ∈ l -> has (pflags pf) PROCFILE_FLAG_USED = true) \/
  exists i pf, first_unused l i /\ l !! i = Some pf /\
    forall x, has (pflags x) PROCFILE_FLAG_USED = true -> unused l = S (unused (<[i := x]> l)).
Proof.
  induction l as [|y l IH]; [left; split; [done|intros ? []%elem_of_nil]|]. cbn [unused].
  destruct (has (pflags y) PROCFILE_FLAG_USED) eqn:Hy.
  - destruct IH as [[-> IH]|(i & pf & [(z & Hz & Hu) Hf] & Hi & IH)].
    + left. split; [done|]. intros pf [->|Hin]%elem_of_cons; auto.
    + right. exists (S i), pf. split_and!; [|done|].
      * split; [by exists z|]. intros [|k] w Hk Hw; [by injection Hw as <-|]. apply (Hf k w); [lia|done].
      * intros x Hx. change (<[S i := x]> (y :: l)) with (y :: <[i := x]> l). cbn [unused].
        rewrite Hy. by apply IH.
  - right. exists 0%nat, y. split_and!; [|done|].
    + split; [by exists y|]. intros k pf Hk. lia.
    + intros x Hx. change (<[0%nat := x]> (y :: l)) with (x :: l). cbn [unused]. by rewrite Hx.
Qed.

Fixpoint opens (n : nat) (path : Z * list Z) (flags : Z) : M (proc H V) unit :=
  match n with
  | O => mret tt
  | S n => sysOpen stale AT_FDCWD path flags;; opens n path flags
  end.

(** C38: A failed [sysOpen] keeps the descriptor it has allocated.  When a process
    has failed to open a missing file once for every free inline descriptor, the
    next attempt finds none, allocates a table for more, and dereferences the
    null pointer [file], which that branch does not set. *)
Theorem failed_opens_crash path flags s :
  fdLock s = false -> length (inlineFDs s) = 8%nat -> fds s = 0 -> (kmalloc sizeofProcessFile (kmem s)).1 <> 0 ->
  validateUserString path = 0 -> has flags SYSOPEN_FLAG_DIR && has flags SYSOPEN_FLAG_WRITE = false ->
  has flags SYSOPEN_FLAG_CREATE = false -> getInodeFromPath (cwd s) path.2 (vfs s) = Done (0, vfs s) ->
  opens (S (unused (inlineFDs s))) path flags s = Fault.
Proof.
  intros Hlock Hlen Hfds Hk Hv Hfl Hc Hm. remember (unused (inlineFDs s)) as n eqn:En.
  revert s En Hlock Hlen Hfds Hk Hm. induction n as [|n IH]; intros s En Hlock Hlen Hfds Hk Hm;
    destruct (unused_cases (inlineFDs s)) as [[E Hall]|(i & pf & Hf & Hi & Hu)]; [| |lia|].
  - cbn [opens]. apply bind_fault. unfold sysOpen. rewrite Hfl, Hv. cbn [Z.eqb negb].
    rewrite (bind_done _ _ s tt (set_lock true s)) by (unfold acquireFdLock; by rewrite Hlock).
    apply bind_fault. unfold allocateFD. rewrite !bind_gets. fdsimpl.
    rewrite take_ge, findUnused_none, Hfds by (done || lia). cbn [Z.eqb].
    destruct (kmalloc sizeofProcessFile (kmem s)) as [p h] eqn:Ek. simpl in Hk.
    rewrite (bind_done _ _ _ p (set_kmem h (set_lock true s))) by (unfold onMem; fdsimpl; by rewrite Ek).
    by destruct (Z.eqb_spec p 0).
  - specialize (Hu (mkPF PROCFILE_FLAG_USED (pfile pf)) eq_refl). lia.
  - cbn [opens].
    set (x := mkPF PROCFILE_FLAG_USED (mkFile (flock (pfile pf)) (frefCount (pfile pf)) (Z.land flags OPEN_MODES)
      (inode (pfile pf)) (offset (pfile pf)))).
    assert (Hs : wp (sysOpen stale AT_FDCWD path flags) s (fun _ s' => s' = set_inline (<[i := x]> (inlineFDs s)) s)).
    { apply (sysOpen_prefix i pf); [done..|]. apply wp_bind, wp_gets, wp_bind, (wp_onVfs _ 0 (vfs s)); [done|].
      assert (E : forall s : proc H V, set_vfs (vfs s) s = s) by (by intros []).
      change (vfs s) with (vfs (set_inline (<[i := x]> (inlineFDs s)) s)) at 1. rewrite E, Hc. cbn [Z.eqb andb]. destruct (has flags SYSOPEN_FLAG_EXCL); by apply wp_ret. }
    apply wp_done in Hs as (r & s' & Hr & ->). rewrite (bind_done _ _ _ _ _ Hr).
    apply IH; fdsimpl; [|done|by rewrite length_insert|done|done|done].
    specialize (Hu x eq_refl). lia.
Qed.

(** [sysOpen] asks for the read permission with the bit of the flag
    [SYSOPEN_FLAG_CLOEXEC]: a file that the caller may not read is opened for
    reading. *)
Theorem sysOpen_ignores_read_permission i n path s :
  fdLock s = false -> length (inlineFDs s) = 8%nat -> first_unused (inlineFDs s) i -> validateUserString path = 0 ->
  n <> 0 -> getInodeFromPath (cwd s) path.2 (vfs s) = Done (n, vfs s) ->
  fsAccessAllowed n 0 (vfs s) = Done (true, vfs s) -> fsAccessAllowed n PERM_R (vfs s) = Done (false, vfs s) ->
  (exists t, inodeType n (vfs s) = Done (t, vfs s)) -> (forall f, exists v, fsOpen f (vfs s) = Done ((0, f), v)) ->
  wp (sysOpen stale AT_FDCWD path SYSOPEN_FLAG_READ) s (fun r s' =>
    r = Z.of_nat i /\ exists pf, inlineFDs s' !! i = Some pf /\
      pflags pf = PROCFILE_FLAG_USED /\ fflags (pfile pf) = SYSOPEN_FLAG_READ /\ inode (pfile pf) = n).
Proof.
  intros Hlock Hlen Hf Hv Hn Hm Hok _ [t Ht] Hopen. destruct (proj1 Hf) as (pf & Hi & _).
  assert (Hlt : (i < length (inlineFDs s))%nat) by (by eapply lookup_lt_Some).
  apply (sysOpen_prefix i pf); [done..|]. set (x := mkPF _ _).
  apply wp_bind, wp_gets, wp_bind, (wp_onVfs _ n (vfs s)); [done|].
  destruct (Z.eqb_spec n 0); [done|]. cbn [andb]. change (has SYSOPEN_FLAG_READ SYSOPEN_FLAG_EXCL) with false. cbv iota.
  unfold openExisting. change (Z.lor _ _) with 0. apply wp_bind, (wp_onVfs _ true (vfs s)); [done|]. cbn [negb].
  apply wp_bind, wp_fmap, (wp_readPF i x); fdsimpl; [by apply list_lookup_insert_eq|].
  apply wp_bind, (wp_updPF i x); fdsimpl; [by apply list_lookup_insert_eq|]. rewrite list_insert_insert_eq.
  apply wp_bind, (wp_onVfs _ t (vfs s)); [done|]. fdsimpl.
  change (has SYSOPEN_FLAG_READ SYSOPEN_FLAG_TRUNC) with false. cbn [andb]. apply wp_bind, wp_ret.
  cbn [Z.eqb negb]. apply wp_bind. unfold onFile, readFile. apply wp_bind, wp_fmap. eapply (wp_readPF i); fdsimpl.
  { by apply list_lookup_insert_eq. }
  destruct (Hopen (pfile (setFile (mkFile (flock (pfile x)) (frefCount (pfile x)) (fflags (pfile x)) n (offset (pfile x))) x))) as [v Ev].
  apply wp_bind. eapply (wp_onVfs _ _ v); [exact Ev|]. cbn [fst snd]. apply wp_bind. eapply (wp_updPF i); fdsimpl.
  { by apply list_lookup_insert_eq. }
  apply wp_ret, wp_ret. fdsimpl. split; [done|]. eexists. split; [rewrite list_insert_insert_eq; by apply list_lookup_insert_eq|done].
Qed.
End properties.

(** ** Witnesses *)

Section witnesses.
(** Memory that hands out fresh addresses, and a file system with one inode, 7,
    that may be written but not read. *)
#[local] Instance bump : KernelMemory Z := {
  kmalloc _ h := (h, h + 64); krealloc _ _ h := (h, h + 64); kfree _ h := h;
  allocKPages _ h := (h, h + 4096); deallocPages _ _ h := h
}.
#[local] Instance one_inode : Vfs unit := {
  fsWrite f _ _ := mret (0, f); fsRead f _ _ := mret (0, f); fsOpen f := mret (0, f); fsClose f := mret f;
  fsTruncate f _ := mret (0, f); fsSeek f _ _ := mret (0, f); fsCreate f _ _ _ := mret (0, f);
  fsGetDent _ _ _ := mret 0; fsUnlink _ _ := mret 0; fsRename _ _ _ _ _ := mret 0;
  fsAccessAllowed _ mode := mret (Z.land mode PERM_R =? 0);
  getInodeFromPath _ path := mret (if decide (path = [97]) then 7 else 0);
  getBaseDirFromPath _ _ := mret (0, 0); inodeType _ := mret ITYPE_FILE;
  lockInode _ := mret tt; unlockInode _ := mret tt; addInodeRef _ _ := mret tt; devIoctl _ _ _ := mret None;
  pipeWrite _ _ _ := mret 0; pipeRead _ _ _ := mret 0
}.
Definition no_file : File := mkFile 0 0 0 0 0.
Definition free_entry : ProcessFile := mkPF 0 no_file.
Definition fd_demo : proc Z unit :=
  mkProc (mkPF 1 (mkFile 0 0 2 7 100) :: replicate 7 free_entry) 0 0 0 false 1 ∅ ∅ ∅ ∅ 4096 tt.

Lemma fd_demo_first : first_unused (inlineFDs fd_demo) 1.
Proof. split; [by exists free_entry|]. intros [|k] pf Hk Hl; [by injection Hl as <-|lia]. Qed.

Lemma fd_demo_inv : share_inv (fun _ => 0) fd_demo.
Proof.
  split; [done|done| |by vm_compute].
  intros i pf Hi Hs. do 8 (destruct i as [|i]; [injection Hi as <-; by vm_compute in Hs|]). done.
Qed.

Lemma validateUserPointer_safe_witness :
  validateUserPointer 0x1000 4096 = 0 /\ 0 <= 0x1000 < 2 ^ 47 /\ 0x1000 + 4096 <= USER_END.
Proof. split; [done|]. by apply (validateUserPointer_safe 0x1000 4096). Defined.

Lemma sysPipe_correct_witness :
  wp (sysPipe free_entry 0x1000 0) fd_demo (fun r s' =>
    r = 0 /\ fdLock s' = false /\
    userInts s' !! 0x1000 = Some (Z.of_nat 1) /\ userInts s' !! u64 (0x1000 + 4) = Some (Z.of_nat 2) /\
    pipes s' !! 8192 = Some (mkPipeObj 4096 2 newPipe) /\
    wp (getFileFromFD (Z.of_nat 1)) s' (fun x _ => x = (1, FPPipe 8192)) /\
    wp (getFileFromFD (Z.of_nat 2)) s' (fun x _ => x = (3, FPPipe 8192)) /\
    forall k, k <> 1%nat -> k <> 2%nat -> inlineFDs s' !! k = inlineFDs fd_demo !! k).
Proof.
  apply (sysPipe_correct free_entry 0x1000 0 1 2 fd_demo 4096 8192 8192 8256); try done; [lia|exact fd_demo_first|].
  split; [by exists free_entry|]. intros [|[|k]] pf Hk Hl; [by injection Hl as <-|by injection Hl as <-|lia].
Defined.

Lemma sysClose_correct_witness :
  wp (sysClose (Z.of_nat 0)) fd_demo (fun r s' =>
    r = 0 /\ share_inv (fun _ => 0) s' /\ fdLock s' = false /\
    (exists x, inlineFDs s' !! 0%nat = Some x /\ pflags x = 0) /\
    forall k, k <> 0%nat -> inlineFDs s' !! k = inlineFDs fd_demo !! k).
Proof. apply (sysClose_correct (fun _ => 0) 0 (mkPF 1 (mkFile 0 0 2 7 100)) fd_demo fd_demo_inv); [lia|done|done|].
  intros _. by exists (mkFile 0 0 2 7 100), tt.
Defined.

Lemma copyFD_correct_witness :
  wp (copyFD (Inline (Z.of_nat 0)) (Inline (Z.of_nat 1)) 64) fd_demo (fun _ s' =>
    share_inv (fun _ => 0) s' /\
    exists p x y, inlineFDs s' !! 0%nat = Some x /\ inlineFDs s' !! 1%nat = Some y /\
      shares p x = true /\ shares p y = true /\
      (has 1 PROCFILE_FLAG_SHARED = false -> sharedFiles s' !! p = Some (mkFile 0 2 0 7 0))).
Proof.
  apply (copyFD_correct (fun _ => 0) 0 1 (mkPF 1 (mkFile 0 0 2 7 100)) free_entry 64 fd_demo fd_demo_inv); done || lia.
Defined.

Lemma failed_opens_crash_witness : opens free_entry 8 (0x1000, [98]) 2 fd_demo = Fault.
Proof. apply (failed_opens_crash free_entry (0x1000, [98]) 2 fd_demo); done. Defined.

Lemma sysOpen_ignores_read_permission_witness :
  wp (sysOpen free_entry AT_FDCWD (0x1000, [97]) SYSOPEN_FLAG_READ) fd_demo (fun r s' =>
    r = Z.of_nat 1 /\ exists pf, inlineFDs s' !! 1%nat = Some pf /\
      pflags pf = PROCFILE_FLAG_USED /\ fflags (pfile pf) = SYSOPEN_FLAG_READ /\ inode (pfile pf) = 7).
Proof. apply (sysOpen_ignores_read_permission free_entry 1 7 (0x1000, [97]) fd_demo); try done.
  - exact fd_demo_first.
  - by exists ITYPE_FILE.
  - intros f. by exists tt.
Defined.
End witnesses.
