(* ===== verification/FileSystem.v ===== *)
(** * The file system: [kernel/fs/main.c], [dircache.c], [open.c], [link.c],
    [rename.c], [devfile.c], [stat.c], and [fsTruncate] of [readwrite.c]

    Inodes are objects in a shared store, by address.  A directory caches its
    entries in an array on the kernel heap; an entry holds a short name inline
    and a pointer to a long one.  Names and paths are lists of non-zero
    characters.  Taking a spinlock that is held is a fault: the model runs one
    thread, and that thread would spin for ever. *)

From S2P Require Import Prelude Word Errno Fd.

Definition INLINENAME_MAX : Z := 32.
Definition RAMFS_INITRD : Z := 2.
Definition RAMFS_DEVFILE : Z := 3.
Definition PERM_MASK : Z := 7.
Definition PERM_OTHERS : Z := 0.
Definition PERM_GROUP : Z := 3.
Definition PERM_OWNER : Z := 6.
Definition RENAME_NOREPLACE : Z := 1.
Definition SEEK_SET : Z := 0.
Definition SEEK_CUR : Z := 1.
Definition SEEK_END : Z := 2.

(** The union of [char *name] and [char inlineName[32]]. *)
Inductive dname := Inlined (chars : list Z) | Long (p : Z).
Record DirEntry := mkDirent { dinode : Z; dparent : Z; dindex : Z; nameLen : Z; dname_of : dname }.
(** One page of file data. *)
Record CfEntry := mkCf { addr : Z; fileOffset : Z; dirty : bool; lastAccessed : Z }.

(** [void *cachedData]: entries of a directory, the pages of a file, or
    another address.  The first two carry the address of the array. *)
Inductive cache := NoCache | DirCache (p : Z) (l : list DirEntry) | FileCache (p : Z) (l : list CfEntry) | RawCache (p : Z).

Record Inode := mkInode {
  inodeID : Z; itype : Z; refCount : Z; nrofLinks : Z; ramfs : Z; fileSize : Z; superBlock : Z;
  ilock : bool; iuid : Z; igid : Z; iperm : Z; cacheDirty : bool; cachedData : cache; cachedDataSize : Z; ops : Z
}.

(** The ids of the running process that the file system looks at; [None] for
    a kernel thread. *)
Record caller_ids := mkIds { ceuid : Z; cegid : Z; cgroups : list Z }.

Record fs (H : Type) := mkFs {
  inodes : gmap Z Inode;
  longNames : gmap Z (list Z);
  supers : gmap Z Z;                       (* [curInodeID] of a super block *)
  rootDir : Z;
  caller : option caller_ids;
  heap : H;
  bytes : gmap Z Z;                        (* user memory and file pages *)
  jiffyCounter : Z
}.
Arguments mkFs {H}.
Arguments inodes {H}.
Arguments longNames {H}.
Arguments supers {H}.
Arguments rootDir {H}.
Arguments caller {H}.
Arguments heap {H}.
Arguments bytes {H}.
Arguments jiffyCounter {H}.

(** [struct DevFileOps] of a character device, over the state of the system. *)
Record DevFileOps (S : Type) := mkOps {
  opRead : option (File -> Z -> Z -> M S (Z * File));
  opWrite : option (File -> Z -> Z -> M S (Z * File));
  opIoctl : option (File -> Z -> Z -> M S (Z * File));
  opDel : option (Z -> M S Z);
  opClose : option (File -> M S File)
}.
Arguments opRead {S}.
Arguments opWrite {S}.
Arguments opIoctl {S}.
Arguments opDel {S}.
Arguments opClose {S}.

Definition PAGE_SIZE : Z := 4096.
Definition sizeofDirEntry : Z := 64.
Definition sizeofInode : Z := 120.
Definition isDirInode (i : Inode) : bool := Z.land (itype i) ITYPE_MASK =? ITYPE_DIR.
Definition isCharInode (i : Inode) : bool := Z.land (itype i) ITYPE_MASK =? ITYPE_CHAR.

Definition i_lock (b : bool) (i : Inode) : Inode :=
  mkInode (inodeID i) (itype i) (refCount i) (nrofLinks i) (ramfs i) (fileSize i) (superBlock i) b (iuid i) (igid i) (iperm i) (cacheDirty i) (cachedData i) (cachedDataSize i) (ops i).
Definition i_refs (n : Z) (i : Inode) : Inode :=
  mkInode (inodeID i) (itype i) n (nrofLinks i) (ramfs i) (fileSize i) (superBlock i) (ilock i) (iuid i) (igid i) (iperm i) (cacheDirty i) (cachedData i) (cachedDataSize i) (ops i).
Definition i_links (n : Z) (i : Inode) : Inode :=
  mkInode (inodeID i) (itype i) (refCount i) n (ramfs i) (fileSize i) (superBlock i) (ilock i) (iuid i) (igid i) (iperm i) (cacheDirty i) (cachedData i) (cachedDataSize i) (ops i).
Definition i_attr (u g p : Z) (i : Inode) : Inode :=
  mkInode (inodeID i) (itype i) (refCount i) (nrofLinks i) (ramfs i) (fileSize i) (superBlock i) (ilock i) u g p (cacheDirty i) (cachedData i) (cachedDataSize i) (ops i).
(** New contents: size, cache, its size, and the dirty mark. *)
Definition i_data (n : Z) (d : bool) (c : cache) (sz : Z) (i : Inode) : Inode :=
  mkInode (inodeID i) (itype i) (refCount i) (nrofLinks i) (ramfs i) n (superBlock i) (ilock i) (iuid i) (igid i) (iperm i) d c sz (ops i).
Definition i_cache (c : cache) (i : Inode) : Inode := i_data (fileSize i) (cacheDirty i) c (cachedDataSize i) i.

(** [findChar] of [mm/memset.h]: the first index from [pos] on, or -1. *)
Fixpoint findCharIn (str : list Z) (c i : Z) : Z :=
  match str with
  | [] => -1
  | x :: str => if x =? c then i else findCharIn str c (i + 1)
  end.
Definition findChar (str : list Z) (c pos : Z) : Z := findCharIn (drop (Z.to_nat pos) str) c pos.

Definition sub (str : list Z) (start n : Z) : list Z := take (Z.to_nat n) (drop (Z.to_nat start) str).
Definition len (str : list Z) : Z := Z.of_nat (length str).

Section fs.
Context {H : Type} `{KernelMemory H}.
Notation fsM := (M (fs H)).
(** The device drivers, by the address of their operations. *)
Context (devices : Z -> option (DevFileOps (fs H))).
(** The index that [getBaseDirFromPath] leaves unset for the path "/". *)
Context (unset : Z).

Definition set_inodes (m : gmap Z Inode) (s : fs H) : fs H :=
  mkFs m (longNames s) (supers s) (rootDir s) (caller s) (heap s) (bytes s) (jiffyCounter s).
Definition set_names (m : gmap Z (list Z)) (s : fs H) : fs H :=
  mkFs (inodes s) m (supers s) (rootDir s) (caller s) (heap s) (bytes s) (jiffyCounter s).
Definition set_supers (m : gmap Z Z) (s : fs H) : fs H :=
  mkFs (inodes s) (longNames s) m (rootDir s) (caller s) (heap s) (bytes s) (jiffyCounter s).
Definition set_heap (h : H) (s : fs H) : fs H :=
  mkFs (inodes s) (longNames s) (supers s) (rootDir s) (caller s) h (bytes s) (jiffyCounter s).
Definition set_bytes (m : gmap Z Z) (s : fs H) : fs H :=
  mkFs (inodes s) (longNames s) (supers s) (rootDir s) (caller s) (heap s) m (jiffyCounter s).

Definition onHeap {A} (f : H -> A * H) : fsM A := fun s => let '(a, h) := f (heap s) in Done (a, set_heap h s).
Definition getInode (i : Z) : fsM Inode := deref (fun s => inodes s !! i).
Definition putInode (i : Z) (x : Inode) : fsM unit := modify (fun s => set_inodes (<[i := x]> (inodes s)) s).
Definition updInode (i : Z) (f : Inode -> Inode) : fsM unit := x ← getInode i; putInode i (f x).
Definition acquire (i : Z) : fsM unit := x ← getInode i; if ilock x then fault else putInode i (i_lock true x).
Definition release (i : Z) : fsM unit := updInode i (i_lock false).

(** [kmalloc(n)] for a string: the pointer, 0 on failure. *)
Definition newString (n : Z) (str : list Z) : fsM Z :=
  p ← onHeap (kmalloc n);
  (if p =? 0 then mret tt else modify (fun s => set_names (<[p := str]> (longNames s)) s));;
  mret p.
Definition freeString (p : Z) : fsM unit :=
  modify (fun s => set_heap (kfree p (heap s)) (set_names (delete p (longNames s)) s)).

(** ** Directory caches: [dircache.c] *)

Definition dirEntries (dir : Z) : fsM (Z * list DirEntry) :=
  d ← getInode dir;
  match cachedData d with DirCache p l => mret (p, l) | _ => fault end.

Definition dirCacheAdd (e : DirEntry) (dir : Z) : fsM Z :=
  d ← getInode dir;
  match cachedData d with
  | NoCache => mret (- ENOSYS)
  | DirCache p l =>
    q ← onHeap (krealloc p (cachedDataSize d + sizeofDirEntry));
    if q =? 0 then mret (- ENOMEM)
    else if fileSize d =? Z.of_nat (length l) then
      putInode dir (i_data (u64 (fileSize d + 1)) true
        (DirCache q (l ++ [mkDirent (dinode e) dir (u32 (fileSize d)) (nameLen e) (dname_of e)]))
        (cachedDataSize d + sizeofDirEntry) d);;
      mret 0
    else fault
  | _ => fault
  end.

(** Removes the entry at position [pos]; [memcpy] moves as many entries as
    [entry->index] says. *)
Definition dirCacheRemove (dir : Z) (pos : nat) : fsM unit :=
  d ← getInode dir;
  match cachedData d with
  | DirCache p l =>
    e ← deref (fun _ => l !! pos);
    let count := fileSize d - dindex e - 1 in
    if (count <? 0) || (Z.of_nat (length l) <? Z.of_nat pos + 1 + count) then fault
    else
      let n := Z.to_nat count in
      let moved := take pos l ++ take n (drop (S pos) l) ++ drop (pos + n) l in
      q ← onHeap (krealloc p (cachedDataSize d - sizeofDirEntry));
      putInode dir (i_data (fileSize d - 1) true
        (if q =? 0 then NoCache else DirCache q (take (length l - 1) moved))
        (cachedDataSize d - sizeofDirEntry) d)
  | _ => fault
  end.

(** [memcmp(entryName, name, nameLen)] of an entry whose length fits. *)
Definition sameName (names : gmap Z (list Z)) (e : DirEntry) (name : list Z) : option bool :=
  let chars := if len name >? 31
               then match dname_of e with Long p => names !! p | Inlined _ => None end
               else match dname_of e with Inlined c => Some c | Long _ => None end in
  (fun c => bool_decide (take (length name) c = name)) <$> chars.

(** The search loop: position of the first entry with the name, from [i] on;
    the outer [None] is a read of a name that is not there. *)
Fixpoint findEntry (names : gmap Z (list Z)) (l : list DirEntry) (name : list Z) (i : nat) : option (option nat) :=
  match l with
  | [] => Some None
  | e :: l =>
    if nameLen e =? len name then
      match sameName names e name with
      | None => None
      | Some true => Some (Some i)
      | Some false => findEntry names l name (S i)
      end
    else findEntry names l name (S i)
  end.

Definition dirCacheLookup (dir : Z) (name : list Z) : fsM (option nat) :=
  d ← getInode dir;
  match cachedData d with
  | NoCache => mret None
  | DirCache _ l => if fileSize d <=? Z.of_nat (length l)
                    then deref (fun s => findEntry (longNames s) (take (Z.to_nat (fileSize d)) l) name 0)
                    else fault
  | _ => fault
  end.

Fixpoint freeNames (l : list DirEntry) : fsM unit :=
  match l with
  | [] => mret tt
  | e :: l =>
    (if nameLen e >? 31 then match dname_of e with Long p => freeString p | Inlined _ => fault end else mret tt);;
    freeNames l
  end.
Definition dirCacheDelete (dir : Z) : fsM Z :=
  pl ← dirEntries dir;
  freeNames pl.2;;
  onHeap (fun h => (tt, kfree pl.1 h));;
  mret 0.

(** The entry that [dirCacheGet] copies out: inode number, type and name;
    [None] at the end of the directory. *)
Definition dirCacheGet (dir index : Z) : fsM (option (Z * Z * list Z)) :=
  d ← getInode dir;
  pl ← dirEntries dir;
  if index >=? fileSize d then mret None
  else
    e ← deref (fun _ => pl.2 !! Z.to_nat index);
    i ← getInode (dinode e);
    names ← gets longNames;
    chars ← deref (fun _ => if nameLen e >? 31
                            then match dname_of e with Long p => names !! p | Inlined _ => None end
                            else match dname_of e with Inlined c => Some c | Long _ => None end);
    mret (Some (inodeID i, itype i, take (Z.to_nat (nameLen e)) chars)).

Definition dirCacheInit (dir parent : Z) : fsM Z :=
  p ← onHeap (kmalloc (2 * sizeofDirEntry));
  if p =? 0 then mret (- ENOMEM)
  else
    updInode dir (fun d => i_data 2 (cacheDirty d)
      (DirCache p [mkDirent dir dir 0 1 (Inlined [46]); mkDirent parent dir 0 2 (Inlined [46; 46])])
      (2 * sizeofDirEntry) d);;
    mret 0.

(** ** Paths: [main.c] *)

(** The loop of [getDirEntryFromPath].  With [base] it ends at the last
    component, with the directory and the index of that component; without, at
    its entry, with the directory (whose lock stays taken) and the position. *)
Fixpoint walk (fuel : nat) (base : bool) (path : list Z) (curDir curNameEnd : Z) : fsM (option (Z * Z)) :=
  match fuel with
  | O => nofuel
  | S fuel =>
    let curNameStart := curNameEnd + 1 in
    let slash := findChar path 47 curNameStart in
    if (slash <? 0) || (slash =? len path - 1) then
      let curNameEnd := if slash <? 0 then len path else slash in
      let n := curNameEnd - curNameStart in
      if n >? 255 then fault                           (* char name[256] *)
      else if base then mret (Some (curDir, curNameStart))
      else
        acquire curDir;;
        file ← dirCacheLookup curDir (sub path curNameStart n);
        match file with
        | None => release curDir;; mret None
        | Some pos => mret (Some (curDir, Z.of_nat pos))
        end
    else
      let n := slash - curNameStart in
      if n =? 0 then walk fuel base path curDir slash
      else if n >? 255 then fault
      else
        acquire curDir;;
        entry ← dirCacheLookup curDir (sub path curNameStart n);
        match entry with
        | None => release curDir;; mret None
        | Some pos =>
          pl ← dirEntries curDir;
          e ← deref (fun _ => pl.2 !! pos);
          i ← getInode (dinode e);
          if isDirInode i then release curDir;; walk fuel base path (dinode e) slash
          else release curDir;; mret None
        end
  end.

Definition startsSlash (path : list Z) : bool := match path with c :: _ => c =? 47 | [] => false end.
Definition mountRoot (i : Z) : fsM Z :=
  modify (fun s => mkFs (inodes s) (longNames s) (supers s) i (caller s) (heap s) (bytes s) (jiffyCounter s));; mret 0.
(** [path[0] == '/' && !path[1]] *)
Definition isSlash (path : list Z) : bool := startsSlash path && (length path =? 1)%nat.
Definition getDirEntryFromPath (base : bool) (cwd : Z) (path : list Z) : fsM (option (Z * Z)) :=
  root ← gets rootDir;
  let curDir := if cwd =? 0 then root else cwd in
  if startsSlash path then walk (S (length path)) base path root 0
  else walk (S (length path)) base path curDir (-1).

Definition getInodeFromPath (cwd : Z) (path : list Z) : fsM Z :=
  if bool_decide (path = []) then mret 0
  else if isSlash path then gets rootDir
  else
    entry ← getDirEntryFromPath false cwd path;
    match entry with
    | None => mret 0
    | Some (dir, pos) =>
      pl ← dirEntries dir;
      e ← deref (fun _ => pl.2 !! Z.to_nat pos);
      release (dparent e);;
      mret (dinode e)
    end.

Definition getBaseDirFromPath (cwd : Z) (path : list Z) : fsM (Z * Z) :=
  if bool_decide (path = []) then mret (0, unset)
  else if isSlash path then root ← gets rootDir; mret (root, unset)
  else
    entry ← getDirEntryFromPath true cwd path;
    mret (match entry with Some di => di | None => (0, unset) end).

Definition fsGetDent (dir index : Z) : fsM (Z + option (Z * Z * list Z)) :=
  acquire dir;;
  d ← getInode dir;
  ret ← match cachedData d with
        | NoCache => mret (inl (- ENOSYS))
        | _ => inr <$> dirCacheGet dir index
        end;
  release dir;;
  mret ret.

Fixpoint inGroups (groups : list Z) (gid : Z) : bool :=
  match groups with [] => false | g :: groups => if g =? gid then true else inGroups groups gid end.

(** The permission bits of one class. *)
Definition permits (perm shift mode : Z) : bool :=
  Z.land mode (Z.land (Z.shiftr perm shift) PERM_MASK) =? mode.
Definition fsAccessAllowed (i mode : Z) : fsM bool :=
  c ← gets caller;
  match c with
  | None => mret true
  | Some c =>
    if ceuid c =? 0 then mret true
    else
      x ← getInode i;
      mret (if ceuid c =? iuid x then permits (iperm x) PERM_OWNER mode
            else if (cegid c =? igid x) || inGroups (cgroups c) (igid x) then permits (iperm x) PERM_GROUP mode
            else permits (iperm x) PERM_OTHERS mode)
  end.

(** ** [fsTruncate] of [readwrite.c] *)

(** The first loop: the pages from [newSize] on are released. *)
Fixpoint dropPages (l : list CfEntry) (newSize : Z) : fsM (list CfEntry) :=
  match l with
  | [] => mret []
  | e :: l =>
    (if fileOffset e <? newSize then mret tt else onHeap (fun h => (tt, deallocPages (addr e) PAGE_SIZE h)));;
    l ← dropPages l newSize;
    mret ((if fileOffset e <? newSize then e else mkCf 0 (fileOffset e) (dirty e) (lastAccessed e)) :: l)
  end.

(** The copy loop: [oldIndex] is advanced while [entries[i]] has no page, but
    it is [entries[i]] that is copied; [None] is the panic. *)
Fixpoint keepPages (n : nat) (cf : list CfEntry) (i oldIndex : nat) : option (list CfEntry) :=
  match n with
  | O => Some []
  | S n =>
    match cf !! i with
    | Some e => if (oldIndex <? length cf)%nat && negb (addr e =? 0)
                then cons e <$> keepPages n cf (S i) (S oldIndex) else None
    | None => None
    end
  end.

Definition sizeofCachedFile : Z := 32.
Definition fsTruncate (f : File) (newSize : Z) : fsM (Z * File) :=
  if negb (flock f =? 0) then fault
  else
    let i := inode f in
    let unlocked := mkFile 0 (frefCount f) (fflags f) (inode f) (offset f) in
    acquire i;;
    x ← getInode i;
    error ←
      (if negb (Z.land (itype x) ITYPE_MASK =? ITYPE_FILE) then mret (- EISDIR)
       else if newSize >? fileSize x then mret (- ENOSYS)
       else
         match cachedData x with
         | NoCache => mret 0
         | FileCache p cf =>
           cf ← dropPages cf newSize;
           let n := length (filter (fun e => fileOffset e < newSize) cf) in
           (if (n =? 0)%nat then updInode i (i_cache NoCache)
            else
              (* room for one entry and n - 1 bytes *)
              q ← onHeap (kmalloc (sizeofCachedFile + (Z.of_nat n - 1)));
              if (q =? 0) || (1 <? n)%nat then fault
              else
                cf ← deref (fun _ => keepPages n cf 0 0);
                updInode i (i_cache (FileCache q cf)));;
           onHeap (fun h => (tt, kfree p h));;
           mret 0
         | _ => fault
         end);
    release i;;
    mret (error, unlocked).

(** ** Opening, closing, creating: [open.c] *)

Definition setPerm (i mode : Z) : fsM unit :=
  c ← gets caller;
  match c with
  | None => updInode i (fun x => i_attr (iuid x) (igid x) mode x)
  | Some c => updInode i (i_attr (ceuid c) (cegid c) mode)
  end.

Definition fsOpen (f : File) : fsM (Z * File) :=
  let f := mkFile 0 1 (fflags f) (inode f) (offset f) in
  let i := inode f in
  acquire i;;
  x ← getInode i;
  if has (fflags f) SYSOPEN_FLAG_DIR && negb (isDirInode x) then release i;; mret (- ENOTDIR, f)
  else
    let f := if has (fflags f) SYSOPEN_FLAG_APPEND
             then mkFile 0 1 (Z.land (fflags f) (Z.lnot SYSOPEN_FLAG_APPEND)) i (fileSize x)
             else mkFile 0 1 (fflags f) i 0 in
    updInode i (fun x => i_refs (s32 (refCount x + 1)) x);;
    release i;;
    mret (0, f).

Definition fsClose (f : File) : fsM File :=
  if negb (flock f =? 0) then fault
  else
    let i := inode f in
    if i =? 0 then mret f
    else
      acquire i;;
      x ← getInode i;
      f ← (if isCharInode x then
             match devices (ops x) ≫= opClose with
             | Some close => close (mkFile 1 (frefCount f) (fflags f) i (offset f))
             | None => mret f
             end
           else mret f);
      updInode i (fun x => i_refs (s32 (refCount x - 1)) x);;
      release i;;
      mret (mkFile 0 (frefCount f) (fflags f) 0 (offset f)).

(** The name of a new entry; [None] if there is no memory. *)
Definition entryName (name : list Z) : fsM (option dname) :=
  if len name >? 31 then
    p ← newString (len name + 1) name;
    mret (if p =? 0 then None else Some (Long p))
  else mret (Some (Inlined name)).
Definition freeName (n : dname) : fsM unit :=
  match n with Long p => freeString p | Inlined _ => mret tt end.

Definition fsCreate (f : option File) (dir : Z) (name : list Z) (type : Z) : fsM (Z * option File) :=
  n ← entryName name;
  match n with
  | None => mret (- ENOMEM, f)
  | Some n =>
    acquire dir;;
    d ← getInode dir;
    if ramfs d =? 0 then mret (- ENOSYS, f)            (* dir stays locked *)
    else
      i ← onHeap (kmalloc sizeofInode);
      if i =? 0 then mret (- ENOMEM, f)                (* dir stays locked *)
      else
        id ← deref (fun s => supers s !! superBlock d);
        modify (fun s => set_supers (<[superBlock d := u32 (id + 1)]> (supers s)) s);;
        putInode i (mkInode id (Z.land type 0xFF) 0 1 (ramfs d) 0 (superBlock d) false 0 0 0 false NoCache 0 0);;
        setPerm i (Z.shiftr type CREATE_PERM_SHIFT);;
        x ← getInode i;
        (if isDirInode x then dirCacheInit i dir;; mret tt else mret tt);;
        error ← dirCacheAdd (mkDirent i 0 0 (len name) n) dir;
        release dir;;
        if negb (error =? 0) then
          modify (fun s => set_heap (kfree i (heap s)) (set_inodes (delete i (inodes s)) s));;
          freeName n;;
          mret (error, f)
        else
          match f with
          | None => mret (0, f)
          | Some f =>
            r ← fsOpen (mkFile (flock f) (frefCount f) (fflags f) i (offset f));
            mret (0, Some r.2)
          end
  end.

Definition fsCreateCharDev (dir : Z) (name : list Z) (devops privateData : Z) : fsM Z :=
  n ← entryName name;
  match n with
  | None => mret 0
  | Some n =>
    acquire dir;;
    i ← onHeap (kmalloc sizeofInode);
    if i =? 0 then fault                               (* memset(NULL, ...) *)
    else
      d ← getInode dir;
      putInode i (mkInode 0 ITYPE_CHAR 0 1 RAMFS_DEVFILE 0 (superBlock d) false 0 0 432 false
        (if privateData =? 0 then NoCache else RawCache privateData) 0 devops);;
      error ← dirCacheAdd (mkDirent i 0 0 (len name) n) dir;
      release dir;;
      if negb (error =? 0) then
        modify (fun s => set_heap (kfree i (heap s)) (set_inodes (delete i (inodes s)) s));;
        mret 0
      else mret i
  end.

(** ** Links: [link.c] *)

Definition fsLink (dir i : Z) (name : list Z) : fsM Z :=
  acquire i;;
  x ← getInode i;
  if negb (nrofLinks x =? 0) && isDirInode x then release i;; mret (- EISDIR)
  else
    n ← entryName name;
    match n with
    | None => mret (- ENOMEM)                          (* inode stays locked *)
    | Some n =>
      acquire dir;;
      updInode i (fun x => i_links (u32 (nrofLinks x + 1)) x);;
      dirCacheAdd (mkDirent i 0 0 (len name) n) dir;;  (* result not looked at *)
      release dir;;
      release i;;
      mret 0
    end.

Definition deleteInode (i : Z) : fsM Z :=
  x ← getInode i;
  if ramfs x =? 0 then mret 0
  else
    error ← match cachedData x with
            | NoCache => mret 0
            | _ =>
              if isDirInode x then dirCacheDelete i
              else if has (ramfs x) RAMFS_INITRD then mret 0
              else fst <$> fsTruncate (mkFile 0 0 0 i 0) 0
            end;
    modify (fun s => set_heap (kfree i (heap s)) (set_inodes (delete i (inodes s)) s));;
    mret error.

Definition unlinkInode (i : Z) : fsM Z :=
  x ← getInode i;
  if ramfs x =? 0 then mret (- ENOSYS)
  else
    acquire i;;
    if (nrofLinks x =? 1) && isDirInode x && (fileSize x >? 2) then release i;; mret (- ENOTEMPTY)
    else
      let n := u32 (nrofLinks x - 1) in
      updInode i (i_links n);;
      if n =? 0 then
        if isCharInode x then
          (match devices (ops x) ≫= opDel with Some del => del i;; mret tt | None => mret tt end);;
          release i;;
          mret 0
        else release i;; deleteInode i
      else release i;; mret 0.

Definition entryAt (dir : Z) (pos : nat) : fsM DirEntry :=
  pl ← dirEntries dir; deref (fun _ => pl.2 !! pos).

Definition fsUnlink (dir : Z) (name : list Z) : fsM Z :=
  acquire dir;;
  entry ← dirCacheLookup dir name;
  match entry with
  | None => release dir;; mret (- ENOENT)
  | Some pos =>
    e ← entryAt dir pos;
    error ← unlinkInode (dinode e);
    (if error =? 0 then dirCacheRemove dir pos else mret tt);;
    release dir;;
    mret error
  end.

(** ** Renaming: [rename.c] *)

Definition putEntry (dir : Z) (pos : nat) (e : DirEntry) : fsM unit :=
  updInode dir (fun d => match cachedData d with
                         | DirCache p l => i_cache (DirCache p (<[pos := e]> l)) d
                         | _ => d
                         end).

(** [memcpy(&entry->inlineName, newName, n)] for a short name; for a long one
    the characters are copied over the pointer [entry->name] itself, and past
    the entry if there are more than 32. *)
Definition overwriteName (old : dname) (name : list Z) : dname :=
  Inlined (match old with Inlined c => name ++ drop (length name) c | Long _ => name end).

Definition renameInDir (dir : Z) (pos : nat) (e : DirEntry) (newName : list Z) : fsM Z :=
  (if nameLen e >=? INLINENAME_MAX then
     match dname_of e with Long p => freeString p | Inlined _ => fault end
   else mret tt);;
  (if len newName <? INLINENAME_MAX then
     putEntry dir pos (mkDirent (dinode e) (dparent e) (dindex e) (len newName) (overwriteName (dname_of e) newName));;
     mret 0
   else
     p ← newString (len newName) [];
     if p =? 0 then
       putEntry dir pos (mkDirent (dinode e) (dparent e) (dindex e) (nameLen e) (Long 0));; mret (- ENOMEM)
     else if len newName >? INLINENAME_MAX then fault
     else
       putEntry dir pos (mkDirent (dinode e) (dparent e) (dindex e) (len newName) (overwriteName (Long p) newName));;
       mret 0).

(** The new entry of a move to another directory: the result of [dirCacheAdd],
    or [None] if there is no memory for the name. *)
Definition moveEntry (i newDir : Z) (newName : list Z) : fsM (option Z) :=
  if len newName <? INLINENAME_MAX then Some <$> dirCacheAdd (mkDirent i 0 0 (len newName) (Inlined newName)) newDir
  else
    p ← newString (len newName) [];
    if p =? 0 then mret None
    else if len newName >? INLINENAME_MAX then fault
    else Some <$> dirCacheAdd (mkDirent i 0 0 (len newName) (overwriteName (Long p) newName)) newDir.

Definition removeOld (oldDir : Z) (oldName : list Z) : fsM unit :=
  acquire oldDir;;
  old ← dirCacheLookup oldDir oldName;
  match old with
  | None => fault                                      (* dirCacheRemove(NULL) *)
  | Some pos => dirCacheRemove oldDir pos;; release oldDir
  end.

Definition fsRename (newDir : Z) (newName : list Z) (oldDir : Z) (oldName : list Z) (flags : Z) : fsM Z :=
  acquire oldDir;;
  old ← dirCacheLookup oldDir oldName;
  match old with
  | None => release oldDir;; mret (- ENOENT)
  | Some pos =>
    e ← entryAt oldDir pos;
    let i := dinode e in
    if oldDir =? newDir then
      error ← renameInDir oldDir pos e newName;
      release oldDir;;
      mret error
    else
      release oldDir;;
      acquire newDir;;
      entry ← dirCacheLookup newDir newName;
      match entry with
      | Some q =>
        if has flags RENAME_NOREPLACE then release newDir;; mret (- EEXIST)
        else
          t ← entryAt newDir q;
          x ← getInode i;
          y ← getInode (dinode t);
          if isDirInode x && negb (isDirInode y) then release newDir;; mret (- ENOTDIR)
          else if isDirInode y then release newDir;; mret (- EISDIR)
          else
            error ← unlinkInode (dinode t);
            if negb (error =? 0) then release newDir;; mret error
            else
              putEntry newDir q (mkDirent i (dparent t) (dindex t) (nameLen t) (dname_of t));;
              removeOld oldDir oldName;;
              release newDir;;
              mret 0
      | None =>
        added ← moveEntry i newDir newName;
        match added with
        | None => release newDir;; mret (- ENOMEM)
        | Some error =>                                (* an error is not looked at *)
          removeOld oldDir oldName;;
          release newDir;;
          mret error
        end
      end
  end.

(** ** [stat.c] *)

Record stat := mkStat { st_dev : Z; st_ino : Z; st_mode : Z; st_nlink : Z; st_uid : Z; st_gid : Z; st_rdev : Z; st_size : Z }.
Definition doStat (fsID : Z -> Z) (x : Inode) : stat :=
  mkStat (fsID (superBlock x)) (inodeID x) (itype x) (nrofLinks x) (iuid x) (igid x) 0 (fileSize x).
Definition sizeofStat : Z := 56.
Definition sysStat (fsID : Z -> Z) (cwd : Z) (fileName : Z * list Z) (statBuf : Z) : fsM (Z + stat) :=
  let error := validateUserString fileName in
  if negb (error =? 0) then mret (inl error)
  else
    let error := validateUserPointer statBuf sizeofStat in
    if negb (error =? 0) then mret (inl error)
    else
      i ← getInodeFromPath cwd fileName.2;
      if i =? 0 then mret (inl (- ENOENT))
      else x ← getInode i; mret (inr (doStat fsID x)).
Definition sysLstat (fsID : Z -> Z) (cwd : Z) (fileName : Z * list Z) (statBuf : Z) : fsM (Z + stat) :=
  sysStat fsID cwd fileName statBuf.
Definition sysFstatat : fsM (Z + stat) := mret (inl (- ENOSYS)).
End fs.

(** ** Directories as association lists *)

Section names.
(** The entry [e] has the name [n]. *)
Definition named (names : gmap Z (list Z)) (e : DirEntry) (n : list Z) : Prop :=
  nameLen e = len n /\
  exists c, take (length n) c = n /\
    if len n >? 31 then exists p, dname_of e = Long p /\ names !! p = Some c else dname_of e = Inlined c.

Fixpoint position (name : list Z) (l : list (list Z * Z)) (i : nat) : option nat :=
  match l with
  | [] => None
  | (n, _) :: l => if decide (n = name) then Some i else position name l (S i)
  end.

(** The names and inodes of the entries in order. *)
Definition entries_rep (names : gmap Z (list Z)) (d : Z) (es : list DirEntry) (l : list (list Z * Z)) : Prop :=
  Forall2 (fun e ni => named names e ni.1 /\ dinode e = ni.2 /\ dparent e = d) es l.

Lemma sameName_named names e n name :
  named names e n -> len n = len name -> sameName names e name = Some (bool_decide (n = name)).
Proof.
  intros [Hl (c & Hc & Hu)] He. unfold sameName. rewrite <- He. unfold len in He.
  assert (E : bool_decide (take (length name) c = name) = bool_decide (n = name)).
  { f_equal. replace (length name) with (length n) by lia. by rewrite Hc. }
  destruct (len n >? 31).
  - destruct Hu as (p & -> & ->). simpl. by rewrite E.
  - rewrite Hu. simpl. by rewrite E.
Qed.

Lemma findEntry_position names d es l name i :
  entries_rep names d es l -> findEntry names es name i = Some (position name l i).
Proof.
  intros Hr. revert i. induction Hr as [|e [n j] es l (Hn & _) _ IH]; intros i; cbn [findEntry position]; [done|].
  cbn [fst] in Hn. pose proof Hn as [-> _]. destruct (Z.eqb_spec (len n) (len name)) as [He|Hne].
  - rewrite (sameName_named _ _ n) by done. destruct (decide (n = name)) as [->|Hd].
    + by rewrite bool_decide_true.
    + by rewrite bool_decide_false.
  - destruct (decide (n = name)) as [->|]; [done|apply IH].
Qed.

Lemma position_lookup name l i pos :
  position name l i = Some pos -> (i <= pos)%nat /\ exists j, l !! (pos - i)%nat = Some (name, j).
Proof.
  revert i. induction l as [|[n j] l IH]; intros i Hp; cbn [position] in Hp; [done|].
  destruct (decide (n = name)) as [->|].
  - injection Hp as <-. split; [done|]. exists j. by rewrite Nat.sub_diag.
  - apply IH in Hp as [Hle (k & Hk)]. split; [lia|]. exists k.
    replace (pos - i)%nat with (S (pos - S i)) by lia. done.
Qed.

Lemma position_app name l l' i :
  position name l i = None -> position name (l ++ l') i = position name l' (i + length l).
Proof.
  revert i. induction l as [|[n j] l IH]; intros i Hp; cbn [position app length] in *; [by rewrite Nat.add_0_r|].
  destruct (decide (n = name)); [done|]. rewrite IH by done. f_equal. lia.
Qed.

(** The inode that a name leads to. *)
Fixpoint assoc (name : list Z) (l : list (list Z * Z)) : option Z :=
  match l with
  | [] => None
  | (n, j) :: l => if decide (n = name) then Some j else assoc name l
  end.

Lemma assoc_position name l i :
  match assoc name l with
  | Some j => exists pos, position name l i = Some (i + pos)%nat /\ l !! pos = Some (name, j)
  | None => position name l i = None
  end.
Proof.
  revert i. induction l as [|[n j] l IH]; intros i; cbn [assoc position]; [done|].
  destruct (decide (n = name)) as [->|]; [exists 0%nat; split; [f_equal; lia|done]|].
  specialize (IH (S i)). destruct (assoc name l); [|done].
  destruct IH as (pos & Hp & Hl). exists (S pos). split; [rewrite Hp; f_equal; lia|done].
Qed.

Lemma findCharIn_none str c i : c ∉ str -> findCharIn str c i = -1.
Proof.
  revert i. induction str as [|x str IH]; intros i Hc; cbn [findCharIn]; [done|].
  apply not_elem_of_cons in Hc as [Hne Hc]. destruct (Z.eqb_spec x c); [done|by apply IH].
Qed.
Lemma findCharIn_here str c rest i : c ∉ str -> findCharIn (str ++ c :: rest) c i = i + len str.
Proof.
  revert i. induction str as [|x str IH]; intros i Hc; cbn [findCharIn app].
  - rewrite Z.eqb_refl. unfold len. simpl. lia.
  - apply not_elem_of_cons in Hc as [Hne Hc]. destruct (Z.eqb_spec x c); [done|].
    rewrite IH by done. unfold len. simpl length. lia.
Qed.
End names.

(** ** Path resolution *)

Ltac fssimpl :=
  cbn [inodes longNames supers rootDir caller heap bytes jiffyCounter set_inodes set_names set_supers set_heap set_bytes
       inodeID itype refCount nrofLinks ramfs fileSize superBlock ilock cachedData cachedDataSize ops
       i_lock i_refs i_links i_attr i_data i_cache].

Section directories.
Context {H : Type} `{KernelMemory H}.
Context (devices : Z -> option (DevFileOps (fs H))) (unset : Z).
Implicit Types s : fs H.

(** The directory [d], with inode [x] and unlocked, has the entries [l]. *)
Definition dir_at s (d : Z) (x : Inode) (l : list (list Z * Z)) : Prop :=
  inodes s !! d = Some x /\ ilock x = false /\ isDirInode x = true /\
  exists p es, cachedData x = DirCache p es /\ fileSize x = Z.of_nat (length es) /\
    entries_rep (longNames s) d es l.
Definition locked s (d : Z) (x : Inode) : fs H := set_inodes (<[d := i_lock true x]> (inodes s)) s.

Lemma wp_getInode i x s Q : inodes s !! i = Some x -> Q x s -> wp (getInode i) s Q.
Proof. intros Hi HQ. apply wp_deref. by exists x. Qed.

Lemma wp_acquire d x s Q : inodes s !! d = Some x -> ilock x = false -> Q tt (locked s d x) -> wp (acquire d) s Q.
Proof. intros Hd Hl HQ. apply wp_bind, (wp_getInode d x); [done|]. rewrite Hl. by apply wp_modify. Qed.

Lemma wp_updInode i x f s Q :
  inodes s !! i = Some x -> Q tt (set_inodes (<[i := f x]> (inodes s)) s) -> wp (updInode i f) s Q.
Proof. intros Hi HQ. apply wp_bind, (wp_getInode i x); [done|]. by apply wp_modify. Qed.

(** Releasing undoes acquiring. *)
Lemma wp_release_locked d x s Q :
  inodes s !! d = Some x -> ilock x = false -> Q tt s -> wp (release d) (locked s d x) Q.
Proof.
  intros Hd Hl HQ. apply (wp_updInode d (i_lock true x)); [apply lookup_insert_eq|]. unfold locked. fssimpl.
  rewrite insert_insert_eq. replace (set_inodes _ _) with s; [done|]. destruct s as [m ? ? ? ? ? ? ?]. fssimpl.
  unfold set_inodes. fssimpl. f_equal. symmetry. apply insert_id. rewrite <- Hl. by destruct x.
Qed.

Lemma dirCacheLookup_spec d x l name s :
  dir_at s d x l ->
  wp (dirCacheLookup d name) (locked s d x) (fun r s' => r = position name l 0 /\ s' = locked s d x).
Proof.
  intros (Hd & Hl & Hi & p & es & Hc & Hn & Hr). apply wp_bind, (wp_getInode d (i_lock true x)); [apply lookup_insert_eq|].
  fssimpl. rewrite Hc, Hn. destruct (Z.leb_spec (Z.of_nat (length es)) (Z.of_nat (length es))); [|lia].
  rewrite Nat2Z.id, take_ge by lia. apply wp_deref. exists (position name l 0). split; [|done].
  by eapply findEntry_position.
Qed.

Lemma dirEntries_spec d x l s :
  dir_at s d x l ->
  wp (dirEntries d) (locked s d x) (fun r s' => s' = locked s d x /\ entries_rep (longNames s) d r.2 l).
Proof.
  intros (Hd & Hl & Hi & p & es & Hc & Hn & Hr). apply wp_bind, (wp_getInode d (i_lock true x)); [apply lookup_insert_eq|].
  fssimpl. rewrite Hc. by apply wp_ret.
Qed.

(** A path component: a name that fits the buffer of [getDirEntryFromPath]. *)
Definition component (n : list Z) : Prop := n <> [] /\ 47 ∉ n /\ len n <= 255.

Fixpoint joined (comps : list (list Z)) : list Z :=
  match comps with
  | [] => []
  | [n] => n
  | n :: comps => n ++ 47 :: joined comps
  end.

(** What the components lead to, one directory after the other. *)
Inductive resolves s : Z -> list (list Z) -> option Z -> Prop :=
| resolves_last d x l n : dir_at s d x l -> resolves s d [n] (assoc n l)
| resolves_step d x l n n' rest i y r :
    dir_at s d x l -> assoc n l = Some i -> inodes s !! i = Some y -> isDirInode y = true ->
    resolves s i (n' :: rest) r -> resolves s d (n :: n' :: rest) r
| resolves_missing d x l n n' rest : dir_at s d x l -> assoc n l = None -> resolves s d (n :: n' :: rest) None
| resolves_notdir d x l n n' rest i y :
    dir_at s d x l -> assoc n l = Some i -> inodes s !! i = Some y -> isDirInode y = false ->
    resolves s d (n :: n' :: rest) None.

Lemma joined_cons_last n n' rest : joined (n :: n' :: rest) = n ++ 47 :: joined (n' :: rest).
Proof. done. Qed.

Lemma joined_nonempty n rest : component n -> (0 < length (joined (n :: rest)))%nat.
Proof.
  intros (Hne & _). destruct rest as [|n' rest]; [|rewrite joined_cons_last, length_app; simpl; lia].
  simpl. destruct n; [done|]. simpl. lia.
Qed.

Lemma drop_pre pre l : drop (Z.to_nat (len pre - 1 + 1)) (pre ++ l) = l.
Proof. unfold len. replace (Z.to_nat _) with (length pre) by lia. apply drop_app_length. Qed.

(** The name looked up in one turn. *)
Lemma sub_component pre n rest : sub (pre ++ n ++ rest) (len pre - 1 + 1) (len n) = n.
Proof. unfold sub. rewrite drop_pre. unfold len. rewrite Nat2Z.id. apply take_app_length. Qed.

(** The entry that a lookup in a directory has found. *)
Definition found s (r : option (Z * Z)) (s' : fs H) (i : option Z) : Prop :=
  match i with
  | None => r = None /\ s' = s
  | Some i => exists d x l pos n, dir_at s d x l /\ r = Some (d, Z.of_nat pos) /\ l !! pos = Some (n, i) /\
      s' = locked s d x
  end.

Lemma walk_resolves fuel pre d comps i s :
  resolves s d comps i -> Forall component comps -> (length (joined comps) < fuel)%nat ->
  wp (walk fuel false (pre ++ joined comps) d (len pre - 1)) s (fun r s' => found s r s' i).
Proof.
  intros Hr. revert fuel pre. induction Hr as
    [d x l n Hd|d x l n n' rest i y r Hd Ha Hy Hdir Hr IH|d x l n n' rest Hd Ha|d x l n n' rest i y Hd Ha Hy Hdir];
    intros fuel pre Hc Hf; (destruct fuel as [|fuel]; [lia|]); cbn [walk]; cbv zeta; unfold findChar; rewrite drop_pre.
  1:{ cbn [joined]. apply Forall_cons in Hc as [(Hne & H47 & Hlen) _]. rewrite findCharIn_none by done. cbn [Z.ltb Z.compare orb].
    replace (len (pre ++ n) - (len pre - 1 + 1)) with (len n) by (unfold len; rewrite length_app; lia).
    destruct (Z.gtb_spec (len n) 255); [lia|]. pose proof Hd as (Hx & Hl & _).
    pose proof (sub_component pre n []) as Hsub. rewrite app_nil_r in Hsub. rewrite Hsub.
    apply wp_bind, (wp_acquire d x); [done|done|]. apply wp_bind. wp_use (dirCacheLookup_spec d x l n s Hd).
    intros r s' [-> ->]. pose proof (assoc_position n l 0) as Hp. destruct (assoc n l) as [j|].
    - destruct Hp as (pos & -> & Hpos). apply wp_ret. by exists d, x, l, pos, n.
    - rewrite Hp. apply wp_bind, wp_release_locked; [done|done|]. by apply wp_ret. }
  all: rewrite joined_cons_last in *; apply Forall_cons in Hc as [(Hne & H47 & Hlen) Hc].
  all: rewrite findCharIn_here by done; rewrite length_app in Hf; cbn [length] in Hf.
  all: pose proof (joined_nonempty n' rest ltac:(by inversion Hc)) as Hlr.
  all: destruct (Z.ltb_spec (len pre - 1 + 1 + len n) 0); [unfold len in *; lia|].
  all: destruct (Z.eqb_spec (len pre - 1 + 1 + len n) (len (pre ++ n ++ 47 :: joined (n' :: rest)) - 1)) as [E|_];
    [unfold len in E; rewrite !length_app in E; cbn [length] in E; lia|]; cbn [orb].
  all: replace (len pre - 1 + 1 + len n - (len pre - 1 + 1)) with (len n) by lia.
  all: destruct (Z.eqb_spec (len n) 0) as [E|_]; [unfold len in E; destruct n; [done|simpl in E; lia]|].
  all: destruct (Z.gtb_spec (len n) 255); [lia|]; rewrite sub_component; pose proof Hd as (Hx & Hl & _).
  all: apply wp_bind, (wp_acquire d x); [done|done|]; apply wp_bind; wp_use (dirCacheLookup_spec d x l n s Hd);
    intros ? ? [-> ->]; pose proof (assoc_position n l 0) as Hp; rewrite Ha in Hp.
  2:{ rewrite Hp. apply wp_bind, wp_release_locked; [done|done|]. by apply wp_ret. }
  all: destruct Hp as (pos & -> & Hpos); rewrite Nat.add_0_l; apply wp_bind; wp_use (dirEntries_spec d x l s Hd);
    intros ? ? [-> Hes]; destruct (Forall2_lookup_r _ _ _ _ _ Hes Hpos) as (e & He & _ & Hdi & _); cbn [snd] in Hdi;
    apply wp_bind, wp_deref; exists e; (split; [done|]); rewrite Hdi; apply wp_bind;
    (destruct (decide (i = d)) as [->|Hid];
     [eapply (wp_getInode d (i_lock true x)); [apply lookup_insert_eq|]; rewrite Hx in Hy; injection Hy as <-;
      change (isDirInode (i_lock true x)) with (isDirInode x)
     |apply (wp_getInode i y); [unfold locked; fssimpl; by rewrite lookup_insert_ne|]]);
    rewrite Hdir; apply wp_bind, wp_release_locked; try done.
  all: try (by apply wp_ret).
  all: replace (len pre - 1 + 1 + len n) with (len (pre ++ n ++ [47]) - 1) by (unfold len; rewrite !length_app; simpl; lia).
  all: replace (pre ++ n ++ 47 :: joined (n' :: rest)) with ((pre ++ n ++ [47]) ++ joined (n' :: rest)) by (by rewrite <- !app_assoc).
  all: apply IH; [done|lia].
Qed.

Lemma component_head n rest : component n -> exists c l, joined (n :: rest) = c :: l /\ c <> 47.
Proof.
  intros (Hne & H47 & _). destruct n as [|c n]; [done|]. apply not_elem_of_cons in H47 as [Hc _].
  destruct rest as [|n' rest]; [by exists c, n|]. rewrite joined_cons_last. by exists c, (n ++ 47 :: joined (n' :: rest)).
Qed.

Lemma resolves_cons s d comps r : resolves s d comps r -> exists n rest, comps = n :: rest.
Proof. intros Hr. destruct Hr; eauto. Qed.

(** The last step of [getInodeFromPath]. *)
Lemma found_inode r s1 s i :
  found s r s1 i ->
  wp (match r with
      | None => mret 0
      | Some (dir, pos) =>
        pl ← dirEntries dir;
        e ← deref (fun _ => pl.2 !! Z.to_nat pos);
        release (dparent e);;
        mret (dinode e)
      end) s1 (fun j s' => j = default 0 i /\ s' = s).
Proof.
  intros Hf. destruct i as [i|].
  - destruct Hf as (d & x & l & pos & n & Hd & -> & Hpos & ->). apply wp_bind. wp_use (dirEntries_spec d x l s Hd).
    intros pl s' [-> Hes]. destruct (Forall2_lookup_r _ _ _ _ _ Hes Hpos) as (e & He & _ & Hdi & Hp).
    apply wp_bind, wp_deref. exists e. rewrite Nat2Z.id. split; [done|]. rewrite Hp. pose proof Hd as (Hx & Hl & _).
    apply wp_bind, wp_release_locked; [done|done|]. by apply wp_ret.
  - destruct Hf as [-> ->]. by apply wp_ret.
Qed.

Lemma relative_path cwd comps r s :
  Forall component comps -> resolves s (if cwd =? 0 then rootDir s else cwd) comps r ->
  wp (getInodeFromPath cwd (joined comps)) s (fun i s' => i = default 0 r /\ s' = s).
Proof.
  intros Hc Hr. destruct (resolves_cons _ _ _ _ Hr) as (n & rest & ->).
  destruct (component_head n rest) as (c & l & E & Hne); [by inversion Hc|].
  unfold getInodeFromPath, isSlash, getDirEntryFromPath.
  assert (Hs : startsSlash (joined (n :: rest)) = false) by (rewrite E; simpl; by destruct (Z.eqb_spec c 47)).
  rewrite Hs, bool_decide_false by (by rewrite E). cbn [andb]. apply wp_bind, wp_bind, wp_gets.
  wp_use (walk_resolves (S (length (joined (n :: rest)))) [] _ _ _ _ Hr Hc); [lia|].
  intros r' s' Hf. by apply found_inode.
Qed.
Lemma absolute_path cwd comps r s :
  Forall component comps -> resolves s (rootDir s) comps r ->
  wp (getInodeFromPath cwd (47 :: joined comps)) s (fun i s' => i = default 0 r /\ s' = s).
Proof.
  intros Hc Hr. destruct (resolves_cons _ _ _ _ Hr) as (n & rest & ->).
  destruct (component_head n rest) as (c & l & E & Hne); [by inversion Hc|].
  unfold getInodeFromPath, isSlash, getDirEntryFromPath. rewrite bool_decide_false by done. cbn [startsSlash Z.eqb Pos.eqb andb].
  destruct (Nat.eqb_spec (length (47 :: joined (n :: rest))) 1) as [E1|_]; [rewrite E in E1; simpl in E1; lia|].
  apply wp_bind, wp_bind, wp_gets.
  wp_use (walk_resolves (S (length (47 :: joined (n :: rest)))) [47] _ _ _ _ Hr Hc); [simpl; lia|].
  intros r' s' Hf. by apply found_inode.
Qed.

(** C12: [getInodeFromPath] follows a path of non-empty components, each at most
    255 characters long, from the current directory, or from the root if the path
    starts with a slash: it ends with the inode that the last component names in
    the directory that the others lead to, or with 0 if a component is missing
    or is not a directory.  All locks are free again and nothing has changed. *)
Theorem getInodeFromPath_correct cwd comps r s :
  Forall component comps ->
  (resolves s (if cwd =? 0 then rootDir s else cwd) comps r ->
   wp (getInodeFromPath cwd (joined comps)) s (fun i s' => i = default 0 r /\ s' = s)) /\
  (resolves s (rootDir s) comps r ->
   wp (getInodeFromPath cwd (47 :: joined comps)) s (fun i s' => i = default 0 r /\ s' = s)).
Proof. intros Hc. split; intros Hr; [by apply relative_path|by apply absolute_path]. Qed.

Lemma wp_onHeap {A} (f : H -> A * H) s (Q : A -> fs H -> Prop) :
  Q (f (heap s)).1 (set_heap (f (heap s)).2 s) -> wp (onHeap f) s Q.
Proof. intros HQ. unfold wp, onHeap. by destruct (f (heap s)). Qed.

Lemma entryName_short name s Q : len name <= 31 -> Q (Some (Inlined name)) s -> wp (entryName name) s Q.
Proof. intros Hl HQ. unfold entryName. destruct (Z.gtb_spec (len name) 31); [lia|]. by apply wp_ret. Qed.

Lemma named_short names d i j name :
  len name <= 31 -> named names (mkDirent i d j (len name) (Inlined name)) name.
Proof.
  intros Hl. split; [done|]. exists name. rewrite take_ge by lia. split; [done|].
  by destruct (Z.gtb_spec (len name) 31); [lia|].
Qed.

(** The new inode of [fsCreate]. *)
Definition created s (d : Inode) (id mode type : Z) : Inode :=
  mkInode id type 0 1 (ramfs d) 0 (superBlock d) false
    (match caller s with Some c => ceuid c | None => 0 end) (match caller s with Some c => cegid c | None => 0 end)
    mode false NoCache 0 0.

(** The block of the entries is at [p] and holds exactly [n] of them. *)
Definition cached_at (x : Inode) (p : Z) (n : nat) : Prop :=
  cachedDataSize x = sizeofDirEntry * Z.of_nat n /\ exists es, cachedData x = DirCache p es /\ length es = n.
(** The entries carry their own positions, as [dirCacheAdd] numbers them; the
    first two are those of [dirCacheInit], which gives both the number 0. *)
Definition well_indexed (x : Inode) : Prop :=
  match cachedData x with
  | DirCache _ es => forall k e, (2 <= k)%nat -> es !! k = Some e -> dindex e = Z.of_nat k
  | _ => True
  end.

(** C14: [fsCreate] of a regular file with a name of at most 31 characters in a
    directory of the RAM file system: when the heap gives an inode, and the block
    of the directory with room for one more entry, a new inode with the next
    number, the ids of the caller and the given mode is entered at the end of the
    directory under the name; the entries that were there keep their places, the
    block of the directory has the size of its entries and the numbers of the
    entries stay right, and no lock stays taken. *)
Theorem fsCreate_correct d x l p name mode id i h1 q h2 s :
  dir_at s d x l -> cached_at x p (length l) -> ramfs x <> 0 -> len name <= 31 -> 0 <= fileSize x < 2 ^ 31 -> 0 <= mode ->
  supers s !! superBlock x = Some id -> 0 <= id < 2 ^ 32 - 1 ->
  kmalloc sizeofInode (heap s) = (i, h1) -> i <> 0 -> inodes s !! i = None ->
  krealloc p (sizeofDirEntry * (Z.of_nat (length l) + 1)) h1 = (q, h2) -> q <> 0 ->
  wp (fsCreate None d name (Z.lor ITYPE_FILE (Z.shiftl mode CREATE_PERM_SHIFT))) s (fun r s' =>
    r = (0, None) /\ supers s' !! superBlock x = Some (id + 1) /\
    inodes s' !! i = Some (created s x id mode ITYPE_FILE) /\
    (exists x', dir_at s' d x' (l ++ [(name, i)]) /\ cached_at x' q (S (length l)) /\ (well_indexed x -> well_indexed x')) /\
    heap s' = h2 /\ forall k, k <> d -> k <> i -> inodes s' !! k = inodes s !! k).
Proof.
  intros Hd (Hcs & es & Hc & Hel) Hram Hname Hsz Hmode Hsb Hid Hk Hi Hfresh Hre Hq.
  pose proof Hd as (Hx & Hl & Hdir & p' & es' & Hc' & Hn & Hes). rewrite Hc in Hc'. injection Hc' as <- <-.
  replace (sizeofDirEntry * (Z.of_nat (length l) + 1)) with (cachedDataSize x + sizeofDirEntry) in Hre by (rewrite Hcs; lia).
  assert (Hdi : d <> i) by congruence. set (type := Z.lor _ _).
  assert (Ht : Z.land type 0xFF = ITYPE_FILE).
  { unfold type, CREATE_PERM_SHIFT. rewrite Z.shiftl_mul_pow2 by lia. rewrite lor_add by (unfold ITYPE_FILE; lia).
    change 0xFF with (Z.ones 8). rewrite Z.land_ones by lia. unfold ITYPE_FILE. rewrite Z_mod_plus_full. done. }
  assert (Hm : Z.shiftr type CREATE_PERM_SHIFT = mode).
  { unfold type, CREATE_PERM_SHIFT. rewrite Z.shiftl_mul_pow2, lor_add, Z.shiftr_div_pow2 by (unfold ITYPE_FILE; lia).
    rewrite Z.div_add by lia. done. }
  unfold fsCreate. apply wp_bind, entryName_short; [done|]. apply wp_bind, (wp_acquire d x); [done|done|].
  apply wp_bind, (wp_getInode d (i_lock true x)); [apply lookup_insert_eq|]. fssimpl.
  destruct (Z.eqb_spec (ramfs x) 0); [done|]. apply wp_bind, wp_onHeap. unfold locked. fssimpl. rewrite Hk. cbn [fst snd].
  destruct (Z.eqb_spec i 0); [done|]. apply wp_bind, wp_deref. exists id. split; [done|].
  apply wp_bind, wp_modify. fssimpl. rewrite uwrap_small by lia. rewrite Ht, Hm.
  apply wp_bind, wp_modify. fssimpl. apply wp_bind.
  eapply (wp_mono _ _ (fun _ s' => s' = mkFs (<[i := created s x id mode ITYPE_FILE]> (<[d := i_lock true x]> (inodes s)))
    (longNames s) (<[superBlock x := id + 1]> (supers s)) (rootDir s) (caller s) h1 (bytes s) (jiffyCounter s))).
  { unfold setPerm. apply wp_bind, wp_gets. fssimpl. unfold created.
    destruct (caller s) as [c|] eqn:Ec; eapply wp_updInode; fssimpl; try apply lookup_insert_eq;
      unfold i_attr, set_inodes; fssimpl; rewrite insert_insert_eq; by rewrite ?Ec. }
  intros _ s1 ->. apply wp_bind. eapply wp_getInode; fssimpl; [apply lookup_insert_eq|].
  change (isDirInode (created s x id mode ITYPE_FILE)) with false. cbv iota. apply wp_bind, wp_ret. apply wp_bind.
  unfold dirCacheAdd. apply wp_bind, (wp_getInode d (i_lock true x)); fssimpl.
  { rewrite lookup_insert_ne by congruence. apply lookup_insert_eq. }
  rewrite Hc. apply wp_bind, wp_onHeap. fssimpl. rewrite Hre. cbn [fst snd]. destruct (Z.eqb_spec q 0); [done|].
  rewrite Hn, Z.eqb_refl. rewrite Hn in Hsz. apply wp_bind, wp_modify, wp_ret. fssimpl. apply wp_bind.
  eapply wp_updInode; fssimpl; [apply lookup_insert_eq|]. cbn [Z.eqb negb]. apply wp_ret. fssimpl.
  rewrite insert_insert_eq. split_and!; [done|apply lookup_insert_eq| | |done|].
  - rewrite lookup_insert_ne by congruence. apply lookup_insert_eq.
  - eexists. split_and!; [split; [apply lookup_insert_eq|]; fssimpl; split_and!; [done|exact Hdir|]|split|].
    + eexists _, _. split; [done|]. rewrite length_app. split.
      { rewrite uwrap_small by lia. simpl. lia. }
      apply Forall2_app; [exact Hes|]. constructor; [|constructor]. cbn [fst snd dinode dparent dname_of nameLen].
      split_and!; [by apply named_short|done|done].
    + fssimpl. rewrite Hcs. lia.
    + eexists. split; [done|]. rewrite length_app. simpl. lia.
    + unfold well_indexed. fssimpl. rewrite Hc. intros Hw k e Hk2 [He|[Hlt He]]%lookup_app_Some; [by apply Hw|].
      apply list_lookup_singleton_Some in He as [? <-]. cbn [dindex]. rewrite uwrap_small by lia. lia.
  - intros k Hkd Hki. by rewrite !lookup_insert_ne by congruence.
Qed.




Lemma set_heap_twice h1 h2 s : set_heap h1 (set_heap h2 s) = set_heap h1 s.
Proof. done. Qed.



(** [fsUnlink] of an entry for the directory itself, such as ["."], never
    returns: [unlinkInode] takes the lock that [fsUnlink] holds. *)
Theorem fsUnlink_self_deadlocks d x l name s :
  dir_at s d x l -> assoc name l = Some d -> ramfs x <> 0 -> fsUnlink devices d name s = Fault.
Proof.
  intros Hd Ha Hram. pose proof Hd as (Hx & Hlx & Hdir & p & es & Hcx & Hn & Hes).
  assert (E : acquire d s = Done (tt, locked s d x)).
  { unfold acquire, mbind, M_bind, getInode, deref. rewrite Hx, Hlx. done. }
  unfold fsUnlink. rewrite (bind_done _ _ _ _ _ E). pose proof (assoc_position name l 0) as Hp. rewrite Ha in Hp.
  destruct Hp as (pos & Hp & Hl).
  pose proof (dirCacheLookup_spec d x l name s Hd) as H1. apply wp_done in H1 as (? & ? & H1 & -> & ->).
  rewrite (bind_done _ _ _ _ _ H1), Hp. cbn [Nat.add].
  pose proof (dirEntries_spec d x l s Hd) as H2. apply wp_done in H2 as (pl & ? & H2 & -> & Hes').
  destruct (Forall2_lookup_r _ _ _ _ _ Hes' Hl) as (e & He & _ & Hdi & _). cbn [snd] in Hdi.
  assert (H3 : entryAt d pos (locked s d x) = Done (e, locked s d x)).
  { unfold entryAt. rewrite (bind_done _ _ _ _ _ H2). unfold deref. by rewrite He. }
  rewrite (bind_done _ _ _ _ _ H3), Hdi. apply bind_fault. unfold unlinkInode.
  assert (H4 : getInode d (locked s d x) = Done (i_lock true x, locked s d x)).
  { unfold getInode, deref, locked. fssimpl. by rewrite lookup_insert_eq. }
  rewrite (bind_done _ _ _ _ _ H4). fssimpl. destruct (Z.eqb_spec (ramfs x) 0); [done|].
  apply bind_fault. unfold acquire. by rewrite (bind_done _ _ _ _ _ H4).
Qed.
End directories.

(** ** Witnesses *)

Section witnesses.
#[local] Instance bump_memory : KernelMemory Z := {
  kmalloc _ h := (h, h + 256); krealloc _ _ h := (h, h + 256); kfree _ h := h;
  allocKPages _ h := (h, h + 4096); deallocPages _ _ h := h
}.
Definition no_devices {S} (_ : Z) : option (DevFileOps S) := None.
Definition demo_dir (es : list DirEntry) : Inode :=
  mkInode 1 ITYPE_DIR 0 1 1 (Z.of_nat (length es)) 100 false 0 0 493 false (DirCache 2000 es) (64 * Z.of_nat (length es)) 0.
Definition demo_file (id : Z) : Inode := mkInode id ITYPE_FILE 0 1 1 0 100 false 0 0 420 false NoCache 0 0.
Definition demo_entry (i d k c : Z) : DirEntry := mkDirent i d k 1 (Inlined [c]).
(** A root directory with a directory ["d"] and the files ["a"], ["b"] and ["c"]. *)
Definition root_entries : list DirEntry :=
  [demo_entry 1 1 0 46; mkDirent 1 1 0 2 (Inlined [46; 46]); demo_entry 10 1 2 97; demo_entry 11 1 3 98;
   demo_entry 12 1 4 99; demo_entry 20 1 5 100].
Definition root_list : list (list Z * Z) := [([46], 1); ([46; 46], 1); ([97], 10); ([98], 11); ([99], 12); ([100], 20)].
Definition sub_entries : list DirEntry := [demo_entry 20 20 0 46; mkDirent 1 20 0 2 (Inlined [46; 46]); demo_entry 13 20 2 97].
Definition fs_demo : fs Z :=
  mkFs (<[1 := demo_dir root_entries]> (<[10 := demo_file 2]> (<[11 := demo_file 3]> (<[12 := demo_file 4]>
    (<[20 := demo_dir sub_entries]> (<[13 := demo_file 5]> ∅))))))
    ∅ (<[100 := 6]> ∅) 1 (Some (mkIds 1000 100 [])) 4096 ∅ 0.

Lemma fs_demo_root : dir_at fs_demo 1 (demo_dir root_entries) root_list.
Proof.
  split_and!; [done|done|done|]. exists 2000, root_entries. split_and!; [done|done|].
  repeat (constructor; [split_and!; [split; [done|eexists; split; [|by cbn]; done]|done|done]|]). constructor.
Qed.
Lemma fs_demo_sub : dir_at fs_demo 20 (demo_dir sub_entries) [([46], 20); ([46; 46], 1); ([97], 13)].
Proof.
  split_and!; [done|done|done|]. exists 2000, sub_entries. split_and!; [done|done|].
  repeat (constructor; [split_and!; [split; [done|eexists; split; [|by cbn]; done]|done|done]|]). constructor.
Qed.

(** Removing an entry does not renumber the ones behind it, and the next
    removal trusts the numbers: after ["a"] has been removed, removing ["b"] moves
    too few entries down.  The directory ["d"], which nobody removed, is not found
    any more, and ["c"] is entered twice. *)
Theorem second_unlink_drops_other :
  wp (fsUnlink no_devices 1 [97];; fsUnlink no_devices 1 [98]) fs_demo (fun r s' =>
    r = 0 /\ wp (dirCacheLookup 1 [100]) s' (fun p _ => p = None) /\ is_Some (inodes s' !! 20) /\
    wp (dirEntries 1) s' (fun pl _ => dname_of <$> pl.2 = [Inlined [46]; Inlined [46; 46]; Inlined [99]; Inlined [99]])).
Proof. vm_compute. split_and!; [done|done|by eexists|done]. Qed.

Lemma getInodeFromPath_correct_witness :
  Forall component [[100]; [97]] /\
  wp (getInodeFromPath 0 (joined [[100]; [97]])) fs_demo (fun i s' => i = 13 /\ s' = fs_demo).
Proof.
  assert (Hc : Forall component [[100]; [97]]).
  { repeat constructor; try done; apply not_elem_of_cons; (split; [done|apply not_elem_of_nil]). }
  split; [exact Hc|].
  apply (proj1 (getInodeFromPath_correct 0 [[100]; [97]] (Some 13) fs_demo Hc)).
  eapply (resolves_step _ _ _ root_list _ _ _ 20); [exact fs_demo_root|done|done|done|].
  apply (resolves_last fs_demo 20 _ _ [97] fs_demo_sub).
Defined.

Lemma fsCreate_correct_witness :
  wp (fsCreate None 1 [122] (Z.lor ITYPE_FILE (Z.shiftl 420 CREATE_PERM_SHIFT))) fs_demo (fun r s' =>
    r = (0, None) /\ supers s' !! 100 = Some (6 + 1) /\
    inodes s' !! 4096 = Some (created fs_demo (demo_dir root_entries) 6 420 ITYPE_FILE) /\
    (exists x', dir_at s' 1 x' (root_list ++ [([122], 4096)]) /\ cached_at x' 4352 7 /\
      (well_indexed (demo_dir root_entries) -> well_indexed x')) /\
    heap s' = 4608 /\ forall k, k <> 1 -> k <> 4096 -> inodes s' !! k = inodes fs_demo !! k).
Proof.
  apply (fsCreate_correct 1 (demo_dir root_entries) root_list 2000 [122] 420 6 4096 4352 4352 4608 fs_demo fs_demo_root);
    try (done || by vm_compute). split; [done|]. by exists root_entries.
Defined.


Lemma fsUnlink_self_deadlocks_witness : fsUnlink no_devices 1 [46] fs_demo = Fault.
Proof. by apply (fsUnlink_self_deadlocks no_devices 1 (demo_dir root_entries) root_list [46] fs_demo fs_demo_root). Defined.
End witnesses.
