(* ===== verification/FileData.v ===== *)
(** * File contents: [kernel/fs/readwrite.c]

    The data of a file in the RAM file system is a list of pages with their
    offsets in the file.  User memory and the pages are one byte addressed store;
    [userMemcpy] copies in the units of [memcpy] and returns [-EFAULT] at the first
    unit that is not mapped. *)

From S2P Require Import Prelude Word Errno CString Fd FileSystem.

Definition sizeofCfEntry : Z := 24.
Definition sizeToPages (size : Z) : Z := size / PAGE_SIZE + (if size mod PAGE_SIZE =? 0 then 0 else 1).

Section data.
Context {H : Type} `{KernelMemory H}.
Notation fsM := (M (fs H)).
Context (devices : Z -> option (DevFileOps (fs H))).
Context (junk : Z).                        (* what a fresh page holds *)

(** [userMemcpy]: [n] copies of [k] bytes; what was copied before a fault
    stays. *)
Fixpoint copyUnits (k n : nat) (dst src : Z) : fsM Z :=
  match n with
  | O => mret 0
  | S n =>
    m ← gets bytes;
    match readWord8 k src m with
    | Done (l, _) =>
      match writeWord8 l dst m with
      | Done (_, m') => modify (set_bytes m');; copyUnits k n (dst + Z.of_nat k) (src + Z.of_nat k)
      | _ => mret (- EFAULT)
      end
    | _ => mret (- EFAULT)
    end
  end.
Definition userMemcpy (dst src n : Z) : fsM Z :=
  if negb (n mod 8 =? 0) then copyUnits 1 (Z.to_nat n) dst src else copyUnits 8 (Z.to_nat (n / 8)) dst src.

(** A fresh page: its address, 0 on failure. *)
Fixpoint mapFresh (n : nat) (a : Z) (m : gmap Z Z) : gmap Z Z :=
  match n with O => m | S n => <[a := junk]> (mapFresh n (a + 1) m) end.
Definition allocPage : fsM Z :=
  p ← onHeap (allocKPages PAGE_SIZE);
  (if p =? 0 then mret tt else modify (fun s => set_bytes (mapFresh 4096 p (bytes s)) s));;
  mret p.

(** The search for the page of an offset: position and entry. *)
Fixpoint findPage (cf : list CfEntry) (off : Z) (i : nat) : option (nat * CfEntry) :=
  match cf with
  | [] => None
  | e :: cf => if (fileOffset e <=? off) && (off <? u64 (fileOffset e + PAGE_SIZE)) then Some (i, e)
               else findPage cf off (S i)
  end.

Definition lockFileOf (f : File) : fsM unit := if flock f =? 0 then mret tt else fault.
Definition setOffset (o : Z) (f : File) : File := mkFile 0 (frefCount f) (fflags f) (inode f) o.

Definition filePages (i : Z) : fsM (Z * list CfEntry) :=
  x ← getInode i;
  match cachedData x with FileCache p cf => mret (p, cf) | _ => fault end.
(** [entry->lastAccessed = jiffyCounter], and the dirty mark of a write. *)
Definition touchPage (i : Z) (pos : nat) (wr : bool) : fsM unit :=
  pcf ← filePages i;
  now ← gets jiffyCounter;
  updInode i (i_cache (FileCache pcf.1
    (alter (fun e => mkCf (addr e) (fileOffset e) (wr || dirty e) (u32 now)) pos pcf.2))).

(** The loop of [fsRead]: the result and the final offset. *)
Fixpoint readLoop (k : nat) (i buffer off bytesLeft bytesCopied oldOffset : Z) : fsM (Z * Z) :=
  if bytesLeft =? 0 then mret (bytesCopied, off)
  else
    match k with
    | O => nofuel
    | S k =>
      pcf ← filePages i;
      match findPage pcf.2 off 0 with
      | None => mret (- ENOSYS, off)
      | Some (pos, e) =>
        touchPage i pos false;;
        let diff := u32 (off - fileOffset e) in
        let nrofBytes := if bytesLeft >? PAGE_SIZE then PAGE_SIZE else bytesLeft in
        error ← userMemcpy buffer (addr e + diff) nrofBytes;
        if negb (error =? 0) then mret (error, oldOffset)
        else readLoop k i (buffer + nrofBytes) (u64 (off + nrofBytes)) (bytesLeft - nrofBytes) (bytesCopied + nrofBytes) oldOffset
      end
    end.

Definition fsRead (f : File) (buffer bufSize : Z) : fsM (Z * File) :=
  lockFileOf f;;
  let i := inode f in
  acquire i;;
  x ← getInode i;
  rf ← (if isDirInode x then mret (- EISDIR, setOffset (offset f) f)
        else match cachedData x with
        | NoCache => mret (0, setOffset (offset f) f)
        | c =>
          if isCharInode x then
            match devices (ops x) ≫= opRead with
            | Some read => read f buffer bufSize
            | None => mret (- ENOSYS, setOffset (offset f) f)
            end
          else
            let bytesLeft := u64 (fileSize x - offset f) in
            let bytesLeft := if bytesLeft >? bufSize then bufSize else bytesLeft in
            if has (ramfs x) RAMFS_INITRD then
              match c with
              | RawCache p =>
                error ← userMemcpy buffer (p + offset f) bytesLeft;
                mret (if error =? 0 then (bytesLeft, setOffset (u64 (offset f + bytesLeft)) f)
                      else (error, setOffset (offset f) f))
              | _ => fault
              end
            else
              ro ← readLoop (S (Z.to_nat (bytesLeft / PAGE_SIZE))) i buffer (offset f) bytesLeft 0 (offset f);
              mret (ro.1, setOffset ro.2 f)
        end);
  release i;;
  mret rf.

(** The new pages at the end of a file; the result is the error, the offset
    and what is left of the buffer. *)
Fixpoint growPages (n : nat) (k : Z) (i buffer off bufSize : Z) : fsM (Z * Z) :=
  match n with
  | O => mret (0, off)
  | S n =>
    page ← allocPage;
    if page =? 0 then mret (- ENOMEM, off)
    else
      pcf ← filePages i;
      now ← gets jiffyCounter;
      updInode i (i_cache (FileCache pcf.1 (pcf.2 ++ [mkCf page (u64 (off + u32 k * PAGE_SIZE)) true (u32 now)])));;
      let copy := if bufSize >? PAGE_SIZE then PAGE_SIZE else bufSize in
      error ← userMemcpy page buffer copy;
      if negb (error =? 0) then mret (error, off)
      else
        updInode i (fun x => i_data (u64 (fileSize x + copy)) (cacheDirty x) (cachedData x) (cachedDataSize x) x);;
        growPages n (k + 1) i (buffer + copy) (u64 (off + copy)) (u64 (bufSize - copy))
  end.

(** The branch of [fsWrite] at the end of a file of whole pages. *)
Definition appendPages (i buffer off bufSize : Z) : fsM (Z * Z) :=
  x ← getInode i;
  let nrofPages := u32 (sizeToPages bufSize) in
  let newCFSize := if off =? 0 then sizeofCachedFile + u32 (nrofPages - 1) * sizeofCfEntry
                   else u64 (cachedDataSize x + sizeofCfEntry * nrofPages) in
  cf ← (if off =? 0 then cf ← onHeap (kmalloc newCFSize); mret (cf, [])
        else
          pcf ← filePages i;
          cf ← onHeap (krealloc pcf.1 newCFSize); mret (cf, pcf.2));
  if cf.1 =? 0 then mret (- ENOMEM, off)
  else
    updInode i (fun x => i_data (fileSize x) (cacheDirty x) (FileCache cf.1 cf.2) newCFSize x);;
    growPages (Z.to_nat nrofPages) 0 i buffer off bufSize.

Fixpoint writeLoop (fuel : nat) (i buffer off bufSize : Z) : fsM (Z * Z) :=
  match fuel with
  | O => nofuel
  | S fuel =>
    if bufSize =? 0 then mret (0, off)
    else
      updInode i (fun x => i_data (fileSize x) true (cachedData x) (cachedDataSize x) x);;
      x ← getInode i;
      if (off =? fileSize x) && (fileSize x mod PAGE_SIZE =? 0) then appendPages i buffer off bufSize
      else
        pcf ← filePages i;
        match findPage pcf.2 off 0 with
        | None => mret (- ENOSYS, off)
        | Some (pos, e) =>
          touchPage i pos true;;
          let diff := u32 (off - fileOffset e) in
          let nrofBytes := PAGE_SIZE - diff in               (* not bounded by bufSize *)
          error ← userMemcpy (addr e + diff) buffer nrofBytes;
          if negb (error =? 0) then mret (error, off)
          else
            let off := u64 (off + nrofBytes) in
            updInode i (fun x => if off >? fileSize x
                                 then i_data off (cacheDirty x) (cachedData x) (cachedDataSize x) x else x);;
            writeLoop fuel i (buffer + nrofBytes) off (u64 (bufSize - nrofBytes))
        end
  end.

Definition fsWrite (fuel : nat) (f : File) (buffer bufSize : Z) : fsM (Z * File) :=
  lockFileOf f;;
  let i := inode f in
  x ← getInode i;
  if isDirInode x then mret (- EISDIR, setOffset (offset f) f)
  else if isCharInode x then
    match devices (ops x) ≫= opWrite with
    | Some write => write f buffer bufSize
    | None => mret (- ENOSYS, setOffset (offset f) f)
    end
  else if has (ramfs x) RAMFS_INITRD then mret (- EROFS, setOffset (offset f) f)
  else
    acquire i;;
    eo ← writeLoop fuel i buffer (offset f) bufSize;
    release i;;
    mret (eo.1, setOffset eo.2 f).

Definition fsSeek (f : File) (off whence : Z) : fsM (Z * File) :=
  lockFileOf f;;
  let i := inode f in
  acquire i;;
  x ← getInode i;
  let size := fileSize x in
  let move (newOffset : Z) : Z * File :=
    if (newOffset <? 0) || (newOffset >? s64 size) then (- EINVAL, setOffset (offset f) f)
    else (0, setOffset newOffset f) in
  let ret :=
    if whence =? SEEK_SET then move off
    else if whence =? SEEK_CUR then move (s64 (offset f + off))
    else if whence =? SEEK_END then move (s64 (size + off))
    else (- EINVAL, setOffset (offset f) f) in
  release i;;
  mret ret.
End data.

(** ** Files as lists of bytes *)

Section pages.
(** The pages [cf] from offset [off] on hold [data]; only the last may be
    partly used. *)
Fixpoint pages_rep (m : gmap Z Z) (off : Z) (cf : list CfEntry) (data : list Z) : Prop :=
  match cf with
  | [] => data = []
  | e :: cf =>
    data <> [] /\ fileOffset e = off /\ room m (addr e) PAGE_SIZE /\ holds m (addr e) (take 4096 data) /\
    pages_rep m (off + PAGE_SIZE) cf (drop 4096 data)
  end.
(** No byte of [a .. a+n-1] lies in a page. *)
Definition apart (a n : Z) (cf : list CfEntry) : Prop :=
  Forall (fun e => a + n <= addr e \/ addr e + PAGE_SIZE <= a) cf.
Definition same_page (e e' : CfEntry) : Prop := addr e' = addr e /\ fileOffset e' = fileOffset e.

Lemma same_page_refl cf : Forall2 same_page cf cf.
Proof. induction cf; constructor; [done|done]. Qed.
Lemma same_page_trans cf1 cf2 cf3 :
  Forall2 same_page cf1 cf2 -> Forall2 same_page cf2 cf3 -> Forall2 same_page cf1 cf3.
Proof.
  intros H. revert cf3. induction H as [|e1 e2 cf1 cf2 [H1 H2] _ IH]; intros cf3 H3; inversion H3 as [|? e3 ? cf3' [] ]; subst; constructor.
  - split; congruence.
  - by apply IH.
Qed.
Lemma same_page_alter f cf pos : (forall e, same_page e (f e)) -> Forall2 same_page cf (alter f pos cf).
Proof.
  intros Hf. revert pos. induction cf as [|e cf IH]; intros [|pos]; constructor; try done; try apply same_page_refl; apply IH.
Qed.

Lemma pages_rep_same m off cf cf' data : Forall2 same_page cf cf' -> pages_rep m off cf data -> pages_rep m off cf' data.
Proof.
  intros Hs. revert off data. induction Hs as [|e e' cf cf' [Ha Ho] _ IH]; intros off data; cbn [pages_rep]; [done|].
  rewrite Ha, Ho. intros (? & ? & ? & ? & ?). split_and!; [done..|by apply IH].
Qed.
Lemma apart_same a n cf cf' : Forall2 same_page cf cf' -> apart a n cf -> apart a n cf'.
Proof.
  unfold apart. intros Hs. induction Hs as [|e e' cf cf' [Ha _] _ IH]; intros Hf; constructor; inversion Hf; subst; [by rewrite Ha|auto].
Qed.
Lemma apart_shorter a n b k cf : apart a n cf -> a <= b -> b + k <= a + n -> apart b k cf.
Proof. unfold apart. intros Hf Hb Hk. eapply Forall_impl; [exact Hf|]. cbv beta. lia. Qed.

(** Changes outside the pages do not matter. *)
Lemma pages_rep_frame m m' off cf data :
  pages_rep m off cf data -> Forall (fun e => forall x, addr e <= x < addr e + PAGE_SIZE -> m' !! x = m !! x) cf ->
  pages_rep m' off cf data.
Proof.
  revert off data. induction cf as [|e cf IH]; intros off data; cbn [pages_rep]; [done|].
  intros (Hne & Ho & Hr & Hh & Hp) Hf. inversion Hf as [|? ? He Hf']; subst. split_and!; [done|done| | |by apply IH].
  - by eapply room_frame.
  - eapply holds_frame; [done|]. rewrite length_take. intros x Hx. apply He. unfold PAGE_SIZE in *. lia.
Qed.

(** The page of an aligned offset. *)
Lemma findPage_aligned m cf data (j : nat) off i :
  pages_rep m off cf data -> (j * 4096 < length data)%nat -> 0 <= off -> off + Z.of_nat (length data) < 2 ^ 63 ->
  exists e, cf !! j = Some e /\ findPage cf (off + Z.of_nat j * PAGE_SIZE) i = Some ((i + j)%nat, e) /\
    fileOffset e = off + Z.of_nat j * PAGE_SIZE /\ room m (addr e) PAGE_SIZE /\
    holds m (addr e) (take 4096 (drop (j * 4096) data)).
Proof.
  revert data j off i. induction cf as [|e cf IH]; intros data j off i; cbn [pages_rep].
  { intros -> Hj. simpl in Hj. lia. }
  intros (Hne & Ho & Hr & Hh & Hp) Hj H0 Hl. cbn [findPage]. rewrite Ho.
  assert (Hdl : length (drop 4096 data) = (length data - 4096)%nat) by apply length_drop.
  destruct j as [|j].
  - exists e. rewrite Z.add_0_r. rewrite uwrap_small by (unfold PAGE_SIZE; lia).
    destruct (Z.leb_spec off off); [|lia]. destruct (Z.ltb_spec off (off + PAGE_SIZE)); [|unfold PAGE_SIZE in *; lia].
    cbn [andb]. split_and!; [done|by rewrite Nat.add_0_r|done|done|exact Hh].
  - rewrite uwrap_small by (unfold PAGE_SIZE; lia).
    destruct (Z.ltb_spec (off + Z.of_nat (S j) * PAGE_SIZE) (off + PAGE_SIZE)); [unfold PAGE_SIZE in *; lia|].
    rewrite andb_false_r.
    destruct (IH (drop 4096 data) j (off + PAGE_SIZE) (S i)) as (e' & He & Hf & Ho' & Hr' & Hh'); [done|lia|unfold PAGE_SIZE; lia|unfold PAGE_SIZE; lia|].
    exists e'. split_and!; [done| | |done|].
    + replace (off + Z.of_nat (S j) * PAGE_SIZE) with (off + PAGE_SIZE + Z.of_nat j * PAGE_SIZE) by (unfold PAGE_SIZE; lia).
      rewrite Hf. f_equal. f_equal. lia.
    + rewrite Ho'. unfold PAGE_SIZE. lia.
    + rewrite drop_drop in Hh'. by replace (4096 + j * 4096)%nat with (S j * 4096)%nat in Hh' by lia.
Qed.
End pages.

Section contents.
Context {H : Type} `{KernelMemory H}.
Implicit Types s : fs H.

(** [s] after bytes and the contents of the inode [i] have changed. *)
Definition changed s (i : Z) (x : Inode) (m : gmap Z Z) : fs H := set_bytes m (set_inodes (<[i := x]> (inodes s)) s).

Lemma changed_id s i x : inodes s !! i = Some x -> changed s i x (bytes s) = s.
Proof. intros Hi. destruct s. unfold changed, set_bytes, set_inodes. fssimpl. by rewrite insert_id. Qed.
Lemma changed_changed s i x1 m1 x2 m2 : changed (changed s i x1 m1) i x2 m2 = changed s i x2 m2.
Proof. destruct s. unfold changed, set_bytes, set_inodes. fssimpl. by rewrite insert_insert_eq. Qed.
Lemma changed_inode s i x m : inodes (changed s i x m) !! i = Some x.
Proof. apply lookup_insert_eq. Qed.
Lemma set_bytes_changed s m : forall i x, inodes s !! i = Some x -> set_bytes m s = changed s i x m.
Proof. intros i x Hi. destruct s. unfold changed, set_bytes, set_inodes. fssimpl. by rewrite insert_id. Qed.

Lemma copied_room m m' dst src n a k : copied m m' dst src n -> 0 <= n -> room m src n -> room m a k -> room m' a k.
Proof.
  intros [Hi Ho] Hn Hs Ha x Hx. destruct (decide (dst <= x < dst + n)) as [Hd|Hd].
  - replace x with (dst + (x - dst)) by lia. rewrite Hi by lia. apply Hs. lia.
  - rewrite Ho by done. by apply Ha.
Qed.

Lemma copyUnits_spec (k n : nat) dst src s :
  let t := Z.of_nat k * Z.of_nat n in
  room (bytes s) src t -> room (bytes s) dst t -> dst + t <= src \/ src + t <= dst ->
  wp (copyUnits k n dst src) s (fun e s' => e = 0 /\ exists m', s' = set_bytes m' s /\ copied (bytes s) m' dst src t).
Proof.
  revert dst src s. induction n as [|n IH]; intros dst src s t Hs Hd Hap; subst t; cbn [copyUnits].
  { apply wp_ret. split; [done|]. exists (bytes s). split; [by destruct s|]. split; [intros; lia|done]. }
  apply wp_bind, wp_gets.
  destruct (copyUnit_spec k dst src (bytes s)) as (l & m1 & -> & -> & Hc); [intros x Hx; apply Hs; nia|intros x Hx; apply Hd; nia|].
  assert (Hu : room (bytes s) src (Z.of_nat k)) by (intros x Hx; apply Hs; nia).
  apply wp_bind, wp_modify. wp_use (IH (dst + Z.of_nat k) (src + Z.of_nat k) (set_bytes m1 s)); fssimpl; [| |nia|].
  - eapply copied_room; [exact Hc|lia|done|]. intros x Hx. apply Hs. nia.
  - eapply copied_room; [exact Hc|lia|done|]. intros x Hx. apply Hd. nia.
  - intros e s' (-> & m' & -> & Hm'). split; [done|]. exists m'. split; [by destruct s|].
    replace (Z.of_nat k * Z.of_nat (S n)) with (Z.of_nat k + Z.of_nat k * Z.of_nat n) by lia.
    eapply copied_trans; [lia|lia|nia|exact Hc|exact Hm'].
Qed.

Lemma userMemcpy_spec n dst src s :
  0 <= n -> room (bytes s) src n -> room (bytes s) dst n -> dst + n <= src \/ src + n <= dst ->
  wp (userMemcpy dst src n) s (fun e s' => e = 0 /\ exists m', s' = set_bytes m' s /\ copied (bytes s) m' dst src n).
Proof.
  intros Hn Hs Hd Hap. unfold userMemcpy. destruct (Z.eqb_spec (n mod 8) 0) as [H8|_]; cbn [negb].
  - pose proof (copyUnits_spec 8 (Z.to_nat (n / 8)) dst src s) as Hc. cbv zeta in Hc.
    replace (Z.of_nat 8 * Z.of_nat (Z.to_nat (n / 8))) with n in Hc by dlia. by apply Hc.
  - pose proof (copyUnits_spec 1 (Z.to_nat n) dst src s) as Hc. cbv zeta in Hc.
    replace (Z.of_nat 1 * Z.of_nat (Z.to_nat n)) with n in Hc by lia. by apply Hc.
Qed.

Lemma wp_filePages i x p cf s Q :
  inodes s !! i = Some x -> cachedData x = FileCache p cf -> Q (p, cf) s -> wp (filePages i) s Q.
Proof. intros Hi Hc HQ. apply wp_bind, (wp_getInode i x); [done|]. by rewrite Hc. Qed.

(** Touching a page changes its time stamp and dirty mark only. *)
Lemma touchPage_spec i pos wr x p cf s :
  inodes s !! i = Some x -> cachedData x = FileCache p cf ->
  wp (touchPage i pos wr) s (fun _ s' => exists cf', Forall2 same_page cf cf' /\
    s' = changed s i (i_cache (FileCache p cf') x) (bytes s)).
Proof.
  intros Hi Hc. unfold touchPage. apply wp_bind, (wp_filePages i x p cf); [done|done|]. apply wp_bind, wp_gets.
  apply (wp_updInode i x); [done|]. eexists. split; [|by destruct s]. by apply same_page_alter.
Qed.

(** What a read of [l] into [buffer] does to the store. *)
Definition read_into s s' (i p : Z) (x : Inode) (cf : list CfEntry) (buffer : Z) (l : list Z) : Prop :=
  exists m' cf', Forall2 same_page cf cf' /\ s' = changed s i (i_cache (FileCache p cf') x) m' /\ holds m' buffer l /\
    forall y, ~ buffer <= y < buffer + Z.of_nat (length l) -> m' !! y = bytes s !! y.

Lemma apart_pages m m' buffer n cf off data :
  pages_rep m off cf data -> apart buffer n cf -> (forall y, ~ buffer <= y < buffer + n -> m' !! y = m !! y) ->
  pages_rep m' off cf data.
Proof.
  intros Hp Ha Hm. eapply pages_rep_frame; [done|]. eapply Forall_impl; [exact Ha|]. cbv beta. intros e He y Hy.
  apply Hm. lia.
Qed.

(** One page of a read. *)
Lemma read_page i x p cf data (j : nat) off buffer (n : nat) s :
  inodes s !! i = Some x -> cachedData x = FileCache p cf -> pages_rep (bytes s) 0 cf data -> off = Z.of_nat j * PAGE_SIZE ->
  (0 < n <= 4096)%nat -> (j * 4096 + n <= length data)%nat -> Z.of_nat (length data) < 2 ^ 63 ->
  room (bytes s) buffer (Z.of_nat n) -> apart buffer (Z.of_nat n) cf ->
  exists pos e, findPage cf off 0 = Some (pos, e) /\ u32 (off - fileOffset e) = 0 /\
    wp (touchPage i pos false;; userMemcpy buffer (addr e + 0) (Z.of_nat n)) s (fun r s' =>
      r = 0 /\ read_into s s' i p x cf buffer (take n (drop (j * 4096) data))).
Proof.
  intros Hi Hc Hp -> Hn Hl Hb Hroom Hap.
  destruct (findPage_aligned _ cf data j 0 0 Hp ltac:(lia) ltac:(lia) ltac:(lia)) as (e & He & Hf & Ho & Hr & Hh).
  exists j, e. split; [exact Hf|]. split; [by rewrite Ho, Z.add_0_l, Z.sub_diag|].
  apply wp_bind. wp_use (touchPage_spec i j false x p cf s Hi Hc). intros _ s1 (cf1 & Hs1 & ->).
  assert (Hd : addr e + 4096 <= buffer \/ buffer + Z.of_nat n <= addr e).
  { apply list_elem_of_lookup_2 in He. unfold apart in Hap. rewrite Forall_forall in Hap. specialize (Hap e He). unfold PAGE_SIZE in Hap. lia. }
  rewrite Z.add_0_r. set (l := take n (drop (j * 4096) data)).
  assert (Hln : length l = n) by (unfold l; rewrite length_take, length_drop; lia).
  assert (Hsrc : holds (bytes s) (addr e) l).
  { apply (holds_prefix _ _ _ n) in Hh. rewrite take_take in Hh. by replace (n `min` 4096)%nat with n in Hh by lia. }
  wp_use (userMemcpy_spec (Z.of_nat n) buffer (addr e) (changed s i (i_cache (FileCache p cf1) x) (bytes s))).
  - lia.
  - intros y Hy. apply Hr. unfold PAGE_SIZE. lia.
  - exact Hroom.
  - lia.
  - intros r s' (-> & m' & -> & Hcp). split; [done|]. exists m', cf1. split_and!; [done|by destruct s| |].
    + eapply copied_holds; [by rewrite Hln|exact Hsrc].
    + rewrite Hln. apply Hcp.
Qed.

Lemma read_into_trans s s1 s2 i p x cf cf1 m1 buffer l1 l2 :
  s1 = changed s i (i_cache (FileCache p cf1) x) m1 -> Forall2 same_page cf cf1 -> holds m1 buffer l1 ->
  (forall y, ~ buffer <= y < buffer + Z.of_nat (length l1) -> m1 !! y = bytes s !! y) ->
  read_into s1 s2 i p (i_cache (FileCache p cf1) x) cf1 (buffer + Z.of_nat (length l1)) l2 ->
  read_into s s2 i p x cf buffer (l1 ++ l2).
Proof.
  intros -> Hs1 Hh1 Ho1 (m2 & cf2 & Hs2 & -> & Hh2 & Ho2). exists m2, cf2. split_and!.
  - by eapply same_page_trans.
  - by rewrite changed_changed.
  - apply holds_app; [|done]. eapply holds_frame; [exact Hh1|]. intros y Hy. apply Ho2. lia.
  - intros y Hy. rewrite length_app in Hy. rewrite Ho2 by lia. apply Ho1. lia.
Qed.

(** The loop reads whole pages and then the rest. *)
Lemma readLoop_spec k i x p cf data (j L : nat) off buffer c old s :
  inodes s !! i = Some x -> cachedData x = FileCache p cf -> pages_rep (bytes s) 0 cf data -> off = Z.of_nat j * PAGE_SIZE ->
  (L <= k * 4096)%nat -> (j * 4096 + L <= length data)%nat -> Z.of_nat (length data) < 2 ^ 63 ->
  room (bytes s) buffer (Z.of_nat L) -> apart buffer (Z.of_nat L) cf ->
  wp (readLoop k i buffer off (Z.of_nat L) c old) s (fun ro s' =>
    ro = (c + Z.of_nat L, off + Z.of_nat L) /\ read_into s s' i p x cf buffer (take L (drop (j * 4096) data))).
Proof.
  revert x cf j L off buffer c s. induction k as [|k IH]; intros x cf j L off buffer c s Hi Hc Hp Hoff Hk Hl Hb Hroom Hap.
  all: destruct (decide (L = 0)%nat) as [->|HL].
  1, 3: cbn [readLoop]; apply wp_ret; rewrite !Z.add_0_r; split; [done|]; exists (bytes s), cf;
    split_and!; [apply same_page_refl| |done|done]; rewrite changed_id; [done|]; rewrite Hi; by destruct x; simpl in Hc; subst.
  { lia. }
  cbn [readLoop]. destruct (Z.eqb_spec (Z.of_nat L) 0); [lia|].
  apply wp_bind, (wp_filePages i x p cf); [done|done|]. cbn [fst snd].
  set (c0 := (L `min` 4096)%nat). assert (Hn : (0 < c0 <= L)%nat) by lia. assert (Hn4 : (c0 <= 4096)%nat) by lia.
  destruct (read_page i x p cf data j off buffer c0 s) as (pos & e & Hf & Hd & Hw); [done..|lia|lia|done| | |].
  { intros y Hy. apply Hroom. lia. } { eapply apart_shorter; [done|lia|lia]. }
  rewrite Hf, Hd. replace (if _ >? _ then _ else _) with (Z.of_nat c0) by (unfold PAGE_SIZE; destruct (Z.gtb_spec (Z.of_nat L) 4096); lia).
  apply wp_bind in Hw. apply wp_bind. wp_use Hw. intros _ s1 Hw1. apply wp_bind. wp_use Hw1.
  intros r s2 (-> & m1 & cf1 & Hs1 & -> & Hh1 & Ho1). cbn [Z.eqb negb].
  assert (Hln : length (take c0 (drop (j * 4096) data)) = c0) by (rewrite length_take, length_drop; lia). rewrite Hln in Ho1.
  replace (Z.of_nat L - Z.of_nat c0) with (Z.of_nat (L - c0)) by lia.
  rewrite (uwrap_small 64) by (unfold PAGE_SIZE in *; lia).
  destruct (decide (L = c0)) as [HLn|HLn].
  - replace (L - c0)%nat with 0%nat by lia.
    assert (He : forall k' a b c' d s', readLoop k' i a b 0 c' d s' = Done ((c', b), s')) by (by intros []).
    unfold wp. rewrite He. rewrite HLn. split; [done|]. exists m1, cf1. rewrite Hln. done.
  - assert (c0 = 4096)%nat by lia. 
    wp_use (IH (i_cache (FileCache p cf1) x) cf1 (S j) (L - c0)%nat (off + Z.of_nat c0) (buffer + Z.of_nat c0) (c + Z.of_nat c0)
      (changed s i (i_cache (FileCache p cf1) x) m1)).
    + apply changed_inode.
    + done.
    + eapply pages_rep_same; [done|]. eapply apart_pages; [exact Hp|exact Hap|]. intros y Hy. apply Ho1. lia.
    + rewrite Hoff. unfold PAGE_SIZE. lia.
    + lia.
    + lia.
    + done.
    + intros y Hy. change (bytes _) with m1.
      destruct (decide (buffer <= y < buffer + Z.of_nat c0)); [|rewrite Ho1 by done; apply Hroom; lia].
      eapply holds_room; [exact Hh1|]. rewrite Hln. lia.
    + eapply apart_same; [done|]. eapply apart_shorter; [done|lia|lia].
    + intros ro s' (-> & Hr). split; [f_equal; lia|].
      rewrite <- (take_drop c0 (take L (drop (j * 4096) data))).
      rewrite take_take, skipn_firstn_comm, drop_drop. replace (c0 `min` L)%nat with c0 by lia.
      eapply read_into_trans; [done|done|done|rewrite Hln; exact Ho1|]. rewrite Hln.
      replace (j * 4096 + c0)%nat with (S j * 4096)%nat by lia. exact Hr.
Qed.
End contents.

Section files.
Context {H : Type} `{KernelMemory H}.
Context (devices : Z -> option (DevFileOps (fs H))) (junk : Z).
Implicit Types s : fs H.

(** The pages that an inode caches. *)
Definition pages_of (x : Inode) (cf : list CfEntry) : Prop :=
  match cachedData x with NoCache => cf = [] | FileCache _ l => l = cf | _ => False end.
(** The inode [i] is a regular file of the RAM file system with the contents
    [data]; nobody holds its lock. *)
Definition file_at s (i : Z) (x : Inode) (cf : list CfEntry) (data : list Z) : Prop :=
  inodes s !! i = Some x /\ ilock x = false /\ isDirInode x = false /\ isCharInode x = false /\
  has (ramfs x) RAMFS_INITRD = false /\ fileSize x = Z.of_nat (length data) /\ Z.of_nat (length data) < 2 ^ 63 /\
  pages_of x cf /\ pages_rep (bytes s) 0 cf data.

Lemma pages_rep_nil m off data : pages_rep m off [] data -> data = [].
Proof. done. Qed.

(** A read from a page boundary: it returns as much as there is and as fits,
    puts exactly those bytes of the file into the buffer, advances the offset
    by their number, and changes nothing else in memory; the file keeps its
    contents and its lock is released. *)
Lemma fsRead_aligned f x cf data (j : nat) buffer bufSize s :
  file_at s (inode f) x cf data -> flock f = 0 -> offset f = Z.of_nat j * PAGE_SIZE -> offset f <= Z.of_nat (length data) ->
  0 <= bufSize -> room (bytes s) buffer bufSize -> apart buffer bufSize cf ->
  let n := Z.min bufSize (Z.of_nat (length data) - offset f) in
  wp (fsRead devices f buffer bufSize) s (fun r s' =>
    r = (n, setOffset (offset f + n) f) /\
    holds (bytes s') buffer (take (Z.to_nat n) (drop (Z.to_nat (offset f)) data)) /\
    (forall y, ~ buffer <= y < buffer + n -> bytes s' !! y = bytes s !! y) /\
    exists x' cf', file_at s' (inode f) x' cf' data /\ Forall2 same_page cf cf' /\
      x' = i_cache (cachedData x') x /\ s' = changed s (inode f) x' (bytes s')).
Proof.
  intros (Hi & Hl & Hdir & Hch & Hrd & Hsz & Hb & Hpg & Hp) Hfl Hoff Hle Hbuf Hroom Hap n.
  unfold fsRead. apply wp_bind. unfold lockFileOf. rewrite Hfl. apply wp_ret.
  apply wp_bind, (wp_acquire _ x); [done|done|]. set (s1 := locked s (inode f) x).
  apply wp_bind, (wp_getInode _ (i_lock true x)); [apply lookup_insert_eq|].
  change (isDirInode (i_lock true x)) with (isDirInode x). change (isCharInode (i_lock true x)) with (isCharInode x).
  rewrite Hdir, Hch. fssimpl. rewrite Hrd. apply wp_bind. unfold pages_of in Hpg.
  destruct (cachedData x) as [|p l|p l|p] eqn:Hc; [|done| |done].
  { subst cf. apply pages_rep_nil in Hp as ->. replace n with 0 by (unfold n; simpl in *; unfold PAGE_SIZE in *; lia).
    apply wp_ret. apply wp_bind, (wp_release_locked _ x); [done|done|]. apply wp_ret.
    rewrite Z.add_0_r. split_and!; [done|intros k c Hk; by rewrite drop_nil, take_nil, lookup_nil in Hk|done|].
    exists x, []. split; [|split; [constructor|split; [by destruct x|by rewrite changed_id]]]. split_and!; try done. unfold pages_of. by rewrite Hc. }
  subst l. rewrite Hsz, (uwrap_small 64) by (unfold PAGE_SIZE in *; lia).
  replace (if _ >? bufSize then _ else _) with n by (unfold n; destruct (Z.gtb_spec (Z.of_nat (length data) - offset f) bufSize); lia).
  assert (Hn : 0 <= n <= bufSize /\ offset f + n <= Z.of_nat (length data)) by lia.
  rewrite <- (Z2Nat.id n) by lia. rewrite Nat2Z.id. set (L := Z.to_nat n).
  apply wp_bind. wp_use (readLoop_spec (S (Z.to_nat (Z.of_nat L / PAGE_SIZE))) (inode f) (i_lock true x) p cf data j L (offset f) buffer 0 (offset f) s1);
    [apply lookup_insert_eq|done|done|done| | |done| | |].
  { unfold PAGE_SIZE. dlia. } { unfold PAGE_SIZE in *. lia. }
  { intros y Hy. apply Hroom. lia. } { eapply apart_shorter; [done|lia|lia]. }
  intros ro s2 (-> & m' & cf' & Hs' & -> & Hh & Ho). apply wp_ret. cbn [fst snd].
  apply wp_bind, (wp_updInode _ (i_cache (FileCache p cf') (i_lock true x))); [apply changed_inode|]. apply wp_ret.
  assert (HL : length (take L (drop (j * 4096) data)) = L) by (rewrite length_take, length_drop; unfold PAGE_SIZE in *; lia).
  rewrite HL in Ho. replace (Z.to_nat (offset f)) with (j * 4096)%nat by (unfold PAGE_SIZE in *; lia).
  split_and!; [done|exact Hh|exact Ho|].
  - exists (i_lock false (i_cache (FileCache p cf') (i_lock true x))), cf'. split; [|split; [done|]].
    + split_and!; try done; [apply lookup_insert_eq|].
    eapply pages_rep_same; [done|]. eapply apart_pages; [exact Hp|exact Hap|]. intros y Hy. apply Ho. lia.
    + cbn. destruct x. cbn in *. subst. split; [done|]. unfold changed, s1, locked. fssimpl. by rewrite !insert_insert_eq.
Qed.

Lemma mapFresh_in n a m y : a <= y < a + Z.of_nat n -> mapFresh junk n a m !! y = Some junk.
Proof.
  revert a. induction n as [|n IH]; intros a Hy; [lia|]. cbn [mapFresh].
  destruct (decide (a = y)) as [->|]; [apply lookup_insert_eq|]. rewrite lookup_insert_ne by done. apply IH. lia.
Qed.
Lemma mapFresh_out n a m y : ~ a <= y < a + Z.of_nat n -> mapFresh junk n a m !! y = m !! y.
Proof.
  revert a. induction n as [|n IH]; intros a Hy; [done|]. cbn [mapFresh].
  rewrite lookup_insert_ne by lia. apply IH. lia.
Qed.

Lemma pages_rep_snoc m off cf data (j : nat) e l :
  pages_rep m off cf data -> length data = (j * 4096)%nat -> (0 < length l <= 4096)%nat ->
  fileOffset e = off + Z.of_nat j * PAGE_SIZE -> room m (addr e) PAGE_SIZE -> holds m (addr e) l ->
  pages_rep m off (cf ++ [e]) (data ++ l).
Proof.
  revert off data j. induction cf as [|e1 cf IH]; intros off data j Hp Hj Hl Ho Hr Hh; cbn [app pages_rep] in *.
  - subst data. simpl in Hj. rewrite take_ge, drop_ge by (simpl; lia). cbn [app].
    split_and!; [by destruct l; simpl in Hl; [lia|]|rewrite Ho; lia|done|done|done].
  - destruct Hp as (Hne & Ho1 & Hr1 & Hh1 & Hp). destruct j as [|j].
    { destruct data; [done|]. simpl in Hj. lia. }
    rewrite take_app_le, drop_app_le by lia. split_and!; [by destruct data|done|done|done|].
    apply (IH _ _ j); [done|rewrite length_drop; lia|done| |done|done]. rewrite Ho. unfold PAGE_SIZE. lia.
Qed.

(** The request for the grown array of pages. *)
Definition newArray (x : Inode) (h : H) : Z * H :=
  if fileSize x =? 0 then kmalloc sizeofCachedFile h
  else krealloc (match cachedData x with FileCache p _ => p | _ => 0 end) (u64 (cachedDataSize x + sizeofCfEntry)) h.

Lemma allocPage_spec page h2 s Q :
  allocKPages PAGE_SIZE (heap s) = (page, h2) -> page <> 0 ->
  Q page (set_bytes (mapFresh junk 4096 page (bytes s)) (set_heap h2 s)) -> wp (allocPage junk) s Q.
Proof.
  intros Ha Hne HQ. apply wp_bind, wp_onHeap. rewrite Ha. cbn [fst snd].
  destruct (Z.eqb_spec page 0); [done|]. apply wp_bind, wp_modify. apply wp_ret. exact HQ.
Qed.

(** One new page, filled from the buffer. *)
Lemma growPage_spec i x p cf off buffer l page h2 s :
  inodes s !! i = Some x -> cachedData x = FileCache p cf -> (0 < length l <= 4096)%nat -> 0 <= off < 2 ^ 63 -> 0 <= fileSize x < 2 ^ 63 ->
  holds (bytes s) buffer l -> allocKPages PAGE_SIZE (heap s) = (page, h2) -> page <> 0 ->
  buffer + Z.of_nat (length l) <= page \/ page + PAGE_SIZE <= buffer ->
  wp (growPages junk 1 0 i buffer off (Z.of_nat (length l))) s (fun r s' =>
    r = (0, off + Z.of_nat (length l)) /\ exists m', s' = changed (set_heap h2 s) i
      (i_data (fileSize x + Z.of_nat (length l)) (cacheDirty x)
         (FileCache p (cf ++ [mkCf page off true (u32 (jiffyCounter s))])) (cachedDataSize x) x) m' /\
      room m' page PAGE_SIZE /\ holds m' page l /\ (forall y, ~ page <= y < page + PAGE_SIZE -> m' !! y = bytes s !! y)).
Proof.
  intros Hi Hc Hl Hoff Hsz Hh Ha Hne Hd. cbn [growPages]. apply wp_bind, (allocPage_spec page h2); [done|done|].
  destruct (Z.eqb_spec page 0); [done|]. set (s1 := set_bytes _ _).
  apply wp_bind, (wp_filePages i x p cf); [exact Hi|done|]. apply wp_bind, wp_gets.
  apply wp_bind, (wp_updInode i x); [exact Hi|]. set (s2 := set_inodes _ s1).
  replace (if _ >? _ then _ else _) with (Z.of_nat (length l)) by (unfold PAGE_SIZE; destruct (Z.gtb_spec (Z.of_nat (length l)) 4096); lia).
  assert (Hout : forall y, ~ page <= y < page + PAGE_SIZE -> bytes s2 !! y = bytes s !! y) by (intros y Hy; by apply mapFresh_out).
  assert (Hsrc : holds (bytes s2) buffer l) by (eapply holds_frame; [exact Hh|]; intros y Hy; apply Hout; lia).
  assert (Hin : forall y, page <= y < page + PAGE_SIZE -> is_Some (bytes s2 !! y)) by (intros y Hy; exists junk; by apply mapFresh_in).
  apply wp_bind. wp_use (userMemcpy_spec (Z.of_nat (length l)) page buffer s2).
  - lia.
  - by apply holds_room.
  - intros y Hy. apply Hin. unfold PAGE_SIZE. lia.
  - unfold PAGE_SIZE in Hd. lia.
  - intros r s3 (-> & m' & -> & Hcp). cbn [Z.eqb negb]. apply wp_bind.
    apply (wp_updInode i (i_cache (FileCache p (cf ++ [mkCf page off true (u32 (jiffyCounter s))])) x)).
    { unfold s2. fssimpl. rewrite lookup_insert_eq, Z.mul_0_l, Z.add_0_r, (uwrap_small 64) by lia. done. }
    apply wp_ret. rewrite (uwrap_small 64) by lia. split; [done|]. exists m'. split_and!.
    + unfold changed. destruct s. unfold s2, s1, set_bytes, set_heap, set_inodes. fssimpl.
      rewrite insert_insert_eq, (uwrap_small 64) by lia. done.
    + intros y Hy. destruct (decide (page <= y < page + Z.of_nat (length l))).
      * eapply holds_room; [eapply copied_holds; [exact Hcp|exact Hsrc]|done].
      * rewrite (proj2 Hcp) by done. by apply Hin.
    + by eapply copied_holds.
    + intros y Hy. rewrite (proj2 Hcp) by (unfold PAGE_SIZE in Hy; lia). by apply Hout.
Qed.

Lemma one_page n : 0 < n <= 4096 -> u32 (sizeToPages n) = 1.
Proof.
  intros Hn. unfold sizeToPages, PAGE_SIZE. destruct (decide (n = 4096)) as [->|]; [done|].
  rewrite Z.div_small, Z.mod_small by lia. destruct (Z.eqb_spec n 0); [lia|done].
Qed.

(** The inode after an append of [l]. *)
Definition grown (x : Inode) (q : Z) (sz : Z) (cf : list CfEntry) (n : Z) : Inode :=
  i_data (fileSize x + n) true (FileCache q cf) sz x.

Lemma appendPages_spec i x cf off buffer l q h1 page h2 s :
  inodes s !! i = Some x -> pages_of x cf -> fileSize x = off -> (off = 0 -> cf = []) -> (off <> 0 -> exists p, cachedData x = FileCache p cf) ->
  cacheDirty x = true -> (0 < length l <= 4096)%nat -> 0 <= off < 2 ^ 63 -> holds (bytes s) buffer l ->
  newArray x (heap s) = (q, h1) -> q <> 0 -> allocKPages PAGE_SIZE h1 = (page, h2) -> page <> 0 ->
  buffer + Z.of_nat (length l) <= page \/ page + PAGE_SIZE <= buffer ->
  wp (appendPages junk i buffer off (Z.of_nat (length l))) s (fun r s' =>
    r = (0, off + Z.of_nat (length l)) /\ exists m' sz, s' = changed (set_heap h2 s) i
      (grown x q sz (cf ++ [mkCf page off true (u32 (jiffyCounter s))]) (Z.of_nat (length l))) m' /\
      room m' page PAGE_SIZE /\ holds m' page l /\ (forall y, ~ page <= y < page + PAGE_SIZE -> m' !! y = bytes s !! y)).
Proof.
  intros Hi Hpg Hsz Hz Hnz Hdirty Hl Hoff Hh Hq Hq0 Ha Hne Hd. unfold appendPages.
  apply wp_bind, (wp_getInode i x); [done|]. rewrite one_page by lia.
  change (u32 (1 - 1) * sizeofCfEntry) with 0. rewrite Z.add_0_r, Z.mul_1_r.
  set (sz := if off =? 0 then _ else _).
  assert (Harr : wp (if off =? 0 then cf ← onHeap (kmalloc sz); mret (cf, [])
        else pcf ← filePages i; cf ← onHeap (krealloc pcf.1 sz); mret (cf, pcf.2)) s
        (fun r s' => r = (q, cf) /\ s' = set_heap h1 s)).
  { unfold newArray in Hq. rewrite Hsz in Hq. destruct (Z.eqb_spec off 0) as [Ho|Ho].
    - apply wp_bind, wp_onHeap. unfold sz. rewrite Hq. apply wp_ret. by rewrite (Hz Ho).
    - destruct (Hnz Ho) as [p Hp]. rewrite Hp in Hq. apply wp_bind, (wp_filePages i x p cf); [done|done|].
      apply wp_bind, wp_onHeap. unfold sz. cbn [fst snd]. rewrite Hq. by apply wp_ret. }
  apply wp_bind. wp_use Harr. intros r s1 (-> & ->). cbn [fst snd]. destruct (Z.eqb_spec q 0); [done|].
  apply wp_bind, (wp_updInode i x); [exact Hi|]. change (Z.to_nat 1) with 1%nat.
  wp_use (growPage_spec i (i_data (fileSize x) (cacheDirty x) (FileCache q cf) sz x) q cf off buffer l page h2
    (set_inodes (<[i := i_data (fileSize x) (cacheDirty x) (FileCache q cf) sz x]> (inodes s)) (set_heap h1 s)));
    [apply lookup_insert_eq|done|done|done|fssimpl; lia|exact Hh|exact Ha|done|done|].
  intros r s2 (-> & m' & -> & Hm). split; [done|]. exists m', sz. split; [|exact Hm].
  unfold grown, changed. destruct s. unfold set_bytes, set_heap, set_inodes. fssimpl. by rewrite insert_insert_eq, Hdirty.
Qed.

(** An append of at most a page to a file of whole pages (the empty file too):
    when the memory is granted, the file then holds its old contents followed by
    the bytes of the buffer, the offset is at its new end, and nothing else has
    changed.  The new page must be fresh: no part of it is user memory of the
    caller or a page of the file. *)
Lemma fsWrite_append fuel f x cf data (j : nat) buffer l q h1 page h2 s :
  file_at s (inode f) x cf data -> flock f = 0 -> offset f = Z.of_nat (length data) -> length data = (j * 4096)%nat ->
  (0 < length l <= 4096)%nat -> Z.of_nat (length data + length l) < 2 ^ 63 -> holds (bytes s) buffer l ->
  newArray x (heap s) = (q, h1) -> q <> 0 -> allocKPages PAGE_SIZE h1 = (page, h2) -> page <> 0 ->
  buffer + Z.of_nat (length l) <= page \/ page + PAGE_SIZE <= buffer -> apart page PAGE_SIZE cf ->
  wp (fsWrite devices junk (S fuel) f buffer (Z.of_nat (length l))) s (fun r s' =>
    r = (0, setOffset (offset f + Z.of_nat (length l)) f) /\
    (exists x', file_at s' (inode f) x' (cf ++ [mkCf page (offset f) true (u32 (jiffyCounter s))]) (data ++ l)) /\
    (forall y, ~ page <= y < page + PAGE_SIZE -> bytes s' !! y = bytes s !! y) /\
    (forall k, k <> inode f -> inodes s' !! k = inodes s !! k)).
Proof.
  intros (Hi & Hlk & Hdir & Hch & Hrd & Hsz & Hb & Hpg & Hp) Hfl Hoff Hj Hl Hb2 Hh Hq Hq0 Ha Hne Hd Hap.
  unfold fsWrite. apply wp_bind. unfold lockFileOf. rewrite Hfl. apply wp_ret.
  apply wp_bind, (wp_getInode _ x); [done|]. rewrite Hdir, Hch, Hrd.
  apply wp_bind, (wp_acquire _ x); [done|done|]. apply wp_bind. cbn [writeLoop].
  destruct (Z.eqb_spec (Z.of_nat (length l)) 0); [lia|].
  apply wp_bind, (wp_updInode _ (i_lock true x)); [apply lookup_insert_eq|].
  set (x1 := i_data _ true _ _ (i_lock true x)). set (s1 := set_inodes _ (locked _ _ _)).
  apply wp_bind, (wp_getInode _ x1); [apply lookup_insert_eq|]. change (fileSize x1) with (fileSize x).
  rewrite Hoff, Hsz, Z.eqb_refl. destruct (Z.eqb_spec (Z.of_nat (length data) mod PAGE_SIZE) 0) as [_|Hm]; cycle 1.
  { rewrite Hj, Nat2Z.inj_mul in Hm. by rewrite Z.mod_mul in Hm by done. }
  cbn [andb]. wp_use (appendPages_spec (inode f) x1 cf (Z.of_nat (length data)) buffer l q h1 page h2 s1);
    [apply lookup_insert_eq|exact Hpg|exact Hsz| | |done|done|lia|exact Hh|exact Hq|done|done|done|done|].
  { intros Hnil. destruct data; [|simpl in Hnil; lia]. destruct cf; [done|]. by destruct Hp as [? _]. }
  { intros Hnil. unfold pages_of in Hpg. change (cachedData x1) with (cachedData x).
    destruct (cachedData x) as [|p' l'|p' l'|p']; try done; [subst cf; by apply pages_rep_nil in Hp; subst|]. exists p'. by subst. }
  intros r s2 (-> & m' & sz & -> & Hr & Hhl & Ho). cbn [fst snd].
  apply wp_bind, (wp_updInode _ (grown x1 q sz (cf ++ [mkCf page (Z.of_nat (length data)) true (u32 (jiffyCounter s1))]) (Z.of_nat (length l))));
    [apply changed_inode|]. apply wp_ret. split_and!; [done| |exact Ho|].
  - eexists. split_and!; [apply lookup_insert_eq|done|done|done|done| |rewrite length_app; lia|done|].
    + fssimpl. unfold grown. fssimpl. rewrite length_app. change (fileSize x1) with (fileSize x). lia.
    + apply (pages_rep_snoc _ _ _ _ j); [|done|done| |exact Hr|exact Hhl].
      * change (pages_rep m' 0 cf data). by eapply apart_pages.
      * cbn [fileOffset]. unfold PAGE_SIZE. lia.
  - intros k Hk. unfold changed, s1, locked. fssimpl. by rewrite !lookup_insert_ne by done.
Qed.

(** C27: [fsSeek] moves the offset to a place in the file or refuses, whatever the
    file and the arguments are. *)
Theorem fsSeek_correct f x off whence s :
  inodes s !! inode f = Some x -> ilock x = false -> flock f = 0 -> 0 <= fileSize x < 2 ^ 63 -> 0 <= offset f <= fileSize x ->
  - 2 ^ 63 <= off < 2 ^ 63 ->
  let target := if whence =? SEEK_SET then off else if whence =? SEEK_CUR then offset f + off else fileSize x + off in
  let legal := (whence =? SEEK_SET) || (whence =? SEEK_CUR) || (whence =? SEEK_END) in
  wp (fsSeek f off whence) s (fun r s' => s' = s /\
    (r = if legal && (0 <=? target) && (target <=? fileSize x) then (0, setOffset target f) else (- EINVAL, setOffset (offset f) f))).
Proof.
  intros Hi Hl Hfl Hsz Ho Hoff target legal. unfold fsSeek. apply wp_bind. unfold lockFileOf. rewrite Hfl. apply wp_ret.
  apply wp_bind, (wp_acquire _ x); [done|done|]. apply wp_bind, (wp_getInode _ (i_lock true x)); [apply lookup_insert_eq|].
  fssimpl. apply wp_bind, (wp_release_locked _ x); [done|done|]. apply wp_ret. split; [done|].
  assert (Hm : forall n, (if (n <? 0) || (n >? s64 (fileSize x)) then (- EINVAL, setOffset (offset f) f) else (0, setOffset n f)) =
    (if (0 <=? n) && (n <=? fileSize x) then (0, setOffset n f) else (- EINVAL, setOffset (offset f) f))).
  { intros n. rewrite (swrap_small 64 (fileSize x)) by lia. destruct (Z.ltb_spec n 0), (Z.gtb_spec n (fileSize x)), (Z.leb_spec 0 n), (Z.leb_spec n (fileSize x)); done || lia. }
  (* a sum that overflows is negative for the code, and too large without the wrap *)
  assert (Hw : forall b, 0 <= b <= fileSize x -> (0 <=? s64 (b + off)) && (s64 (b + off) <=? fileSize x) = (0 <=? b + off) && (b + off <=? fileSize x) /\
    (0 <= b + off <= fileSize x -> s64 (b + off) = b + off)).
  { intros b Hbb. split; [|intros; rewrite swrap_small by lia; done]. destruct (Z.lt_ge_cases (b + off) (2 ^ 63)); [rewrite swrap_small by lia; done|].
    assert (Hs : s64 (b + off) = b + off - 2 ^ 64).
    { unfold swrap. rewrite (Z.mod_small (b + off)) by lia. destruct (Z.ltb_spec (b + off) (2 ^ (64 - 1))); lia. }
    rewrite Hs. destruct (Z.leb_spec 0 (b + off - 2 ^ 64)), (Z.leb_spec (b + off) (fileSize x)); lia || done. }
  unfold target, legal. destruct (whence =? SEEK_SET); cbn [orb andb]; [apply Hm|].
  assert (Hc : forall b, 0 <= b <= fileSize x ->
    (if (0 <=? s64 (b + off)) && (s64 (b + off) <=? fileSize x) then (0, setOffset (s64 (b + off)) f) else (- EINVAL, setOffset (offset f) f)) =
    (if (0 <=? b + off) && (b + off <=? fileSize x) then (0, setOffset (b + off) f) else (- EINVAL, setOffset (offset f) f))).
  { intros b Hbb. destruct (Hw b Hbb) as [-> He]. destruct ((0 <=? b + off) && (b + off <=? fileSize x)) eqn:Hb; [|done].
    rewrite He; [done|]. lia. }
  destruct (whence =? SEEK_CUR); cbn [orb andb]; [rewrite Hm; by apply Hc|].
  destruct (whence =? SEEK_END); cbn [orb andb]; [rewrite Hm; apply Hc; lia|done].
Qed.

(** Reading from a page boundary returns what there is and what fits: exactly
    those bytes of the file are in the buffer, the offset has moved by their
    number, and neither the file, other memory nor other inodes have changed. *)
Theorem fsRead_correct f x cf data (j : nat) buffer bufSize s :
  file_at s (inode f) x cf data -> flock f = 0 -> offset f = Z.of_nat j * PAGE_SIZE -> offset f <= Z.of_nat (length data) ->
  0 <= bufSize -> room (bytes s) buffer bufSize -> apart buffer bufSize cf ->
  let n := Z.min bufSize (Z.of_nat (length data) - offset f) in
  wp (fsRead devices f buffer bufSize) s (fun r s' =>
    r = (n, setOffset (offset f + n) f) /\
    holds (bytes s') buffer (take (Z.to_nat n) (drop (Z.to_nat (offset f)) data)) /\
    (forall y, ~ buffer <= y < buffer + n -> bytes s' !! y = bytes s !! y) /\
    exists x' cf', file_at s' (inode f) x' cf' data /\ Forall2 same_page cf cf' /\
      x' = i_cache (cachedData x') x /\ s' = changed s (inode f) x' (bytes s')).
Proof. apply fsRead_aligned. Qed.

(** C13: What is appended through one open file is read back through another one
    that stands at the old end: up to a page of bytes, to a file of whole pages.
    The file then holds its old contents followed by the new.  Longer writes give
    the second page a wrong offset ([two_page_write_unreadable]), and appending
    to a page that is partly used copies the rest of the page
    ([small_append_overreads]). *)
Theorem file_roundtrip fuel f g x cf data (j : nat) buffer buffer2 l q h1 page h2 s :
  file_at s (inode f) x cf data -> flock f = 0 -> offset f = Z.of_nat (length data) -> length data = (j * 4096)%nat ->
  (0 < length l <= 4096)%nat -> Z.of_nat (length data + length l) < 2 ^ 63 -> holds (bytes s) buffer l ->
  newArray x (heap s) = (q, h1) -> q <> 0 -> allocKPages PAGE_SIZE h1 = (page, h2) -> page <> 0 ->
  buffer + Z.of_nat (length l) <= page \/ page + PAGE_SIZE <= buffer -> apart page PAGE_SIZE cf ->
  inode g = inode f -> offset g = offset f -> flock g = 0 ->
  room (bytes s) buffer2 (Z.of_nat (length l)) -> apart buffer2 (Z.of_nat (length l)) (mkCf page 0 true 0 :: cf) ->
  wp (w ← fsWrite devices junk (S fuel) f buffer (Z.of_nat (length l)); r ← fsRead devices g buffer2 (Z.of_nat (length l)); mret (w.1, r.1)) s
    (fun r s' => r = (0, Z.of_nat (length l)) /\ holds (bytes s') buffer2 l /\
      exists x' cf', file_at s' (inode f) x' cf' (data ++ l)).
Proof.
  intros Hf Hfl Hoff Hj Hl Hb Hh Hq Hq0 Ha Hne Hd Hap Hi Ho Hg Hroom Hap2. inversion Hap2 as [|? ? Hpg Hap2']; subst. cbn [addr] in Hpg.
  apply wp_bind. wp_use (fsWrite_append fuel f x cf data j buffer l q h1 page h2 s); [done..|].
  intros r s1 (-> & (x1 & Hf1) & Hby & _). rewrite <- Hi in Hf1. apply wp_bind.
  wp_use (fsRead_aligned g x1 _ (data ++ l) j buffer2 (Z.of_nat (length l)) s1 Hf1 Hg).
  - rewrite Ho, Hoff. unfold PAGE_SIZE. lia.
  - rewrite length_app, Ho, Hoff. lia.
  - lia.
  - intros y Hy. rewrite Hby by lia. by apply Hroom.
  - apply Forall_app. split; [exact Hap2'|]. constructor; [exact Hpg|constructor].
  - rewrite length_app, Ho, Hoff. replace (_ `min` _) with (Z.of_nat (length l)) by lia. rewrite !Nat2Z.id.
    rewrite drop_app_length, take_ge by lia. intros r2 s2 (-> & Hhl & _ & x' & cf' & Hf' & _). apply wp_ret.
    split_and!; [done|done|]. rewrite <- Hi. eauto.
Qed.
End files.

Section witnesses.
(** User memory at 1000 .. 13000, kernel pages from 65536 on. *)
#[local] Instance demo_memory : KernelMemory Z := {
  kmalloc _ h := (32, h); krealloc _ _ h := (32, h); kfree _ h := h;
  allocKPages _ h := (h, h + 4096); deallocPages _ _ h := h
}.
Definition demo_bytes : gmap Z Z := mapFresh 7 (Z.to_nat 12000) 1000 ∅.
Definition demo_inode (c : cache) (n : Z) : Inode := mkInode 2 ITYPE_FILE 0 1 1 n 100 false 0 0 420 false c 0 0.
Definition demo_store : fs Z := mkFs (<[10 := demo_inode NoCache 0]> ∅) ∅ ∅ 1 None 65536 demo_bytes 0.
Definition demo_open : File := mkFile 0 1 0 10 0.

Lemma demo_file_at : file_at demo_store 10 (demo_inode NoCache 0) [] [].
Proof. split_and!; done. Qed.
Lemma demo_bytes_at a n : 1000 <= a -> a + Z.of_nat n <= 13000 -> holds demo_bytes a (replicate n 7).
Proof. intros Ha Hn i c Hi. apply lookup_replicate in Hi as [-> Hi]. apply mapFresh_in. lia. Qed.

(** A write into a page that is partly used copies the rest of the page,
    whatever the size that was asked for: appending three bytes to a file of five
    makes it a file of 4096 bytes and moves the offset there. *)
Theorem small_append_overreads :
  wp (w ← fsWrite no_devices 0 4 demo_open 1000 5; fsWrite no_devices 0 4 w.2 2000 3) demo_store (fun r s' =>
    r = (0, mkFile 0 1 0 10 4096) /\ (fileSize <$> inodes s' !! 10) = Some 4096).
Proof. vm_compute. done. Qed.

(** In a write of two pages the second page gets the offset 8192 instead of
    4096, because [i * PAGE_SIZE] is added to an offset that has moved already: the
    file has 8192 bytes, and those from 4096 on cannot be read. *)
Theorem two_page_write_unreadable :
  wp (fsWrite no_devices 0 4 demo_open 1000 8192;; fsRead no_devices (mkFile 0 1 0 10 4096) 10000 10) demo_store (fun r s' =>
    r.1 = - ENOSYS /\ (fileSize <$> inodes s' !! 10) = Some 8192 /\
    match cachedData <$> inodes s' !! 10 with Some (FileCache _ l) => fileOffset <$> l = [0; 8192] | _ => False end).
Proof. vm_compute. done. Qed.

Lemma file_roundtrip_witness :
  wp (w ← fsWrite no_devices 0 1 demo_open 1000 (Z.of_nat 100); r ← fsRead no_devices demo_open 3000 (Z.of_nat 100); mret (w.1, r.1)) demo_store
    (fun r s' => r = (0, Z.of_nat 100) /\ holds (bytes s') 3000 (replicate 100 7) /\
      exists x' cf', file_at s' 10 x' cf' ([] ++ replicate 100 7)).
Proof.
  apply (file_roundtrip no_devices 0 0 demo_open demo_open (demo_inode NoCache 0) [] [] 0 1000 3000 (replicate 100 7) 32 65536 65536 69632 demo_store demo_file_at).
  all: try done.
  - simpl. lia.
  - by apply demo_bytes_at.
  - by left.
  - constructor.
  - intros y Hy. eexists. apply mapFresh_in. simpl in Hy. lia.
  - repeat constructor; cbn; lia.
Defined.

Definition full_page : CfEntry := mkCf 1000 0 false 0.
Definition read_store : fs Z := mkFs (<[10 := demo_inode (FileCache 32 [full_page]) 100]> ∅) ∅ ∅ 1 None 65536 demo_bytes 0.
Lemma page_of_sevens : pages_rep demo_bytes 0 [full_page] (replicate 100 7).
Proof.
  split_and!; [done|done| | |done].
  - intros y Hy. exists 7. apply mapFresh_in. unfold PAGE_SIZE in Hy. simpl in Hy. lia.
  - rewrite take_ge by (rewrite length_replicate; lia). by apply demo_bytes_at.
Qed.
Lemma read_store_file : file_at read_store 10 (demo_inode (FileCache 32 [full_page]) 100) [full_page] (replicate 100 7).
Proof. split_and!; try done. exact page_of_sevens. Qed.

Lemma fsRead_correct_witness :
  wp (fsRead no_devices demo_open 8000 200) read_store (fun r s' =>
    r = (100, setOffset (0 + 100) demo_open) /\ holds (bytes s') 8000 (take 100 (drop 0 (replicate 100 7))) /\
    (forall y, ~ 8000 <= y < 8000 + 100 -> bytes s' !! y = bytes read_store !! y) /\
    exists x' cf', file_at s' 10 x' cf' (replicate 100 7) /\ Forall2 same_page [full_page] cf' /\
      x' = i_cache (cachedData x') (demo_inode (FileCache 32 [full_page]) 100) /\ s' = changed read_store 10 x' (bytes s')).
Proof.
  apply (fsRead_correct no_devices demo_open _ _ _ 0 8000 200 read_store read_store_file); try done.
  - intros y Hy. exists 7. apply mapFresh_in. lia.
  - constructor; [right; by vm_compute|constructor].
Defined.

Lemma fsSeek_correct_witness :
  wp (fsSeek demo_open (-40) SEEK_END) read_store (fun r s' => s' = read_store /\ r = (0, setOffset 60 demo_open)) /\
  wp (fsSeek demo_open (2 ^ 63 - 1) SEEK_END) read_store (fun r s' => s' = read_store /\ r = (- EINVAL, setOffset 0 demo_open)).
Proof.
  split.
  - exact (fsSeek_correct demo_open (demo_inode (FileCache 32 [full_page]) 100) (-40) SEEK_END read_store eq_refl eq_refl eq_refl
      ltac:(simpl; lia) ltac:(simpl; lia) ltac:(lia)).
  - exact (fsSeek_correct demo_open (demo_inode (FileCache 32 [full_page]) 100) (2 ^ 63 - 1) SEEK_END read_store eq_refl eq_refl eq_refl
      ltac:(simpl; lia) ltac:(simpl; lia) ltac:(lia)).
Defined.
End witnesses.
