(* ===== verification/Initrd.v ===== *)
(** * The initial RAM disk: [kernel/fs/initrd.c]

    The archive that the boot loader leaves in memory, in the "new" format of
    cpio, becomes the tree of the root file system.  The archive is a list of
    bytes at the address [initrd]; a read outside of it is a fault. *)

From S2P Require Import Prelude Word Errno Fd FileSystem.

Definition sizeofCpioHeader : Z := 110.
(** ["070701"] and ["TRAILER!!!"] with its zero. *)
Definition cpioMagic : list Z := [48; 55; 48; 55; 48; 49].
Definition cpioEndName : list Z := [84; 82; 65; 73; 76; 69; 82; 33; 33; 33; 0].
Definition RAMFS_PRESENT : Z := 1.

(** Eight characters as a number.  [char] is signed; the terms are shifted as
    [int] and summed in 32 bits. *)
Definition hexDigit (c : Z) : Z := let c := swrap 8 c in if 65 <=? c then c - 65 + 10 else c - 48.
Fixpoint parseHexFrom (str : list Z) (i : Z) : Z :=
  match str with
  | [] => 0
  | c :: str => u32 (u32 (Z.shiftl (hexDigit c) (28 - i * 4)) + parseHexFrom str (i + 1))
  end.
Definition parseHex (str : list Z) : Z := parseHexFrom str 0.

(** The string at the head of some bytes; [None] if it does not end. *)
Fixpoint cstring (l : list Z) : option (list Z) :=
  match l with
  | [] => None
  | c :: l => if c =? 0 then Some [] else cons c <$> cstring l
  end.

Section initrd.
Context {H : Type} `{KernelMemory H}.
Notation fsM := (M (fs H)).
(** The mapped archive, the address of [ramfsSuperBlock], and what the variable
    [struct File f] of [createDirs] holds. *)
Context (image : list Z) (initrd : Z) (ramfsSuperBlock : Z) (junk : File).

Definition bytesAt (p n : Z) : fsM (list Z) :=
  let l := sub image p n in if (0 <=? p) && (len l =? n) then mret l else fault.
Definition stringAt (p : Z) : fsM (list Z) := if p <? 0 then fault else deref (fun _ => cstring (drop (Z.to_nat p) image)).

(** The directories of the name from [start] on: the last of them, and the
    place of the last component.  Those that do not exist are made. *)
Fixpoint makeDirs (fuel : nat) (curDir : Z) (name : list Z) (start : Z) : fsM (Z * Z) :=
  match fuel with
  | O => nofuel
  | S fuel =>
      let slash := findChar name 47 start in
      if slash <? 0 then mret (curDir, start)
      else
        let segLen := slash - start in
        if segLen >? 255 then fault                     (* char buf[256] *)
        else
          buf ← deref (fun _ => cstring (sub name start segLen ++ [0]));
          tmp ← getInodeFromPath curDir buf;
          curDir ← (if negb (tmp =? 0) then mret tmp
                    else r ← fsCreate (Some junk) curDir buf (Z.lor ITYPE_DIR (Z.shiftl 436 CREATE_PERM_SHIFT));
                         mret (match r.2 with Some f => inode f | None => inode junk end));
          makeDirs fuel curDir name (slash + 1)
  end.
Definition newFile (id fileSize data : Z) : Inode :=
  mkInode id ITYPE_FILE 0 0 (Z.lor RAMFS_PRESENT RAMFS_INITRD) fileSize ramfsSuperBlock false 0 0 436 false (RawCache data) 0 0.
Definition createDirs (root p nameLen fileSize data : Z) : fsM Z :=
  name ← bytesAt p nameLen;
  '(curDir, start) ← makeDirs (S (length name)) root name 0;
  i ← onHeap (kmalloc sizeofInode);
  if i =? 0 then fault                                 (* memset(NULL, ...) *)
  else
    id ← deref (fun s => supers s !! ramfsSuperBlock);
    modify (fun s => set_supers (<[ramfsSuperBlock := u32 (id + 1)]> (supers s)) s);;
    putInode i (newFile id fileSize data);;
    str ← stringAt (p + start);
    fsLink curDir i str.

Definition align4 (x : Z) : Z := if Z.land x 3 =? 0 then x else u64 (Z.land x (Z.lnot 3) + 4).
Fixpoint parseFiles (fuel : nat) (root curPosition initrdLen : Z) : fsM Z :=
  match fuel with
  | O => nofuel
  | S fuel =>
      if initrdLen <=? curPosition then mret 0
      else
        magic ← bytesAt curPosition 6;
        if bool_decide (magic <> cpioMagic) then mret (- EINVAL)
        else
          namesize ← bytesAt (curPosition + 94) 8;
          let nameLen := parseHex namesize in
          last ← (if nameLen =? len cpioEndName
                  then name ← bytesAt (curPosition + sizeofCpioHeader) (len cpioEndName); mret (bool_decide (name = cpioEndName))
                  else mret false);
          if last : bool then mret 0
          else
            filesize ← bytesAt (curPosition + 54) 8;
            let fileSize := parseHex filesize in
            let data := align4 (u64 (curPosition + sizeofCpioHeader + nameLen)) in
            createDirs root (curPosition + sizeofCpioHeader) nameLen fileSize (initrd + data);;
            parseFiles fuel root (align4 (u64 (data + fileSize))) initrdLen
  end.
Definition parseInitrd (root : Z) : fsM Z := parseFiles (S (length image)) root 0 (len image).

Definition rootInode0 : Inode := mkInode 1 ITYPE_DIR 1 1 RAMFS_PRESENT 0 ramfsSuperBlock false 0 0 493 false NoCache 0 0.
(** [present]: the boot loader passed an archive. *)
Definition ramfsInit (present : bool) : fsM Z :=
  if negb present then mret 0
  else
    i ← onHeap (kmalloc sizeofInode);
    if i =? 0 then mret (- ENOMEM)
    else
      putInode i rootInode0;;
      dirCacheInit i i;;
      mountRoot i;;
      modify (fun s => set_supers (<[ramfsSuperBlock := 2]> (supers s)) s);;
      parseInitrd i.
End initrd.
