(* ===== verification/InitrdSpec.v ===== *)
(** * An archive becomes a directory

    A writer of archives, that [parseInitrd] reads back what it wrote, and that
    [ramfsInit] makes a root directory with all files of the archive. *)

From S2P Require Import Prelude Word Errno Fd FileSystem Initrd.

(** ** Archives *)

Definition hexChar (n : Z) : Z := if n <? 10 then 48 + n else 55 + n.
Definition nibble (n i : Z) : Z := n / 2 ^ (28 - i * 4) mod 16.
Definition hex8 (n : Z) : list Z := (fun i => hexChar (nibble n i)) <$> [0; 1; 2; 3; 4; 5; 6; 7].
Definition pad4 (l : list Z) : list Z := l ++ replicate (Z.to_nat (- len l mod 4)) 0.
(** A file: its name, its data, and the bytes of the fields that nobody reads. *)
Record archived := mkArchived { cname : list Z; cdata : list Z; cids : list Z; cdevs : list Z; ccheck : list Z }.
Definition headerBytes (f : archived) : list Z :=
  cpioMagic ++ cids f ++ hex8 (len (cdata f)) ++ cdevs f ++ hex8 (len (cname f) + 1) ++ ccheck f.
Definition fileBytes (f : archived) : list Z := pad4 (headerBytes f ++ cname f ++ [0]) ++ pad4 (cdata f).
Definition trailer : archived := mkArchived [84; 82; 65; 73; 76; 69; 82; 33; 33; 33] [] (replicate 48 48) (replicate 32 48) (replicate 8 48).
Definition archive (fs : list archived) (rest : list Z) : list Z := concat (fileBytes <$> fs) ++ fileBytes trailer ++ rest.
Definition wellFormed (f : archived) : Prop :=
  length (cids f) = 48%nat /\ length (cdevs f) = 32%nat /\ length (ccheck f) = 8%nat /\ len (cdata f) < 2 ^ 32 /\ len (cname f) + 1 < 2 ^ 32 /\
  0 ∉ cname f /\ cname f <> cname trailer.

Lemma hexDigit_hexChar n : 0 <= n < 16 -> hexDigit (hexChar n) = n.
Proof.
  intros Hn. unfold hexDigit, hexChar. destruct (Z.ltb_spec n 10); rewrite swrap_small by lia; [rewrite (proj2 (Z.leb_gt _ _))|rewrite (proj2 (Z.leb_le _ _))]; lia.
Qed.
Fixpoint digitsVal (ds : list Z) (i : Z) : Z := match ds with [] => 0 | d :: ds => d * 2 ^ (28 - i * 4) + digitsVal ds (i + 1) end.
Lemma parseHexFrom_val ds i : Forall (fun d => 0 <= d < 16) ds -> 0 <= i -> i + Z.of_nat (length ds) <= 8 -> parseHexFrom (hexChar <$> ds) i = u32 (digitsVal ds i).
Proof.
  revert i. induction ds as [|d ds IH]; intros i Hds Hi Hl; [done|]. apply Forall_cons in Hds as [Hd Hds]. cbn [length fmap list_fmap parseHexFrom digitsVal] in *.
  change (list_fmap Z Z hexChar ds) with (hexChar <$> ds). rewrite IH, hexDigit_hexChar by (done || lia). rewrite Z.shiftl_mul_pow2 by lia. unfold uwrap. by rewrite <- Z.add_mod by lia.
Qed.
Lemma nibble_step n i : 0 <= i <= 7 -> n mod 2 ^ (32 - i * 4) = nibble n i * 2 ^ (28 - i * 4) + n mod 2 ^ (28 - i * 4).
Proof.
  intros Hi. replace (32 - i * 4) with (28 - i * 4 + 4) by lia. rewrite Z.pow_add_r by lia. rewrite Z.rem_mul_r by (lia || (pose proof (Z.pow_pos_nonneg 2 (28 - i * 4)); lia)).
  unfold nibble. change (2 ^ 4) with 16. lia.
Qed.
Lemma parseHex_hex8 n : 0 <= n < 2 ^ 32 -> parseHex (hex8 n) = n.
Proof.
  intros Hn. unfold parseHex, hex8. rewrite (list_fmap_compose (nibble n) hexChar). rewrite parseHexFrom_val; [|by repeat constructor; unfold nibble; apply Z.mod_pos_bound|done|done].
  cbn [fmap list_fmap digitsVal]. assert (E : n mod 2 ^ 32 = n) by (by apply Z.mod_small). pose proof (fun i => nibble_step n i) as Hs.
  change 32 with (32 - 0 * 4) in E. rewrite Hs in E by lia. change (28 - 0 * 4) with (32 - 1 * 4) in E. rewrite Hs in E by lia. change (28 - 1 * 4) with (32 - 2 * 4) in E. rewrite Hs in E by lia.
  change (28 - 2 * 4) with (32 - 3 * 4) in E. rewrite Hs in E by lia. change (28 - 3 * 4) with (32 - 4 * 4) in E. rewrite Hs in E by lia. change (28 - 4 * 4) with (32 - 5 * 4) in E. rewrite Hs in E by lia.
  change (28 - 5 * 4) with (32 - 6 * 4) in E. rewrite Hs in E by lia. change (28 - 6 * 4) with (32 - 7 * 4) in E. rewrite Hs in E by lia. change (28 - 7 * 4) with 0 in E.
  change (n mod 2 ^ 0) with (n mod 1) in E. rewrite Z.mod_1_r in E. cbn in E |- *. rewrite uwrap_small; lia.
Qed.

Lemma align4_up x : 0 <= x < 2 ^ 63 -> align4 x = x + - x mod 4.
Proof.
  intros Hx. unfold align4. change 3 with (Z.ones 2) at 1. rewrite Z.land_ones by lia. change (2 ^ 2) with 4.
  destruct (Z.eqb_spec (x mod 4) 0) as [E|E]; [revert E; clear; dlia|]. rewrite <- Z.ldiff_land. change 3 with (Z.ones 2). rewrite Z.ldiff_ones_r by lia.
  rewrite Z.shiftl_mul_pow2, Z.shiftr_div_pow2 by lia. change (2 ^ 2) with 4. rewrite uwrap_small; revert E Hx; clear; dlia.
Qed.
Lemma len_app l1 l2 : len (l1 ++ l2) = len l1 + len l2.
Proof. unfold len. rewrite length_app. lia. Qed.
Lemma len_pad4 l : len (pad4 l) = len l + - len l mod 4.
Proof. unfold pad4. rewrite len_app. unfold len at 2. rewrite length_replicate. pose proof (Z.mod_pos_bound (- len l) 4 ltac:(lia)). lia. Qed.
Lemma len_header f : wellFormed f -> len (headerBytes f) = sizeofCpioHeader.
Proof. intros (H1 & H2 & H3 & _). unfold headerBytes, hex8, len. rewrite !length_app, H1, H2, H3, !length_fmap. done. Qed.

(** The components of a path; the name of a file: the directories as written,
    and the last component. *)
Notation path := (list (list Z)).
Notation fileName := (path * list Z)%type.

Section parse.
Context {H : Type} `{KernelMemory H}.
Context (image : list Z) (initrd ramfsSuperBlock : Z) (junk : File).
Implicit Types s : fs H.

(** The archive goes on with [l] at [p]. *)
Definition at_ (p : Z) (l : list Z) : Prop := 0 <= p /\ exists rest, drop (Z.to_nat p) image = l ++ rest.
Lemma at_skip p l1 l2 : at_ p (l1 ++ l2) -> at_ (p + len l1) l2.
Proof.
  intros [Hp [rest E]]. split; [unfold len; lia|]. exists rest. replace (Z.to_nat (p + len l1)) with (Z.to_nat p + length l1)%nat by (unfold len; lia).
  rewrite <- drop_drop, E, <- app_assoc. apply drop_app_length.
Qed.
Lemma at_head p l1 l2 : at_ p (l1 ++ l2) -> at_ p l1.
Proof. intros [Hp [rest E]]. split; [done|]. exists (l2 ++ rest). by rewrite app_assoc. Qed.
Lemma at_len p l : at_ p l -> p + len l <= len image \/ l = [].
Proof.
  intros [Hp [rest E]]. destruct l as [|c l]; [by right|left]. apply (f_equal length) in E. rewrite length_drop, length_app in E. cbn [length] in E. unfold len. cbn [length]. lia.
Qed.
Lemma wp_bytesAt p l n s (Q : list Z -> fs H -> Prop) : at_ p l -> len l = n -> Q l s -> wp (bytesAt image p n) s Q.
Proof.
  intros [Hp [rest E]] Hn HQ. unfold bytesAt, sub. rewrite E. replace (Z.to_nat n) with (length l) by (unfold len in Hn; lia). rewrite take_app_length.
  rewrite (proj2 (Z.leb_le 0 p) Hp), (proj2 (Z.eqb_eq _ _) Hn). by apply wp_ret.
Qed.

(** The calls of [createDirs] that the archive asks for. *)
Definition dataPos (pos : Z) (f : archived) : Z := pos + len (pad4 (headerBytes f ++ cname f ++ [0])).
Fixpoint calls (root pos : Z) (files : list archived) : M (fs H) unit :=
  match files with
  | [] => mret tt
  | f :: files =>
      createDirs image ramfsSuperBlock junk root (pos + sizeofCpioHeader) (len (cname f) + 1) (len (cdata f)) (initrd + dataPos pos f);;
      calls root (pos + len (fileBytes f)) files
  end.
Lemma trailer_wf : length (cids trailer) = 48%nat /\ length (cdevs trailer) = 32%nat /\ length (ccheck trailer) = 8%nat.
Proof. done. Qed.

(** The fields of the header at [pos]. *)
Lemma header_fields f pos : len (headerBytes f) = sizeofCpioHeader -> length (cids f) = 48%nat -> length (cdevs f) = 32%nat -> at_ pos (headerBytes f) ->
  at_ pos cpioMagic /\ at_ (pos + 54) (hex8 (len (cdata f))) /\ at_ (pos + 94) (hex8 (len (cname f) + 1)).
Proof.
  intros _ Hi Hd Ha. unfold headerBytes in Ha. split; [by eapply at_head|]. apply at_skip in Ha. change (len cpioMagic) with 6 in Ha. apply at_skip in Ha.
  replace (pos + 6 + len (cids f)) with (pos + 54) in Ha by (unfold len; lia). split; [by eapply at_head|]. apply at_skip in Ha. change (len (hex8 _)) with 8 in Ha. apply at_skip in Ha.
  replace (pos + 54 + 8 + len (cdevs f)) with (pos + 94) in Ha by (unfold len; lia). by eapply at_head.
Qed.
(** One turn of the loop. *)
Lemma parseStep fuel root pos f s Q : wellFormed f -> at_ pos (fileBytes f) -> pos mod 4 = 0 -> len image < 2 ^ 62 ->
  wp (createDirs image ramfsSuperBlock junk root (pos + sizeofCpioHeader) (len (cname f) + 1) (len (cdata f)) (initrd + dataPos pos f);;
      parseFiles image initrd ramfsSuperBlock junk fuel root (pos + len (fileBytes f)) (len image)) s Q ->
  wp (parseFiles image initrd ramfsSuperBlock junk (S fuel) root pos (len image)) s Q.
Proof.
  intros Hw Ha Hmod Him HQ. pose proof (len_header f Hw) as Hlh. destruct Hw as (Hi & Hd & Hc & Hsz & Hnl & Hzero & Hne). unfold fileBytes in Ha. pose proof (at_head _ _ _ Ha) as Hah.
  pose proof (at_len _ _ Ha) as Hlen. unfold pad4 at 1 in Hah. apply at_head in Hah. pose proof (at_head _ _ _ Hah) as Hhd. destruct (header_fields f pos Hlh Hi Hd Hhd) as (A1 & A2 & A3).
  apply at_skip in Hah. rewrite Hlh in Hah. pose proof (proj1 Ha) as Hpos. set (hd := pad4 (headerBytes f ++ cname f ++ [0])) in *.
  assert (Hhdl : len hd = sizeofCpioHeader + len (cname f) + 1 + - (sizeofCpioHeader + len (cname f) + 1) mod 4).
  { unfold hd. rewrite len_pad4, !len_app, Hlh. change (len [0]) with 1. f_equal; [lia|]. f_equal. lia. }
  pose proof (len_pad4 (cdata f)) as Hpd. assert (Hnn : 0 <= len (cdata f) /\ 0 <= len (cname f) /\ 0 <= len hd /\ 0 <= len (pad4 (cdata f))) by (unfold len; lia).
  unfold sizeofCpioHeader in *. destruct Hlen as [Hlen|Hlen]; [|exfalso; apply (f_equal len) in Hlen; rewrite len_app in Hlen; change (len []) with 0 in Hlen; revert Hlen Hhdl Hpd Hnn; clear; dlia].
  rewrite len_app in Hlen. assert (Hpm : len (pad4 (cdata f)) mod 4 = 0 /\ len hd mod 4 = 0) by (split; [rewrite Hpd|rewrite Hhdl]; clear; dlia).
  cbn [parseFiles]. rewrite (proj2 (Z.leb_gt _ _)) by (revert Hhdl Hlen Hpd Hnn; clear; dlia).
  apply wp_bind. eapply wp_bytesAt; [exact A1|done|]. rewrite bool_decide_false by (intros Hn; by apply Hn).
  apply wp_bind. eapply wp_bytesAt; [exact A3|done|]. rewrite parseHex_hex8 by lia.
  apply wp_bind. apply (wp_mono _ _ (fun last s' => last = false /\ s' = s)).
  { destruct (Z.eqb_spec (len (cname f) + 1) (len cpioEndName)) as [El|El]; [|by apply wp_ret]. apply wp_bind. eapply wp_bytesAt; [exact Hah|by rewrite len_app|]. apply wp_ret. split; [|done].
    apply bool_decide_false. intros E. apply Hne. change cpioEndName with (cname trailer ++ [0]) in E. by apply app_inj_tail in E as [E _]. }
  intros last s' [-> ->]. apply wp_bind. eapply wp_bytesAt; [exact A2|done|]. rewrite parseHex_hex8 by lia. rewrite (uwrap_small 64 (pos + 110 + _)) by lia.
  assert (E1 : align4 (pos + 110 + (len (cname f) + 1)) = dataPos pos f).
  { rewrite align4_up by lia. unfold dataPos. fold hd. rewrite Hhdl. revert Hmod; clear; dlia. }
  rewrite E1. change (dataPos pos f) with (pos + len hd) in *. rewrite (uwrap_small 64 (pos + len hd + _)) by (revert Hhdl Hpd Hlen Him Hpos Hnn; clear; dlia).
  assert (E2 : align4 (pos + len hd + len (cdata f)) = pos + len (fileBytes f)).
  { rewrite align4_up by (revert Hhdl Hpd Hlen Him Hpos Hnn; clear; dlia). unfold fileBytes. fold hd. rewrite len_app, Hpd. destruct Hpm as [_ Hpm]. revert Hmod Hpm; clear; dlia. }
  rewrite E2. exact HQ.
Qed.
Lemma len_file_mod f : len (fileBytes f) mod 4 = 0.
Proof. unfold fileBytes. rewrite len_app, !len_pad4. clear; dlia. Qed.
(** The trailer ends the archive. *)
Lemma parseEnd fuel root pos s (Q : Z -> fs H -> Prop) : at_ pos (fileBytes trailer) -> Q 0 s -> wp (parseFiles image initrd ramfsSuperBlock junk (S fuel) root pos (len image)) s Q.
Proof.
  intros Ha HQ. destruct (at_len _ _ Ha) as [Hlen|Hlen]; [|done]. change (len (fileBytes trailer)) with 124 in Hlen. cbn [parseFiles]. rewrite (proj2 (Z.leb_gt _ _)) by lia.
  unfold fileBytes in Ha. apply at_head in Ha. unfold pad4 in Ha. apply at_head in Ha. pose proof (at_head _ _ _ Ha) as Hhd.
  destruct (header_fields trailer pos eq_refl eq_refl eq_refl Hhd) as (A1 & _ & A3). apply at_skip in Ha. change (len (headerBytes trailer)) with 110 in Ha.
  apply wp_bind. eapply wp_bytesAt; [exact A1|done|]. rewrite bool_decide_false by (intros Hn; by apply Hn). apply wp_bind. eapply wp_bytesAt; [exact A3|done|].
  rewrite parseHex_hex8 by done. apply wp_bind. cbn [Z.eqb]. change (len (cname trailer) + 1 =? len cpioEndName) with true. cbv iota. apply wp_bind. eapply wp_bytesAt; [exact Ha|done|].
  apply wp_ret. rewrite bool_decide_true by done. by apply wp_ret.
Qed.
(** The parser does what the archive says, file by file in order. *)
Lemma parseFiles_spec files : forall fuel root pos s (Q : Z -> fs H -> Prop), Forall wellFormed files -> at_ pos (concat (fileBytes <$> files) ++ fileBytes trailer) -> pos mod 4 = 0 -> len image < 2 ^ 62 ->
  (length files < fuel)%nat -> wp (calls root pos files) s (fun _ s' => Q 0 s') -> wp (parseFiles image initrd ramfsSuperBlock junk fuel root pos (len image)) s Q.
Proof.
  induction files as [|f files IH]; intros fuel root pos s Q Hw Ha Hmod Him Hf HQ; (destruct fuel as [|fuel]; [cbn in Hf; lia|]).
  - apply parseEnd; [exact Ha|exact HQ].
  - apply Forall_cons in Hw as [Hwf Hw]. cbn [fmap list_fmap concat] in Ha. rewrite <- app_assoc in Ha. apply (parseStep _ _ _ f); [done|exact (at_head _ _ _ Ha)|done|done|].
    cbn [calls] in HQ. apply wp_bind in HQ. apply wp_bind. eapply wp_mono; [exact HQ|]. intros z s' HQ'. refine (IH fuel root _ s' Q Hw _ _ Him _ HQ'); [| |cbn in Hf; lia].
    + apply at_skip in Ha. exact Ha.
    + pose proof (len_file_mod f) as Hlm. revert Hmod Hlm. generalize (len (fileBytes f)). clear. intros. dlia.
Qed.

(** ** The tree *)

(** A directory node: its inode, the array of its entries, and the entries. *)
Record node := mkNode { dnode : Z; darray : Z; dlist : list (list Z * Z) }.
Notation tree := (gmap path node).
Definition dot : list Z := [46].
Definition dotdot : list Z := [46; 46].
Definition plain (n : list Z) : Prop := component n /\ 0 ∉ n /\ len n <= 31.

(** Memory for so many more allocations of legal sizes: what an allocation
    returns nobody else uses. *)
Definition MAX_ALLOC : Z := 2048 * 1024.
Class EnoughMemory := {
  busy : H -> Z -> Prop;
  room : H -> nat -> Prop;
  kmalloc_law n h k : 0 < n <= MAX_ALLOC -> room h (S k) -> (kmalloc n h).1 <> 0 /\ ~ busy h (kmalloc n h).1 /\ busy (kmalloc n h).2 (kmalloc n h).1 /\
    room (kmalloc n h).2 k /\ forall q, busy h q -> busy (kmalloc n h).2 q;
  krealloc_law p n h k : 0 < n <= MAX_ALLOC -> busy h p -> room h (S k) -> (krealloc p n h).1 <> 0 /\ ((krealloc p n h).1 = p \/ ~ busy h (krealloc p n h).1) /\
    busy (krealloc p n h).2 (krealloc p n h).1 /\ room (krealloc p n h).2 k /\ forall q, busy h q -> q <> p -> busy (krealloc p n h).2 q;
  room_less h k j : room h k -> (j <= k)%nat -> room h j
}.
Context {Hmem : EnoughMemory}.

(** A directory in memory, as [dirCacheAdd] leaves it. *)
Definition dir_in s (d p : Z) (l : list (list Z * Z)) (x : Inode) : Prop :=
  inodes s !! d = Some x /\ ilock x = false /\ isDirInode x = true /\ ramfs x <> 0 /\ superBlock x = ramfsSuperBlock /\
  cachedDataSize x = sizeofDirEntry * Z.of_nat (length l) /\ fileSize x = Z.of_nat (length l) /\
  exists es, cachedData x = DirCache p es /\ entries_rep (longNames s) d es l.
Lemma dir_in_at s d p l x : dir_in s d p l x -> dir_at s d x l.
Proof.
  intros (Hx & Hl & Hd & _ & _ & _ & Hn & es & Hc & Hes). pose proof (Forall2_length _ _ _ Hes) as Hle. split_and!; [done..|]. exists p, es. by rewrite Hle.
Qed.

(** The tree [T] of directories in memory; the entries that are not directories
    are those of [known]; each directory is on the way to one of [all]. *)
Record forest s (T : tree) (known all : list path) (used : nat) : Prop := {
  f_root : exists n, T !! [] = Some n /\ dnode n = rootDir s;
  f_dir π n : T !! π = Some n -> dnode n <> 0 /\ exists x, dir_in s (dnode n) (darray n) (dlist n) x;
  f_dot π n : T !! π = Some n -> assoc dot (dlist n) = Some (dnode n);
  f_inj π π' n n' : T !! π = Some n -> T !! π' = Some n' -> dnode n = dnode n' \/ darray n = darray n' -> π = π';
  f_array π n : T !! π = Some n -> busy (heap s) (darray n) /\ inodes s !! darray n = None;
  f_inodes k : is_Some (inodes s !! k) -> busy (heap s) k;
  f_up π c n' : T !! (π ++ [c]) = Some n' -> exists n, T !! π = Some n /\ assoc c (dlist n) = Some (dnode n');
  f_only π n c i : T !! π = Some n -> (c, i) ∈ dlist n -> c = dot \/ c = dotdot \/ is_Some (T !! (π ++ [c])) \/ π ++ [c] ∈ known;
  f_way π n : T !! π = Some n -> π = [] \/ exists q c r, q ∈ all /\ q = π ++ c :: r;
  f_used π n : T !! π = Some n -> (length (dlist n) <= used)%nat;
  f_super : is_Some (supers s !! ramfsSuperBlock)
}.

(** What a step keeps: files, entries that were found, the root. *)
Definition grows s (T : tree) s' (T' : tree) : Prop :=
  rootDir s' = rootDir s /\
  (forall k x, inodes s !! k = Some x -> isDirInode x = false -> inodes s' !! k = Some x) /\
  forall π n, T !! π = Some n -> exists n', T' !! π = Some n' /\ dnode n' = dnode n /\ exists l, dlist n' = dlist n ++ l.
Lemma grows_refl s T : grows s T s T.
Proof. split_and!; [done|done|]. intros π n Hn. exists n. split_and!; [done|done|]. exists []. by rewrite app_nil_r. Qed.
Lemma grows_trans s1 T1 s2 T2 s3 T3 : grows s1 T1 s2 T2 -> grows s2 T2 s3 T3 -> grows s1 T1 s3 T3.
Proof.
  intros (A1 & A2 & A3) (B1 & B2 & B3). split_and!; [congruence|naive_solver|]. intros π n Hn. destruct (A3 π n Hn) as (n2 & H2 & Hd2 & l2 & Hl2).
  destruct (B3 π n2 H2) as (n3 & H3 & Hd3 & l3 & Hl3). exists n3. split_and!; [done|congruence|]. exists (l2 ++ l3). by rewrite Hl3, Hl2, app_assoc.
Qed.

Lemma assoc_app n l l' : assoc n (l ++ l') = match assoc n l with Some i => Some i | None => assoc n l' end.
Proof. induction l as [|[m i] l IH]; cbn [app assoc]; [done|]. by destruct (decide (m = n)). Qed.
Lemma assoc_elem n l i : assoc n l = Some i -> (n, i) ∈ l.
Proof.
  induction l as [|[m j] l IH]; cbn [assoc]; [done|]. destruct (decide (m = n)) as [->|]; [intros [= ->]; by left|]. intros Ha. right. by apply IH.
Qed.
Lemma assoc_none n l : (forall i, (n, i) ∉ l) -> assoc n l = None.
Proof. intros Hn. destruct (assoc n l) as [i|] eqn:E; [|done]. exfalso. by apply (Hn i), assoc_elem. Qed.

Section forests.
Context (all : list path).
(** Directories lead to directories. *)
Lemma f_prefix s T known used π ds m : forest s T known all used -> T !! (π ++ ds) = Some m -> exists n, T !! π = Some n.
Proof.
  intros F. revert m. induction ds as [|c ds IH] using rev_ind; intros m Hm; [rewrite app_nil_r in Hm; by eexists|].
  rewrite app_assoc in Hm. apply (f_up _ _ _ _ _ F) in Hm as (n & Hn & _). by apply IH in Hn.
Qed.
Lemma forest_resolves s T known used c ds : forall π n m, forest s T known all used -> T !! π = Some n -> T !! (π ++ ds) = Some m ->
  resolves s (dnode n) (ds ++ [c]) (assoc c (dlist m)).
Proof.
  induction ds as [|d ds IH]; intros π n m F Hn Hm; destruct (f_dir _ _ _ _ _ F π n Hn) as (_ & x & Hx); apply dir_in_at in Hx.
  - rewrite app_nil_r in Hm. assert (m = n) as -> by congruence. by eapply resolves_last.
  - replace (π ++ d :: ds) with ((π ++ [d]) ++ ds) in Hm by (by rewrite <- app_assoc). destruct (f_prefix _ _ _ _ _ _ _ F Hm) as [n' Hn'].
    destruct (f_up _ _ _ _ _ F _ _ _ Hn') as (n0 & Hn0 & Ha). assert (n0 = n) as -> by congruence. destruct (f_dir _ _ _ _ _ F _ n' Hn') as (_ & y & Hy & _ & Hd & _).
    specialize (IH _ n' m F Hn' Hm). cbn [app]. destruct (ds ++ [c]) as [|e r] eqn:E; [by destruct ds|]. rewrite <- E in *. destruct ds as [|d2 ds]; cbn [app] in *.
    all: (eapply resolves_step; [exact Hx|exact Ha|exact Hy|exact Hd|exact IH]).
Qed.

(** A new inode that nothing refers to yet. *)
Definition added s (i : Z) (y : Inode) (h : H) (sup : gmap Z Z) : fs H :=
  mkFs (<[i := y]> (inodes s)) (longNames s) sup (rootDir s) (caller s) h (bytes s) (jiffyCounter s).
Lemma forest_added s T known used i y h sup : forest s T known all used -> ~ busy (heap s) i -> busy h i -> (forall q, busy (heap s) q -> busy h q) ->
  is_Some (sup !! ramfsSuperBlock) -> inodes s !! i = None /\ forest (added s i y h sup) T known all used /\ grows s T (added s i y h sup) T.
Proof.
  intros F Hni Hi Hmono Hsup. assert (Hnone : inodes s !! i = None).
  { destruct (inodes s !! i) eqn:E; [|done]. exfalso. apply Hni, (f_inodes _ _ _ _ _ F). by eexists. }
  assert (Hk : forall k x, inodes s !! k = Some x -> <[i := y]> (inodes s) !! k = Some x) by (intros k x Hx; rewrite lookup_insert_ne; congruence).
  split; [done|]. split.
  - destruct F as [F1 F2 F3 F4 F5 F6 F7 F8 F9 F10 F11]. split; try done.
    + intros π n Hn. destruct (F2 π n Hn) as (H0' & x & Hx & Hx'). split; [done|]. exists x. split; [by apply Hk|exact Hx'].
    + intros π n Hn. destruct (F5 π n Hn). split; [by apply Hmono|]. cbn. rewrite lookup_insert_ne; [done|congruence].
    + intros k Hx. cbn in Hx |- *. revert Hx. destruct (decide (k = i)) as [->|]; [done|]. rewrite lookup_insert_ne by done. intros Hx. by apply Hmono, F6.
  - split_and!; [done|intros k x Hx _; by apply Hk|]. intros π n Hn. exists n. split_and!; [done|done|]. exists []. by rewrite app_nil_r.
Qed.

(** A directory with one more entry, and its array at [q]. *)
Definition entered s (d : Z) (x : Inode) (es : list DirEntry) (c : list Z) (i q : Z) (h : H) : fs H :=
  mkFs (<[d := i_data (fileSize x + 1) true (DirCache q (es ++ [mkDirent i d (u32 (fileSize x)) (len c) (Inlined c)])) (cachedDataSize x + sizeofDirEntry) x]> (inodes s))
    (longNames s) (supers s) (rootDir s) (caller s) h (bytes s) (jiffyCounter s).
Lemma forest_entered s T known used π n x es c i q h :
  forest s T known all used -> T !! π = Some n -> dir_in s (dnode n) (darray n) (dlist n) x -> cachedData x = DirCache (darray n) es ->
  len c <= 31 -> assoc c (dlist n) = None -> q = darray n \/ ~ busy (heap s) q -> busy h q -> (forall k, busy (heap s) k -> k <> darray n -> busy h k) ->
  let T' := <[π := mkNode (dnode n) q (dlist n ++ [(c, i)])]> T in
  forest (entered s (dnode n) x es c i q h) T' (known ++ [π ++ [c]]) all (S used) /\ grows s T (entered s (dnode n) x es c i q h) T'.
Proof.
  intros F Hn (Hx & Hxl & Hxd & Hxr & Hxs & Hxc & Hxf & es' & He & Hes) Hc Hcl Hnone Hq Hqb Hmono T'. rewrite Hc in He. injection He as <-.
  destruct F as [F1 F2 F3 F4 F5 F6 F7 F8 F9 F10 F11]. assert (Hother : forall π' m, T !! π' = Some m -> π' <> π -> dnode m <> dnode n /\ darray m <> darray n).
  { intros π' m Hm Hne. split; intros E; apply Hne; eapply F4; eauto. }
  assert (HT : forall π' m, T' !! π' = Some m -> (π' = π /\ m = mkNode (dnode n) q (dlist n ++ [(c, i)])) \/ (π' <> π /\ T !! π' = Some m)).
  { intros π' m Hm. unfold T' in Hm. apply lookup_insert_Some in Hm as [[<- <-]|[? ?]]; [by left|right; split; [congruence|done]]. }
  assert (Hinl : forall k, is_Some (inodes s !! k) -> k <> darray n) by (intros k [z Hz] ->; destruct (F5 π n Hn); congruence).
  split; [split|].
  - destruct F1 as (r & Hr & Hrd). unfold T'. destruct (decide (π = [])) as [->|]; [rewrite lookup_insert_eq; eexists; split; [done|]; cbn; congruence|].
    rewrite lookup_insert_ne by done. by exists r.
  - intros π' m [[-> ->]|[Hne Hm]]%HT; cbn [dnode darray dlist].
    + split; [by eapply F2|]. eexists. split; [apply lookup_insert_eq|]. fssimpl. rewrite length_app. cbn [length]. split_and!; [done..|lia|lia|].
      eexists. split; [done|]. apply Forall2_app; [exact Hes|]. constructor; [|constructor]. cbn [fst snd dinode dparent dname_of nameLen]. split_and!; [by apply named_short|done|done].
    + destruct (F2 π' m Hm) as (H0' & z & Hz & Hz'). split; [done|]. exists z. split; [|exact Hz']. cbn. rewrite lookup_insert_ne; [done|]. apply Hother in Hm; [|done]. naive_solver.
  - intros π' m [[-> ->]|[Hne Hm]]%HT; cbn [dnode darray dlist]; [|by eapply F3]. by rewrite assoc_app, (F3 π n Hn).
  - intros π1 π2 n1 n2 [[-> ->]|[Hne1 Hn1]]%HT [[-> ->]|[Hne2 Hn2]]%HT; cbn [dnode darray]; [done| | |by eapply F4].
    all: intros [E|E]; [|destruct Hq as [->|Hq]]; [| |exfalso].
    1,2,4,5: first [exfalso; destruct (Hother _ _ Hn2 Hne2); congruence|exfalso; destruct (Hother _ _ Hn1 Hne1); congruence].
    + apply Hq. rewrite E. by eapply F5.
    + apply Hq. rewrite <- E. by eapply F5.
  - intros π' m [[-> ->]|[Hne Hm]]%HT; cbn.
    + split; [done|]. assert (Hqn : inodes s !! q = None).
      { destruct Hq as [->|Hq]; [by eapply F5|]. destruct (inodes s !! q) eqn:E; [|done]. exfalso. apply Hq, F6. by eexists. }
      rewrite lookup_insert_ne; [done|congruence].
    + destruct (F5 π' m Hm) as [Hb Hno]. split; [apply Hmono; [done|]; by apply (Hother π' m)|]. rewrite lookup_insert_ne; [done|congruence].
  - intros k Hk. cbn in Hk |- *. assert (Hk' : is_Some (inodes s !! k)).
    { destruct (decide (k = dnode n)) as [->|]; [by eexists|]. by rewrite lookup_insert_ne in Hk. }
    apply Hmono; [by apply F6|by apply Hinl].
  - intros π' c' m Hm. assert (Hm' : exists m0, T !! (π' ++ [c']) = Some m0 /\ dnode m0 = dnode m) by (apply HT in Hm as [[E ->]|[_ Hm]]; [exists n; by rewrite E|by exists m]).
    destruct Hm' as (m0 & Hm0 & Hdm). destruct (F7 _ _ _ Hm0) as (u & Hu & Ha). unfold T'. destruct (decide (π' = π)) as [->|].
    + rewrite lookup_insert_eq. eexists. split; [done|]. cbn [dlist]. assert (u = n) as -> by congruence. by rewrite assoc_app, Ha, Hdm.
    + rewrite lookup_insert_ne by done. exists u. by rewrite Ha, Hdm.
  - intros π' m c' j Hm Hin. assert (Hin' : (exists m0, T !! π' = Some m0 /\ (c', j) ∈ dlist m0) \/ π' ++ [c'] = π ++ [c]).
    { apply HT in Hm as [[-> ->]|[_ Hm]]; [|left; by exists m]. cbn [dlist] in Hin. apply elem_of_app in Hin as [Hin|[= -> ->]%list_elem_of_singleton]; [left; by exists n|by right]. }
    destruct Hin' as [(m0 & Hm0 & Hin0)|E]; [|right; right; right; rewrite E; apply elem_of_app; right; by left].
    destruct (F8 _ _ _ _ Hm0 Hin0) as [?|[?|[[u Hu]|?]]]; [by left|by right; left| |right; right; right; apply elem_of_app; by left].
    right; right; left. unfold T'. destruct (decide (π = π' ++ [c'])) as [->|]; [rewrite lookup_insert_eq; by eexists|]. rewrite lookup_insert_ne by done. by eexists.
  - intros π' m [[-> ->]|[Hne Hm]]%HT; by eapply F9.
  - intros π' m [[-> ->]|[Hne Hm]]%HT; cbn [dlist]; [rewrite length_app; apply F10 in Hn; cbn; lia|]. apply F10 in Hm. lia.
  - done.
  - split_and!; [done| |].
    + intros k z Hz Hzd. cbn. rewrite lookup_insert_ne; [done|]. intros E. congruence.
    + intros π' m Hm. unfold T'. destruct (decide (π' = π)) as [->|].
      * rewrite lookup_insert_eq. assert (m = n) as -> by congruence. eexists. split_and!; [done|done|]. cbn. by eexists.
      * rewrite lookup_insert_ne by done. exists m. split_and!; [done|done|]. exists []. by rewrite app_nil_r.
Qed.

(** The new entry is a directory. *)
Definition dots (i d : Z) : list (list Z * Z) := [(dot, i); (dotdot, d)].
Lemma forest_dir s T known used π n c r i p y : forest s T (known ++ [π ++ [c]]) all used -> T !! π = Some n -> T !! (π ++ [c]) = None ->
  assoc c (dlist n) = Some i -> dir_in s i p (dots i (dnode n)) y -> i <> 0 -> busy (heap s) p -> inodes s !! p = None ->
  (forall π' m, T !! π' = Some m -> dnode m <> i /\ darray m <> p) -> π ++ c :: r ∈ all -> r <> [] -> (2 <= used)%nat ->
  let T' := <[π ++ [c] := mkNode i p (dots i (dnode n))]> T in forest s T' known all used /\ grows s T s T'.
Proof.
  intros F Hn Hno Ha Hy Hi Hp Hpn Hfresh Hall Hr Hu T'. destruct F as [F1 F2 F3 F4 F5 F6 F7 F8 F9 F10 F11].
  assert (HT : forall π' m, T' !! π' = Some m -> (π' = π ++ [c] /\ m = mkNode i p (dots i (dnode n))) \/ T !! π' = Some m).
  { intros π' m Hm. apply lookup_insert_Some in Hm as [[<- <-]|[? ?]]; [by left|by right]. }
  assert (Hold : forall π' m, T !! π' = Some m -> T' !! π' = Some m) by (intros π' m Hm; unfold T'; rewrite lookup_insert_ne; congruence).
  split; [split; try done|].
  - destruct F1 as (u & Hu' & ?). exists u. by rewrite (Hold _ _ Hu').
  - intros π' m [[-> ->]|Hm]%HT; [|by eapply F2]. cbn. split; [done|]. by exists y.
  - intros π' m [[-> ->]|Hm]%HT; [done|by eapply F3].
  - intros π1 π2 n1 n2 [[-> ->]|H1]%HT [[-> ->]|H2]%HT; [done| | |by eapply F4]; cbn; [destruct (Hfresh _ _ H2)|destruct (Hfresh _ _ H1)]; intros [?|?]; congruence.
  - intros π' m [[-> ->]|Hm]%HT; [done|by eapply F5].
  - intros π' c' m [[[-> [= ->]]%app_inj_tail ->]|Hm]%HT; [exists n; by rewrite (Hold _ _ Hn)|]. destruct (F7 _ _ _ Hm) as (u & Hu' & ?). exists u. by rewrite (Hold _ _ Hu').
  - intros π' m c' j [[-> ->]|Hm]%HT Hin; cbn in Hin; [apply elem_of_cons in Hin as [[= -> _]|[[= -> _]|[]%elem_of_nil]%elem_of_cons]; [by left|by right; left]|].
    destruct (F8 _ _ _ _ Hm Hin) as [?|[?|[[u Hu']|[?|E%list_elem_of_singleton]%elem_of_app]]]; [by left|by right; left|right; right; left|by right; right; right|right; right; left].
    + rewrite (Hold _ _ Hu'). by eexists.
    + rewrite E. unfold T'. rewrite lookup_insert_eq. by eexists.
  - intros π' m [[-> ->]|Hm]%HT; [|by eapply F9]. right. destruct r as [|c2 r]; [done|]. exists (π ++ c :: c2 :: r), c2, r. split; [done|]. by rewrite <- app_assoc.
  - intros π' m [[-> ->]|Hm]%HT; [done|by eapply F10].
  - split_and!; [done|done|]. intros π' m Hm. exists m. rewrite (Hold _ _ Hm). split_and!; [done|done|]. exists []. by rewrite app_nil_r.
Qed.

(** ** Entering a file *)

Lemma cstring_end n rest : 0 ∉ n -> cstring (n ++ 0 :: rest) = Some n.
Proof.
  induction n as [|c n IH]; intros Hn; [done|]. apply not_elem_of_cons in Hn as [Hc Hn]. cbn [app cstring]. rewrite (proj2 (Z.eqb_neq c 0)) by done. by rewrite IH.
Qed.
Lemma wp_stringAt p n s (Q : list Z -> fs H -> Prop) : at_ p (n ++ [0]) -> 0 ∉ n -> Q n s -> wp (stringAt image p) s Q.
Proof.
  intros [Hp [rest E]] Hn HQ. unfold stringAt. rewrite (proj2 (Z.ltb_ge p 0) Hp). apply wp_deref. exists n. split; [|done]. rewrite E, <- app_assoc. by apply cstring_end.
Qed.
Lemma resolves_one s d x l n : dir_at s d x l -> component n -> d <> 0 -> wp (getInodeFromPath d n) s (fun i s' => i = default 0 (assoc n l) /\ s' = s).
Proof.
  intros Hd Hn H0'. change n with (joined [n]). apply relative_path; [by constructor|]. rewrite (proj2 (Z.eqb_neq d 0)) by done. by eapply resolves_last.
Qed.

(** [dirCacheAdd] in a directory, whether locked or not. *)
Lemma dirCacheAdd_spec s d x p es c i q h (Q : Z -> fs H -> Prop) : inodes s !! d = Some x -> cachedData x = DirCache p es -> fileSize x = Z.of_nat (length es) ->
  Z.of_nat (length es) < 2 ^ 31 -> krealloc p (cachedDataSize x + sizeofDirEntry) (heap s) = (q, h) -> q <> 0 ->
  Q 0 (entered s d x es c i q h) -> wp (dirCacheAdd (mkDirent i 0 0 (len c) (Inlined c)) d) s Q.
Proof.
  intros Hx Hc Hn Hl Hre Hq HQ. unfold dirCacheAdd. apply wp_bind, (wp_getInode d x); [done|]. rewrite Hc. apply wp_bind, wp_onHeap. rewrite Hre. cbn [fst snd].
  rewrite (proj2 (Z.eqb_neq q 0)), Hn, Z.eqb_refl by done. apply wp_bind, wp_modify, wp_ret. unfold entered in HQ. rewrite Hn in HQ. rewrite (uwrap_small 64) by lia. exact HQ.
Qed.

Lemma legal_sizes used : sizeofDirEntry * (Z.of_nat used + 1) <= MAX_ALLOC -> 0 < sizeofInode <= MAX_ALLOC /\ 0 < 2 * sizeofDirEntry <= MAX_ALLOC.
Proof. unfold sizeofDirEntry, sizeofInode, MAX_ALLOC. lia. Qed.
Lemma forest_more s T known used used' : (used <= used')%nat -> forest s T known all used -> forest s T known all used'.
Proof. intros Hu [F1 F2 F3 F4 F5 F6 F7 F8 F9 F10 F11]. split; try done. intros π n Hn. specialize (F10 π n Hn). lia. Qed.

(** The inode of a new directory, opened once. *)
Definition newDir s (id : Z) (d i p rfs : Z) : Inode :=
  mkInode id ITYPE_DIR 1 1 rfs 2 ramfsSuperBlock false (match caller s with Some c => ceuid c | None => 0 end)
    (match caller s with Some c => cegid c | None => 0 end) 436 false
    (DirCache p [mkDirent i i 0 1 (Inlined dot); mkDirent d i 0 2 (Inlined dotdot)]) (2 * sizeofDirEntry) 0.
Definition nextInode s : gmap Z Z := <[ramfsSuperBlock := u32 (default 0 (supers s !! ramfsSuperBlock) + 1)]> (supers s).
(** [fsCreate] of a directory with an open file, when there is memory. *)
Lemma fsCreate_dir s d x pa es c id i h1 p h2 q h3 : inodes s !! d = Some x -> ilock x = false -> ramfs x <> 0 -> superBlock x = ramfsSuperBlock ->
  supers s !! ramfsSuperBlock = Some id -> cachedData x = DirCache pa es -> fileSize x = Z.of_nat (length es) -> Z.of_nat (length es) < 2 ^ 31 -> len c <= 31 ->
  kmalloc sizeofInode (heap s) = (i, h1) -> kmalloc (2 * sizeofDirEntry) h1 = (p, h2) -> krealloc pa (cachedDataSize x + sizeofDirEntry) h2 = (q, h3) ->
  i <> 0 -> p <> 0 -> q <> 0 -> i <> d ->
  wp (fsCreate (Some junk) d c (Z.lor ITYPE_DIR (Z.shiftl 436 CREATE_PERM_SHIFT))) s (fun r s' => (exists f, r = (0, Some f) /\ inode f = i) /\
    s' = entered (added s i (newDir s id d i p (ramfs x)) h2 (nextInode s)) d x es c i q h3).
Proof.
  intros Hx Hl Hram Hsb Hid Hce Hfs Hle Hc31 E1 E2 E3 Hi Hp Hq Hid'.
  unfold fsCreate. apply wp_bind, entryName_short; [done|]. apply wp_bind, (wp_acquire (d) x); [done|done|].
  apply wp_bind, (wp_getInode (d) (i_lock true x)); [apply lookup_insert_eq|]. fssimpl. rewrite (proj2 (Z.eqb_neq (ramfs x) 0)) by done.
  apply wp_bind, wp_onHeap. unfold locked. fssimpl. rewrite E1. cbn [fst snd]. rewrite (proj2 (Z.eqb_neq i 0)) by done. rewrite Hsb.
  apply wp_bind, wp_deref. exists id. split; [done|]. apply wp_bind, wp_modify. fssimpl. apply wp_bind, wp_modify. fssimpl. apply wp_bind.
  eapply (wp_mono _ _ (fun _ s1 => s1 = mkFs (<[i := mkInode id ITYPE_DIR 0 1 (ramfs x) 0 ramfsSuperBlock false (match caller s with Some c => ceuid c | None => 0 end)
    (match caller s with Some c => cegid c | None => 0 end) 436 false NoCache 0 0]> (<[d := i_lock true x]> (inodes s))) (longNames s) (<[ramfsSuperBlock := u32 (id + 1)]> (supers s)) (rootDir s) (caller s) h1 (bytes s) (jiffyCounter s))).
  { unfold setPerm. apply wp_bind, wp_gets. fssimpl. destruct (caller s) as [cr|] eqn:Ec; eapply wp_updInode; fssimpl; try apply lookup_insert_eq;
      unfold i_attr, set_inodes; fssimpl; rewrite insert_insert_eq; by rewrite ?Ec. }
  intros _ s1 ->. apply wp_bind. eapply wp_getInode; fssimpl; [apply lookup_insert_eq|]. match goal with |- context [if ?b then _ else _] => change b with true end. cbv iota.
  apply wp_bind, wp_bind. unfold dirCacheInit. apply wp_bind, wp_onHeap. fssimpl. rewrite E2. cbn [fst snd]. rewrite (proj2 (Z.eqb_neq p 0)) by done. apply wp_bind.
  eapply wp_updInode; fssimpl; [apply lookup_insert_eq|]. apply wp_ret, wp_ret. rewrite insert_insert_eq. apply wp_bind.
  eapply (dirCacheAdd_spec _ (d) (i_lock true x) pa es c i q h3); fssimpl; [rewrite lookup_insert_ne by done; apply lookup_insert_eq|done|done|done|done|done|].
  unfold entered. fssimpl. apply wp_bind. eapply wp_updInode; fssimpl; [apply lookup_insert_eq|]. rewrite insert_insert_eq. change (negb (0 =? 0)) with false. cbv iota.
  apply wp_bind. unfold fsOpen. apply wp_bind. cbv zeta. cbn [fflags inode offset]. eapply wp_acquire; fssimpl; [rewrite lookup_insert_ne by done; apply lookup_insert_eq|done|].
  unfold locked. fssimpl. apply wp_bind. eapply wp_getInode; fssimpl; [apply lookup_insert_eq|]. match goal with |- context [negb (isDirInode ?z)] => change (isDirInode z) with true end. rewrite andb_false_r.
  apply wp_bind. eapply wp_updInode; fssimpl; [apply lookup_insert_eq|]. rewrite insert_insert_eq. apply wp_bind. eapply wp_updInode; fssimpl; [apply lookup_insert_eq|]. rewrite insert_insert_eq.
  apply wp_ret, wp_ret. split; [eexists; split; [done|]; by destruct (has (fflags junk) SYSOPEN_FLAG_APPEND)|].
  unfold entered, added, nextInode, set_inodes. rewrite Hid. fssimpl. f_equal. apply map_eq. intros j. destruct (decide (j = i)) as [->|Hj]; [|destruct (decide (j = d)) as [->|Hjn]].
  - by rewrite (lookup_insert_ne _ d i), !lookup_insert_eq by done.
  - rewrite (lookup_insert_ne _ i d), !lookup_insert_eq by done. unfold i_lock, i_data. cbn. by rewrite Hl.
  - by rewrite !lookup_insert_ne.
Qed.
(** [fsCreate] of a directory that the archive needs: the node [c] under [π]. *)
Lemma make_dir s T known used k π n c r : forest s T known all used -> T !! π = Some n -> T !! (π ++ [c]) = None -> plain c ->
  assoc c (dlist n) = None -> π ++ c :: r ∈ all -> r <> [] -> (2 <= used)%nat -> sizeofDirEntry * (Z.of_nat used + 1) <= MAX_ALLOC -> room (heap s) (S (S (S k))) ->
  wp (fsCreate (Some junk) (dnode n) c (Z.lor ITYPE_DIR (Z.shiftl 436 CREATE_PERM_SHIFT))) s (fun r s' => exists f T' n', r = (0, Some f) /\ inode f = dnode n' /\
    T' !! (π ++ [c]) = Some n' /\ forest s' T' known all (S used) /\ grows s T s' T' /\ room (heap s') k).
Proof.
  intros F Hn Hno (Hc & Hc0 & Hc31) Ha Hall Hr Hu Hmax Hroom. destruct (legal_sizes _ Hmax) as [Hz1 Hz2].
  destruct (f_dir _ _ _ _ _ F π n Hn) as (Hd0 & x & Hdx). pose proof Hdx as (Hx & Hl & Hdir & Hram & Hsb & Hcs & Hfs & es & Hce & Hes).
  pose proof (Forall2_length _ _ _ Hes) as Hle. pose proof (f_used _ _ _ _ _ F π n Hn) as Hlen. destruct (f_super _ _ _ _ _ F) as [id Hid].
  destruct (kmalloc_law sizeofInode (heap s) _ Hz1 Hroom) as (Hi & Hib & Hib' & Hr1 & Hm1). destruct (kmalloc sizeofInode (heap s)) as [i h1] eqn:E1. cbn [fst snd] in *.
  destruct (kmalloc_law (2 * sizeofDirEntry) h1 _ Hz2 Hr1) as (Hp & Hpb & Hpb' & Hr2 & Hm2). destruct (kmalloc (2 * sizeofDirEntry) h1) as [p h2] eqn:E2. cbn [fst snd] in *.
  assert (Hz3 : 0 < cachedDataSize x + sizeofDirEntry <= MAX_ALLOC) by (rewrite Hcs; unfold sizeofDirEntry, MAX_ALLOC in *; lia).
  destruct (f_array _ _ _ _ _ F π n Hn) as [Hab Han].
  destruct (krealloc_law (darray n) _ h2 _ Hz3 (Hm2 _ (Hm1 _ Hab)) Hr2) as (Hq & Hqn & Hqb & Hr3 & Hm3). destruct (krealloc (darray n) _ h2) as [q h3] eqn:E3. cbn [fst snd] in *.
  assert (Hid' : i <> dnode n) by (intros ->; apply Hib, (f_inodes _ _ _ _ _ F); by eexists).
  set (sup := nextInode s).
  set (y := newDir s id (dnode n) i p (ramfs x)).
  destruct (forest_added s T known used i y h2 sup F Hib) as (Hinone & F1 & G1); [by apply Hm2|naive_solver|unfold sup, nextInode; rewrite lookup_insert_eq; by eexists|].
  destruct (forest_entered (added s i y h2 sup) T known used π n x es c i q h3 F1 Hn) as [F2 G2]; [|done|done|done|exact Hqn|done|exact Hm3|].
  { split_and!; try done; [cbn; by rewrite lookup_insert_ne|by exists es]. }
  set (s' := entered _ _ _ _ _ _ _ _) in *. set (T1 := <[π := _]> T) in *.
  assert (Hfresh : forall π' m, T !! π' = Some m -> dnode m <> i /\ darray m <> p).
  { intros π' m Hm. destruct (f_dir _ _ _ _ _ F _ _ Hm) as (_ & z & Hzz & _). destruct (f_array _ _ _ _ _ F _ _ Hm) as [Hb _].
    split; intros E; [congruence|]. apply Hpb. rewrite <- E. by apply Hm1. }
  destruct (forest_dir s' T1 known (S used) π (mkNode (dnode n) q (dlist n ++ [(c, i)])) c r i p y) as [F3 G3].
  { exact F2. } { apply lookup_insert_eq. } { unfold T1. rewrite lookup_insert_ne; [done|]. intros E. apply (f_equal length) in E. rewrite length_app in E. cbn in E. lia. }
  { cbn. rewrite assoc_app, Ha. cbn. by rewrite decide_True. }
  { split_and!; try done; [cbn; rewrite lookup_insert_ne by done; apply lookup_insert_eq|]. eexists. split; [done|]. cbn [dnode].
    repeat (constructor; [split_and!; [split; [done|eexists; split; [|by cbn]; done]|done|done]|]). constructor. }
  { done. } { cbn. apply Hm3; [done|]. intros ->. by apply Hpb, Hm1. }
  { cbn. rewrite !lookup_insert_ne; [|intros ->; by apply Hpb|intros E; apply Hpb, Hm1, (f_inodes _ _ _ _ _ F); rewrite <- E; by eexists].
    destruct (inodes s !! p) eqn:Ep; [|done]. exfalso. apply Hpb, Hm1, (f_inodes _ _ _ _ _ F). by eexists. }
  { intros π' m Hm. unfold T1 in Hm. apply lookup_insert_Some in Hm as [[<- <-]|[Hne Hm]]; [|by eapply Hfresh]. cbn. split; [done|].
    destruct Hqn as [->|Hqn]; [by eapply Hfresh|]. intros ->. by apply Hqn. }
  { exact Hall. } { done. } { lia. }
  eapply wp_mono; [eapply (fsCreate_dir s (dnode n) x (darray n) es c id i h1 p h2 q h3); try done; [by rewrite Hle|unfold sizeofDirEntry, MAX_ALLOC in *; lia]|].
  intros r' s2 [(f & -> & Hf) ->]. exists f, (<[π ++ [c] := mkNode i p (dots i (dnode n))]> T1), (mkNode i p (dots i (dnode n))). split_and!; [done|done|apply lookup_insert_eq|exact F3| |exact Hr3].
  exact (grows_trans _ _ _ _ _ _ G1 (grows_trans _ _ _ _ _ _ G2 G3)).
Qed.

(** The part of a name in front of its last component, as written, and without
    the components ["."]. *)
Definition dirName (dirs : path) : list Z := concat ((fun c => c ++ [47]) <$> dirs).
Definition clean (dirs : path) : path := filter (fun c => c <> dot) dirs.
Definition normal (c : list Z) : Prop := plain c /\ c <> dotdot.
(** No other file of the archive is a directory of [q] or in it. *)
Definition apart (known : list path) (q : path) : Prop :=
  (forall q', q' ∈ known -> ~ q' `prefix_of` q) /\ (forall q', q' ∈ all -> q `prefix_of` q' -> q' = q).

Lemma no_entry s T known used π n c r : forest s T known all used -> T !! π = Some n -> T !! (π ++ [c]) = None -> c <> dot -> c <> dotdot ->
  apart known (π ++ c :: r) -> assoc c (dlist n) = None.
Proof.
  intros F Hn Hno H1 H2 [Hk _]. apply assoc_none. intros i Hi. destruct (f_only _ _ _ _ _ F _ _ _ _ Hn Hi) as [?|[?|[[? ?]|Hin]]]; [done|done|congruence|].
  apply (Hk _ Hin). exists r. by rewrite <- app_assoc.
Qed.

(** The directories of a name are found or made. *)
Lemma makeDirs_spec dirs : forall fuel pre π n last nm s T known used k (Q : Z * Z -> fs H -> Prop),
  forest s T known all used -> T !! π = Some n -> Forall normal dirs -> 47 ∉ nm -> (length dirs < fuel)%nat ->
  π ++ clean dirs ++ last ∈ all -> last <> [] -> apart known (π ++ clean dirs ++ last) -> (2 <= used)%nat ->
  sizeofDirEntry * (Z.of_nat (used + length dirs) + 1) <= MAX_ALLOC -> room (heap s) (3 * length dirs + k) ->
  (forall s' T' m, forest s' T' known all (used + length dirs) -> grows s T s' T' -> T' !! (π ++ clean dirs) = Some m -> room (heap s') k ->
    Q (dnode m, len (pre ++ dirName dirs)) s') ->
  wp (makeDirs junk fuel (dnode n) (pre ++ dirName dirs ++ nm) (len pre)) s Q.
Proof.
  induction dirs as [|c dirs IH]; intros fuel pre π n last nm s T known used k Q F Hn Hp Hnm Hf Hall Hlast Hap Hu Hmax Hroom HQ; (destruct fuel as [|fuel]; [cbn in Hf; lia|]);
    cbn [makeDirs]; unfold findChar; replace (Z.to_nat (len pre)) with (length pre) by (unfold len; lia); rewrite drop_app_length.
  - cbn [dirName fmap list_fmap concat app] in *. rewrite findCharIn_none by done. apply wp_ret. change (clean []) with (@nil (list Z)) in HQ. rewrite !app_nil_r in HQ. apply (HQ s T n); [|apply grows_refl|done|done]. cbn [length]. by rewrite Nat.add_0_r.
  - apply Forall_cons in Hp as [[Hpl Hdd] Hp]. pose proof Hpl as ((Hne & H47 & Hlc) & Hc0 & Hc31). cbn [length] in *.
    change (dirName (c :: dirs)) with ((c ++ [47]) ++ dirName dirs) in *. rewrite <- !app_assoc. cbn [app]. rewrite findCharIn_here by done.
    rewrite (proj2 (Z.ltb_ge _ _)) by (unfold len; lia). replace (len pre + len c - len pre) with (len c) by lia. destruct (Z.gtb_spec (len c) 255); [lia|].
    apply wp_bind, wp_deref. exists c. assert (Es : sub (pre ++ c ++ 47 :: dirName dirs ++ nm) (len pre) (len c) = c).
    { unfold sub. replace (Z.to_nat (len pre)) with (length pre) by (unfold len; lia). rewrite drop_app_length. replace (Z.to_nat (len c)) with (length c) by (unfold len; lia). apply take_app_length. }
    rewrite Es. split; [by apply cstring_end|]. apply wp_bind. destruct (f_dir _ _ _ _ _ F π n Hn) as (Hd0 & x & Hx). apply dir_in_at in Hx.
    wp_use (resolves_one s (dnode n) x _ c Hx (proj1 Hpl) Hd0). intros ? ? [-> ->].
    replace (pre ++ c ++ 47 :: dirName dirs ++ nm) with ((pre ++ c ++ [47]) ++ dirName dirs ++ nm) by (rewrite <- !app_assoc; done).
    replace (len pre + len c + 1) with (len (pre ++ c ++ [47])) by (rewrite !len_app; unfold len; cbn [length]; lia).
    assert (Hnext : forall π' n' s' T' used', forest s' T' known all used' -> grows s T s' T' -> T' !! π' = Some n' -> π' ++ clean dirs = π ++ clean (c :: dirs) -> (used <= used' <= S used)%nat ->
      room (heap s') (3 * length dirs + k) -> wp (makeDirs junk fuel (dnode n') ((pre ++ c ++ [47]) ++ dirName dirs ++ nm) (len (pre ++ c ++ [47]))) s' Q).
    { intros π' n' s' T' used' F' G' Hn' E [Hu1 Hu2] Hr'. rewrite (app_assoc π), <- E, <- app_assoc in Hall, Hap.
      apply (IH fuel _ π' n' last nm s' T' known used' k Q F' Hn' Hp Hnm); [lia|done|done|done|lia|unfold sizeofDirEntry in *; lia|done|]. intros s2 T2 m F2 G2 Hm Hr2. rewrite E in Hm. rewrite <- !app_assoc in *.
      apply (HQ s2 T2 m); [eapply forest_more; [|exact F2]; lia|by eapply grows_trans|exact Hm|exact Hr2]. }
    apply wp_bind. destruct (decide (c = dot)) as [->|Hdot].
    + rewrite (f_dot _ _ _ _ _ F π n Hn). change (default 0 (Some (dnode n))) with (dnode n). rewrite (proj2 (Z.eqb_neq (dnode n) 0)) by done. cbn [negb]. apply wp_ret.
      apply (Hnext π n s T used F (grows_refl _ _) Hn); [done|lia|]. eapply room_less; [exact Hroom|lia].
    + assert (Ec : clean (c :: dirs) = c :: clean dirs) by (by apply filter_cons_True). destruct (T !! (π ++ [c])) as [n'|] eqn:En.
      * destruct (f_up _ _ _ _ _ F _ _ _ En) as (n0 & Hn0 & Ha). assert (n0 = n) as -> by congruence. destruct (f_dir _ _ _ _ _ F _ _ En) as [Hn0' _].
        rewrite Ha. change (default 0 (Some (dnode n'))) with (dnode n'). rewrite (proj2 (Z.eqb_neq (dnode n') 0)) by done. cbn [negb]. apply wp_ret.
        apply (Hnext (π ++ [c]) n' s T used F (grows_refl _ _) En); [by rewrite Ec, <- app_assoc|lia|]. eapply room_less; [exact Hroom|lia].
      * rewrite Ec in Hall, Hap. cbn [app] in Hall, Hap. assert (Hno : assoc c (dlist n) = None) by (by eapply no_entry). rewrite Hno. change (negb (default 0 None =? 0)) with false. cbv iota. apply wp_bind.
        eapply wp_mono; [eapply (make_dir s T known used (3 * length dirs + k) π n c (clean dirs ++ last)); try done; [by destruct (clean dirs)|unfold sizeofDirEntry in *; lia|eapply room_less; [exact Hroom|lia]]|].
        intros r s' (f & T' & n' & -> & Hfn & Hn' & F' & G' & Hr'). cbn [snd]. apply wp_ret. rewrite Hfn. apply (Hnext (π ++ [c]) n' s' T' (S used) F' G' Hn'); [by rewrite Ec, <- app_assoc|lia|exact Hr'].
Qed.

(** The file of the archive is found in the tree. *)
Definition holdsFile s (f : archived) (i : Z) : Prop :=
  exists id off, inodes s !! i = Some (i_links 1 (newFile ramfsSuperBlock id (len (cdata f)) (initrd + off))) /\ at_ off (cdata f).
Definition placed s (T : tree) (f : archived) (q : path) : Prop :=
  exists π c m i, q = π ++ [c] /\ T !! π = Some m /\ assoc c (dlist m) = Some i /\ holdsFile s f i.
Lemma placed_grows s T s' T' f q : grows s T s' T' -> placed s T f q -> placed s' T' f q.
Proof.
  intros (_ & Hk & Ht) (π & c & m & i & -> & Hm & Ha & id & off & Hi & Hoff). destruct (Ht π m Hm) as (m' & Hm' & _ & l & Hl).
  exists π, c, m', i. split_and!; [done|done|by rewrite Hl, assoc_app, Ha|]. exists id, off. split; [by apply Hk|done].
Qed.

(** [fsLink] of a new inode under a new name. *)
Lemma fsLink_new s d x pa es c i y q h : inodes s !! d = Some x -> ilock x = false -> cachedData x = DirCache pa es -> fileSize x = Z.of_nat (length es) -> Z.of_nat (length es) < 2 ^ 31 ->
  inodes s !! i = Some y -> ilock y = false -> nrofLinks y = 0 -> len c <= 31 -> i <> d -> krealloc pa (cachedDataSize x + sizeofDirEntry) (heap s) = (q, h) -> q <> 0 ->
  wp (fsLink d i c) s (fun r s' => r = 0 /\ s' = entered (set_inodes (<[i := i_links 1 y]> (inodes s)) s) d x es c i q h).
Proof.
  intros Hx Hl Hc Hn Hle Hy Hyl Hyn Hcl Hid Hre Hq. unfold fsLink. apply wp_bind, (wp_acquire i y); [done|done|]. unfold locked. apply wp_bind, (wp_getInode i (i_lock true y)); [apply lookup_insert_eq|].
  fssimpl. rewrite Hyn. cbn [Z.eqb negb andb]. apply wp_bind, entryName_short; [done|]. apply wp_bind, (wp_acquire d x); fssimpl; [by rewrite lookup_insert_ne|done|]. unfold locked. fssimpl.
  apply wp_bind. eapply wp_updInode; fssimpl; [rewrite lookup_insert_ne by done; apply lookup_insert_eq|]. change (nrofLinks (i_lock true y)) with (nrofLinks y). rewrite Hyn. change (u32 (0 + 1)) with 1.
  apply wp_bind. eapply (dirCacheAdd_spec _ d (i_lock true x) pa es c i q h); fssimpl; [rewrite lookup_insert_ne by congruence; apply lookup_insert_eq|done..|].
  unfold entered. fssimpl. apply wp_bind. eapply wp_updInode; fssimpl; [apply lookup_insert_eq|]. apply wp_bind. eapply wp_updInode; fssimpl.
  { rewrite !lookup_insert_ne by congruence. apply lookup_insert_eq. }
  apply wp_ret. split; [done|]. unfold set_inodes. fssimpl. f_equal. apply map_eq. intros j. destruct (decide (j = i)) as [->|Hj]; [|destruct (decide (j = d)) as [->|Hjn]].
  - rewrite (lookup_insert_ne _ d i), !lookup_insert_eq by done. unfold i_lock, i_links. cbn. by rewrite Hyl.
  - rewrite (lookup_insert_ne _ i d), !lookup_insert_eq by done. unfold i_lock, i_data. cbn. by rewrite Hl.
  - by rewrite !lookup_insert_ne.
Qed.

(** A file of the archive enters the tree. *)
Lemma createDirs_spec s T known used k dirs c p f size data off : forest s T known all used -> Forall normal dirs -> plain c -> c <> dot -> c <> dotdot ->
  clean dirs ++ [c] ∈ all -> apart known (clean dirs ++ [c]) -> (2 <= used)%nat -> sizeofDirEntry * (Z.of_nat (used + length dirs) + 1) <= MAX_ALLOC ->
  room (heap s) (3 * length dirs + S (S k)) -> at_ p (dirName dirs ++ c ++ [0]) -> size = len (cdata f) -> data = initrd + off -> at_ off (cdata f) ->
  wp (createDirs image ramfsSuperBlock junk (rootDir s) p (len (dirName dirs ++ c) + 1) size data) s (fun _ s' => exists T',
    forest s' T' (known ++ [clean dirs ++ [c]]) all (used + length dirs + 1) /\ grows s T s' T' /\ placed s' T' f (clean dirs ++ [c]) /\ room (heap s') k).
Proof.
  intros F Hds Hpl Hdot Hdd Hall Hap Hu Hmax Hroom Ha -> -> Hoff. pose proof Hpl as ((Hne & H47 & Hlc) & Hc0 & Hc31). destruct (legal_sizes _ Hmax) as [Hz1 _].
  destruct (f_root _ _ _ _ _ F) as (rn & Hrn & <-). unfold createDirs. apply wp_bind. eapply wp_bytesAt; [exact Ha|rewrite app_assoc, len_app; reflexivity|].
  assert (H47' : 47 ∉ c ++ [0]) by (intros Hin; apply elem_of_app in Hin as [Hin|Hin]; [done|by apply list_elem_of_singleton in Hin]).
  apply wp_bind. apply (makeDirs_spec dirs _ [] [] rn [c] (c ++ [0]) s T known used (S (S k)) _ F Hrn Hds H47'); [|done|done|done|done|done|done|].
  { assert (Hdl : (length dirs <= length (dirName dirs))%nat) by (clear; induction dirs as [|c dirs IH]; cbn; [lia|]; rewrite !length_app; cbn [length] in *; unfold dirName in IH; lia). rewrite length_app. lia. }
  clear F Hrn rn Hroom. cbn [app]. intros s1 T1 m F G Hm Hroom. cbv beta iota. destruct (f_dir _ _ _ _ _ F _ m Hm) as (Hd0 & x & Hdx).
  pose proof Hdx as (Hx & Hl & Hdir & Hram & Hsb & Hcs & Hfs & es & Hce & Hes). pose proof (Forall2_length _ _ _ Hes) as Hle. pose proof (f_used _ _ _ _ _ F _ m Hm) as Hlen.
  destruct (kmalloc_law sizeofInode (heap s1) _ Hz1 Hroom) as (Hi & Hib & Hib' & Hr1 & Hm1). destruct (kmalloc sizeofInode (heap s1)) as [i h1] eqn:E1. cbn [fst snd] in *.
  assert (Hz3 : 0 < cachedDataSize x + sizeofDirEntry <= MAX_ALLOC) by (rewrite Hcs; unfold sizeofDirEntry, MAX_ALLOC in *; lia). destruct (f_array _ _ _ _ _ F _ m Hm) as [Hab Han].
  destruct (krealloc_law (darray m) _ h1 _ Hz3 (Hm1 _ Hab) Hr1) as (Hq & Hqn & Hqb & Hr3 & Hm3). destruct (krealloc (darray m) _ h1) as [q h3] eqn:E3. cbn [fst snd] in *.
  assert (Hid : i <> dnode m) by (intros ->; apply Hib, (f_inodes _ _ _ _ _ F); by eexists). destruct (f_super _ _ _ _ _ F) as [id Hsid].
  set (y := newFile ramfsSuperBlock id (len (cdata f)) (initrd + off)).
  destruct (forest_added s1 T1 known (used + length dirs) i (i_links 1 y) h1 (<[ramfsSuperBlock := u32 (id + 1)]> (supers s1)) F Hib) as (Hinone & F1 & G1); [done|done|rewrite lookup_insert_eq; by eexists|].
  assert (Hno : T1 !! (clean dirs ++ [c]) = None).
  { destruct (T1 !! (clean dirs ++ [c])) eqn:E; [|done]. exfalso. destruct (f_way _ _ _ _ _ F _ _ E) as [E0|(q' & c' & r & Hin & Eq)]; [by destruct (clean dirs)|].
    assert (q' = clean dirs ++ [c]) as ->; [apply (proj2 Hap); [done|rewrite Eq; by eexists]|]. apply (f_equal length) in Eq. rewrite !length_app in Eq. cbn in Eq. lia. }
  assert (Has : assoc c (dlist m) = None) by (by eapply no_entry).
  destruct (forest_entered (added s1 i (i_links 1 y) h1 (<[ramfsSuperBlock := u32 (id + 1)]> (supers s1))) T1 known (used + length dirs) (clean dirs) m x es c i q h3 F1 Hm) as [F2 G2]; [|done|done|done|exact Hqn|done|exact Hm3|].
  { split_and!; try done; [cbn; by rewrite lookup_insert_ne|by exists es]. }
  apply wp_bind, wp_onHeap. rewrite E1. cbn [fst snd]. rewrite (proj2 (Z.eqb_neq i 0)) by done. apply wp_bind, wp_deref. exists id. split; [done|]. apply wp_bind, wp_modify, wp_bind, wp_modify. fssimpl.
  apply wp_bind. eapply (wp_stringAt _ c); [apply at_skip in Ha; exact Ha|done|].
  eapply wp_mono; [eapply (fsLink_new _ (dnode m) x (darray m) es c i y q h3); fssimpl; [by rewrite lookup_insert_ne|done|done|by rewrite Hle|unfold sizeofDirEntry, MAX_ALLOC in *; lia|apply lookup_insert_eq|done..]|].
  intros r s' [_ ->]. fssimpl. unfold set_inodes. fssimpl. rewrite insert_insert_eq. rewrite Nat.add_1_r.
  eexists. split; [exact F2|]. pose proof (grows_trans _ _ _ _ _ _ G1 G2) as G12. split; [exact (grows_trans _ _ _ _ _ _ G G12)|]. split; [|exact Hr3].
  eexists (clean dirs), c, _, i. split; [done|]. split; [apply lookup_insert_eq|]. cbn [dlist]. split; [rewrite assoc_app, Has; cbn; by rewrite decide_True|].
  exists id, off. split; [|done]. apply G2; [apply lookup_insert_eq|done].
Qed.
End forests.

(** ** Archives of files in directories *)

(** The path that the name of a file means. *)
Definition pathOf (nm : fileName) : path := clean nm.1 ++ [nm.2].
Definition namedBy (f : archived) (nm : fileName) : Prop :=
  cname f = dirName nm.1 ++ nm.2 /\ Forall normal nm.1 /\ normal nm.2 /\ nm.2 <> dot.
(** No path is twice in the archive, or both a file and a directory. *)
Definition separate (names : list fileName) : Prop :=
  forall i j nm nm', names !! i = Some nm -> names !! j = Some nm' -> pathOf nm `prefix_of` pathOf nm' -> i = j.
Definition steps (names : list fileName) : nat := sum_list ((fun nm => S (length nm.1)) <$> names).

Lemma separate_apart before nm after : separate (before ++ nm :: after) -> apart (pathOf <$> (before ++ nm :: after)) (pathOf <$> before) (pathOf nm).
Proof.
  intros Hs. assert (Hm : (before ++ nm :: after) !! length before = Some nm) by (by apply list_lookup_middle). split.
  - intros q' (nm' & -> & Hin)%list_elem_of_fmap Hp. apply list_elem_of_lookup in Hin as [i Hi]. pose proof (lookup_lt_Some _ _ _ Hi).
    assert (i = length before); [|lia]. apply (Hs i _ nm' nm); [by rewrite lookup_app_l|done|done].
  - intros q' (nm' & -> & Hin)%list_elem_of_fmap Hp. apply list_elem_of_lookup in Hin as [i Hi]. assert (E : length before = i) by (by eapply Hs). subst i. congruence.
Qed.
Lemma calls_spec files : forall pos before names s T used, Forall wellFormed files -> Forall2 namedBy files names -> separate (before ++ names) -> at_ pos (concat (fileBytes <$> files)) ->
  forest s T (pathOf <$> before) (pathOf <$> (before ++ names)) used -> (2 <= used)%nat -> sizeofDirEntry * (Z.of_nat (used + steps names) + 1) <= MAX_ALLOC -> room (heap s) (3 * steps names) ->
  wp (calls (rootDir s) pos files) s (fun _ s' => rootDir s' = rootDir s /\ exists T' used', forest s' T' (pathOf <$> (before ++ names)) (pathOf <$> (before ++ names)) used' /\
    grows s T s' T' /\ Forall2 (fun f nm => placed s' T' f (pathOf nm)) files names).
Proof.
  induction files as [|f files IH]; intros pos before names s T used Hw Hnm Hsep Ha F Hu Hmax Hroom.
  - apply Forall2_nil_inv_l in Hnm as ->. rewrite app_nil_r in *. apply wp_ret. split; [done|]. exists T, used. split_and!; [done|apply grows_refl|constructor].
  - apply Forall_cons in Hw as [Hwf Hw]. apply Forall2_cons_inv_l in Hnm as ([dirs c] & names' & (En & Hds & [Hpl Hdd] & Hdot) & Hnm & ->). cbn [fst snd fmap list_fmap concat calls] in *.
    pose proof (at_head _ _ _ Ha) as Hf. unfold fileBytes in Hf. pose proof (at_skip _ _ _ Hf) as Hdata. unfold pad4 at 1 in Hdata. apply at_head in Hdata.
    apply at_head in Hf. unfold pad4 in Hf. apply at_head in Hf. apply at_skip in Hf. rewrite (len_header f Hwf) in Hf. rewrite En, <- app_assoc in Hf.
    change (steps ((dirs, c) :: names')) with (S (length dirs) + steps names')%nat in *.
    apply wp_bind. rewrite En at 1. eapply wp_mono; [eapply (createDirs_spec _ s T _ used (3 * steps names') dirs c _ f _ _ (dataPos pos f) F Hds Hpl Hdot Hdd)|];
      [|apply (separate_apart before (dirs, c) names' Hsep)|done|unfold sizeofDirEntry in *; lia|eapply room_less; [exact Hroom|lia]|exact Hf|done|done|exact Hdata|].
    { rewrite fmap_app. apply elem_of_app. right. by left. }
    intros _ s1 (T1 & F1 & G1 & P1 & R1). assert (Hroot : rootDir s1 = rootDir s) by apply G1.
    replace (before ++ (dirs, c) :: names') with ((before ++ [(dirs, c)]) ++ names') in * by (by rewrite <- app_assoc).
    replace ((pathOf <$> before) ++ [clean dirs ++ [c]]) with (pathOf <$> (before ++ [(dirs, c)])) in F1 by (by rewrite fmap_app).
    rewrite <- Hroot. eapply wp_mono; [eapply (IH _ (before ++ [(dirs, c)]) names' s1 T1 _ Hw Hnm Hsep); [by apply at_skip in Ha|exact F1|lia|unfold sizeofDirEntry in *; lia|exact R1]|].
    intros [] s2 (Hr2 & T2 & used2 & F2 & G2 & P2). split; [done|]. exists T2, used2. split_and!; [exact F2|by eapply grows_trans|]. constructor; [|exact P2]. by eapply placed_grows.
Qed.


(** The new root directory. *)
Lemma forest_root s all root h1 p h2 : (forall k, is_Some (inodes s !! k) -> busy (heap s) k) -> (forall q, busy (heap s) q -> busy h1 q) -> (forall q, busy h1 q -> busy h2 q) ->
  root <> 0 -> ~ busy (heap s) root -> busy h1 root -> ~ busy h1 p -> busy h2 p ->
  forest (mkFs (<[root := i_data 2 false (DirCache p [mkDirent root root 0 1 (Inlined dot); mkDirent root root 0 2 (Inlined dotdot)]) (2 * sizeofDirEntry)
      (rootInode0 ramfsSuperBlock)]> (inodes s)) (longNames s) (<[ramfsSuperBlock := 2]> (supers s)) root (caller s) h2 (bytes s) (jiffyCounter s))
    {[ [] := mkNode root p (dots root root) ]} [] all 2.
Proof.
  intros Hb Hm1 Hm2 Hr Hnr Hbr Hnp Hbp. split.
  - eexists. by rewrite lookup_singleton_eq.
  - intros π n [<- <-]%lookup_singleton_Some. split; [done|]. eexists. split_and!; [apply lookup_insert_eq|done..|]. eexists. split; [done|].
    repeat (constructor; [split_and!; [split; [done|eexists; split; [|by cbn]; done]|done|done]|]). constructor.
  - by intros π n [<- <-]%lookup_singleton_Some.
  - by intros π π' n n' [<- <-]%lookup_singleton_Some [<- <-]%lookup_singleton_Some.
  - intros π n [<- <-]%lookup_singleton_Some. cbn. split; [done|]. rewrite lookup_insert_ne by (intros <-; by apply Hnp).
    destruct (inodes s !! p) eqn:E; [|done]. exfalso. apply Hnp, Hm1, Hb. by eexists.
  - intros k Hk. cbn in Hk |- *. destruct (decide (k = root)) as [->|]; [by apply Hm2|]. rewrite lookup_insert_ne in Hk by done. by apply Hm2, Hm1, Hb.
  - intros π c n' [E _]%lookup_singleton_Some. by destruct π.
  - intros π n c i [<- <-]%lookup_singleton_Some Hin. cbn in Hin. apply elem_of_cons in Hin as [[= -> _]|[[= -> _]|[]%elem_of_nil]%elem_of_cons]; [by left|by right; left].
  - intros π n [<- _]%lookup_singleton_Some. by left.
  - by intros π n [<- <-]%lookup_singleton_Some.
  - cbn. rewrite lookup_insert_eq. by eexists.
Qed.

(** C19: The archive of the boot loader becomes the file system: after [ramfsInit]
    of an archive of files, each with the directories of its name, every file of
    it is found from the root under its path, with its size, and with its bytes at
    the address that its inode keeps.  Components have at most 31 characters and
    are not [".."]; a component ["."] means nothing; no path is there twice or is
    also a directory ([listed_directory_faults]); there is memory for three
    allocations per component, and a directory fits the largest one. *)
Theorem ramfsInit_roundtrip files names rest s : image = archive files rest -> Forall wellFormed files -> Forall2 namedBy files names -> separate names ->
  len image < 2 ^ 62 -> sizeofDirEntry * (Z.of_nat (steps names) + 3) <= MAX_ALLOC -> room (heap s) (2 + 3 * steps names) ->
  (forall k, is_Some (inodes s !! k) -> busy (heap s) k) ->
  wp (ramfsInit image initrd ramfsSuperBlock junk true) s (fun r s' => r = 0 /\
    forall k f nm, files !! k = Some f -> names !! k = Some nm -> wp (getInodeFromPath 0 (47 :: joined (pathOf nm))) s' (fun i s2 => s2 = s' /\ holdsFile s' f i)).
Proof.
  intros Him Hw Hnm Hsep Hlen Hmax Hroom Hb. destruct (legal_sizes (2 + steps names)) as [Hz1 Hz2]; [unfold sizeofDirEntry in *; lia|].
  destruct (kmalloc_law sizeofInode (heap s) _ Hz1 Hroom) as (Hr & Hnr & Hbr & Hr1 & Hm1). unfold ramfsInit. cbn [negb]. apply wp_bind, wp_onHeap.
  destruct (kmalloc sizeofInode (heap s)) as [root h1] eqn:E1. cbn [fst snd] in *. rewrite (proj2 (Z.eqb_neq root 0)) by done. apply wp_bind, wp_modify, wp_bind. fssimpl.
  destruct (kmalloc_law (2 * sizeofDirEntry) h1 _ Hz2 Hr1) as (Hp & Hnp & Hbp & Hr2 & Hm2). unfold dirCacheInit. apply wp_bind, wp_onHeap. fssimpl.
  destruct (kmalloc (2 * sizeofDirEntry) h1) as [p h2] eqn:E2. cbn [fst snd] in *. rewrite (proj2 (Z.eqb_neq p 0)) by done.
  apply wp_bind. eapply wp_updInode; fssimpl; [apply lookup_insert_eq|]. apply wp_ret. rewrite insert_insert_eq. unfold mountRoot. apply wp_bind, wp_bind, wp_modify, wp_ret, wp_bind, wp_modify.
  pose proof (forest_root s (pathOf <$> names) root h1 p h2 Hb Hm1 Hm2 Hr Hnr Hbr Hnp Hbp) as F. set (s2 := mkFs _ _ _ _ _ _ _ _) in F.
  change (set_supers _ _) with s2. unfold parseInitrd. assert (Ha : at_ 0 (concat (fileBytes <$> files) ++ fileBytes trailer)) by (split; [done|]; exists rest; rewrite Him; unfold archive; by rewrite <- app_assoc).
  eapply (parseFiles_spec files); [done|exact Ha|done|done| |].
  { rewrite Him. unfold archive. rewrite length_app. clear. induction files as [|f files IH]; cbn [length fmap list_fmap concat]; [lia|]. rewrite length_app.
    assert (0 < length (fileBytes f))%nat by (unfold fileBytes, pad4, headerBytes; rewrite !length_app; cbn [length cpioMagic]; lia). unfold fmap in *. lia. }
  eapply wp_mono; [eapply (calls_spec files 0 [] names s2 _ 2 Hw Hnm Hsep); [by apply at_head in Ha|exact F|done|unfold sizeofDirEntry in *; lia|exact Hr2]|].
  intros [] s3 (Hr3 & T & used & F3 & _ & P3). split; [done|]. intros k f nm Hf Hn.
  destruct (Forall2_lookup_lr _ _ _ _ _ _ P3 Hf Hn) as (π & c & m & i & Eq & Hm & Ha3 & Hh). apply app_inj_tail in Eq as [<- <-].
  destruct (Forall2_lookup_lr _ _ _ _ _ _ Hnm Hf Hn) as (_ & Hds & [Hpl _] & _). destruct (f_root _ _ _ _ _ F3) as (rn & Hrn & Er).
  eapply wp_mono; [apply (absolute_path 0 (pathOf nm) (Some i))|].
  - apply Forall_app. split; [|by repeat constructor; apply Hpl]. unfold clean. apply Forall_forall. intros d [_ Hd]%list_elem_of_filter. rewrite Forall_forall in Hds. by apply Hds.
  - rewrite <- Er, <- Ha3. by apply (forest_resolves (pathOf <$> names) s3 T (pathOf <$> names) used nm.2 (clean nm.1) []).
  - intros j s4 [-> ->]. by split.
Qed.
End parse.

(** ** A small archive *)

(** A heap of a thousand blocks, one behind the other, that refuses sizes that
    are not legal; the addresses in front are in use. *)
Definition line_alloc (n : Z) (h : nat) : Z * nat :=
  if (0 <? n) && (n <=? MAX_ALLOC) && (h <? 1000)%nat then (4096 + 0x200000 * Z.of_nat h, S h) else (0, h).
#[local] Instance line_memory : KernelMemory nat := {
  kmalloc := line_alloc; krealloc _ := line_alloc; kfree _ h := h; allocKPages _ h := (0, h); deallocPages _ _ h := h
}.
Lemma line_law n h k : 0 < n <= MAX_ALLOC -> (h + S k <= 1000)%nat -> line_alloc n h = (4096 + 0x200000 * Z.of_nat h, S h).
Proof. intros Hn Hh. unfold line_alloc. by rewrite (proj2 (Z.ltb_lt 0 n)), (proj2 (Z.leb_le n _)), (proj2 (Nat.ltb_lt h 1000)) by lia. Qed.
#[local] Instance line_enough : EnoughMemory (H := nat).
Proof.
  refine {| busy h q := q < 4096 + 0x200000 * Z.of_nat h; room h k := (h + k <= 1000)%nat |}.
  - intros n h k Hn Hh. cbn. rewrite (line_law n h k Hn Hh). cbn [fst snd]. split_and!; intros; lia.
  - intros p n h k Hn Hp Hh. cbn. rewrite (line_law n h k Hn Hh). cbn [fst snd]. split_and!; intros; lia.
  - intros h k j Hh Hj. lia.
Defined.
Definition noFile : File := mkFile 0 0 0 0 0.
Definition mkFileOf (name data : list Z) : archived := mkArchived name data (replicate 48 48) (replicate 32 48) (replicate 8 48).
Definition bin : list Z := [98; 105; 110].
Definition sh : list Z := [115; 104].
Definition ls : list Z := [108; 115].
(** ["./a"] with three bytes, ["./bin/sh"] with two and ["./bin/ls"] with none. *)
Definition demo_names : list fileName := [([dot], [97]); ([dot; bin], sh); ([dot; bin], ls)].
Definition demo_files : list archived :=
  [mkFileOf [46; 47; 97] [1; 2; 3]; mkFileOf (46 :: 47 :: bin ++ 47 :: sh) [4; 5]; mkFileOf (46 :: 47 :: bin ++ 47 :: ls) []].
Definition demo_image : list Z := archive demo_files [].
Definition fs_empty : fs nat := mkFs ∅ ∅ ∅ 0 None 0%nat ∅ 0.

Lemma demo_wellFormed : Forall wellFormed demo_files.
Proof. repeat (constructor; [split_and!; [done|done|done|done|done|by vm_compute; set_solver|done]|]). constructor. Qed.
Lemma plain_bool n : bool_decide (n <> [] /\ 47 ∉ n /\ len n <= 255) && bool_decide (0 ∉ n) && (len n <=? 31) && bool_decide (n <> dotdot) = true -> normal n.
Proof. intros [[[?%bool_decide_eq_true ?%bool_decide_eq_true]%andb_prop ?%Z.leb_le]%andb_prop ?%bool_decide_eq_true]%andb_prop. done. Qed.
Lemma demo_named : Forall2 namedBy demo_files demo_names.
Proof. repeat (constructor; [split_and!; [done|repeat (constructor; [by apply plain_bool|]); constructor|by apply plain_bool|done]|]). constructor. Qed.
Lemma demo_separate : separate demo_names.
Proof.
  intros i j nm nm' Hi Hj. destruct i as [|[|[|i]]], j as [|[|[|j]]]; cbn in Hi, Hj; try done; injection Hi as <-; injection Hj as <-; intros [k Hk]; first [done|vm_compute in Hk; by simplify_eq].
Qed.
Lemma ramfsInit_roundtrip_witness : demo_image = archive demo_files [] /\
  wp (ramfsInit demo_image 0x100000 100 noFile true) fs_empty (fun r s' => r = 0 /\
    forall k f nm, demo_files !! k = Some f -> demo_names !! k = Some nm ->
      wp (getInodeFromPath 0 (47 :: joined (pathOf nm))) s' (fun i s2 => s2 = s' /\ holdsFile demo_image 0x100000 100 s' f i)).
Proof.
  split; [reflexivity|]. apply (ramfsInit_roundtrip demo_image 0x100000 100 noFile demo_files demo_names [] fs_empty);
    [reflexivity|exact demo_wellFormed|exact demo_named|exact demo_separate|by vm_compute|by vm_compute|apply Nat.leb_le; reflexivity|intros k [x Hx]; done].
Defined.

(** Directories are made as they are named: ["bin/sh"]. *)
Definition pathSh : list Z := [98; 105; 110; 47; 115; 104].
Definition sizeAt (m : M (fs nat) Z) (path : list Z) : option (Z * cache) :=
  match (_ ← m; i ← getInodeFromPath 0 path; x ← getInode i; mret (fileSize x, cachedData x)) fs_empty with Done (r, _) => Some r | _ => None end.
Example nested_directory : sizeAt (ramfsInit (archive [mkFileOf pathSh [7; 8; 9; 10; 11]] []) 0x100000 100 noFile true) (47 :: pathSh) = Some (5, RawCache (0x100000 + 120)).
Proof. vm_compute. reflexivity. Qed.

(** ** What the code gets wrong *)

(** Digits in lower case, which other writers of archives use, count as 42 and more. *)
Example parseHex_lower : parseHex [48; 48; 48; 48; 48; 48; 48; 97] = 42.
Proof. reflexivity. Qed.
(** An archive that lists a directory itself makes a file of that name; a file
    in it is then linked into the cache of a file. *)
Example listed_directory_faults : ramfsInit (archive [mkFileOf [98; 105; 110] []; mkFileOf pathSh [7]] []) 0x100000 100 noFile true fs_empty = Fault.
Proof. vm_compute. reflexivity. Qed.
