(* ===== verification/OpenFiles.v ===== *)
(** * Open files on the RAM file system

    The system calls of [Fd] run on any file system of the class [Vfs].  Here
    the RAM file system of [FileSystem] and [FileData] becomes an instance, and the
    two layers are composed: what a process reads through a descriptor is what the
    directory tree and the pages hold. *)

From S2P Require Import Prelude Word Errno CString Fd FileSystem FileData.

(** ** The instance *)

Section instance.
Context {H : Type} `{KernelMemory H}.
Notation fsM := (M (fs H)).
Context (devices : Z -> option (DevFileOps (fs H))) (unset junk : Z) (fuel : nat).
(** The pipes of [fs/pipe.c] block their callers; they are modelled as step
    relations in [Pipe]. *)
Context (pipeWr pipeRd : Z -> Z -> Z -> fsM Z).

(** Stores to user memory; an unmapped byte is a fault. *)
Definition storeBytes (a : Z) (l : list Z) : fsM unit := fun s =>
  match writeWord8 l a (bytes s) with
  | Done (_, m) => Done (tt, set_bytes m s)
  | Fault => Fault
  | NoFuel => NoFuel
  end.
Definition bytes32 (n : Z) : list Z := [u8 n; u8 (Z.shiftr n 8); u8 (Z.shiftr n 16); u8 (Z.shiftr n 24)].
(** [fsGetDent] with the copy of [dirCacheGet] to the caller's buffer. *)
Definition getDentTo (dir buf index : Z) : fsM Z :=
  r ← FileSystem.fsGetDent dir index;
  match r with
  | inl error => mret error
  | inr None => mret 0
  | inr (Some (id, type, name)) =>
    storeBytes buf (bytes32 id);; storeBytes (buf + 4) (bytes32 type);; storeBytes (buf + 8) (name ++ [0]);;
    mret (len name)
  end.
Definition ioctlOf (f : File) (request arg : Z) : fsM (option (Z * File)) :=
  x ← getInode (inode f);
  match devices (ops x) ≫= opIoctl with
  | Some ioctl => Some <$> ioctl f request arg
  | None => mret None
  end.

#[export] Instance ramfs : Vfs (fs H) := {
  Fd.fsWrite f buffer size := FileData.fsWrite devices junk fuel f buffer size;
  Fd.fsRead f buffer size := FileData.fsRead devices f buffer size;
  Fd.fsOpen := FileSystem.fsOpen;
  Fd.fsClose := FileSystem.fsClose devices;
  Fd.fsTruncate := FileSystem.fsTruncate;
  Fd.fsSeek := FileData.fsSeek;
  Fd.fsCreate f dir name type := r ← FileSystem.fsCreate (Some f) dir name type; mret (r.1, default f r.2);
  Fd.fsGetDent := getDentTo;
  Fd.fsUnlink := FileSystem.fsUnlink devices;
  Fd.fsRename := FileSystem.fsRename devices;
  Fd.fsAccessAllowed := FileSystem.fsAccessAllowed;
  Fd.getInodeFromPath := FileSystem.getInodeFromPath;
  Fd.getBaseDirFromPath := FileSystem.getBaseDirFromPath unset;
  Fd.inodeType i := x ← getInode i; mret (itype x);
  Fd.lockInode := acquire;
  Fd.unlockInode := release;
  Fd.addInodeRef i n := updInode i (fun x => i_refs (s32 (refCount x + n)) x);
  Fd.devIoctl := ioctlOf;
  Fd.pipeWrite := pipeWr;
  Fd.pipeRead := pipeRd
}.
End instance.

(** ** Opening and reading *)

Section client.
Context {H : Type} `{KernelMemory H}.
Context (devices : Z -> option (DevFileOps (fs H))) (unset junk : Z) (fuel : nat).
Context (pipeWr pipeRd : Z -> Z -> Z -> M (fs H) Z) (stale : ProcessFile).
#[local] Instance ramfs_here : Vfs (fs H) := ramfs devices unset junk fuel pipeWr pipeRd.
Implicit Types (v : fs H) (s : proc H (fs H)).

Lemma wp_vfs {A} (m : M (fs H) A) s (Q : A -> proc H (fs H) -> Prop) :
  wp m (vfs s) (fun a v => Q a (set_vfs v s)) -> wp (onVfs m) s Q.
Proof. unfold wp, onVfs. by destruct (m (vfs s)) as [[a v]| |]. Qed.
Lemma set_vfs_id s : set_vfs (vfs s) s = s.
Proof. by destruct s. Qed.

(** The file system after [fsOpen]: one more reference. *)
Definition opened v (i : Z) (x : Inode) : fs H := set_inodes (<[i := i_refs (s32 (refCount x + 1)) x]> (inodes v)) v.

Lemma fsOpen_spec f x v :
  inodes v !! inode f = Some x -> ilock x = false ->
  has (fflags f) SYSOPEN_FLAG_DIR = false -> has (fflags f) SYSOPEN_FLAG_APPEND = false ->
  wp (FileSystem.fsOpen f) v (fun r v' => r = (0, mkFile 0 1 (fflags f) (inode f) 0) /\ v' = opened v (inode f) x).
Proof.
  intros Hi Hl Hd Ha. unfold FileSystem.fsOpen. cbn [inode fflags offset].
  apply wp_bind, (wp_acquire _ x); [done|done|]. apply wp_bind, (wp_getInode _ (i_lock true x)); [apply lookup_insert_eq|].
  rewrite Hd, Ha. cbn [andb]. apply wp_bind, (wp_updInode _ (i_lock true x)); [apply lookup_insert_eq|].
  apply wp_bind. eapply wp_updInode; [apply lookup_insert_eq|]. apply wp_ret. split; [done|].
  unfold opened, locked, set_inodes. fssimpl. rewrite !insert_insert_eq. do 2 f_equal. by destruct x; simpl in Hl; subst.
Qed.

Lemma file_at_opened v i x cf data : file_at v i x cf data -> file_at (opened v i x) i (i_refs (s32 (refCount x + 1)) x) cf data.
Proof. intros (Hi & Hf). split; [apply lookup_insert_eq|exact Hf]. Qed.

Lemma getFileFromFD_file (i : nat) pf s Q :
  (i < 8)%nat -> inlineFDs s !! i = Some pf -> has (pflags pf) PROCFILE_FLAG_PIPE = false ->
  has (pflags pf) PROCFILE_FLAG_SHARED = false -> inode (pfile pf) <> 0 ->
  Q (0, FPFile (InEntry (Inline (Z.of_nat i)))) s -> wp (getFileFromFD (Z.of_nat i)) s Q.
Proof.
  intros Hi Hl Hp Hs Hn HQ. unfold getFileFromFD. apply wp_bind, wp_gets, wp_bind, wp_gets, wp_bind.
  unfold NROF_INLINE_FDS. destruct (Z.ltb_spec (Z.of_nat i) 8); [|lia]. apply wp_ret.
  apply wp_bind, (wp_readPF i pf); [done|]. rewrite Hp, Hs. apply wp_bind, wp_fmap, (wp_readPF i pf); [done|].
  destruct (Z.eqb_spec (inode (pfile pf)) 0); [done|]. by apply wp_ret.
Qed.

(** An operation on the file of an inline entry. *)
Lemma onFile_inline (i : nat) pf (op : File -> M (fs H) (Z * File)) s Q :
  inlineFDs s !! i = Some pf ->
  wp (op (pfile pf)) (vfs s) (fun r v => Q r.1 (set_inline (<[i := setFile r.2 pf]> (inlineFDs s)) (set_vfs v s))) ->
  wp (onFile (InEntry (Inline (Z.of_nat i))) op) s Q.
Proof.
  intros Hi HQ. unfold onFile. apply wp_bind, wp_fmap, (wp_readPF i pf); [done|].
  apply wp_bind, wp_vfs. wp_use HQ. intros r v HQ'. apply wp_bind, (wp_updPF i pf); [done|]. by apply wp_ret.
Qed.

Lemma accessAllowed_nothing i x v : inodes v !! i = Some x ->
  wp (FileSystem.fsAccessAllowed i 0) v (fun b v' => b = true /\ v' = v).
Proof.
  intros Hi. unfold FileSystem.fsAccessAllowed. apply wp_bind, wp_gets. destruct (caller v) as [c|]; [|by apply wp_ret].
  destruct (ceuid c =? 0); [by apply wp_ret|]. apply wp_bind, (wp_getInode _ x); [done|]. apply wp_ret. split; [|done].
  assert (Hp : forall sh, permits (iperm x) sh 0 = true) by (intros sh; unfold permits; by rewrite Z.land_0_l).
  rewrite !Hp. by destruct (ceuid c =? iuid x), ((cegid c =? igid x) || inGroups (cgroups c) (igid x)).
Qed.

(** The entry of a file that has just been opened for reading. *)
Definition read_entry (n : Z) : ProcessFile := mkPF PROCFILE_FLAG_USED (mkFile 0 1 SYSOPEN_FLAG_READ n 0).

(** Opening an existing file for reading. *)
Lemma sysOpen_existing i path comps n x s Q :
  fdLock s = false -> length (inlineFDs s) = 8%nat -> first_unused (inlineFDs s) i -> validateUserString path = 0 ->
  Forall component comps -> path.2 = joined comps ->
  resolves (vfs s) (if cwd s =? 0 then rootDir (vfs s) else cwd s) comps (Some n) ->
  n <> 0 -> inodes (vfs s) !! n = Some x -> ilock x = false ->
  Q (Z.of_nat i) (set_inline (<[i := read_entry n]> (inlineFDs s)) (set_vfs (opened (vfs s) n x) s)) ->
  wp (sysOpen stale AT_FDCWD path SYSOPEN_FLAG_READ) s Q.
Proof.
  intros Hlock Hlen Hf Hv Hc Hp Hr Hn Hx Hl HQ. destruct (proj1 Hf) as (pf & Hi & _).
  assert (Hlt : (i < length (inlineFDs s))%nat) by (by eapply lookup_lt_Some).
  apply (sysOpen_prefix stale i pf); [done..|]. set (e := mkPF _ _).
  apply wp_bind, wp_gets, wp_bind, wp_vfs. cbn [cwd set_inline vfs]. rewrite Hp.
  wp_use (relative_path (cwd s) comps (Some n) (vfs s) Hc Hr). intros r v (-> & ->).
  change (vfs s) with (vfs (set_inline (<[i := e]> (inlineFDs s)) s)) at 1. rewrite set_vfs_id. change (default 0 (Some n)) with n.
  destruct (Z.eqb_spec n 0); [done|]. cbn [andb]. change (has SYSOPEN_FLAG_READ SYSOPEN_FLAG_EXCL) with false. cbv iota.
  unfold openExisting. change (Z.lor _ _) with 0. apply wp_bind, wp_vfs. fdsimpl.
  wp_use (accessAllowed_nothing n x (vfs s) Hx). intros b v (-> & ->). cbn [negb].
  apply wp_bind, wp_fmap, (wp_readPF i e); fdsimpl; [by apply list_lookup_insert_eq|].
  apply wp_bind, (wp_updPF i e); fdsimpl; [by apply list_lookup_insert_eq|]. rewrite list_insert_insert_eq.
  set (e1 := setFile _ e). apply wp_bind, wp_vfs. fdsimpl. apply wp_bind, (wp_getInode n x); [done|]. apply wp_ret.
  change (has SYSOPEN_FLAG_READ SYSOPEN_FLAG_TRUNC) with false. cbn [andb]. apply wp_bind, wp_ret. cbn [Z.eqb negb].
  apply wp_bind. apply (onFile_inline i e1); fdsimpl; [by apply list_lookup_insert_eq|].
  wp_use (fsOpen_spec (pfile e1) x (vfs s)); [done|done|done|done|]. intros r v (-> & ->). cbn [fst snd Z.eqb]. apply wp_ret.
  rewrite list_insert_insert_eq. by destruct s.
Qed.

(** What a program does that opens a path for reading and reads from it once. *)
Definition openAndRead path buffer bufSize : M (proc H (fs H)) (Z * Z) :=
  fd ← sysOpen stale AT_FDCWD path SYSOPEN_FLAG_READ;
  r ← sysRead fd buffer bufSize;
  mret (fd, r).

(** C9: A process opens a path for reading and reads: when the path names a
    regular file and a descriptor is free, it gets that descriptor, and its
    buffer holds the beginning of the file, as much as there is and as fits.  The
    new entry stands behind what was read; of everything else, the other
    descriptors, the rest of memory, the other inodes, names and locks, only the
    count of references of the inode and the times of its pages have changed.
    The descriptor is one of the eight inline ones. *)
Theorem open_then_read i path comps n x cf data buffer bufSize s :
  fdLock s = false -> length (inlineFDs s) = 8%nat -> first_unused (inlineFDs s) i -> validateUserString path = 0 ->
  Forall component comps -> path.2 = joined comps ->
  resolves (vfs s) (if cwd s =? 0 then rootDir (vfs s) else cwd s) comps (Some n) -> n <> 0 ->
  file_at (vfs s) n x cf data -> 0 <= bufSize < 2 ^ 31 -> validateUserPointer buffer bufSize = 0 ->
  room (bytes (vfs s)) buffer bufSize -> apart buffer bufSize cf ->
  let k := Z.min bufSize (Z.of_nat (length data)) in
  wp (openAndRead path buffer bufSize) s (fun r s' =>
    r = (Z.of_nat i, k) /\ exists x' cf' m,
      s' = set_inline (<[i := mkPF PROCFILE_FLAG_USED (mkFile 0 1 SYSOPEN_FLAG_READ n k)]> (inlineFDs s)) (set_vfs (changed (vfs s) n x' m) s) /\
      holds m buffer (take (Z.to_nat k) data) /\ (forall y, ~ buffer <= y < buffer + k -> m !! y = bytes (vfs s) !! y) /\
      file_at (vfs s') n x' cf' data /\ Forall2 same_page cf cf' /\ x' = i_cache (cachedData x') (i_refs (s32 (refCount x + 1)) x)).
Proof.
  intros Hlock Hlen Hf Hv Hc Hp Hr Hn Hfile Hbuf Hptr Hroom Hap k.
  assert (Hi8 : (i < 8)%nat) by (destruct (proj1 Hf) as (pf & Hi & _); apply lookup_lt_Some in Hi; lia).
  unfold openAndRead. apply wp_bind, (sysOpen_existing i path comps n x); [done..|apply Hfile|apply Hfile|].
  unfold sysRead. rewrite Hptr. cbn [Z.eqb negb]. apply wp_bind, wp_bind.
  apply (getFileFromFD_file i (read_entry n)); fdsimpl; [done|apply list_lookup_insert_eq; lia|done|done|done|].
  cbn [Z.ltb Z.compare]. change (has 0 1) with false. cbv iota. apply wp_fmap.
  apply (onFile_inline i (read_entry n)); fdsimpl; [apply list_lookup_insert_eq; lia|].
  wp_use (fsRead_aligned devices (pfile (read_entry n)) (i_refs (s32 (refCount x + 1)) x) cf data 0 buffer bufSize (opened (vfs s) n x));
    [by apply file_at_opened|done|done|simpl; lia|lia|exact Hroom|done|].
  cbn [read_entry pfile offset inode]. rewrite Z.sub_0_r. fold k. intros r v (-> & Hh & Ho & x' & cf' & Hf' & Hpg & Hx' & Hs').
  apply wp_ret. cbn [fst snd]. rewrite swrap_small by lia. fdsimpl. split; [done|]. exists x', cf', (bytes v).
  split_and!; [|exact Hh|exact Ho|exact Hf'|exact Hpg|exact Hx'].
  rewrite list_insert_insert_eq. rewrite Hs' at 1. unfold changed, opened, set_bytes, set_inodes. fssimpl. rewrite insert_insert_eq. by destruct s.
Qed.
End client.

Section witnesses.
#[local] Instance some_memory : KernelMemory Z := {
  kmalloc _ h := (h, h + 64); krealloc _ _ h := (h, h + 64); kfree _ h := h;
  allocKPages _ h := (h, h + 4096); deallocPages _ _ h := h
}.
(** A root directory with the file ["a"] of 100 bytes. *)
Definition tree_entries : list DirEntry := [demo_entry 1 1 0 46; mkDirent 1 1 0 2 (Inlined [46; 46]); demo_entry 10 1 2 97].
Definition tree : fs Z :=
  mkFs (<[1 := demo_dir tree_entries]> (<[10 := demo_inode (FileCache 32 [full_page]) 100]> ∅)) ∅ ∅ 1 (Some (mkIds 1000 100 []))
    65536 demo_bytes 0.
Definition demo_process : proc Z (fs Z) := mkProc (replicate 8 free_entry) 0 0 0 false 0 ∅ ∅ ∅ ∅ 4096 tree.
Definition no_pipe (_ _ _ : Z) : M (fs Z) Z := mret 0.

Lemma tree_root : dir_at tree 1 (demo_dir tree_entries) [([46], 1); ([46; 46], 1); ([97], 10)].
Proof.
  split_and!; [done|done|done|]. exists 2000, tree_entries. split_and!; [done|done|].
  repeat (constructor; [split_and!; [split; [done|eexists; split; [|by cbn]; done]|done|done]|]). constructor.
Qed.
Lemma tree_file : file_at tree 10 (demo_inode (FileCache 32 [full_page]) 100) [full_page] (replicate 100 7).
Proof. split_and!; try done. exact page_of_sevens. Qed.

#[local] Instance tree_vfs : Vfs (fs Z) := ramfs no_devices 0 0 1 no_pipe no_pipe.
Lemma open_then_read_witness :
  let k := Z.min 64 (Z.of_nat (length (replicate 100 7))) in
  k = 64 /\
  wp (openAndRead no_devices 0 0 1 no_pipe no_pipe free_entry (0x1000, [97]) 8000 64) demo_process (fun r s' =>
    r = (Z.of_nat 0, k) /\ exists x' cf' m,
      s' = set_inline (<[0%nat := mkPF PROCFILE_FLAG_USED (mkFile 0 1 SYSOPEN_FLAG_READ 10 k)]> (inlineFDs demo_process)) (set_vfs (changed (vfs demo_process) 10 x' m) demo_process) /\
      holds m 8000 (take (Z.to_nat k) (replicate 100 7)) /\ (forall y, ~ 8000 <= y < 8000 + k -> m !! y = bytes (vfs demo_process) !! y) /\
      file_at (vfs s') 10 x' cf' (replicate 100 7) /\ Forall2 same_page [full_page] cf' /\ x' = i_cache (cachedData x') (i_refs (s32 (0 + 1)) (demo_inode (FileCache 32 [full_page]) 100))).
Proof.
  split; [done|].
  assert (Hf : first_unused (inlineFDs demo_process) 0) by (split; [by exists free_entry|intros k pf Hk; lia]).
  assert (Hc : Forall component [[97]]).
  { repeat constructor; try done. apply not_elem_of_cons. split; [done|apply not_elem_of_nil]. }
  assert (Hroom : room (bytes (vfs demo_process)) 8000 64) by (intros y Hy; exists 7; apply mapFresh_in; lia).
  assert (Hap : apart 8000 64 [full_page]) by (constructor; [right; by vm_compute|constructor]).
  exact (open_then_read no_devices 0 0 1 no_pipe no_pipe free_entry 0 (0x1000, [97]) [[97]] 10 _ _ _ 8000 64 demo_process
    eq_refl eq_refl Hf eq_refl Hc eq_refl (resolves_last tree 1 _ _ [97] tree_root) ltac:(done) tree_file ltac:(lia) eq_refl Hroom Hap).
Defined.
End witnesses.
