(* ===== verification/Malloc.v ===== *)
(** * The allocator of the C library: [phlibc/src/mem.c]

    The heap of a program is a row of blocks of 16 byte units.  The header of a
    block holds the size and the state of the block before it and of its own;
    the free blocks are linked, in the order of their addresses, through their
    first bytes.  Memory is byte addressed; new pages come from the system. *)

From S2P Require Import Prelude Word Errno Bytes.

Definition HEAP_MAX : Z := 0x80000000.
Definition MAP_FAIL : Z := 2 ^ 64 - 1.
Definition MMAP_FLAG_WRITE : Z := 2.
Definition MMAP_FLAG_FIXED : Z := 8.
Definition MMAP_FLAG_ANON : Z := 16.
Definition PAGE_SIZE : Z := 0x1000.
Definition HEAP_FLAGS : Z := Z.lor MMAP_FLAG_WRITE MMAP_FLAG_ANON.
(** [sizeof(struct HeapBlock)], which is also that of [struct FreeBlock]. *)
Definition UNIT : Z := 16.

(** The system calls, which may change the memory: the result is an address or a
    negative error. *)
Class MapSys (K : Type) := {
  sysMmap : Z -> Z -> Z -> gmap Z Z * K -> Z * (gmap Z Z * K);     (* address, size, flags *)
  sysMunmap : Z -> Z -> gmap Z Z * K -> Z * (gmap Z Z * K)
}.

Record mstate (K : Type) := mkMs {
  mem : gmap Z Z;
  firstBlock : Z; lastBlock : Z; firstFreeBlock : Z; lastFreeBlock : Z;
  errno : Z;
  kern : K
}.
Arguments mkMs {K}.
Arguments mem {K}.
Arguments firstBlock {K}.
Arguments lastBlock {K}.
Arguments firstFreeBlock {K}.
Arguments lastFreeBlock {K}.
Arguments errno {K}.
Arguments kern {K}.
Definition set_mem {K} m (s : mstate K) : mstate K := mkMs m (firstBlock s) (lastBlock s) (firstFreeBlock s) (lastFreeBlock s) (errno s) (kern s).
Definition set_firstBlock {K} v (s : mstate K) : mstate K := mkMs (mem s) v (lastBlock s) (firstFreeBlock s) (lastFreeBlock s) (errno s) (kern s).
Definition set_lastBlock {K} v (s : mstate K) : mstate K := mkMs (mem s) (firstBlock s) v (firstFreeBlock s) (lastFreeBlock s) (errno s) (kern s).
Definition set_firstFree {K} v (s : mstate K) : mstate K := mkMs (mem s) (firstBlock s) (lastBlock s) v (lastFreeBlock s) (errno s) (kern s).
Definition set_lastFree {K} v (s : mstate K) : mstate K := mkMs (mem s) (firstBlock s) (lastBlock s) (firstFreeBlock s) v (errno s) (kern s).
Definition set_errno {K} v (s : mstate K) : mstate K := mkMs (mem s) (firstBlock s) (lastBlock s) (firstFreeBlock s) (lastFreeBlock s) v (kern s).
#[export] Instance heapMem {K} : ByteMem (mstate K) := {| bytes := mem; setBytes := set_mem |}.
#[export] Instance heapMemOk {K} : ByteMemOk (mstate K).
Proof. split; intros; try destruct v; done. Qed.

Section malloc.
Context {K : Type} `{MapSys K}.
Notation hM := (M (mstate K)).

Definition sys (f : gmap Z Z * K -> Z * (gmap Z Z * K)) : hM Z := fun s =>
  let '(r, (m, k)) := f (mem s, kern s) in Done (r, mkMs m (firstBlock s) (lastBlock s) (firstFreeBlock s) (lastFreeBlock s) (errno s) k).

(** The error is the result cut to 32 bits. *)
Definition mmap (addr size prot flags : Z) : hM Z :=
  ret ← sys (sysMmap (if addr =? 0 then HEAP_MAX else addr) size (Z.lor flags prot));
  let error := s32 ret in
  if error <? 0 then modify (set_errno (- error));; mret MAP_FAIL else mret ret.
Definition munmap (addr size : Z) : hM Z :=
  r ← sys (sysMunmap addr size);
  let ret := s32 r in
  if negb (ret =? 0) then modify (set_errno (- ret));; mret (-1) else mret 0.

(** ** Headers *)

Definition ldPrev (block : Z) : hM Z := ld64 block.
Definition ldNext (block : Z) : hM Z := ld64 (block + 8).
Definition stPrev (block v : Z) : hM unit := st64 block v.
Definition stNext (block v : Z) : hM unit := st64 (block + 8) v.
Definition nextBlock (block : Z) : hM Z := n ← ldNext block; mret (u64 (block + UNIT * Z.shiftr n 1)).
Definition prevBlock (block : Z) : hM Z := n ← ldPrev block; mret (u64 (block - UNIT * Z.shiftr n 1)).
Definition setNext (block size used : Z) : hM unit := stNext block (Z.lor (u64 (Z.shiftl size 1)) used).
Definition isNextUsed (block : Z) : hM bool := n ← ldNext block; mret (has n 1).
Definition isPrevUsed (block : Z) : hM bool := n ← ldPrev block; mret (has n 1).
Definition getNextSize (block : Z) : hM Z := n ← ldNext block; mret (Z.shiftr n 1).
Definition getPrevSize (block : Z) : hM Z := n ← ldPrev block; mret (Z.shiftr n 1).
Definition getFreeBlock (block : Z) : Z := block + UNIT.
Definition getHeapBlock (fb : Z) : Z := fb - UNIT.

(** ** The list of the free blocks: the links [prev] at 0 and [next] at 8 *)

Definition delFreeBlock (fb : Z) : hM unit :=
  prev ← ld64 fb;
  (if negb (prev =? 0) then next ← ld64 (fb + 8); st64 (prev + 8) next else next ← ld64 (fb + 8); modify (set_firstFree next));;
  next ← ld64 (fb + 8);
  if negb (next =? 0) then prev ← ld64 fb; st64 next prev else prev ← ld64 fb; modify (set_lastFree prev).

Definition mallocInit : hM Z :=
  first ← sys (sysMmap 0 PAGE_SIZE HEAP_FLAGS);
  modify (set_firstBlock first);;
  if first =? MAP_FAIL then mret (-1)
  else
    setNext first (PAGE_SIZE / UNIT - 1) 0;;
    last ← nextBlock first;
    modify (set_lastBlock last);;
    n ← ldNext first;
    stPrev last n;;
    modify (set_firstFree (getFreeBlock first));;
    modify (set_lastFree (getFreeBlock first));;
    mret 0.

(** No list of blocks is longer than the memory it lies in. *)
Definition heapFuel : hM nat := gets (fun s => S (size (mem s))).
Fixpoint findFrom (fuel : nat) (nrofBlocks fb : Z) : hM Z :=
  match fuel with
  | O => nofuel
  | S fuel =>
      let block := getHeapBlock fb in
      used ← isNextUsed block;
      size ← getNextSize block;
      if negb used && (nrofBlocks <=? size) then mret block
      else
        next ← ld64 (fb + 8);
        if next =? 0 then mret 0 else findFrom fuel nrofBlocks next
  end.
Definition findBlock (nrofBlocks : Z) (clean : bool) : hM Z :=
  fb ← gets (if clean then lastFreeBlock else firstFreeBlock);
  if fb =? 0 then mret 0 else fuel ← heapFuel; findFrom fuel nrofBlocks fb.

Definition moveFreeBlock (fb newFB : Z) : hM unit :=
  next ← ld64 (fb + 8);
  st64 (newFB + 8) next;;
  prev ← ld64 fb;
  st64 newFB prev;;
  first ← gets firstFreeBlock;
  (if first =? fb then modify (set_firstFree newFB) else prev ← ld64 fb; st64 (prev + 8) newFB);;
  last ← gets lastFreeBlock;
  if last =? fb then modify (set_lastFree newFB) else next ← ld64 (fb + 8); st64 next newFB.
Definition splitBlock (start nrofBlocks : Z) : hM unit :=
  let fb := getFreeBlock start in
  size ← getNextSize start;
  if u64 (size - 1) <=? nrofBlocks then
    n ← ldNext start;
    stNext start (Z.lor n 1);;
    next ← nextBlock start;
    n ← ldNext start;
    stPrev next n;;
    delFreeBlock fb
  else
    oldBlocks ← getNextSize start;
    end_ ← nextBlock start;
    setNext start nrofBlocks 1;;
    newEnd ← nextBlock start;
    n ← ldNext start;
    stPrev newEnd n;;
    setNext newEnd (u64 (oldBlocks - nrofBlocks)) 0;;
    n ← ldNext newEnd;
    stPrev end_ n;;
    moveFreeBlock fb (getFreeBlock newEnd).

(** The free blocks around an address: the last before it and the first behind. *)
Fixpoint findFreeFrom (fuel : nat) (fb next start : Z) : hM (Z * Z) :=
  match fuel with
  | O => nofuel
  | S fuel => if (fb =? 0) || (fb <? start) then mret (fb, next) else prev ← ld64 fb; findFreeFrom fuel prev fb start
  end.
Definition findFreeBlock (start : Z) : hM (Z * Z) := fb ← gets lastFreeBlock; fuel ← heapFuel; findFreeFrom fuel fb 0 start.

Definition linkFreeBlock (fb start : Z) : hM unit :=
  '(prevFree, nextFree) ← findFreeBlock start;
  st64 fb prevFree;;
  (if negb (prevFree =? 0) then st64 (prevFree + 8) fb else modify (set_firstFree fb));;
  st64 (fb + 8) nextFree;;
  if negb (nextFree =? 0) then st64 nextFree fb else modify (set_lastFree fb).
Definition mergePrev (start end_ : Z) : hM Z :=
  p ← ldPrev start;
  if negb (p =? 0) && negb (has p 1) then
    prevStart ← prevBlock start;
    a ← getPrevSize start;
    b ← getNextSize start;
    setNext prevStart (u64 (a + b)) 0;;
    n ← ldNext prevStart;
    stPrev end_ n;;
    mret prevStart
  else linkFreeBlock (getFreeBlock start) start;; mret start.
Definition mergeBlock (start end_ : Z) : hM unit :=
  start ← mergePrev start end_;
  n ← ldNext end_;
  if negb (n =? 0) && negb (has n 1) then
    a ← getNextSize start;
    b ← getNextSize end_;
    setNext start (u64 (a + b)) 0;;
    next ← nextBlock start;
    n ← ldNext start;
    stPrev next n;;
    delFreeBlock (getFreeBlock end_)
  else mret tt.

(** ** Allocation *)

Definition unitsOf (size : Z) : Z := let n := size / UNIT + 1 in if negb (size mod UNIT =? 0) then n + 1 else n.
(** [doAlloc] when no free block is large enough: the heap grows. *)
Definition moreHeap (nrofBlocks : Z) : hM bool :=
  last ← gets lastBlock;
  used ← isPrevUsed last;
  more ← (if negb used then n ← getPrevSize last; mret (u64 (nrofBlocks - n)) else mret nrofBlocks);
  let sz := u64 (more * UNIT) in
  let sz := if negb (sz mod PAGE_SIZE =? 0) then u64 (sz - sz mod PAGE_SIZE + PAGE_SIZE) else sz in
  error ← sys (sysMmap (last + UNIT) sz (Z.lor HEAP_FLAGS MMAP_FLAG_FIXED));
  if s64 error <? 0 then modify (set_errno (s32 (- s64 error)));; mret false
  else
    setNext last (sz / UNIT) 0;;
    end_ ← nextBlock last;
    n ← ldNext last;
    stPrev end_ n;;
    modify (set_lastBlock end_);;
    mergeBlock last end_;;
    mret true.
Definition doAlloc (size : Z) (clean : bool) : hM Z :=
  if size =? 0 then mret 0
  else
    let nrofBlocks := unitsOf size in
    start ← findBlock nrofBlocks clean;
    if negb (start =? 0) then splitBlock start nrofBlocks;; mret (start + UNIT)
    else
      ok ← moreHeap nrofBlocks;
      if negb ok then mret 0
      else
        start ← findBlock nrofBlocks clean;
        if start =? 0 then mret 0 else splitBlock start nrofBlocks;; mret (start + UNIT).

Definition free (p : Z) : hM unit :=
  if p =? 0 then mret tt
  else
    let start := p - UNIT in
    end_ ← nextBlock start;
    size ← getNextSize start;
    setNext start size 0;;
    n ← ldNext start;
    stPrev end_ n;;
    mergeBlock start end_.
Definition malloc (size : Z) : hM Z := doAlloc size false.
Definition calloc (nmemb size : Z) : hM Z := doAlloc (u64 (nmemb * size)) true.
Definition realloc (ptr size : Z) : hM Z :=
  if size =? 0 then free ptr;; mret 0
  else
    let size := u64 (size + 32) in
    ret ← malloc size;
    if ptr =? 0 then mret ret
    else if ret =? 0 then mret ret
    else memcpy ret ptr size;; free ptr;; mret ret.
End malloc.
