(* ===== verification/FreeList.v ===== *)
(** * The heap of the C library as a list of blocks

    The words of [Malloc] in memory, the list of blocks that their headers make,
    and the operations on the list of the free blocks. *)

From S2P Require Import Prelude Word Errno Bytes Malloc.

(** ** Words in memory

    The words that the allocator keeps in memory, as a map from their addresses.
    They do not overlap, so a write changes one entry. *)
Definition aligned (a : Z) : Prop := a mod 8 = 0.
Definition wview (m : gmap Z Z) (w : gmap Z Z) : Prop := forall a x, w !! a = Some x -> aligned a /\ 0 <= x < 2 ^ 64 /\ word m a x.
Lemma wview_store m w a x : wview m w -> aligned a -> 0 <= x < 2 ^ 64 -> wview (store a (toBytes 8 x) m) (<[a := x]> w).
Proof.
  intros Hw Ha Hx b y Hb. destruct (decide (a = b)) as [<-|Hne].
  - rewrite lookup_insert_eq in Hb. injection Hb as <-. split; [done|]. split; [done|]. apply store_text.
  - rewrite lookup_insert_ne in Hb by done. destruct (Hw b y Hb) as (Hab & Hy & Hwb). split; [done|]. split; [done|].
    apply text_at_store_apart; [done|]. rewrite !length_toBytes. unfold aligned in *. revert Hne Ha Hab. clear. dlia.
Qed.

(** Memory changes in the words at the addresses [T] only. *)
Definition touches (T : list Z) (m m' : gmap Z Z) : Prop := forall k, (forall a, a ∈ T -> k < a \/ a + 8 <= k) -> m' !! k = m !! k.
Lemma touches_refl m : touches [] m m.
Proof. by intros k _. Qed.
Lemma touches_store T m m' a x : touches T m m' -> touches (a :: T) m (store a (toBytes 8 x) m').
Proof.
  intros Ht k Hk. rewrite lookup_store, decide_False.
  - apply Ht. intros b Hb. apply Hk. by apply elem_of_cons; right.
  - rewrite length_toBytes. specialize (Hk a ltac:(apply elem_of_cons; by left)). lia.
Qed.

Section steps.
Context {K : Type}.
Implicit Types (s : mstate K) (Q : unit -> mstate K -> Prop).
(** The state [s] with another memory that holds the words [w], of which those at
    [T] were written since the memory was [m]; [lo] to [hi] is mapped. *)
Definition heapMap (m0 : gmap Z Z) (T : list Z) (w : gmap Z Z) (lo hi : Z) (m : gmap Z Z) : Prop :=
  wview m w /\ touches T m0 m /\ mapped m lo (hi - lo) /\ 0 <= lo /\ hi < 2 ^ 63 /\ (forall a x, w !! a = Some x -> a + 8 <= hi).

Lemma wp_ldW m0 T w lo hi a x s (Q : Z -> mstate K -> Prop) : heapMap m0 T w lo hi (mem s) -> w !! a = Some x -> lo <= a -> a + 8 <= hi -> Q x s -> wp (ld64 a) s Q.
Proof. intros (Hw & _ & _ & Hlo & Hhi & _) Hx Ha Hb HQ. destruct (Hw a x Hx) as (_ & Hr & Hwd). eapply ld64_spec; [exact Hwd|done|lia|lia|done]. Qed.
Lemma wp_stW m0 T w lo hi a x s Q : heapMap m0 T w lo hi (mem s) -> aligned a -> 0 <= x < 2 ^ 64 -> lo <= a -> a + 8 <= hi ->
  (forall m, heapMap m0 (a :: T) (<[a := x]> w) lo hi m -> Q tt (set_mem m s)) -> wp (st64 a x) s Q.
Proof.
  intros (Hw & Ht & Hm & Hlo & Hhi & Hin) Hal Hx Ha Hb HQ. eapply wp_mono; [apply st64_spec; [apply (mapped_part _ lo (hi - lo)); [exact Hm|lia|lia]|lia|lia]|].
  intros [] s' ->. apply HQ. split; [by apply wview_store|]. split; [by apply touches_store|]. split; [by apply mapped_store|]. split; [done|]. split; [done|].
  intros b y Hy. destruct (decide (a = b)) as [<-|Hne]; [done|]. rewrite lookup_insert_ne in Hy by done. by eapply Hin.
Qed.
End steps.

(** ** Blocks *)

(** Sizes in units and whether the block is used. *)
Notation blocks := (list (Z * bool)).
Definition tag (n : Z) (u : bool) : Z := 2 * n + (if u then 1 else 0).
Fixpoint endp (b : Z) (l : blocks) : Z := match l with [] => b | (n, _) :: l => endp (b + UNIT * n) l end.
Fixpoint endtag (pw : Z) (l : blocks) : Z := match l with [] => pw | (n, u) :: l => endtag (tag n u) l end.
(** The headers of the blocks from [b] on. *)
Fixpoint seg (w : gmap Z Z) (b pw : Z) (l : blocks) : Prop :=
  match l with
  | [] => True
  | (n, u) :: l => 2 <= n /\ w !! b = Some pw /\ w !! (b + 8) = Some (tag n u) /\ seg w (b + UNIT * n) (tag n u) l
  end.
Fixpoint frees (b : Z) (l : blocks) : list Z :=
  match l with [] => [] | (n, u) :: l => if u then frees (b + UNIT * n) l else b :: frees (b + UNIT * n) l end.
Fixpoint held (b : Z) (l : blocks) : list (Z * Z) :=
  match l with [] => [] | (n, u) :: l => if u then (b, n) :: held (b + UNIT * n) l else held (b + UNIT * n) l end.
(** The links of the free blocks; 0 is no block. *)
Definition link (b : Z) : Z := if b =? 0 then 0 else b + UNIT.
Fixpoint chain (w : gmap Z Z) (prev : Z) (l : list Z) (next : Z) : Prop :=
  match l with
  | [] => True
  | b :: l => w !! (b + 16) = Some (link prev) /\ w !! (b + 24) = Some (link (hd next l)) /\ chain w b l next
  end.

Lemma endp_app b l1 l2 : endp b (l1 ++ l2) = endp (endp b l1) l2.
Proof. revert b. by induction l1 as [|[n u] l1 IH]; intros b; cbn. Qed.
Lemma endtag_app pw l1 l2 : endtag pw (l1 ++ l2) = endtag (endtag pw l1) l2.
Proof. revert pw. by induction l1 as [|[n u] l1 IH]; intros pw; cbn. Qed.
Lemma seg_app w b pw l1 l2 : seg w b pw (l1 ++ l2) <-> seg w b pw l1 /\ seg w (endp b l1) (endtag pw l1) l2.
Proof. revert b pw. induction l1 as [|[n u] l1 IH]; intros b pw; cbn [app seg endp endtag]; [tauto|]. rewrite IH. tauto. Qed.
Lemma frees_app b l1 l2 : frees b (l1 ++ l2) = frees b l1 ++ frees (endp b l1) l2.
Proof. revert b. induction l1 as [|[n u] l1 IH]; intros b; cbn [app frees endp]; [done|]. rewrite IH. by destruct u. Qed.
Lemma held_app b l1 l2 : held b (l1 ++ l2) = held b l1 ++ held (endp b l1) l2.
Proof. revert b. induction l1 as [|[n u] l1 IH]; intros b; cbn [app held endp]; [done|]. rewrite IH. by destruct u. Qed.

(** Blocks have room for two links. *)
Definition sized (l : blocks) : Prop := Forall (fun x => 2 <= x.1) l.
Lemma seg_sized w b pw l : seg w b pw l -> sized l.
Proof. revert b pw. induction l as [|[n u] l IH]; intros b pw Hs; [by constructor|]. destruct Hs as (Hn & _ & _ & Hs). constructor; [done|by eapply IH]. Qed.
Lemma endp_ge b l : sized l -> b + 32 * Z.of_nat (length l) <= endp b l.
Proof.
  revert b. induction l as [|[n u] l IH]; intros b Hl; cbn [endp length]; [lia|]. apply Forall_cons in Hl as [Hn Hl]. cbn [fst] in Hn.
  specialize (IH (b + UNIT * n) Hl). unfold UNIT in *. lia.
Qed.
Fixpoint heads (b : Z) (l : blocks) : list Z := match l with [] => [] | (n, _) :: l => b :: heads (b + UNIT * n) l end.
Lemma heads_app b l1 l2 : heads b (l1 ++ l2) = heads b l1 ++ heads (endp b l1) l2.
Proof. revert b. induction l1 as [|[n u] l1 IH]; intros b; cbn [app heads endp]; [done|]. by rewrite IH. Qed.
Lemma heads_range b l x : sized l -> x ∈ heads b l -> b <= x /\ x + 32 <= endp b l.
Proof.
  revert b. induction l as [|[n u] l IH]; intros b Hl Hx; cbn [heads endp] in *; [by apply elem_of_nil in Hx|]. apply Forall_cons in Hl as [Hn Hl]. cbn [fst] in Hn.
  pose proof (endp_ge (b + UNIT * n) l Hl). unfold UNIT in *. apply elem_of_cons in Hx as [->|Hx]; [lia|]. specialize (IH _ Hl Hx). lia.
Qed.
Lemma frees_heads b l x : x ∈ frees b l -> x ∈ heads b l.
Proof.
  revert b. induction l as [|[n u] l IH]; intros b Hx; cbn [frees heads] in *; [done|]. apply elem_of_cons. destruct u; [right; by apply IH|].
  apply elem_of_cons in Hx as [->|Hx]; [by left|right; by apply IH].
Qed.
Lemma held_heads b l x n : (x, n) ∈ held b l -> x ∈ heads b l.
Proof.
  revert b. induction l as [|[k u] l IH]; intros b Hx; cbn [held heads] in *; [by apply elem_of_nil in Hx|]. apply elem_of_cons. destruct u; [|right; by apply IH].
  apply elem_of_cons in Hx as [[= -> ->]|Hx]; [by left|right; by apply IH].
Qed.

(** The headers of [l] survive changes elsewhere. *)
Lemma seg_frame w w' b pw l : seg w b pw l -> (forall y, y ∈ heads b l -> w' !! y = w !! y /\ w' !! (y + 8) = w !! (y + 8)) -> seg w' b pw l.
Proof.
  revert b pw. induction l as [|[n u] l IH]; intros b pw Hs Hw; [done|]. destruct Hs as (Hn & Hp & Hx & Hs). cbn [heads] in Hw.
  destruct (Hw b ltac:(apply elem_of_cons; by left)) as [E1 E2]. split; [done|]. split; [by rewrite E1|]. split; [by rewrite E2|].
  apply IH; [done|]. intros y Hy. apply Hw. by apply elem_of_cons; right.
Qed.

(** ** The free list *)

(** Addresses in order, with room for a block each. *)
Fixpoint spaced (b : Z) (F : list Z) : Prop := match F with [] => True | x :: F => b <= x /\ spaced (x + 32) F end.
Lemma spaced_mono b b' F : b' <= b -> spaced b F -> spaced b' F.
Proof. destruct F as [|x F]; [done|]. intros Hb [Hx HF]. split; [lia|done]. Qed.
Lemma spaced_frees b l : sized l -> spaced b (frees b l).
Proof.
  revert b. induction l as [|[n u] l IH]; intros b Hl; cbn [frees]; [done|]. apply Forall_cons in Hl as [Hn Hl]. cbn [fst] in Hn. specialize (IH (b + UNIT * n) Hl).
  unfold UNIT in *. destruct u; [eapply spaced_mono; [|exact IH]; lia|]. split; [lia|]. eapply spaced_mono; [|exact IH]. lia.
Qed.
Lemma spaced_in b F x : spaced b F -> x ∈ F -> b <= x.
Proof.
  revert b. induction F as [|y F IH]; intros b HF Hx; [by apply elem_of_nil in Hx|]. destruct HF as [Hb HF]. apply elem_of_cons in Hx as [->|Hx]; [done|]. specialize (IH _ HF Hx). lia.
Qed.
Lemma spaced_mid b F1 x F2 : spaced b (F1 ++ x :: F2) -> (forall y, y ∈ F1 -> b <= y /\ y + 32 <= x) /\ (forall y, y ∈ F2 -> x + 32 <= y) /\ b <= x.
Proof.
  revert b. induction F1 as [|z F1 IH]; intros b HF; cbn [app spaced] in HF; destruct HF as [Hb HF].
  - split; [intros y Hy; by apply elem_of_nil in Hy|]. split; [|done]. intros y Hy. by eapply spaced_in.
  - destruct (IH _ HF) as (H1 & H2 & H3). split; [|split; [done|lia]]. intros y Hy. apply elem_of_cons in Hy as [->|Hy]; [lia|]. specialize (H1 _ Hy). lia.
Qed.
Lemma spaced_app b F1 F2 : spaced b (F1 ++ F2) -> spaced b F1 /\ spaced b F2.
Proof.
  revert b. induction F1 as [|z F1 IH]; intros b HF; cbn [app spaced] in *; [done|]. destruct HF as [Hb HF]. destruct (IH _ HF) as [H1 H2].
  split; [done|]. eapply spaced_mono; [|exact H2]. lia.
Qed.
Lemma spaced_remove b F1 x F2 : spaced b (F1 ++ x :: F2) -> spaced b (F1 ++ F2).
Proof.
  revert b. induction F1 as [|z F1 IH]; intros b HF; cbn [app spaced] in *; destruct HF as [Hb HF]; [eapply spaced_mono; [|exact HF]; lia|]. split; [done|by apply IH].
Qed.

Definition last0 (prev : Z) (F : list Z) : Z := default prev (last F).
Lemma lastLink_snoc prev F x : last0 prev (F ++ [x]) = x.
Proof. unfold last0. by rewrite last_snoc. Qed.
Lemma last0_cons prev x F : last0 prev (x :: F) = last0 x F.
Proof. unfold last0. destruct F as [|y F _] using rev_ind; [done|]. by rewrite app_comm_cons, !last_snoc. Qed.
Lemma last0_app prev F1 x F2 : last0 prev (F1 ++ x :: F2) = last0 x F2.
Proof. revert prev. induction F1 as [|y F1 IH]; intros prev; cbn [app]; rewrite last0_cons; [done|]. apply IH. Qed.
Lemma chain_app w prev F1 F2 next : chain w prev (F1 ++ F2) next <-> chain w prev F1 (hd next F2) /\ chain w (last0 prev F1) F2 next.
Proof.
  revert prev. induction F1 as [|x F1 IH]; intros prev; cbn [app chain]; [unfold last0; cbn; tauto|]. rewrite IH, last0_cons.
  replace (hd next (F1 ++ F2)) with (hd (hd next F2) F1) by (by destruct F1). tauto.
Qed.
Lemma chain_same w w' prev F next : chain w prev F next -> (forall y, y ∈ F -> w' !! (y + 16) = w !! (y + 16) /\ w' !! (y + 24) = w !! (y + 24)) -> chain w' prev F next.
Proof.
  revert prev. induction F as [|x F IH]; intros prev Hc Hw; [done|]. destruct Hc as (H1 & H2 & Hc). destruct (Hw x ltac:(apply elem_of_cons; by left)) as [E1 E2].
  split; [by rewrite E1|]. split; [by rewrite E2|]. apply IH; [done|]. intros y Hy. apply Hw. by apply elem_of_cons; right.
Qed.
Lemma chain_set_next w prev b F p next v : spaced b (F ++ [p]) -> chain w prev (F ++ [p]) next -> chain (<[p + 24 := link v]> w) prev (F ++ [p]) v.
Proof.
  intros Hs Hc. apply chain_app in Hc as [H1 H2]. destruct (spaced_mid _ _ _ _ Hs) as (Hy & _ & _). apply chain_app. split.
  - eapply chain_same; [exact H1|]. intros y HF. specialize (Hy _ HF). rewrite !lookup_insert_ne by lia. done.
  - destruct H2 as (E1 & E2 & _). split; [by rewrite lookup_insert_ne by lia|]. split; [|done]. by rewrite lookup_insert_eq.
Qed.
Lemma chain_set_prev w prev b x F next v : spaced b (x :: F) -> chain w prev (x :: F) next -> chain (<[x + 16 := link v]> w) v (x :: F) next.
Proof.
  intros [_ Hs] (E1 & E2 & Hc). split; [by rewrite lookup_insert_eq|]. split; [by rewrite lookup_insert_ne by lia|].
  eapply chain_same; [exact Hc|]. intros y HF. pose proof (spaced_in _ _ _ Hs HF). rewrite !lookup_insert_ne by lia. done.
Qed.

(** ** Operations on the free list *)

Section freelist.
Context {K : Type} `{MapSys K}.
Implicit Types (s : mstate K) (Q : unit -> mstate K -> Prop).
Definition upd (m : gmap Z Z) (f l : Z) s : mstate K := mkMs m (firstBlock s) (lastBlock s) f l (errno s) (kern s).
Lemma upd_id s f l : firstFreeBlock s = f -> lastFreeBlock s = l -> upd (mem s) f l s = s.
Proof. intros <- <-. by destruct s. Qed.

Definition links (F : list Z) : list Z := flat_map (fun y => [y + 16; y + 24]) F.
Lemma in_links F a : a ∈ links F <-> exists y, y ∈ F /\ (a = y + 16 \/ a = y + 24).
Proof.
  induction F as [|x F IH]; cbn [links flat_map]; [split; [intros Ha; by apply elem_of_nil in Ha|intros (y & Hy & _); by apply elem_of_nil in Hy]|].
  rewrite elem_of_app. fold (links F). rewrite IH, !elem_of_cons, elem_of_nil. split.
  - intros [Ha|(y & Hy & Ha)]; [exists x; rewrite elem_of_cons; tauto|]. exists y. rewrite elem_of_cons. auto.
  - intros (y & Hy & Ha). apply elem_of_cons in Hy as [->|Hy]; [left; tauto|right; by exists y].
Qed.
(** The words outside of the links of [F] are kept, and only they were written. *)
Definition only_links (F T : list Z) (w : gmap Z Z) (T' : list Z) (w' : gmap Z Z) : Prop :=
  (forall a, a ∉ links F -> w' !! a = w !! a) /\ (forall a, a ∈ T' -> a ∈ T \/ a ∈ links F).
Lemma only_links_refl F T w : only_links F T w T w.
Proof. split; [done|]. by left. Qed.
Lemma only_links_set F T w a x : a ∈ links F -> only_links F T w (a :: T) (<[a := x]> w).
Proof. intros Ha. split; [intros b Hb; apply lookup_insert_ne; by intros ->|]. intros b Hb. apply elem_of_cons in Hb as [->|Hb]; auto. Qed.
Lemma only_links_trans F T w T1 w1 T2 w2 : only_links F T w T1 w1 -> only_links F T1 w1 T2 w2 -> only_links F T w T2 w2.
Proof. intros [A1 B1] [A2 B2]. split; [intros a Ha; by rewrite A2, A1|]. intros a Ha. destruct (B2 a Ha) as [Hb|Hb]; [by apply B1|by right]. Qed.

(** A list of free blocks in the heap between [lo] and [hi]. *)
Definition fits (lo hi : Z) (F : list Z) : Prop := spaced lo F /\ (forall y, y ∈ F -> aligned y /\ y + 32 <= hi) /\ 0 < lo.
Lemma fits_in lo hi F y : fits lo hi F -> y ∈ F -> aligned y /\ lo <= y /\ y + 32 <= hi /\ 0 < y.
Proof. intros (Hs & Ha & Hlo) Hy. pose proof (spaced_in _ _ _ Hs Hy). destruct (Ha y Hy). by split_and!; try lia. Qed.
Lemma fits_remove lo hi F1 x F2 : fits lo hi (F1 ++ x :: F2) -> fits lo hi (F1 ++ F2).
Proof.
  intros (Hs & Ha & Hlo). split; [by eapply spaced_remove|]. split; [|done]. intros y Hy. apply Ha. rewrite elem_of_app in *. rewrite elem_of_cons. tauto.
Qed.
Lemma aligned_add a k : aligned a -> k mod 8 = 0 -> aligned (a + k).
Proof. unfold aligned. dlia. Qed.
Lemma link_pos b : 0 < b -> link b = b + 16.
Proof. intros Hb. unfold link, UNIT. by rewrite (proj2 (Z.eqb_neq b 0)) by lia. Qed.
Lemma link_range lo hi F y : fits lo hi F -> hi < 2 ^ 63 -> y = 0 \/ y ∈ F -> 0 <= link y < 2 ^ 64.
Proof. intros Hf Hh [->|Hy]; [done|]. destruct (fits_in _ _ _ _ Hf Hy) as (_ & _ & Hb & Hp). rewrite link_pos by done. lia. Qed.
Lemma lastLink_in F : last0 0 F = 0 /\ F = [] \/ last0 0 F ∈ F.
Proof. destruct F as [|x F _] using rev_ind; [by left|]. right. rewrite lastLink_snoc. apply elem_of_app. right. by apply elem_of_cons; left. Qed.
Lemma hd_in (F : list Z) : hd 0 F = 0 /\ F = [] \/ hd 0 F ∈ F.
Proof. destruct F; [by left|]. right. by apply elem_of_cons; left. Qed.

(** The link to the next block from the one before, or the first pointer. *)
Lemma setNextLink_spec m0 T w lo hi F1 F2 nxt next s Q : heapMap m0 T w lo hi (mem s) -> chain w 0 F1 nxt -> fits lo hi (F1 ++ F2) ->
  0 <= link next < 2 ^ 64 -> firstFreeBlock s = link (hd nxt F1) ->
  (forall m T' w', heapMap m0 T' w' lo hi m -> chain w' 0 F1 next -> only_links F1 T w T' w' ->
    Q tt (upd m (link (hd next F1)) (lastFreeBlock s) s)) ->
  wp (if negb (link (last0 0 F1) =? 0) then st64 (link (last0 0 F1) + 8) (link next) else modify (set_firstFree (link next))) s Q.
Proof.
  intros HM Hc Hf Hr Hfirst HQ. destruct F1 as [|p F1 _] using rev_ind.
  - cbn. apply wp_modify. exact (HQ (mem s) T w HM I (only_links_refl _ _ _)).
  - rewrite lastLink_snoc. assert (Hp : p ∈ (F1 ++ [p]) ++ F2) by (rewrite !elem_of_app, elem_of_cons; auto).
    destruct (fits_in _ _ _ _ Hf Hp) as (Hal & Hlo & Hhi & Hpos). rewrite (link_pos p) by done. rewrite (proj2 (Z.eqb_neq _ _)) by lia. cbn [negb].
    replace (p + 16 + 8) with (p + 24) by lia. eapply wp_stW; [exact HM|by apply aligned_add|done|lia|lia|]. intros m Hm.
    specialize (HQ m _ _ Hm). destruct Hf as (Hs & _ & _). apply spaced_app in Hs as [Hs _].
    assert (E : upd m (link (hd next (F1 ++ [p]))) (lastFreeBlock s) s = set_mem m s).
    { unfold upd. destruct s; cbn in *. subst. by destruct F1. }
    rewrite <- E. apply HQ; [by eapply chain_set_next|]. apply only_links_set, in_links. exists p. rewrite elem_of_app, elem_of_cons. auto.
Qed.
(** The link back from the block behind, or the last pointer. *)
Lemma setPrevLink_spec m0 T w lo hi F1 F2 prv prev s Q : heapMap m0 T w lo hi (mem s) -> chain w prv F2 0 -> fits lo hi (F1 ++ F2) ->
  0 <= link prev < 2 ^ 64 -> lastFreeBlock s = link (last0 prv F2) ->
  (forall m T' w', heapMap m0 T' w' lo hi m -> chain w' prev F2 0 -> only_links F2 T w T' w' ->
    Q tt (upd m (firstFreeBlock s) (link (last0 prev F2)) s)) ->
  wp (if negb (link (hd 0 F2) =? 0) then st64 (link (hd 0 F2)) (link prev) else modify (set_lastFree (link prev))) s Q.
Proof.
  intros HM Hc Hf Hr Hlast HQ. destruct F2 as [|x F2].
  - cbn. apply wp_modify. exact (HQ (mem s) T w HM I (only_links_refl _ _ _)).
  - assert (Hx : x ∈ F1 ++ x :: F2) by (rewrite elem_of_app, elem_of_cons; auto).
    destruct (fits_in _ _ _ _ Hf Hx) as (Hal & Hlo & Hhi & Hpos). cbn [hd]. rewrite (link_pos x) by done. rewrite (proj2 (Z.eqb_neq _ _)) by lia. cbn [negb].
    eapply wp_stW; [exact HM|by apply aligned_add|done|lia|lia|]. intros m Hm.
    specialize (HQ m _ _ Hm). destruct Hf as (Hs & _ & _). apply spaced_app in Hs as [_ Hs].
    assert (E : upd m (firstFreeBlock s) (link (last0 prev (x :: F2))) s = set_mem m s).
    { unfold upd. rewrite last0_cons in *. destruct s; cbn in *. by subst. }
    rewrite <- E. apply HQ; [by eapply chain_set_prev|]. apply only_links_set, in_links. exists x. rewrite elem_of_cons. auto.
Qed.
Lemma only_links_mono F F' T w T' w' : (forall y, y ∈ F -> y ∈ F') -> only_links F T w T' w' -> only_links F' T w T' w'.
Proof.
  intros HF [A B]. assert (Hi : forall a, a ∈ links F -> a ∈ links F') by (intros a Ha; apply in_links in Ha as (y & Hy & Ha); apply in_links; eauto).
  split; [intros a Ha; apply A; eauto|]. intros a Ha. destruct (B a Ha); auto.
Qed.
Lemma wp_if_bind {A B} (c : bool) (m : M (mstate K) A) (f g : A -> M (mstate K) B) s (Q : B -> mstate K -> Prop) :
  wp (x ← m; if c then f x else g x) s Q -> wp (if c then x ← m; f x else x ← m; g x) s Q.
Proof. by destruct c. Qed.
Lemma not_links F y k : (k <> 16) -> (k <> 24) -> (forall z, z ∈ F -> z + 32 <= y \/ y + 32 <= z) -> 0 <= k < 32 -> y + k ∉ links F.
Proof. intros H1 H2 Hd Hk Ha. apply in_links in Ha as (z & Hz & Ha). specialize (Hd z Hz). lia. Qed.
Lemma not_links_other F y k : (forall z, z ∈ F -> z + 32 <= y \/ y + 32 <= z) -> 0 <= k < 32 -> y + k ∉ links F.
Proof. intros Hd Hk Ha. apply in_links in Ha as (z & Hz & Ha). specialize (Hd z Hz). lia. Qed.
Lemma chain_keep F T w T' w' prev L next : only_links F T w T' w' -> chain w prev L next ->
  (forall y z, y ∈ L -> z ∈ F -> z + 32 <= y \/ y + 32 <= z) -> chain w' prev L next.
Proof.
  intros [A _] Hc Hd. eapply chain_same; [exact Hc|]. intros y Hy. split; apply A; apply not_links_other; auto; lia.
Qed.

Lemma delFree_spec m0 T w lo hi F1 x F2 s Q : heapMap m0 T w lo hi (mem s) -> chain w 0 (F1 ++ x :: F2) 0 -> fits lo hi (F1 ++ x :: F2) ->
  firstFreeBlock s = link (hd 0 (F1 ++ x :: F2)) -> lastFreeBlock s = link (last0 0 (F1 ++ x :: F2)) ->
  (forall m T' w', heapMap m0 T' w' lo hi m -> chain w' 0 (F1 ++ F2) 0 -> only_links (F1 ++ F2) T w T' w' ->
    Q tt (upd m (link (hd 0 (F1 ++ F2))) (link (last0 0 (F1 ++ F2))) s)) ->
  wp (delFreeBlock (x + 16)) s Q.
Proof.
  intros HM Hc Hf Hfirst Hlast HQ. pose proof Hf as Hf0. destruct Hf0 as (Hs & _ & _). destruct (spaced_mid _ _ _ _ Hs) as (Hy1 & Hy2 & _).
  assert (Hx : x ∈ F1 ++ x :: F2) by (rewrite elem_of_app, elem_of_cons; auto). destruct (fits_in _ _ _ _ Hf Hx) as (Hal & Hxlo & Hxhi & Hpos).
  assert (Hhi : hi < 2 ^ 63) by apply HM. apply chain_app in Hc as [Hc1 (Ex1 & Ex2 & Hc2)]. cbn [hd] in Hc1.
  assert (Hapart : forall z, z ∈ F1 ++ F2 -> z + 32 <= x \/ x + 32 <= z).
  { intros z Hz. apply elem_of_app in Hz as [Hz|Hz]; [left; by apply Hy1|right; by apply Hy2]. }
  unfold delFreeBlock. apply wp_bind. eapply wp_ldW; [exact HM|exact Ex1|lia|lia|]. replace (x + 16 + 8) with (x + 24) by lia.
  apply wp_bind, wp_if_bind, wp_bind. eapply wp_ldW; [exact HM|exact Ex2|lia|lia|].
  eapply (setNextLink_spec m0 T w lo hi F1 F2 x (hd 0 F2)); [exact HM|exact Hc1|by eapply fits_remove| | |].
  { eapply link_range; [exact Hf|exact Hhi|]. rewrite elem_of_app, elem_of_cons. destruct (hd_in F2) as [[-> _]|]; auto. }
  { rewrite Hfirst. by destruct F1. }
  intros m1 T1 w1 HM1 Hc1' Ho1. assert (Ex1' : w1 !! (x + 16) = Some (link (last0 0 F1))).
  { destruct Ho1 as [A _]. rewrite A; [done|]. apply not_links_other; [|lia]. intros z Hz. left. by apply Hy1. }
  assert (Ex2' : w1 !! (x + 24) = Some (link (hd 0 F2))).
  { destruct Ho1 as [A _]. rewrite A; [done|]. apply not_links_other; [|lia]. intros z Hz. left. by apply Hy1. }
  apply wp_bind. eapply wp_ldW; [exact HM1|exact Ex2'|lia|lia|]. apply wp_if_bind, wp_bind. eapply wp_ldW; [exact HM1|exact Ex1'|lia|lia|].
  eapply (setPrevLink_spec m0 T1 w1 lo hi F1 F2 x (last0 0 F1)); [exact HM1| |by eapply fits_remove| | |].
  { eapply chain_keep; [exact Ho1|exact Hc2|]. intros y z Hy Hz. specialize (Hy1 z Hz). specialize (Hy2 y Hy). lia. }
  { eapply link_range; [exact Hf|exact Hhi|]. rewrite elem_of_app. destruct (lastLink_in F1) as [[-> _]|]; auto. }
  { cbn. rewrite Hlast, last0_app. done. }
  intros m2 T2 w2 HM2 Hc2' Ho2. cbn [upd firstFreeBlock]. specialize (HQ m2 T2 w2 HM2).
  replace (hd (hd 0 F2) F1) with (hd 0 (F1 ++ F2)) by (by destruct F1).
  replace (last0 (last0 0 F1) F2) with (last0 0 (F1 ++ F2)).
  2:{ destruct F2 as [|z F2]; [by rewrite app_nil_r|]. rewrite last0_app, last0_cons. done. }
  apply HQ.
  - apply chain_app. split; [|exact Hc2']. eapply chain_keep; [exact Ho2|exact Hc1'|]. intros y z Hy Hz. specialize (Hy1 y Hy). specialize (Hy2 z Hz). lia.
  - eapply only_links_trans; [eapply only_links_mono; [|exact Ho1]|eapply only_links_mono; [|exact Ho2]]; intros y Hy; rewrite elem_of_app; auto.
Qed.

Lemma fits_length lo hi F : fits lo hi F -> lo <= hi -> 32 * Z.of_nat (length F) <= hi - lo.
Proof.
  intros (Hs & Ha & _). revert lo Hs. induction F as [|x F IH]; intros lo Hs Hlo; cbn [length]; [lia|]. destruct Hs as [Hx Hs].
  destruct (Ha x ltac:(apply elem_of_cons; by left)) as [_ Hb]. specialize (IH ltac:(intros y Hy; apply Ha; by apply elem_of_cons; right) (x + 32) Hs ltac:(lia)). lia.
Qed.
Lemma fits_fuel m0 T w lo hi m F : heapMap m0 T w lo hi m -> fits lo hi F -> lo <= hi -> (length F <= size m)%nat.
Proof.
  intros (_ & _ & Hm & _) Hf Hlo. pose proof (fits_length _ _ _ Hf Hlo). pose proof (mapped_size _ _ _ Hm). lia.
Qed.

Lemma findFreeFrom_spec m0 T w lo hi start F1 R : forall fuel nxt s (Q : Z * Z -> mstate K -> Prop), heapMap m0 T w lo hi (mem s) -> chain w 0 (F1 ++ R) nxt -> fits lo hi (F1 ++ R) ->
  (forall y, y ∈ F1 -> y + 32 <= start) -> (forall y, y ∈ R -> start <= y) -> (length R < fuel)%nat -> 0 < start ->
  Q (link (last0 0 F1), link (hd nxt R)) s -> wp (findFreeFrom fuel (link (last0 0 (F1 ++ R))) (link nxt) start) s Q.
Proof.
  induction R as [|y R IH] using rev_ind; intros fuel nxt s Q HM Hc Hf H1 HR Hfuel Hst HQ.
  - rewrite app_nil_r in *. destruct fuel as [|fuel]; [cbn in Hfuel; lia|]. cbn [findFreeFrom hd] in *.
    destruct (lastLink_in F1) as [[E _]|Hin]; [by rewrite E in *|]. destruct (fits_in _ _ _ _ Hf Hin) as (_ & _ & _ & Hpos).
    specialize (H1 _ Hin). rewrite (link_pos (last0 0 F1)) in * by done. rewrite (proj2 (Z.ltb_lt _ _)), orb_true_r by lia. done.
  - destruct fuel as [|fuel]; [lia|]. rewrite length_app in Hfuel. cbn [length] in Hfuel. rewrite app_assoc, lastLink_snoc in *.
    assert (Hy : y ∈ (F1 ++ R) ++ [y]) by (rewrite elem_of_app, elem_of_cons; auto). destruct (fits_in _ _ _ _ Hf Hy) as (_ & Hlo & Hhi & Hpos).
    assert (start <= y) by (apply HR; rewrite elem_of_app, elem_of_cons; auto).
    cbn [findFreeFrom]. rewrite (link_pos y) by done. rewrite (proj2 (Z.eqb_neq _ 0)), (proj2 (Z.ltb_ge _ _)) by lia. cbn [orb].
    apply chain_app in Hc as [Hc (Ey & _ & _)]. cbn [hd] in Hc. apply wp_bind. eapply wp_ldW; [exact HM|exact Ey|lia|lia|].
    rewrite <- (link_pos y) by done. eapply IH; [exact HM|exact Hc| |exact H1| |lia|done|].
    + replace (F1 ++ R) with ((F1 ++ R) ++ []) by apply app_nil_r. by eapply fits_remove.
    + intros z Hz. apply HR. rewrite elem_of_app. auto.
    + replace (hd y R) with (hd nxt (R ++ [y])) by (by destruct R). exact HQ.
Qed.

Lemma fits_insert lo hi F1 x F2 : fits lo hi (F1 ++ F2) -> aligned x -> lo <= x -> x + 32 <= hi -> (forall y, y ∈ F1 -> y + 32 <= x) -> (forall y, y ∈ F2 -> x + 32 <= y) ->
  fits lo hi (F1 ++ x :: F2).
Proof.
  intros (Hs & Ha & Hlo) Hal Hxlo Hxhi H1 H2. split; [|split; [|done]].
  - clear Ha Hlo. revert lo Hs Hxlo. induction F1 as [|z F1 IH]; intros lo Hs Hxlo; cbn [app spaced] in *.
    + split; [done|]. destruct F2 as [|z F2]; [done|]. destruct Hs as [_ Hs]. split; [apply H2; by apply elem_of_cons; left|done].
    + destruct Hs as [Hz Hs]. split; [done|]. apply IH; [intros y Hy; apply H1; by apply elem_of_cons; right|done|]. apply H1. by apply elem_of_cons; left.
  - intros y Hy. rewrite elem_of_app, elem_of_cons in Hy. destruct Hy as [Hy|[->|Hy]]; [apply Ha; rewrite elem_of_app; auto|done|apply Ha; rewrite elem_of_app; auto].
Qed.

(** A block that was freed between [F1] and [F2]. *)
Lemma linkFree_spec m0 T w lo hi F1 x F2 s Q : heapMap m0 T w lo hi (mem s) -> chain w 0 (F1 ++ F2) 0 -> fits lo hi (F1 ++ x :: F2) -> lo <= hi ->
  firstFreeBlock s = link (hd 0 (F1 ++ F2)) -> lastFreeBlock s = link (last0 0 (F1 ++ F2)) ->
  (forall m T' w', heapMap m0 T' w' lo hi m -> chain w' 0 (F1 ++ x :: F2) 0 -> only_links (F1 ++ x :: F2) T w T' w' ->
    Q tt (upd m (link (hd 0 (F1 ++ x :: F2))) (link (last0 0 (F1 ++ x :: F2))) s)) ->
  wp (linkFreeBlock (x + 16) x) s Q.
Proof.
  intros HM Hc Hf Hlh Hfirst Hlast HQ. pose proof Hf as Hf0. destruct Hf0 as (Hs & _ & _). destruct (spaced_mid _ _ _ _ Hs) as (Hy1 & Hy2 & _).
  assert (Hx : x ∈ F1 ++ x :: F2) by (rewrite elem_of_app, elem_of_cons; auto). destruct (fits_in _ _ _ _ Hf Hx) as (Hal & Hxlo & Hxhi & Hpos).
  assert (Hhi : hi < 2 ^ 63) by apply HM. pose proof (fits_remove _ _ _ _ _ Hf) as Hf'. apply chain_app in Hc as [Hc1 Hc2].
  assert (R1 : 0 <= link (last0 0 F1) < 2 ^ 64) by (eapply link_range; [exact Hf|exact Hhi|]; rewrite elem_of_app; destruct (lastLink_in F1) as [[-> _]|]; auto).
  assert (R2 : 0 <= link (hd 0 F2) < 2 ^ 64) by (eapply link_range; [exact Hf|exact Hhi|]; rewrite elem_of_app, elem_of_cons; destruct (hd_in F2) as [[-> _]|]; auto).
  assert (Hapart1 : forall y z, y ∈ F1 -> z = x -> z + 32 <= y \/ y + 32 <= z) by (intros y z Hy ->; right; by apply Hy1).
  unfold linkFreeBlock, findFreeBlock. apply wp_bind, wp_bind, wp_gets. apply wp_bind. unfold heapFuel. apply wp_gets. rewrite Hlast.
  eapply (findFreeFrom_spec m0 T w lo hi x F1 F2 _ 0); [exact HM|by apply chain_app|exact Hf'|intros y Hy; by apply Hy1|intros y Hy; specialize (Hy2 y Hy); lia| |done|].
  { pose proof (fits_fuel _ _ _ _ _ _ _ HM Hf' Hlh) as Hl. rewrite length_app in Hl. lia. }
  (* prev of the new entry *)
  apply wp_bind. eapply wp_stW; [exact HM|by apply aligned_add|exact R1|lia|lia|]. intros m1 HM1.
  set (w1 := <[x + 16 := link (last0 0 F1)]> w) in *.
  assert (O1 : only_links [x] T w (x + 16 :: T) w1) by (apply only_links_set, in_links; exists x; rewrite elem_of_cons; auto).
  assert (C1 : chain w1 0 F1 (hd 0 F2)) by (eapply chain_keep; [exact O1|exact Hc1|]; intros y z Hy Hz; apply list_elem_of_singleton in Hz; auto).
  assert (C2 : chain w1 (last0 0 F1) F2 0).
  { eapply chain_keep; [exact O1|exact Hc2|]. intros y z Hy Hz. apply list_elem_of_singleton in Hz as ->. left. by apply Hy2. }
  rewrite <- (link_pos x) by done. apply wp_bind.
  eapply (setNextLink_spec m0 _ w1 lo hi F1 F2 (hd 0 F2) x (set_mem m1 s)); [exact HM1|exact C1|exact Hf'| | |].
  { rewrite link_pos by done. lia. }
  { cbn. rewrite Hfirst. by destruct F1. }
  intros m2 T2 w2 HM2 C1' O2. rewrite (link_pos x) by done. replace (x + 16 + 8) with (x + 24) by lia.
  (* next of the new entry *)
  apply wp_bind. eapply wp_stW; [exact HM2|by apply aligned_add|exact R2|lia|lia|]. intros m3 HM3. set (w3 := <[x + 24 := link (hd 0 F2)]> w2) in *.
  assert (O3 : only_links [x] T2 w2 (x + 24 :: T2) w3) by (apply only_links_set, in_links; exists x; rewrite elem_of_cons; auto).
  assert (C1'' : chain w3 0 F1 x) by (eapply chain_keep; [exact O3|exact C1'|]; intros y z Hy Hz; apply list_elem_of_singleton in Hz; auto).
  assert (C2' : chain w3 (last0 0 F1) F2 0).
  { eapply chain_keep; [exact O3| |]; [eapply chain_keep; [exact O2|exact C2|]|]; intros y z Hy Hz; [specialize (Hy1 z Hz); specialize (Hy2 y Hy); lia|].
    apply list_elem_of_singleton in Hz as ->. left. by apply Hy2. }
  rewrite <- (link_pos x) by done.
  eapply (setPrevLink_spec m0 _ w3 lo hi F1 F2 (last0 0 F1) x (set_mem m3 (upd m2 (link (hd x F1)) (lastFreeBlock s) s))); [exact HM3|exact C2'|exact Hf'| | |].
  { rewrite link_pos by done. lia. }
  { cbn. rewrite Hlast. destruct F2 as [|z F2]; [by rewrite app_nil_r|]. by rewrite last0_app, last0_cons. }
  intros m4 T4 w4 HM4 C2'' O4. specialize (HQ m4 T4 w4 HM4). rewrite last0_app in HQ. replace (hd 0 (F1 ++ x :: F2)) with (hd x F1) in HQ by (by destruct F1).
  apply HQ.
  - apply chain_app. split; [eapply chain_keep; [exact O4|exact C1''|]; intros y z Hy Hz; specialize (Hy1 y Hy); specialize (Hy2 z Hz); lia|].
    assert (Hnot : forall k, 0 <= k < 32 -> x + k ∉ links F2) by (intros k Hk; apply not_links_other; [intros z Hz; right; by apply Hy2|done]).
    destruct O4 as [A4 _]. split; [|split; [|exact C2'']].
    + rewrite A4 by (apply Hnot; lia). unfold w3. rewrite lookup_insert_ne by lia. destruct O2 as [A2 _]. rewrite A2; [apply lookup_insert_eq|].
      apply not_links_other; [intros z Hz; left; by apply Hy1|lia].
    + rewrite A4 by (apply Hnot; lia). apply lookup_insert_eq.
  - eapply only_links_trans; [eapply only_links_mono; [|exact O1]|eapply only_links_trans; [eapply only_links_mono; [|exact O2]|
      eapply only_links_trans; [eapply only_links_mono; [|exact O3]|eapply only_links_mono; [|exact O4]]]]; intros y Hy;
      rewrite elem_of_app, elem_of_cons; try (apply list_elem_of_singleton in Hy); auto.
Qed.

Lemma link_zero F1 lo hi : fits lo hi F1 -> (link (last0 0 F1) =? 0) = match F1 with [] => true | _ => false end.
Proof.
  intros Hf. destruct (lastLink_in F1) as [[E1 E2]|Hin]; [by subst|]. destruct (fits_in _ _ _ _ Hf Hin) as (_ & _ & _ & Hpos). rewrite link_pos by done.
  rewrite (proj2 (Z.eqb_neq _ 0)) by lia. by destruct F1; [apply elem_of_nil in Hin|].
Qed.
Lemma link_zero_hd F2 lo hi : fits lo hi F2 -> (link (hd 0 F2) =? 0) = match F2 with [] => true | _ => false end.
Proof.
  intros Hf. destruct F2 as [|y F2]; [done|]. destruct (fits_in _ _ _ y Hf ltac:(apply elem_of_cons; by left)) as (_ & _ & _ & Hpos).
  cbn [hd]. rewrite link_pos by done. by rewrite (proj2 (Z.eqb_neq _ 0)) by lia.
Qed.
Lemma fits_app lo hi F1 F2 : fits lo hi (F1 ++ F2) -> fits lo hi F1 /\ fits lo hi F2.
Proof.
  intros (Hs & Ha & Hlo). apply spaced_app in Hs as [H1 H2]. by split; (split; [done|]); (split; [|done]); intros y Hy; apply Ha; rewrite elem_of_app; auto.
Qed.

(** The link back to the entry [x] becomes one to [x'], further up in the same block. *)
Lemma moveLast_spec m0 T w lo hi F1 x x' F2 s Q : heapMap m0 T w lo hi (mem s) -> chain w 0 F1 x' -> chain w x F2 0 ->
  w !! (x + 24) = Some (link (hd 0 F2)) -> w !! (x' + 16) = Some (link (last0 0 F1)) -> w !! (x' + 24) = Some (link (hd 0 F2)) ->
  fits lo hi (F1 ++ x :: F2) -> fits lo hi (F1 ++ x' :: F2) -> lastFreeBlock s = link (last0 0 (F1 ++ x :: F2)) ->
  (forall m T' w', heapMap m0 T' w' lo hi m -> chain w' 0 (F1 ++ x' :: F2) 0 -> only_links F2 T w T' w' -> Q tt (upd m (firstFreeBlock s) (link (last0 0 (F1 ++ x' :: F2))) s)) ->
  wp (last ← gets lastFreeBlock; if last =? x + 16 then modify (set_lastFree (x' + 16)) else next ← ld64 (x + 24); st64 next (x' + 16)) s Q.
Proof.
  intros HM C1 C2 Ex En1 En2 Hf Hf' Hlast HQ. destruct (spaced_mid _ _ _ _ (proj1 Hf)) as (Hy1 & Hy2 & _). destruct (spaced_mid _ _ _ _ (proj1 Hf')) as (Hz1 & Hz2 & _).
  destruct (fits_in _ _ _ x Hf ltac:(rewrite elem_of_app, elem_of_cons; auto)) as (_ & Hxlo & Hxhi & Hpos).
  destruct (fits_in _ _ _ x' Hf' ltac:(rewrite elem_of_app, elem_of_cons; auto)) as (_ & Hxlo' & Hxhi' & Hpos').
  assert (Hhi : hi < 2 ^ 63) by apply HM. pose proof (fits_remove _ _ _ _ _ Hf) as Hr. destruct (fits_app _ _ _ _ Hr) as [_ Hr2].
  pose proof (setPrevLink_spec m0 T w lo hi F1 F2 x x' s) as Hset. rewrite (link_pos x') in Hset by done. apply wp_bind, wp_gets.
  assert (Hlx : (lastFreeBlock s =? x + 16) = (link (hd 0 F2) =? 0)).
  { rewrite (link_zero_hd F2 lo hi Hr2), Hlast, last0_app. destruct F2 as [|y F2]; [unfold last0; cbn; rewrite link_pos by done; by apply Z.eqb_refl|].
    rewrite last0_cons. assert (Hin : last0 y F2 ∈ y :: F2) by (rewrite <- (last0_cons 0); destruct (lastLink_in (y :: F2)) as [[_ ?]|]; done).
    specialize (Hy2 _ Hin). rewrite link_pos by lia. apply Z.eqb_neq. lia. }
  rewrite Hlx. assert (Hend : wp (if negb (link (hd 0 F2) =? 0) then st64 (link (hd 0 F2)) (x' + 16) else modify (set_lastFree (x' + 16))) s Q).
  { apply Hset; [exact HM|exact C2|exact Hr|lia|by rewrite Hlast, last0_app|]. intros m' T' w' HM' C2' HO. specialize (HQ m' T' w' HM'). rewrite last0_app in HQ. apply HQ; [|exact HO].
    assert (Hnot : forall k, 0 <= k < 32 -> x' + k ∉ links F2) by (intros k Hk; apply not_links_other; [intros z Hz; right; by apply Hz2|done]).
    apply chain_app. split; [eapply chain_keep; [exact HO|exact C1|]; intros y z Hy Hz; specialize (Hy1 y Hy); specialize (Hy2 z Hz); lia|].
    split; [|split; [|exact C2']]; rewrite (proj1 HO) by (apply Hnot; lia); done. }
  destruct (link (hd 0 F2) =? 0); cbn [negb] in Hend; [exact Hend|]. apply wp_bind. eapply wp_ldW; [exact HM|exact Ex|lia|lia|exact Hend].
Qed.
(** The entry [x] of the list becomes [x']. *)
Lemma moveFree_spec m0 T w lo hi F1 x x' F2 s Q : heapMap m0 T w lo hi (mem s) -> chain w 0 (F1 ++ x :: F2) 0 -> fits lo hi (F1 ++ x :: F2) -> fits lo hi (F1 ++ x' :: F2) ->
  x + 32 <= x' -> firstFreeBlock s = link (hd 0 (F1 ++ x :: F2)) -> lastFreeBlock s = link (last0 0 (F1 ++ x :: F2)) ->
  (forall m T' w', heapMap m0 T' w' lo hi m -> chain w' 0 (F1 ++ x' :: F2) 0 -> only_links (F1 ++ x' :: F2) T w T' w' ->
    Q tt (upd m (link (hd 0 (F1 ++ x' :: F2))) (link (last0 0 (F1 ++ x' :: F2))) s)) ->
  wp (moveFreeBlock (x + 16) (x' + 16)) s Q.
Proof.
  intros HM Hc Hf Hf' Hxx Hfirst Hlast HQ. destruct (spaced_mid _ _ _ _ (proj1 Hf)) as (Hy1 & Hy2 & _). destruct (spaced_mid _ _ _ _ (proj1 Hf')) as (Hz1 & Hz2 & _).
  destruct (fits_in _ _ _ x Hf ltac:(rewrite elem_of_app, elem_of_cons; auto)) as (Hal & Hxlo & Hxhi & Hpos).
  destruct (fits_in _ _ _ x' Hf' ltac:(rewrite elem_of_app, elem_of_cons; auto)) as (Hal' & Hxlo' & Hxhi' & Hpos').
  assert (Hhi : hi < 2 ^ 63) by apply HM. pose proof (fits_remove _ _ _ _ _ Hf) as Hr. destruct (fits_app _ _ _ _ Hr) as [Hr1 _].
  apply chain_app in Hc as [Hc1 (Ex1 & Ex2 & Hc2)]. cbn [hd] in Hc1.
  assert (R1 : 0 <= link (last0 0 F1) < 2 ^ 64) by (eapply link_range; [exact Hf|exact Hhi|]; rewrite elem_of_app; destruct (lastLink_in F1) as [[-> _]|]; auto).
  assert (R2 : 0 <= link (hd 0 F2) < 2 ^ 64) by (eapply link_range; [exact Hf|exact Hhi|]; rewrite elem_of_app, elem_of_cons; destruct (hd_in F2) as [[-> _]|]; auto).
  unfold moveFreeBlock. replace (x + 16 + 8) with (x + 24) by lia. replace (x' + 16 + 8) with (x' + 24) by lia.
  apply wp_bind. eapply wp_ldW; [exact HM|exact Ex2|lia|lia|]. apply wp_bind. eapply wp_stW; [exact HM|by apply aligned_add|exact R2|lia|lia|]. intros m1 HM1.
  apply wp_bind. eapply wp_ldW; [exact HM1|rewrite lookup_insert_ne by lia; exact Ex1|lia|lia|].
  apply wp_bind. eapply wp_stW; [exact HM1|by apply aligned_add|exact R1|lia|lia|]. intros m2 HM2. set (w2 := <[x' + 16 := _]> _) in *.
  assert (O2 : only_links [x'] T w (x' + 16 :: x' + 24 :: T) w2).
  { eapply only_links_trans; apply only_links_set, in_links; exists x'; rewrite elem_of_cons; auto. }
  assert (Hone : forall y z, y ∈ F1 ++ x :: F2 -> z ∈ [x'] -> z + 32 <= y \/ y + 32 <= z).
  { intros y z Hy Hz. apply list_elem_of_singleton in Hz as ->. rewrite elem_of_app, elem_of_cons in Hy. destruct Hy as [Hy|[->|Hy]]; [right; by apply Hz1|lia|left; by apply Hz2]. }
  assert (C1 : chain w2 0 F1 x) by (eapply chain_keep; [exact O2|exact Hc1|]; intros y z Hy; apply Hone; rewrite elem_of_app; auto).
  assert (C2 : chain w2 (last0 0 F1) (x :: F2) 0) by (eapply chain_keep; [exact O2|by split|]; intros y z Hy; apply Hone; rewrite elem_of_app; auto). destruct C2 as (Ex1' & Ex2' & C2).
  assert (Ew : w2 !! (x' + 16) = Some (link (last0 0 F1)) /\ w2 !! (x' + 24) = Some (link (hd 0 F2))) by (unfold w2; rewrite lookup_insert_eq, lookup_insert_ne by lia; by rewrite lookup_insert_eq).
  pose proof (setNextLink_spec m0 (x' + 16 :: x' + 24 :: T) w2 lo hi F1 F2 x x' (set_mem m2 s)) as Hset. rewrite (link_pos x') in Hset by done.
  apply wp_bind, wp_gets. apply wp_bind. cbn [firstFreeBlock set_mem].
  assert (Hfx : (firstFreeBlock s =? x + 16) = (link (last0 0 F1) =? 0)).
  { rewrite (link_zero F1 lo hi Hr1), Hfirst. destruct F1 as [|y F1]; [cbn; rewrite link_pos by done; by apply Z.eqb_refl|]. cbn. specialize (Hy1 y ltac:(apply elem_of_cons; by left)).
    rewrite link_pos by (destruct (fits_in _ _ _ y Hf ltac:(apply elem_of_cons; by left)); lia). apply Z.eqb_neq. lia. }
  rewrite Hfx. assert (Hpost : wp (if negb (link (last0 0 F1) =? 0) then st64 (link (last0 0 F1) + 8) (x' + 16) else modify (set_firstFree (x' + 16))) (set_mem m2 s)
    (fun _ s' => wp (last ← gets lastFreeBlock; if last =? x + 16 then modify (set_lastFree (x' + 16)) else next ← ld64 (x + 24); st64 next (x' + 16)) s' Q)).
  { apply Hset; [exact HM2|exact C1|exact Hr|lia|cbn; rewrite Hfirst; by destruct F1|]. intros m3 T3 w3 HM3 C1' O3.
    assert (Hnot : forall y, y = x \/ y = x' -> forall k, 0 <= k < 32 -> w3 !! (y + k) = w2 !! (y + k)).
    { intros y Hy k Hk. apply (proj1 O3), not_links_other; [|done]. intros z Hz. left. destruct Hy as [->| ->]; [by apply Hy1|by apply Hz1]. }
    eapply moveLast_spec; [exact HM3|exact C1'| | | | |exact Hf|exact Hf'|exact Hlast|]; [|rewrite Hnot by (auto || lia); apply Ew || done..|].
    - eapply chain_keep; [exact O3|exact C2|]. intros y z Hy Hz. specialize (Hy1 z Hz). specialize (Hy2 y Hy). lia.
    - intros m4 T4 w4 HM4 C4 O4. cbn [upd firstFreeBlock]. replace (hd x' F1) with (hd 0 (F1 ++ x' :: F2)) by (by destruct F1). apply (HQ m4 T4 w4 HM4 C4).
      eapply only_links_trans; [eapply only_links_mono; [|exact O2]|eapply only_links_trans; [eapply only_links_mono; [|exact O3]|eapply only_links_mono; [|exact O4]]];
        intros y Hy; rewrite elem_of_app, elem_of_cons; try (apply list_elem_of_singleton in Hy); auto. }
  destruct (link (last0 0 F1) =? 0); cbn [negb] in Hpost; [exact Hpost|]. apply wp_bind. eapply wp_ldW; [exact HM2|exact Ex1'|lia|lia|exact Hpost].
Qed.
End freelist.
