(* ===== verification/MallocSpec.v ===== *)
(** * The allocator keeps what it promises

    What [malloc], [calloc] and [free] do to the blocks that a program holds, and
    that the contents of held blocks stay as they are. *)

From S2P Require Import Prelude Word Errno Bytes Malloc FreeList.

(** ** Headers *)

(** The headers of the blocks from [b] on, and the word that ends the heap. *)
Fixpoint tail (w : gmap Z Z) (b pw : Z) (l : blocks) : Prop :=
  w !! b = Some pw /\
  match l with
  | [] => w !! (b + 8) = Some 0
  | (n, u) :: l => 2 <= n /\ w !! (b + 8) = Some (tag n u) /\ tail w (b + UNIT * n) (tag n u) l
  end.
Lemma tail_first w b pw l : tail w b pw l -> w !! b = Some pw.
Proof. by destruct l as [|[n u] l]; intros [H _]. Qed.
Lemma tail_app w b pw l1 l2 : tail w b pw (l1 ++ l2) <-> seg w b pw l1 /\ tail w (endp b l1) (endtag pw l1) l2.
Proof. revert b pw. induction l1 as [|[n u] l1 IH]; intros b pw; cbn [app seg endp endtag tail]; [tauto|]. rewrite IH. tauto. Qed.
Lemma tail_sized w b pw l : tail w b pw l -> sized l.
Proof. rewrite <- (app_nil_r l). rewrite tail_app. intros [H _]. rewrite app_nil_r. by eapply seg_sized. Qed.
Lemma sized_app l1 l2 : sized (l1 ++ l2) <-> sized l1 /\ sized l2.
Proof. apply Forall_app. Qed.
Lemma sized_one n u : sized [(n, u)] <-> 2 <= n.
Proof. unfold sized. by rewrite Forall_singleton. Qed.

(** The first addresses of the blocks and the last one. *)
Definition marks (b : Z) (l : blocks) : list Z := heads b l ++ [endp b l].
Lemma marks_app b l1 n u l2 : marks b (l1 ++ (n, u) :: l2) = heads b l1 ++ endp b l1 :: marks (endp b l1 + UNIT * n) l2.
Proof. unfold marks. rewrite heads_app, endp_app, <- app_assoc. done. Qed.
Lemma marks_range b l x : sized l -> x ∈ marks b l -> b <= x <= endp b l.
Proof.
  intros Hl Hx. pose proof (endp_ge b l Hl). apply elem_of_app in Hx as [Hx|Hx]; [|apply list_elem_of_singleton in Hx as ->; lia].
  pose proof (heads_range b l x Hl Hx). lia.
Qed.
Lemma tail_frame w w' b pw l : tail w b pw l -> (forall y, y ∈ marks b l -> w' !! y = w !! y /\ w' !! (y + 8) = w !! (y + 8)) -> tail w' b pw l.
Proof.
  revert b pw. induction l as [|[n u] l IH]; intros b pw; intros [H1 H2] Hw; destruct (Hw b ltac:(apply elem_of_cons; by left)) as [E1 E2].
  - split; [by rewrite E1|by rewrite E2].
  - destruct H2 as (Hn & H2 & H3). split; [by rewrite E1|]. split; [done|]. split; [by rewrite E2|]. apply IH; [done|].
    intros y Hy. apply Hw. apply elem_of_cons. by right.
Qed.
(** A change of the word before the first block, which says what is before it. *)
Lemma tail_retag w b pw l x : tail w b pw l -> tail (<[b := x]> w) b x l.
Proof.
  intros Ht. pose proof (tail_sized _ _ _ _ Ht) as Hl. destruct l as [|[n u] l]; cbn [tail] in *.
  - split; [apply lookup_insert_eq|]. rewrite lookup_insert_ne by lia. apply Ht.
  - destruct Ht as (_ & Hn & H2 & H3). split; [apply lookup_insert_eq|]. split; [done|]. split; [by rewrite lookup_insert_ne by lia|].
    eapply tail_frame; [exact H3|]. intros y Hy. apply Forall_cons in Hl as [_ Hl]. pose proof (marks_range _ _ _ Hl Hy). unfold UNIT in *. by rewrite !lookup_insert_ne by lia.
Qed.
Lemma tail_set w b pw l a x : tail w b pw l -> a < b -> tail (<[a := x]> w) b pw l.
Proof.
  intros Ht Ha. eapply tail_frame; [exact Ht|]. intros y Hy. pose proof (marks_range _ _ _ (tail_sized _ _ _ _ Ht) Hy). by rewrite !lookup_insert_ne by lia.
Qed.
Lemma seg_set w b pw l a x : seg w b pw l -> endp b l <= a -> seg (<[a := x]> w) b pw l.
Proof.
  intros Hs Ha. eapply seg_frame; [exact Hs|]. intros y Hy. pose proof (heads_range _ _ _ (seg_sized _ _ _ _ Hs) Hy). by rewrite !lookup_insert_ne by lia.
Qed.
(** A new block behind [l1]. *)
Lemma set_seg w lo l1 n u : seg w lo 0 l1 -> w !! endp lo l1 = Some (endtag 0 l1) -> 2 <= n ->
  let b := endp lo l1 in let w' := <[b + UNIT * n := tag n u]> (<[b + 8 := tag n u]> w) in
  seg w' lo 0 (l1 ++ [(n, u)]) /\ w' !! endp lo (l1 ++ [(n, u)]) = Some (endtag 0 (l1 ++ [(n, u)])).
Proof.
  intros Hs Hp Hn b w'. unfold UNIT in *. split.
  - apply seg_app. split; [unfold w'; apply seg_set; [apply seg_set; [done|lia]|lia]|]. cbn. split; [done|]. unfold w'.
    split; [by rewrite !lookup_insert_ne by lia|]. split; [|done]. rewrite lookup_insert_ne by (unfold UNIT; lia). apply lookup_insert_eq.
  - rewrite endp_app, endtag_app. apply lookup_insert_eq.
Qed.
Lemma set_tail w lo l1 n u l2 pw : seg w lo 0 l1 -> w !! endp lo l1 = Some (endtag 0 l1) -> 2 <= n -> tail w (endp lo l1 + UNIT * n) pw l2 ->
  tail (<[endp lo l1 + UNIT * n := tag n u]> (<[endp lo l1 + 8 := tag n u]> w)) lo 0 (l1 ++ (n, u) :: l2).
Proof.
  intros Hs Hp Hn Ht. destruct (set_seg w lo l1 n u Hs Hp Hn) as [H1 H2]. replace (l1 ++ (n, u) :: l2) with ((l1 ++ [(n, u)]) ++ l2) by (by rewrite <- app_assoc).
  apply tail_app. split; [exact H1|]. rewrite endp_app, endtag_app. cbn [endp endtag].
  eapply tail_retag, tail_set; [exact Ht|]. unfold UNIT. lia.
Qed.

(** Headers and links are different words. *)
Lemma marks_apart b l x y : sized l -> x ∈ marks b l -> y ∈ marks b l -> x = y \/ x + 32 <= y \/ y + 32 <= x.
Proof.
  revert b. induction l as [|[n u] l IH]; intros b Hl Hx Hy.
  - apply list_elem_of_singleton in Hx as ->. apply list_elem_of_singleton in Hy as ->. by left.
  - apply Forall_cons in Hl as [Hn Hl]. cbn [fst] in Hn. change (x ∈ b :: marks (b + UNIT * n) l) in Hx. change (y ∈ b :: marks (b + UNIT * n) l) in Hy.
    apply elem_of_cons in Hx as [->|Hx]; apply elem_of_cons in Hy as [->|Hy]; [by left| | |by eapply IH].
    + pose proof (marks_range _ _ _ Hl Hy). unfold UNIT in *. lia.
    + pose proof (marks_range _ _ _ Hl Hx). unfold UNIT in *. lia.
Qed.
Lemma marks_links b l F y : sized l -> (forall z, z ∈ F -> z ∈ heads b l) -> y ∈ marks b l -> y ∉ links F /\ (y + 8) ∉ links F.
Proof.
  intros Hl HF Hy. assert (forall z, z ∈ F -> z = y \/ z + 32 <= y \/ y + 32 <= z).
  { intros z Hz. apply (marks_apart b l); [done| |done]. apply elem_of_app. left. by apply HF. }
  split; intros Ha; apply in_links in Ha as (z & Hz & Ha); specialize (H z Hz); lia.
Qed.
Lemma tail_links w w' lo pw l F T T' : tail w lo pw l -> only_links F T w T' w' -> (forall z, z ∈ F -> z ∈ heads lo l) -> tail w' lo pw l.
Proof.
  intros Ht [A _] HF. eapply tail_frame; [exact Ht|]. intros y Hy. destruct (marks_links lo l F y (tail_sized _ _ _ _ Ht) HF Hy). split; by apply A.
Qed.
(** A write to a header leaves the links. *)
Lemma chain_mark w lo l F prev nxt y k x : chain w prev F nxt -> sized l -> (forall z, z ∈ F -> z ∈ heads lo l) -> y ∈ marks lo l -> k = 0 \/ k = 8 -> chain (<[y + k := x]> w) prev F nxt.
Proof.
  intros Hc Hl HF Hy Hk. eapply chain_same; [exact Hc|]. intros z Hz. destruct (marks_links lo l F y Hl HF Hy) as [N1 N2].
  assert (I : z + 16 ∈ links F /\ z + 24 ∈ links F) by (split; apply in_links; eauto). destruct I as [I1 I2].
  split; apply lookup_insert_ne; intros E; destruct Hk as [-> | ->]; rewrite ?Z.add_0_r, <- ?E in *; try done; replace (y + 0) with y in E by lia; subst; done.
Qed.

(** ** The heap *)

(** The word at [a] is outside of the contents of the blocks [hs]. *)
Definition apart (hs : list (Z * Z)) (a : Z) : Prop := forall b n, (b, n) ∈ hs -> a + 8 <= b + UNIT \/ b + UNIT * n <= a.
Lemma held_sub_heads lo l b n : sized l -> (b, n) ∈ held lo l -> forall y, y ∈ marks lo l -> y <= b \/ b + UNIT * n <= y.
Proof.
  revert lo. induction l as [|[k u] l IH]; intros lo Hl Hb y Hy; [by apply elem_of_nil in Hb|]. apply Forall_cons in Hl as [Hk Hl]. cbn [fst] in Hk.
  change (y ∈ lo :: marks (lo + UNIT * k) l) in Hy. cbn [held] in Hb. apply elem_of_cons in Hy as [->|Hy].
  - left. destruct u; [apply elem_of_cons in Hb as [[= -> ->]|Hb]; [lia|]|]; pose proof (heads_range _ _ _ Hl (held_heads _ _ _ _ Hb)); unfold UNIT in *; lia.
  - destruct u; [apply elem_of_cons in Hb as [[= -> ->]|Hb]|]; [|by apply (IH _ Hl Hb)..]. right. pose proof (marks_range _ _ _ Hl Hy). lia.
Qed.
Lemma apart_mark hs lo l y k : sized l -> hs ⊆ held lo l -> y ∈ marks lo l -> k = 0 \/ k = 8 -> apart hs (y + k).
Proof. intros Hl Hs Hy Hk b n Hb. destruct (held_sub_heads lo l b n Hl (Hs (b, n) Hb) y Hy); unfold UNIT in *; lia. Qed.
Lemma frees_held lo l y b n : sized l -> y ∈ frees lo l -> (b, n) ∈ held lo l -> y + 32 <= b \/ b + UNIT * n <= y.
Proof.
  revert lo. induction l as [|[k u] l IH]; intros lo Hl Hy Hb; [by apply elem_of_nil in Hb|]. apply Forall_cons in Hl as [Hk Hl]. cbn [fst frees held] in *.
  destruct u; [apply elem_of_cons in Hb as [[= -> ->]|Hb]|apply elem_of_cons in Hy as [->|Hy]]; [| |left|]; [|by apply (IH _ Hl Hy Hb)| |by apply (IH _ Hl Hy Hb)].
  - right. pose proof (heads_range _ _ _ Hl (frees_heads _ _ _ Hy)). lia.
  - pose proof (heads_range _ _ _ Hl (held_heads _ _ _ _ Hb)). unfold UNIT in *. lia.
Qed.
Lemma apart_links hs lo l a : sized l -> hs ⊆ held lo l -> a ∈ links (frees lo l) -> apart hs a.
Proof.
  intros Hl Hs Ha b n Hb. apply in_links in Ha as (y & Hy & Ha). pose proof (frees_held lo l y b n Hl Hy (Hs (b, n) Hb)). unfold UNIT in *. lia.
Qed.
Lemma marks_aligned lo l y : aligned lo -> y ∈ marks lo l -> aligned y.
Proof.
  revert lo. induction l as [|[n u] l IH]; intros lo Hlo Hy; [by apply list_elem_of_singleton in Hy as ->|].
  change (y ∈ lo :: marks (lo + UNIT * n) l) in Hy. apply elem_of_cons in Hy as [->|Hy]; [done|]. eapply IH; [|exact Hy].
  apply aligned_add; [done|]. unfold UNIT. dlia.
Qed.
Lemma frees_fits lo l : sized l -> 0 < lo -> aligned lo -> fits lo (endp lo l + 16) (frees lo l).
Proof.
  intros Hl Hlo Ha. split; [by apply spaced_frees|]. split; [|done]. intros y Hy. apply frees_heads in Hy. pose proof (heads_range _ _ _ Hl Hy).
  split; [|lia]. eapply marks_aligned; [exact Ha|]. apply elem_of_app. by left.
Qed.
Lemma tag_shiftr n u : Z.shiftr (tag n u) 1 = n.
Proof. rewrite Z.shiftr_div_pow2 by lia. unfold tag. destruct u; dlia. Qed.
Lemma tag_used n u : has (tag n u) 1 = u.
Proof. destruct u; [apply has_1_odd|apply has_1_even]; unfold tag; dlia. Qed.
Lemma tag_pos n u : 2 <= n -> (tag n u =? 0) = false.
Proof. intros Hn. apply Z.eqb_neq. unfold tag. destruct u; lia. Qed.
Lemma tag_mk n (u : bool) : 0 <= n < 2 ^ 62 -> Z.lor (u64 (Z.shiftl n 1)) (if u then 1 else 0) = tag n u.
Proof.
  intros Hn. rewrite Z.shiftl_mul_pow2 by lia. rewrite u64_small by lia. unfold tag. destruct u; [rewrite lor_1_even by dlia|rewrite Z.lor_0_r]; lia.
Qed.

Section heap.
Context {K : Type} `{MapSys K}.
Implicit Types (s : mstate K) (hs : list (Z * Z)).

(** The memory [m] holds the words [w] from [lo] to [hi], and the contents of
    [hs] are as they were in [m0]. *)
Definition contents hs (m0 m : gmap Z Z) : Prop := forall b n k, (b, n) ∈ hs -> b + UNIT <= k < b + UNIT * n -> m !! k = m0 !! k.
Definition kept hs (m0 : gmap Z Z) (w : gmap Z Z) (lo hi : Z) (m : gmap Z Z) : Prop := heapMap m [] w lo hi m /\ contents hs m0 m.
(** The heap from [lo] on is [l], of which the free list holds [F]. *)
Record lay (m0 : gmap Z Z) (hs : list (Z * Z)) (w : gmap Z Z) (lo : Z) (l : blocks) (F : list Z) (s : mstate K) : Prop := mkLay {
  lay_kept : kept hs m0 w lo (endp lo l + 16) (mem s);
  lay_tail : tail w lo 0 l;
  lay_chain : chain w 0 F 0;
  lay_first : firstBlock s = lo /\ lastBlock s = endp lo l;
  lay_free : firstFreeBlock s = link (hd 0 F) /\ lastFreeBlock s = link (last0 0 F);
  lay_lo : 0 < lo /\ aligned lo;
  lay_held : hs ⊆ held lo l
}.

Lemma contents_touches hs m0 m1 m T : contents hs m0 m1 -> touches T m1 m -> (forall a, a ∈ T -> apart hs a) -> contents hs m0 m.
Proof. intros Hc Ht Ha b n k Hb Hk. rewrite <- (Hc b n k Hb Hk). apply Ht. intros a HT. destruct (Ha a HT b n Hb); lia. Qed.
Lemma heapMap_now m0 T w lo hi m : heapMap m0 T w lo hi m -> heapMap m [] w lo hi m.
Proof. intros (H1 & _ & H2). split; [done|]. split; [apply touches_refl|done]. Qed.
Lemma kept_touches hs m0 m1 T w lo hi m : contents hs m0 m1 -> heapMap m1 T w lo hi m -> (forall a, a ∈ T -> apart hs a) -> kept hs m0 w lo hi m.
Proof. intros Hc HM HT. split; [by eapply heapMap_now|]. eapply contents_touches; [exact Hc|apply HM|exact HT]. Qed.
Lemma kept_ld hs m0 w lo hi a x s (Q : Z -> mstate K -> Prop) : kept hs m0 w lo hi (mem s) -> w !! a = Some x -> lo <= a -> a + 8 <= hi -> Q x s -> wp (ld64 a) s Q.
Proof. intros (HM & _) Hx Ha Hb HQ. by eapply wp_ldW. Qed.
Lemma kept_st hs m0 w lo hi a x s (Q : unit -> mstate K -> Prop) : kept hs m0 w lo hi (mem s) -> aligned a -> 0 <= x < 2 ^ 64 -> lo <= a -> a + 8 <= hi -> apart hs a ->
  (forall m, kept hs m0 (<[a := x]> w) lo hi m -> Q tt (set_mem m s)) -> wp (st64 a x) s Q.
Proof.
  intros (HM & Hc) Hal Hx Ha Hb Hap HQ. eapply wp_stW; [exact HM|done..|]. intros m Hm. apply HQ. eapply kept_touches; [exact Hc|exact Hm|].
  intros c Hin. by apply list_elem_of_singleton in Hin as ->.
Qed.
Lemma kept_bounds hs m0 w lo hi m : kept hs m0 w lo hi m -> 0 <= lo /\ hi < 2 ^ 63.
Proof. by intros ((_ & _ & _ & H1 & H2 & _) & _). Qed.
(** A header at one of the marks of the heap. *)
Definition mark (hs : list (Z * Z)) (lo hi b : Z) : Prop := aligned b /\ lo <= b /\ b + 16 <= hi /\ apart hs b /\ apart hs (b + 8).
Lemma mark_in hs lo l y : sized l -> hs ⊆ held lo l -> aligned lo -> y ∈ marks lo l -> mark hs lo (endp lo l + 16) y.
Proof.
  intros Hl Hs Ha Hy. pose proof (marks_range _ _ _ Hl Hy). split; [by eapply marks_aligned|]. split; [lia|]. split; [lia|].
  split; [rewrite <- (Z.add_0_r y)|]; eapply apart_mark; eauto.
Qed.

Lemma wp_setNext hs m0 w lo hi b n (u : bool) s (Q : unit -> mstate K -> Prop) : kept hs m0 w lo hi (mem s) -> mark hs lo hi b -> 0 <= n < 2 ^ 62 ->
  (forall m, kept hs m0 (<[b + 8 := tag n u]> w) lo hi m -> Q tt (set_mem m s)) -> wp (setNext b n (if u then 1 else 0)) s Q.
Proof.
  intros HK (Hal & Hlo & Hhi & _ & Hap) Hn HQ. unfold setNext, stNext. rewrite tag_mk by done.
  eapply kept_st; [exact HK|by apply aligned_add| |lia|lia|done|exact HQ]. unfold tag. destruct u; lia.
Qed.
(** [stPrev e (ldNext b)] for the block [e] behind [b]. *)
Lemma wp_copyTag {A} (k : M (mstate K) A) hs m0 w lo hi b e n (u : bool) s Q : kept hs m0 w lo hi (mem s) -> mark hs lo hi b -> mark hs lo hi e -> w !! (b + 8) = Some (tag n u) -> 0 <= n < 2 ^ 62 ->
  (forall m, kept hs m0 (<[e := tag n u]> w) lo hi m -> wp k (set_mem m s) Q) -> wp (n ← ldNext b; stPrev e n;; k) s Q.
Proof.
  intros HK (_ & Hb1 & Hb2 & _ & _) (Hal & He1 & He2 & Hap & _) Hx Hn HQ. apply wp_bind. eapply kept_ld; [exact HK|exact Hx|lia|lia|]. apply wp_bind.
  eapply kept_st; [exact HK|done| |lia|lia|done|exact HQ]. unfold tag. destruct u; lia.
Qed.
Lemma wp_nextBlock hs m0 w lo hi b n u s (Q : Z -> mstate K -> Prop) : kept hs m0 w lo hi (mem s) -> w !! (b + 8) = Some (tag n u) -> lo <= b -> b + 16 <= hi -> 0 <= n -> b + UNIT * n <= hi ->
  Q (b + UNIT * n) s -> wp (nextBlock b) s Q.
Proof.
  intros HK Hx Hb1 Hb2 Hn Hb3 HQ. pose proof (kept_bounds _ _ _ _ _ _ HK). apply wp_bind. eapply kept_ld; [exact HK|exact Hx|lia|lia|]. apply wp_ret.
  rewrite tag_shiftr, u64_small; [done|]. unfold UNIT in *. lia.
Qed.
Lemma wp_prevBlock hs m0 w lo hi b n u s (Q : Z -> mstate K -> Prop) : kept hs m0 w lo hi (mem s) -> lo <= b - UNIT * n -> b + 16 <= hi -> 0 <= n -> w !! b = Some (tag n u) ->
  Q (b - UNIT * n) s -> wp (prevBlock b) s Q.
Proof.
  intros HK Hb1 Hb2 Hn Hx HQ. pose proof (kept_bounds _ _ _ _ _ _ HK). unfold UNIT in *. apply wp_bind. eapply kept_ld; [exact HK|exact Hx|lia|lia|]. apply wp_ret.
  rewrite tag_shiftr, u64_small; [done|]. unfold UNIT in *. lia.
Qed.
Lemma wp_nextSize hs m0 w lo hi b n u s (Q : Z -> mstate K -> Prop) : kept hs m0 w lo hi (mem s) -> lo <= b -> b + 16 <= hi -> w !! (b + 8) = Some (tag n u) ->
  Q n s -> wp (getNextSize b) s Q.
Proof. intros HK Hb1 Hb2 Hx HQ. apply wp_bind. eapply kept_ld; [exact HK|exact Hx|lia|lia|]. apply wp_ret. by rewrite tag_shiftr. Qed.
Lemma wp_prevSize hs m0 w lo hi b n u s (Q : Z -> mstate K -> Prop) : kept hs m0 w lo hi (mem s) -> lo <= b -> b + 16 <= hi -> w !! b = Some (tag n u) ->
  Q n s -> wp (getPrevSize b) s Q.
Proof. intros HK Hb1 Hb2 Hx HQ. apply wp_bind. eapply kept_ld; [exact HK|exact Hx|lia|lia|]. apply wp_ret. by rewrite tag_shiftr. Qed.

(** What a layout says about the block behind [l1]. *)
Lemma lay_block m0 hs w lo l1 n u l2 F s : lay m0 hs w lo (l1 ++ (n, u) :: l2) F s ->
  let b := endp lo l1 in let hi := endp lo (l1 ++ (n, u) :: l2) + 16 in
  seg w lo 0 l1 /\ w !! b = Some (endtag 0 l1) /\ w !! (b + 8) = Some (tag n u) /\ tail w (b + UNIT * n) (tag n u) l2 /\
  2 <= n < 2 ^ 60 /\ lo <= b /\ b + UNIT * n + 16 <= hi /\ mark hs lo hi b /\ mark hs lo hi (b + UNIT * n).
Proof.
  intros HL b hi. pose proof (lay_tail _ _ _ _ _ _ _ HL) as Ht. pose proof (tail_sized _ _ _ _ Ht) as Hl. apply tail_app in Ht as [Hs (Hp & Hn & Hx & Ht)].
  pose proof (kept_bounds _ _ _ _ _ _ (lay_kept _ _ _ _ _ _ _ HL)) as [Hb1 Hb2]. pose proof (endp_ge lo l1 ltac:(apply sized_app in Hl; tauto)) as Hge.
  assert (He : b + UNIT * n + 16 <= hi).
  { unfold hi. rewrite endp_app. cbn [endp]. pose proof (endp_ge (b + UNIT * n) l2 (tail_sized _ _ _ _ Ht)). unfold b in *. lia. }
  destruct (lay_lo _ _ _ _ _ _ _ HL). fold hi in Hb2. fold b in Hge. unfold UNIT in He. split_and!; try done; try lia.
  - apply mark_in; [done|apply HL|done|]. rewrite marks_app. apply elem_of_app. right. by apply elem_of_cons; left.
  - apply mark_in; [done|apply HL|done|]. rewrite marks_app. apply elem_of_app. right. apply elem_of_cons. right. destruct l2 as [|[k v] l2]; by apply elem_of_cons; left.
Qed.
Lemma mark_mid lo l1 n u l2 : endp lo l1 ∈ marks lo (l1 ++ (n, u) :: l2) /\ endp lo l1 + UNIT * n ∈ marks lo (l1 ++ (n, u) :: l2).
Proof.
  rewrite marks_app. split; apply elem_of_app; right; apply elem_of_cons; [by left|right]. destruct l2 as [|[k v] l2]; by apply elem_of_cons; left.
Qed.
Lemma chain_set2 w lo l F b e x y : chain w 0 F 0 -> sized l -> (forall z, z ∈ F -> z ∈ heads lo l) -> b ∈ marks lo l -> e ∈ marks lo l -> chain (<[e := x]> (<[b + 8 := y]> w)) 0 F 0.
Proof. intros Hc Hl HF Hb He. rewrite <- (Z.add_0_r e). apply (chain_mark _ lo l); [apply (chain_mark _ lo l)|..]; auto. Qed.
(** The operations on the free list keep the blocks. *)
Lemma relink hs m0 m1 w lo l T' w' hi m : contents hs m0 m1 -> tail w lo 0 l -> hs ⊆ held lo l -> heapMap m1 T' w' lo hi m -> only_links (frees lo l) [] w T' w' ->
  kept hs m0 w' lo hi m /\ tail w' lo 0 l.
Proof.
  intros HT Ht Hs HM HO. split; [|eapply tail_links; [done|exact HO|]; intros z; apply frees_heads]. eapply kept_touches; [exact HT|exact HM|].
  intros a Ha. destruct HO as [_ HO]. destruct (HO a Ha) as [Hb|Hb]; [by apply elem_of_nil in Hb|]. eapply apart_links; eauto using tail_sized.
Qed.
Lemma mark_range hs lo hi b : mark hs lo hi b -> lo <= b /\ b + 16 <= hi.
Proof. intros (_ & H1 & H2 & _). by split. Qed.

(** ** Merging *)

Definition freeTail (l : blocks) : Z := match last l with Some (k, false) => k | _ => 0 end.
Lemma freeTail_some l : freeTail l <> 0 -> exists l', l = l' ++ [(freeTail l, false)].
Proof.
  intros E. destruct l as [|[k u] l _] using rev_ind; [done|]. unfold freeTail in *. rewrite last_snoc in *. destruct u; [done|]. by exists l.
Qed.
Definition split_mid lo l1 n l2 : list Z := frees lo l1 ++ frees (endp lo l1 + UNIT * n) l2.
Lemma frees_mid lo l1 n l2 : frees lo (l1 ++ (n, false) :: l2) = frees lo l1 ++ endp lo l1 :: frees (endp lo l1 + UNIT * n) l2.
Proof. by rewrite frees_app. Qed.
Lemma frees_sub lo l1 n u l2 z : z ∈ split_mid lo l1 n l2 -> z ∈ heads lo (l1 ++ (n, u) :: l2).
Proof.
  unfold split_mid. rewrite heads_app, !elem_of_app. cbn [heads]. rewrite elem_of_cons. intros [Hz|Hz]; apply frees_heads in Hz; auto.
Qed.
Lemma held_mid lo l1 n l2 : held lo (l1 ++ (n, false) :: l2) = held lo l1 ++ held (endp lo l1 + UNIT * n) l2.
Proof. by rewrite held_app. Qed.

(** Two free blocks as one. *)
Lemma joined m0 hs w lo l k n l2 F s m : lay m0 hs w lo (l ++ (k, false) :: (n, false) :: l2) F s -> (forall z, z ∈ F -> z ∈ heads lo (l ++ (k, false) :: (n, false) :: l2)) ->
  kept hs m0 (<[endp lo l + UNIT * k + UNIT * n := tag (k + n) false]> (<[endp lo l + 8 := tag (k + n) false]> w)) lo (endp lo (l ++ (k, false) :: (n, false) :: l2) + 16) m ->
  lay m0 hs (<[endp lo l + UNIT * k + UNIT * n := tag (k + n) false]> (<[endp lo l + 8 := tag (k + n) false]> w)) lo (l ++ (k + n, false) :: l2) F (set_mem m s).
Proof.
  intros HL HF HK. pose proof (lay_tail _ _ _ _ _ _ _ HL) as Ht. pose proof (tail_sized _ _ _ _ Ht) as Hl.
  assert (Ee : endp lo l + UNIT * k + UNIT * n = endp lo l + UNIT * (k + n)) by lia.
  assert (Hend : endp lo (l ++ (k + n, false) :: l2) = endp lo (l ++ (k, false) :: (n, false) :: l2)) by (rewrite !endp_app; cbn [endp]; by rewrite Ee).
  apply tail_app in Ht as [Hs (Hp & Hk & Hx & _ & Hn & _ & Ht)].
  split; [by rewrite Hend|rewrite Ee in *; by eapply set_tail; [| |lia|]| |rewrite Hend; apply HL|apply HL|apply HL|].
  - destruct (mark_mid lo l k false ((n, false) :: l2)) as [Mp _]. pose proof (mark_mid lo (l ++ [(k, false)]) n false l2) as [_ Me].
    rewrite endp_app, <- app_assoc in Me. eapply chain_set2; [apply HL|exact Hl|exact HF|exact Mp|exact Me].
  - intros x Hx0. pose proof (lay_held _ _ _ _ _ _ _ HL x Hx0) as Hh. rewrite held_app in *. cbn [held] in *. by rewrite <- Ee.
Qed.

(** The block before a free block is joined with it, or the block is listed. *)
Lemma mergePrev_spec m0 hs w lo l1 n l2 s (Q : Z -> mstate K -> Prop) : lay m0 hs w lo (l1 ++ (n, false) :: l2) (split_mid lo l1 n l2) s ->
  (forall w' l1' s', lay m0 hs w' lo (l1' ++ (n + freeTail l1, false) :: l2) (frees lo (l1' ++ (n + freeTail l1, false) :: l2)) s' ->
    endp lo l1' + UNIT * (n + freeTail l1) = endp lo l1 + UNIT * n -> held lo l1' = held lo l1 -> errno s' = errno s -> kern s' = kern s -> Q (endp lo l1') s') ->
  wp (mergePrev (endp lo l1) (endp lo l1 + UNIT * n)) s Q.
Proof.
  intros HL HQ. destruct (lay_block _ _ _ _ _ _ _ _ _ _ HL) as (Hs & Hp & Hx & Ht & Hn & Hlo & _ & Mb & Me). pose proof (mark_range _ _ _ _ Mb) as Rb.
  pose proof (lay_kept _ _ _ _ _ _ _ HL) as HK. pose proof (lay_tail _ _ _ _ _ _ _ HL) as Htl. pose proof (tail_sized _ _ _ _ Htl) as Hsz.
  unfold mergePrev. apply wp_bind. eapply kept_ld; [exact HK|exact Hp|lia|lia|].
  destruct (decide (freeTail l1 = 0)) as [E0|E0].
  - (* the block before it is used, or there is none *)
    assert (Hu : negb (endtag 0 l1 =? 0) && negb (has (endtag 0 l1) 1) = false).
    { destruct l1 as [|[k u] l _] using rev_ind; [done|]. rewrite endtag_app. cbn [endtag]. unfold freeTail in E0. rewrite last_snoc in E0. rewrite tag_used.
      destruct u; [by rewrite andb_false_r|]. apply sized_app in Hsz as [Hsz _]. apply sized_app in Hsz as [_ Hsz%sized_one]. lia. }
    rewrite Hu. destruct HK as [HM HT]. destruct (lay_lo _ _ _ _ _ _ _ HL) as [Hpos Hal]. destruct (lay_free _ _ _ _ _ _ _ HL) as [P1 P2].
    apply wp_bind. unfold getFreeBlock. change UNIT with 16. eapply linkFree_spec; [exact HM|exact (lay_chain _ _ _ _ _ _ _ HL)| | |exact P1|exact P2|].
    + rewrite <- frees_mid. by apply frees_fits.
    + lia.
    + intros m T' w' HM' Hc' HO. apply wp_ret. rewrite E0, Z.add_0_r in HQ. apply (HQ w' l1); [|done..]. change (16 * n) with (UNIT * n) in *. rewrite <- frees_mid in *.
      destruct (relink _ _ _ _ _ _ _ _ _ _ HT Htl (lay_held _ _ _ _ _ _ _ HL) HM' HO) as [HK' Ht']. split; [exact HK'|exact Ht'|exact Hc'|apply HL|done|done|apply HL].
  - destruct (freeTail_some l1 E0) as (l & El). set (k := freeTail _) in *. clearbody k. subst l1. clear Hs Rb Mb Hlo.
    assert (E1 : endp lo (l ++ [(k, false)]) = endp lo l + UNIT * k) by (by rewrite endp_app). rewrite E1, endtag_app in *. cbn [endtag] in *.
    assert (E2 : split_mid lo (l ++ [(k, false)]) n l2 = frees lo (l ++ (n + k, false) :: l2)).
    { unfold split_mid. rewrite E1, frees_app, frees_mid, <- app_assoc. cbn. do 3 f_equal. unfold UNIT. lia. }
    rewrite E2, <- app_assoc in *. cbn [app] in *. destruct (lay_block _ _ _ _ _ _ _ _ _ _ HL) as (_ & _ & _ & _ & Hk & Hlo & Hhi & Mp & Mb).
    rewrite tag_pos, tag_used by lia. cbn [negb andb]. set (hi := endp lo _ + 16) in *. set (b := endp lo l + UNIT * k) in *. set (p := endp lo l) in *.
    pose proof (mark_range _ _ _ _ Mp) as Rp. pose proof (mark_range _ _ _ _ Mb) as Rb.
    apply wp_bind. eapply (wp_prevBlock _ _ _ _ _ _ k false); [exact HK|unfold b; lia|lia|lia|exact Hp|]. replace (b - UNIT * k) with p by (unfold b; lia).
    apply wp_bind. eapply wp_prevSize; [exact HK|lia|lia|exact Hp|]. apply wp_bind. eapply wp_nextSize; [exact HK|lia|lia|exact Hx|].
    rewrite u64_small by lia. apply wp_bind. eapply (wp_setNext _ _ _ _ _ _ (k + n) false); [exact HK|exact Mp|lia|]. intros m1 HK1.
    eapply (wp_copyTag _ hs m0 _ _ _ _ _ (k + n) false); [exact HK1|exact Mp|exact Me|by rewrite lookup_insert_eq|lia|]. intros m2 HK2. apply wp_ret.
    eapply (HQ _ l); [|unfold b, p; lia|rewrite held_app; cbn; by rewrite app_nil_r|done|done].
    rewrite (Z.add_comm n k) in *. eapply (joined _ _ w _ _ _ _ _ _ s m2 HL); [|exact HK2]. intros z. rewrite <- E2. unfold split_mid. fold b.
    rewrite E1. rewrite heads_app, elem_of_app, frees_app, !elem_of_app. cbn. rewrite !elem_of_cons, elem_of_nil. fold b p.
    intros [[Hz|[->|[]]]|Hz]; try apply frees_heads in Hz; auto.
Qed.
Lemma endp_snoc b l n u : endp b (l ++ [(n, u)]) = endp b l + UNIT * n.
Proof. by rewrite endp_app. Qed.
Lemma tail_next w b pw l : tail w b pw l -> w !! (b + 8) = Some (match l with [] => 0 | (n, u) :: _ => tag n u end).
Proof. destruct l as [|[n u] l]; [by intros [_ Ht]|by intros (_ & _ & Ht & _)]. Qed.
(** A free block behind a free block is joined with it. *)
Lemma mergeNext_spec m0 hs w lo l n k l2 s Q : lay m0 hs w lo (l ++ (n, false) :: (k, false) :: l2) (frees lo (l ++ (n, false) :: (k, false) :: l2)) s ->
  (forall w' s', lay m0 hs w' lo (l ++ (n + k, false) :: l2) (frees lo (l ++ (n + k, false) :: l2)) s' -> errno s' = errno s -> kern s' = kern s -> Q tt s') ->
  wp (a ← getNextSize (endp lo l); b ← getNextSize (endp lo l + UNIT * n); setNext (endp lo l) (u64 (a + b)) 0;;
      next ← nextBlock (endp lo l); v ← ldNext (endp lo l); stPrev next v;; delFreeBlock (getFreeBlock (endp lo l + UNIT * n))) s Q.
Proof.
  intros HL HQ. destruct (lay_block _ _ _ _ _ _ _ _ _ _ HL) as (_ & _ & Hx & _ & Hn & _ & _ & Mp & Mb). pose proof (lay_kept _ _ _ _ _ _ _ HL) as HK.
  pose proof HL as HL0. replace (l ++ (n, false) :: (k, false) :: l2) with ((l ++ [(n, false)]) ++ (k, false) :: l2) in HL0 by (by rewrite <- app_assoc).
  destruct (lay_block _ _ _ _ _ _ _ _ _ _ HL0) as (_ & _ & Hx' & _ & Hk & _ & _ & _ & Me). rewrite <- app_assoc in Me. rewrite endp_snoc in Hx', Me. cbn [app] in Me. clear HL0.
  pose proof (mark_range _ _ _ _ Mp) as Rp. pose proof (mark_range _ _ _ _ Mb) as Rb. pose proof (mark_range _ _ _ _ Me) as Re.
  apply wp_bind. eapply wp_nextSize; [exact HK|lia|lia|exact Hx|]. apply wp_bind. eapply wp_nextSize; [exact HK|lia|lia|exact Hx'|].
  rewrite u64_small by lia. apply wp_bind. eapply (wp_setNext _ _ _ _ _ _ (n + k) false); [exact HK|exact Mp|lia|]. intros m1 HK1.
  assert (Ee : endp lo l + UNIT * (n + k) = endp lo l + UNIT * n + UNIT * k) by lia.
  apply wp_bind. eapply wp_nextBlock; [exact HK1|apply lookup_insert_eq|lia|lia|lia|rewrite Ee; lia|]. rewrite Ee.
  eapply (wp_copyTag _ hs m0 _ _ _ _ _ (n + k) false); [exact HK1|exact Mp|exact Me|by rewrite lookup_insert_eq|lia|]. intros m2 HK2.
  set (F := frees lo (l ++ (n, false) :: (k, false) :: l2)) in *. pose proof (joined _ _ w _ _ _ _ _ F s m2 HL (frees_heads _ _) HK2) as HL2.
  assert (EF : F = (frees lo l ++ [endp lo l]) ++ (endp lo l + UNIT * n) :: frees (endp lo l + UNIT * n + UNIT * k) l2) by (unfold F; by rewrite frees_app, <- app_assoc).
  assert (EF' : frees lo (l ++ (n + k, false) :: l2) = (frees lo l ++ [endp lo l]) ++ frees (endp lo l + UNIT * n + UNIT * k) l2) by (by rewrite frees_mid, Ee, <- app_assoc).
  destruct (lay_kept _ _ _ _ _ _ _ HL2) as [HM HT]. destruct (lay_lo _ _ _ _ _ _ _ HL) as [Hpos Hal]. destruct (lay_free _ _ _ _ _ _ _ HL2) as [P1 P2].
  pose proof (lay_tail _ _ _ _ _ _ _ HL2) as Ht2. unfold getFreeBlock. change UNIT with 16 at 2.
  assert (Hend : endp lo (l ++ (n + k, false) :: l2) = endp lo (l ++ (n, false) :: (k, false) :: l2)) by (rewrite !endp_app; cbn [endp]; by rewrite Ee).
  rewrite EF in P1, P2. eapply delFree_spec; [exact HM|rewrite <- EF; exact (lay_chain _ _ _ _ _ _ _ HL2)| |exact P1|exact P2|].
  - rewrite <- EF, Hend. apply frees_fits; [|done|done]. eapply tail_sized, HL.
  - intros m T' w' HM' Hc' HO. rewrite <- EF' in *. destruct (relink _ _ _ _ _ _ _ _ _ _ HT Ht2 (lay_held _ _ _ _ _ _ _ HL2) HM' HO) as [HK' Ht'].
    eapply (HQ w'); [|done|done]. split; [exact HK'|exact Ht'|exact Hc'|apply HL2|done|done|apply HL2].
Qed.

Lemma mergeBlock_spec m0 hs w lo l1 n l2 s Q : lay m0 hs w lo (l1 ++ (n, false) :: l2) (split_mid lo l1 n l2) s ->
  (forall w' l' s', lay m0 hs w' lo l' (frees lo l') s' -> held lo l' = held lo (l1 ++ (n, false) :: l2) -> (l2 = [] -> exists l, l' = l ++ [(n + freeTail l1, false)]) ->
    errno s' = errno s -> kern s' = kern s -> Q tt s') ->
  wp (mergeBlock (endp lo l1) (endp lo l1 + UNIT * n)) s Q.
Proof.
  intros HL HQ. unfold mergeBlock. apply wp_bind. eapply mergePrev_spec; [exact HL|]. intros w' l s' HL' Ee Hh He1 He2. set (n' := n + freeTail l1) in *.
  destruct (lay_block _ _ _ _ _ _ _ _ _ _ HL') as (_ & _ & _ & Ht & _ & _ & _ & _ & Mb). rewrite <- Ee. pose proof (mark_range _ _ _ _ Mb) as Rb.
  apply wp_bind. eapply kept_ld; [apply HL'|exact (tail_next _ _ _ _ Ht)|lia|lia|].
  assert (Hh' : held lo (l ++ (n', false) :: l2) = held lo (l1 ++ (n, false) :: l2)) by (by rewrite !held_mid, Ee, Hh).
  destruct l2 as [|[k [|]] l2].
  - apply wp_ret. eapply HQ; [exact HL'|exact Hh'| |done|done]. intros _. by exists l.
  - rewrite tag_used, andb_false_r. apply wp_ret. by eapply HQ.
  - pose proof (proj1 (proj2 Ht)) as Hk. rewrite tag_pos, tag_used by done. cbn [negb andb]. eapply mergeNext_spec; [exact HL'|]. intros w2 s2 HL2 He3 He4.
    eapply HQ; [exact HL2| |done|congruence|congruence]. rewrite <- Hh', !held_mid. cbn [held]. do 2 f_equal. lia.
Qed.

(** ** Freeing *)

Lemma held_split lo l H1 b n H2 : held lo l = H1 ++ (b, n) :: H2 -> exists l1 l2, l = l1 ++ (n, true) :: l2 /\ endp lo l1 = b /\ held lo l1 = H1 /\ held (b + UNIT * n) l2 = H2.
Proof.
  revert lo H1. induction l as [|[k u] l IH]; intros lo H1 E; cbn [held] in E; [by destruct H1|].
  destruct u; [destruct H1 as [|h H1]; [injection E as <- <- <-|injection E as <- E]|].
  - by exists [], l.
  - destruct (IH _ _ E) as (l1 & l2 & -> & <- & <- & <-). by exists ((k, true) :: l1), l2.
  - destruct (IH _ _ E) as (l1 & l2 & -> & <- & <- & <-). by exists ((k, false) :: l1), l2.
Qed.
Lemma lay_start m0 hs w lo l F s hs' : lay m0 hs w lo l F s -> hs' ⊆ held lo l -> lay (mem s) hs' w lo l F s.
Proof. intros [[HM _]] Hs. by split. Qed.

(** The heap with the blocks [l]. *)
Definition isHeap (lo : Z) (l : blocks) s : Prop := exists w, lay (mem s) [] w lo l (frees lo l) s.
Lemma lay_isHeap m0 hs w lo l s : lay m0 hs w lo l (frees lo l) s -> isHeap lo l s.
Proof. intros HL. exists w. eapply lay_start; [exact HL|]. apply list_subseteq_nil. Qed.

Lemma free_spec lo l s b n H1 H2 : isHeap lo l s -> held lo l = H1 ++ (b, n) :: H2 ->
  wp (free (b + UNIT)) s (fun _ s' => exists l', isHeap lo l' s' /\ held lo l' = H1 ++ H2 /\ contents (H1 ++ H2) (mem s) (mem s') /\ errno s' = errno s /\ kern s' = kern s).
Proof.
  intros [w HL] Hh. destruct (held_split _ _ _ _ _ _ Hh) as (l1 & l2 & -> & <- & <- & <-). rename H into HMap.
  apply (lay_start _ _ _ _ _ _ _ (held lo l1 ++ held (endp lo l1 + UNIT * n) l2)) in HL.
  2:{ intros x Hx. rewrite held_app. cbn [held]. rewrite elem_of_app, elem_of_cons in *. tauto. }
  destruct (lay_block _ _ _ _ _ _ _ _ _ _ HL) as (Hs & Hp & Hx & Ht & Hn & Hlo & Hhi & Mb & Me). pose proof (lay_kept _ _ _ _ _ _ _ HL) as HK.
  pose proof (mark_range _ _ _ _ Mb) as Rb. pose proof (mark_range _ _ _ _ Me) as Re. destruct (lay_lo _ _ _ _ _ _ _ HL) as [Hpos Hal].
  unfold free. rewrite (proj2 (Z.eqb_neq _ 0)) by (unfold UNIT; lia). rewrite Z.add_simpl_r.
  apply wp_bind. eapply wp_nextBlock; [exact HK|exact Hx|lia|lia|lia|lia|]. apply wp_bind. eapply wp_nextSize; [exact HK|lia|lia|exact Hx|].
  apply wp_bind. eapply (wp_setNext _ _ _ _ _ _ n false); [exact HK|exact Mb|lia|]. intros m1 HK1.
  eapply (wp_copyTag _ _ _ _ _ _ _ _ n false); [exact HK1|exact Mb|exact Me|by rewrite lookup_insert_eq|lia|]. intros m2 HK2.
  eapply (mergeBlock_spec (mem s) _ _ lo l1 n l2).
  - destruct (mark_mid lo l1 n true l2) as [I1 I2]. pose proof (tail_sized _ _ _ _ (lay_tail _ _ _ _ _ _ _ HL)) as Hsz.
    assert (Hend : endp lo (l1 ++ (n, false) :: l2) = endp lo (l1 ++ (n, true) :: l2)) by (by rewrite !endp_app).
    assert (EF : split_mid lo l1 n l2 = frees lo (l1 ++ (n, true) :: l2)) by (by rewrite frees_app).
    rewrite EF. split; [rewrite Hend; exact HK2|eapply set_tail; [exact Hs|exact Hp|lia|exact Ht]| |rewrite Hend; apply HL|apply HL|done|by rewrite held_mid].
    eapply chain_set2; [apply HL|exact Hsz| |exact I1|exact I2]. intros z. apply frees_heads.
  - intros w' l' s' HL' E _ E1 E2. exists l'. split; [by eapply lay_isHeap|]. rewrite E, held_mid. split; [done|]. split; [apply HL'|by rewrite E1, E2].
Qed.

(** ** Splitting *)

Lemma tag_lor n : Z.lor (tag n false) 1 = tag n true.
Proof. unfold tag. rewrite lor_1_even by dlia. lia. Qed.
(** The whole block is taken. *)
Lemma takeBlock_spec m0 hs w lo l1 k l2 s Q : lay m0 hs w lo (l1 ++ (k, false) :: l2) (frees lo (l1 ++ (k, false) :: l2)) s ->
  (forall w' s', lay m0 hs w' lo (l1 ++ (k, true) :: l2) (frees lo (l1 ++ (k, true) :: l2)) s' -> errno s' = errno s -> kern s' = kern s -> Q tt s') ->
  wp (n ← ldNext (endp lo l1); stNext (endp lo l1) (Z.lor n 1);; next ← nextBlock (endp lo l1); v ← ldNext (endp lo l1); stPrev next v;; delFreeBlock (getFreeBlock (endp lo l1))) s Q.
Proof.
  intros HL HQ. destruct (lay_block _ _ _ _ _ _ _ _ _ _ HL) as (Hs & Hp & Hx & Ht & Hk & _ & _ & Mb & Me). pose proof (lay_kept _ _ _ _ _ _ _ HL) as HK.
  pose proof (mark_range _ _ _ _ Mb) as Rb. pose proof (mark_range _ _ _ _ Me) as Re. pose proof (tail_sized _ _ _ _ (lay_tail _ _ _ _ _ _ _ HL)) as Hsz.
  apply wp_bind. eapply kept_ld; [exact HK|exact Hx|lia|lia|]. rewrite tag_lor. apply wp_bind. destruct Mb as (Hal & Mb2).
  eapply kept_st; [exact HK|by apply aligned_add|unfold tag; lia|lia|lia|apply Mb2|]. intros m1 HK1.
  apply wp_bind. eapply wp_nextBlock; [exact HK1|apply lookup_insert_eq|lia|lia|lia|lia|].
  eapply (wp_copyTag _ _ _ _ _ _ _ _ k true); [exact HK1|by split|exact Me|by rewrite lookup_insert_eq|lia|]. intros m2 [HM2 HC2].
  pose proof (set_tail w lo l1 k true l2 _ Hs Hp ltac:(lia) Ht) as Ht2. destruct (mark_mid lo l1 k false l2) as [I1 I2].
  pose proof (chain_set2 w lo _ _ _ _ (tag k true) (tag k true) (lay_chain _ _ _ _ _ _ _ HL) Hsz (frees_heads lo _) I1 I2) as Hc2.
  assert (Hend : endp lo (l1 ++ (k, true) :: l2) = endp lo (l1 ++ (k, false) :: l2)) by (by rewrite !endp_app).
  assert (EF : frees lo (l1 ++ (k, true) :: l2) = split_mid lo l1 k l2) by (by rewrite frees_app). rewrite EF in HQ.
  assert (Hh : hs ⊆ held lo (l1 ++ (k, true) :: l2)).
  { intros x Hxh. apply (lay_held _ _ _ _ _ _ _ HL) in Hxh. rewrite held_app in *. cbn [held] in *. rewrite elem_of_app, elem_of_cons in *. tauto. }
  destruct (lay_lo _ _ _ _ _ _ _ HL) as [Hpos Hlo]. destruct (lay_free _ _ _ _ _ _ _ HL) as [P1 P2]. rewrite frees_mid in Hc2, P1, P2.
  unfold getFreeBlock. change UNIT with 16 at 1. eapply delFree_spec; [exact HM2|exact Hc2| |exact P1|exact P2|].
  - rewrite <- frees_mid. by apply frees_fits.
  - intros m T' w' HM' Hc' HO. change (frees lo l1 ++ frees (endp lo l1 + UNIT * k) l2) with (split_mid lo l1 k l2) in *. rewrite <- EF in HO.
    destruct (relink _ _ _ _ _ _ _ _ _ _ HC2 Ht2 Hh HM' HO) as [HK' Ht']. eapply (HQ w'); [|done|done].
    split; [by rewrite Hend|exact Ht'|exact Hc'|rewrite Hend; apply HL|done|done|exact Hh].
Qed.

(** The rest stays free: the headers. *)
Lemma cutHeaders_spec {A} (K0 : Z -> M (mstate K) A) m0 hs w lo l1 n r l2 F s Q : lay m0 hs w lo (l1 ++ (n + r, false) :: l2) F s -> F = frees lo (l1 ++ (n + r, false) :: l2) -> 2 <= n -> 2 <= r ->
  let b := endp lo l1 in let c := b + UNIT * n in let e := b + UNIT * (n + r) in let l := l1 ++ (n, true) :: (r, false) :: l2 in
  (forall w' m, kept hs m0 w' lo (endp lo l + 16) m -> tail w' lo 0 l -> chain w' 0 F 0 -> wp (K0 c) (set_mem m s) Q) ->
  wp (setNext b n 1;; newEnd ← nextBlock b; v ← ldNext b; stPrev newEnd v;; setNext newEnd (u64 r) 0;; v ← ldNext newEnd; stPrev e v;; K0 newEnd) s Q.
Proof.
  intros HL HF Hn Hr b c e l HQ. destruct (lay_block _ _ _ _ _ _ _ _ _ _ HL) as (Hs & Hp & _ & Ht & Hk & _ & _ & Mb & Me). pose proof (lay_kept _ _ _ _ _ _ _ HL) as HK.
  fold b e in Hp, Ht, Mb, Me. assert (Ee : c + UNIT * r = e) by (unfold c, e; lia).
  assert (Hend : endp lo l = endp lo (l1 ++ (n + r, false) :: l2)) by (unfold l; rewrite !endp_app; cbn [endp]; f_equal; fold b; lia). rewrite <- Hend in *.
  assert (Hsz : sized l). { pose proof (tail_sized _ _ _ _ (lay_tail _ _ _ _ _ _ _ HL)) as Hz. apply sized_app in Hz as [Hz1 Hz2]. apply sized_app. split; [done|].
    apply Forall_cons in Hz2 as [_ Hz2]. by repeat constructor. }
  assert (Hh : hs ⊆ held lo l).
  { intros x Hx. apply (lay_held _ _ _ _ _ _ _ HL) in Hx. unfold l. rewrite held_app in *. cbn [held] in *. fold b c e in Hx |- *. rewrite Ee. rewrite elem_of_app, elem_of_cons in *. tauto. }
  assert (Ic : c ∈ marks lo l) by apply mark_mid. assert (Mc : mark hs lo (endp lo l + 16) c) by (apply mark_in; [done|done|apply HL|done]).
  pose proof (mark_range _ _ _ _ Mb) as Rb. pose proof (mark_range _ _ _ _ Mc) as Rc. pose proof (mark_range _ _ _ _ Me) as Re.
  apply wp_bind. eapply (wp_setNext _ _ _ _ _ _ n true); [exact HK|exact Mb|lia|]. intros m1 HK1. apply wp_bind. eapply wp_nextBlock; [exact HK1|apply lookup_insert_eq|lia|lia|lia|lia|]. fold c.
  eapply (wp_copyTag _ _ _ _ _ _ _ _ n true); [exact HK1|exact Mb|exact Mc|by rewrite lookup_insert_eq|lia|]. intros m2 HK2. rewrite u64_small by lia.
  apply wp_bind. eapply (wp_setNext _ _ _ _ _ _ r false); [exact HK2|exact Mc|lia|]. intros m3 HK3.
  eapply (wp_copyTag _ _ _ _ _ _ _ _ r false); [exact HK3|exact Mc|exact Me|by rewrite lookup_insert_eq|lia|]. intros m4 HK4.
  eapply HQ; [exact HK4| |].
  - destruct (set_seg w lo l1 n true Hs Hp ltac:(lia)) as [Hs2 Hp2]. fold b c in Hs2, Hp2. replace l with ((l1 ++ [(n, true)]) ++ (r, false) :: l2) by (unfold l; by rewrite <- app_assoc).
    pose proof (set_tail _ lo _ r false l2 (tag (n + r) false) Hs2 Hp2 Hr) as Hgo. rewrite endp_snoc in Hgo. fold b c in Hgo. rewrite Ee in Hgo. apply Hgo.
    apply tail_set; [apply tail_set; [exact Ht|]|]; unfold e, c, UNIT; lia.
  - assert (HF' : forall z, z ∈ F -> z ∈ heads lo l).
    { intros z Hz. rewrite HF, frees_mid, elem_of_app, elem_of_cons in Hz. unfold l. rewrite heads_app, elem_of_app. cbn [heads]. rewrite !elem_of_cons. fold b c in Hz |- *. fold e in Hz. rewrite Ee.
      destruct Hz as [Hz|[Hz|Hz]]; [left; by apply frees_heads|auto|apply frees_heads in Hz; auto]. }
    assert (Ib : b ∈ marks lo l) by apply mark_mid.
    assert (Ie : e ∈ marks lo l). { unfold l. rewrite marks_app. apply elem_of_app; right. apply elem_of_cons; right. apply elem_of_cons; right. fold b c. rewrite Ee. destruct l2 as [|[? ?] ?]; by apply elem_of_cons; left. }
    eapply chain_set2; [eapply chain_set2; [apply HL|exact Hsz|exact HF'|exact Ib|exact Ic]|exact Hsz|exact HF'|exact Ic|exact Ie].
Qed.

Lemma splitBlock_spec m0 hs w lo l1 k l2 n s Q : lay m0 hs w lo (l1 ++ (k, false) :: l2) (frees lo (l1 ++ (k, false) :: l2)) s -> 2 <= n <= k ->
  (forall w' n' l2' s', lay m0 hs w' lo (l1 ++ (n', true) :: l2') (frees lo (l1 ++ (n', true) :: l2')) s' -> n <= n' -> held (endp lo l1 + UNIT * n') l2' = held (endp lo l1 + UNIT * k) l2 ->
    errno s' = errno s -> kern s' = kern s -> Q tt s') -> wp (splitBlock (endp lo l1) n) s Q.
Proof.
  intros HL Hn HQ. destruct (lay_block _ _ _ _ _ _ _ _ _ _ HL) as (_ & _ & Hx & _ & Hk & _ & _ & Mb & Me). pose proof (lay_kept _ _ _ _ _ _ _ HL) as HK.
  pose proof (mark_range _ _ _ _ Mb) as Rb. pose proof (mark_range _ _ _ _ Me) as Re. unfold splitBlock. apply wp_bind. eapply wp_nextSize; [exact HK|lia|lia|exact Hx|].
  rewrite u64_small by lia. destruct (Z.leb_spec (k - 1) n) as [Hle|Hle].
  - eapply takeBlock_spec; [exact HL|]. intros w' s' HL' E1 E2. eapply HQ; [exact HL'|lia|done|done|done].
  - apply wp_bind. eapply wp_nextSize; [exact HK|lia|lia|exact Hx|]. apply wp_bind. eapply wp_nextBlock; [exact HK|exact Hx|lia|lia|lia|lia|].
    assert (Hr : exists r, k = n + r /\ 2 <= r) by (exists (k - n); lia). destruct Hr as (r & -> & Hr). replace (n + r - n) with r by lia.
    eapply (cutHeaders_spec (fun c => moveFreeBlock (getFreeBlock (endp lo l1)) (getFreeBlock c))); [exact HL|done|lia|lia|]. intros w1 m1 [HM1 HC1] Ht1 Hc1. set (l := l1 ++ (n, true) :: (r, false) :: l2) in *.
    assert (Ee : endp lo l1 + UNIT * n + UNIT * r = endp lo l1 + UNIT * (n + r)) by lia.
    assert (EF : frees lo l = frees lo l1 ++ (endp lo l1 + UNIT * n) :: frees (endp lo l1 + UNIT * (n + r)) l2) by (unfold l; rewrite frees_app; cbn [frees]; by rewrite Ee).
    assert (Hend : endp lo l = endp lo (l1 ++ (n + r, false) :: l2)) by (unfold l; rewrite !endp_app; cbn [endp]; by rewrite Ee).
    assert (Hh : hs ⊆ held lo l).
    { intros x Hxh. apply (lay_held _ _ _ _ _ _ _ HL) in Hxh. unfold l. rewrite held_app in *. cbn [held] in *. rewrite Ee, elem_of_app, elem_of_cons in *. tauto. }
    destruct (lay_lo _ _ _ _ _ _ _ HL) as [Hpos Hlo]. destruct (lay_free _ _ _ _ _ _ _ HL) as [P1 P2]. rewrite frees_mid in Hc1, P1, P2.
    pose proof (tail_sized _ _ _ _ (lay_tail _ _ _ _ _ _ _ HL)) as Hsz. pose proof (tail_sized _ _ _ _ Ht1) as Hsz1.
    unfold getFreeBlock. change UNIT with 16 at 1 3. eapply moveFree_spec; [exact HM1|exact Hc1| | | |exact P1|exact P2|].
    + rewrite <- frees_mid, Hend. by apply frees_fits.
    + rewrite <- EF. by apply frees_fits.
    + unfold UNIT. lia.
    + intros m T' w' HM' Hc' HO. rewrite <- EF in *. destruct (relink _ _ _ _ _ _ _ _ _ _ HC1 Ht1 Hh HM' HO) as [HK' Ht'].
      eapply (HQ w' n ((r, false) :: l2)); [|lia| |done|done]; [|cbn [held]; by rewrite Ee].
      fold l. split; [exact HK'|exact Ht'|exact Hc'|rewrite Hend; apply HL|done|done|exact Hh].
Qed.

(** ** The search *)

Lemma frees_block lo l y : y ∈ frees lo l -> exists l1 k l2, l = l1 ++ (k, false) :: l2 /\ endp lo l1 = y.
Proof.
  revert lo. induction l as [|[n u] l IH]; intros lo Hy; cbn [frees] in Hy; [by apply elem_of_nil in Hy|].
  destruct u; [|apply elem_of_cons in Hy as [->|Hy]; [by exists [], n, l|]]; destruct (IH _ Hy) as (l1 & k & l2 & -> & <-); by eexists ((n, _) :: l1), k, l2.
Qed.
Definition tooSmall lo (l : blocks) (n y : Z) : Prop := forall l1 k l2, l = l1 ++ (k, false) :: l2 -> endp lo l1 = y -> k < n.
Lemma wp_nextUsed hs m0 w lo hi b n u s (Q : bool -> mstate K -> Prop) : kept hs m0 w lo hi (mem s) -> lo <= b -> b + 16 <= hi -> w !! (b + 8) = Some (tag n u) ->
  Q u s -> wp (isNextUsed b) s Q.
Proof. intros HK Hb1 Hb2 Hx HQ. apply wp_bind. eapply kept_ld; [exact HK|exact Hx|lia|lia|]. apply wp_ret. by rewrite tag_used. Qed.
(** One step of the search. *)
Lemma findStep m0 hs w lo l1 k l2 F1 F2 fuel n s (Q : Z -> mstate K -> Prop) : let l := l1 ++ (k, false) :: l2 in let x := endp lo l1 in
  lay m0 hs w lo l (frees lo l) s -> frees lo l = F1 ++ x :: F2 -> (n <= k -> Q x s) ->
  (k < n -> wp (if link (hd 0 F2) =? 0 then mret 0 else findFrom fuel n (link (hd 0 F2))) s Q) -> wp (findFrom (S fuel) n (x + 16)) s Q.
Proof.
  intros l x HL EF HQ HN. destruct (lay_block _ _ _ _ _ _ _ _ _ _ HL) as (_ & _ & Hx & _ & Hk & _ & _ & Mb & Me). pose proof (lay_kept _ _ _ _ _ _ _ HL) as HK.
  pose proof (mark_range _ _ _ _ Mb) as Rb. pose proof (mark_range _ _ _ _ Me) as Re. fold l x in HK, Rb, Re, Hx. unfold UNIT in Re.
  pose proof (lay_chain _ _ _ _ _ _ _ HL) as Hc. rewrite EF in Hc. apply chain_app in Hc as [_ (_ & En & _)].
  cbn [findFrom]. unfold getHeapBlock. change (x + 16 - UNIT) with (x + UNIT - UNIT). rewrite Z.add_simpl_r.
  apply wp_bind. eapply wp_nextUsed; [exact HK|lia|lia|exact Hx|]. apply wp_bind. eapply wp_nextSize; [exact HK|lia|lia|exact Hx|]. cbn [negb andb].
  destruct (Z.leb_spec n k) as [Hle|Hle]; [apply wp_ret; auto|]. apply wp_bind. replace (x + 16 + 8) with (x + 24) by lia.
  eapply kept_ld; [exact HK|exact En|lia|lia|auto].
Qed.
Lemma tooSmall_one m0 hs w lo l1 k l2 F n s : let l := l1 ++ (k, false) :: l2 in lay m0 hs w lo l F s -> k < n -> tooSmall lo l n (endp lo l1).
Proof.
  intros l HL Hk m1 j m2 E Ee. destruct (lay_block _ _ _ _ _ _ _ _ _ _ HL) as (_ & _ & Hx & _). unfold l in E, HL. rewrite E in HL.
  destruct (lay_block _ _ _ _ _ _ _ _ _ _ HL) as (_ & _ & Hx' & _). rewrite Ee, Hx in Hx'. injection Hx' as Ej. unfold tag in Ej. lia.
Qed.
Lemma findFrom_spec m0 hs w lo l n s (Q : Z -> mstate K -> Prop) : lay m0 hs w lo l (frees lo l) s -> (forall l1 k l2, l = l1 ++ (k, false) :: l2 -> n <= k -> Q (endp lo l1) s) ->
  forall F2 fuel F1 x, frees lo l = F1 ++ x :: F2 -> (length F2 < fuel)%nat -> ((forall y, y ∈ x :: F2 -> tooSmall lo l n y) -> Q 0 s) -> wp (findFrom fuel n (x + 16)) s Q.
Proof.
  intros HL HQ F2. induction F2 as [|z F2 IH]; intros fuel F1 x EF Hfuel HQ0; (destruct fuel as [|fuel]; [cbn in Hfuel; lia|]);
    (destruct (frees_block lo l x) as (l1 & k & l2 & -> & <-); [rewrite EF, elem_of_app, elem_of_cons; auto|]);
    (eapply findStep; [exact HL|exact EF|intros Hk; by eapply HQ|]); intros Hk; pose proof (tooSmall_one _ _ _ _ _ _ _ _ _ _ HL Hk) as Hts.
  - apply wp_ret, HQ0. intros y Hy. by apply list_elem_of_singleton in Hy as ->.
  - cbn [hd]. assert (Hz : z ∈ F1 ++ endp lo l1 :: z :: F2) by (rewrite elem_of_app, !elem_of_cons; auto). rewrite <- EF in Hz.
    pose proof (frees_fits lo _ (tail_sized _ _ _ _ (lay_tail _ _ _ _ _ _ _ HL)) (proj1 (lay_lo _ _ _ _ _ _ _ HL)) (proj2 (lay_lo _ _ _ _ _ _ _ HL))) as Hf.
    destruct (fits_in _ _ _ _ Hf Hz) as (_ & _ & _ & Hpos). rewrite link_pos, (proj2 (Z.eqb_neq _ 0)) by lia.
    eapply (IH fuel (F1 ++ [endp lo l1])); [by rewrite <- app_assoc|cbn in Hfuel; lia|]. intros Hall. apply HQ0. intros y Hy. apply elem_of_cons in Hy as [->|Hy]; [done|by apply Hall].
Qed.
Lemma freeTail_small lo l n x F : frees lo l = F ++ [x] -> tooSmall lo l n x -> 2 <= n -> freeTail l < n.
Proof.
  intros EF Hts Hn. destruct (decide (freeTail l = 0)) as [->|E0]; [lia|]. destruct (freeTail_some l E0) as (l' & El). apply (Hts l' _ [] El).
  rewrite El, frees_mid in EF. cbn in EF. apply app_inj_tail in EF as [_ ->]. done.
Qed.
Lemma findBlock_spec m0 hs w lo l n clean s (Q : Z -> mstate K -> Prop) : lay m0 hs w lo l (frees lo l) s -> 2 <= n ->
  (forall l1 k l2, l = l1 ++ (k, false) :: l2 -> n <= k -> Q (endp lo l1) s) -> (freeTail l < n -> Q 0 s) -> wp (findBlock n clean) s Q.
Proof.
  intros HL Hn HQ HQ0. destruct (lay_free _ _ _ _ _ _ _ HL) as [P1 P2]. pose proof (lay_kept _ _ _ _ _ _ _ HL) as [HM _].
  destruct (lay_lo _ _ _ _ _ _ _ HL) as [Hpos Hlo]. pose proof (tail_sized _ _ _ _ (lay_tail _ _ _ _ _ _ _ HL)) as Hsz. pose proof (frees_fits lo l Hsz Hpos Hlo) as Hf.
  unfold findBlock. apply wp_bind, wp_gets. destruct (frees lo l) as [|x0 F0] eqn:EF.
  - replace ((if clean then lastFreeBlock else firstFreeBlock) s) with 0 by (by destruct clean; rewrite ?P1, ?P2). apply wp_ret, HQ0.
    destruct (decide (freeTail l = 0)) as [->|E0]; [lia|]. destruct (freeTail_some l E0) as (l' & El). rewrite El, frees_app in EF. cbn in EF. by destruct (frees lo l').
  - rewrite <- EF in *. assert (Hx : exists F1 x F2, frees lo l = F1 ++ x :: F2 /\ (if clean then lastFreeBlock else firstFreeBlock) s = link x).
    { destruct clean; [|exists [], x0, F0; rewrite P1, EF; done]. destruct (frees lo l) as [|y F _] using rev_ind; [done|]. exists F, y, []. by rewrite P2, lastLink_snoc. }
    destruct Hx as (F1 & x & F2 & EF2 & ->). assert (Hin : x ∈ frees lo l) by (rewrite EF2, elem_of_app, elem_of_cons; auto). destruct (fits_in _ _ _ _ Hf Hin) as (_ & _ & _ & Hx).
    rewrite link_pos, (proj2 (Z.eqb_neq _ 0)) by lia. apply wp_bind. unfold heapFuel. apply wp_gets.
    eapply findFrom_spec; [exact HL|exact HQ|exact EF2| |].
    + pose proof (fits_fuel _ _ _ _ _ _ _ HM Hf ltac:(pose proof (endp_ge lo l Hsz); lia)) as Hl. rewrite EF2, length_app in Hl. cbn in Hl. lia.
    + intros Hall. apply HQ0. destruct (x :: F2) as [|y F _] eqn:E using rev_ind; [done|]. apply (freeTail_small lo l n y (F1 ++ F)); [by rewrite EF2, app_assoc| |done].
      apply Hall. rewrite elem_of_app, elem_of_cons. auto.
Qed.

(** ** Growing the heap *)

(** What the system promises: the result is negative and the memory is as it
    was, or the pages from the result on hold zeros and the rest is kept. *)
Class MapSysOk := sysMmap_ok : forall addr sz flags m k r m' k', 0 < sz -> sysMmap addr sz flags (m, k) = (r, (m', k')) ->
  (s64 r < 0 /\ m' = m) \/
  (r mod PAGE_SIZE = 0 /\ 0 < r /\ r + sz <= 2 ^ 47 /\ (has flags MMAP_FLAG_FIXED = true -> r = addr) /\
   (forall a, r <= a < r + sz -> m' !! a = Some 0) /\ same_outside r sz m m').
Context {Hsys : MapSysOk}.
(** The system refused a request. *)
Definition refused (k : K) : Prop := exists addr sz flags m r x, sysMmap addr sz flags (m, k) = (r, x) /\ 0 < sz /\ s64 r < 0.

Lemma word_zero m a : (forall b, a <= b < a + 8 -> m !! b = Some 0) -> word m a 0.
Proof. intros Hz i c Hi. pose proof (lookup_lt_Some _ _ _ Hi) as Hl. rewrite Hz by (cbn in Hl; lia). by do 8 (destruct i as [|i]; [done|]). Qed.
(** New pages behind the heap: the words at their end are zero. *)
Lemma grow_map m0 w lo hi N m m' hs : kept hs m0 w lo hi m -> lo <= hi -> 0 < N -> hi + UNIT * N <= 2 ^ 47 -> aligned hi -> (forall b n, (b, n) ∈ hs -> b + UNIT * n <= hi) ->
  (forall a, hi <= a < hi + UNIT * N -> m' !! a = Some 0) -> same_outside hi (UNIT * N) m m' ->
  kept hs m0 (<[hi + UNIT * N - 8 := 0]> (<[hi + UNIT * N - 16 := 0]> w)) lo (hi + UNIT * N) m'.
Proof.
  intros [(Hw & _ & Hm & Hlo & Hhi & Hin) Hc] Hlh HN Hmax Hal Hhs Hz Hs. unfold UNIT in *.
  assert (Hzero : forall d, d = 8 \/ d = 16 -> aligned (hi + 16 * N - d) /\ 0 <= 0 < 2 ^ 64 /\ word m' (hi + 16 * N - d) 0).
  { intros d Hd. split; [unfold aligned in *; revert Hal Hd; clear; dlia|]. split; [lia|]. apply word_zero. intros b Hb. apply Hz. lia. }
  split; [split_and!|].
  - intros a x Ha. destruct (decide (hi + 16 * N - 8 = a)) as [<-|H1]; [rewrite lookup_insert_eq in Ha; injection Ha as <-; auto|]. rewrite lookup_insert_ne in Ha by done.
    destruct (decide (hi + 16 * N - 16 = a)) as [<-|H2]; [rewrite lookup_insert_eq in Ha; injection Ha as <-; auto|]. rewrite lookup_insert_ne in Ha by done.
    destruct (Hw a x Ha) as (H3 & H4 & H5). split; [done|]. split; [done|]. eapply text_same_outside; [exact Hs|exact H5|]. left. rewrite length_toBytes. specialize (Hin a x Ha). lia.
  - apply touches_refl.
  - intros a Ha. destruct (decide (hi <= a)) as [Hge|Hlt]; [exists 0; apply Hz; lia|]. rewrite (Hs a) by lia. apply Hm. lia.
  - lia.
  - lia.
  - intros a x Ha. destruct (decide (hi + 16 * N - 8 = a)) as [<-|H1]; [lia|]. rewrite lookup_insert_ne in Ha by done.
    destruct (decide (hi + 16 * N - 16 = a)) as [<-|H2]; [lia|]. rewrite lookup_insert_ne in Ha by done. specialize (Hin a x Ha). lia.
  - intros b n k Hb Hk. specialize (Hhs b n Hb). rewrite (Hs k) by (unfold UNIT in *; lia). by apply (Hc b n).
Qed.
Lemma tail_last w b pw l : tail w b pw l -> w !! endp b l = Some (endtag pw l) /\ w !! (endp b l + 8) = Some 0.
Proof. rewrite <- (app_nil_r l) at 1. rewrite tail_app. by intros [_ [H1 H2]]. Qed.
(** The number of pages to ask for. *)
Lemma pages_enough q : 0 < q < 2 ^ 59 -> let sz := u64 (q * UNIT) in
  exists N, (if negb (sz mod PAGE_SIZE =? 0) then u64 (sz - sz mod PAGE_SIZE + PAGE_SIZE) else sz) = UNIT * N /\ q <= N /\ 256 <= N < 2 ^ 60.
Proof.
  intros Hq sz. unfold sz. rewrite u64_small by (unfold UNIT; lia). unfold UNIT, PAGE_SIZE. exists ((q + 255) / 256 * 256).
  destruct (Z.eqb_spec (q * 16 mod 4096) 0) as [E|E]; cbn [negb]; [revert Hq E; clear; dlia|]. rewrite u64_small; revert Hq E; clear; dlia.
Qed.

Lemma endtag_free l : sized l -> 0 <= freeTail l /\ ((has (endtag 0 l) 1 = true /\ freeTail l = 0) \/ (has (endtag 0 l) 1 = false /\ Z.shiftr (endtag 0 l) 1 = freeTail l)).
Proof.
  intros Hl. destruct l as [|[k u] l _] using rev_ind; [split; [done|by right]|]. unfold freeTail. rewrite last_snoc, endtag_app. cbn [endtag]. rewrite tag_used, tag_shiftr.
  apply sized_app in Hl as [_ Hl%sized_one]. destruct u; [by split; [|left]|]. split; [lia|by right].
Qed.
(** The new pages are a free block at the end, which is joined with the last. *)
Lemma addPages_spec hs w lo l N m' s Q : lay (mem s) hs w lo l (frees lo l) s -> 256 <= N < 2 ^ 60 -> endp lo l + 16 + UNIT * N <= 2 ^ 47 ->
  (forall a, endp lo l + 16 <= a < endp lo l + 16 + UNIT * N -> m' !! a = Some 0) -> same_outside (endp lo l + 16) (UNIT * N) (mem s) m' ->
  forall s1, s1 = set_mem m' s1 -> firstBlock s1 = firstBlock s -> lastBlock s1 = lastBlock s -> firstFreeBlock s1 = firstFreeBlock s -> lastFreeBlock s1 = lastFreeBlock s ->
  (forall w' l' s', lay (mem s) hs w' lo l' (frees lo l') s' -> held lo l' = held lo l -> (exists l1, l' = l1 ++ [(N + freeTail l, false)]) -> Q true s') ->
  wp (setNext (endp lo l) N 0;; end_ ← nextBlock (endp lo l); n ← ldNext (endp lo l); stPrev end_ n;; modify (set_lastBlock end_);; mergeBlock (endp lo l) end_;; mret true) s1 Q.
Proof.
  intros HL HN Hmax Hz Hs s1 Es Ef1 Ef2 Ef3 Ef4 HQ. pose proof (lay_tail _ _ _ _ _ _ _ HL) as Ht. pose proof (tail_sized _ _ _ _ Ht) as Hsz. destruct (tail_last _ _ _ _ Ht) as [Hp _].
  pose proof (endp_ge lo l Hsz) as Hge. destruct (lay_lo _ _ _ _ _ _ _ HL) as [Hpos Hal]. set (e := endp lo l) in *. set (c := e + UNIT * N) in *.
  set (lN := l ++ [(N, false)]). assert (HszN : sized lN) by (apply sized_app; split; [done|apply sized_one; lia]).
  assert (Hh : hs ⊆ held lo lN). { intros x Hx. unfold lN. rewrite held_app. cbn. rewrite app_nil_r. by apply (lay_held _ _ _ _ _ _ _ HL). }
  assert (Hend : endp lo lN = c) by (unfold lN; by rewrite endp_snoc).
  destruct (mark_mid lo l N false []) as [Ie Ic]. fold e lN c in Ie, Ic.
  pose proof (mark_in hs lo lN e HszN Hh Hal Ie) as Me. pose proof (mark_in hs lo lN c HszN Hh Hal Ic) as Mc. rewrite Hend in Me, Mc.
  assert (Hhs : forall b n, (b, n) ∈ hs -> b + UNIT * n <= e + 16).
  { intros b n Hb. destruct (held_sub_heads lo l b n Hsz (lay_held _ _ _ _ _ _ _ HL _ Hb) e) as [He|He]; [apply elem_of_app; right; by apply elem_of_cons; left| |lia].
    pose proof (heads_range _ _ _ Hsz (held_heads _ _ _ _ (lay_held _ _ _ _ _ _ _ HL _ Hb))). fold e in H0. lia. }
  pose proof (grow_map _ _ _ _ N _ m' hs (lay_kept _ _ _ _ _ _ _ HL) ltac:(fold e; lia) ltac:(lia) Hmax (aligned_add _ 16 (marks_aligned _ _ _ Hal Ie) eq_refl) Hhs Hz Hs) as HK.
  fold e in HK. replace (e + 16 + UNIT * N) with (c + 16) in HK by (unfold c; lia). replace (c + 16 - 8) with (c + 8) in HK by lia. replace (c + 16 - 16) with c in HK by lia.
  set (w0 := <[c + 8 := 0]> (<[c := 0]> w)) in *. pose proof (mark_range _ _ _ _ Me) as Re. pose proof (mark_range _ _ _ _ Mc) as Rc.
  replace m' with (mem s1) in HK by (by rewrite Es).
  apply wp_bind. eapply (wp_setNext _ _ _ _ _ _ N false); [exact HK|exact Me|lia|]. intros m1 HK1. apply wp_bind. eapply wp_nextBlock; [exact HK1|apply lookup_insert_eq|lia|lia|lia|unfold c in *; lia|].
  fold c. eapply (wp_copyTag _ _ _ _ _ _ _ _ N false); [exact HK1|exact Me|exact Mc|by rewrite lookup_insert_eq|lia|]. intros m2 HK2. apply wp_bind, wp_modify, wp_bind.
  assert (HF : forall z, z ∈ frees lo l -> z ∈ heads lo lN) by (intros z Hz'; unfold lN; rewrite heads_app, elem_of_app; left; by apply frees_heads).
  eapply (mergeBlock_spec (mem s) hs _ lo l N []).
  - assert (EF : split_mid lo l N [] = frees lo l) by apply app_nil_r. rewrite EF. fold lN. split; [rewrite Hend; exact HK2| | | | |done|exact Hh].
    + rewrite <- (app_nil_r l) in Ht. apply tail_app in Ht as [Hseg _]. apply set_tail with (pw := 0); fold e.
      * unfold w0. apply seg_set; [apply seg_set; [exact Hseg|]|]; fold e; unfold c, UNIT; lia.
      * unfold w0. rewrite !lookup_insert_ne by (unfold c, UNIT; lia). exact Hp.
      * lia.
      * fold c. split; [unfold w0; rewrite lookup_insert_ne by lia; apply lookup_insert_eq|apply lookup_insert_eq].
    + eapply chain_set2; [|exact HszN|exact HF|exact Ie|exact Ic]. unfold w0. eapply (chain_mark _ lo lN); [rewrite <- (Z.add_0_r c); eapply (chain_mark _ lo lN)|..]; eauto. apply HL.
    + rewrite Hend. split; [cbn; rewrite Ef1; apply HL|done].
    + cbn. rewrite Ef3, Ef4. apply HL.
  - intros w' l' s' HL' Eh Hl' _ _. apply wp_ret. eapply HQ; [exact HL'| |by apply Hl']. rewrite Eh, held_app. cbn. apply app_nil_r.
Qed.

Lemma moreHeap_spec hs w lo l n s (Q : bool -> mstate K -> Prop) : lay (mem s) hs w lo l (frees lo l) s -> 2 <= n < 2 ^ 59 -> freeTail l < n ->
  (forall s', refused (kern s) -> lay (mem s) hs w lo l (frees lo l) s' -> Q false s') ->
  (forall w' l1 N s', lay (mem s) hs w' lo (l1 ++ [(N, false)]) (frees lo (l1 ++ [(N, false)])) s' -> n <= N -> held lo (l1 ++ [(N, false)]) = held lo l -> Q true s') ->
  wp (moreHeap n) s Q.
Proof.
  intros HL Hn Hft HQ0 HQ1. pose proof (lay_tail _ _ _ _ _ _ _ HL) as Ht. pose proof (tail_sized _ _ _ _ Ht) as Hsz. destruct (tail_last _ _ _ _ Ht) as [Hp _].
  pose proof (lay_kept _ _ _ _ _ _ _ HL) as HK. destruct (lay_first _ _ _ _ _ _ _ HL) as [_ Hlast]. pose proof (endp_ge lo l Hsz) as Hge. destruct (lay_lo _ _ _ _ _ _ _ HL) as [Hpos Hal].
  destruct (endtag_free l Hsz) as [Hf0 Hf]. unfold moreHeap. apply wp_bind, wp_gets. rewrite Hlast. apply wp_bind, wp_bind. eapply kept_ld; [exact HK|exact Hp|lia|lia|]. apply wp_ret.
  apply wp_bind. assert (Hmore : wp (if negb (has (endtag 0 l) 1) then n0 ← getPrevSize (endp lo l); mret (u64 (n - n0)) else mret n) s (fun more s' => more = n - freeTail l /\ s' = s)).
  { destruct Hf as [[-> E]|[-> E]]; cbn [negb]; [apply wp_ret; split; [lia|done]|]. apply wp_bind, wp_bind. eapply kept_ld; [exact HK|exact Hp|lia|lia|]. apply wp_ret, wp_ret.
    rewrite E, u64_small by lia. done. }
  eapply wp_mono; [exact Hmore|]. intros ? ? [-> ->]. destruct (pages_enough (n - freeTail l) ltac:(lia)) as (N & -> & HqN & HN).
  assert (Hpos' : 0 < UNIT * N) by (unfold UNIT; lia). apply wp_bind. unfold wp at 1, sys at 1.
  destruct (sysMmap (endp lo l + UNIT) (UNIT * N) (Z.lor HEAP_FLAGS MMAP_FLAG_FIXED) (mem s, kern s)) as [r [m' k']] eqn:Esys.
  destruct (sysMmap_ok _ _ _ _ _ _ _ _ Hpos' Esys) as [[Hr ->]|(_ & Hr2 & Hr3 & Hr4 & Hr5 & Hr6)].
  - rewrite (proj2 (Z.ltb_lt _ _) Hr). apply wp_bind, wp_modify, wp_ret. apply HQ0; [by repeat eexists|]. by destruct HL; split.
  - specialize (Hr4 ltac:(by vm_compute)). subst r. rewrite swrap_small by lia. rewrite (proj2 (Z.ltb_ge _ _)) by (unfold UNIT; lia).
    rewrite (Z.mul_comm UNIT N), Z.div_mul by done. eapply addPages_spec; [exact HL|exact HN|exact Hr3|exact Hr5|exact Hr6|done..|].
    intros w' l' s' HL' Eh [l1 ->]. eapply HQ1; [exact HL'|lia|exact Eh].
Qed.

(** ** Allocation *)

Lemma units_enough size : 0 < size < 2 ^ 62 -> 2 <= unitsOf size < 2 ^ 59 /\ size <= UNIT * (unitsOf size - 1).
Proof. intros Hs. unfold unitsOf, UNIT. destruct (Z.eqb_spec (size mod 16) 0); cbn [negb]; revert Hs n || revert Hs e; clear; dlia. Qed.
(** What an allocation of [size] bytes gives: a block that nobody holds, or none. *)
Definition allocated (lo : Z) (l : blocks) (size : Z) (s : mstate K) (r : Z) (s' : mstate K) : Prop :=
  exists l', isHeap lo l' s' /\ contents (held lo l) (mem s) (mem s') /\
    ((r = 0 /\ held lo l' = held lo l /\ (size = 0 \/ refused (kern s))) \/
     (exists H1 n H2, held lo l = H1 ++ H2 /\ held lo l' = H1 ++ (r - UNIT, n) :: H2 /\ size <= UNIT * (n - 1) /\ 0 < r)).
Lemma takeFrom_spec m0 w lo l l1 k l2 n s0 size s : lay m0 (held lo l) w lo (l1 ++ (k, false) :: l2) (frees lo (l1 ++ (k, false) :: l2)) s -> m0 = mem s0 ->
  held lo (l1 ++ (k, false) :: l2) = held lo l -> 2 <= n <= k -> size <= UNIT * (n - 1) ->
  wp (splitBlock (endp lo l1) n;; mret (endp lo l1 + UNIT)) s (fun r s' => allocated lo l size s0 r s').
Proof.
  intros HL -> Hh Hn Hs. apply wp_bind. eapply splitBlock_spec; [exact HL|exact Hn|]. intros w' n' l2' s' HL' Hn' Eh _ _. apply wp_ret.
  exists (l1 ++ (n', true) :: l2'). split; [by eapply lay_isHeap|]. split; [apply HL'|]. right. exists (held lo l1), n', (held (endp lo l1 + UNIT * k) l2).
  rewrite <- Hh, held_mid. split; [done|]. rewrite Z.add_simpl_r, held_app. cbn [held]. rewrite Eh. split; [done|]. unfold UNIT in *. split; [lia|].
  destruct (lay_lo _ _ _ _ _ _ _ HL). pose proof (tail_sized _ _ _ _ (lay_tail _ _ _ _ _ _ _ HL)) as Hsz. apply sized_app in Hsz as [Hsz _]. pose proof (endp_ge lo l1 Hsz). lia.
Qed.
Lemma doAlloc_spec lo l s size clean : isHeap lo l s -> 0 <= size < 2 ^ 62 -> wp (doAlloc size clean) s (fun r s' => allocated lo l size s r s').
Proof.
  intros [w HL] Hs. unfold doAlloc. destruct (Z.eqb_spec size 0) as [E0|E0].
  { apply wp_ret. exists l. split; [by exists w|]. split; [done|]. left. auto. }
  destruct (units_enough size ltac:(lia)) as [Hn Hsz]. apply (lay_start _ _ _ _ _ _ _ (held lo l)) in HL; [|done]. set (n := unitsOf size) in *.
  assert (Hne : forall m0 hs w l1 k l2 F s, lay m0 hs w lo (l1 ++ (k, false) :: l2) F s -> (endp lo l1 =? 0) = false).
  { intros m0 hs w' l1 k l2 F s' HL'. apply Z.eqb_neq. destruct (lay_block _ _ _ _ _ _ _ _ _ _ HL') as (_ & _ & _ & _ & _ & H' & _). destruct (lay_lo _ _ _ _ _ _ _ HL'). lia. }
  apply wp_bind. eapply findBlock_spec; [exact HL|lia| |].
  - intros l1 k l2 El Hk. rewrite El in HL. rewrite (Hne _ _ _ _ _ _ _ _ HL). cbn [negb]. rewrite <- El in HL. eapply takeFrom_spec with (k := k) (l2 := l2); [rewrite <- El; exact HL|done|by rewrite El|lia|done].
  - intros Hft. cbn [Z.eqb negb]. apply wp_bind. eapply moreHeap_spec; [exact HL|lia|exact Hft| |].
    + intros s' Hr HL'. cbn [negb]. apply wp_ret. exists l. split; [by eapply lay_isHeap|]. split; [apply HL'|]. left. auto.
    + intros w' l1 N s' HL' HN Eh. cbn [negb]. apply wp_bind. eapply findBlock_spec; [exact HL'|lia| |].
      * intros l3 k l4 El Hk. rewrite El in HL'. rewrite (Hne _ _ _ _ _ _ _ _ HL'). eapply takeFrom_spec; [exact HL'|done|by rewrite <- El|lia|done].
      * intros Hlt. unfold freeTail in Hlt. rewrite last_snoc in Hlt. lia.
Qed.

(** The first page. *)
Lemma zero_words (w : gmap Z Z) r m : (forall a, r <= a < r + PAGE_SIZE -> m !! a = Some 0) -> 0 < r -> r + PAGE_SIZE <= 2 ^ 47 ->
  (forall a x, w !! a = Some x -> x = 0 /\ aligned a /\ r <= a /\ a + 8 <= r + PAGE_SIZE) -> kept [] m w r (r + PAGE_SIZE) m.
Proof.
  intros Hz Hr Hmax Hw. split; [|by intros b n k Hb; apply elem_of_nil in Hb]. split_and!; [|apply touches_refl| |lia|lia|intros a x Ha; by destruct (Hw a x Ha) as (_ & _ & _ & H')].
  - intros a x Ha. destruct (Hw a x Ha) as (-> & Hal & H1 & H2). split; [done|]. split; [lia|]. apply word_zero. intros b Hb. apply Hz. lia.
  - intros k Hk. exists 0. apply Hz. lia.
Qed.
Lemma mallocInit_spec s : (forall r x, sysMmap 0 PAGE_SIZE HEAP_FLAGS (mem s, kern s) = (r, x) -> 0 <= s64 r) ->
  wp mallocInit s (fun r s' => r = 0 /\ isHeap (firstBlock s') [(255, false)] s').
Proof.
  intros Hok. unfold mallocInit. apply wp_bind. unfold wp at 1, sys at 1. destruct (sysMmap 0 PAGE_SIZE HEAP_FLAGS (mem s, kern s)) as [r [m k]] eqn:E.
  assert (Hpage : 0 < PAGE_SIZE) by done. destruct (sysMmap_ok _ _ _ _ _ _ _ _ Hpage E) as [[Hr _]|(Hr1 & Hr2 & Hr3 & _ & Hr5 & _)]; [specialize (Hok _ _ eq_refl); lia|]. apply wp_bind, wp_modify.
  unfold MAP_FAIL. rewrite (proj2 (Z.eqb_neq _ _)) by (unfold PAGE_SIZE in *; lia). change (PAGE_SIZE / UNIT - 1) with 255. set (c := r + UNIT * 255).
  set (w := <[r := 0]> (<[r + 16 := 0]> (<[r + 24 := 0]> (<[c := 0]> (<[c + 8 := 0]> (∅ : gmap Z Z)))))). assert (Hal : aligned r) by (unfold aligned, PAGE_SIZE in *; dlia).
  assert (HK : kept [] m w r (endp r [(255, false)] + 16) m).
  { change (endp r [(255, false)] + 16) with (c + 16). replace (c + 16) with (r + PAGE_SIZE) by (unfold c, UNIT, PAGE_SIZE; lia). apply zero_words; [done..|].
    intros a x Ha. unfold w in Ha. rewrite !lookup_insert_Some, lookup_empty in Ha. unfold PAGE_SIZE, c, UNIT in *.
    destruct Ha as [[<- <-]|[_ [[<- <-]|[_ [[<- <-]|[_ [[<- <-]|[_ [[<- <-]|[_ Ha]]]]]]]]]]; try done; (split; [done|]); (split; [first [exact Hal|unfold aligned in *; revert Hal; clear; dlia]|lia]). }
  assert (Hsz : sized [(255, false)]) by (by apply sized_one). destruct (mark_mid r [] 255 false []) as [I1 I2]. cbn [endp app] in I1, I2. fold c in I2.
  assert (Hh : ([] : list (Z * Z)) ⊆ held r [(255, false)]) by done.
  pose proof (mark_in [] r _ r Hsz Hh Hal I1) as Mr. pose proof (mark_in [] r _ c Hsz Hh Hal I2) as Mc. pose proof (mark_range _ _ _ _ Mr) as Rr. pose proof (mark_range _ _ _ _ Mc) as Rc.
  apply wp_bind. eapply (wp_setNext _ _ _ _ _ _ 255 false); [exact HK|exact Mr|lia|]. intros m1 HK1. apply wp_bind. eapply wp_nextBlock; [exact HK1|apply lookup_insert_eq|lia|lia|lia|fold c; lia|]. fold c.
  apply wp_bind, wp_modify. eapply (wp_copyTag _ _ _ _ _ _ _ _ 255 false); [exact HK1|exact Mr|exact Mc|by rewrite lookup_insert_eq|lia|]. intros m2 [HM2 _].
  apply wp_bind, wp_modify, wp_bind, wp_modify, wp_ret. split; [done|]. eexists.
  split; cbn [firstBlock lastBlock firstFreeBlock lastFreeBlock set_firstFree set_lastFree set_lastBlock set_firstBlock set_mem mem].
  - split; [exact HM2|by intros b n k0 Hb; apply elem_of_nil in Hb].
  - split; [|split; [done|split; [|split]]]; cbn [endp]; fold c; unfold w, c, UNIT; by rewrite ?lookup_insert_ne, ?lookup_insert_eq by (unfold UNIT; lia).
  - split; [|split; [|done]]; unfold w, c, UNIT; by rewrite ?lookup_insert_ne, ?lookup_insert_eq by (unfold UNIT; lia).
  - done.
  - cbn. unfold last0. cbn. by rewrite link_pos.
  - done.
  - done.
Qed.

(** C21: [malloc] returns a block of at least the size asked for that no one
    holds, and the blocks that the program holds keep their places and their
    contents; it returns 0 only for size 0 or when the system refuses memory. *)
Theorem malloc_correct lo l s size : isHeap lo l s -> 0 <= size < 2 ^ 62 -> wp (malloc size) s (fun r s' => allocated lo l size s r s').
Proof. intros HI Hs. by apply doAlloc_spec. Qed.

(** C22: [free] gives a block back: the program then holds the other blocks, in
    their places and with their contents. *)
Theorem free_correct lo l s b n H1 H2 : isHeap lo l s -> held lo l = H1 ++ (b, n) :: H2 ->
  wp (free (b + UNIT)) s (fun _ s' => exists l', isHeap lo l' s' /\ held lo l' = H1 ++ H2 /\ contents (H1 ++ H2) (mem s) (mem s')).
Proof. intros HI Hh. eapply wp_mono; [eapply free_spec; [exact HI|exact Hh]|]. intros _ s' (l' & HI' & E & Hc & _). by exists l'. Qed.
End heap.

(** ** A system with half a megabyte of memory *)

Definition DEMO_END : Z := 0x80080000.
#[local] Instance demoSys : MapSys unit := {|
  sysMmap addr sz flags x :=
    let a := if has flags MMAP_FLAG_FIXED then addr else HEAP_MAX in
    if (a mod PAGE_SIZE =? 0) && (0 <? a) && (0 <=? sz) && (a + sz <=? DEMO_END) then (a, (store a (replicate (Z.to_nat sz) 0) x.1, x.2)) else (2 ^ 64 - 12, x);
  sysMunmap addr sz x := (0, x)
|}.
#[local] Instance demoSys_ok : MapSysOk (K := unit).
Proof.
  intros addr sz flags m k r m' k' Hsz. cbn -[store replicate DEMO_END]. set (a := if has flags MMAP_FLAG_FIXED then addr else HEAP_MAX).
  destruct ((a mod PAGE_SIZE =? 0) && (0 <? a) && (0 <=? sz) && (a + sz <=? DEMO_END)) eqn:E; intros [= <- <- <-]; [|by left]. right.
  rewrite !andb_true_iff in E. destruct E as [[[E1 E2] _] E3]. apply Z.eqb_eq in E1. apply Z.ltb_lt in E2. apply Z.leb_le in E3. unfold DEMO_END in E3.
  split; [done|]. split; [lia|]. split; [lia|]. split; [by intros Hf; unfold a; rewrite Hf|]. split.
  - intros b Hb. rewrite lookup_store, length_replicate, decide_True by lia. apply lookup_replicate_2. lia.
  - intros b Hb. rewrite lookup_store, length_replicate, decide_False by lia. done.
Qed.
Definition demo0 : mstate unit := mkMs ∅ 0 0 0 0 0 tt.
Definition after {A} (m : M (mstate unit) A) (s : mstate unit) : mstate unit := match m s with Done (_, s') => s' | _ => s end.
Definition result (m : M (mstate unit) Z) (s : mstate unit) : Z := match m s with Done (r, _) => r | _ => 0 end.
Lemma after_spec m s Q : wp m s Q -> Q (result m s) (after m s).
Proof. unfold wp, result, after. by destruct (m s) as [[r s']| |]. Qed.
Definition demo1 : mstate unit := after mallocInit demo0.
Lemma demo1_heap : isHeap HEAP_MAX [(255, false)] demo1.
Proof.
  assert (Hm : fst (sysMmap 0 PAGE_SIZE HEAP_FLAGS (mem demo0, kern demo0)) = HEAP_MAX) by (vm_compute; reflexivity).
  assert (Hf : firstBlock demo1 = HEAP_MAX) by (vm_compute; reflexivity).
  rewrite <- Hf. refine (proj2 (after_spec _ _ _ (mallocInit_spec demo0 _))). intros r x E. rewrite E in Hm. cbn [fst] in Hm. by subst r.
Qed.
Lemma malloc_correct_witness : isHeap HEAP_MAX [(255, false)] demo1 /\ wp (malloc 100) demo1 (fun r s' => allocated HEAP_MAX [(255, false)] 100 demo1 r s').
Proof. split; [apply demo1_heap|]. apply (malloc_correct HEAP_MAX [(255, false)] demo1 100); [apply demo1_heap|lia]. Defined.

(** After [malloc(100)] the program holds one block. *)
Definition demo2 : mstate unit := after (malloc 100) demo1.
Lemma demo2_heap : exists l n, isHeap HEAP_MAX l demo2 /\ held HEAP_MAX l = [(HEAP_MAX, n)].
Proof.
  pose proof (doAlloc_spec HEAP_MAX [(255, false)] demo1 100 false demo1_heap ltac:(lia)) as Hw.
  apply after_spec in Hw. assert (Hr : result (doAlloc 100 false) demo1 = HEAP_MAX + UNIT) by (vm_compute; reflexivity). rewrite Hr in Hw.
  destruct Hw as (l' & HI & _ & [(H0 & _)|(H1 & n & H2 & E1 & E2 & _)]); [discriminate H0|]. exists l', n. unfold demo2, malloc. split; [exact HI|]. cbn in E1. symmetry in E1. apply app_eq_nil in E1 as [-> ->]. exact E2.
Qed.
Lemma free_correct_witness : exists l n, held HEAP_MAX l = [] ++ (HEAP_MAX, n) :: [] /\
  wp (free (HEAP_MAX + UNIT)) demo2 (fun _ s' => exists l', isHeap HEAP_MAX l' s' /\ held HEAP_MAX l' = [] ++ [] /\ contents ([] ++ []) (mem demo2) (mem s')).
Proof.
  destruct demo2_heap as (l & n & HI & Hh). exists l, n. split; [exact Hh|]. apply (free_correct HEAP_MAX l demo2 HEAP_MAX n [] []); [exact HI|exact Hh].
Defined.

(** ** What the code gets wrong *)

(** [calloc] returns what was written to the block before it was freed. *)
Definition byteAt (a : Z) (s : mstate unit) : Z := default 0 (mem s !! a).
Definition dirtyCalloc : M (mstate unit) Z :=
  p ← malloc 100; st64 (p + 48) 7;; free p;; q ← calloc 1 100; b ← ld64 (q + 48); mret b.
Example calloc_not_zero : match dirtyCalloc demo1 with Done (b, _) => b | _ => 0 end = 7.
Proof. vm_compute. reflexivity. Qed.
(** Its product wraps: a block of 16 bytes for 2^60 + 1 elements of 16 bytes. *)
Example calloc_wraps : match calloc (2 ^ 60 + 1) 16 demo1 with Done (p, s) => match ld64 (p - 8) s with Done (n, _) => Z.shiftr n 1 | _ => 0 end | _ => 0 end = 2.
Proof. vm_compute. reflexivity. Qed.
(** [realloc] copies as many bytes as the new block holds: those of the block
    behind the old one too. *)
Definition leak : M (mstate unit) Z :=
  p ← malloc 16; q ← malloc 16; st64 q 42;; r ← realloc p 64; b ← ld64 (r + (q - p)); mret b.
Example realloc_reads_behind : match leak demo1 with Done (b, _) => b | _ => 0 end = 42.
Proof. vm_compute. reflexivity. Qed.
(** [mmap] cuts the address to an [int]: addresses from 2^31 on, which it asks
    for, are reported as errors, although the pages were mapped. *)
Example mmap_high_fails : match mmap 0 PAGE_SIZE 0 HEAP_FLAGS demo0 with Done (r, s) => (r, byteAt HEAP_MAX s, size (mem s), errno s) | _ => (0, 0, 0%nat, 0) end = (MAP_FAIL, 0, 4096%nat, 2 ^ 31).
Proof. vm_compute. reflexivity. Qed.
(** The first allocation tests for [MAP_FAIL] only: with another error of the
    system the header is written to an address that is none. *)
Definition noSys : MapSys unit := {| sysMmap addr sz flags x := (2 ^ 64 - 12, x); sysMunmap addr sz x := (0, x) |}.
Example mallocInit_refused : @mallocInit unit noSys demo0 = Fault.
Proof. vm_compute. reflexivity. Qed.
