(* ===== verification/BufferedIO.v ===== *)
(** * Buffered streams of the C library: [phlibc/src/bufio.c] and [basicio.c]

    Streams are objects in a list; their buffers lie in the byte addressed
    memory of the process.  The kernel and [malloc] are interfaces. *)

From S2P Require Import Prelude Word Errno CString.

Definition BUFSIZ : Z := 512.
Definition EOF : Z := -1.
Definition IOFBF : Z := 0.
Definition IOLBF : Z := 1.
Definition STREAM_MODEMASK : Z := 3.
Definition STREAM_FREEBUF : Z := 4.
Definition STREAM_EOF : Z := 8.
Definition STREAM_ERROR : Z := 16.
Definition STREAM_PROC : Z := 32.
Definition O_CREATE : Z := 1.
Definition O_READ : Z := 2.
Definition O_WRITE : Z := 4.
Definition O_APPEND : Z := 16.
Definition O_TRUNC : Z := 128.
Definition sizeofFILE : Z := 88.
Definition STDIN : Z := 1.                 (* addresses of the three streams *)
Definition STDOUT : Z := 2.
Definition STDERR : Z := 3.

Record FILE := mkFILE {
  fd : Z; flags : Z; pid : Z; cbuf : Z; seekOffset : Z;
  buf : Z; bufEnd : Z; writeEnd : Z; readEnd : Z; next : Z; prev : Z
}.

(** The system calls, on the memory of the process and the state of the
    kernel. *)
Class Syscalls (K : Type) := {
  sysWrite : Z -> Z -> Z -> gmap Z Z -> K -> Z * K;
  sysRead : Z -> Z -> Z -> gmap Z Z -> K -> Z * gmap Z Z * K;
  sysOpen : list Z -> Z -> K -> Z * K;
  sysClose : Z -> K -> Z * K;
  sysSeek : Z -> Z -> Z -> K -> Z * K;
  sysIoctl : Z -> Z -> Z -> K -> Z * K;
  sysUnlink : list Z -> K -> Z * K;
  sysRename : list Z -> list Z -> K -> Z * K;
  sysWaitPid : Z -> K -> Z * Z * K          (* result and status *)
}.
(** [malloc] gives memory that the caller may use; the pointer is 0 on failure. *)
Class Malloc (U : Type) := { malloc : Z -> U -> Z * U; free : Z -> U -> U }.

Record lib (K U : Type) := mkLib {
  mem : gmap Z Z; streams : gmap Z FILE; firstFile : Z; lastFile : Z; errno : Z; kern : K; arena : U
}.
Arguments mkLib {K U}.
Arguments mem {K U}.
Arguments streams {K U}.
Arguments firstFile {K U}.
Arguments lastFile {K U}.
Arguments errno {K U}.
Arguments kern {K U}.
Arguments arena {K U}.

(** The new values of single fields. *)
Definition f_flags (x : Z) (f : FILE) : FILE :=
  mkFILE (fd f) x (pid f) (cbuf f) (seekOffset f) (buf f) (bufEnd f) (writeEnd f) (readEnd f) (next f) (prev f).
Definition f_ends (w r : Z) (f : FILE) : FILE :=
  mkFILE (fd f) (flags f) (pid f) (cbuf f) (seekOffset f) (buf f) (bufEnd f) w r (next f) (prev f).
Definition f_next (x : Z) (f : FILE) : FILE :=
  mkFILE (fd f) (flags f) (pid f) (cbuf f) (seekOffset f) (buf f) (bufEnd f) (writeEnd f) (readEnd f) x (prev f).
Definition f_prev (x : Z) (f : FILE) : FILE :=
  mkFILE (fd f) (flags f) (pid f) (cbuf f) (seekOffset f) (buf f) (bufEnd f) (writeEnd f) (readEnd f) (next f) x.
Definition f_fd (x : Z) (f : FILE) : FILE :=
  mkFILE x (flags f) (pid f) (cbuf f) (seekOffset f) (buf f) (bufEnd f) (writeEnd f) (readEnd f) (next f) (prev f).
Definition f_cbuf (x : Z) (f : FILE) : FILE :=
  mkFILE (fd f) (flags f) (pid f) x (seekOffset f) (buf f) (bufEnd f) (writeEnd f) (readEnd f) (next f) (prev f).
Definition f_seek (x : Z) (f : FILE) : FILE :=
  mkFILE (fd f) (flags f) (pid f) (cbuf f) x (buf f) (bufEnd f) (writeEnd f) (readEnd f) (next f) (prev f).
Definition f_buffer (b size fl : Z) (f : FILE) : FILE :=
  mkFILE (fd f) fl (pid f) (cbuf f) (seekOffset f) b (b + size) b b (next f) (prev f).

(** The streams that are open from the start, with their static buffers. *)
Definition stdStream (n b nx pv : Z) : FILE := mkFILE n IOLBF 0 EOF 0 b (b + BUFSIZ) b b nx pv.
Definition stdStreams (inBuf outBuf errBuf : Z) : gmap Z FILE :=
  <[STDIN := stdStream 0 inBuf STDOUT 0]> (<[STDOUT := stdStream 1 outBuf STDERR STDIN]>
    (<[STDERR := stdStream 2 errBuf 0 STDOUT]> ∅)).

Section bufio.
Context {K U : Type} `{Syscalls K} `{Malloc U}.
Notation libM := (M (lib K U)).
(** The contents of fresh memory and of a fresh [FILE]. *)
Context (junk : Z) (stale : FILE).

Definition set_mem (m : gmap Z Z) (s : lib K U) : lib K U := mkLib m (streams s) (firstFile s) (lastFile s) (errno s) (kern s) (arena s).
Definition set_streams (m : gmap Z FILE) (s : lib K U) : lib K U := mkLib (mem s) m (firstFile s) (lastFile s) (errno s) (kern s) (arena s).
Definition set_first (p : Z) (s : lib K U) : lib K U := mkLib (mem s) (streams s) p (lastFile s) (errno s) (kern s) (arena s).
Definition set_last (p : Z) (s : lib K U) : lib K U := mkLib (mem s) (streams s) (firstFile s) p (errno s) (kern s) (arena s).
Definition set_errno (e : Z) (s : lib K U) : lib K U := mkLib (mem s) (streams s) (firstFile s) (lastFile s) e (kern s) (arena s).
Definition set_kern (k : K) (s : lib K U) : lib K U := mkLib (mem s) (streams s) (firstFile s) (lastFile s) (errno s) k (arena s).
Definition set_arena (u : U) (s : lib K U) : lib K U := mkLib (mem s) (streams s) (firstFile s) (lastFile s) (errno s) (kern s) u.

Definition onMemory {A} (m : M (gmap Z Z) A) : libM A := fun s =>
  match m (mem s) with
  | Done (a, m') => Done (a, set_mem m' s)
  | Fault => Fault
  | NoFuel => NoFuel
  end.
Definition syscall {A} (f : K -> A * K) : libM A := fun s => let '(a, k) := f (kern s) in Done (a, set_kern k s).
Definition setErrno (e : Z) : libM unit := modify (set_errno e).
Definition getFile (p : Z) : libM FILE := deref (fun s => streams s !! p).
Definition updFile (p : Z) (g : FILE -> FILE) : libM unit :=
  f ← getFile p; modify (fun s => set_streams (<[p := g f]> (streams s)) s).
Definition setFlag (p b : Z) : libM unit := updFile p (fun f => f_flags (Z.lor (flags f) b) f).

Fixpoint mapBytes (n : nat) (a : Z) (m : gmap Z Z) : gmap Z Z :=
  match n with O => m | S n => <[a := junk]> (mapBytes n (a + 1) m) end.
(** [malloc(size)] of a buffer. *)
Definition newBuffer (size : Z) : libM Z := fun s =>
  let '(p, u) := malloc size (arena s) in
  Done (p, set_arena u (if p =? 0 then s else set_mem (mapBytes (Z.to_nat size) p (mem s)) s)).
Definition release (p : Z) : libM unit := modify (fun s => set_arena (free p (arena s)) s).

(** [write] and [read] of [basicio.c]. *)
Definition write (n buffer size : Z) : libM Z := fun s =>
  let '(ret, k) := sysWrite n buffer size (mem s) (kern s) in
  if ret =? 0 then Done (size, set_kern k s) else Done (-1, set_errno (s32 (- ret)) (set_kern k s)).
Definition read (n buffer size : Z) : libM Z := fun s =>
  let '(ret, m, k) := sysRead n buffer size (mem s) (kern s) in
  let s := set_mem m (set_kern k s) in
  if ret <? 0 then Done (-1, set_errno (s32 (- ret)) s) else Done (ret, s).

(** A system call whose result is an error number or success. *)
Definition checked (isError : Z -> bool) (f : K -> Z * K) : libM Z :=
  error ← syscall f;
  if isError error then setErrno (- error);; mret (-1) else mret error.
Definition close (n : Z) : libM Z := checked (fun e => negb (e =? 0)) (sysClose n).
Definition ioctl (n request arg : Z) : libM Z := checked (fun e => e <? 0) (sysIoctl n request arg).

Definition parseMode (mode : list Z) : libM Z :=
  let plus (base extra : Z) : libM Z :=
    match mode with
    | _ :: c :: _ => if c =? 43 then mret (Z.lor base extra) else setErrno EINVAL;; mret (-1)
    | _ => mret base
    end in
  match mode with
  | c :: _ =>
    if c =? 114 then plus O_READ O_WRITE
    else if c =? 119 then plus (Z.lor O_WRITE (Z.lor O_TRUNC O_CREATE)) O_READ
    else if c =? 97 then plus (Z.lor O_WRITE O_APPEND) O_READ
    else setErrno EINVAL;; mret (-1)
  | [] => setErrno EINVAL;; mret (-1)
  end.

Definition fopen (filename : list Z) (mode : list Z) : libM Z :=
  if bool_decide (mode = []) then setErrno EINVAL;; mret 0
  else
    fl ← parseMode mode;
    if fl <? 0 then mret 0
    else
      f ← (fun s => let '(p, u) := malloc sizeofFILE (arena s) in
             Done (p, set_arena u (if p =? 0 then s else set_streams (<[p := stale]> (streams s)) s)));
      if f =? 0 then mret 0
      else
        b ← newBuffer BUFSIZ;
        if b =? 0 then release f;; mret 0
        else
          last ← gets lastFile;
          updFile f (fun x => mkFILE (fd x) (Z.lor IOFBF STREAM_FREEBUF) (pid x) EOF 0 b (b + BUFSIZ) b b (next x) last);;
          updFile last (f_next f);;
          modify (set_last f);;
          error ← syscall (sysOpen filename fl);
          if error <? 0 then setErrno (- error);; release b;; release f;; mret 0
          else updFile f (f_fd error);; mret f.

Definition fflush (p : Z) : libM Z :=
  f ← getFile p;
  let writeSize := writeEnd f - buf f in
  if writeSize =? 0 then mret 0
  else
    m ← gets mem;
    error ← syscall (sysWrite (fd f) (buf f) writeSize m);
    let error := s32 error in
    updFile p (fun f => f_ends (buf f) (buf f) f);;
    if error <? 0 then setFlag p STREAM_ERROR;; setErrno (- error);; mret (-1) else mret 0.

(** [fclose] of a stream that is not a process. *)
Definition closeStream (p : Z) : libM Z :=
  error ← fflush p;
  if negb (error =? 0) then mret error
  else
    f ← getFile p;
    (if prev f =? 0 then modify (set_first (next f)) else updFile (prev f) (f_next (next f)));;
    (if next f =? 0 then modify (set_last (prev f)) else updFile (next f) (f_prev (prev f)));;
    error ← (if fd f >=? 0 then syscall (sysClose (fd f)) else mret error);
    (if has (flags f) STREAM_FREEBUF then release (buf f) else mret tt);;
    (if (p =? STDIN) || (p =? STDOUT) || (p =? STDERR) then mret tt
     else modify (fun s => set_arena (free p (arena s)) (set_streams (delete p (streams s)) s)));;
    if error <? 0 then setErrno (- error);; mret (-1) else mret 0.

(** [pclose] of [popen.c]. *)
Definition pclose (p : Z) : libM Z :=
  fflush p;;
  f ← getFile p;
  rs ← syscall (sysWaitPid (pid f));
  (if rs.1 <? 0 then setErrno (- rs.1) else mret tt);;
  updFile p (fun f => f_flags (Z.land (flags f) (Z.lnot STREAM_PROC)) f);;
  closeStream p;;
  mret rs.2.

Definition fclose (p : Z) : libM Z :=
  f ← getFile p; if has (flags f) STREAM_PROC then pclose p else closeStream p.

Fixpoint closeAllFrom (fuel : nat) (p : Z) : libM unit :=
  if p =? 0 then mret tt
  else match fuel with
       | O => nofuel
       | S fuel => f ← getFile p; fclose p;; closeAllFrom fuel (next f)
       end.
Definition PHCloseAll (fuel : nat) : libM unit := p ← gets firstFile; closeAllFrom fuel p.

Definition freopen (filename mode : list Z) (p : Z) : libM Z :=
  fflush p;;
  f ← getFile p;
  syscall (sysClose (fd f));;
  fl ← parseMode mode;
  error ← syscall (sysOpen filename fl);
  if negb (error =? 0) then                       (* a descriptor is not 0 *)
    setErrno (- error);; updFile p (f_fd (-1));; fclose p;; mret 0
  else mret p.

Definition setvbuf (p buffer mode size : Z) : libM Z :=
  error ← fflush p;
  if negb (error =? 0) then mret (-1)
  else
    f ← getFile p;
    (if has (flags f) STREAM_FREEBUF then release (buf f) else mret tt);;
    b ← (if buffer =? 0 then newBuffer size else mret buffer);
    if b =? 0 then mret (-1)
    else
      let fl := if buffer =? 0 then Z.lor (flags f) STREAM_FREEBUF else Z.land (flags f) (Z.lnot STREAM_FREEBUF) in
      updFile p (f_buffer b size (Z.lor (Z.land fl (Z.lnot STREAM_MODEMASK)) (Z.land mode STREAM_MODEMASK)));;
      mret 0.
Definition setbuf (p buffer : Z) : libM unit := f ← getFile p; setvbuf p buffer (flags f) BUFSIZ;; mret tt.

(** ** Writing *)

Definition fwriteFBF (ptr size nmemb p : Z) : libM Z :=
  f ← getFile p;
  let totalSize := u64 (size * nmemb) in
  let writeSize := bufEnd f - writeEnd f in
  if totalSize >? writeSize then
    onMemory (memcpy (writeEnd f) ptr writeSize);;    (* writeEnd stays *)
    let src := ptr + writeSize in
    let totalSize := totalSize - writeSize in
    error ← fflush p;
    if negb (error =? 0) then mret 0
    else
      f ← getFile p;
      if totalSize >? bufEnd f - buf f then
        r ← write (fd f) ptr totalSize;
        if r <? 0 then setFlag p STREAM_ERROR;; mret 0 else mret nmemb
      else
        onMemory (memcpy (writeEnd f) src totalSize);;
        updFile p (fun f => f_ends (writeEnd f + totalSize) (readEnd f) f);;
        mret nmemb
  else
    onMemory (memcpy (writeEnd f) ptr totalSize);;
    updFile p (fun f => f_ends (writeEnd f + totalSize) (readEnd f) f);;
    mret nmemb.

(** The loop of [fwrite] on a line buffered stream: false on failure. *)
Fixpoint writeLines (fuel : nat) (str totalSize p : Z) : libM bool :=
  if totalSize =? 0 then mret true
  else
    match fuel with
    | O => nofuel
    | S fuel =>
      e ← onMemory (memchr str 10 totalSize);
      let diff := if e =? 0 then totalSize else e + 1 - str in
      n ← fwriteFBF str 1 diff p;
      if n =? 0 then mret false
      else
        error ← fflush p;
        if error <? 0 then mret false else writeLines fuel (str + diff) (totalSize - diff) p
    end.

Definition fwrite (ptr size nmemb p : Z) : libM Z :=
  f ← getFile p;
  let mode := Z.land (flags f) STREAM_MODEMASK in
  if mode =? IOLBF then
    ok ← writeLines (Z.to_nat (u64 (size * nmemb))) ptr (u64 (size * nmemb)) p;
    mret (if (ok : bool) then nmemb else 0)
  else if mode =? IOFBF then fwriteFBF ptr size nmemb p
  else
    error ← fflush p;
    if error <? 0 then mret 0
    else
      f ← getFile p;
      r ← write (fd f) ptr (u64 (size * nmemb));
      if r <? 0 then setFlag p STREAM_ERROR;; mret 0 else mret nmemb.

(** ** Reading *)

Definition fread (ptr size nmemb p : Z) : libM Z :=
  let sz := u64 (size * nmemb) in
  if sz =? 0 then mret 0
  else
    f ← getFile p;
    let pushed := negb (cbuf f =? EOF) in
    (if pushed then onMemory (wr ptr (s8 (cbuf f))) else mret tt);;   (* cbuf stays *)
    let ptr := if pushed then ptr + 1 else ptr in
    let sz := if pushed then sz - 1 else sz in
    if pushed && (sz =? 0) then mret 1
    else
      rd ← read (fd f) ptr sz;
      if rd <=? 0 then setFlag p STREAM_ERROR;; mret 0
      else
        (if rd =? sz then mret tt else setFlag p STREAM_EOF);;
        mret (u64 rd / size).

Definition feof (p : Z) : libM Z := f ← getFile p; mret (Z.land (flags f) STREAM_EOF).
Definition ferror (p : Z) : libM Z := f ← getFile p; mret (Z.land (flags f) STREAM_ERROR).
Definition clearerr (p : Z) : libM unit := updFile p (fun f => f_flags (Z.land (flags f) (Z.lnot STREAM_ERROR)) f).

(** ** [basicio.c] *)

Definition fputs (fuel : nat) (s p : Z) : libM Z :=
  n ← onMemory (strlen fuel s);
  r ← fwrite s 1 n p;
  mret (if r =? 0 then -1 else 0).
Definition fgets (s size p : Z) : libM Z :=
  n ← fread s 1 (u64 (size - 1)) p;
  if n =? 0 then mret 0 else onMemory (wr (s + n) 0);; mret s.
(** [ret] and [buf] are local variables, at the address [local]. *)
Definition fgetc (local p : Z) : libM Z :=
  onMemory (writeWord8 [0; 0; 0; 0] local);;
  n ← fread local 1 1 p;
  if n =? 0 then mret EOF
  else
    l ← onMemory (readWord8 4 local);
    mret (s32 (fold_right (fun c r => u8 c + 256 * r) 0 l)).
Definition fputc (local c p : Z) : libM Z :=
  onMemory (writeWord8 [s8 c; 0] local);;
  fputs 3 local p.
Definition puts (fuel : nat) (local s : Z) : libM Z :=
  error ← fputs fuel s STDOUT;
  if negb (error =? 0) then mret error else fputc local 10 STDOUT.
Definition putc (local c p : Z) : libM Z := fputc local c p.
Definition putchar (local c : Z) : libM Z := putc local c STDOUT.
Definition ungetc (c p : Z) : libM Z :=
  f ← getFile p;
  if negb (cbuf f =? EOF) then mret EOF else updFile p (f_cbuf c);; mret c.
Definition fseeko (p offset whence : Z) : libM Z :=
  f ← getFile p;
  error ← syscall (sysSeek (fd f) offset whence);
  if negb (error =? 0) then setErrno (- error);; mret (-1)
  else
    (if whence =? 1 then updFile p (fun f => f_seek (s64 (seekOffset f + offset)) f)
     else if whence =? 0 then updFile p (f_seek offset) else mret tt);;
    mret 0.
Definition ftello (p : Z) : libM Z := f ← getFile p; mret (s64 (seekOffset f + (writeEnd f - readEnd f))).
Definition remove (path : list Z) : libM Z := checked (fun e => negb (e =? 0)) (sysUnlink path).
Definition rename (old newf : list Z) : libM Z := checked (fun e => negb (e =? 0)) (sysRename old newf).
Definition TIOCGPGRP : Z := 1.
Definition isatty (n arg : Z) : libM Z :=
  error ← ioctl n TIOCGPGRP arg;
  if negb (error =? 0) then setErrno (- error);; mret 0 else mret 1.
End bufio.

(** ** A stream as a list of pending bytes *)

Ltac iosimpl_in H :=
  cbn [fd flags pid cbuf seekOffset buf bufEnd writeEnd readEnd next prev f_flags f_ends f_next f_prev f_fd f_cbuf f_seek] in H.
Ltac iosimpl :=
  cbn [mem streams firstFile lastFile errno kern arena set_mem set_streams set_first set_last set_errno set_kern set_arena
       fd flags pid cbuf seekOffset buf bufEnd writeEnd readEnd next prev f_flags f_ends f_next f_prev f_fd f_cbuf f_seek].

Section output.
Context {K U : Type} `{Syscalls K} `{Malloc U}.
Implicit Types s : lib K U.
Definition flen {A} (l : list A) : Z := Z.of_nat (length l).

(** A kernel that takes every write: [emit n l] is what writing [l] to the
    descriptor [n] does to its state. *)
Class Accepting := {
  emit : Z -> list Z -> K -> K;
  sysWrite_accepts n a l m k : holds m a l -> sysWrite n a (flen l) m k = (0, emit n l k)
}.
Context `{Accepting}.

(** The stream [p], with the fields [f], holds [pend] in its buffer. *)
Definition stream_rep s (p : Z) (f : FILE) (pend : list Z) : Prop :=
  streams s !! p = Some f /\ room (mem s) (buf f) (bufEnd f - buf f) /\ holds (mem s) (buf f) pend /\
  writeEnd f = buf f + flen pend /\ flen pend <= bufEnd f - buf f.
Definition capacity (f : FILE) : Z := bufEnd f - buf f.

Lemma wp_getFile p f s Q : streams s !! p = Some f -> Q f s -> wp (getFile p) s Q.
Proof. intros Hp HQ. apply wp_deref. by exists f. Qed.
Lemma wp_updFile p f g s Q :
  streams s !! p = Some f -> Q tt (set_streams (<[p := g f]> (streams s)) s) -> wp (updFile p g) s Q.
Proof. intros Hp HQ. apply wp_bind, (wp_getFile p f); [done|]. by apply wp_modify. Qed.
Lemma wp_onMemory {A} (m : M (gmap Z Z) A) s (Q : A -> lib K U -> Prop) :
  wp m (mem s) (fun a m' => Q a (set_mem m' s)) -> wp (onMemory m) s Q.
Proof. unfold wp, onMemory. by destruct (m (mem s)) as [[a m']| |]. Qed.
Lemma wp_syscall {A} (g : K -> A * K) s (Q : A -> lib K U -> Prop) :
  Q (g (kern s)).1 (set_kern (g (kern s)).2 s) -> wp (syscall g) s Q.
Proof. intros HQ. unfold wp, syscall. by destruct (g (kern s)). Qed.
Lemma wp_write n a l s Q : holds (mem s) a l -> Q (flen l) (set_kern (emit n l (kern s)) s) -> wp (write n a (flen l)) s Q.
Proof. intros Hl HQ. unfold wp, write. by rewrite (sysWrite_accepts n a l) by done. Qed.

(** Writing nothing does not reach the kernel. *)
Definition sent (n : Z) (l : list Z) (k : K) : K := if bool_decide (l = []) then k else emit n l k.

(** The state after the buffer has been flushed. *)
Definition flushed s (p : Z) (f : FILE) (pend : list Z) : lib K U :=
  if bool_decide (pend = []) then s
  else set_streams (<[p := f_ends (buf f) (buf f) f]> (streams s)) (set_kern (emit (fd f) pend (kern s)) s).

Lemma flen_nil {A} (l : list A) : flen l = 0 <-> l = [].
Proof. unfold flen. destruct l; simpl; split; done || lia. Qed.

Lemma fflush_spec p f pend s :
  stream_rep s p f pend -> wp (fflush p) s (fun r s' => r = 0 /\ s' = flushed s p f pend).
Proof.
  intros (Hp & Hroom & Hh & Hw & Hc). unfold fflush, flushed. apply wp_bind, (wp_getFile p f); [done|].
  replace (writeEnd f - buf f) with (flen pend) by lia.
  destruct (Z.eqb_spec (flen pend) 0) as [E|E].
  { apply flen_nil in E. rewrite bool_decide_true by done. by apply wp_ret. }
  rewrite bool_decide_false by (by rewrite <- flen_nil). apply wp_bind, wp_gets. apply wp_bind, wp_syscall.
  rewrite (sysWrite_accepts _ _ pend) by done. cbn [fst snd]. change (s32 0) with 0.
  apply wp_bind, (wp_updFile p f); [done|]. by apply wp_ret.
Qed.

(** The flushed stream. *)
Lemma flushed_rep p f pend s :
  stream_rep s p f pend -> exists r, stream_rep (flushed s p f pend) p (f_ends (buf f) r f) [] /\ (pend = [] -> r = readEnd f).
Proof.
  intros (Hp & Hroom & Hh & Hw & Hc). unfold flushed. destruct (decide (pend = [])) as [->|Hne].
  - exists (readEnd f). rewrite bool_decide_true by done. split; [|done].
    replace (f_ends (buf f) (readEnd f) f) with f by (assert (E : buf f = writeEnd f) by (unfold flen in Hw; simpl in Hw; lia); rewrite E; by destruct f).
    split_and!; done.
  - exists (buf f). rewrite bool_decide_false by done. split; [|done]. iosimpl. split_and!; [apply lookup_insert_eq|done| | |].
    + intros i c Hi. by rewrite lookup_nil in Hi.
    + iosimpl. unfold flen. simpl. lia.
    + iosimpl. unfold flen in *. simpl. lia.
Qed.
Lemma flushed_mem p f pend s : mem (flushed s p f pend) = mem s.
Proof. unfold flushed. by case_bool_decide. Qed.
Lemma flushed_kern p f pend s : kern (flushed s p f pend) = sent (fd f) pend (kern s).
Proof. unfold flushed, sent. by case_bool_decide. Qed.
Lemma flushed_other p f pend s q : q <> p -> streams (flushed s p f pend) !! q = streams s !! q.
Proof. intros Hq. unfold flushed. case_bool_decide; [done|]. iosimpl. by rewrite lookup_insert_ne. Qed.

(** Bytes that fit are appended to the buffer. *)
Definition appended s (p : Z) (f : FILE) (n : Z) (m : gmap Z Z) : lib K U :=
  set_streams (<[p := f_ends (writeEnd f + n) (readEnd f) f]> (streams s)) (set_mem m s).
Lemma append_spec p f pend ptr l s Q :
  stream_rep s p f pend -> holds (mem s) ptr l -> flen pend + flen l <= capacity f ->
  ptr + flen l <= buf f \/ bufEnd f <= ptr ->
  (forall m, stream_rep (appended s p f (flen l) m) p (f_ends (writeEnd f + flen l) (readEnd f) f) (pend ++ l) ->
    (forall x, ~ buf f <= x < bufEnd f -> m !! x = mem s !! x) -> Q tt (appended s p f (flen l) m)) ->
  wp (onMemory (memcpy (writeEnd f) ptr (flen l));; updFile p (fun f => f_ends (writeEnd f + flen l) (readEnd f) f)) s Q.
Proof.
  intros (Hp & Hroom & Hh & Hw & Hc) Hl Hcap Hd HQ. unfold capacity in *.
  assert (Hf : 0 <= flen pend /\ 0 <= flen l) by (unfold flen; lia).
  apply wp_bind, wp_onMemory. wp_use (memcpy_spec (writeEnd f) ptr (flen l) (mem s)); [lia|by apply holds_room| |lia|].
  { intros x Hx. apply Hroom. lia. }
  intros r m (-> & Hcp). apply (wp_updFile p f); [done|]. iosimpl. apply HQ.
  - split_and!; iosimpl; [apply lookup_insert_eq| | | |unfold flen in *; rewrite length_app; lia].
    + intros x Hx. destruct (decide (writeEnd f <= x < writeEnd f + flen l)) as [Hin|Hout].
      * eapply holds_room; [eapply copied_holds; [exact Hcp|exact Hl]|exact Hin].
      * rewrite (proj2 Hcp) by done. by apply Hroom.
    + apply holds_app.
      * intros i c Hi. rewrite (proj2 Hcp); [by apply Hh|]. apply lookup_lt_Some in Hi. unfold flen in *. lia.
      * change (Z.of_nat (length pend)) with (flen pend). rewrite <- Hw. by eapply copied_holds.
    + unfold flen in *. rewrite length_app. lia.
  - intros x Hx. apply (proj2 Hcp). lia.
Qed.

Lemma fwriteFBF_fits p f pend ptr size nmemb l s Q :
  stream_rep s p f pend -> holds (mem s) ptr l -> u64 (size * nmemb) = flen l -> flen pend + flen l <= capacity f ->
  ptr + flen l <= buf f \/ bufEnd f <= ptr ->
  (forall m, stream_rep (appended s p f (flen l) m) p (f_ends (writeEnd f + flen l) (readEnd f) f) (pend ++ l) ->
    (forall x, ~ buf f <= x < bufEnd f -> m !! x = mem s !! x) -> Q nmemb (appended s p f (flen l) m)) ->
  wp (fwriteFBF ptr size nmemb p) s Q.
Proof.
  intros Hs Hl Hn Hcap Hd HQ. pose proof Hs as (Hp & _ & _ & Hw & _). unfold fwriteFBF.
  apply wp_bind, (wp_getFile p f); [done|]. rewrite Hn. unfold capacity in *.
  destruct (Z.gtb_spec (flen l) (bufEnd f - writeEnd f)); [lia|].
  assert (Ha : wp (onMemory (memcpy (writeEnd f) ptr (flen l));; updFile p (fun f => f_ends (writeEnd f + flen l) (readEnd f) f)) s
    (fun _ s' => wp (mret nmemb) s' Q)).
  { apply (append_spec p f pend); [done..|]. intros m A1 A2. apply wp_ret. by apply HQ. }
  rewrite wp_bind in Ha. apply wp_bind. wp_use Ha. intros r s1 Hs1. apply wp_bind. exact Hs1.
Qed.

(** A stream with an empty buffer, and the kernel's state. *)
Definition idle s (p : Z) (f : FILE) (k : K) s' : Prop :=
  (exists r, stream_rep s' p (f_ends (buf f) r f) []) /\ kern s' = k /\
  (forall x, ~ buf f <= x < bufEnd f -> mem s' !! x = mem s !! x) /\
  (forall q, q <> p -> streams s' !! q = streams s !! q).

(** One line through the buffer. *)
Lemma writeLine_spec p f ptr l s Q :
  stream_rep s p f [] -> holds (mem s) ptr l -> 0 < flen l < 2 ^ 64 -> flen l <= capacity f ->
  ptr + flen l <= buf f \/ bufEnd f <= ptr ->
  (forall s', idle s p f (emit (fd f) l (kern s)) s' -> Q false s') ->
  wp (n ← fwriteFBF ptr 1 (flen l) p; if n =? 0 then mret true else error ← fflush p; mret (error <? 0)) s Q.
Proof.
  intros Hs Hl Hn Hcap Hd HQ. apply wp_bind.
  apply (fwriteFBF_fits p f [] ptr 1 (flen l) l); [done|done|by rewrite Z.mul_1_l, uwrap_small by lia| |done|].
  { unfold flen at 1. simpl. lia. }
  intros m Hs1 Hm. destruct (Z.eqb_spec (flen l) 0); [lia|]. cbn [app] in Hs1. apply wp_bind.
  wp_use (fflush_spec p _ l _ Hs1). intros r s2 (-> & ->). apply wp_ret. apply HQ.
  destruct (flushed_rep p _ l _ Hs1) as (r & Hr & _). split_and!.
  - exists r. destruct f. exact Hr.
  - rewrite flushed_kern. unfold sent. rewrite bool_decide_false by (rewrite <- flen_nil; lia). done.
  - intros x Hx. rewrite flushed_mem. by apply Hm.
  - intros q Hq. rewrite flushed_other by done. iosimpl. unfold appended. iosimpl. by rewrite lookup_insert_ne.
Qed.

(** The lines of a text; the last may lack its newline. *)
Fixpoint lines (l : list Z) : list (list Z) :=
  match l with
  | [] => []
  | x :: l =>
    if x =? 10 then [x] :: lines l
    else match lines l with [] => [[x]] | y :: ys => (x :: y) :: ys end
  end.
Definition firstLine (l : list Z) : nat := match firstAt 10 l with Some i => S i | None => length l end.
Lemma lines_first l : l <> [] -> lines l = take (firstLine l) l :: lines (drop (firstLine l) l).
Proof.
  unfold firstLine. induction l as [|x l IH]; [done|]. intros _. cbn [lines firstAt]. destruct (x =? 10); [done|].
  destruct (decide (l = [])) as [->|Hl]; [done|]. rewrite IH by done. by destruct (firstAt 10 l).
Qed.
Lemma lines_concat l : concat (lines l) = l.
Proof.
  induction l as [|x l IH]; [done|]. cbn [lines]. destruct (x =? 10); [by cbn; rewrite IH|].
  destruct (lines l) as [|y ys]; simpl in *; by rewrite <- IH.
Qed.
Lemma firstLine_le l : (firstLine l <= length l)%nat /\ (l <> [] -> (0 < firstLine l)%nat).
Proof.
  unfold firstLine. induction l as [|x l [IH1 IH2]]; [done|]. cbn [firstAt length]. destruct (x =? 10); [lia|].
  destruct (firstAt 10 l); simpl in *; lia.
Qed.

Lemma writeLines_spec fuel p f ptr l s Q :
  stream_rep s p f [] -> holds (mem s) ptr l -> (length l <= fuel)%nat -> flen l < 2 ^ 64 ->
  Forall (fun x => flen x <= capacity f) (lines l) -> ptr + flen l <= buf f \/ bufEnd f <= ptr -> 0 < ptr ->
  (forall s', idle s p f (fold_left (fun k x => emit (fd f) x k) (lines l) (kern s)) s' -> Q true s') ->
  wp (writeLines fuel ptr (flen l) p) s Q.
Proof.
  revert f ptr l s Q. induction fuel as [|fuel IH]; intros f ptr l s Q Hs Hl Hfu Hn Hcap Hd Hptr HQ.
  all: destruct (decide (l = [])) as [->|Hne].
  1, 3: apply wp_ret, HQ; split_and!; [|done|done|done]; exists (readEnd f);
    destruct Hs as (? & ? & ? & Hw & ?); replace (f_ends _ _ f) with f; [done|];
    unfold flen in Hw; simpl in Hw; rewrite Z.add_0_r in Hw; rewrite <- Hw; by destruct f.
  { destruct l; [done|simpl in Hfu; lia]. }
  cbn [writeLines]. destruct (Z.eqb_spec (flen l) 0) as [E|_]; [by apply flen_nil in E|].
  destruct (firstLine_le l) as [Hk Hk0]. specialize (Hk0 Hne). set (k := firstLine l) in *.
  rewrite (lines_first l Hne) in Hcap, HQ. fold k in Hcap, HQ. inversion Hcap as [|? ? Hc1 Hc2]; subst.
  assert (Hfk : flen (take k l) = Z.of_nat k) by (unfold flen; rewrite length_take; lia).
  apply wp_bind, wp_onMemory. unfold memchr, flen at 1. rewrite Nat2Z.id. wp_use (memchrLoop_spec l ptr 10 (mem s) Hl).
  intros e m (-> & He). replace (set_mem (mem s) s) with s by (by destruct s).
  replace (if e =? 0 then flen l else e + 1 - ptr) with (flen (take k l)); cycle 1.
  { rewrite Hfk, He. unfold k, firstLine. destruct (firstAt 10 l) as [j|]; [|done]. destruct (Z.eqb_spec (ptr + Z.of_nat j) 0); lia. }
  assert (Hdl : flen l = flen (take k l) + flen (drop k l)) by (unfold flen; rewrite length_take, length_drop; lia).
  assert (Hd0 : 0 <= flen (drop k l)) by (unfold flen; lia).
  pose proof (writeLine_spec p f ptr (take k l) s (fun b s' => b = false /\ idle s p f (emit (fd f) (take k l) (kern s)) s')) as Hw.
  specialize (Hw Hs (holds_prefix _ _ _ k Hl) ltac:(lia) Hc1 ltac:(lia) ltac:(done)).
  rewrite wp_bind in Hw. apply wp_bind. wp_use Hw. intros n s1 Hn1. destruct (n =? 0); [by destruct Hn1|].
  rewrite wp_bind in Hn1. apply wp_bind. wp_use Hn1. intros error s2 (-> & (r & Hr) & Hkern & Hm & Ho).
  replace (flen l - flen (take k l)) with (flen (drop k l)) by lia.
  apply (IH (f_ends (buf f) r f)); [done| |rewrite length_drop; lia|lia|done|iosimpl; lia|lia|].
  - intros i c Hi. rewrite Hm.
    + rewrite lookup_drop in Hi. specialize (Hl _ _ Hi). rewrite Hfk. by replace (ptr + Z.of_nat k + Z.of_nat i) with (ptr + Z.of_nat (k + i)) by lia.
    + rewrite Hfk. apply lookup_lt_Some in Hi. rewrite length_drop in Hi. unfold flen in Hd. lia.
  - intros s3 ((r3 & Hr3) & Hk3 & Hm3 & Ho3). apply HQ. iosimpl_in Hm3. split_and!.
    + exists r3. destruct f. exact Hr3.
    + rewrite Hk3, Hkern. by destruct f.
    + intros x Hx. rewrite Hm3 by (destruct f; done). by apply Hm.
    + intros q Hq. rewrite Ho3 by done. by apply Ho.
Qed.

(** C26: [fwrite] on a line buffered stream with an empty buffer: when no line is
    longer than the buffer ([fwrite_overflow_drops] is a longer one) and the
    kernel takes every write whole ([Accepting]), the kernel gets the text line by
    line, in order and complete, the buffer is empty again, and nothing but the
    buffer and the stream has changed. *)
Theorem fwrite_line_buffered p f ptr size nmemb l s :
  Z.land (flags f) STREAM_MODEMASK = IOLBF -> stream_rep s p f [] -> holds (mem s) ptr l -> 0 < ptr ->
  size * nmemb = flen l -> flen l < 2 ^ 64 -> Forall (fun x => flen x <= capacity f) (lines l) ->
  ptr + flen l <= buf f \/ bufEnd f <= ptr ->
  wp (fwrite ptr size nmemb p) s (fun r s' => r = nmemb /\ concat (lines l) = l /\
    idle s p f (fold_left (fun k x => emit (fd f) x k) (lines l) (kern s)) s').
Proof.
  intros Hmode Hs Hl Hptr Hsz Hn Hcap Hd. pose proof Hs as (Hp & _). unfold fwrite.
  apply wp_bind, (wp_getFile p f); [done|]. rewrite Hmode. cbn [Z.eqb IOLBF Pos.eqb].
  rewrite Hsz, uwrap_small by (unfold flen in *; lia). apply wp_bind.
  apply (writeLines_spec _ p f ptr l); [done|done|unfold flen; lia|done|done|done|done|].
  intros s' Hs'. apply wp_ret. split_and!; [done|apply lines_concat|done].
Qed.

(** Several calls of [fwrite], each with a piece of memory. *)
Fixpoint writeAll (pieces : list (Z * list Z)) (p : Z) : M (lib K U) unit :=
  match pieces with
  | [] => mret tt
  | (ptr, l) :: pieces => fwrite ptr 1 (flen l) p;; writeAll pieces p
  end.
Definition readable (f : FILE) (m : gmap Z Z) (pc : Z * list Z) : Prop :=
  holds m pc.1 pc.2 /\ flen pc.2 < 2 ^ 64 /\ (pc.1 + flen pc.2 <= buf f \/ bufEnd f <= pc.1).

Lemma readable_frame f m m' pc : readable f m pc -> (forall x, ~ buf f <= x < bufEnd f -> m' !! x = m !! x) -> readable f m' pc.
Proof.
  intros (Hh & Hn & Hd) Hm. split_and!; [|done|done]. intros i c Hi. rewrite Hm; [by apply Hh|].
  apply lookup_lt_Some in Hi. unfold flen in Hd. lia.
Qed.

(** On a fully buffered stream the pieces are collected, and the kernel gets
    their concatenation in one write when the stream is flushed. *)
Theorem fully_buffered p f pend pieces s :
  Z.land (flags f) STREAM_MODEMASK = IOFBF -> stream_rep s p f pend -> Forall (readable f (mem s)) pieces ->
  flen (pend ++ concat (pieces.*2)) <= capacity f ->
  wp (writeAll pieces p;; fflush p) s (fun r s' => r = 0 /\ kern s' = sent (fd f) (pend ++ concat (pieces.*2)) (kern s) /\
    exists f', stream_rep s' p f' [] /\ fd f' = fd f /\ buf f' = buf f).
Proof.
  revert f pend s. induction pieces as [|[ptr l] pieces IH]; intros f pend s Hmode Hs Hr Hcap; cbn [writeAll].
  - apply wp_bind, wp_ret. cbn [fmap list_fmap concat] in *. rewrite app_nil_r in *. wp_use (fflush_spec p f pend s Hs).
    intros r s' (-> & ->). split; [done|]. split; [by rewrite flushed_kern|].
    destruct (flushed_rep p f pend s Hs) as (r & Hr' & _). by exists (f_ends (buf f) r f).
  - inversion Hr as [|? ? (Hh & Hn & Hd) Hr']; subst. cbn [fst snd] in *. cbn [fmap list_fmap concat snd] in *.
    rewrite app_assoc in *. unfold flen in Hcap. rewrite length_app in Hcap. pose proof Hs as (Hp & _).
    apply wp_bind, wp_bind. unfold fwrite. apply wp_bind, (wp_getFile p f); [done|]. rewrite Hmode. cbn [Z.eqb IOLBF IOFBF Pos.eqb].
    apply (fwriteFBF_fits p f pend ptr 1 (flen l) l); [done|done|rewrite Z.mul_1_l, uwrap_small; [done|unfold flen in *; lia]| |done|].
    { unfold flen. rewrite length_app in Hcap. lia. }
    intros m Hs1 Hm. set (f1 := f_ends (writeEnd f + flen l) (readEnd f) f) in *.
    pose proof (IH f1 (pend ++ l) (appended s p f (flen l) m) Hmode Hs1) as HI. rewrite wp_bind in HI. wp_use HI.
    + eapply Forall_impl; [exact Hr'|]. intros pc Hpc. by apply (readable_frame f1 (mem s)).
    + unfold flen. rewrite length_app. exact Hcap.
    + intros _ s1 HQ. wp_use HQ. intros r s' (-> & Hk & f' & Hf'). split; [done|]. split; [exact Hk|]. by exists f'.
Qed.

(** When the data do not fit the buffer, the first part of them is copied
    behind the pending bytes, but [writeEnd] is not advanced before the flush:
    [fwrite] reports success, and those bytes are neither written nor kept. *)
Theorem fwrite_overflow_drops p f pend ptr l s :
  let w := Z.to_nat (capacity f - flen pend) in
  Z.land (flags f) STREAM_MODEMASK = IOFBF -> stream_rep s p f pend -> holds (mem s) ptr l -> flen l < 2 ^ 64 ->
  capacity f < flen pend + flen l <= 2 * capacity f -> ptr + flen l <= buf f \/ bufEnd f <= ptr ->
  wp (fwrite ptr 1 (flen l) p) s (fun r s' => r = flen l /\ kern s' = sent (fd f) pend (kern s) /\
    exists f', stream_rep s' p f' (drop w l)).
Proof.
  intros w Hmode Hs Hl Hn Hcap Hd. pose proof Hs as (Hp & Hroom & Hh & Hw & Hc). unfold fwrite.
  apply wp_bind, (wp_getFile p f); [done|]. rewrite Hmode. cbn [Z.eqb IOLBF IOFBF Pos.eqb]. unfold fwriteFBF.
  apply wp_bind, (wp_getFile p f); [done|]. rewrite Z.mul_1_l, uwrap_small by (unfold flen in *; lia). unfold capacity in *.
  assert (Hnn : 0 <= flen pend) by (unfold flen; lia).
  destruct (Z.gtb_spec (flen l) (bufEnd f - writeEnd f)); [|lia]. set (ws := bufEnd f - writeEnd f) in *.
  assert (Hws : ws = Z.of_nat w) by (unfold w; lia).
  apply wp_bind, wp_onMemory. wp_use (memcpy_spec (writeEnd f) ptr ws (mem s)); [lia| | |lia|].
  { intros x Hx. eapply holds_room; [exact Hl|]. unfold flen in *. lia. } { intros x Hx. apply Hroom. lia. }
  intros r m (-> & Hcp). set (s1 := set_mem m s).
  assert (Hs1 : stream_rep s1 p f pend).
  { split_and!; [done| | |done|done].
    - intros x Hx. destruct (decide (writeEnd f <= x < writeEnd f + ws)) as [Hi|Ho].
      + replace x with (writeEnd f + (x - writeEnd f)) by lia. cbn [s1 mem set_mem]. rewrite (proj1 Hcp) by lia.
        eapply holds_room; [exact Hl|]. unfold flen in *. lia.
      + cbn [s1 mem set_mem]. rewrite (proj2 Hcp) by done. by apply Hroom.
    - intros i c Hi. cbn [s1 mem set_mem]. rewrite (proj2 Hcp); [by apply Hh|]. apply lookup_lt_Some in Hi. unfold flen in *. lia. }
  apply wp_bind. wp_use (fflush_spec p f pend s1 Hs1). intros r s2 (-> & ->). cbn [Z.eqb negb].
  destruct (flushed_rep p f pend s1 Hs1) as (r & Hs2 & _). pose proof Hs2 as (Hp2 & _).
  apply wp_bind, (wp_getFile p (f_ends (buf f) r f)); [exact Hp2|]. iosimpl.
  assert (Hdl : flen l - ws = flen (drop w l)) by (unfold flen; rewrite length_drop; unfold flen in *; lia).
  destruct (Z.gtb_spec (flen l - ws) (bufEnd f - buf f)); [lia|]. rewrite Hdl.
  assert (Hl2 : holds (mem (flushed s1 p f pend)) (ptr + ws) (drop w l)).
  { rewrite flushed_mem. intros i c Hi. cbn [s1 mem set_mem]. pose proof (lookup_lt_Some _ _ _ Hi) as Hlt. rewrite length_drop in Hlt.
    rewrite (proj2 Hcp) by (unfold flen in *; lia). rewrite lookup_drop in Hi. specialize (Hl _ _ Hi).
    by replace (ptr + ws + Z.of_nat i) with (ptr + Z.of_nat (w + i)) by lia. }
  set (f2 := f_ends (buf f) r f) in *. set (s2 := flushed s1 p f pend) in *.
  assert (Ha : wp (onMemory (memcpy (writeEnd f2) (ptr + ws) (flen (drop w l)));; updFile p (fun f => f_ends (writeEnd f + flen (drop w l)) (readEnd f) f)) s2
    (fun _ s' => wp (mret (flen l)) s' (fun r s' => r = flen l /\ kern s' = sent (fd f) pend (kern s) /\ exists f', stream_rep s' p f' (drop w l)))).
  { apply (append_spec p f2 []); [done|done| | |].
    - unfold f2, capacity, flen in *. iosimpl. simpl. lia.
    - unfold f2. iosimpl. lia.
    - intros m2 Hs3 _. apply wp_ret. split_and!; [done| |by exists (f_ends (writeEnd f2 + flen (drop w l)) (readEnd f2) f2)].
      unfold appended, s2. iosimpl. by rewrite flushed_kern. }
  rewrite wp_bind in Ha. apply wp_bind. wp_use Ha. intros r3 s3 Hs3. apply wp_bind. exact Hs3.
Qed.

(** A character that was pushed back is never taken out: every [fgetc] gives
    it again, without asking the kernel. *)
Theorem ungetc_never_consumed p f c local s :
  streams s !! p = Some f -> cbuf f = c -> 0 <= c < 128 -> room (mem s) local 4 ->
  wp (fgetc local p) s (fun r s' => r = c /\ streams s' = streams s /\ kern s' = kern s /\ room (mem s') local 4).
Proof.
  intros Hp Hc Hrange Hroom. unfold fgetc. apply wp_bind, wp_onMemory.
  wp_use (writeWord8_spec [0; 0; 0; 0] local (mem s) Hroom). intros _ m (Hm & _).
  apply wp_bind. unfold fread. change (u64 (1 * 1)) with 1. cbn [Z.eqb Pos.eqb].
  apply wp_bind, (wp_getFile p f); [done|]. rewrite Hc. destruct (Z.eqb_spec c EOF) as [E|_]; [unfold EOF in E; lia|]. cbn [negb andb Z.sub Z.eqb Z.add Z.opp Z.pos_sub Pos.eqb].
  assert (H4 : forall i : Z, 0 <= i < 4 -> m !! (local + i) = Some 0).
  { intros i Hi. specialize (Hm (Z.to_nat i) 0). rewrite Z2Nat.id in Hm by lia. apply Hm.
    assert (Hc4 : i = 0 \/ i = 1 \/ i = 2 \/ i = 3) by lia. by destruct Hc4 as [->|[->|[->| ->]]]. }
  rewrite swrap_small by lia. apply wp_bind, wp_onMemory, wp_wr.
  { exists 0. cbn [mem set_mem]. rewrite <- (Z.add_0_r local). by apply H4. }
  apply wp_ret. destruct (Z.eqb_spec 1 0); [lia|]. apply wp_bind, wp_onMemory. cbn [mem set_mem].
  assert (Hh : holds (<[local := c]> m) local [c; 0; 0; 0]).
  { intros [|[|[|[|i]]]] x Hx; try (injection Hx as <-); try done; [by rewrite Z.add_0_r, lookup_insert_eq|..];
      rewrite lookup_insert_ne by lia; apply H4; lia. }
  assert (Hr4 : room (<[local := c]> m) local 4) by (by apply (holds_room _ _ [c; 0; 0; 0])).
  wp_use (readWord8_spec 4 local (<[local := c]> m) Hr4). intros l m' (-> & Hlen & Hl).
  assert (l = [c; 0; 0; 0]) as ->.
  { apply list_eq. intros i. destruct (decide (i < 4)%nat) as [Hi|Hi]; [|rewrite !lookup_ge_None_2 by (simpl; lia); done].
    destruct (lookup_lt_is_Some_2 l i) as [x Hx]; [lia|]. destruct (lookup_lt_is_Some_2 [c; 0; 0; 0] i) as [y Hy]; [simpl; lia|].
    specialize (Hl _ _ Hx). specialize (Hh _ _ Hy). congruence. }
  apply wp_ret. cbn [fold_right]. change (u8 0) with 0. rewrite Z.mul_0_r, Z.add_0_r, uwrap_small, swrap_small by lia. done.
Qed.

(** [fputs] takes the count 0 of an empty string for an error, so [puts] of an
    empty string prints no newline and reports a failure. *)
Theorem puts_empty_fails f local a fuel s :
  streams s !! STDOUT = Some f -> Z.land (flags f) STREAM_MODEMASK = IOLBF -> cstr (mem s) a [] ->
  wp (puts (S fuel) local a) s (fun r s' => r = -1 /\ s' = s).
Proof.
  intros Hp Hm Ha. apply cstr_nil in Ha. unfold puts, fputs. apply wp_bind, wp_bind, wp_onMemory.
  unfold strlen. cbn [strlenFrom]. apply wp_bind, wp_rd. exists 0. split; [done|]. apply wp_ret.
  assert (E : set_mem (mem s) s = s) by (by destruct s). rewrite E. apply wp_bind. unfold fwrite.
  apply wp_bind, (wp_getFile STDOUT f); [done|]. rewrite Hm. cbn [Z.eqb IOLBF Pos.eqb].
  change (u64 (1 * 0)) with 0. apply wp_bind, wp_ret, wp_ret, wp_ret. cbn [Z.eqb negb]. by apply wp_ret.
Qed.
End output.

Section witnesses.
(** A kernel that keeps a list of the writes; it has no other files. *)
Definition loadBytes (m : gmap Z Z) (a n : Z) : list Z := (fun i => default 0 (m !! (a + i))) <$> seqZ 0 n.
#[local] Instance log_kernel : Syscalls (list (Z * list Z)) := {
  sysWrite n a size m k := (0, k ++ [(n, loadBytes m a size)]); sysRead _ _ _ m k := (0, m, k);
  sysOpen _ _ k := (-1, k); sysClose _ k := (0, k); sysSeek _ _ _ k := (0, k); sysIoctl _ _ _ k := (-1, k);
  sysUnlink _ k := (-1, k); sysRename _ _ k := (-1, k); sysWaitPid _ k := (0, 0, k)
}.
#[local] Instance no_malloc : Malloc unit := { malloc _ u := (0, u); free _ u := u }.

Lemma loadBytes_holds m a l : holds m a l -> loadBytes m a (flen l) = l.
Proof.
  intros Hh. apply list_eq. intros i. unfold loadBytes. rewrite list_lookup_fmap.
  destruct (decide (i < length l)%nat) as [Hi|Hi].
  - rewrite lookup_seqZ_lt by (unfold flen; lia). cbn [fmap option_fmap option_map].
    destruct (lookup_lt_is_Some_2 l i Hi) as [c Hc]. by rewrite Z.add_0_l, Hc, (Hh _ _ Hc).
  - rewrite lookup_seqZ_ge by (unfold flen; lia). by rewrite lookup_ge_None_2 by lia.
Qed.
#[local] Instance log_accepts : Accepting (K := list (Z * list Z)).
Proof. refine {| emit n l k := k ++ [(n, l)] |}. intros n a l m k Hh. unfold sysWrite, log_kernel. by rewrite loadBytes_holds. Defined.

(** Three streams with a buffer of 8 bytes at 100, and text at 200. *)
Definition io_text : list Z := [97; 98; 10; 99; 100; 101].
Fixpoint store (l : list Z) (a : Z) (m : gmap Z Z) : gmap Z Z :=
  match l with [] => m | c :: l => <[a := c]> (store l (a + 1) m) end.
Definition io_mem : gmap Z Z := store (replicate 16 0) 100 (store (io_text ++ [0]) 200 (store [0; 0; 0; 0] 300 ∅)).
Definition io_stream (fl cb : Z) : FILE := mkFILE 1 fl 0 cb 0 100 108 100 100 0 0.
Definition io_state (fl cb : Z) : lib (list (Z * list Z)) unit :=
  mkLib io_mem (<[STDOUT := io_stream fl cb]> ∅) STDOUT STDOUT 0 [] tt.

Lemma io_room a n : (forallb (fun i => bool_decide (is_Some (io_mem !! (a + Z.of_nat i)))) (seq 0 n)) = true -> room io_mem a (Z.of_nat n).
Proof.
  intros Hb x Hx. rewrite forallb_forall in Hb. specialize (Hb (Z.to_nat (x - a))). rewrite bool_decide_eq_true in Hb.
  replace (a + Z.of_nat (Z.to_nat (x - a))) with x in Hb by lia. apply Hb, in_seq. lia.
Qed.
Lemma io_rep fl cb : stream_rep (io_state fl cb) STDOUT (io_stream fl cb) [].
Proof.
  split_and!; [done|by apply (io_room 100 8)|intros i c Hi; by rewrite lookup_nil in Hi|done|done].
Qed.
Lemma io_text_at : holds io_mem 200 io_text.
Proof. intros i c Hi. do 6 (destruct i as [|i]; [by injection Hi as <-|]). done. Qed.

Lemma fwrite_line_buffered_witness :
  wp (fwrite 200 2 3 STDOUT) (io_state IOLBF EOF) (fun r s' => r = 3 /\ concat (lines io_text) = io_text /\
    idle (io_state IOLBF EOF) STDOUT (io_stream IOLBF EOF) [(1, [97; 98; 10]); (1, [99; 100; 101])] s').
Proof.
  assert (Hc : Forall (fun x => flen x <= capacity (io_stream IOLBF EOF)) (lines io_text)) by (repeat constructor; by vm_compute).
  eapply wp_mono; [apply (fwrite_line_buffered STDOUT (io_stream IOLBF EOF) 200 2 3 io_text); [done|apply io_rep|exact io_text_at|done..|exact Hc|]|].
  - right. by vm_compute.
  - intros r s' Hs'. exact Hs'.
Defined.

Lemma fully_buffered_witness :
  wp (writeAll [(200, take 3 io_text); (203, drop 3 io_text)] STDOUT;; fflush STDOUT) (io_state IOFBF EOF) (fun r s' =>
    r = 0 /\ kern s' = [(1, io_text)] /\ exists f', stream_rep s' STDOUT f' [] /\ fd f' = 1 /\ buf f' = 100).
Proof.
  eapply wp_mono; [apply (fully_buffered STDOUT (io_stream IOFBF EOF) [] [(200, take 3 io_text); (203, drop 3 io_text)]);
    [done|apply io_rep| |by vm_compute]|intros r s' Hs'; exact Hs'].
  constructor; [split_and!; [|by vm_compute|right; by vm_compute]|constructor; [split_and!; [|by vm_compute|right; by vm_compute]|constructor]].
  - apply holds_prefix, io_text_at.
  - intros i c Hi. cbn [fst snd] in *. rewrite lookup_drop in Hi. apply io_text_at in Hi.
    by replace (203 + Z.of_nat i) with (200 + Z.of_nat (3 + i)) by lia.
Defined.

Lemma fwrite_overflow_drops_witness :
  wp (fwrite 200 1 6 STDOUT) (mkLib io_mem (<[STDOUT := mkFILE 1 IOFBF 0 EOF 0 100 104 102 100 0 0]> ∅) STDOUT STDOUT 0 [] tt) (fun r s' =>
    r = 6 /\ kern s' = [(1, [0; 0])] /\ exists f', stream_rep s' STDOUT f' [10; 99; 100; 101]).
Proof.
  eapply wp_mono; [apply (fwrite_overflow_drops STDOUT (mkFILE 1 IOFBF 0 EOF 0 100 104 102 100 0 0) [0; 0] 200 io_text)|intros r s' Hs'; exact Hs'].
  - done.
  - split_and!; [done|by apply (io_room 100 4)| |done|done]. intros i c Hi. do 2 (destruct i as [|i]; [by injection Hi as <-|]). done.
  - exact io_text_at.
  - done.
  - by vm_compute.
  - right. by vm_compute.
Defined.

Lemma ungetc_never_consumed_witness :
  wp (fgetc 300 STDOUT) (io_state IOLBF 65) (fun r s' =>
    r = 65 /\ streams s' = streams (io_state IOLBF 65) /\ kern s' = [] /\ room (mem s') 300 4).
Proof.
  eapply wp_mono; [apply (ungetc_never_consumed STDOUT (io_stream IOLBF 65) 65 300 (io_state IOLBF 65)); [done|done|lia|]|intros r s' Hs'; exact Hs'].
  by apply (io_room 300 4).
Defined.

Lemma puts_empty_fails_witness :
  wp (puts 5 300 206) (io_state IOLBF EOF) (fun r s' => r = -1 /\ s' = io_state IOLBF EOF).
Proof.
  eapply wp_mono; [apply (puts_empty_fails (io_stream IOLBF EOF)); [done|done|by apply cstr_nil]|intros r s' Hs'; exact Hs'].
Defined.
End witnesses.
