(* ===== verification/Strtod.v ===== *)
(** * Numbers of the C library: [phlibc/src/floatops.c]

    [strtod] over the byte memory of [CString], with the floats of the
    reference model of the standard library. *)

From Stdlib Require Import SpecFloat.
From S2P Require Import Prelude Word Errno CString.

(** Results in [double] and in [float]. *)
Definition dbl (n : Z) : spec_float := binary_normalize 53 1024 n 0 false.
Definition flt (n : Z) : spec_float := binary_normalize 24 128 n 0 false.
Definition widen (x : spec_float) : spec_float :=
  match x with S754_finite s m e => binary_normalize 53 1024 (cond_Zopp s (Zpos m)) e s | _ => x end.

(** [while (s != end)], with [long] arithmetic. *)
Fixpoint parseIntFrom (fuel : nat) (s e ret : Z) : M (gmap Z Z) Z :=
  match fuel with
  | O => nofuel
  | S fuel => if s =? e then mret ret else c ← rd s; parseIntFrom fuel (s + 1) e (s64 (s64 (ret * 10) + (c - 48)))
  end.
Definition parseInt (fuel : nat) (s e : Z) : M (gmap Z Z) Z := parseIntFrom fuel s e 0.

Fixpoint skipSpace (fuel : nat) (s : Z) : M (gmap Z Z) Z :=
  match fuel with
  | O => nofuel
  | S fuel => c ← rd s; if isspace c then skipSpace fuel (s + 1) else mret s
  end.
(** The loop that finds the parts: [radix], [expSym] (0 for [NULL]) and [end];
    [None] is the error. *)
Fixpoint findParts (fuel : nat) (e radix expSym : Z) : M (gmap Z Z) (option (Z * Z * Z)) :=
  match fuel with
  | O => nofuel
  | S fuel =>
      c ← rd e;
      if c =? 0 then mret (Some (radix, expSym, e))
      else if c =? 46 then
        if (radix =? 0) && (expSym =? 0) then findParts fuel (e + 1) e expSym else mret None
      else if (c =? 69) || (c =? 101) then
        if expSym =? 0 then findParts fuel (e + 1) radix e else mret None
      else if negb (isdigit c) then mret (Some (radix, expSym, e))
      else findParts fuel (e + 1) radix expSym
  end.
Fixpoint fraction (fuel : nat) (i expSym : Z) (ret div : spec_float) : M (gmap Z Z) spec_float :=
  match fuel with
  | O => nofuel
  | S fuel =>
      if i =? expSym then mret ret
      else c ← rd i;
        fraction fuel (i + 1) expSym (SFadd 53 1024 ret (SFdiv 53 1024 (dbl (c - 48)) div)) (SFmul 53 1024 div (dbl 10))
  end.
(** [retmul] after the loop over the bits of [exp]; a negative [long] never gets 0. *)
Fixpoint powers (fuel : nat) (exp : Z) (mul retmul : spec_float) : M (gmap Z Z) spec_float :=
  match fuel with
  | O => nofuel
  | S fuel =>
      if exp =? 0 then mret retmul
      else powers fuel (Z.shiftr exp 1) (SFmul 24 128 mul mul) (if Z.land exp 1 =? 0 then retmul else SFmul 24 128 retmul mul)
  end.

(** The value, [*endp] when it is written, and [errno] when it is set. *)
Record strtodResult := mkStrtod { value : spec_float; endp : option Z; newErrno : option Z }.
Definition strtod (fuel : nat) (s : Z) : M (gmap Z Z) strtodResult :=
  s ← skipSpace fuel s;
  c ← rd s;
  let neg := c =? 45 in
  if negb neg && negb (c =? 43) && negb (isdigit c) && negb (c =? 46) then mret (mkStrtod (S754_zero false) None (Some EINVAL))
  else
    let s := if neg || (c =? 43) then s + 1 else s in
    parts ← findParts fuel s 0 0;
    match parts with
    | None => mret (mkStrtod (S754_zero false) None (Some EINVAL))
    | Some (radix, expSym, e) =>
        let expSym := if expSym =? 0 then e else expSym in
        let radix := if radix =? 0 then expSym else radix in
        n ← parseInt fuel s radix;
        ret ← (if radix =? expSym then mret (dbl n) else fraction fuel (radix + 1) expSym (dbl n) (dbl 10));
        let ret := if neg then SFopp ret else ret in
        if expSym =? e then mret (mkStrtod ret (Some e) None)
        else
          let i := expSym + 1 in
          c ← rd i;
          let expNeg := c =? 45 in
          if negb expNeg && negb (c =? 43) && negb (isdigit c) then mret (mkStrtod ret (Some e) None)
          else
            let i := if expNeg || (c =? 43) then i + 1 else i in
            exp ← parseInt fuel i e;
            retmul ← powers fuel exp (flt 10) (flt 1);
            mret (mkStrtod (if expNeg then SFdiv 53 1024 ret (widen retmul) else SFmul 53 1024 ret (widen retmul)) (Some e) None)
    end.

(** ** Properties *)

Definition digits (l : list Z) : Prop := Forall (fun c => isdigit c = true) l.
Definition decimal (l : list Z) : Z := foldl (fun acc c => acc * 10 + (c - 48)) 0 l.
Lemma decimal_snoc l c : decimal (l ++ [c]) = decimal l * 10 + (c - 48).
Proof. unfold decimal. by rewrite foldl_app. Qed.
Lemma isdigit_range c : isdigit c = true <-> 48 <= c <= 57.
Proof. unfold isdigit. rewrite andb_true_iff, !Z.leb_le. done. Qed.
Lemma decimal_from l acc : 0 <= acc -> digits l -> acc <= foldl (fun acc c => acc * 10 + (c - 48)) acc l.
Proof.
  revert acc. induction l as [|c l IH]; intros acc Ha Hd; [done|]. apply Forall_cons in Hd as [Hc%isdigit_range Hd]. cbn.
  specialize (IH (acc * 10 + (c - 48)) ltac:(lia) Hd). lia.
Qed.
Lemma parseIntFrom_digits fuel l s m acc : holds m s l -> digits l -> (length l < fuel)%nat -> 0 <= acc -> foldl (fun acc c => acc * 10 + (c - 48)) acc l < 2 ^ 63 ->
  wp (parseIntFrom fuel s (s + Z.of_nat (length l)) acc) m (fun r m' => r = foldl (fun acc c => acc * 10 + (c - 48)) acc l /\ m' = m).
Proof.
  revert fuel s acc. induction l as [|c l IH]; intros fuel s acc Hh Hd Hf Ha Hb; (destruct fuel as [|fuel]; [lia|]); cbn [parseIntFrom length] in *.
  - rewrite Z.add_0_r, Z.eqb_refl. by apply wp_ret.
  - rewrite (proj2 (Z.eqb_neq _ _)) by lia. apply holds_cons in Hh as [Hc Hh]. apply Forall_cons in Hd as [Hd1%isdigit_range Hd].
    cbn [foldl] in *. pose proof (decimal_from l (acc * 10 + (c - 48)) ltac:(lia) Hd).
    apply wp_bind, wp_rd. exists c. split; [done|]. rewrite (swrap_small 64 (acc * 10)), swrap_small by lia.
    replace (s + Z.of_nat (S (length l))) with (s + 1 + Z.of_nat (length l)) by lia. apply IH; [done|done|lia|lia|done].
Qed.
Lemma findParts_digits fuel l s m c : holds m s (l ++ [c]) -> digits l -> isdigit c = false -> c <> 46 -> c <> 69 -> c <> 101 -> (length l < fuel)%nat ->
  wp (findParts fuel s 0 0) m (fun r m' => r = Some (0, 0, s + Z.of_nat (length l)) /\ m' = m).
Proof.
  revert fuel s. induction l as [|d l IH]; intros fuel s Hh Hd Hc N1 N2 N3 Hf; (destruct fuel as [|fuel]; [lia|]); cbn [findParts length app] in *; apply holds_cons in Hh as [Hx Hh]; apply wp_bind, wp_rd.
  - exists c. split; [done|]. destruct (Z.eqb_spec c 0); [apply wp_ret; by rewrite Z.add_0_r|]. rewrite !(proj2 (Z.eqb_neq c _)) by done. cbn [orb]. rewrite Hc. apply wp_ret. by rewrite Z.add_0_r.
  - apply Forall_cons in Hd as [Hd1 Hd]. exists d. split; [done|]. pose proof (proj1 (isdigit_range d) Hd1). rewrite !(proj2 (Z.eqb_neq d _)) by lia. cbn [orb]. rewrite Hd1. cbn [negb].
    replace (s + Z.of_nat (S (length l))) with (s + 1 + Z.of_nat (length l)) by lia. apply IH; done || lia.
Qed.
Lemma skipSpace_spec fuel l s m c : holds m s (l ++ [c]) -> Forall (fun x => isspace x = true) l -> isspace c = false -> (length l < fuel)%nat ->
  wp (skipSpace fuel s) m (fun r m' => r = s + Z.of_nat (length l) /\ m' = m).
Proof.
  revert fuel s. induction l as [|d l IH]; intros fuel s Hh Hd Hc Hf; (destruct fuel as [|fuel]; [lia|]); cbn [skipSpace length app] in *; apply holds_cons in Hh as [Hx Hh]; apply wp_bind, wp_rd.
  - exists c. split; [done|]. rewrite Hc. apply wp_ret. by rewrite Z.add_0_r.
  - apply Forall_cons in Hd as [Hd1 Hd]. exists d. split; [done|]. rewrite Hd1. replace (s + Z.of_nat (S (length l))) with (s + 1 + Z.of_nat (length l)) by lia. apply IH; done || lia.
Qed.
Lemma isdigit_isspace c : isdigit c = true -> isspace c = false.
Proof. intros Hc%isdigit_range. unfold isspace. by rewrite !(proj2 (Z.eqb_neq c _)) by lia. Qed.
Lemma holds_tail m s l1 l2 : holds m s (l1 ++ l2) -> holds m (s + Z.of_nat (length l1)) l2.
Proof.
  intros Hh i c Hi. rewrite <- Z.add_assoc, <- Nat2Z.inj_add. apply Hh. rewrite lookup_app_r by lia. rewrite <- Hi. f_equal. lia.
Qed.
Lemma holds_head m s l1 l2 : holds m s (l1 ++ l2) -> holds m s l1.
Proof. intros Hh i c Hi. apply Hh. by apply lookup_app_l_Some. Qed.

(** The sign of a number. *)
Inductive sign := NoSign | Plus | Minus.
Definition signText (g : sign) : list Z := match g with NoSign => [] | Plus => [43] | Minus => [45] end.
Definition signed (g : sign) (x : spec_float) : spec_float := match g with Minus => SFopp x | _ => x end.

(** [strtod] of an integer, with white space before it, any sign, and any
    other character behind it: the value is the double nearest to the integer,
    and the end is behind its last digit. *)
Theorem strtod_integer fuel s m spaces g ds c rest :
  holds m s (spaces ++ signText g ++ ds ++ c :: rest) -> Forall (fun x => isspace x = true) spaces -> digits ds -> ds <> [] ->
  isdigit c = false -> c <> 46 -> c <> 69 -> c <> 101 -> decimal ds < 2 ^ 63 -> (length spaces + length ds < fuel)%nat -> 0 < s ->
  wp (strtod fuel s) m (fun r m' => m' = m /\ r = mkStrtod (signed g (dbl (decimal ds))) (Some (s + Z.of_nat (length spaces + length (signText g) + length ds))) None).
Proof.
  intros Hh Hsp Hd Hne Hc N1 N2 N3 Hb Hf Hs. set (p := s + Z.of_nat (length spaces)). set (q := p + Z.of_nat (length (signText g))).
  pose proof (holds_tail _ _ _ _ Hh) as Hg. fold p in Hg. pose proof (holds_tail _ _ _ _ Hg) as Hds. fold q in Hds.
  replace (s + Z.of_nat (length spaces + length (signText g) + length ds)) with (q + Z.of_nat (length ds)) by lia.
  destruct ds as [|d ds']; [done|]. set (ds := d :: ds') in *. assert (Hd0 : isdigit d = true) by (by apply Forall_cons in Hd as [? _]).
  assert (Hfirst : exists x, holds m s (spaces ++ [x]) /\ isspace x = false /\ m !! p = Some x /\ x = match g with NoSign => d | Plus => 43 | Minus => 45 end).
  { destruct g; cbn [signText app] in *; (eexists; split_and!; [|..|reflexivity]).
    1,4,7: eapply holds_head; rewrite <- app_assoc; exact Hh.
    1: by apply isdigit_isspace. 2,4: done. all: by apply holds_cons in Hg as [Hg _]. }
  destruct Hfirst as (x & Hx & Hxs & Hxm & Ex). unfold strtod. apply wp_bind. wp_use (skipSpace_spec fuel spaces s m x Hx Hsp Hxs); [lia|].
  fold p. intros r m' [-> ->]. apply wp_bind, wp_rd. exists x. split; [done|].
  assert (E1 : negb (x =? 45) && negb (x =? 43) && negb (isdigit x) && negb (x =? 46) = false).
  { rewrite Ex. destruct g; [|done|done]. rewrite Hd0. by rewrite andb_false_r. }
  rewrite E1. assert (E2 : (if (x =? 45) || (x =? 43) then p + 1 else p) = q).
  { unfold q. rewrite Ex. destruct g; [|done|done]. apply isdigit_range in Hd0. rewrite !(proj2 (Z.eqb_neq d _)) by lia. cbn. lia. }
  rewrite E2. apply wp_bind. wp_use (findParts_digits fuel ds q m c); [|done|done|done|done|done|lia|].
  { eapply holds_head. rewrite <- app_assoc. exact Hds. }
  intros r m' [-> ->]. change (0 =? 0) with true. cbv iota zeta. apply wp_bind. unfold parseInt. wp_use (parseIntFrom_digits fuel ds q m 0); [by eapply holds_head|done|lia|done|exact Hb|].
  intros r m2 [-> ->]. set (e := q + Z.of_nat (length ds)) in *. clearbody e. destruct (e =? e) eqn:Ee; [|by rewrite Z.eqb_refl in Ee]. apply wp_bind, wp_ret. apply wp_ret. split; [done|]. unfold decimal. f_equal. rewrite Ex. destruct g; [|done|done].
  apply isdigit_range in Hd0. by rewrite (proj2 (Z.eqb_neq d 45)) by lia.
Qed.

(** A sign in the exponent ends the number, and the digits of the exponent are
    then read from behind that end on: [1e-5] runs off the memory. *)
Definition textAt (a : Z) (l : list Z) : gmap Z Z := list_to_map (imap (fun i c => (a + Z.of_nat i, c)) l).
Theorem strtod_signed_exponent : strtod 100 1000 (textAt 1000 [49; 101; 45; 53; 0]) = Fault.
Proof. by vm_compute. Qed.
(** [0.5], [1.25] and [15e3]. *)
Theorem strtod_examples :
  wp (strtod 100 1000) (textAt 1000 [48; 46; 53; 0]) (fun r _ => value r = S754_finite false 4503599627370496 (-53)) /\
  wp (strtod 100 1000) (textAt 1000 [49; 46; 50; 53; 0]) (fun r _ => value r = S754_finite false 5629499534213120 (-52)) /\
  wp (strtod 100 1000) (textAt 1000 [49; 53; 101; 51; 0]) (fun r _ => value r = dbl 15000).
Proof. split_and!; by vm_compute. Qed.

Lemma strtod_integer_witness :
  wp (strtod 10 1000) (textAt 1000 [32; 45; 52; 50; 59; 0]) (fun r m' => m' = textAt 1000 [32; 45; 52; 50; 59; 0] /\
    r = mkStrtod (SFopp (dbl 42)) (Some 1004) None).
Proof.
  apply (strtod_integer 10 1000 (textAt 1000 [32; 45; 52; 50; 59; 0]) [32] Minus [52; 50] 59 [0]); try done.
  - intros i c Hi. do 6 (destruct i as [|i]; [by injection Hi as <-|]). done.
  - by repeat constructor.
  - by repeat constructor.
  - cbn. lia.
Defined.
