(* ===== verification/Programs.v ===== *)
(** * Programs and their surroundings: [stdlib.c], [exec.c], [popen.c],
    [dirent.c], [time.c] of [phlibc/src] and the command line of [sh/sh.c]

    The environment, the search for programs, commands that run in a child, and
    the thin layer over system calls, on the streams and the memory of
    [BufferedIO].  What the kernel does is the class [ProcCalls]; arrays of
    pointers ([environ], [argv]) are lists of addresses, [environ] with its
    final 0. *)

From S2P Require Import Prelude Word Errno CString BufferedIO.

Definition PATH_BUFFER : Z := 512.
Definition SYSGETID_PID : Z := 0.
Definition SYSGETID_PPID : Z := 1.
Definition SYSGETID_PGID : Z := 2.
Definition SYSGETID_SID : Z := 3.
Definition STDIN_FILENO : Z := 0.
Definition STDOUT_FILENO : Z := 1.

(** System calls on processes; a path is the text that the kernel reads. *)
Class ProcCalls (K : Type) := {
  sysAccess : list Z -> K -> Z * K;               (* AT_FDCWD, SYSACCESS_X *)
  sysExec : list Z -> list Z -> gmap Z Z -> K -> Z * K;
  sysFork : K -> Z * K;
  sysWait : Z -> Z -> K -> Z * Z * K;             (* result and [si_status] *)
  sysChDir : list Z -> K -> Z * K;
  sysGetId : Z -> Z -> K -> Z * K;
  sysSetpgid : Z -> Z -> K -> Z * K;
  sysSetsid : K -> Z * K;
  sysPipe : K -> Z * Z * K;                       (* the two descriptors *)
  sysDup : Z -> Z -> K -> K;
  sysGetDent : Z -> K -> Z * list Z * K           (* result and entry *)
}.

Section programs.
Context {K U : Type} `{Syscalls K} `{Malloc U} `{ProcCalls K}.
Notation libM := (M (lib K U)).

(** The text at an address. *)
Fixpoint textFrom (fuel : nat) (a : Z) : M (gmap Z Z) (list Z) :=
  match fuel with
  | O => nofuel
  | S fuel => c ← rd a; if c =? 0 then mret [] else l ← textFrom fuel (a + 1); mret (c :: l)
  end.
Fixpoint bytesFrom (n : nat) (a : Z) : M (gmap Z Z) (list Z) :=
  match n with O => mret [] | S n => c ← rd a; l ← bytesFrom n (a + 1); mret (c :: l) end.

(** ** [stdlib.c] *)

Fixpoint getenvFrom (env : list Z) (name nameLen : Z) : M (gmap Z Z) Z :=
  match env with
  | [] => fault
  | curEnv :: env =>
      if curEnv =? 0 then mret 0
      else
        r ← memcmp name curEnv nameLen;
        found ← (if r =? 0 then c ← rd (curEnv + nameLen); mret (c =? 61) else mret false);
        if found : bool then mret (curEnv + nameLen + 1) else getenvFrom env name nameLen
  end.
Definition getenv (fuel : nat) (environ : list Z) (name : Z) : M (gmap Z Z) Z :=
  nameLen ← strlen fuel name; getenvFrom environ name nameLen.

(** The two ways to report an error. *)
Definition negative (f : K -> Z * K) : libM Z := ret ← syscall f; if ret <? 0 then setErrno (s32 (- ret));; mret (-1) else mret ret.
Definition nonzero (f : K -> Z * K) : libM Z := ret ← syscall f; if negb (ret =? 0) then setErrno (s32 (- ret));; mret (-1) else mret 0.
Definition fork : libM Z := negative sysFork.
(** The result and [*wstatus]. *)
Definition waitpid (pid options : Z) : libM (Z * Z) :=
  rs ← syscall (sysWait pid options);
  if rs.1 <? 0 then setErrno (s32 (- rs.1));; mret (-1, rs.2) else mret (rs.1, rs.2).
Definition chdir (path : list Z) : libM Z := nonzero (sysChDir path).
Definition getpid : libM Z := syscall (sysGetId 0 SYSGETID_PID).
Definition getppid : libM Z := syscall (sysGetId 0 SYSGETID_PPID).
Definition setpgid (pid pgid : Z) : libM Z := nonzero (sysSetpgid pid pgid).
Definition getpgid (pid : Z) : libM Z := negative (sysGetId pid SYSGETID_PGID).
Definition setsid : libM Z := negative sysSetsid.
Definition getsid (pid : Z) : libM Z := negative (sysGetId pid SYSGETID_SID).
(** There is one locale. *)
Definition setlocale : libM Z := setErrno ENOSYS;; mret 0.

(** ** [exec.c] *)

(** The names that this file looks up, and the environment. *)
Context (environ : list Z) (PATH : Z).

(** A result is an error: a program that runs does not come back. *)
Definition execve (filename argv : list Z) : libM Z :=
  m ← gets mem;
  error ← syscall (sysExec filename argv m);
  setErrno (s32 (- error));;
  mret (-1).
Fixpoint searchPath (fuel : nat) (dir : Z) (name argv : list Z) : libM Z :=
  match fuel with
  | O => nofuel
  | S f =>
      dirEnd ← onMemory (strchrnul fuel dir 58);
      let dirLen := s32 (dirEnd - dir) in
      d ← onMemory (bytesFrom (Z.to_nat dirLen) dir);
      let buf := d ++ [47] ++ name in
      if PATH_BUFFER <=? Z.of_nat (length buf) then fault          (* char buf[512] *)
      else
        r ← syscall (sysAccess buf);
        if r =? 0 then execve buf argv
        else
          c ← onMemory (rd dirEnd);
          if c =? 0 then setErrno ENOENT;; mret (-1) else searchPath f (dirEnd + 1) name argv
  end.
Definition execvp (fuel : nat) (file : Z) (argv : list Z) : libM Z :=
  slash ← onMemory (strchr fuel file 47);
  if negb (slash =? 0) then name ← onMemory (textFrom fuel file); execve name argv
  else
    path ← onMemory (getenv fuel environ PATH);
    if path =? 0 then setErrno ENOENT;; mret (-1)
    else name ← onMemory (textFrom fuel file); searchPath fuel path name argv.
(** [args] are the variable arguments, up to the first [NULL]; the [NULL] is
    written behind the end of the array. *)
Definition execlp (fuel : nat) (file arg : Z) (args : list Z) : libM Z :=
  if 64 <=? Z.of_nat (length args) then setErrno E2BIG;; mret (-1)
  else execvp fuel file (arg :: args).

(** ** Words of a command: the same loop in [popen.c] and [sh.c] *)

(** [push] is what the caller does with the address of one more word. *)
Fixpoint splitFrom (push : list Z -> Z -> option (list Z)) (n : nat) (p : Z) (argv : list Z) : M (gmap Z Z) (option (list Z)) :=
  match n with
  | O => mret (Some argv)
  | S n =>
      c ← rd p;
      if c =? 32 then
        wr p 0;;
        d ← rd (p + 1);
        if negb (d =? 0) then
          match push argv (p + 1) with Some argv => splitFrom push n (p + 1) argv | None => mret None end
        else splitFrom push n (p + 1) argv
      else splitFrom push n (p + 1) argv
  end.
(** An array of [cap] pointers that needs its last one for [NULL]. *)
Definition pushBelow (cap : Z) (argv : list Z) (a : Z) : option (list Z) :=
  if Z.of_nat (length argv) + 1 =? cap then None else Some (argv ++ [a]).

(** ** [popen.c] *)

Inductive popenResult := Parent (f : Z) | ChildExits.
(** [commandBuf] is the address of the local array; [junk] are the descriptors
    when no pipe was made. *)
Definition popen (fuel : nat) (stale : FILE) (junkByte : Z) (commandBuf : Z) (junk : Z * Z) (command : Z) (mode : Z) : libM popenResult :=
  commandLen ← onMemory (strlen fuel command);
  onMemory (memcpy commandBuf command commandLen);;
  onMemory (wr (commandBuf + commandLen) 0);;            (* one behind the array *)
  argv ← onMemory (splitFrom (pushBelow 64) (Z.to_nat commandLen) commandBuf [commandBuf]);
  match argv with
  | None => setErrno E2BIG;; mret (Parent 0)
  | Some newArgv =>
      pipe ← (if negb (mode =? 32) then syscall (fun k => let '(a, b, k) := sysPipe k in ((a, b), k)) else mret junk);
      fflush STDOUT;;
      child ← fork;
      if child =? 0 then
        (if mode =? 114 then
           syscall (sysClose pipe.1);; syscall (sysClose STDOUT_FILENO);; syscall (fun k => (tt, sysDup pipe.2 STDOUT_FILENO k));; syscall (sysClose pipe.2);; mret tt
         else if mode =? 119 then
           syscall (sysClose pipe.2);; syscall (sysClose STDIN_FILENO);; syscall (fun k => (tt, sysDup pipe.1 STDIN_FILENO k));; syscall (sysClose pipe.1);; mret tt
         else mret tt);;
        execvp fuel commandBuf newArgv;;
        mret ChildExits
      else if negb (mode =? 32) then mret (Parent child)
      else
        f ← (fun s : lib K U => let '(p, u) := malloc sizeofFILE (arena s) in
               Done (p, set_arena u (if p =? 0 then s else set_streams (<[p := stale]> (streams s)) s)));
        n ← (if mode =? 114 then syscall (sysClose pipe.2);; mret pipe.1 else syscall (sysClose pipe.1);; mret pipe.2);
        updFile f (f_fd n);;
        b ← newBuffer junkByte BUFSIZ;
        last ← gets lastFile;
        updFile f (fun x => mkFILE (fd x) (Z.lor IOFBF (Z.lor (Z.shiftl 1 2) (Z.shiftl 1 5))) child EOF (seekOffset x) b (b + BUFSIZ) b b (next x) last);;
        updFile last (f_next f);;
        modify (set_last f);;
        mret (Parent f)
  end.
(** The result of [system]; the child never returns from it. *)
Definition system (fuel : nat) (stale : FILE) (junkByte commandBuf : Z) (junk : Z * Z) (command : Z) : libM (option Z) :=
  if command =? 0 then mret (Some 1)
  else
    r ← popen fuel stale junkByte commandBuf junk command 32;
    match r with
    | ChildExits => mret None
    | Parent f =>
        let child := s32 f in
        if child =? 0 then mret (Some 127)
        else rs ← waitpid child 0; mret (Some rs.2)
    end.

(** ** [sh.c]: what to do with a line *)

Inductive command := Nothing | ChangeDir (dir : option Z) | Leave | Run (argv : list Z).
(** [commandBuf] holds a line; [cd] and [exit] are the addresses of these words. *)
Definition readCommand (fuel : nat) (commandBuf cd exit : Z) : M (gmap Z Z) command :=
  commandLen ← strlen fuel commandBuf;
  wr (commandBuf + (commandLen - 1)) 0;;
  if commandLen - 1 =? 0 then mret Nothing
  else
    argv ← splitFrom (pushBelow 32) (Z.to_nat (commandLen - 1)) commandBuf [commandBuf];
    match argv with
    | None => fault                                        (* newArgv[32] *)
    | Some newArgv =>
        r ← memcmp commandBuf cd 3;
        if r =? 0 then mret (ChangeDir (newArgv !! 1%nat))
        else
          r ← memcmp commandBuf exit 5;
          if r =? 0 then mret Leave else mret (Run newArgv)
    end.

(** ** [dirent.c] *)

(** A [DIR] with its descriptor; the memory of a failed open is lost. *)
Definition O_DIRREAD : Z := Z.lor (Z.shiftl 1 1) (Z.shiftl 1 5).
Definition sizeofDIR : Z := 272.
Definition opendir (dirName : list Z) : libM (option (Z * Z)) :=
  dir ← (fun s : lib K U => let '(p, u) := malloc sizeofDIR (arena s) in Done (p, set_arena u s));
  if dir =? 0 then setErrno ENOMEM;; mret None
  else
    dirFD ← syscall (sysOpen dirName O_DIRREAD);
    if dirFD <? 0 then setErrno (s32 (- dirFD));; mret None else mret (Some (dir, dirFD)).
Definition readdir (dirFD : Z) : libM (option (list Z)) :=
  r ← syscall (sysGetDent dirFD);
  if r.1 <? 0 then setErrno (s32 (- r.1));; mret None
  else if r.1 =? 0 then mret None else mret (Some r.2).
Definition closedir (dir dirFD : Z) : libM Z := syscall (sysClose dirFD);; release dir;; mret 0.
Definition rewinddir (dirFD : Z) : libM unit := syscall (sysSeek dirFD 0 0);; mret tt.
End programs.

(** ** [time.c]: a number that counts the calls *)

Definition CLOCKS_PER_SEC : Z := 1000000.
Definition timeVar0 : Z := 1525702402.
Definition time : M Z Z := fun timeVar => Done (timeVar, s64 (timeVar + 1)).
Definition mktime : M Z Z := fun timeVar => Done (timeVar, s64 (timeVar + 1)).
Definition clock : M Z Z := gets (fun timeVar => s64 (timeVar * CLOCKS_PER_SEC)).
Definition random : M Z Z := fun timeVar => Done (timeVar, s64 (timeVar + 1)).
Definition rand : M Z Z := fun timeVar => Done (s32 timeVar, s64 (timeVar + 1)).
