(* ===== verification/ProgramsSpec.v ===== *)
(** * Finding and starting programs

    The environment as a list of definitions, the search along [PATH], and the
    words of a command line. *)

From S2P Require Import Prelude Word Errno CString BufferedIO Programs.
From S2P Require Strtod.

(** ** The environment *)

(** What a definition says about a name, and the first one that says something. *)
Definition definedIn (name e : list Z) : option (list Z) := if decide (name ++ [61] `prefix_of` e) then Some (drop (length name + 1) e) else None.
Fixpoint envValue (name : list Z) (env : list (list Z)) : option (list Z) :=
  match env with
  | [] => None
  | e :: env => match definedIn name e with Some v => Some v | None => envValue name env end
  end.

Lemma memcmp_prefix name e : forall a b m, holds m a name -> 0 ∉ name -> cstr m b e ->
  wp (memcmpLoop (length name) a b) m (fun r m' => m' = m /\ (r = 0 <-> name `prefix_of` e)).
Proof.
  revert e. induction name as [|x name IH]; intros e a b m Hn H0 He; cbn [length memcmpLoop].
  { apply wp_ret. split; [done|]. split; [intros _; apply prefix_nil|done]. }
  apply holds_cons in Hn as [Hx Hn]. apply not_elem_of_cons in H0 as [Hx0 H0]. apply wp_bind, wp_rd. exists x. split; [done|]. apply wp_bind, wp_rd. destruct e as [|y e].
  - apply cstr_nil in He. exists 0. split; [done|]. rewrite (proj2 (Z.eqb_neq _ 0)) by lia. cbn [negb]. apply wp_ret. split; [done|]. split; [lia|]. intros Hp. by apply prefix_nil_not in Hp.
  - apply cstr_cons in He as (Hy & Hy0 & He). exists y. split; [done|]. destruct (Z.eqb_spec (x - y) 0) as [E|E]; cbn [negb].
    + wp_use (IH e (a + 1) (b + 1) m Hn H0 He). intros r m' [-> Hr]. split; [done|]. assert (x = y) as -> by lia. rewrite Hr. split; [by apply prefix_cons|by intros ?%prefix_cons_inv_2].
    + apply wp_ret. split; [done|]. split; [lia|]. intros ?%prefix_cons_inv_1. lia.
Qed.
Lemma cstr_tail m a l1 l2 : cstr m a (l1 ++ l2) -> cstr m (a + Z.of_nat (length l1)) l2.
Proof.
  intros [Hh H0]. split; [|set_solver]. rewrite <- app_assoc in Hh. by apply Strtod.holds_tail in Hh.
Qed.
Lemma cstr_after m a name e : cstr m a e -> name `prefix_of` e -> wp (c ← rd (a + Z.of_nat (length name)); mret (c =? 61)) m (fun r m' => m' = m /\ (r = true <-> name ++ [61] `prefix_of` e)).
Proof.
  intros Hc [rest ->]. apply cstr_tail in Hc. apply wp_bind, wp_rd. destruct rest as [|c rest].
  - apply cstr_nil in Hc. exists 0. split; [done|]. apply wp_ret. split; [done|]. split; [done|]. intros Hp%prefix_app_inv. by apply prefix_nil_not in Hp.
  - apply cstr_cons in Hc as (Hc & _ & _). exists c. split; [done|]. apply wp_ret. split; [done|]. rewrite Z.eqb_eq. split; [intros ->; apply prefix_app; by apply prefix_cons, prefix_nil|].
    intros Hp%prefix_app_inv. by apply prefix_cons_inv_1 in Hp.
Qed.
Definition envAt (m : gmap Z Z) (a : Z) (e : list Z) : Prop := 0 < a /\ cstr m a e.
Lemma getenvFrom_spec env : forall addrs name nm m, holds m name nm -> 0 ∉ nm -> Forall2 (envAt m) addrs env ->
  wp (getenvFrom (addrs ++ [0]) name (Z.of_nat (length nm))) m (fun r m' => m' = m /\ match envValue nm env with Some v => 0 < r /\ cstr m r v | None => r = 0 end).
Proof.
  induction env as [|e env IH]; intros addrs name nm m Hn H0 Hes.
  { apply Forall2_nil_inv_r in Hes as ->. cbn. by apply wp_ret. }
  apply Forall2_cons_inv_r in Hes as (a & addrs' & [Ha He] & Hes & ->). cbn [app getenvFrom]. rewrite (proj2 (Z.eqb_neq a 0)) by lia.
  apply wp_bind. unfold memcmp. rewrite Nat2Z.id. wp_use (memcmp_prefix nm e name a m Hn H0 He). intros r m' [-> Hr].
  apply wp_bind, (wp_mono _ _ (fun b m' => m' = m /\ (b = true <-> nm ++ [61] `prefix_of` e))).
  { destruct (Z.eqb_spec r 0) as [E|E]; [apply cstr_after; [done|by apply Hr]|]. apply wp_ret. split; [done|]. split; [done|]. intros Hp%prefix_app_l. by apply Hr in Hp. }
  intros b m' [-> Hb]. cbn [envValue]. unfold definedIn. destruct b.
  - rewrite decide_True by (by apply Hb). apply wp_ret. split; [done|]. split; [lia|]. destruct (proj1 Hb eq_refl) as [v ->].
    apply cstr_tail in He. rewrite length_app in He. cbn [length] in He. rewrite drop_app_length' by (rewrite length_app; cbn; lia).
    by replace (a + Z.of_nat (length nm) + 1) with (a + Z.of_nat (length nm + 1)) by lia.
  - rewrite decide_False by (intros Hp; by apply Hb in Hp). by apply IH.
Qed.
Lemma holds_of_cstr m a l : cstr m a l -> holds m a l.
Proof. intros [Hh _]. by apply Strtod.holds_head in Hh. Qed.
Lemma getenv_spec fuel addrs env name nm m : cstr m name nm -> Forall2 (envAt m) addrs env -> (length nm < fuel)%nat ->
  wp (getenv fuel (addrs ++ [0]) name) m (fun r m' => m' = m /\ match envValue nm env with Some v => 0 < r /\ cstr m r v | None => r = 0 end).
Proof.
  intros Hn Hes Hf. unfold getenv. apply wp_bind. wp_use (strlenFrom_spec fuel nm name m 0 Hn Hf). intros r m' [-> ->]. rewrite Z.add_0_l.
  apply getenvFrom_spec; [by apply holds_of_cstr|by apply Hn|done].
Qed.

(** ** The search for a program *)

Lemma strchr_spec l : forall fuel s c m, cstr m s l -> 0 < s -> (length l < fuel)%nat ->
  wp (strchr fuel s c) m (fun r m' => m' = m /\ (r = 0 <-> c ∉ l \/ c = 0)).
Proof.
  induction l as [|x l IH]; intros fuel s c m Hs Hp Hf; (destruct fuel as [|fuel]; [lia|]); cbn [strchr length] in *; apply wp_bind, wp_rd.
  - apply cstr_nil in Hs. exists 0. split; [done|]. apply wp_ret. split; [done|]. split; [left; set_solver|done].
  - apply cstr_cons in Hs as (Hx & Hne & Hs). exists x. split; [done|]. rewrite (proj2 (Z.eqb_neq x 0)) by done. destruct (Z.eqb_spec x c) as [->|Hxc].
    + apply wp_ret. split; [done|]. split; [lia|]. intros [Hn|?]; [|done]. exfalso. apply Hn. by left.
    + wp_use (IH fuel (s + 1) c m Hs); [lia|lia|]. intros r m' [-> Hr]. split; [done|]. rewrite Hr, not_elem_of_cons. naive_solver.
Qed.
Lemma strchrnul_spec l1 : forall fuel s c m rest, cstr m s (l1 ++ rest) -> c ∉ l1 -> (rest = [] \/ head rest = Some c) -> (length l1 < fuel)%nat ->
  wp (strchrnul fuel s c) m (fun r m' => m' = m /\ r = s + Z.of_nat (length l1)).
Proof.
  induction l1 as [|x l IH]; intros fuel s c m rest Hs Hc Hr Hf; (destruct fuel as [|fuel]; [lia|]); cbn [strchrnul length app] in *; apply wp_bind, wp_rd.
  - destruct rest as [|y rest].
    + apply cstr_nil in Hs. exists 0. split; [done|]. apply wp_ret. split; [done|lia].
    + apply cstr_cons in Hs as (Hy & Hne & _). exists y. split; [done|]. rewrite (proj2 (Z.eqb_neq y 0)) by done. destruct Hr as [?|[= ->]]; [done|]. rewrite Z.eqb_refl. apply wp_ret. split; [done|lia].
  - apply cstr_cons in Hs as (Hx & Hne & Hs). exists x. split; [done|]. rewrite (proj2 (Z.eqb_neq x 0)) by done. apply not_elem_of_cons in Hc as [Hxc Hc]. rewrite (proj2 (Z.eqb_neq x c)) by done.
    wp_use (IH fuel (s + 1) c m rest Hs Hc Hr); [lia|]. intros r m' [-> ->]. split; [done|lia].
Qed.
Lemma textFrom_spec l : forall fuel a m, cstr m a l -> (length l < fuel)%nat -> wp (textFrom fuel a) m (fun r m' => r = l /\ m' = m).
Proof.
  induction l as [|c l IH]; intros fuel a m Hs Hf; (destruct fuel as [|fuel]; [lia|]); cbn [textFrom length] in *; apply wp_bind, wp_rd.
  - apply cstr_nil in Hs. exists 0. split; [done|]. by apply wp_ret.
  - apply cstr_cons in Hs as (Hc & Hne & Hs). exists c. split; [done|]. rewrite (proj2 (Z.eqb_neq c 0)) by done. apply wp_bind. wp_use (IH fuel (a + 1) m Hs); [lia|]. intros r m' [-> ->]. by apply wp_ret.
Qed.
Lemma bytesFrom_spec l : forall a m, holds m a l -> wp (bytesFrom (length l) a) m (fun r m' => r = l /\ m' = m).
Proof.
  induction l as [|c l IH]; intros a m Hs; cbn [bytesFrom length]; [by apply wp_ret|]. apply holds_cons in Hs as [Hc Hs]. apply wp_bind, wp_rd. exists c. split; [done|].
  apply wp_bind. wp_use (IH (a + 1) m Hs). intros r m' [-> ->]. by apply wp_ret.
Qed.

(** The directories of a path: texts without colon, with colons between them. *)
Fixpoint pathText (d : list Z) (ds : list (list Z)) : list Z := match ds with [] => d | d' :: ds => d ++ 58 :: pathText d' ds end.
Section search.
Context {K U : Type} `{Syscalls K} `{Malloc U} `{ProcCalls K}.
Implicit Types s : lib K U.
(** A kernel that can tell which files can be run, and does not change by it. *)
Context (runs : list Z -> bool) (Hruns : forall p k, exists e, sysAccess p k = (e, k) /\ (e = 0 <-> runs p = true)).

Lemma wp_readMemory {A} (m : M (gmap Z Z) A) s (P : A -> Prop) (Q : A -> lib K U -> Prop) :
  wp m (mem s) (fun a m' => P a /\ m' = mem s) -> (forall a, P a -> Q a s) -> wp (onMemory m) s Q.
Proof.
  unfold wp, onMemory. destruct (m (mem s)) as [[a m']| |]; [|done..]. intros [Ha ->] HQ. replace (set_mem (mem s) s) with s by (by destruct s). by apply HQ.
Qed.
Definition candidate (name d : list Z) : list Z := d ++ [47] ++ name.
(** What the search makes of the state. *)
Definition searched s (argv : list Z) (found : option (list Z)) : lib K U :=
  match found with
  | Some p => let '(e, k) := sysExec p argv (mem s) (kern s) in set_errno (s32 (- e)) (set_kern k s)
  | None => set_errno ENOENT s
  end.
Lemma execve_spec p argv s : wp (execve p argv) s (fun r s' => r = -1 /\ s' = searched s argv (Some p)).
Proof.
  unfold execve, searched. apply wp_bind, wp_gets, wp_bind. unfold wp, syscall. destruct (sysExec p argv (mem s) (kern s)) as [e k]. done.
Qed.
Lemma searchPath_spec ds : forall d fuel dir name argv s, cstr (mem s) dir (pathText d ds) -> Forall (fun d => 58 ∉ d) (d :: ds) -> (length (pathText d ds) + 1 < fuel)%nat ->
  Forall (fun d => Z.of_nat (length (candidate name d)) < PATH_BUFFER) (d :: ds) -> Z.of_nat (length (pathText d ds)) < 2 ^ 31 ->
  wp (searchPath fuel dir name argv) s (fun r s' => r = -1 /\ s' = searched s argv (find (fun p => runs p) (candidate name <$> d :: ds))).
Proof.
  induction ds as [|d' ds IH]; intros d fuel dir name argv s Hd Hcol Hf Hb Hl; (destruct fuel as [|fuel]; [lia|]); cbn [pathText] in *;
    apply Forall_cons in Hcol as [Hc Hcol]; apply Forall_cons in Hb as [Hb Hbs]; cbn [searchPath].
  all: apply wp_bind; eapply (wp_readMemory _ _ (fun r => r = dir + Z.of_nat (length d))).
  1: { wp_use (strchrnul_spec d (S fuel) dir 58 (mem s) []); [by rewrite app_nil_r|done|by left|lia|]. by intros r m' [-> ->]. }
  2: { wp_use (strchrnul_spec d (S fuel) dir 58 (mem s) (58 :: pathText d' ds)); [done|done|by right|rewrite length_app in Hf; cbn in Hf; lia|]. by intros r m' [-> ->]. }
  all: intros ? ->; assert (Hdl : Z.of_nat (length d) < 2 ^ 31) by (rewrite ?length_app in Hl; lia).
  all: replace (dir + Z.of_nat (length d) - dir) with (Z.of_nat (length d)) by lia; rewrite swrap_small by lia; rewrite Nat2Z.id.
  all: apply wp_bind; eapply (wp_readMemory _ _ (fun r => r = d)); [apply bytesFrom_spec; apply holds_of_cstr in Hd; by try (by apply Strtod.holds_head in Hd)|]; intros ? ->.
  all: change (d ++ [47] ++ name) with (candidate name d); rewrite (proj2 (Z.leb_gt _ _)) by exact Hb; apply wp_bind.
  all: destruct (Hruns (candidate name d) (kern s)) as (e & He & Hrun); unfold wp at 1, syscall at 1; rewrite He; replace (set_kern (kern s) s) with s by (by destruct s); cbn [fmap list_fmap find].
  all: destruct (runs (candidate name d)) eqn:Er; [rewrite (proj2 (Z.eqb_eq e 0)) by (by apply Hrun); apply execve_spec|rewrite (proj2 (Z.eqb_neq e 0)) by (intros Ez; by apply Hrun in Ez)].
  - apply wp_bind. eapply (wp_readMemory _ _ (fun r => r = 0)); [apply wp_rd; exists 0; split; [|done]; rewrite <- (app_nil_r d) in Hd; apply cstr_tail in Hd; by apply cstr_nil in Hd|].
    intros ? ->. cbn [Z.eqb find]. apply wp_bind, wp_modify. by apply wp_ret.
  - apply cstr_tail, cstr_cons in Hd as (Hx & _ & Hd).
    apply wp_bind. eapply (wp_readMemory _ _ (fun r => r = 58)); [apply wp_rd; by exists 58|]. intros ? ->. cbn [Z.eqb].
    rewrite length_app in Hf, Hl. cbn [length] in Hf, Hl. apply IH; done || lia.
Qed.

(** The directories in the value of [PATH]. *)
Fixpoint splitColon (l : list Z) : list Z * list (list Z) :=
  match l with
  | [] => ([], [])
  | c :: l => let '(d, ds) := splitColon l in if c =? 58 then ([], d :: ds) else (c :: d, ds)
  end.
Definition directories (l : list Z) : list (list Z) := (splitColon l).1 :: (splitColon l).2.
Lemma pathText_split l : pathText (splitColon l).1 (splitColon l).2 = l /\ Forall (fun d => 58 ∉ d) (directories l).
Proof.
  unfold directories. induction l as [|c l [IH1 IH2]]; [split; [done|repeat constructor; set_solver]|]. cbn [splitColon].
  destruct (splitColon l) as [d ds] eqn:E. cbn [fst snd] in *. apply Forall_cons in IH2 as [Hd Hds]. destruct (Z.eqb_spec c 58) as [->|Hne]; cbn [fst snd].
  - split; [cbn; by rewrite IH1|]. constructor; [set_solver|by constructor].
  - split; [|constructor; [set_solver|done]]. destruct ds; cbn in *; congruence.
Qed.
Definition nameOfPATH : list Z := [80; 65; 84; 72].
(** Where a program is looked for: a name with a slash is the file itself. *)
Definition programOf (env : list (list Z)) (name : list Z) : option (list Z) :=
  if decide (47 ∈ name) then Some name
  else match envValue nameOfPATH env with Some v => find (fun p => runs p) (candidate name <$> directories v) | None => None end.

(** C40: [execvp] runs the file itself when its name has a slash, and otherwise
    the first file with that name, in the order of the directories of [PATH],
    that can be run; it comes back only with an error, that of the kernel or
    [ENOENT] when there is none, and changes nothing else. *)
Theorem execvp_correct fuel addrs env PATH file name argv s :
  cstr (mem s) PATH nameOfPATH -> Forall2 (envAt (mem s)) addrs env -> 0 < file -> cstr (mem s) file name -> (length name < fuel)%nat -> (4 < fuel)%nat ->
  (forall v, envValue nameOfPATH env = Some v -> (length v + 1 < fuel)%nat /\ Z.of_nat (length v) < 2 ^ 31 /\ Forall (fun d => Z.of_nat (length (candidate name d)) < PATH_BUFFER) (directories v)) ->
  wp (execvp (addrs ++ [0]) PATH fuel file argv) s (fun r s' => r = -1 /\ s' = searched s argv (programOf env name)).
Proof.
  intros HP Henv Hf0 Hname Hf1 Hf2 Hv. unfold execvp, programOf. apply wp_bind. eapply (wp_readMemory _ _ (fun r => r = 0 <-> 47 ∉ name)).
  { wp_use (strchr_spec name fuel file 47 (mem s) Hname Hf0 Hf1). intros r m' [-> Hr]. split; [|done]. rewrite Hr. naive_solver. }
  intros slash Hs. destruct (decide (47 ∈ name)) as [Hin|Hin].
  - rewrite (proj2 (Z.eqb_neq slash 0)) by (intros E; by apply Hs in E). cbn [negb]. apply wp_bind. eapply (wp_readMemory _ _ (fun r => r = name)).
    { by apply textFrom_spec. }
    intros ? ->. apply execve_spec.
  - rewrite (proj2 (Z.eqb_eq slash 0)) by (by apply Hs). cbn [negb]. apply wp_bind.
    eapply (wp_readMemory _ _ (fun r => match envValue nameOfPATH env with Some v => 0 < r /\ cstr (mem s) r v | None => r = 0 end)).
    { eapply wp_mono; [by apply getenv_spec|]. cbv beta. intros r m' [-> Hr]. done. }
    intros path Hpath. destruct (envValue nameOfPATH env) as [v|]; [|rewrite Hpath; apply wp_bind, wp_modify; by apply wp_ret].
    destruct Hpath as [Hp0 Hp]. rewrite (proj2 (Z.eqb_neq path 0)) by lia. apply wp_bind. eapply (wp_readMemory _ _ (fun r => r = name)); [by apply textFrom_spec|]. intros ? ->.
    destruct (Hv v eq_refl) as (V1 & V2 & V3). destruct (pathText_split v) as [Ev Hcol]. rewrite <- Ev in Hp, V1, V2. by apply searchPath_spec.
Qed.
End search.

(** ** Words *)

Fixpoint lineText (w : list Z) (ws : list (list Z)) : list Z := match ws with [] => w | w' :: ws => w ++ 32 :: lineText w' ws end.
Fixpoint wordAddrs (p : Z) (w : list Z) (ws : list (list Z)) : list Z :=
  match ws with [] => [] | w' :: ws => let q := p + Z.of_nat (length w) + 1 in q :: wordAddrs q w' ws end.
Definition isWord (w : list Z) : Prop := w <> [] /\ 32 ∉ w.

Lemma length_wordAddrs ws : forall p w, length (wordAddrs p w ws) = length ws.
Proof. induction ws as [|w' ws IH]; intros p w; [done|]. cbn. by rewrite IH. Qed.
Lemma splitFrom_word push w : forall k p argv m, holds m p w -> 32 ∉ w -> splitFrom push (length w + k) p argv m = splitFrom push k (p + Z.of_nat (length w)) argv m.
Proof.
  induction w as [|c w IH]; intros k p argv m Hh Hs; [cbn; by rewrite Z.add_0_r|]. apply holds_cons in Hh as [Hc Hh]. apply not_elem_of_cons in Hs as [Hc32 Hs].
  cbn [length Nat.add splitFrom]. unfold mbind, M_bind, rd, deref. rewrite Hc. rewrite (proj2 (Z.eqb_neq c 32)) by done. rewrite IH by done. f_equal. lia.
Qed.
Lemma cstr_write m a l x v : cstr m a l -> x < a \/ a + Z.of_nat (length l) < x -> cstr (<[x := v]> m) a l.
Proof.
  intros [Hh H0] Hx. split; [|done]. eapply holds_frame; [exact Hh|]. intros y Hy. rewrite length_app in Hy. cbn in Hy. apply lookup_insert_ne. lia.
Qed.
Lemma cstr_frame m m' a l : cstr m a l -> (forall x, a <= x <= a + Z.of_nat (length l) -> m' !! x = m !! x) -> cstr m' a l.
Proof. intros [Hh H0] Hm. split; [|done]. eapply holds_frame; [exact Hh|]. intros y Hy. rewrite length_app in Hy. cbn in Hy. apply Hm. lia. Qed.
Lemma length_lineText w w' ws : length (lineText w (w' :: ws)) = (length w + S (length (lineText w' ws)))%nat.
Proof. cbn [lineText]. rewrite length_app. done. Qed.
Lemma splitFrom_words cap ws : forall w p argv m, Forall isWord (w :: ws) -> cstr m p (lineText w ws) -> Z.of_nat (length argv + length ws) < cap ->
  wp (splitFrom (pushBelow cap) (length (lineText w ws)) p argv) m (fun r m' => r = Some (argv ++ wordAddrs p w ws) /\ Forall2 (cstr m') (p :: wordAddrs p w ws) (w :: ws) /\
    forall x, x < p \/ p + Z.of_nat (length (lineText w ws)) <= x -> m' !! x = m !! x).
Proof.
  induction ws as [|w' ws IH]; intros w p argv m Hw Hl Hcap; apply Forall_cons in Hw as [[Hne H32] Hws].
  - cbn [lineText wordAddrs] in *. unfold wp. rewrite <- (Nat.add_0_r (length w)), splitFrom_word by (done || by apply holds_of_cstr). cbn. rewrite app_nil_r. split_and!; [done| |done]. constructor; [done|constructor].
  - rewrite length_lineText. cbn [lineText] in Hl. pose proof (holds_of_cstr _ _ _ Hl) as Hh. pose proof (Strtod.holds_head _ _ _ _ Hh) as Hhw.
    unfold wp. rewrite splitFrom_word by done. fold (wp (splitFrom (pushBelow cap) (S (length (lineText w' ws))) (p + Z.of_nat (length w)) argv) m (fun r m' => r = Some (argv ++ wordAddrs p w (w' :: ws)) /\ Forall2 (cstr m') (p :: wordAddrs p w (w' :: ws)) (w :: w' :: ws) /\
      forall x, x < p \/ p + Z.of_nat (length w + S (length (lineText w' ws))) <= x -> m' !! x = m !! x)).
    assert (Hw0 : 0 ∉ w) by (destruct Hl as [_ Hl0]; set_solver). apply cstr_tail, cstr_cons in Hl as (H32' & _ & Hrest). set (sp := p + Z.of_nat (length w)) in *.
    cbn [splitFrom]. apply wp_bind, wp_rd. exists 32. split; [done|]. cbn [Z.eqb Pos.eqb]. apply wp_bind, wp_wr; [by eexists|]. set (m1 := <[sp:=0]> m).
    assert (Hrest1 : cstr m1 (sp + 1) (lineText w' ws)) by (apply cstr_write; [done|lia]).
    pose proof Hws as Hws'. apply Forall_cons in Hws' as [[Hne' _] _]. destruct (lineText w' ws) as [|c rest] eqn:El; [destruct ws; cbn in El; [done|]; by destruct w'|]. rewrite <- El in *.
    pose proof Hrest1 as Hr1. rewrite El in Hr1. apply cstr_cons in Hr1 as (Hc & Hc0 & _). apply wp_bind, wp_rd. exists c. split; [done|]. rewrite (proj2 (Z.eqb_neq c 0)) by done. cbn [negb].
    unfold pushBelow at 1. cbn [length] in Hcap. rewrite (proj2 (Z.eqb_neq _ cap)) by lia.
    wp_use (IH w' (sp + 1) (argv ++ [sp + 1]) m1 Hws Hrest1); [rewrite length_app; cbn; lia|]. intros r m' (-> & Hall & Hout). cbn [wordAddrs]. fold sp. rewrite <- app_assoc. split_and!; [done| |].
    + constructor; [|done]. split; [|done]. apply holds_app.
      * eapply holds_frame; [exact Hhw|]. intros x Hx. rewrite Hout by lia. apply lookup_insert_ne. lia.
      * apply holds_cons. split; [|intros k x Hx; by rewrite lookup_nil in Hx]. fold sp. rewrite Hout by lia. apply lookup_insert_eq.
    + intros x Hx. rewrite Hout by lia. apply lookup_insert_ne. lia.
Qed.
Lemma memcmp_strings_snd l2 : forall l1 a b m, cstr m a l1 -> cstr m b l2 -> wp (memcmpLoop (S (length l2)) a b) m (fun r m' => m' = m /\ (r = 0 <-> l1 = l2)).
Proof.
  induction l2 as [|y l2 IH]; intros [|x l1] a b m H1 H2; cbn [length memcmpLoop].
  - apply cstr_nil in H1, H2. apply wp_bind, wp_rd. exists 0. split; [done|]. apply wp_bind, wp_rd. exists 0. split; [done|]. by apply wp_ret.
  - apply cstr_cons in H1 as (Hx & Hx0 & _). apply cstr_nil in H2. apply wp_bind, wp_rd. exists x. split; [done|]. apply wp_bind, wp_rd. exists 0. split; [done|].
    rewrite (proj2 (Z.eqb_neq _ 0)) by lia. apply wp_ret. split; [done|]. split; [lia|done].
  - apply cstr_nil in H1. apply cstr_cons in H2 as (Hy & Hy0 & _). apply wp_bind, wp_rd. exists 0. split; [done|]. apply wp_bind, wp_rd. exists y. split; [done|].
    rewrite (proj2 (Z.eqb_neq _ 0)) by lia. apply wp_ret. split; [done|]. split; [lia|done].
  - apply cstr_cons in H1 as (Hx & Hx0 & H1). apply cstr_cons in H2 as (Hy & Hy0 & H2). apply wp_bind, wp_rd. exists x. split; [done|]. apply wp_bind, wp_rd. exists y. split; [done|].
    destruct (Z.eqb_spec (x - y) 0); cbn [negb].
    + wp_use (IH l1 (a + 1) (b + 1) m H1 H2). intros r m' [-> Hr]. split; [done|]. assert (x = y) as -> by lia. rewrite Hr. split; [by intros ->|by intros [= ->]].
    + apply wp_ret. split; [done|]. split; [lia|]. intros [= ->]. lia.
Qed.

Definition cdWord : list Z := [99; 100].
Definition exitWord : list Z := [101; 120; 105; 116].
(** A text that does not meet [n] bytes at [a]. *)
Definition textApart (p n a : Z) (l : list Z) : Prop := a + Z.of_nat (length l) < p \/ p + n <= a.
(** The shell takes a line apart: every word of the line becomes a string of
    its own, in order, and the first one decides whether the line changes the
    directory, leaves the shell or runs a program with these arguments. *)
Theorem readCommand_correct fuel buf cd exit w ws m :
  let line := lineText w ws in let addrs := wordAddrs buf w ws in
  cstr m buf (line ++ [10]) -> Forall isWord (w :: ws) -> (length ws < 31)%nat -> (length line + 1 < fuel)%nat ->
  cstr m cd cdWord -> cstr m exit exitWord -> textApart buf (Z.of_nat (length line) + 2) cd cdWord -> textApart buf (Z.of_nat (length line) + 2) exit exitWord ->
  wp (readCommand fuel buf cd exit) m (fun r m' => Forall2 (cstr m') (buf :: addrs) (w :: ws) /\
    r = if decide (w = cdWord) then ChangeDir (head addrs) else if decide (w = exitWord) then Leave else Run (buf :: addrs)).
Proof.
  intros line addrs Hl Hw Hn Hf Hcd Hex Acd Aex. unfold readCommand. apply wp_bind. wp_use (strlenFrom_spec fuel (line ++ [10]) buf m 0 Hl); [rewrite length_app; cbn; lia|].
  intros r m' [-> ->]. rewrite length_app. cbn [length]. replace (0 + Z.of_nat (length line + 1) - 1) with (Z.of_nat (length line)) by lia.
  assert (Hll : (0 < length line)%nat).
  { apply Forall_cons in Hw as [[Hne _] _]. unfold line. destruct ws; cbn; rewrite ?length_app; destruct w; cbn; done || lia. }
  pose proof (cstr_tail _ _ _ _ Hl) as Hnl. apply cstr_cons in Hnl as (Hnl & _ & _).
  apply wp_bind, wp_wr; [by eexists|]. set (m1 := <[_ := 0]> m). rewrite (proj2 (Z.eqb_neq _ 0)) by lia. rewrite Nat2Z.id.
  assert (Hl1 : cstr m1 buf line).
  { split; [|destruct Hl as [_ Hl0]; set_solver]. apply holds_app.
    - eapply holds_frame; [apply holds_of_cstr in Hl; by apply Strtod.holds_head in Hl|]. intros x Hx. apply lookup_insert_ne. lia.
    - apply holds_cons. split; [apply lookup_insert_eq|]. intros k x Hx. by rewrite lookup_nil in Hx. }
  apply wp_bind. wp_use (splitFrom_words 32 ws w buf [buf] m1 Hw Hl1); [cbn; lia|]. intros r m2 (-> & Hall & Hout). change (lineText w ws) with line in Hout. clearbody line. cbn [app].
  assert (Hkeep : forall a l, cstr m a l -> textApart buf (Z.of_nat (length line) + 2) a l -> cstr m2 a l).
  { intros a l Ha Hap. unfold textApart in Hap. eapply cstr_frame; [exact Ha|]. intros x Hx. rewrite Hout by lia. apply lookup_insert_ne. lia. }
  pose proof Hall as Hw2. apply Forall2_cons in Hw2 as [Hw2 _]. apply wp_bind. unfold memcmp. wp_use (memcmp_strings_snd cdWord w buf cd m2 Hw2 (Hkeep _ _ Hcd Acd)). intros r m' [-> Hr].
  destruct (decide (w = cdWord)) as [Ew|Ew].
  - rewrite (proj2 Hr Ew). cbn [Z.eqb]. apply wp_ret. split; [done|]. f_equal. fold addrs. by destruct addrs.
  - rewrite (proj2 (Z.eqb_neq r 0)) by (intros E; by apply Hr in E). apply wp_bind. wp_use (memcmp_strings_snd exitWord w buf exit m2 Hw2 (Hkeep _ _ Hex Aex)). intros r2 m' [-> Hr2].
    destruct (decide (w = exitWord)) as [Ex|Ex]; [rewrite (proj2 Hr2 Ex); by apply wp_ret|]. rewrite (proj2 (Z.eqb_neq r2 0)) by (intros E; by apply Hr2 in E). by apply wp_ret.
Qed.

(** ** Witnesses *)

Section witnesses.
(** A kernel that remembers what was run and what happened to descriptors;
    child processes have number 7. *)
Inductive event := Ran (path : list Z) (argv : list Z) | Closed (fd : Z) | Waited (pid : Z).
#[local] Instance log_calls : Syscalls (list event) := {
  sysWrite _ _ _ _ k := (0, k);
  sysRead _ _ _ m k := (0, m, k);
  sysOpen _ _ k := (3, k);
  sysClose n k := (0, Closed n :: k);
  sysSeek _ _ _ k := (0, k);
  sysIoctl _ _ _ k := (0, k);
  sysUnlink _ k := (0, k);
  sysRename _ _ k := (0, k);
  sysWaitPid _ k := (0, 0, k)
}.
#[local] Instance log_malloc : Malloc Z := { malloc n u := (u, u + n); free _ u := u }.
Definition binLs : list Z := [47; 98; 105; 110; 47; 108; 115].              (* "/bin/ls" *)
#[local] Instance log_procs : ProcCalls (list event) := {
  sysAccess p k := ((if decide (p = binLs) then 0 else - ENOENT), k);
  sysExec p argv _ k := (- ENOMEM, Ran p argv :: k);
  sysFork k := (7, k);
  sysWait pid _ k := (0, 0, Waited pid :: k);
  sysChDir _ k := (0, k);
  sysGetId _ _ k := (1, k);
  sysSetpgid _ _ k := (0, k);
  sysSetsid k := (1, k);
  sysPipe k := (3, 4, k);
  sysDup _ _ k := k;
  sysGetDent _ k := (0, [], k)
}.
(** ["PATH"], ["PS1=>"], ["PATH=/usr:/bin"], ["ls -l\n"], ["cd"], ["exit"] and a
    free stack. *)
Definition demoPath : list Z := nameOfPATH ++ [61; 47; 117; 115; 114; 58; 47; 98; 105; 110].
Definition demoMem : gmap Z Z :=
  Strtod.textAt 100 (nameOfPATH ++ [0]) ∪ Strtod.textAt 200 [80; 83; 49; 61; 62; 0] ∪ Strtod.textAt 300 (demoPath ++ [0]) ∪
  Strtod.textAt 400 [108; 115; 32; 45; 108; 10; 0] ∪ Strtod.textAt 500 [99; 100; 0] ∪ Strtod.textAt 600 [101; 120; 105; 116; 0] ∪ Strtod.textAt 700 [108; 115; 0] ∪
  Strtod.textAt 1000 (replicate 32 0).
Definition demoLib : lib (list event) Z := mkLib demoMem (stdStreams 2000 3000 4000) STDIN STDERR 0 [] 0x9000.
(** A text at an address, by evaluation. *)
Definition cstrb (m : gmap Z Z) (a : Z) (l : list Z) : bool :=
  forallb (fun '(i, c) => bool_decide (m !! (a + Z.of_nat i) = Some c)) (imap pair (l ++ [0])) && bool_decide (0 ∉ l).
Lemma cstrb_cstr m a l : cstrb m a l = true -> cstr m a l.
Proof.
  intros [Hb H0%bool_decide_eq_true]%andb_prop. split; [|done]. intros i c Hc. rewrite forallb_forall in Hb.
  specialize (Hb (i, c)). cbn in Hb. apply bool_decide_eq_true in Hb; [done|]. apply list_elem_of_In. apply list_elem_of_lookup. exists i. by rewrite list_lookup_imap, Hc.
Qed.
Lemma demo_env : Forall2 (envAt demoMem) [200; 300] [[80; 83; 49; 61; 62]; demoPath].
Proof. constructor; [|constructor; [|constructor]]; (split; [lia|apply cstrb_cstr; by vm_compute]). Qed.

Lemma execvp_correct_witness :
  wp (execvp [200; 300; 0] 100 20 700 [700]) demoLib (fun r s' => r = -1 /\ kern s' = [Ran binLs [700]] /\ errno s' = ENOMEM).
Proof.
  eapply wp_mono.
  - apply (execvp_correct (fun p => bool_decide (p = binLs))) with (addrs := [200; 300]) (env := [[80; 83; 49; 61; 62]; demoPath]) (name := [108; 115]).
    + intros p k. cbn. destruct (decide (p = binLs)); eexists; (split; [reflexivity|]).
      * by rewrite bool_decide_true.
      * by rewrite bool_decide_false.
    + apply cstrb_cstr. by vm_compute.
    + exact demo_env.
    + lia.
    + apply cstrb_cstr. by vm_compute.
    + cbn. lia.
    + lia.
    + intros v [= <-]. split; [cbn; lia|]. split; [done|]. by repeat constructor.
  - intros r s' [-> ->]. by vm_compute.
Defined.

Lemma readCommand_correct_witness : wp (readCommand 20 400 500 600) demoMem (fun r m' => Forall2 (cstr m') [400; 403] [[108; 115]; [45; 108]] /\ r = Run [400; 403]).
Proof.
  apply (readCommand_correct 20 400 500 600 [108; 115] [[45; 108]] demoMem).
  - apply cstrb_cstr. by vm_compute.
  - repeat constructor; done || set_solver.
  - cbn. lia.
  - cbn. lia.
  - apply cstrb_cstr. by vm_compute.
  - apply cstrb_cstr. by vm_compute.
  - right. cbn. lia.
  - right. cbn. lia.
Defined.

(** [popen] gives the caller the number of the child instead of a stream, and
    leaves the pipe open; [system] waits for a process with the number of a
    stream. *)
Theorem popen_returns_pid : wp (popen [200; 300; 0] 100 20 (stdStream 0 0 0 0) 0 1000 (0, 0) 700 114) demoLib (fun r s' => r = Parent 7 /\ kern s' = []).
Proof. by vm_compute. Qed.
Theorem system_waits_for_stream : wp (system [200; 300; 0] 100 20 (stdStream 0 0 0 0) 0 1000 (9, 9) 700) demoLib (fun r s' => head (kern s') = Some (Waited 0x9000)).
Proof. by vm_compute. Qed.
(** At the end of the input the line is empty, and the byte before the buffer is
    cleared. *)
Theorem readCommand_empty : readCommand 20 1000 500 600 demoMem = Fault.
Proof. by vm_compute. Qed.
End witnesses.
