(* ===== verification/Process.v ===== *)
(** * Processes: [kernel/main/fork.c], [kernel/main/exit.c] and the groups and
    sessions of [kernel/sched/pgrp.c]

    Processes, threads, groups and sessions are objects in one store, by
    address, with their fields by name; an object that was freed, or a pointer
    that was never set, cannot be followed.  The groups are the nodes of a tree
    of [RbTree].  What a process has besides its place in these structures (its
    memory, files and page tables) is an interface. *)

From S2P Require Import Prelude Word Errno RbTree.

Definition PROC_HT_SIZE : Z := 64.
Definition INIT_PID : Z := 1.
Definition PROCSTATE_RUNNING : Z := 0.
Definition PROCSTATE_FINISHED : Z := 2.
Definition SIG_STATUS_MASK : Z := 0xFF.
Definition SIG_EXITED : Z := 0x100.
Definition THREADSTATE_SCHEDWAIT : Z := 2.
Definition THREADSTATE_PIDWAIT : Z := 5.

Inductive field :=
| Fpid | Fppid | Fstate | Flock | FhtNext | FhtPrev | Fparent | Fchildren | FprevChild | FnextChild
| Fpgid | Fsid | Fgroup | FgrpNext | FgrpPrev | FmainThread | FexitStatus | FaddressSpace     (* struct Process *)
| Fprocess | Ftstate | Ftlock | FwaitPid | FwaitProc | Fdetached                              (* struct ThreadInfo *)
| Fs | Fgpgid | Fgnext | Fgprev | Fgfirst | Fglast                                            (* struct PGroup *)
| Fssid | Fsnext | Fsprev | Fsfirst | Fslast.                                                 (* struct Session *)
#[export] Instance field_eq_dec : EqDecision field.
Proof. solve_decision. Defined.

(** An object: its fields. [zeroed] is fresh memory from [kzalloc]. *)
Definition object := field -> Z.
Definition zeroed : object := fun _ => 0.
Definition upd1 (f : field) (v : Z) (o : object) : object := fun g => if decide (f = g) then v else o g.

(** Reading and writing a field. *)
Definition fget (m : gmap Z object) (p : Z) (f : field) : option Z := (fun o : object => o f) <$> m !! p.
Definition fset (p : Z) (f : field) (v : Z) (m : gmap Z object) : gmap Z object := alter (upd1 f v) p m.

(** What the rest of the kernel does for processes.  The results that are
    addresses or errors follow the code: 0 or a negative number is a failure. *)
Class ProcessParts (K : Type) := {
  kzalloc : K -> Z * K;                    (* memory for one object *)
  kfree : Z -> K -> K;
  copyFiles : Z -> Z -> K -> Z * K;
  copyMem : Z -> Z -> K -> Z * K;
  copyPerm : Z -> Z -> K -> K;
  mmCreateAddressSpace : K -> Z * K;
  allocKStack : K -> Z * K;
  initForkRetThread : Z -> Z -> K -> K;
  mmapDestroy : Z -> K -> K;
  closeFiles : Z -> K -> K;
  deallocPhysPage : Z -> K -> K;
  threadQueueRemove : Z -> K -> K;
  readyQueuePush : Z -> K -> K
}.

Record pstate (K : Type) := mkPs {
  objs : gmap Z object;
  buckets : gmap Z (Z * Z);               (* procHT: first and last *)
  htLock : bool;
  groups : rbstate;                       (* pgRoot *)
  firstSession : Z; lastSession : Z; sessionLock : bool;
  curPid : Z;
  curThread : Z;
  parts : K
}.
Arguments mkPs {K}.
Arguments objs {K}.
Arguments buckets {K}.
Arguments htLock {K}.
Arguments groups {K}.
Arguments firstSession {K}.
Arguments lastSession {K}.
Arguments sessionLock {K}.
Arguments curPid {K}.
Arguments curThread {K}.
Arguments parts {K}.

(** The static object [initProcess]. *)
Definition initProcess : Z := 16.

Section process.
Context {K : Type} `{ProcessParts K}.
Notation pM := (M (pstate K)).

Definition set_objs (m : gmap Z object) (s : pstate K) : pstate K :=
  mkPs m (buckets s) (htLock s) (groups s) (firstSession s) (lastSession s) (sessionLock s) (curPid s) (curThread s) (parts s).
Definition set_buckets (m : gmap Z (Z * Z)) (s : pstate K) : pstate K :=
  mkPs (objs s) m (htLock s) (groups s) (firstSession s) (lastSession s) (sessionLock s) (curPid s) (curThread s) (parts s).
Definition set_htLock (b : bool) (s : pstate K) : pstate K :=
  mkPs (objs s) (buckets s) b (groups s) (firstSession s) (lastSession s) (sessionLock s) (curPid s) (curThread s) (parts s).
Definition set_groups (g : rbstate) (s : pstate K) : pstate K :=
  mkPs (objs s) (buckets s) (htLock s) g (firstSession s) (lastSession s) (sessionLock s) (curPid s) (curThread s) (parts s).
Definition set_sessions (a b : Z) (s : pstate K) : pstate K :=
  mkPs (objs s) (buckets s) (htLock s) (groups s) a b (sessionLock s) (curPid s) (curThread s) (parts s).
Definition set_sessionLock (b : bool) (s : pstate K) : pstate K :=
  mkPs (objs s) (buckets s) (htLock s) (groups s) (firstSession s) (lastSession s) b (curPid s) (curThread s) (parts s).
Definition set_curPid (n : Z) (s : pstate K) : pstate K :=
  mkPs (objs s) (buckets s) (htLock s) (groups s) (firstSession s) (lastSession s) (sessionLock s) n (curThread s) (parts s).
Definition set_parts (k : K) (s : pstate K) : pstate K :=
  mkPs (objs s) (buckets s) (htLock s) (groups s) (firstSession s) (lastSession s) (sessionLock s) (curPid s) (curThread s) k.

(** [p->f] and [p->f = v]. *)
Definition get (p : Z) (f : field) : pM Z := deref (fun s => fget (objs s) p f).
Definition set (p : Z) (f : field) (v : Z) : pM unit := fun s =>
  match objs s !! p with
  | Some _ => Done (tt, set_objs (fset p f v (objs s)) s)
  | None => Fault
  end.
Definition part {A} (f : K -> A * K) : pM A := fun s => let '(a, k) := f (parts s) in Done (a, set_parts k s).
Definition does (f : K -> K) : pM unit := modify (fun s => set_parts (f (parts s)) s).
Definition onGroups {A} (m : M rbstate A) : pM A := fun s =>
  match m (groups s) with
  | Done (a, g) => Done (a, set_groups g s)
  | Fault => Fault
  | NoFuel => NoFuel
  end.
Definition acquire (p : Z) (f : field) : pM unit := l ← get p f; if l =? 0 then set p f 1 else fault.
Definition release (p : Z) (f : field) : pM unit := set p f 0.
Definition acquireHt : pM unit := fun s => if htLock s then Fault else Done (tt, set_htLock true s).
Definition releaseHt : pM unit := modify (set_htLock false).
Definition acquireSessions : pM unit := fun s => if sessionLock s then Fault else Done (tt, set_sessionLock true s).
Definition releaseSessions : pM unit := modify (set_sessionLock false).
(** [kzalloc] of an object, and [kfree]. *)
Definition newObject : pM Z :=
  p ← part kzalloc;
  (if p =? 0 then mret tt else modify (fun s => set_objs (<[p := zeroed]> (objs s)) s));;
  mret p.
Definition freeObject (p : Z) : pM unit :=
  modify (fun s => set_objs (delete p (objs s)) s);; does (kfree p).
Definition curProcess : pM Z := t ← gets curThread; get t Fprocess.

(** ** The table of processes: [fork.c] *)

(** [&procHT[pid % PROC_HT_SIZE]]: the remainder has the sign of [pid]. *)
Definition procHash (pid : Z) : pM Z := let i := Z.rem pid PROC_HT_SIZE in if i <? 0 then fault else mret i.
Definition bucket (i : Z) : pM (Z * Z) := gets (fun s => default (0, 0) (buckets s !! i)).
Definition setBucket (i first last : Z) : pM unit := modify (fun s => set_buckets (<[i := (first, last)]> (buckets s)) s).

Fixpoint findPid (fuel : nat) (proc pid : Z) : pM Z :=
  if proc =? 0 then mret 0
  else
    match fuel with
    | O => nofuel
    | S fuel =>
      n ← get proc Fpid;
      if n =? pid then mret proc else next ← get proc FhtNext; findPid fuel next pid
    end.
Definition getProcFromPid (pid : Z) : pM Z :=
  i ← procHash pid;
  acquireHt;;
  b ← bucket i;
  fuel ← gets (fun s => size (objs s));
  proc ← findPid fuel b.1 pid;
  releaseHt;;
  mret proc.

Definition procHTAdd (proc : Z) : pM unit :=
  set proc FhtNext 0;;
  pid ← get proc Fpid;
  i ← procHash pid;
  acquireHt;;
  b ← bucket i;
  (if negb (b.2 =? 0) then set b.2 FhtNext proc;; set proc FhtPrev b.2;; setBucket i b.1 proc
   else set proc FhtPrev 0;; setBucket i proc proc);;
  releaseHt.

Definition procHTDel (proc : Z) : pM unit :=
  pid ← get proc Fpid;
  i ← procHash pid;
  acquireHt;;
  prev ← get proc FhtPrev;
  next ← get proc FhtNext;
  b ← bucket i;
  (if negb (prev =? 0) then set prev FhtNext next else setBucket i next b.2);;
  b ← bucket i;
  (if negb (next =? 0) then set next FhtPrev prev else setBucket i b.1 prev);;
  releaseHt.

Definition linkChild (parent child : Z) : pM unit :=
  pid ← get parent Fpid;
  set child Fppid pid;;
  set child Fparent parent;;
  first ← get parent Fchildren;
  (if negb (first =? 0) then set child FnextChild first;; set first FprevChild child else mret tt);;
  set parent Fchildren child.

(** ** Groups and sessions: [pgrp.c] *)

Definition unlinkGroup (grp : Z) : pM unit :=
  prev ← get grp Fgprev;
  next ← get grp Fgnext;
  sess ← get grp Fs;
  (if negb (prev =? 0) then set prev Fgnext next else set sess Fsfirst next);;
  (if negb (next =? 0) then set next Fgprev prev else set sess Fslast prev);;
  first ← get sess Fsfirst;
  last ← get sess Fslast;
  if (first =? 0) && (last =? 0) then
    sprev ← get sess Fsprev;
    snext ← get sess Fsnext;
    (if negb (sprev =? 0) then set sprev Fsnext snext else modify (fun s => set_sessions snext (lastSession s) s));;
    (if negb (snext =? 0) then set snext Fsprev sprev else modify (fun s => set_sessions (firstSession s) sprev s));;
    freeObject sess
  else mret tt.

Definition leaveGroup (proc : Z) : pM unit :=
  grp ← get proc Fgroup;
  if grp =? 0 then mret tt
  else
    prev ← get proc FgrpPrev;
    next ← get proc FgrpNext;
    (if negb (prev =? 0) then set prev FgrpNext next else set grp Fgfirst next);;
    (if negb (next =? 0) then set next FgrpPrev prev else set grp Fglast prev);;
    set proc FgrpNext 0;;
    set proc FgrpPrev 0;;
    first ← get grp Fgfirst;
    last ← get grp Fglast;
    (if (first =? 0) && (last =? 0) then
       unlinkGroup grp;;
       pgid ← get grp Fgpgid;
       onGroups (rbDelete pgid);;
       freeObject grp
     else mret tt);;
    set proc Fgroup 0.

(** The node of a group in the tree is its first member. *)
Definition setValue (grp v : Z) : pM unit :=
  onGroups (fun g => Done (tt, mkRbState (<[grp := mkRb 0 0 0 v false]> (nodes g)) (root g))).
Definition getPGroup (pgid : Z) : pM Z := r ← gets (fun s => root (groups s)); onGroups (rbSearch r pgid).

Definition joinGroup (proc pgid newGroup : Z) : pM unit :=
  last ← get newGroup Fglast;
  (if negb (last =? 0) then set last FgrpNext proc;; set proc FgrpPrev last
   else set proc FgrpPrev 0;; set newGroup Fgfirst proc);;
  set newGroup Fglast proc;;
  set proc FgrpNext 0;;
  set proc Fpgid pgid;;
  sess ← get newGroup Fs;
  sid ← get sess Fssid;
  set proc Fsid sid;;
  set proc Fgroup newGroup.

Definition createGroup (proc pgid sess : Z) : pM Z :=
  newGroup ← newObject;
  if newGroup =? 0 then mret (- ENOMEM)
  else
    leaveGroup proc;;
    set newGroup Fgfirst proc;;
    set newGroup Fglast proc;;
    set newGroup Fgpgid pgid;;
    setValue newGroup pgid;;
    set newGroup Fs sess;;
    set proc Fpgid pgid;;
    set proc Fgroup newGroup;;
    set proc FgrpNext 0;;
    set proc FgrpPrev 0;;
    onGroups (rbInsert newGroup);;
    last ← get sess Fslast;
    (if negb (last =? 0) then set last Fgnext newGroup;; set newGroup Fgprev last else set sess Fsfirst newGroup);;
    set sess Fslast newGroup;;
    mret 0.

(** Is the process the only member of its group? *)
Definition soleMember (proc : Z) : pM bool :=
  grp ← get proc Fgroup;
  if grp =? 0 then mret false
  else first ← get grp Fgfirst; last ← get grp Fglast; mret ((first =? proc) && (last =? proc)).

Definition setpgid (proc pgid : Z) : pM Z :=
  if pgid <? 0 then mret (- EINVAL)
  else
    pid ← get proc Fpid;
    let pgid := if pgid =? 0 then pid else pgid in
    acquire proc Flock;;
    acquireSessions;;
    sole ← soleMember proc;
    error ←
      (if (sole : bool) then
         onGroups (rbDelete pid);;
         grp ← get proc Fgroup;
         set grp Fgpgid pgid;;
         fault                                       (* newGroup is not initialised *)
       else
         sess ← (if negb (pid =? 1) then grp ← get proc Fgroup; get grp Fs
                 else s ← newObject; set s Fssid pgid;; modify (set_sessions s s);; mret s);
         newGroup ← (if negb (pid =? pgid) then getPGroup pgid else mret 0);
         if negb (newGroup =? 0) then joinGroup proc pgid newGroup;; mret 0
         else createGroup proc pgid sess);
    releaseSessions;;
    release proc Flock;;
    mret error.

Definition sysSetpgid (pid pgid : Z) : pM Z :=
  cur ← curProcess;
  own ← get cur Fpid;
  if negb (pid =? 0) && negb (pid =? own) then
    proc ← getProcFromPid pid;
    if proc =? 0 then mret (- ESRCH)
    else
      ppid ← get proc Fppid;
      if negb (ppid =? own) then mret (- ESRCH) else setpgid proc pgid
  else setpgid cur pgid.

Definition sysSetsid : pM Z :=
  proc ← curProcess;
  acquire proc Flock;;
  sid ← get proc Fsid;
  pgid ← get proc Fpgid;
  pid ← get proc Fpid;
  ret ←
    (if (sid =? pid) || (pgid =? pid) then mret (- EPERM)
     else
       newSession ← newObject;
       if newSession =? 0 then mret (- ENOMEM)
       else
         newGroup ← newObject;
         if newGroup =? 0 then freeObject newSession;; mret (- ENOMEM)
         else
           acquireSessions;;
           leaveGroup proc;;
           set newSession Fssid pid;;
           set newSession Fsfirst newGroup;;
           set newSession Fslast newGroup;;
           set newGroup Fgpgid pid;;
           setValue newGroup pid;;
           set newGroup Fs newSession;;
           set newGroup Fgfirst proc;;
           set newGroup Fglast proc;;
           last ← gets lastSession;
           (if negb (last =? 0) then
              set last Fsnext newSession;; set newSession Fsprev last;;
              modify (fun s => set_sessions (firstSession s) newSession s)
            else modify (set_sessions newSession newSession));;
           releaseSessions;;
           set proc Fsid pid;;
           set proc Fpgid pid;;
           set proc Fgroup newGroup;;
           set proc FgrpNext 0;;
           set proc FgrpPrev 0;;
           mret pid);
  release proc Flock;;
  mret ret.

(** ** Leaving: [exit.c] *)

Definition unlinkChild (proc : Z) : pM unit :=
  par ← get proc Fparent;
  acquire par Flock;;
  first ← get par Fchildren;
  next ← get proc FnextChild;
  (if first =? proc then set par Fchildren next
   else prev ← get proc FprevChild; set prev FnextChild next);;
  release par Flock.

Definition checkFilter (filter pid : Z) : bool := if filter =? 0 then true else (filter >? 0) && (pid =? filter).

Definition removeProcess (proc : Z) : pM unit :=
  a ← get proc FaddressSpace;
  does (deallocPhysPage a);;
  leaveGroup proc;;
  unlinkChild proc;;
  procHTDel proc;;
  freeObject proc.

(** The loop of [exitProcess] over the children. *)
Fixpoint orphan (fuel : nat) (child : Z) : pM unit :=
  if child =? 0 then mret tt
  else
    match fuel with
    | O => nofuel
    | S fuel =>
      acquire child Flock;;
      next ← get child FnextChild;
      linkChild initProcess child;;
      release child Flock;;
      orphan fuel next
    end.

Definition exitProcess (proc : Z) : pM unit :=
  set proc Fstate PROCSTATE_FINISHED;;
  acquire initProcess Flock;;
  child ← get proc Fchildren;
  fuel ← gets (fun s => size (objs s));
  orphan fuel child;;
  release initProcess Flock;;
  does (mmapDestroy proc);;
  does (closeFiles proc);;
  par ← get proc Fparent;
  acquire par Flock;;
  t ← get par FmainThread;
  acquire t Ftlock;;
  ts ← get t Ftstate;
  filter ← get t FwaitPid;
  pid ← get proc Fpid;
  (if (ts =? THREADSTATE_PIDWAIT) && checkFilter filter pid
   then set t FwaitProc proc;; does (readyQueuePush t) else mret tt);;
  release t Ftlock;;
  release par Flock.

(** [signalExit] up to [kthreadExit], which does not return; [false] is the
    panic of an attempt to kill init. *)
Definition signalExit : pM bool :=
  t ← gets curThread;
  proc ← get t Fprocess;
  pid ← get proc Fpid;
  if pid =? INIT_PID then mret false
  else does (threadQueueRemove t);; exitProcess proc;; set t Fdetached 1;; mret true.
Definition sysExit (exitValue : Z) : pM bool :=
  proc ← curProcess;
  set proc FexitStatus (Z.lor (Z.land exitValue SIG_STATUS_MASK) SIG_EXITED);;
  signalExit.

(** The search of [sysWaitPid]: does a child match, and the first that has
    finished (0 if none). *)
Fixpoint findZombie (fuel : nat) (filter child : Z) (exist : bool) : pM (bool * Z) :=
  if child =? 0 then mret (exist, 0)
  else
    match fuel with
    | O => nofuel
    | S fuel =>
      acquire child Flock;;
      pid ← get child Fpid;
      state ← get child Fstate;
      if checkFilter filter pid && (state =? PROCSTATE_FINISHED) then release child Flock;; mret (true, child)
      else
        next ← get child FnextChild;
        release child Flock;;
        findZombie fuel filter next (exist || checkFilter filter pid)
    end.

(** What [sysWaitPid] returns, with the status it stores; or it stops the
    thread until a child exits, and [waitResume] runs then. *)
Inductive waited := Waited (ret : Z) (status : option Z) | Stopped.
Definition sysWaitPid (filter : Z) : pM waited :=
  t ← gets curThread;
  proc ← get t Fprocess;
  acquire t Ftlock;;
  acquire proc Flock;;
  child ← get proc Fchildren;
  fuel ← gets (fun s => size (objs s));
  ec ← findZombie fuel filter child false;
  release proc Flock;;
  if negb (ec.2 =? 0) then
    pid ← get ec.2 Fpid;
    status ← get proc FexitStatus;                   (* of the parent *)
    removeProcess ec.2;;
    release t Ftlock;;
    mret (Waited pid (Some status))
  else if negb ec.1 then release t Ftlock;; mret (Waited (- ECHILD) None)
  else
    set t Ftstate THREADSTATE_PIDWAIT;;
    set t FwaitPid filter;;
    release t Ftlock;;                               (* in kthreadStop *)
    mret Stopped.
Definition waitResume : pM waited :=
  t ← gets curThread;
  proc ← get t Fprocess;
  status ← get proc FexitStatus;
  w ← get t FwaitProc;
  removeProcess w;;
  ret ← get t FwaitPid;                              (* the filter *)
  mret (Waited ret (Some status)).

(** ** [sysFork] *)

Definition sysFork : pM Z :=
  t ← gets curThread;
  cur ← get t Fprocess;
  new ← newObject;
  if new =? 0 then mret (- ENOMEM)
  else
    acquire cur Flock;;
    pid ← gets curPid;
    set new Fpid (s32 pid);;
    modify (set_curPid (u64 (pid + 1)));;
    linkChild cur new;;
    error ← part (copyFiles cur new);
    error ← (if negb (error =? 0) then mret error else part (copyMem cur new));
    if negb (error =? 0) then release cur Flock;; exitProcess new;; mret error
    else
      grp ← get cur Fpgid;
      g ← get cur Fgroup;
      set new Fgroup g;;
      does (copyPerm cur new);;
      release cur Flock;;
      a ← part mmCreateAddressSpace;
      set new FaddressSpace a;;
      if a =? 0 then exitProcess new;; mret (- ENOMEM)
      else
        main ← part allocKStack;
        if main =? 0 then exitProcess new;; mret (- ENOMEM)
        else
          modify (fun s => set_objs (<[main := upd1 Fprocess new (upd1 Ftstate THREADSTATE_SCHEDWAIT (upd1 Fdetached 1 zeroed))]> (objs s)) s);;
          set new FmainThread main;;
          acquire t Ftlock;;
          does (initForkRetThread main t);;
          release t Ftlock;;
          procHTAdd new;;
          setpgid new grp;;
          does (readyQueuePush main);;
          get new Fpid.
End process.

(** ** Lists through fields *)

Section fields.
Implicit Types m : gmap Z object.

Lemma fget_fset m p f v q g :
  fget (fset p f v m) q g = if decide (p = q /\ f = g) then (fun _ => v) <$> m !! p else fget m q g.
Proof.
  unfold fget, fset. destruct (decide (p = q)) as [->|Hp].
  - rewrite lookup_alter_eq. destruct (m !! q) as [o|]; [|by destruct (decide (q = q /\ f = g))]. cbn. unfold upd1.
    destruct (decide (f = g)), (decide (q = q /\ f = g)); naive_solver.
  - rewrite lookup_alter_ne by done. rewrite decide_False by naive_solver. done.
Qed.
Lemma fget_same m p f v x : fget m p f = Some x -> fget (fset p f v m) p f = Some v.
Proof. rewrite fget_fset, decide_True by done. unfold fget. by destruct (m !! p). Qed.
Lemma fget_field m p f v q g : f <> g -> fget (fset p f v m) q g = fget m q g.
Proof. intros Hf. rewrite fget_fset, decide_False by naive_solver. done. Qed.
Lemma fget_obj m p f v q g : p <> q -> fget (fset p f v m) q g = fget m q g.
Proof. intros Hp. rewrite fget_fset, decide_False by naive_solver. done. Qed.
Lemma fget_some m p f v q g x : fget m q g = Some x -> exists y, fget (fset p f v m) q g = Some y.
Proof.
  intros Hx. rewrite fget_fset. destruct (decide (p = q /\ f = g)) as [[-> _]|]; [|by exists x].
  unfold fget in Hx. destruct (m !! q); [by exists v|done].
Qed.

Lemma fget_is_some m p f v : fget m p f = Some v -> is_Some (m !! p).
Proof. unfold fget. destruct (m !! p); [eauto|done]. Qed.

(** A doubly linked list through the fields [nx] and [pv], from behind [prev] up
    to [next]. *)
Fixpoint dll m (nx pv : field) (prev : Z) (l : list Z) (next : Z) : Prop :=
  match l with
  | [] => True
  | p :: l => p <> 0 /\ fget m p pv = Some prev /\ fget m p nx = Some (match l with [] => next | q :: _ => q end) /\ dll m nx pv p l next
  end.
Definition hd0 (l : list Z) : Z := default 0 (head l).
Definition last0 (l : list Z) : Z := default 0 (last l).
Definition or0 (p q : Z) : Z := if p =? 0 then q else p.

Lemma dll_frame m m' nx pv prev l next :
  dll m nx pv prev l next ->
  (forall p, p ∈ l -> fget m' p nx = fget m p nx /\ fget m' p pv = fget m p pv) -> dll m' nx pv prev l next.
Proof.
  revert prev. induction l as [|p l IH]; intros prev; [done|]. cbn [dll]. intros (H0 & Hp & Hn & Hl) Hf.
  destruct (Hf p) as [E1 E2]; [by left|]. rewrite E1, E2. split_and!; [done..|]. apply IH; [done|]. intros q Hq. apply Hf. by right.
Qed.
(** Writing another field, or an object that is not in the list. *)
Lemma dll_field m nx pv prev l next p f v : f <> nx -> f <> pv -> dll m nx pv prev l next -> dll (fset p f v m) nx pv prev l next.
Proof. intros Hn Hp Hl. eapply dll_frame; [done|]. intros q _. by rewrite !fget_field. Qed.
Lemma dll_obj m nx pv prev l next p f v : p ∉ l -> dll m nx pv prev l next -> dll (fset p f v m) nx pv prev l next.
Proof. intros Hp Hl. eapply dll_frame; [done|]. intros q Hq. rewrite !fget_obj by (by intros ->). done. Qed.

Lemma dll_app m nx pv prev l1 l2 next :
  dll m nx pv prev (l1 ++ l2) next <->
  dll m nx pv prev l1 (match l2 with [] => next | q :: _ => q end) /\ dll m nx pv (match last l1 with Some q => q | None => prev end) l2 next.
Proof.
  revert prev. induction l1 as [|p l1 IH]; intros prev; [simpl; tauto|]. cbn [app dll]. rewrite IH.
  destruct l1 as [|q l1]; [simpl; destruct l2; tauto|]. rewrite last_cons_cons. cbn [app].
  destruct (last (q :: l1)) eqn:E; [tauto|by apply last_None in E].
Qed.
Lemma dll_nonzero m nx pv prev l next p : dll m nx pv prev l next -> p ∈ l -> p <> 0.
Proof.
  revert prev. induction l as [|q l IH]; intros prev; [by intros _ []%elem_of_nil|].
  intros (H0 & _ & _ & Hl) [->|Hp]%elem_of_cons; [done|by eapply IH].
Qed.
Lemma dll_next m nx pv prev l1 p l2 next : dll m nx pv prev (l1 ++ p :: l2) next ->
  fget m p nx = Some (match l2 with [] => next | q :: _ => q end) /\ fget m p pv = Some (match last l1 with Some q => q | None => prev end).
Proof. intros Hl. apply dll_app in Hl as [_ Hl]. destruct Hl as (_ & Hp & Hn & _). by split. Qed.

(** A new pointer at either end of a list. *)
Lemma dll_set_next m nx pv prev l p next v : nx <> pv -> p ∉ l -> dll m nx pv prev (l ++ [p]) next -> dll (fset p nx v m) nx pv prev (l ++ [p]) v.
Proof.
  intros Hf Hp. rewrite !dll_app. cbn [dll]. intros (Hl & H0 & Hpv & Hnx & _). split; [by apply dll_obj|].
  split_and!; [done| |by eapply fget_same|done]. by rewrite fget_field.
Qed.
Lemma dll_set_prev m nx pv prev p l next v : nx <> pv -> p ∉ l -> dll m nx pv prev (p :: l) next -> dll (fset p pv v m) nx pv v (p :: l) next.
Proof.
  intros Hf Hp. cbn [dll]. intros (H0 & Hpv & Hnx & Hl). split_and!; [done|by eapply fget_same| |by apply dll_obj].
  by rewrite fget_field.
Qed.

Lemma hd0_nonzero (l : list Z) : (forall p, p ∈ l -> p <> 0) -> hd0 l = 0 <-> l = [].
Proof. intros Hl. destruct l as [|p l]; [done|]. split; [|done]. intros E. exfalso. apply (Hl p); [by left|exact E]. Qed.
Lemma last0_nonzero (l : list Z) : (forall p, p ∈ l -> p <> 0) -> last0 l = 0 <-> l = [].
Proof.
  intros Hl. destruct l as [|p l] using rev_ind; [done|]. unfold last0. rewrite last_snoc. split; [|by destruct l].
  intros E. exfalso. apply (Hl p); [set_solver|exact E].
Qed.

(** [p] behind the last element. *)
Lemma dll_snoc m nx pv l p :
  dll m nx pv 0 l p -> p <> 0 -> fget m p pv = Some (last0 l) -> fget m p nx = Some 0 -> dll m nx pv 0 (l ++ [p]) 0.
Proof.
  intros Hl H0 Hp Hn. apply dll_app. split; [done|]. cbn [dll]. split_and!; [done| |done|done]. rewrite Hp. unfold last0. by destruct (last l).
Qed.
(** The neighbours of a removed element. *)
Definition relink (nx pv : field) (a b : Z) (m : gmap Z object) : gmap Z object :=
  let m := if a =? 0 then m else fset a nx b m in if b =? 0 then m else fset b pv a m.
Lemma dll_unlink m nx pv l1 p l2 :
  nx <> pv -> dll m nx pv 0 (l1 ++ p :: l2) 0 -> NoDup (l1 ++ p :: l2) -> dll (relink nx pv (last0 l1) (hd0 l2) m) nx pv 0 (l1 ++ l2) 0.
Proof.
  intros Hf Hl Hnd. 
  assert (Hnz : forall q, q ∈ l1 ++ p :: l2 -> q <> 0) by (intros q; by apply (dll_nonzero m nx pv 0 _ 0)).
  apply dll_app in Hl as [Hl1 Hl2]. cbn [dll] in Hl2. destruct Hl2 as (_ & _ & _ & Hl2).
  apply NoDup_app in Hnd as (Hd1 & Hd12 & Hd2). apply NoDup_cons in Hd2 as [Hp2 Hd2].
  (* the first part gets its new end *)
  assert (H1 : dll (if last0 l1 =? 0 then m else fset (last0 l1) nx (hd0 l2) m) nx pv 0 l1 (hd0 l2)).
  { destruct l1 as [|a l1 _] using rev_ind; [done|]. unfold last0. rewrite last_snoc. change (default 0 (Some a)) with a.
    destruct (Z.eqb_spec a 0) as [->|_]; [exfalso; apply (Hnz 0); [set_solver|done]|].
    apply (dll_set_next m nx pv 0 l1 a p); [done| |done]. apply NoDup_app in Hd1. set_solver. }
  assert (H2 : dll (if last0 l1 =? 0 then m else fset (last0 l1) nx (hd0 l2) m) nx pv p l2 0).
  { destruct (Z.eqb_spec (last0 l1) 0); [done|]. apply dll_obj; [|done]. destruct l1 as [|a l1 _] using rev_ind; [done|].
    unfold last0. rewrite last_snoc. change (default 0 (Some a)) with a. intros Ha. apply (Hd12 a); set_solver. }
  unfold relink. set (m1 := if last0 l1 =? 0 then m else _) in *. apply dll_app. destruct l2 as [|b l2]; try change (hd0 (b :: l2)) with b in *.
  - split; [done|done].
  - destruct (Z.eqb_spec b 0) as [->|_]; [exfalso; apply (Hnz 0); [set_solver|done]|]. split.
    + apply dll_obj; [|done]. intros Hb. apply (Hd12 b); set_solver.
    + replace (match last l1 with Some q => q | None => 0 end) with (last0 l1) by (unfold last0; by destruct (last l1)).
      apply (dll_set_prev m1 nx pv p b l2 0); [done| |done]. by apply NoDup_cons in Hd2 as [? _].
Qed.
Lemma relink_get nx pv a b m q g : (g <> nx \/ q <> a) -> (g <> pv \/ q <> b) -> fget (relink nx pv a b m) q g = fget m q g.
Proof.
  intros H1 H2. unfold relink. destruct (Z.eqb_spec b 0); destruct (Z.eqb_spec a 0); rewrite ?fget_fset;
    repeat rewrite decide_False by naive_solver; done.
Qed.

Lemma hd0_snoc (l : list Z) p : hd0 (l ++ [p]) = if decide (l = []) then p else hd0 l.
Proof. by destruct l. Qed.
Lemma last0_snoc (l : list Z) p : last0 (l ++ [p]) = p.
Proof. unfold last0. by rewrite last_snoc. Qed.
Lemma last0_in (l : list Z) : last0 l <> 0 -> last0 l ∈ l.
Proof. destruct l as [|a l _] using rev_ind; [done|]. rewrite last0_snoc. set_solver. Qed.

(** The links of an element that is put behind a list. *)
Definition snoc_links (nx pv : field) (l : list Z) (p : Z) (m : gmap Z object) : gmap Z object :=
  fset p pv (last0 l) (let m1 := fset p nx 0 m in if last0 l =? 0 then m1 else fset (last0 l) nx p m1).
Lemma snoc_links_get nx pv l p m q g : (g <> nx /\ g <> pv) \/ (q <> p /\ q ∉ l) -> fget (snoc_links nx pv l p m) q g = fget m q g.
Proof.
  intros Hq. unfold snoc_links. destruct (Z.eqb_spec (last0 l) 0) as [E|E]; rewrite !fget_fset;
    repeat rewrite decide_False; try done; try naive_solver.
  intros [<- Hg]. apply last0_in in E. naive_solver.
Qed.
Lemma dll_append m nx pv l p f x :
  nx <> pv -> dll m nx pv 0 l 0 -> NoDup l -> p ∉ l -> p <> 0 -> fget m p f = Some x -> dll (snoc_links nx pv l p m) nx pv 0 (l ++ [p]) 0.
Proof.
  intros Hf Hd Hnd Hp H0 Hx. set (m1 := fset p nx 0 m). destruct (fget_is_some _ _ _ _ Hx) as [o Ho].
  assert (Hd1 : dll m1 nx pv 0 l 0) by (by apply dll_obj). unfold snoc_links. fold m1. cbv zeta.
  set (m2 := if last0 l =? 0 then m1 else _). 
  assert (Hm2 : forall g, fget m2 p g = fget m1 p g).
  { intros g. unfold m2. destruct (Z.eqb_spec (last0 l) 0) as [|E]; [done|]. apply fget_obj. intros Hl. apply last0_in in E. by rewrite Hl in E. }
  assert (Hm1 : fget m1 p nx = Some 0) by (apply (fget_same m p nx 0 (o nx)); unfold fget; by rewrite Ho).
  assert (Hm1' : fget m1 p pv = Some (o pv)) by (unfold m1; rewrite fget_field by done; unfold fget; by rewrite Ho).
  apply dll_snoc; [|done| |].
  - apply dll_obj; [done|]. unfold m2. destruct (Z.eqb_spec (last0 l) 0) as [E|E].
    + apply last0_nonzero in E as ->; [done|]. intros q. by apply (dll_nonzero _ _ _ _ _ _ _ Hd).
    + destruct l as [|a l _] using rev_ind; [done|]. rewrite last0_snoc. apply (dll_set_next _ _ _ _ _ _ 0); [done| |done].
      apply NoDup_app in Hnd. set_solver.
  - by eapply fget_same, (eq_trans (Hm2 pv)).
  - rewrite fget_field by done. by rewrite Hm2.
Qed.

Lemma list_size m (l : list Z) : NoDup l -> (forall p, p ∈ l -> is_Some (m !! p)) -> (length l <= size m)%nat.
Proof.
  intros Hnd Hin. rewrite <- (size_dom m), <- (size_list_to_set (C := gset Z) l) by done. apply subseteq_size.
  intros p Hp%elem_of_list_to_set. by apply elem_of_dom, Hin.
Qed.
End fields.

(** ** The table of processes as a finite map *)

Ltac psimpl :=
  cbn [objs buckets htLock groups firstSession lastSession sessionLock curPid curThread parts
       set_objs set_buckets set_htLock set_groups set_sessions set_sessionLock set_curPid set_parts].

Section table.
Context {K : Type} `{ProcessParts K}.
Implicit Types s : pstate K.

Lemma wp_getField p f v s Q : fget (objs s) p f = Some v -> Q v s -> wp (get p f) s Q.
Proof. intros Hv HQ. apply wp_deref. by exists v. Qed.
Lemma wp_set p f v x s (Q : unit -> pstate K -> Prop) :
  fget (objs s) p f = Some x -> Q tt (set_objs (fset p f v (objs s)) s) -> wp (set p f v) s Q.
Proof. intros Hx HQ. apply fget_is_some in Hx as [o Ho]. unfold wp, set. by rewrite Ho. Qed.
Lemma wp_acquireHt s (Q : unit -> pstate K -> Prop) : htLock s = false -> Q tt (set_htLock true s) -> wp acquireHt s Q.
Proof. intros Hl HQ. unfold wp, acquireHt. by rewrite Hl. Qed.
Lemma procHash_ok pid s Q : 0 <= pid -> Q (pid mod PROC_HT_SIZE) s -> wp (procHash pid) s Q.
Proof.
  intros Hp HQ. unfold procHash, PROC_HT_SIZE in *. rewrite Z.rem_mod_nonneg by lia.
  destruct (Z.ltb_spec (pid mod 64) 0) as [Hl|_]; [pose proof (Z.mod_pos_bound pid 64); lia|]. by apply wp_ret.
Qed.

Definition pid_at s (p pid : Z) : Prop := fget (objs s) p Fpid = Some pid.
(** The chain of the bucket [i]. *)
Definition chain s (i : Z) (l : list Z) : Prop :=
  default (0, 0) (buckets s !! i) = (hd0 l, last0 l) /\ dll (objs s) FhtNext FhtPrev 0 l 0 /\ NoDup l /\
  forall p, p ∈ l -> exists pid, pid_at s p pid /\ 0 <= pid /\ pid mod PROC_HT_SIZE = i.
(** The table holds the processes [T], by pid. *)
Definition table s (T : gmap Z Z) : Prop :=
  htLock s = false /\ exists L : Z -> list Z, (forall i, 0 <= i < PROC_HT_SIZE -> chain s i (L i)) /\
    forall pid p, T !! pid = Some p <-> 0 <= pid /\ pid_at s p pid /\ p ∈ L (pid mod PROC_HT_SIZE).

Lemma chain_next s i l1 p l2 : chain s i (l1 ++ p :: l2) -> fget (objs s) p FhtNext = Some (hd0 l2) /\ fget (objs s) p FhtPrev = Some (last0 l1) /\ p <> 0.
Proof.
  intros (_ & Hl & _). pose proof (dll_next _ _ _ _ _ _ _ _ Hl) as [Hn Hp]. split_and!.
  - rewrite Hn. by destruct l2.
  - rewrite Hp. unfold last0. by destruct (last l1).
  - eapply dll_nonzero; [exact Hl|set_solver].
Qed.

(** The walk along a chain. *)
Lemma findPid_spec fuel s i l1 l2 pid :
  chain s i (l1 ++ l2) -> (length l2 <= fuel)%nat -> (forall p, p ∈ l1 -> ~ pid_at s p pid) ->
  wp (findPid fuel (hd0 l2) pid) s (fun r s' => s' = s /\
    ((r = 0 /\ forall p, p ∈ l1 ++ l2 -> ~ pid_at s p pid) \/ (r ∈ l1 ++ l2 /\ pid_at s r pid))).
Proof.
  revert l1 l2. induction fuel as [|fuel IH]; intros l1 l2 Hc Hl Hno; (destruct l2 as [|p l2];
    [apply wp_ret; split; [done|left; by rewrite app_nil_r]|]); [simpl in Hl; lia|].
  pose proof (chain_next s i l1 p l2 Hc) as (Hn & _ & H0). change (hd0 (p :: l2)) with p. cbn [findPid].
  destruct (Z.eqb_spec p 0); [done|]. destruct Hc as (Hb & Hd & Hnd & Hpid). destruct (Hpid p) as (n' & Hp & _); [set_solver|].
  apply wp_bind, (wp_getField p Fpid n'); [done|]. destruct (Z.eqb_spec n' pid) as [->|Hne].
  { apply wp_ret. split; [done|]. right. split; [set_solver|done]. }
  apply wp_bind, (wp_getField p FhtNext (hd0 l2)); [done|].
  replace (l1 ++ p :: l2) with ((l1 ++ [p]) ++ l2) in * by (by rewrite <- app_assoc).
  apply IH; [done|simpl in Hl; lia|]. intros q [Hq| ->%list_elem_of_singleton]%elem_of_app; [by apply Hno|].
  intros Hq. unfold pid_at in *. congruence.
Qed.

Lemma chain_lookup {B} s i l pid (k : Z -> M (pstate K) B) Q : chain s i l ->
  (forall r, ((r = 0 /\ forall p, p ∈ l -> ~ pid_at s p pid) \/ (r ∈ l /\ pid_at s r pid)) -> wp (k r) s Q) ->
  wp (b ← bucket i; fuel ← gets (fun s => size (objs s)); proc ← findPid fuel b.1 pid; k proc) s Q.
Proof.
  intros Hc HQ. pose proof Hc as (Hb & Hd & Hnd & Hp). apply wp_bind, wp_gets, wp_bind, wp_gets, wp_bind. rewrite Hb. cbn [fst].
  wp_use (findPid_spec (size (objs s)) s i [] l pid Hc); [|by intros p ?%elem_of_nil|].
  - apply list_size; [done|]. intros p Hin. destruct (Hp p Hin) as (n & Hn & _). by eapply fget_is_some.
  - intros r s' [-> Hr]. by apply HQ.
Qed.

Lemma pid_at_unique s p n n' : pid_at s p n -> pid_at s p n' -> n = n'.
Proof. unfold pid_at. congruence. Qed.

(** [getProcFromPid] is the lookup. *)
Lemma getProcFromPid_spec s T pid : table s T -> 0 <= pid ->
  wp (getProcFromPid pid) s (fun r s' => s' = s /\ r = default 0 (T !! pid)).
Proof.
  intros (Hlock & L & HL & HT) Hpid. unfold getProcFromPid.
  assert (Hi : 0 <= pid mod PROC_HT_SIZE < PROC_HT_SIZE) by (apply Z.mod_pos_bound; unfold PROC_HT_SIZE; lia).
  apply wp_bind, procHash_ok; [done|]. apply wp_bind, wp_acquireHt; [done|].
  apply (chain_lookup _ _ (L (pid mod PROC_HT_SIZE))); [exact (HL _ Hi)|]. intros r Hr.
  apply wp_bind, wp_modify, wp_ret. split; [destruct s; simpl in Hlock; by subst|].
  destruct Hr as [(-> & Hno)|(Hin & Hp)].
  - destruct (T !! pid) as [p|] eqn:E; [|done]. apply HT in E as (_ & Hp & Hin). by destruct (Hno p Hin).
  - assert (E : T !! pid = Some r) by (by apply HT). by rewrite E.
Qed.

Lemma fget_any m p f g v : fget m p f = Some v -> exists w, fget m p g = Some w.
Proof. unfold fget. destruct (m !! p) as [o|]; [|done]. intros _. by exists (o g). Qed.
Lemma wp_set_any p g x f v s (Q : unit -> pstate K -> Prop) :
  fget (objs s) p g = Some x -> Q tt (set_objs (fset p f v (objs s)) s) -> wp (set p f v) s Q.
Proof. intros Hx HQ. destruct (fget_any _ _ _ f _ Hx) as [w Hw]. by eapply wp_set. Qed.

Lemma chain_frame s s' i l :
  chain s i l -> buckets s' !! i = buckets s !! i ->
  (forall p f, p ∈ l -> f = FhtNext \/ f = FhtPrev \/ f = Fpid -> fget (objs s') p f = fget (objs s) p f) -> chain s' i l.
Proof.
  intros (Hb & Hd & Hnd & Hp) Eb Ef. split_and!; [by rewrite Eb| |done|].
  - eapply dll_frame; [exact Hd|]. intros p Hin. split; apply Ef; tauto.
  - intros p Hin. destruct (Hp p Hin) as (n & Hn & Hr). exists n. split; [|done]. unfold pid_at in *. rewrite Ef by tauto. done.
Qed.

(** Elements of different chains differ. *)
Lemma chain_apart s i j l p pid : chain s j l -> pid_at s p pid -> i = pid mod PROC_HT_SIZE -> j <> i -> p ∉ l.
Proof. intros (_ & _ & _ & Hp) Hpid -> Hne Hin. destruct (Hp p Hin) as (n & Hn & _ & E). unfold pid_at in *. congruence. Qed.

(** A table after the chain of one bucket has changed from [l] to [l'], where
    [changed] are the processes whose links have changed. *)
Lemma table_update s s' (T T' : gmap Z Z) (L : Z -> list Z) i l' (changed : list Z) :
  htLock s' = false -> 0 <= i < PROC_HT_SIZE -> (forall j, 0 <= j < PROC_HT_SIZE -> chain s j (L j)) ->
  (forall pid p, T !! pid = Some p <-> 0 <= pid /\ pid_at s p pid /\ p ∈ L (pid mod PROC_HT_SIZE)) ->
  chain s' i l' -> (forall j, j <> i -> buckets s' !! j = buckets s !! j) ->
  (forall p pid, pid_at s' p pid <-> pid_at s p pid) ->
  (forall p f, p ∉ changed -> f = FhtNext \/ f = FhtPrev -> fget (objs s') p f = fget (objs s) p f) ->
  (forall p, p ∈ changed -> exists pid, pid_at s p pid /\ i = pid mod PROC_HT_SIZE) ->
  (forall pid p, T' !! pid = Some p <-> 0 <= pid /\ pid_at s p pid /\ p ∈ (if decide (pid mod PROC_HT_SIZE = i) then l' else L (pid mod PROC_HT_SIZE))) ->
  table s' T'.
Proof.
  intros Hlock Hi HL HT Hl' Hb Hpid Hf Hch HT'. split; [done|].
  exists (fun j => if decide (j = i) then l' else L j). split.
  - intros j Hj. destruct (decide (j = i)) as [->|Hne]; [done|]. eapply chain_frame; [by apply HL|by apply Hb|].
    assert (Hd : forall p, p ∈ L j -> p ∉ changed).
    { intros p Hp Hc. destruct (Hch p Hc) as (pid & Hpp & Hii). by apply (chain_apart s i j (L j) p pid (HL j Hj) Hpp Hii Hne). }
    intros p f Hin [->|[->| ->]]; [apply Hf; auto|apply Hf; auto|].
    destruct (HL j Hj) as (_ & _ & _ & Hp). destruct (Hp p Hin) as (n & Hn & _). unfold pid_at in *. rewrite Hn. by apply Hpid.
  - intros pid p. rewrite Hpid, HT'. done.
Qed.

Lemma pid_at_fset s p f v q pid m : f <> Fpid -> objs s = m -> fget (fset p f v m) q Fpid = Some pid <-> pid_at s q pid.
Proof. intros Hf <-. unfold pid_at. by rewrite fget_field. Qed.
(** [procHTAdd] is the insertion. *)
Lemma table_append s s' T L p pid :
  (forall j, 0 <= j < PROC_HT_SIZE -> chain s j (L j)) ->
  (forall pid p, T !! pid = Some p <-> 0 <= pid /\ pid_at s p pid /\ p ∈ L (pid mod PROC_HT_SIZE)) ->
  pid_at s p pid -> 0 <= pid -> p <> 0 -> T !! pid = None -> let i := pid mod PROC_HT_SIZE in let l := L i in
  htLock s' = false -> objs s' = snoc_links FhtNext FhtPrev l p (objs s) ->
  buckets s' = <[i := (hd0 (l ++ [p]), p)]> (buckets s) -> table s' (<[pid := p]> T).
Proof.
  intros HL HT Hp Hpid H0 Hfresh i l Hlk Eo Eb.
  assert (Hi : 0 <= i < PROC_HT_SIZE) by (apply Z.mod_pos_bound; unfold PROC_HT_SIZE; lia).
  pose proof (HL i Hi) as (Hb & Hd & Hnd & Hpids). fold l in Hb, Hd, Hnd, Hpids.
  assert (Hpl : p ∉ l). { intros Hin. assert (E : T !! pid = Some p) by (by apply HT). congruence. }
  assert (Hget : forall q f, f <> FhtNext -> f <> FhtPrev -> fget (objs s') q f = fget (objs s) q f).
  { intros q f Hf1 Hf2. rewrite Eo. apply snoc_links_get. by left. }
  apply (table_update s s' T _ L i (l ++ [p]) (p :: l)); try done.
  - split_and!; [| | |].
    + by rewrite Eb, lookup_insert_eq, last0_snoc.
    + rewrite Eo. by apply (dll_append _ _ _ _ _ Fpid pid).
    + apply NoDup_app. split_and!; [done|set_solver|apply NoDup_singleton].
    + intros q [Hq| ->%list_elem_of_singleton]%elem_of_app.
      * destruct (Hpids q Hq) as (n & Hn & Hr). exists n. split; [|done]. unfold pid_at. by rewrite Hget.
      * exists pid. split_and!; [|done|done]. unfold pid_at. by rewrite Hget.
  - intros j Hj. by rewrite Eb, lookup_insert_ne.
  - intros q n. unfold pid_at. by rewrite Hget.
  - intros q f Hq Hf. rewrite Eo. apply snoc_links_get. right. set_solver.
  - intros q [->|Hq]%elem_of_cons; [by exists pid|]. destruct (Hpids q Hq) as (n & Hn & _ & E). by exists n.
  - intros n q. destruct (decide (n = pid)) as [->|Hn].
    + rewrite lookup_insert_eq. rewrite decide_True by done. split; [intros [= <-]; split_and!; [done|done|set_solver]|].
      intros (_ & Hq & [Hin|Hin]%elem_of_app); [|set_solver]. assert (E : T !! pid = Some q) by (apply HT; by split_and!). congruence.
    + rewrite lookup_insert_ne by done. rewrite HT. destruct (decide (n mod PROC_HT_SIZE = i)) as [E|_]; [|done]. rewrite E.
      change (L i) with l. rewrite elem_of_app, list_elem_of_singleton. split; [naive_solver|].
      intros (Hn0 & Hq & [Hin| ->]); [done|]. by pose proof (pid_at_unique _ _ _ _ Hp Hq).
Qed.

Lemma procHTAdd_spec s T p pid : table s T -> pid_at s p pid -> 0 <= pid -> p <> 0 -> T !! pid = None ->
  wp (procHTAdd p) s (fun _ s' => table s' (<[pid := p]> T) /\
    exists m b, s' = set_buckets b (set_objs m s) /\ forall q f, f <> FhtNext -> f <> FhtPrev -> fget m q f = fget (objs s) q f).
Proof.
  intros (Hlock & L & HL & HT) Hp Hpid H0 Hfresh. unfold procHTAdd.
  pose proof (fun s' => table_append s s' T L p pid HL HT Hp Hpid H0 Hfresh) as Hfin.
  set (i := pid mod PROC_HT_SIZE) in *. set (l := L i) in *. cbv zeta in Hfin.
  assert (Hi : 0 <= i < PROC_HT_SIZE) by (apply Z.mod_pos_bound; unfold PROC_HT_SIZE; lia).
  pose proof (HL i Hi) as (Hb & Hd & Hnd & Hpids). fold l in Hb, Hd, Hnd, Hpids.
  assert (Hl0 : last0 l = 0 <-> l = []) by (apply last0_nonzero; intros q; by apply (dll_nonzero _ _ _ _ _ _ _ Hd)).
  apply wp_bind, (wp_set_any p Fpid pid); [exact Hp|]. apply wp_bind, (wp_getField p Fpid pid); [psimpl; by rewrite fget_field|].
  apply wp_bind, procHash_ok; [done|]. apply wp_bind, wp_acquireHt; [done|]. apply wp_bind, wp_gets. psimpl. fold i. rewrite Hb. cbn [fst snd].
  assert (HQ : forall s', (forall q f, f <> FhtNext -> f <> FhtPrev -> fget (objs s') q f = fget (objs s) q f) ->
    objs s' = snoc_links FhtNext FhtPrev l p (objs s) -> s' = set_buckets (<[i := (hd0 (l ++ [p]), p)]> (buckets s)) (set_objs (objs s') s) ->
    table s' (<[pid := p]> T) /\ exists m b, s' = set_buckets b (set_objs m s) /\ forall q f, f <> FhtNext -> f <> FhtPrev -> fget m q f = fget (objs s) q f).
  { intros s' Hg Eo Es. split; [|by exists (objs s'); eexists]. apply Hfin; [by rewrite Es|done|by rewrite Es]. }
  assert (Hg : forall q f, f <> FhtNext -> f <> FhtPrev -> fget (snoc_links FhtNext FhtPrev l p (objs s)) q f = fget (objs s) q f)
    by (intros q f Hf1 Hf2; apply snoc_links_get; by left).
  apply wp_bind. unfold snoc_links in *. destruct (Z.eqb_spec (last0 l) 0) as [E|Hne]; cbn [negb].
  - apply wp_bind, (wp_set_any p Fpid pid); [psimpl; by rewrite fget_field|]. rewrite E in HQ, Hg. apply Hl0 in E. rewrite E in HQ.
    apply wp_modify, wp_modify, HQ; [exact Hg|done|]. destruct s; simpl in Hlock; by subst.
  - destruct (Hpids _ (last0_in l Hne)) as (n & Hn & _). 
    apply wp_bind, (wp_set_any (last0 l) Fpid n); [psimpl; by rewrite fget_field|].
    apply wp_bind, (wp_set_any p Fpid pid); [psimpl; by rewrite !fget_field|].
    rewrite hd0_snoc, decide_False in HQ by (by rewrite <- Hl0).
    apply wp_modify, wp_modify, HQ; [exact Hg|done|]. destruct s; simpl in Hlock; by subst.
Qed.

Lemma hd0_in (l : list Z) : hd0 l <> 0 -> hd0 l ∈ l.
Proof. destruct l; [done|]. intros _. by left. Qed.

Lemma table_remove s s' (T : gmap Z Z) (L : Z -> list Z) p pid l1 l2 :
  (forall j, 0 <= j < PROC_HT_SIZE -> chain s j (L j)) ->
  (forall pid p, T !! pid = Some p <-> 0 <= pid /\ pid_at s p pid /\ p ∈ L (pid mod PROC_HT_SIZE)) ->
  pid_at s p pid -> 0 <= pid -> let i := pid mod PROC_HT_SIZE in L i = l1 ++ p :: l2 ->
  htLock s' = false -> objs s' = relink FhtNext FhtPrev (last0 l1) (hd0 l2) (objs s) ->
  default (0, 0) (buckets s' !! i) = (hd0 (l1 ++ l2), last0 (l1 ++ l2)) ->
  (forall j, j <> i -> buckets s' !! j = buckets s !! j) -> table s' (delete pid T).
Proof.
  intros HL HT Hp Hpid i El Hlk Eo Eb Ej.
  assert (Hi : 0 <= i < PROC_HT_SIZE) by (apply Z.mod_pos_bound; unfold PROC_HT_SIZE; lia).
  pose proof (HL i Hi) as (Hb & Hd & Hnd & Hpids). rewrite El in *.
  assert (Hnz : forall q, q ∈ l1 ++ p :: l2 -> q <> 0) by (intros q; by apply (dll_nonzero _ _ _ _ _ _ _ Hd)).
  assert (Hget : forall q f, f <> FhtNext -> f <> FhtPrev -> fget (objs s') q f = fget (objs s) q f).
  { intros q f Hf1 Hf2. rewrite Eo. apply relink_get; by left. }
  assert (Hnd' : NoDup (l1 ++ l2) /\ p ∉ l1 ++ l2).
  { apply NoDup_app in Hnd as (H1 & H12 & [Hp2 H2]%NoDup_cons). split; [apply NoDup_app; split_and!; [done| |done]; set_solver|].
    rewrite elem_of_app. intros [Hin|Hin]; [apply (H12 p Hin); by left|done]. }
  apply (table_update s s' T _ L i (l1 ++ l2) (l1 ++ l2)); try done.
  - split_and!; [done| |by destruct Hnd'|].
    + rewrite Eo. by apply (dll_unlink _ _ _ _ p).
    + intros q Hq. destruct (Hpids q) as (n & Hn & Hr); [set_solver|]. exists n. split; [|done]. unfold pid_at. by rewrite Hget.
  - intros q n. unfold pid_at. by rewrite Hget.
  - intros q f Hq Hf. rewrite Eo. unfold relink. destruct (Z.eqb_spec (hd0 l2) 0) as [E2|E2], (Z.eqb_spec (last0 l1) 0) as [E1|E1];
      rewrite ?fget_obj; try done; intros <-; apply Hq, elem_of_app; auto using hd0_in, last0_in.
  - intros q Hq. destruct (Hpids q) as (n & Hn & _ & E); [set_solver|]. by exists n.
  - intros n q. destruct (decide (n = pid)) as [->|Hn].
    + rewrite lookup_delete_eq, decide_True by done. split; [done|]. intros (_ & Hq & Hin).
      assert (E : T !! pid = Some q) by (apply HT; split_and!; [done|done|fold i; rewrite El; set_solver]).
      assert (E' : T !! pid = Some p) by (apply HT; split_and!; [done|done|fold i; rewrite El; set_solver]).
      exfalso. apply (proj2 Hnd'). congruence.
    + rewrite lookup_delete_ne by done. rewrite HT. destruct (decide (n mod PROC_HT_SIZE = i)) as [E|_]; [|done]. rewrite E, El.
      split; [|set_solver]. intros (Hn0 & Hq & Hin). split_and!; [done|done|]. rewrite !elem_of_app, elem_of_cons in *.
      destruct Hin as [?|[->|?]]; [auto| |auto]. by pose proof (pid_at_unique _ _ _ _ Hp Hq).
Qed.

(** [procHTDel] is the deletion. *)
Lemma procHTDel_spec s T p pid : table s T -> T !! pid = Some p ->
  wp (procHTDel p) s (fun _ s' => table s' (delete pid T) /\
    exists m b, s' = set_buckets b (set_objs m s) /\ forall q f, f <> FhtNext -> f <> FhtPrev -> fget m q f = fget (objs s) q f).
Proof.
  intros (Hlock & L & HL & HT) HTp. pose proof (proj1 (HT pid p) HTp) as (Hpid & Hp & Hin).
  apply list_elem_of_split in Hin as (l1 & l2 & El).
  pose proof (fun s' => table_remove s s' T L p pid l1 l2 HL HT Hp Hpid El) as Hfin. set (i := pid mod PROC_HT_SIZE) in *. cbv zeta in Hfin.
  assert (Hi : 0 <= i < PROC_HT_SIZE) by (apply Z.mod_pos_bound; unfold PROC_HT_SIZE; lia).
  pose proof (HL i Hi) as Hc. rewrite El in Hc. pose proof (chain_next s i l1 p l2 Hc) as (Hn & Hpv & H0). destruct Hc as (Hb & Hd & Hnd & Hpids).
  assert (Hnz : forall q, q ∈ l1 ++ p :: l2 -> q <> 0) by (intros q; by apply (dll_nonzero _ _ _ _ _ _ _ Hd)).
  assert (Hl1 : last0 l1 = 0 <-> l1 = []) by (apply last0_nonzero; set_solver).
  assert (Hl2 : hd0 l2 = 0 <-> l2 = []) by (apply hd0_nonzero; set_solver).
  assert (Eh : hd0 (l1 ++ l2) = if last0 l1 =? 0 then hd0 l2 else hd0 (l1 ++ p :: l2)).
  { destruct (Z.eqb_spec (last0 l1) 0) as [E|E]; [apply Hl1 in E as ->; done|]. by destruct l1. }
  assert (Elast : last0 (l1 ++ l2) = if hd0 l2 =? 0 then last0 l1 else last0 (l1 ++ p :: l2)).
  { destruct (Z.eqb_spec (hd0 l2) 0) as [E|E]; [apply Hl2 in E as ->; by rewrite app_nil_r|].
    destruct l2 as [|b l2 _] using rev_ind; [done|]. rewrite app_comm_cons, !app_assoc. by rewrite !last0_snoc. }
  unfold procHTDel. apply wp_bind, (wp_getField p Fpid pid); [done|]. apply wp_bind, procHash_ok; [done|]. fold i.
  apply wp_bind, wp_acquireHt; [done|]. apply wp_bind, (wp_getField p FhtPrev (last0 l1)); [done|].
  apply wp_bind, (wp_getField p FhtNext (hd0 l2)); [done|]. apply wp_bind, wp_gets. psimpl. rewrite Hb. cbn [fst snd].
  assert (HQ : forall b, default (0, 0) (b !! i) = (hd0 (l1 ++ l2), last0 (l1 ++ l2)) -> (forall j, j <> i -> b !! j = buckets s !! j) ->
    wp releaseHt (set_buckets b (set_objs (relink FhtNext FhtPrev (last0 l1) (hd0 l2) (objs s)) (set_htLock true s)))
      (fun _ s' => table s' (delete pid T) /\ exists m b, s' = set_buckets b (set_objs m s) /\
        forall q f, f <> FhtNext -> f <> FhtPrev -> fget m q f = fget (objs s) q f)).
  { intros b Eb Ej. apply wp_modify. split; [by apply Hfin|]. eexists _, b. split; [by destruct s; simpl in Hlock; subst|].
    intros q f Hf1 Hf2. apply relink_get; by left. }
  rewrite Eh, Elast in HQ. unfold relink in HQ.
  assert (Hget : forall q, q ∈ l1 ++ p :: l2 -> exists n, pid_at s q n) by (intros q Hq; destruct (Hpids q Hq) as (n & ? & _); by exists n).
  apply wp_bind. destruct (Z.eqb_spec (last0 l1) 0) as [E1|E1]; cbn [negb].
  - apply wp_modify. apply wp_bind, wp_gets. psimpl. rewrite lookup_insert_eq. cbn [default fst]. apply wp_bind.
    destruct (Z.eqb_spec (hd0 l2) 0) as [E2|E2]; cbn [negb].
    + apply wp_modify. rewrite E1, E2 in *. refine (HQ (<[i := _]> (<[i := _]> (buckets s))) _ _); [by rewrite lookup_insert_eq|].
      intros j Hj. by rewrite !lookup_insert_ne.
    + destruct (Hget (hd0 l2)) as [n Hn2]; [apply elem_of_app; right; right; by apply hd0_in|].
      apply (wp_set_any (hd0 l2) Fpid n); [exact Hn2|]. rewrite E1 in *.
      refine (HQ (<[i := _]> (buckets s)) _ _); [by rewrite lookup_insert_eq|]. intros j Hj. by rewrite lookup_insert_ne.
  - destruct (Hget (last0 l1)) as [n Hn1]; [apply elem_of_app; left; by apply last0_in|].
    apply (wp_set_any (last0 l1) Fpid n); [exact Hn1|]. apply wp_bind, wp_gets. psimpl. rewrite Hb. cbn [fst snd]. apply wp_bind.
    destruct (Z.eqb_spec (hd0 l2) 0) as [E2|E2]; cbn [negb].
    + apply wp_modify. rewrite E2 in *. refine (HQ (<[i := _]> (buckets s)) _ _); [by rewrite lookup_insert_eq|].
      intros j Hj. by rewrite lookup_insert_ne.
    + destruct (Hget (hd0 l2)) as [n2 Hn2]; [apply elem_of_app; right; right; by apply hd0_in|].
      apply (wp_set_any (hd0 l2) Fpid n2); [psimpl; by rewrite fget_field|].
      refine (HQ (buckets s) _ _); [exact Hb|done].
Qed.
End table.

Section properties.
Context {K : Type} `{ProcessParts K}.
Implicit Types s : pstate K.

(** C25: The hash table of processes is a finite map from pids: when the table
    holds the processes [T], [getProcFromPid] returns the one with the pid, or
    [NULL], and changes nothing; [procHTAdd] enters a process with a new pid and
    [procHTDel] removes one that is there, whatever other pids share its
    bucket.  The lock is free afterwards. *)
Theorem process_table_refines s T : table s T ->
  (forall pid, 0 <= pid -> wp (getProcFromPid pid) s (fun r s' => s' = s /\ r = default 0 (T !! pid))) /\
  (forall p pid, fget (objs s) p Fpid = Some pid -> 0 <= pid -> p <> 0 -> T !! pid = None ->
    wp (procHTAdd p) s (fun _ s' => table s' (<[pid := p]> T))) /\
  (forall p pid, T !! pid = Some p -> wp (procHTDel p) s (fun _ s' => table s' (delete pid T))).
Proof.
  intros HT. split_and!.
  - intros pid. by apply getProcFromPid_spec.
  - intros p pid Hp Hpid H0 Hf. wp_use (procHTAdd_spec s T p pid HT Hp Hpid H0 Hf). by intros _ s' [? _].
  - intros p pid Hp. wp_use (procHTDel_spec s T p pid HT Hp). by intros _ s' [? _].
Qed.

(** A negative pid that is not a multiple of 64 hashes to a negative index:
    the lookup reads in front of the table. *)
Theorem negative_pid_faults pid s : pid < 0 -> Z.rem pid 64 <> 0 -> getProcFromPid pid s = Fault.
Proof.
  intros Hp Hr. unfold getProcFromPid, procHash, PROC_HT_SIZE. cbv zeta.
  assert (Hb : -64 < Z.rem pid 64 <= 0) by (pose proof (Z.rem_nonpos pid 64 ltac:(lia) ltac:(lia)); pose proof (Z.rem_bound_abs pid 64 ltac:(lia)); lia).
  destruct (Z.ltb_spec (Z.rem pid 64) 0); [done|lia].
Qed.

(** What a run that returns has passed through. *)
Lemma done_bind {A B} (m : M (pstate K) A) (k : A -> M (pstate K) B) s r s' :
  (m ≫= k) s = Done (r, s') -> exists a s1, m s = Done (a, s1) /\ k a s1 = Done (r, s').
Proof. unfold mbind, M_bind. destruct (m s) as [[a s1]| |]; [eauto|done|done]. Qed.
Lemma done_get p f s v s' : get p f s = Done (v, s') -> fget (objs s) p f = Some v /\ s' = s.
Proof. unfold get, deref. destruct (fget (objs s) p f); naive_solver. Qed.
Lemma done_acquire p f s r s' : acquire p f s = Done (r, s') -> objs s' = fset p f 1 (objs s).
Proof.
  intros (l & s1 & (Hl & ->)%done_get & E)%done_bind. destruct (l =? 0); [|done]. unfold set in E. destruct (objs s !! p); [|done].
  injection E as <- <-. done.
Qed.

(** A process that is the only member of its group never returns from
    [setpgid]: the code writes through [newGroup], which it has not set. *)
Theorem setpgid_sole_member_never_returns proc pgid grp s r s' :
  fget (objs s) proc Fgroup = Some grp -> grp <> 0 -> fget (objs s) grp Fgfirst = Some proc -> fget (objs s) grp Fglast = Some proc ->
  0 <= pgid -> setpgid proc pgid s <> Done (r, s').
Proof.
  intros Hg H0 Hf Hl Hp. unfold setpgid. destruct (Z.ltb_spec pgid 0); [lia|].
  intros (pid & s0 & (_ & ->)%done_get & ([] & s1 & Ho%done_acquire & ([] & s2 & E & (b & s3 & Hb & Hrest)%done_bind)%done_bind)%done_bind)%done_bind.
  unfold acquireSessions in E. destruct (sessionLock s1); [done|]. injection E as <-.
  assert (Hs : forall q f, f <> Flock -> fget (objs s1) q f = fget (objs s) q f) by (intros q f Hq; rewrite Ho; by apply fget_field).
  unfold soleMember in Hb. apply done_bind in Hb as (g & s4 & (Eg & ->)%done_get & Hb).
  rewrite Hs, Hg in Eg by done. injection Eg as <-.
  destruct (Z.eqb_spec grp 0); [done|]. apply done_bind in Hb as (a & s4 & (Ea & ->)%done_get & Hb).
  apply done_bind in Hb as (c & s4 & (Ec & ->)%done_get & Hb). rewrite Hs in Ea, Ec by done.
  rewrite Hf in Ea. rewrite Hl in Ec. injection Ea as <-. injection Ec as <-. injection Hb as <- <-.
  rewrite !Z.eqb_refl in Hrest. cbn [andb] in Hrest.
  apply done_bind in Hrest as (error & s4 & Hx & _). apply done_bind in Hx as (x & s5 & _ & Hx).
  apply done_bind in Hx as (y & s6 & _ & Hx). apply done_bind in Hx as (z & s7 & _ & Hx). done.
Qed.
End properties.

Section witnesses.
(** A kernel that hands out new objects and keeps a list of the threads that
    were made ready. *)
#[local] Instance demo_parts : ProcessParts (Z * list Z) := {
  kzalloc k := (k.1, (k.1 + 16, k.2)); kfree _ k := k; copyFiles _ _ k := (0, k); copyMem _ _ k := (0, k); copyPerm _ _ k := k;
  mmCreateAddressSpace k := (4096, k); allocKStack k := (k.1, (k.1 + 16, k.2)); initForkRetThread _ _ k := k; mmapDestroy _ k := k;
  closeFiles _ k := k; deallocPhysPage _ k := k; threadQueueRemove _ k := k; readyQueuePush t k := (k.1, k.2 ++ [t])
}.
Definition initThread : Z := 24.
Definition init_object : object := upd1 Fpid 1 (upd1 FmainThread initThread zeroed).
(** Before [execInit]: the process 1 and its thread. *)
Definition boot_state : pstate (Z * list Z) :=
  mkPs (<[initProcess := init_object]> (<[initThread := upd1 Fprocess initProcess (upd1 Ftstate 1 zeroed)]> ∅)) ∅ false (mkRbState ∅ 0)
    0 0 false 2 initThread (1024, []).
Definition boot : M (pstate (Z * list Z)) unit := procHTAdd initProcess;; setpgid initProcess 0;; mret tt.
(** The thread of a process runs. *)
Definition schedule (pid : Z) : M (pstate (Z * list Z)) unit :=
  p ← getProcFromPid pid; t ← get p FmainThread;
  modify (fun s => mkPs (objs s) (buckets s) (htLock s) (groups s) (firstSession s) (lastSession s) (sessionLock s) (curPid s) t (parts s)).
Definition exits (pid status : Z) : M (pstate (Z * list Z)) unit := schedule pid;; sysExit status;; schedule 1.

(** Three children of one process, reaped from the middle of their list:
    [unlinkChild] does not mend [prevChild] of the next one, so the second wait
    follows a pointer to a process that was freed. *)
Theorem reap_middle_child_faults :
  (boot;; sysFork;; sysFork;; sysFork;; exits 2 0;; exits 3 0;; exits 4 0;; sysWaitPid 3;; sysWaitPid 2) boot_state = Fault /\
  wp (boot;; sysFork;; sysFork;; sysFork;; exits 2 0;; exits 3 0;; exits 4 0;; sysWaitPid 2;; sysWaitPid 3) boot_state (fun r _ => r = Waited 3 (Some 0)).
Proof. vm_compute. done. Qed.

(** A parent that waits for any child learns neither its pid nor its status: if
    the child has exited before, it gets the pid but the status of its own
    process; if it had to stop, it gets the filter 0. *)
Theorem waitpid_reports_parent :
  wp (boot;; sysFork;; exits 2 7;; sysWaitPid 0) boot_state (fun r _ => r = Waited 2 (Some 0)) /\
  wp (boot;; sysFork;; sysWaitPid 0;; exits 2 7;; waitResume) boot_state (fun r s' =>
    r = Waited 0 (Some 0) /\ wp (getProcFromPid 2) s' (fun p _ => p = 0)).
Proof. vm_compute. done. Qed.

(** A session leader's new group is not entered into the tree of groups:
    nobody can find it. *)
Theorem setsid_group_not_found :
  wp (boot;; sysFork;; schedule 2;; sysSetsid) boot_state (fun r s' => r = 2 /\ wp (getPGroup 2) s' (fun g _ => g = 0)).
Proof. vm_compute. done. Qed.

(** Moving to another group does not leave the old one: the list of the old
    group still starts with the process, and its other members are lost. *)
Fixpoint members (fuel : nat) (p : Z) : M (pstate (Z * list Z)) (list Z) :=
  match fuel with
  | O => nofuel
  | S fuel => if p =? 0 then mret [] else pid ← get p Fpid; next ← get p FgrpNext; l ← members fuel next; mret (pid :: l)
  end.
Definition groupMembers (pgid : Z) : M (pstate (Z * list Z)) (list Z) := g ← getPGroup pgid; first ← get g Fgfirst; members 10 first.
Theorem setpgid_keeps_old_links :
  wp (boot;; sysFork;; sysFork;; sysFork;; groupMembers 1) boot_state (fun l _ => l = [1; 2; 3; 4]) /\
  wp (boot;; sysFork;; sysFork;; sysFork;; sysSetpgid 4 0;; sysSetpgid 2 4;; groupMembers 1) boot_state (fun l _ => l = [1; 2]).
Proof. vm_compute. done. Qed.

Lemma boot_table : table boot_state ∅.
Proof.
  split; [done|]. exists (fun _ => []). split.
  - intros i Hi. split_and!; [done|done|constructor|by intros p ?%elem_of_nil].
  - intros pid p. rewrite lookup_empty. split; [done|]. by intros (_ & _ & ?%elem_of_nil).
Qed.
Lemma process_table_refines_witness :
  wp (procHTAdd initProcess) boot_state (fun _ s' => table s' (<[1 := initProcess]> ∅)) /\
  wp (getProcFromPid 1) boot_state (fun r s' => s' = boot_state /\ r = 0).
Proof.
  destruct (process_table_refines boot_state ∅ boot_table) as (Hget & Hadd & _). split.
  - by apply Hadd.
  - by apply (Hget 1).
Defined.
Lemma negative_pid_faults_witness : getProcFromPid (-5) boot_state = Fault.
Proof. by apply (negative_pid_faults (-5) boot_state). Defined.

(** A process (32) alone in its group (48). *)
Definition lone_state : pstate (Z * list Z) :=
  set_objs (<[32 := upd1 Fpid 5 (upd1 Fgroup 48 zeroed)]> (<[48 := upd1 Fgfirst 32 (upd1 Fglast 32 zeroed)]> (objs boot_state))) boot_state.
Lemma setpgid_sole_member_never_returns_witness : setpgid 32 9 lone_state <> Done (0, lone_state).
Proof. by apply (setpgid_sole_member_never_returns 32 9 48 lone_state 0 lone_state). Defined.
End witnesses.
