(* ===== verification/Mmap.v ===== *)
(** * Memory maps of processes: [kernel/mm/mmap.c], [kernel/mm/cow.c], and the
    copy of a memory map in [kernel/main/fork.c]

    Each process has a list of memory entries, doubly linked and sorted by
    address.  The entries, the shared memory objects and the list heads live in
    one store, by address, so a pointer to a freed entry cannot be followed.
    The pages behind the entries are an interface. *)

From S2P Require Import Prelude Word Errno PageMap Fd.

Definition MMAP_FLAG_EXEC : Z := 1.
Definition MMAP_FLAG_WRITE : Z := 2.
Definition MMAP_FLAG_SHARED : Z := 4.
Definition MMAP_FLAG_FIXED : Z := 8.
Definition MMAP_FLAG_ANON : Z := 16.
Definition MMAP_FLAG_COW : Z := 32.
Definition PAGE_SIZE : Z := 4096.
Definition PAGE_FLAG_CLEAN : Z := 0x400.
Definition PAGE_FLAG_COW : Z := 0x400.
Definition sizeofMemoryEntry : Z := 56.
Definition sizeofSharedMemory : Z := 24.
Definition sizeofPhysPage : Z := 8.

Record MemoryEntry := mkEntry {
  vaddr : Z; msize : Z; mflags : Z; mnext : Z; mprev : Z; shared : Z; sharedOffset : Z
}.
Record SharedMemory := mkShared { refCount : Z; nrofPages : Z; physPages : list Z }.
(** The fields of [struct Process] that hold its memory map. *)
Record ProcessMem := mkProcMem { firstMemEntry : Z; lastMemEntry : Z; memLock : bool }.

Definition e_vaddr (v : Z) (e : MemoryEntry) := mkEntry v (msize e) (mflags e) (mnext e) (mprev e) (shared e) (sharedOffset e).
Definition e_size (v : Z) (e : MemoryEntry) := mkEntry (vaddr e) v (mflags e) (mnext e) (mprev e) (shared e) (sharedOffset e).
Definition e_flags (v : Z) (e : MemoryEntry) := mkEntry (vaddr e) (msize e) v (mnext e) (mprev e) (shared e) (sharedOffset e).
Definition e_next (v : Z) (e : MemoryEntry) := mkEntry (vaddr e) (msize e) (mflags e) v (mprev e) (shared e) (sharedOffset e).
Definition e_prev (v : Z) (e : MemoryEntry) := mkEntry (vaddr e) (msize e) (mflags e) (mnext e) v (shared e) (sharedOffset e).
Definition e_shared (v : Z) (e : MemoryEntry) := mkEntry (vaddr e) (msize e) (mflags e) (mnext e) (mprev e) v (sharedOffset e).
Definition e_offset (v : Z) (e : MemoryEntry) := mkEntry (vaddr e) (msize e) (mflags e) (mnext e) (mprev e) (shared e) v.
Definition p_first (v : Z) (p : ProcessMem) := mkProcMem v (lastMemEntry p) (memLock p).
Definition p_last (v : Z) (p : ProcessMem) := mkProcMem (firstMemEntry p) v (memLock p).
Definition p_lock (b : bool) (p : ProcessMem) := mkProcMem (firstMemEntry p) (lastMemEntry p) b.

(** What the memory map uses of the page tables.  [readPte] and [writePte] go
    through the pointer of [mmGetEntry] and may fault. *)
Class UserPages (V : Type) := {
  allocPageAt : Z -> Z -> Z -> M V unit;
  deallocPages : Z -> Z -> M V unit;
  allocPhysPage : M V Z;
  deallocPhysPage : Z -> M V unit;
  ioremap : Z -> Z -> M V Z;
  iounmap : Z -> Z -> M V unit;
  mmGetPageEntry : Z -> M V Z;
  readPte : Z -> M V Z;
  writePte : Z -> Z -> M V unit;
  mmMapPage : Z -> Z -> Z -> M V unit;
  mmUnmapUserspace : M V unit;
  tlbReloadCR3Local : M V unit;
  tlbInvalidateLocal : Z -> Z -> M V unit;
  copyPage : Z -> Z -> M V unit;              (* memcpy of one page *)
  excStackPush : M V unit;
  excStackPop : M V unit
}.

Record mm (V : Type) := mkMm {
  entries : gmap Z MemoryEntry;
  shareds : gmap Z SharedMemory;
  procs : gmap Z ProcessMem;
  curProc : Z;                                (* getCurrentThread()->process *)
  pages : V
}.
Arguments mkMm {V}.
Arguments entries {V}.
Arguments shareds {V}.
Arguments procs {V}.
Arguments curProc {V}.
Arguments pages {V}.

Definition set_entries {V} (m : gmap Z MemoryEntry) (s : mm V) : mm V := mkMm m (shareds s) (procs s) (curProc s) (pages s).
Definition set_shareds {V} (m : gmap Z SharedMemory) (s : mm V) : mm V := mkMm (entries s) m (procs s) (curProc s) (pages s).
Definition set_procs {V} (m : gmap Z ProcessMem) (s : mm V) : mm V := mkMm (entries s) (shareds s) m (curProc s) (pages s).
Definition set_pages {V} (v : V) (s : mm V) : mm V := mkMm (entries s) (shareds s) (procs s) (curProc s) v.

Section mmap.
Context {V : Type} `{KernelMemory V} `{UserPages V}.
Notation mmM := (M (mm V)).

Definition onPages {A} (m : M V A) : mmM A := fun s =>
  match m (pages s) with Done (a, v) => Done (a, set_pages v s) | Fault => Fault | NoFuel => NoFuel end.
Definition allocObject (n : Z) : mmM Z := fun s => let '(p, v) := kmalloc n (pages s) in Done (p, set_pages v s).
Definition freeObject (p : Z) : mmM unit := modify (fun s => set_pages (kfree p (pages s)) s).

(** Pointers; the null pointer is never an object. *)
Definition getAt {B} (m : mm V -> gmap Z B) (p : Z) : mmM B := if p =? 0 then fault else deref (fun s => m s !! p).
Definition getEntry := getAt entries.
Definition getShared := getAt shareds.
Definition getProc := getAt procs.
Definition putEntry (p : Z) (e : MemoryEntry) : mmM unit := modify (fun s => set_entries (<[p := e]> (entries s)) s).
Definition putShared (p : Z) (x : SharedMemory) : mmM unit := modify (fun s => set_shareds (<[p := x]> (shareds s)) s).
Definition putProc (p : Z) (x : ProcessMem) : mmM unit := modify (fun s => set_procs (<[p := x]> (procs s)) s).
Definition updEntry (p : Z) (f : MemoryEntry -> MemoryEntry) : mmM unit := e ← getEntry p; putEntry p (f e).
Definition updShared (p : Z) (f : SharedMemory -> SharedMemory) : mmM unit := x ← getShared p; putShared p (f x).
Definition updProc (p : Z) (f : ProcessMem -> ProcessMem) : mmM unit := x ← getProc p; putProc p (f x).
(** A spinlock that is held already would spin for ever. *)
Definition acquireMem (proc : Z) : mmM unit := p ← getProc proc; if memLock p then fault else putProc proc (p_lock true p).
Definition releaseMem (proc : Z) : mmM unit := updProc proc (p_lock false).
Definition fuel : mmM nat := gets (fun s => size (entries s)).

Definition endOf (e : MemoryEntry) : Z := u64 (vaddr e + msize e).

Definition mmapSame (a b : MemoryEntry) : bool := mflags a =? mflags b.

Fixpoint findLowerHigher (fuel : nat) (lower cur newStart : Z) : mmM (Z * Z) :=
  if cur =? 0 then mret (lower, 0)
  else match fuel with
  | O => nofuel
  | S fuel =>
      e ← getEntry cur;
      if newStart <? vaddr e then mret (lower, cur) else findLowerHigher fuel cur (mnext e) newStart
  end.

(** The end of the last entry of the process. *)
Definition behindLast (proc : Z) : mmM Z := p ← getProc proc; e ← getEntry (lastMemEntry p); mret (endOf e).

Definition getVaddr (lower higher proc entry : Z) : mmM unit :=
  e ← getEntry entry;
  if has (mflags e) MMAP_FLAG_FIXED then updEntry entry (e_flags (Z.land (mflags e) (u32 (Z.lnot MMAP_FLAG_FIXED))))
  else
    let newEnd := endOf e in
    lowEnd ← (if negb (lower =? 0) then l ← getEntry lower; mret (endOf l) else mret (vaddr e));
    highStart ← (if negb (higher =? 0) then h ← getEntry higher; mret (vaddr h) else mret newEnd);
    if (lowEnd <=? vaddr e) && (newEnd <=? highStart) then mret tt
    else v ← behindLast proc; updEntry entry (e_vaddr v).

Fixpoint deallocShared (n : nat) (i : Z) (x : SharedMemory) : mmM unit :=
  match n with
  | O => mret tt
  | S n => page ← deref (fun _ => physPages x !! Z.to_nat i); onPages (deallocPhysPage page);; deallocShared n (i + 1) x
  end.

Definition deleteEntry (entry : Z) : mmM Z :=
  e ← getEntry entry;
  (if has (mflags e) MMAP_FLAG_SHARED then
     x ← getShared (shared e);
     let refs := u32 (refCount x - 1) in
     putShared (shared e) (mkShared refs (nrofPages x) (physPages x));;
     if refs =? 0 then
       (if has (mflags e) MMAP_FLAG_ANON then deallocShared (Z.to_nat (nrofPages x)) 0 x else mret tt);;
       modify (fun s => set_shareds (delete (shared e) (shareds s)) s);;
       freeObject (shared e)
     else mret tt
   else mret tt);;
  modify (fun s => set_entries (delete entry (entries s)) s);;
  freeObject entry;;
  mret (mnext e).

(** [mmapCreateEntry], the new entry overlaps the end of [lower] or more: the
    entry that is last now, or no memory. *)
Definition splitLower (lower higher proc new newStart newEnd : Z) : mmM (option Z) :=
  updEntry lower (e_next new);;
  l ← getEntry lower;
  let lowStart := vaddr l in
  let lowEnd := endOf l in
  let llSize := u64 (newStart - lowStart) in
  let lhSize := s64 (lowEnd - newEnd) in
  (if llSize =? 0 then
     deleteEntry lower;;
     updEntry new (e_prev (mprev l));;
     if negb (mprev l =? 0) then updEntry (mprev l) (e_next new) else updProc proc (p_first new)
   else updEntry lower (e_size llSize));;
  let dealloc := onPages (deallocPages newStart (u64 ((if lowEnd <? newEnd then lowEnd else newEnd) - newStart))) in
  if 0 <? lhSize then
    lh ← allocObject sizeofMemoryEntry;
    if lh =? 0 then mret None
    else
      l ← getEntry lower;
      putEntry lh (mkEntry newEnd lhSize (mflags l) higher new (shared l) (u64 (sharedOffset l + u64 (newEnd - lowStart))));;
      (if negb (shared l =? 0) then updShared (shared l) (fun x => mkShared (u32 (refCount x + 1)) (nrofPages x) (physPages x)) else mret tt);;
      updEntry new (e_next lh);;
      (if negb (higher =? 0) then updEntry higher (e_prev lh) else updProc proc (p_last lh));;
      dealloc;; mret (Some lh)
  else dealloc;; mret (Some new).

(** The loop of [mmapCreateEntry] over the entries above. *)
Fixpoint absorb (fuel : nat) (proc new newEnd higher : Z) : mmM unit :=
  updEntry new (e_next higher);;
  if higher =? 0 then updProc proc (p_last new)
  else match fuel with
  | O => nofuel
  | S fuel =>
      updEntry higher (e_prev new);;
      h ← getEntry higher;
      if newEnd <=? vaddr h then mret tt
      else
        let overlapSize := u64 (newEnd - vaddr h) in
        if overlapSize <? msize h then
          updEntry higher (fun h => mkEntry (u64 (vaddr h + overlapSize)) (u64 (msize h - overlapSize)) (mflags h) (mnext h) (mprev h)
                                            (shared h) (u64 (sharedOffset h + overlapSize)))
        else
          higher ← deleteEntry higher;
          absorb fuel proc new newEnd higher
  end.

(** Linking the new entry behind [lower]: the entry from which the loop goes on
    and its end, or no memory. *)
Definition linkLower (lower higher proc new newStart newEnd : Z) : mmM (option (Z * Z)) :=
  updEntry new (e_prev lower);;
  if lower =? 0 then updProc proc (p_first new);; mret (Some (new, newEnd))
  else
    l ← getEntry lower;
    e ← getEntry new;
    let lowEnd := endOf l in
    if (lowEnd <? newStart) || ((newStart =? lowEnd) && negb (mmapSame l e)) then
      updEntry lower (e_next new);; mret (Some (new, newEnd))
    else if mmapSame l e then
      let size := u64 ((if lowEnd <? newEnd then newEnd else lowEnd) - vaddr l) in
      updEntry lower (e_size size);;
      modify (fun s => set_entries (delete new (entries s)) s);;
      freeObject new;;
      mret (Some (lower, u64 (vaddr l + size)))
    else
      last ← splitLower lower higher proc new newStart newEnd;
      mret ((fun p => (p, newEnd)) <$> last).

(** The result and, unless memory ran out at the start, the address that is
    stored through [out]. *)
Definition mmapCreateEntry (proc : Z) (newEntry : MemoryEntry) : mmM (Z * option Z) :=
  new ← allocObject sizeofMemoryEntry;
  if new =? 0 then mret (- ENOMEM, None)
  else
    putEntry new newEntry;;
    acquireMem proc;;
    (if vaddr newEntry =? 0 then v ← behindLast proc; updEntry new (e_vaddr v) else mret tt);;
    e ← getEntry new;
    let newStart := vaddr e in
    n ← fuel; p ← getProc proc;
    lowerHigher ← findLowerHigher n 0 (firstMemEntry p) newStart;
    let '(lower, higher) := lowerHigher in
    getVaddr lower higher proc new;;
    e ← getEntry new;
    let out := vaddr e in
    let newEnd := u64 (newStart + msize newEntry) in
    linked ← linkLower lower higher proc new newStart newEnd;
    match linked with
    | None => releaseMem proc;; mret (- ENOMEM, Some out)
    | Some (last, lastEnd) =>
        n ← fuel;
        absorb n proc last lastEnd higher;;
        releaseMem proc;;
        mret (0, Some out)
    end.

Fixpoint findMemEntry (fuel : nat) (cur addr : Z) : mmM Z :=
  if cur =? 0 then mret 0
  else match fuel with
  | O => nofuel
  | S fuel =>
      e ← getEntry cur;
      if (vaddr e <=? addr) && (addr <? endOf e) then mret cur else findMemEntry fuel (mnext e) addr
  end.
Definition mmapGetEntry (proc addr : Z) : mmM Z := n ← fuel; p ← getProc proc; findMemEntry n (firstMemEntry p) addr.

Fixpoint destroyFrom (fuel : nat) (entry : Z) : mmM unit :=
  if entry =? 0 then mret tt
  else match fuel with O => nofuel | S fuel => next ← deleteEntry entry; destroyFrom fuel next end.
Definition mmapDestroy (proc : Z) : mmM unit :=
  n ← fuel; p ← getProc proc;
  destroyFrom n (firstMemEntry p);;
  updProc proc (p_first 0);;
  updProc proc (p_last 0);;
  onPages mmUnmapUserspace;;
  onPages tlbReloadCR3Local.

(** [unset] is the local [ret] that stays uninitialised when no entry could be
    made. *)
Definition sysMmap (unset : Z) (addr size flags : Z) : mmM Z :=
  let checked := negb (addr =? 0) in
  let error := validateUserPointer addr size in
  if checked && negb (error =? 0) then mret (u64 error)
  else if checked && (negb (addr mod PAGE_SIZE =? 0) || negb (size mod PAGE_SIZE =? 0) || (size =? 0)) then mret (u64 (- EINVAL))
  else if negb (has flags MMAP_FLAG_ANON) then mret (u64 (- ENOSYS))
  else
    let flags := if has flags MMAP_FLAG_SHARED then Z.land flags (Z.lnot MMAP_FLAG_SHARED) else Z.lor flags MMAP_FLAG_COW in
    proc ← gets curProc;
    r ← mmapCreateEntry proc (mkEntry addr size (u32 flags) 0 0 0 0);
    let ret := default unset r.2 in
    let pFlags := Z.lor (Z.lor PAGE_FLAG_CLEAN PAGE_FLAG_INUSE) PAGE_FLAG_USER in
    let pFlags := if has flags MMAP_FLAG_WRITE then Z.lor pFlags PAGE_FLAG_WRITE else pFlags in
    let pFlags := if has flags MMAP_FLAG_EXEC then Z.lor pFlags PAGE_FLAG_EXEC else pFlags in
    onPages (allocPageAt ret size pFlags);;
    mret ret.

(** One turn of the loop of [sysMunmap] on an entry that overlaps; [false] when
    memory runs out.  The flags of the part above are never set: they are what
    the fresh memory holds. *)
Definition unmapEntry (unset proc cur addr end_ : Z) : mmM bool :=
  c ← getEntry cur;
  let curStart := vaddr c in
  let curEnd := endOf c in
  let lSize := s64 (addr - curStart) in
  let hSize := s64 (curEnd - end_) in
  ok ← (if 0 <? hSize then
          h ← allocObject sizeofMemoryEntry;
          if h =? 0 then mret false
          else
            putEntry h (mkEntry end_ hSize unset (mnext c) cur (shared c) (u64 (sharedOffset c + end_ - curStart)));;
            (if negb (shared c =? 0) then updShared (shared c) (fun x => mkShared (u32 (refCount x + 1)) (nrofPages x) (physPages x)) else mret tt);;
            (if mnext c =? 0 then updProc proc (p_last h) else mret tt);;
            updEntry cur (e_next h);;
            updEntry cur (e_size (u64 (addr - curStart)));;
            mret true
        else mret true);
  if negb ok then mret false
  else if 0 <? lSize then updEntry cur (e_size lSize);; mret true
  else
    c ← getEntry cur;
    (if negb (mprev c =? 0) then
       updEntry (mprev c) (e_next (mnext c));;
       (if negb (mnext c =? 0) then updProc proc (p_last (mprev c)) else mret tt)
     else updProc proc (p_first (mnext c)));;
    deleteEntry cur;;
    mret true.

Fixpoint unmapFrom (unset : Z) (fuel : nat) (proc cur addr end_ : Z) : mmM bool :=
  if cur =? 0 then mret true
  else match fuel with
  | O => nofuel
  | S fuel =>
      c ← getEntry cur;
      if (end_ <=? vaddr c) || (endOf c <=? addr) then unmapFrom unset fuel proc (mnext c) addr end_
      else
        ok ← unmapEntry unset proc cur addr end_;
        if negb ok then mret false else unmapFrom unset fuel proc (mnext c) addr end_
  end.

Definition sysMunmap (unset addr size : Z) : mmM Z :=
  let error := validateUserPointer addr size in
  if negb (error =? 0) then mret error
  else if negb (addr mod PAGE_SIZE =? 0) || negb (size mod PAGE_SIZE =? 0) then mret (- EINVAL)
  else
    proc ← gets curProc;
    acquireMem proc;;
    n ← fuel; p ← getProc proc;
    ok ← unmapFrom unset n proc (firstMemEntry p) addr (u64 (addr + size));
    (if ok : bool then onPages (deallocPages addr size) else mret tt);;
    releaseMem proc;;
    mret (if ok : bool then 0 else - ENOMEM).

(** ** Copy on write *)

Definition alignLow (ptr a : Z) : Z := ptr - ptr mod a.
Definition privateFlags (oldPageFlags : Z) : Z :=
  Z.lor (Z.lor (Z.lor (Z.lor oldPageFlags PAGE_FLAG_USER) PAGE_FLAG_WRITE) PAGE_FLAG_INUSE) PAGE_FLAG_PRESENT.

(** The part of [mmDoCOW] that makes a copy. *)
Definition copyOnWrite (proc addr flags oldPageFlags : Z) : mmM Z :=
  newPage ← onPages allocPhysPage;
  if newPage =? 0 then mret (- ENOMEM)
  else
    new ← onPages (ioremap newPage PAGE_SIZE);
    if new =? 0 then onPages (deallocPhysPage newPage);; mret (- ENOMEM)
    else
      onPages (copyPage new addr);;
      onPages (iounmap new PAGE_SIZE);;
      mmapCreateEntry proc (mkEntry addr PAGE_SIZE flags 0 0 0 0);;
      onPages (writePte addr (Z.lor newPage (privateFlags oldPageFlags)));;
      onPages (tlbInvalidateLocal addr 1);;
      mret 0.

Definition mmDoCOW (addr : Z) : mmM Z :=
  let error := validateUserPointer addr 1 in
  if negb (error =? 0) then mret error
  else
    let addr := alignLow addr PAGE_SIZE in
    present ← onPages (mmGetPageEntry addr);
    if present =? 0 then mret (- EINVAL)
    else
      pte ← onPages (readPte addr);
      if negb (has pte PAGE_FLAG_COW) then mret (- EINVAL)
      else
        onPages excStackPush;;
        let oldPageFlags := Z.land pte PAGE_FLAG_EXEC in
        proc ← gets curProc;
        acquireMem proc;;
        memEntry ← mmapGetEntry proc addr;
        e ← getEntry memEntry;
        let flags := Z.land (mflags e) (u32 (Z.lnot MMAP_FLAG_SHARED)) in
        let flags := Z.lor flags (Z.lor MMAP_FLAG_ANON MMAP_FLAG_FIXED) in
        skip ← (if has flags MMAP_FLAG_SHARED then x ← getShared (shared e); mret (refCount x =? 1) else mret false);
        error ← (if skip : bool then
                   onPages (writePte addr (Z.lor (Z.land pte PAGE_MASK) (privateFlags oldPageFlags)));;
                   updEntry memEntry (e_flags flags);;
                   modify (fun s => set_shareds (delete (shared e) (shareds s)) s);;
                   freeObject (shared e);;
                   releaseMem proc;;
                   mret 0
                 else
                   releaseMem proc;;
                   copyOnWrite proc addr flags oldPageFlags);
        onPages excStackPop;;
        mret error.

(** ** Copying the map of a process: [copyMem] and [forkRet] of [fork.c] *)

Definition sizeToPages (size : Z) : Z := size / PAGE_SIZE + (if size mod PAGE_SIZE =? 0 then 0 else 1).

(** The pages of an entry become shared, in both processes; their addresses. *)
Fixpoint sharePages (n : nat) (curAddr : Z) : mmM (list Z) :=
  match n with
  | O => mret []
  | S n =>
      pte ← onPages (readPte curAddr);
      onPages (writePte curAddr (Z.lor pte (Z.lor PAGE_FLAG_COW PAGE_FLAG_SHARED)));;
      pte ← onPages (readPte curAddr);
      onPages (writePte curAddr (Z.land pte (u64 (Z.lnot (Z.lor PAGE_FLAG_WRITE PAGE_FLAG_INUSE)))));;
      pte ← onPages (readPte curAddr);
      rest ← sharePages n (u64 (curAddr + PAGE_SIZE));
      mret (Z.land pte PAGE_MASK :: rest)
  end.

(** Sharing the memory of the entry [cur] with its copy [new]: 0 or an error. *)
Definition shareEntry (cur new : Z) : mmM Z :=
  e ← getEntry cur;
  if has (mflags e) MMAP_FLAG_SHARED then
    updShared (shared e) (fun x => mkShared (u32 (refCount x + 1)) (nrofPages x) (physPages x));;
    updEntry new (e_shared (shared e));;
    mret 0
  else
    let n := sizeToPages (msize e) in
    updEntry cur (e_offset 0);;
    sh ← allocObject (u64 (sizeofSharedMemory + (n - 1) * sizeofPhysPage));
    if sh =? 0 then mret (- ENOMEM)
    else
      phys ← sharePages (Z.to_nat n) (vaddr e);
      putShared sh (mkShared 2 n phys);;
      onPages (tlbInvalidateLocal (vaddr e) n);;
      updEntry cur (fun e => e_flags (Z.lor (mflags e) MMAP_FLAG_SHARED) (e_shared sh e));;
      updEntry new (fun e => e_flags (Z.lor (mflags e) MMAP_FLAG_SHARED) (e_shared sh e));;
      mret 0.

Fixpoint copyEntries (fuel : nat) (newProc curEntry prev : Z) : mmM Z :=
  if curEntry =? 0 then updProc newProc (p_last prev);; mret 0
  else match fuel with
  | O => nofuel
  | S fuel =>
      newEntry ← allocObject sizeofMemoryEntry;
      if newEntry =? 0 then mret (- ENOMEM)
      else
        e ← getEntry curEntry;
        putEntry newEntry (e_prev prev (e_next 0 e));;
        (if negb (prev =? 0) then updEntry prev (e_next newEntry) else updProc newProc (p_first newEntry));;
        error ← shareEntry curEntry newEntry;
        if negb (error =? 0) then mret error
        else
          e ← getEntry curEntry;
          copyEntries fuel newProc (mnext e) newEntry
  end.
Definition copyMem (proc newProc : Z) : mmM Z :=
  n ← fuel; p ← getProc proc; copyEntries n newProc (firstMemEntry p) 0.

Fixpoint mapShared (n : nat) (i va : Z) (x : SharedMemory) (flags : Z) : mmM unit :=
  match n with
  | O => mret tt
  | S n =>
      page ← deref (fun _ => physPages x !! Z.to_nat i);
      onPages (mmMapPage (u64 (va + i * PAGE_SIZE)) page flags);;
      mapShared n (i + 1) va x flags
  end.
Definition forkFlags (eflags : Z) : Z :=
  let flags := Z.lor (Z.lor PAGE_FLAG_CLEAN PAGE_FLAG_USER) PAGE_FLAG_SHARED in
  let flags := if has eflags MMAP_FLAG_WRITE && has eflags MMAP_FLAG_COW then Z.lor flags PAGE_FLAG_COW
               else if has eflags MMAP_FLAG_WRITE then Z.lor flags PAGE_FLAG_WRITE else flags in
  if has eflags MMAP_FLAG_EXEC then Z.lor flags PAGE_FLAG_EXEC else flags.
Fixpoint forkRetFrom (fuel : nat) (entry : Z) : mmM unit :=
  if entry =? 0 then mret tt
  else match fuel with
  | O => nofuel
  | S fuel =>
      e ← getEntry entry;
      x ← getShared (shared e);
      mapShared (Z.to_nat (nrofPages x)) 0 (vaddr e) x (forkFlags (mflags e));;
      forkRetFrom fuel (mnext e)
  end.
Definition forkRet : mmM Z :=
  n ← fuel; proc ← gets curProc; p ← getProc proc; forkRetFrom n (firstMemEntry p);; mret 0.
End mmap.
