(* ===== verification/MmapSpec.v ===== *)
(** * The memory map refines a map from addresses

    The entries of a process as a list, what the list says about each address,
    and the proof that [mmapCreateEntry] of [Mmap] updates exactly the range of
    the new entry, whatever it has to merge, cut, split or delete for it. *)

From S2P Require Import Prelude Word Errno Fd Mmap.

(** ** Maps as lists

    A memory map is described by the list of its entries with their addresses.
    The links of an entry follow from its place in the list; what the list says
    about them is ignored. *)

Notation emap := (list (Z * MemoryEntry)).
Definition firstp (l : emap) (next : Z) : Z := match l with [] => next | (p, _) :: _ => p end.
Definition lastp (prev : Z) (l : emap) : Z := match last l with Some (p, _) => p | None => prev end.
Fixpoint chained (m : gmap Z MemoryEntry) (prev : Z) (l : emap) (next : Z) : Prop :=
  match l with
  | [] => True
  | (p, e) :: l => p <> 0 /\ m !! p = Some (e_next (firstp l next) (e_prev prev e)) /\ chained m p l next
  end.

Definition covers (e : MemoryEntry) (a : Z) : Prop := vaddr e <= a < vaddr e + msize e.
(** The object that an entry shares, and what backs the address [a] of it:
    nothing yet, or an offset into a shared object. *)
Definition sharer (e : MemoryEntry) : option Z := if has (mflags e) MMAP_FLAG_SHARED then Some (shared e) else None.
Definition backing (e : MemoryEntry) (a : Z) : option (Z * Z) :=
  (fun sh => (sh, u64 (sharedOffset e + (a - vaddr e)))) <$> sharer e.
(** The map sends the address [a] to these flags and this backing. *)
Definition maps (l : emap) (a : Z) (f : Z * option (Z * Z)) : Prop :=
  exists p e, (p, e) ∈ l /\ covers e a /\ f = (mflags e, backing e a).
(** Entries in order, disjoint, from [lo] on and in the user half. *)
Fixpoint ascending (lo : Z) (l : emap) : Prop :=
  match l with
  | [] => True
  | (_, e) :: l => lo <= vaddr e /\ 0 < msize e /\ vaddr e + msize e <= 2 ^ 63 /\ ascending (vaddr e + msize e) l
  end.

Definition users (m : gmap Z MemoryEntry) (sh : Z) : nat := size (filter (fun kv : Z * MemoryEntry => sharer kv.2 = Some sh) m).
(** The reference counts of the shared objects are exact. *)
Definition sharing (m : gmap Z MemoryEntry) (sm : gmap Z SharedMemory) : Prop :=
  (forall p e, m !! p = Some e -> match sharer e with Some sh => is_Some (sm !! sh) | None => shared e = 0 end) /\
  (forall sh x, sm !! sh = Some x -> sh <> 0 /\ refCount x = Z.of_nat (users m sh) /\ (0 < users m sh)%nat /\
                                  nrofPages x = Z.of_nat (length (physPages x))).

(** The rest of the map below and above an address. *)
Definition shrink (n : Z) (e : MemoryEntry) : MemoryEntry :=
  mkEntry (u64 (vaddr e + n)) (u64 (msize e - n)) (mflags e) (mnext e) (mprev e) (shared e) (u64 (sharedOffset e + n)).
Fixpoint trim (newEnd : Z) (l : emap) : emap :=
  match l with
  | [] => []
  | (p, e) :: l' =>
      if newEnd <=? vaddr e then l
      else if newEnd - vaddr e <? msize e then (p, shrink (newEnd - vaddr e) e) :: l' else trim newEnd l'
  end.

Section lists.
Implicit Types (m : gmap Z MemoryEntry) (l : emap) (e : MemoryEntry).

Lemma chained_frame m m' prev l next : chained m prev l next -> (forall p, p ∈ l.*1 -> m' !! p = m !! p) -> chained m' prev l next.
Proof.
  revert prev. induction l as [|[p e] l IH]; intros prev; [done|]. cbn [chained]. intros (H0 & Hp & Hl) Hm. split_and!; [done| |].
  - rewrite Hm; [done|by left].
  - apply IH; [done|]. intros q Hq. apply Hm. by right.
Qed.
Lemma chained_insert m prev l next p e : p ∉ l.*1 -> chained m prev l next -> chained (<[p := e]> m) prev l next.
Proof. intros Hp Hl. eapply chained_frame; [done|]. intros q Hq. apply lookup_insert_ne. by intros ->. Qed.
Lemma chained_delete m prev l next p : p ∉ l.*1 -> chained m prev l next -> chained (delete p m) prev l next.
Proof. intros Hp Hl. eapply chained_frame; [done|]. intros q Hq. apply lookup_delete_ne. by intros ->. Qed.
Lemma chained_app m prev l1 l2 next :
  chained m prev (l1 ++ l2) next <-> chained m prev l1 (firstp l2 next) /\ chained m (lastp prev l1) l2 next.
Proof.
  revert prev. induction l1 as [|[p e] l1 IH]; intros prev; [simpl; unfold lastp; simpl; tauto|]. cbn [app chained]. rewrite IH.
  replace (firstp (l1 ++ l2) next) with (firstp l1 (firstp l2 next)) by (by destruct l1 as [|[]]).
  assert (lastp prev ((p, e) :: l1) = lastp p l1) as ->; [|tauto].
  unfold lastp. destruct l1 as [|x l1]; [done|]. rewrite last_cons_cons. destruct (last (x :: l1)) eqn:E; [done|by apply last_None in E].
Qed.
Lemma chained_in m prev l next p e : chained m prev l next -> (p, e) ∈ l -> p <> 0 /\ exists nx pv, m !! p = Some (e_next nx (e_prev pv e)).
Proof.
  revert prev. induction l as [|[q e'] l IH]; intros prev; [by intros _ ?%elem_of_nil|]. cbn [chained].
  intros (H0 & Hq & Hl) [[= -> ->]|Hp]%elem_of_cons; [eauto|by eapply IH].
Qed.
Lemma chained_nonzero m prev l next p : chained m prev l next -> p ∈ l.*1 -> p <> 0 /\ is_Some (m !! p).
Proof. intros Hl ([q e] & -> & Hp)%list_elem_of_fmap. destruct (chained_in _ _ _ _ _ _ Hl Hp) as (? & ? & ? & E). cbn [fst]. rewrite E. eauto. Qed.
(** The link before the first entry does not matter until it is written. *)
Lemma chained_set_prev m prev prev' p e l next :
  p ∉ l.*1 -> chained m prev ((p, e) :: l) next ->
  chained (<[p := e_next (firstp l next) (e_prev prev' e)]> m) prev' ((p, e) :: l) next.
Proof.
  intros Hp. cbn [chained]. intros (H0 & _ & Hl). split_and!; [done|apply lookup_insert_eq|by apply chained_insert].
Qed.
Lemma lastp_snoc prev l p e : lastp prev (l ++ [(p, e)]) = p.
Proof. unfold lastp. by rewrite last_snoc. Qed.
Lemma firstp_app l1 l2 next : firstp (l1 ++ l2) next = firstp l1 (firstp l2 next).
Proof. by destruct l1 as [|[]]. Qed.

Lemma maps_app l1 l2 a f : maps (l1 ++ l2) a f <-> maps l1 a f \/ maps l2 a f.
Proof. unfold maps. setoid_rewrite elem_of_app. naive_solver. Qed.
Lemma maps_one p e a f : maps [(p, e)] a f <-> covers e a /\ f = (mflags e, backing e a).
Proof.
  unfold maps. setoid_rewrite list_elem_of_singleton. split; [|naive_solver]. intros (? & ? & [= -> ->] & ?). done.
Qed.
Lemma maps_nil a f : ~ maps [] a f.
Proof. by intros (? & ? & ?%elem_of_nil & _). Qed.
Lemma maps_cons p e l a f : maps ((p, e) :: l) a f <-> (covers e a /\ f = (mflags e, backing e a)) \/ maps l a f.
Proof. change ((p, e) :: l) with ([(p, e)] ++ l). by rewrite maps_app, maps_one. Qed.

Lemma ascending_weaken lo lo' l : lo' <= lo -> ascending lo l -> ascending lo' l.
Proof. destruct l as [|[p e] l]; [done|]. simpl. intros ? (? & ?). split; [lia|done]. Qed.
Definition hi (lo : Z) (l : emap) : Z := match last l with Some (_, e) => vaddr e + msize e | None => lo end.
Lemma hi_cons lo p e l : hi lo ((p, e) :: l) = hi (vaddr e + msize e) l.
Proof. unfold hi. destruct l as [|x l]; [done|]. rewrite last_cons_cons. destruct (last (x :: l)) eqn:E; [done|by apply last_None in E]. Qed.
Lemma ascending_app lo l1 l2 : ascending lo (l1 ++ l2) <-> ascending lo l1 /\ ascending (hi lo l1) l2.
Proof.
  revert lo. induction l1 as [|[p e] l1 IH]; intros lo; [simpl; unfold hi; simpl; tauto|]. rewrite hi_cons. cbn [app ascending]. rewrite IH. tauto.
Qed.
Lemma hi_above lo l : ascending lo l -> lo <= hi lo l.
Proof.
  revert lo. induction l as [|[p e] l IH]; intros lo; [done|]. rewrite hi_cons. intros (? & ? & ? & Hl). specialize (IH _ Hl). lia.
Qed.
(** Every entry of a sorted map lies between its ends. *)
Lemma ascending_in lo l p e : ascending lo l -> (p, e) ∈ l -> lo <= vaddr e /\ 0 < msize e /\ vaddr e + msize e <= hi lo l /\ vaddr e + msize e <= 2 ^ 63.
Proof.
  revert lo. induction l as [|[q e'] l IH]; intros lo; [by intros _ ?%elem_of_nil|]. rewrite hi_cons. intros (H1 & H2 & H3 & Hl).
  intros [[= -> ->]|Hp]%elem_of_cons; [pose proof (hi_above _ _ Hl); lia|]. destruct (IH _ Hl Hp) as (? & ? & ? & ?). lia.
Qed.
Lemma maps_bounds lo l a f : ascending lo l -> maps l a f -> lo <= a < hi lo l.
Proof. intros Hl (p & e & Hp & Hc & _). destruct (ascending_in _ _ _ _ Hl Hp) as (? & ? & ? & ?). unfold covers in Hc. lia. Qed.

(** A map sends an address to at most one place. *)
Lemma maps_unique lo l a f g : ascending lo l -> maps l a f -> maps l a g -> f = g.
Proof.
  revert lo. induction l as [|[p e] l IH]; intros lo; [by intros _ ?%maps_nil|]. intros (? & ? & ? & Hl). rewrite !maps_cons.
  intros [[Hc ->]|Hf] [[Hc' ->]|Hg]; [done| | |by eapply IH].
  - apply (maps_bounds _ _ _ _ Hl) in Hg. unfold covers in Hc. lia.
  - apply (maps_bounds _ _ _ _ Hl) in Hf. unfold covers in Hc'. lia.
Qed.
End lists.

Section counts.
Implicit Types (m : gmap Z MemoryEntry) (sm : gmap Z SharedMemory).

Lemma users_new m p e sh : m !! p = None -> users (<[p := e]> m) sh = (users m sh + if decide (sharer e = Some sh) then 1 else 0)%nat.
Proof.
  intros Hp. unfold users. rewrite map_filter_insert. cbn [snd]. destruct (decide (sharer e = Some sh)).
  - rewrite map_size_insert_None; [lia|]. apply map_lookup_filter_None. by left.
  - rewrite delete_id by done. lia.
Qed.
Lemma users_delete m p e sh : m !! p = Some e -> users m sh = (users (delete p m) sh + if decide (sharer e = Some sh) then 1 else 0)%nat.
Proof. intros Hp. rewrite <- (users_new (delete p m) p) by apply lookup_delete_eq. by rewrite insert_delete_id. Qed.
Lemma users_same m p e e' sh : m !! p = Some e -> sharer e' = sharer e -> users (<[p := e']> m) sh = users m sh.
Proof.
  intros Hp He. rewrite (users_delete m p e) by done. rewrite <- insert_delete_eq, users_new by apply lookup_delete_eq. by rewrite He.
Qed.
Lemma users_size m sh : (users m sh <= size m)%nat.
Proof. unfold users. apply map_size_filter. Qed.

(** Changes of links, sizes and flags that are not about sharing. *)
Lemma sharing_same m sm p e e' :
  sharing m sm -> m !! p = Some e -> sharer e' = sharer e -> shared e' = shared e -> sharing (<[p := e']> m) sm.
Proof.
  intros [H1 H2] Hp Hs He. split.
  - intros q x. rewrite lookup_insert_Some. intros [[<- <-]|[_ Hq]]; [rewrite Hs, He; by apply (H1 p)|by apply (H1 q)].
  - intros sh x Hx. rewrite (users_same m p e e') by done. by apply H2.
Qed.
Lemma sharing_new m sm p e :
  sharing m sm -> m !! p = None -> sharer e = None -> shared e = 0 -> sharing (<[p := e]> m) sm.
Proof.
  intros [H1 H2] Hp Hs He. split.
  - intros q x. rewrite lookup_insert_Some. intros [[<- <-]|[_ Hq]]; [by rewrite Hs|by apply (H1 q)].
  - intros sh x Hx. rewrite users_new, decide_False by (done || by rewrite Hs). rewrite Nat.add_0_r. by apply H2.
Qed.
(** One more entry for a shared object. *)
Lemma sharing_more m sm p e sh x :
  sharing m sm -> m !! p = None -> sharer e = Some sh -> sm !! sh = Some x ->
  sharing (<[p := e]> m) (<[sh := mkShared (refCount x + 1) (nrofPages x) (physPages x)]> sm).
Proof.
  intros [H1 H2] Hp Hs Hx. split.
  - intros q y. rewrite lookup_insert_Some. intros [[<- <-]|[_ Hq]]; [rewrite Hs, lookup_insert_eq; eauto|].
    specialize (H1 q y Hq). destruct (sharer y) as [sh'|]; [|done]. destruct (decide (sh = sh')) as [->|]; [rewrite lookup_insert_eq; eauto|].
    by rewrite lookup_insert_ne.
  - intros sh' y. rewrite users_new by done. rewrite lookup_insert_Some. rewrite Hs. intros [[<- <-]|[Hne Hy]].
    + destruct (H2 _ _ Hx) as (? & ? & ? & ?). rewrite decide_True by done. cbn. split_and!; [done|lia|lia|done].
    + rewrite decide_False by congruence. rewrite Nat.add_0_r. by apply H2.
Qed.
(** An entry goes that shares nothing, or not as the last one, or as the last one. *)
Lemma sharing_delete m sm p e : sharing m sm -> m !! p = Some e -> sharer e = None -> sharing (delete p m) sm.
Proof.
  intros [H1 H2] Hp Hs. split; [intros q y [_ Hq]%lookup_delete_Some; by apply (H1 q)|].
  intros sh x Hx. specialize (H2 sh x Hx). rewrite (users_delete m p e) in H2 by done. rewrite Hs, decide_False in H2 by done.
  by rewrite Nat.add_0_r in H2.
Qed.
Lemma sharing_less m sm p e sh x :
  sharing m sm -> m !! p = Some e -> sharer e = Some sh -> sm !! sh = Some x -> refCount x <> 1 ->
  sharing (delete p m) (<[sh := mkShared (refCount x - 1) (nrofPages x) (physPages x)]> sm).
Proof.
  intros [H1 H2] Hp Hs Hx Hr. split.
  - intros q y [_ Hq]%lookup_delete_Some. specialize (H1 q y Hq). destruct (sharer y) as [sh'|]; [|done].
    destruct (decide (sh = sh')) as [->|]; [rewrite lookup_insert_eq; eauto|]. by rewrite lookup_insert_ne.
  - intros sh' y Hy. assert (Hu := users_delete m p e sh' Hp). rewrite Hs in Hu. rewrite lookup_insert_Some in Hy. destruct Hy as [[<- <-]|[Hne Hy]].
    + rewrite decide_True in Hu by done. destruct (H2 _ _ Hx) as (? & ? & ? & ?). cbn. split_and!; [done|lia|lia|done].
    + rewrite decide_False in Hu by congruence. destruct (H2 _ _ Hy) as (? & ? & ? & ?). split_and!; [done|lia|lia|done].
Qed.
Lemma sharing_last m sm p e sh x :
  sharing m sm -> m !! p = Some e -> sharer e = Some sh -> sm !! sh = Some x -> refCount x = 1 -> sharing (delete p m) (delete sh sm).
Proof.
  intros [H1 H2] Hp Hs Hx Hr. assert (Hu : users (delete p m) sh = 0%nat).
  { assert (Hu := users_delete m p e sh Hp). rewrite decide_True in Hu by done. destruct (H2 _ _ Hx) as (? & ? & ? & ?). lia. }
  split.
  - intros q y Hq. pose proof Hq as [Hne Hq']%lookup_delete_Some. specialize (H1 q y Hq'). destruct (sharer y) as [sh'|] eqn:Ey; [|done].
    rewrite lookup_delete_ne; [done|]. intros <-. assert (Hd := users_delete _ q y sh Hq). rewrite decide_True in Hd by done. lia.
  - intros sh' y [Hne Hy]%lookup_delete_Some. assert (Hd := users_delete m p e sh' Hp). rewrite Hs, decide_False in Hd by congruence.
    destruct (H2 _ _ Hy) as (? & ? & ? & ?). split_and!; [done|lia|lia|done].
Qed.
End counts.

(** ** Cutting, extending and splitting, on lists *)

Section pure.
Implicit Types (l : emap) (e : MemoryEntry).

Lemma shrink_range E e : 0 <= vaddr e -> vaddr e < E -> E - vaddr e < msize e -> vaddr e + msize e <= 2 ^ 63 ->
  vaddr (shrink (E - vaddr e) e) = E /\ msize (shrink (E - vaddr e) e) = vaddr e + msize e - E.
Proof. intros. cbn. rewrite !uwrap_small by lia. lia. Qed.
Lemma shrink_maps E e a f : 0 <= vaddr e -> vaddr e < E -> E - vaddr e < msize e -> vaddr e + msize e <= 2 ^ 63 ->
  (covers (shrink (E - vaddr e) e) a /\ f = (mflags e, backing (shrink (E - vaddr e) e) a)) <->
  (E <= a /\ covers e a /\ f = (mflags e, backing e a)).
Proof.
  intros H1 H2 H3 H4. destruct (shrink_range E e) as [Hv Hs]; [done..|]. unfold covers. rewrite Hv, Hs.
  assert (backing (shrink (E - vaddr e) e) a = backing e a) as ->; [|naive_solver lia].
  unfold backing, sharer. rewrite Hv. cbn [shrink shared mflags sharedOffset]. destruct (has (mflags e) MMAP_FLAG_SHARED); [|done].
  cbn. do 2 f_equal. rewrite uwrap_add_l. f_equal. lia.
Qed.

Lemma trim_ascending E lo l : ascending lo l -> 0 <= lo -> 0 <= E -> ascending (Z.max lo E) (trim E l).
Proof.
  revert lo. induction l as [|[p e] l IH]; intros lo; [done|]. intros (H1 & H2 & H3 & Hl) Hlo HE. cbn [trim].
  destruct (Z.leb_spec E (vaddr e)); [cbn [ascending]; split_and!; [lia|done|done|done]|].
  destruct (Z.ltb_spec (E - vaddr e) (msize e)).
  - destruct (shrink_range E e) as [Hv Hs]; [lia..|]. cbn [ascending]. rewrite Hv, Hs. split_and!; [lia|lia|lia|].
    by replace (E + (vaddr e + msize e - E)) with (vaddr e + msize e) by lia.
  - eapply ascending_weaken, IH; [|done|lia|lia]. lia.
Qed.
Lemma trim_maps E lo l a f : ascending lo l -> 0 <= lo -> maps (trim E l) a f <-> E <= a /\ maps l a f.
Proof.
  revert lo. induction l as [|[p e] l IH]; intros lo; [intros; split; [by intros ?%maps_nil|by intros [_ ?%maps_nil]]|].
  intros (H1 & H2 & H3 & Hl) Hlo. cbn [trim].
  destruct (Z.leb_spec E (vaddr e)).
  { split; [|naive_solver]. intros Hm. split; [|done]. apply maps_cons in Hm as [[Hc _]|Hm]; [unfold covers in Hc; lia|].
    apply (maps_bounds _ _ _ _ Hl) in Hm. lia. }
  destruct (Z.ltb_spec (E - vaddr e) (msize e)).
  - rewrite !maps_cons. change (mflags (shrink (E - vaddr e) e)) with (mflags e). rewrite shrink_maps by lia.
    split; [|naive_solver]. intros [?|Hm]; [naive_solver|]. pose proof (maps_bounds _ _ _ _ Hl Hm). split; [lia|by right].
  - rewrite (IH _ Hl) by lia. rewrite maps_cons. split; [naive_solver|]. intros [? [[Hc _]|?]]; [unfold covers in Hc; lia|done].
Qed.
Lemma trim_id E lo l : ascending lo l -> E <= lo -> trim E l = l.
Proof. destruct l as [|[p e] l]; [done|]. simpl. intros (? & _) ?. destruct (Z.leb_spec E (vaddr e)); [done|lia]. Qed.
Lemma trim_suffix E l : (trim E l).*1 `suffix_of` l.*1.
Proof.
  induction l as [|[p e] l IH]; [done|]. cbn [trim]. destruct (E <=? vaddr e); [done|].
  destruct (E - vaddr e <? msize e); [done|]. rewrite fmap_cons. by apply suffix_cons_r.
Qed.
Lemma lastp_fst prev l l' : l.*1 = l'.*1 -> lastp prev l = lastp prev l'.
Proof.
  intros El. unfold lastp. assert (Hl : fst <$> last l = fst <$> last l') by (by rewrite <- !fmap_last, El).
  destruct (last l) as [[]|], (last l') as [[]|]; simpl in Hl; congruence.
Qed.
Lemma lastp_trim E prev prev' l : trim E l <> [] -> lastp prev' (trim E l) = lastp prev l.
Proof.
  induction l as [|[p e] l IH]; [done|]. cbn [trim]. intros Ht. assert (Hp : forall x : Z * MemoryEntry, lastp prev' (x :: l) = lastp prev (x :: l)).
  { intros x. unfold lastp. destruct (last (x :: l)) eqn:El; [done|by apply last_None in El]. }
  destruct (E <=? vaddr e); [apply Hp|]. destruct (E - vaddr e <? msize e).
  { rewrite Hp. by apply lastp_fst. }
  rewrite IH by done. unfold lastp. destruct l as [|x l]; [done|]. rewrite last_cons_cons. destruct (last (x :: l)) eqn:El; [done|by apply last_None in El].
Qed.

(** [placed l1 v n f l' E]: the map [l'] is [l1] with the range of [n] bytes
    from [v] on sent to private pages with flags [f]; what lies above goes on at
    [E] or at the end of [l1]. *)
Definition placed (l1 : emap) (v n f : Z) (l' : emap) (E : Z) : Prop :=
  ascending 0 l' /\ hi 0 l' <= Z.max (hi 0 l1) E /\ v + n <= E <= Z.max (v + n) (hi 0 l1) /\
  forall a F, maps l' a F <-> (v <= a < v + n /\ F = (f, None)) \/ (~ v <= a < v + n /\ maps l1 a F).

Context (v n f : Z) (Hv : 0 <= v) (Hn : 0 < n) (Hend : v + n <= 2 ^ 63).
Implicit Types new el : MemoryEntry.
Definition private new : Prop := vaddr new = v /\ msize new = n /\ mflags new = f /\ sharer new = None.
Lemma private_maps new a F : private new -> (covers new a /\ F = (mflags new, backing new a)) <-> (v <= a < v + n /\ F = (f, None)).
Proof. intros (E1 & E2 & E3 & E4). unfold covers, backing. by rewrite E1, E2, E3, E4. Qed.

Lemma hi_snoc lo l p e : hi lo (l ++ [(p, e)]) = vaddr e + msize e.
Proof. unfold hi. by rewrite last_snoc. Qed.

Lemma placed_gap l1 p new : private new -> ascending 0 l1 -> hi 0 l1 <= v -> placed l1 v n f (l1 ++ [(p, new)]) (v + n).
Proof.
  intros Hp Hl Hh. pose proof Hp as (E1 & E2 & E3 & E4). unfold placed. rewrite hi_snoc. split_and!; [|lia|lia|lia|].
  - apply ascending_app. split; [done|]. simpl. lia.
  - intros a F. rewrite maps_app, maps_one, private_maps by done. split; [|tauto].
    intros [Hm|?]; [|tauto]. right. split; [|done]. apply (maps_bounds _ _ _ _ Hl) in Hm. lia.
Qed.
Lemma placed_merge l1 lo el : ascending 0 (l1 ++ [(lo, el)]) -> vaddr el <= v -> v <= vaddr el + msize el -> mflags el = f -> sharer el = None ->
  let E := Z.max (vaddr el + msize el) (v + n) in placed (l1 ++ [(lo, el)]) v n f (l1 ++ [(lo, e_size (E - vaddr el) el)]) E.
Proof.
  intros Hl H1 H2 H3 H4 E. apply ascending_app in Hl as [Hl (H5 & H6 & H7 & _)]. unfold placed. rewrite !hi_snoc. cbn [vaddr msize e_size].
  split_and!; [|lia|lia|lia|].
  - apply ascending_app. split; [done|]. cbn [ascending e_size vaddr msize]. lia.
  - intros a F. rewrite !maps_app, !maps_one. unfold covers, backing. change (sharer (e_size (E - vaddr el) el)) with (sharer el).
    rewrite H4. cbn [e_size vaddr msize mflags fmap option_fmap option_map]. rewrite H3. split.
    + intros [Hm|[Hc ->]]; [|destruct (decide (v <= a < v + n)); [by left|right; split; [done|right; split; [lia|done]]]].
      right. pose proof (maps_bounds _ _ _ _ Hl Hm). split; [lia|by left].
    + intros [[Hc ->]|[_ [?|[? ->]]]]; [right; split; [lia|done]|by left|right; split; [lia|done]].
Qed.
Lemma placed_cover l1 lo el p new : private new -> ascending 0 (l1 ++ [(lo, el)]) -> vaddr el = v -> vaddr el + msize el <= v + n ->
  placed (l1 ++ [(lo, el)]) v n f (l1 ++ [(p, new)]) (v + n).
Proof.
  intros Hp Hl H1 H2. apply ascending_app in Hl as [Hl (H5 & H6 & H7 & _)].
  destruct (placed_gap l1 p new) as (Ha & _ & _ & Hm); [done|done|lia|]. unfold placed. rewrite !hi_snoc.
  destruct Hp as (E1 & E2 & _). rewrite E1, E2. split_and!; [done|lia|lia|lia|].
  intros a F. rewrite Hm, maps_app, maps_one. unfold covers. split; [naive_solver|]. intros [?|[? [?|[? _]]]]; [by left|by right|lia].
Qed.
(** Below, over and above the new entry. *)
Lemma cut_maps el m a F : 0 <= m <= msize el ->
  (covers (e_size m el) a /\ F = (mflags (e_size m el), backing (e_size m el) a)) <-> (a < vaddr el + m /\ covers el a /\ F = (mflags el, backing el a)).
Proof. intros Hm. unfold covers. cbn [e_size vaddr msize mflags]. change (backing (e_size m el) a) with (backing el a). naive_solver lia. Qed.
Lemma placed_low l1 lo el p new : private new -> ascending 0 (l1 ++ [(lo, el)]) -> vaddr el < v -> v < vaddr el + msize el -> vaddr el + msize el <= v + n ->
  placed (l1 ++ [(lo, el)]) v n f ((l1 ++ [(lo, e_size (v - vaddr el) el)]) ++ [(p, new)]) (v + n).
Proof.
  intros Hp Hl H1 H2 H3. apply ascending_app in Hl as [Hl (H5 & H6 & H7 & _)]. pose proof (hi_above _ _ Hl).
  destruct (placed_gap (l1 ++ [(lo, e_size (v - vaddr el) el)]) p new) as (Ha & _ & _ & Hm); [done| |rewrite hi_snoc; cbn; lia|].
  { apply ascending_app. split; [done|]. cbn. lia. }
  unfold placed. rewrite !hi_snoc. destruct Hp as (E1 & E2 & _). rewrite E1, E2. split_and!; [done|lia|lia|lia|].
  intros a F. rewrite Hm, !maps_app, !maps_one, cut_maps by lia. unfold covers. split.
  - intros [?|[? [?|(? & ? & ?)]]]; [by left|right; split; [done|by left]|right; split; [done|by right]].
  - intros [?|[? [?|[? ?]]]]; [by left|right; split; [done|by left]|right; split; [done|right; split; [lia|done]]].
Qed.
Lemma placed_mid l1 lo el p new q : private new -> ascending 0 (l1 ++ [(lo, el)]) -> vaddr el < v -> v + n < vaddr el + msize el ->
  placed (l1 ++ [(lo, el)]) v n f ((l1 ++ [(lo, e_size (v - vaddr el) el); (p, new)]) ++ [(q, shrink (v + n - vaddr el) el)]) (v + n).
Proof.
  intros Hp Hl H1 H2. apply ascending_app in Hl as [Hl (H5 & H6 & H7 & _)]. pose proof (hi_above _ _ Hl).
  assert (Hl' : ascending 0 (l1 ++ [(lo, e_size (v - vaddr el) el)])) by (apply ascending_app; split; [done|]; cbn; lia).
  destruct (placed_gap (l1 ++ [(lo, e_size (v - vaddr el) el)]) p new) as (Ha & _ & _ & Hm); [done|done|rewrite hi_snoc; cbn; lia|].
  rewrite <- app_assoc in Ha, Hm. cbn [app] in Ha, Hm. destruct (shrink_range (v + n) el) as [Hsv Hss]; [lia..|].
  pose proof Hp as (E1 & E2 & _). unfold placed. rewrite !hi_snoc, Hsv, Hss. split_and!; [|lia|lia|lia|].
  - apply ascending_app. split; [done|]. replace (l1 ++ _) with ((l1 ++ [(lo, e_size (v - vaddr el) el)]) ++ [(p, new)]) by (by rewrite <- app_assoc).
    rewrite hi_snoc. cbn [ascending]. rewrite Hsv, Hss. lia.
  - intros a F. rewrite (maps_app _ [(q, _)]), Hm, !maps_app, !maps_one, cut_maps by lia.
    change (mflags (shrink (v + n - vaddr el) el)) with (mflags el). rewrite shrink_maps by lia. unfold covers.
    assert (forall b F', maps l1 b F' -> b < v + n) as Hb by (intros b F' Hb; pose proof (maps_bounds _ _ _ _ Hl Hb); lia).
    split.
    + intros [[?|[? [?|(? & ? & ?)]]]|(? & ? & ?)]; [by left|right; split; [done|by left]|right; split; [done|by right]|right; split; [lia|by right]].
    + intros [?|[? [?|[? ?]]]]; [by do 2 left|left; right; split; [done|by left]|].
      destruct (decide (a < v)); [left; right; split; [done|right; split; [lia|done]]|right; split; [lia|done]].
Qed.
End pure.

Lemma hi_le lo l : ascending lo l -> lo <= 2 ^ 63 -> hi lo l <= 2 ^ 63.
Proof.
  revert lo. induction l as [|[p e] l IH]; intros lo; [done|]. rewrite hi_cons. intros (? & ? & ? & Hl) _. by apply IH.
Qed.
(** The whole map after the new entry has been placed and the rest cut. *)
Lemma placed_trim l1 l2 v n f L E : placed l1 v n f L E -> ascending 0 (l1 ++ l2) -> 0 <= v -> 0 < n ->
  (forall p e l, l2 = (p, e) :: l -> v < vaddr e) ->
  ascending 0 (L ++ trim E l2) /\ forall a F, maps (L ++ trim E l2) a F <-> (v <= a < v + n /\ F = (f, None)) \/ (~ v <= a < v + n /\ maps (l1 ++ l2) a F).
Proof.
  intros (HL & Hhi & HE & Hm) Ha Hv Hn Hl2. apply ascending_app in Ha as [Ha1 Ha2]. pose proof (hi_above _ _ Ha1). split.
  - apply ascending_app. split; [done|]. eapply ascending_weaken; [|eapply trim_ascending; [exact Ha2|lia..]]. lia.
  - intros a F. rewrite !maps_app, Hm, (trim_maps E _ l2 a F Ha2) by lia. split.
    + intros [[?|[? ?]]|[? ?]]; [by left|right; split; [done|by left]|right; split; [lia|by right]].
    + intros [?|[Hn' [?|Hm2]]]; [by do 2 left|left; right; by split|]. right. split; [|done].
      pose proof (maps_bounds _ _ _ _ Ha2 Hm2). assert (v < a); [|lia].
      destruct l2 as [|[p e] l2]; [by apply maps_nil in Hm2|]. specialize (Hl2 _ _ _ eq_refl).
      assert (Ha3 : ascending (vaddr e) ((p, e) :: l2)) by (destruct Ha2 as (_ & ?); by split; [lia|]).
      pose proof (maps_bounds _ _ _ _ Ha3 Hm2). lia.
Qed.

(** ** What the memory map relies on

    [live] are the addresses that [kmalloc] has handed out, [mapped a n] says
    that the page tables of a range exist. *)

Class UserPagesOk (V : Type) `{KernelMemory V} `{UserPages V} (live : V -> gset Z) (mapped : Z -> Z -> V -> Prop) := {
  kmalloc_ok n v p v' : kmalloc n v = (p, v') ->
    (p = 0 /\ live v' = live v \/ p <> 0 /\ p ∉ live v /\ live v' = {[p]} ∪ live v) /\ (forall a k, mapped a k v -> mapped a k v');
  kfree_ok p v : live (kfree p v) = live v ∖ {[p]} /\ (forall a k, mapped a k v -> mapped a k (kfree p v));
  deallocPages_ok a n v : mapped a n v ->
    wp (deallocPages a n) v (fun _ v' => live v' = live v /\ forall a k, mapped a k v -> mapped a k v');
  deallocPhysPage_ok page v : wp (deallocPhysPage page) v (fun _ v' => live v' = live v /\ forall a k, mapped a k v -> mapped a k v');
  mmUnmapUserspace_ok v : wp mmUnmapUserspace v (fun _ v' => live v' = live v);
  tlbReloadCR3Local_ok v : wp tlbReloadCR3Local v (fun _ v' => live v' = live v);
  mapped_sub a n a' n' v : mapped a n v -> a <= a' -> 0 <= n' -> a' + n' <= a + n -> mapped a' n' v
}.

Ltac mmsimpl := cbn [entries shareds procs curProc pages set_entries set_shareds set_procs set_pages fst snd].

Section steps.
Context {V : Type} `{KM : KernelMemory V} `{UP : UserPages V}.
Context (live : V -> gset Z) (mapped : Z -> Z -> V -> Prop) `{!UserPagesOk V live mapped}.
Implicit Types (s : mm V) (e : MemoryEntry).

Definition keeps (v v' : V) : Prop := forall a k, mapped a k v -> mapped a k v'.

(** The store: exact counts, and all objects at different live addresses. *)
Record world s : Prop := {
  w_sharing : sharing (entries s) (shareds s);
  w_disj : dom (entries s) ## dom (shareds s);
  w_live : dom (entries s) ∪ dom (shareds s) ⊆ live (pages s)
}.

Lemma wp_getEntry p e s Q : p <> 0 -> entries s !! p = Some e -> Q e s -> wp (getEntry p) s Q.
Proof. intros H0 Hp HQ. unfold getEntry, getAt. destruct (Z.eqb_spec p 0); [done|]. apply wp_deref. eauto. Qed.
Lemma wp_updEntry p f e s (Q : unit -> mm V -> Prop) :
  p <> 0 -> entries s !! p = Some e -> Q tt (set_entries (<[p := f e]> (entries s)) s) -> wp (updEntry p f) s Q.
Proof. intros H0 Hp HQ. apply wp_bind. by eapply wp_getEntry. Qed.
Lemma wp_getShared p x s Q : p <> 0 -> shareds s !! p = Some x -> Q x s -> wp (getShared p) s Q.
Proof. intros H0 Hp HQ. unfold getShared, getAt. destruct (Z.eqb_spec p 0); [done|]. apply wp_deref. eauto. Qed.
Lemma wp_updShared p f x s (Q : unit -> mm V -> Prop) :
  p <> 0 -> shareds s !! p = Some x -> Q tt (set_shareds (<[p := f x]> (shareds s)) s) -> wp (updShared p f) s Q.
Proof. intros H0 Hp HQ. apply wp_bind. by eapply wp_getShared. Qed.
Lemma wp_getProc p x s Q : p <> 0 -> procs s !! p = Some x -> Q x s -> wp (getProc p) s Q.
Proof. intros H0 Hp HQ. unfold getProc, getAt. destruct (Z.eqb_spec p 0); [done|]. apply wp_deref. eauto. Qed.
Lemma wp_updProc p f x s (Q : unit -> mm V -> Prop) :
  p <> 0 -> procs s !! p = Some x -> Q tt (set_procs (<[p := f x]> (procs s)) s) -> wp (updProc p f) s Q.
Proof. intros H0 Hp HQ. apply wp_bind. by eapply wp_getProc. Qed.
Lemma wp_acquireMem p x s (Q : unit -> mm V -> Prop) :
  p <> 0 -> procs s !! p = Some x -> memLock x = false -> Q tt (set_procs (<[p := p_lock true x]> (procs s)) s) -> wp (acquireMem p) s Q.
Proof. intros H0 Hp Hl HQ. apply wp_bind. eapply wp_getProc; [done..|]. by rewrite Hl. Qed.

(** Fresh memory is at an address that the store does not use. *)
Lemma wp_allocObject n s Q : world s ->
  (forall v, (kmalloc n (pages s)).1 = 0 -> keeps (pages s) v -> live v = live (pages s) -> Q 0 (set_pages v s)) ->
  (forall p v, p <> 0 -> entries s !! p = None -> shareds s !! p = None -> keeps (pages s) v -> live v = {[p]} ∪ live (pages s) -> Q p (set_pages v s)) ->
  wp (allocObject n) s Q.
Proof.
  intros [_ _ Hl] H0 HQ. unfold wp, allocObject. destruct (kmalloc n (pages s)) as [p v] eqn:E.
  destruct (kmalloc_ok _ _ _ _ E) as [[[-> Hv]|(Hp & Hn & Hv)] Hk]; [by apply H0|].
  apply HQ; [done| | |done..]; apply not_elem_of_dom; set_solver.
Qed.
Lemma wp_freeObject p s (Q : unit -> mm V -> Prop) :
  (forall v, keeps (pages s) v -> live v = live (pages s) ∖ {[p]} -> Q tt (set_pages v s)) -> wp (freeObject p) s Q.
Proof. intros HQ. destruct (kfree_ok p (pages s)) as [Hl Hk]. unfold freeObject. apply wp_modify. by apply HQ. Qed.
Lemma wp_onPages {A} (m : M V A) s (Q : A -> mm V -> Prop) :
  wp m (pages s) (fun a v => Q a (set_pages v s)) -> wp (onPages m) s Q.
Proof. unfold wp, onPages. by destruct (m (pages s)) as [[a v]| |]. Qed.

Lemma pages_same s : exists v, s = set_pages v s /\ live v = live (pages s) /\ keeps (pages s) v.
Proof. exists (pages s). split_and!; [by destruct s|done|by intros a k]. Qed.

Lemma deallocShared_spec n i x s : 0 <= i -> (Z.to_nat i + n <= length (physPages x))%nat ->
  wp (deallocShared n i x) s (fun _ s' => exists v, s' = set_pages v s /\ live v = live (pages s) /\ keeps (pages s) v).
Proof.
  revert i s. induction n as [|n IH]; intros i s Hi Hn; [apply wp_ret; by apply pages_same|].
  cbn [deallocShared]. destruct (physPages x !! Z.to_nat i) as [page|] eqn:E; [|apply lookup_ge_None in E; lia].
  apply wp_bind, wp_deref. exists page. split; [done|]. apply wp_bind, wp_onPages.
  wp_use (deallocPhysPage_ok page (pages s)). intros _ v [Hl Hk]. wp_use IH; [lia|lia|]. mmsimpl.
  intros _ s' (v' & -> & Hl' & Hk'). exists v'. split_and!; [done|congruence|unfold keeps; naive_solver].
Qed.

Lemma deleteEntry_spec p e s : world s -> entries s !! p = Some e -> p <> 0 -> Z.of_nat (size (entries s)) < 2 ^ 32 ->
  wp (deleteEntry p) s (fun r s' => r = mnext e /\ entries s' = delete p (entries s) /\ procs s' = procs s /\ curProc s' = curProc s /\
    world s' /\ keeps (pages s) (pages s')).
Proof.
  intros [Hs Hd Hl] Hp H0 Hsz. unfold deleteEntry. apply wp_bind, (wp_getEntry p e); [done..|]. apply wp_bind.
  set (Q := fun s1 : mm V => entries s1 = entries s /\ procs s1 = procs s /\ curProc s1 = curProc s /\ sharing (delete p (entries s)) (shareds s1) /\
    dom (entries s) ## dom (shareds s1) /\ dom (entries s) ∪ dom (shareds s1) ⊆ live (pages s1) /\ keeps (pages s) (pages s1)).
  eapply (wp_mono _ _ (fun _ => Q)).
  - pose proof (proj1 Hs p e Hp) as He. unfold sharer in He. destruct (has (mflags e) MMAP_FLAG_SHARED) eqn:Ef.
    2:{ apply wp_ret. split_and!; [done..| |done|done|by intros a k]. eapply sharing_delete; [done..|]. unfold sharer. by rewrite Ef. }
    destruct He as [x Hx]. destruct (proj2 Hs _ _ Hx) as (Hx0 & Hr & Hu & Hn).
    assert (Hsh : sharer e = Some (shared e)) by (unfold sharer; by rewrite Ef).
    pose proof (users_size (entries s) (shared e)). apply wp_bind, (wp_getShared _ x); [done..|]. cbv zeta.
    rewrite (uwrap_small 32 (refCount x - 1)) by lia. apply wp_bind, wp_modify. mmsimpl.
    destruct (Z.eqb_spec (refCount x - 1) 0) as [Hr0|Hr0].
    + apply wp_bind. eapply (wp_mono _ _ (fun _ s1 => exists v, s1 = set_pages v (set_shareds (<[shared e := mkShared (refCount x - 1) (nrofPages x) (physPages x)]> (shareds s)) s) /\ live v = live (pages s) /\ keeps (pages s) v)).
      { destruct (has (mflags e) MMAP_FLAG_ANON); [|apply wp_ret; mmsimpl; by apply (pages_same (set_shareds _ s))].
        wp_use deallocShared_spec; [lia|rewrite Hn; lia|]. mmsimpl. intros _ s1 (v & -> & ?). exists v. by destruct s. }
      intros _ s1 (v & -> & Hlv & Hk). apply wp_bind, wp_modify, wp_freeObject. mmsimpl. intros v' Hk' Hlv'. unfold Q. mmsimpl.
      rewrite delete_insert_eq. split_and!; [done..| | | |].
      * apply (sharing_last _ _ p e _ x); [done..|lia].
      * set_solver.
      * rewrite Hlv', Hlv. apply elem_of_dom_2 in Hx. set_solver.
      * unfold keeps in *; naive_solver.
    + apply wp_ret. unfold Q. mmsimpl. split_and!; [done..| | | |].
      * apply (sharing_less _ _ p e _ x); [done..|lia].
      * apply elem_of_dom_2 in Hx. set_solver.
      * apply elem_of_dom_2 in Hx. set_solver.
      * by intros a k.
  - intros _ s1 (He & Hpr & Hc & Hs1 & Hd1 & Hl1 & Hk1). apply wp_bind, wp_modify. mmsimpl. apply wp_bind, wp_freeObject. mmsimpl.
    intros v Hk Hlv. apply wp_ret. mmsimpl. rewrite He. split_and!; [done..| |unfold keeps in *; naive_solver].
    split; mmsimpl; [done|set_solver|]. rewrite Hlv. apply elem_of_dom_2 in Hp. set_solver.
Qed.

Lemma world_upd s p e e' : world s -> entries s !! p = Some e -> sharer e' = sharer e -> shared e' = shared e ->
  world (set_entries (<[p := e']> (entries s)) s).
Proof.
  intros [Hs Hd Hl] Hp He He'. assert (Hdom : dom (<[p := e']> (entries s)) = dom (entries s)).
  { apply dom_insert_lookup_L. by rewrite Hp. }
  split; mmsimpl; [by eapply sharing_same|by rewrite Hdom|by rewrite Hdom].
Qed.
Lemma world_procs s m : world s -> world (set_procs m s).
Proof. by intros [? ? ?]. Qed.
Lemma world_pages s v : world s -> live v = live (pages s) -> world (set_pages v s).
Proof. intros [? ? ?] Hv. split; mmsimpl; [done|done|by rewrite Hv]. Qed.

(** The loop over the entries above cuts them to what lies above [newEnd]. *)
Lemma absorb_spec fuel s proc q x pm pr lo newEnd (l : emap) :
  (length l <= fuel)%nat -> procs s !! proc = Some pm -> proc <> 0 -> entries s !! q = Some x -> q <> 0 ->
  chained (entries s) pr l 0 -> NoDup (q :: l.*1) -> ascending lo l -> 0 <= lo -> 0 <= newEnd < 2 ^ 64 ->
  world s -> Z.of_nat (size (entries s)) < 2 ^ 32 ->
  wp (absorb fuel proc q newEnd (firstp l 0)) s (fun _ s' =>
    entries s' !! q = Some (e_next (firstp (trim newEnd l) 0) x) /\ chained (entries s') q (trim newEnd l) 0 /\
    (forall k, k <> q -> k ∉ l.*1 -> entries s' !! k = entries s !! k) /\
    procs s' = (if decide (trim newEnd l = []) then <[proc := p_last q pm]> (procs s) else procs s) /\
    curProc s' = curProc s /\ world s' /\ keeps (pages s) (pages s')).
Proof.
  intros Hf Hpm Hp0 Hq Hq0. revert s x pr lo l Hf Hpm Hq. induction fuel as [|fuel IH]; intros s x pr lo l Hf Hpm Hq Hc Hnd Hasc Hlo Hend Hw Hfew;
    (destruct l as [|[h e] l]; [|try (simpl in Hf; lia)]).
  1,2: apply wp_bind, (wp_updEntry q _ x); [done..|]; mmsimpl; apply (wp_updProc proc _ pm); [done..|]; mmsimpl; cbn [trim firstp];
    split_and!; [apply lookup_insert_eq|done|by intros k Hk _; rewrite lookup_insert_ne|done|done|by apply world_procs, (world_upd s q x)|by intros a k].
  cbn [firstp]. rewrite fmap_cons in Hnd |- *. change ((h, e).1) with h in *. apply NoDup_cons in Hnd as [Hqn Hnd]. apply not_elem_of_cons in Hqn as [Hqh Hql]. apply NoDup_cons in Hnd as [Hhl Hnd].
  destruct Hc as (Hh0 & Hh & Hc). destruct Hasc as (H1 & H2 & H3 & Hasc).
  apply wp_bind, (wp_updEntry q _ x); [done..|]. mmsimpl. destruct (Z.eqb_spec h 0); [done|].
  apply wp_bind. eapply wp_updEntry; [done|mmsimpl; rewrite lookup_insert_ne by done; exact Hh|]. mmsimpl.
  set (h1 := e_prev q (e_next (firstp l 0) (e_prev pr e))).
  set (s1 := set_entries _ _).
  assert (Hw1 : world s1).
  { unfold s1. refine (world_upd (set_entries (<[q := e_next h x]> (entries s)) s) h (e_next (firstp l 0) (e_prev pr e)) h1 _ _ _ _); [|mmsimpl; by rewrite lookup_insert_ne|done..].
    by apply (world_upd s q x). }
  assert (Hk1 : forall k, k <> q -> k <> h -> entries s1 !! k = entries s !! k) by (intros k ? ?; unfold s1; mmsimpl; by rewrite !lookup_insert_ne).
  assert (Hq1 : entries s1 !! q = Some (e_next h x)) by (unfold s1; mmsimpl; rewrite lookup_insert_ne by done; apply lookup_insert_eq).
  assert (Hh1 : entries s1 !! h = Some h1) by (unfold s1; mmsimpl; apply lookup_insert_eq).
  assert (Hc1 : chained (entries s1) h l 0).
  { eapply chained_frame; [exact Hc|]. intros k Hk. apply Hk1; intros ->; done. }
  assert (Hs1 : size (entries s1) = size (entries s)).
  { unfold s1; mmsimpl. rewrite !map_size_insert_Some; [done|by exists x|rewrite lookup_insert_ne by done; by eexists]. }
  apply wp_bind, (wp_getEntry h h1); [done..|]. change (vaddr h1) with (vaddr e). change (msize h1) with (msize e).
  cbn [trim].
  destruct (Z.leb_spec newEnd (vaddr e)).
  { apply wp_ret. cbn [firstp]. split_and!; [done|by split_and!| |done|done|done|by intros a k].
    intros k Hk Hkl. apply not_elem_of_cons in Hkl as [? ?]. by apply Hk1. }
  rewrite (uwrap_small 64 (newEnd - vaddr e)) by lia. destruct (Z.ltb_spec (newEnd - vaddr e) (msize e)) as [Hlt|Hge].
  - eapply wp_updEntry; [done|exact Hh1|]. mmsimpl. cbn [firstp chained]. split_and!.
    + by rewrite lookup_insert_ne.
    + done.
    + by rewrite lookup_insert_eq.
    + by apply chained_insert.
    + intros k Hk Hkl. apply not_elem_of_cons in Hkl as [? ?]. rewrite lookup_insert_ne by done. by apply Hk1.
    + done.
    + done.
    + by apply (world_upd s1 h h1).
    + by intros a k.
  - apply wp_bind. wp_use (deleteEntry_spec h h1 s1); [done|done|done|rewrite Hs1; lia|].
    intros r s2 (-> & He2 & Hp2 & Hc2 & Hw2 & Hk2). change (mnext h1) with (firstp l 0).
    wp_use (IH s2 (e_next h x) h (vaddr e + msize e) l); [simpl in Hf; lia|by rewrite Hp2|rewrite He2; by rewrite lookup_delete_ne| |by apply NoDup_cons|done|lia|done|done|..].
    + rewrite He2. by apply chained_delete.
    + rewrite He2. pose proof (map_size_delete_Some h (entries s1)) as Hd. rewrite Hd by eauto. lia.
    + intros _ s3 (E1 & E2 & E3 & E4 & E5 & E6 & E7). split_and!; [done|done| | |by rewrite E5, Hc2|done|].
      * intros k Hk Hkl. apply not_elem_of_cons in Hkl as [? ?]. rewrite E3, He2, lookup_delete_ne by done. by apply Hk1.
      * rewrite E4, Hp2. done.
      * intros a k Hm. by apply E7, Hk2.
Qed.

(** ** Creating an entry *)

Context (proc : Z) (Hproc : proc <> 0).

(** The process has this map. *)
Definition map_at s (l : emap) (lock : bool) : Prop :=
  procs s !! proc = Some (mkProcMem (firstp l 0) (lastp 0 l) lock) /\ chained (entries s) 0 l 0 /\ NoDup l.*1.
(** Nothing changes but the entries at [A] and the map of the process. *)
Definition frame (A : list Z) s s' : Prop :=
  (forall k x, k ∉ A -> entries s !! k = Some x -> entries s' !! k = Some x) /\
  (forall p, p <> proc -> procs s' !! p = procs s !! p) /\ curProc s' = curProc s /\ keeps (pages s) (pages s').
(** The lock of the memory map of the process is free. *)
Definition unlocked s : Prop := exists pm, procs s !! proc = Some pm /\ memLock pm = false.
Definition few s (n : Z) : Prop := Z.of_nat (size (entries s)) + n < 2 ^ 32.

Lemma frame_refl A s : frame A s s.
Proof. split_and!; [done|done|done|by intros a k]. Qed.
Lemma frame_trans A s1 s2 s3 : frame A s1 s2 -> frame A s2 s3 -> frame A s1 s3.
Proof. intros (H1 & H2 & H3 & H4) (H5 & H6 & H7 & H8). split_and!; [naive_solver|naive_solver congruence|congruence|unfold keeps in *; naive_solver]. Qed.
Lemma frame_upd A s p e : p ∈ A -> frame A s (set_entries (<[p := e]> (entries s)) s).
Proof. intros Hp. split_and!; mmsimpl; [|done|done|by intros a k]. intros k x Hk Hx. rewrite lookup_insert_ne; [done|]. by intros ->. Qed.
Lemma frame_del A s p : p ∈ A -> frame A s (set_entries (delete p (entries s)) s).
Proof. intros Hp. split_and!; mmsimpl; [|done|done|by intros a k]. intros k x Hk Hx. rewrite lookup_delete_ne; [done|]. by intros ->. Qed.
Lemma frame_proc A s x : frame A s (set_procs (<[proc := x]> (procs s)) s).
Proof. split_and!; mmsimpl; [done| |done|by intros a k]. intros p Hp. by rewrite lookup_insert_ne. Qed.
Lemma frame_pages A s v : keeps (pages s) v -> frame A s (set_pages v s).
Proof. intros Hk. by split_and!. Qed.

Lemma chained_last m prev l z e next : z ∉ l.*1 -> z <> 0 -> chained m prev l z ->
  chained (<[z := e_next next (e_prev (lastp prev l) e)]> m) prev (l ++ [(z, e)]) next.
Proof.
  intros Hz H0 Hl. apply chained_app. split; [by apply chained_insert|]. cbn [chained]. split_and!; [done|apply lookup_insert_eq|done].
Qed.

(** A map that is complete up to [q], whose next link is still to be set. *)
Definition opened s (l1 : emap) (q : Z) e (l2 : emap) : Prop :=
  exists pm nx pr, procs s !! proc = Some pm /\ memLock pm = true /\ firstMemEntry pm = firstp (l1 ++ [(q, e)]) 0 /\
  (l2 <> [] -> lastMemEntry pm = lastp 0 l2) /\ q <> 0 /\ chained (entries s) 0 l1 q /\
  entries s !! q = Some (e_next nx (e_prev (lastp 0 l1) e)) /\ chained (entries s) pr l2 0 /\ NoDup (l1.*1 ++ q :: l2.*1).

Lemma absorb_closes fuel s l1 q e l2 lo E :
  opened s l1 q e l2 -> (length l2 <= fuel)%nat -> ascending lo l2 -> 0 <= lo -> 0 <= E < 2 ^ 64 -> world s -> few s 0 ->
  wp (absorb fuel proc q E (firstp l2 0)) s (fun _ s' =>
    map_at s' (l1 ++ (q, e) :: trim E l2) true /\ world s' /\ frame (l1.*1 ++ q :: l2.*1) s s').
Proof.
  intros (pm & nx & pr & Hpm & Hlk & Hf & Hla & Hq0 & Hc1 & Hq & Hc2 & Hnd) Hfuel Ha Hlo HE Hw Hfew. unfold few in Hfew.
  pose proof Hnd as (Hnd1 & Hnd12 & Hnd2)%NoDup_app. pose proof Hnd2 as [Hq2 _]%NoDup_cons.
  assert (Hq1 : q ∉ l1.*1) by (intros Hin; apply (Hnd12 q Hin); by left).
  wp_use (absorb_spec fuel s proc q (e_next nx (e_prev (lastp 0 l1) e)) pm pr lo E l2); [done..|lia|]. intros _ s' (E1 & E2 & E3 & E4 & E5 & Hw' & Hk).
  split_and!; [|done|].
  - split_and!.
    + rewrite E4. destruct pm as [fi la lk]. cbn in Hlk, Hf, Hla. subst lk fi. destruct (decide (trim E l2 = [])) as [Ht|Ht].
      * rewrite lookup_insert_eq, Ht. unfold p_last. cbn. by rewrite lastp_snoc, !firstp_app.
      * rewrite Hpm. rewrite Hla by (by intros ->). rewrite !firstp_app.
        assert (lastp 0 (l1 ++ (q, e) :: trim E l2) = lastp 0 l2) as ->; [|done].
        rewrite <- (lastp_trim E 0 0 l2) by done. unfold lastp. rewrite last_app, last_cons.
        by destruct (last (trim E l2)) as [[]|] eqn:El; [|apply last_None in El].
    + apply chained_app. cbn [firstp chained]. split_and!; [|done|done|done]. eapply chained_frame; [exact Hc1|].
      intros k Hk1. apply E3; [by intros ->|]. intros Hk2. apply (Hnd12 k Hk1). by right.
    + rewrite fmap_app, fmap_cons. change ((q, e).1) with q. destruct (trim_suffix E l2) as [l3 Hl3]. rewrite Hl3 in Hnd.
      eapply sublist_NoDup; [exact Hnd|]. apply sublist_app; [done|]. apply sublist_skip, sublist_inserts_l. done.
  - split_and!; [|intros p Hp; rewrite E4; destruct (decide _); [by rewrite lookup_insert_ne|done]|done|done].
    intros k x Hk1 Hx. rewrite E3; [done| |]; intros Hin; apply Hk1; set_solver.
Qed.

Lemma findLowerHigher_spec fuel s l1 l2 start :
  chained (entries s) 0 (l1 ++ l2) 0 -> (length l2 <= fuel)%nat -> (forall p e, (p, e) ∈ l1 -> vaddr e <= start) ->
  wp (findLowerHigher fuel (lastp 0 l1) (firstp l2 0) start) s (fun r s' => s' = s /\ exists l1' l2', l1 ++ l2 = l1' ++ l2' /\
    r = (lastp 0 l1', firstp l2' 0) /\ (forall p e, (p, e) ∈ l1' -> vaddr e <= start) /\ (forall p e l, l2' = (p, e) :: l -> start < vaddr e)).
Proof.
  revert l1 l2. induction fuel as [|fuel IH]; intros l1 l2 Hc Hf Hl1; (destruct l2 as [|[p e] l2]; [|try (simpl in Hf; lia)]).
  1,2: cbn [findLowerHigher firstp Z.eqb]; apply wp_ret; split; [done|]; by exists l1, [].
  pose proof (chained_in _ _ _ _ p e Hc) as (H0 & nx & pv & Hp); [set_solver|]. cbn [firstp findLowerHigher].
  destruct (Z.eqb_spec p 0); [done|]. apply wp_bind. eapply wp_getEntry; [done..|]. cbn [vaddr e_next e_prev].
  destruct (Z.ltb_spec start (vaddr e)) as [Hlt|Hge].
  { apply wp_ret. split; [done|]. exists l1, ((p, e) :: l2). split_and!; [done..|]. by intros ??? [= <- <- <-]. }
  replace (l1 ++ (p, e) :: l2) with ((l1 ++ [(p, e)]) ++ l2) in * by (by rewrite <- app_assoc).
  pose proof Hc as Hc'. rewrite <- app_assoc in Hc'. apply chained_app in Hc' as [_ (_ & Hp' & _)].
  rewrite Hp in Hp'. injection Hp' as Hn _. subst nx.
  specialize (IH (l1 ++ [(p, e)]) l2 Hc). rewrite lastp_snoc in IH. apply IH; [simpl in Hf; lia|].
  intros k x [Hk|[= -> ->]%list_elem_of_singleton]%elem_of_app; [by eapply Hl1|done].
Qed.

Lemma world_drop s p e v : world s -> entries s !! p = Some e -> sharer e = None -> live v = live (pages s) ∖ {[p]} ->
  world (set_pages v (set_entries (delete p (entries s)) s)).
Proof.
  intros [Hs Hd Hl] Hp He Hv. pose proof (elem_of_dom_2 _ _ _ Hp). split; mmsimpl; [by eapply sharing_delete|set_solver|]. rewrite Hv. set_solver.
Qed.
Lemma few_upd s p e n : is_Some (entries s !! p) -> few s n -> few (set_entries (<[p := e]> (entries s)) s) n.
Proof. intros Hp Hf. unfold few. mmsimpl. by rewrite map_size_insert_Some. Qed.
Lemma few_weaken s n n' : few s n -> n' <= n -> few s n'.
Proof. unfold few. lia. Qed.
Lemma few_del s p n : few s n -> few (set_entries (delete p (entries s)) s) n.
Proof.
  unfold few. mmsimpl. intros Hf. destruct (entries s !! p) eqn:E; [|by rewrite delete_id].
  rewrite map_size_delete_Some by eauto. lia.
Qed.

Section linking.
Context (v n f : Z) (Hv : 0 <= v) (Hn : 0 < n) (Hend : v + n <= 2 ^ 63).

(** The state after the link back of the new entry is set. *)
Definition ready s (l1 : emap) (p : Z) new (l2 : emap) : Prop :=
  exists pm nx, procs s !! proc = Some pm /\ memLock pm = true /\ firstMemEntry pm = firstp (l1 ++ l2) 0 /\ lastMemEntry pm = lastp 0 (l1 ++ l2) /\
  chained (entries s) 0 (l1 ++ l2) 0 /\ NoDup (p :: (l1 ++ l2).*1) /\ p <> 0 /\ entries s !! p = Some (e_next nx (e_prev (lastp 0 l1) new)).
(** The new entry is linked to what lies below, or there is no memory. *)
Definition linked_ok s (l1 : emap) (p : Z) (l2 : emap) (r : option (Z * Z)) s' : Prop :=
  frame (p :: (l1 ++ l2).*1) s s' /\
  match r with
  | Some (q, E) => exists l1' e', opened s' l1' q e' l2 /\ placed l1 v n f (l1' ++ [(q, e')]) E /\ world s' /\ few s' 0 /\
      forall k, k ∈ l1'.*1 ++ [q] -> k ∈ p :: (l1 ++ l2).*1 \/ entries s !! k = None
  | None => is_Some (procs s' !! proc) /\ (exists w, (kmalloc sizeofMemoryEntry w).1 = 0) /\
      exists lo el, (lo, el) ∈ l1 /\ vaddr el < v /\ v + n < vaddr el + msize el
  end.

Lemma ready_last s l lo el p new l2 : ready s (l ++ [(lo, el)]) p new l2 ->
  lo <> 0 /\ entries s !! lo = Some (e_next (firstp l2 0) (e_prev (lastp 0 l) el)) /\ chained (entries s) 0 l lo /\ chained (entries s) lo l2 0 /\
  lo ∉ l.*1 /\ p <> lo /\ p ∉ l.*1 /\ p ∉ l2.*1 /\ lo ∉ l2.*1 /\ NoDup l.*1 /\ NoDup l2.*1 /\ (forall k, k ∈ l.*1 -> k ∉ l2.*1).
Proof.
  intros (pm & nx & _ & _ & _ & _ & Hc & Hnd & _ & _). rewrite <- app_assoc in Hc, Hnd. cbn [app] in Hc, Hnd.
  apply chained_app in Hc as [Hc (H0 & Hlo & Hc2)]. rewrite fmap_app, fmap_cons in Hnd. change ((lo, el).1) with lo in Hnd.
  apply NoDup_cons in Hnd as [Hp Hnd]. apply NoDup_app in Hnd as (Hd1 & Hd12 & Hd2). apply NoDup_cons in Hd2 as [Hlo2 Hd2].
  rewrite not_elem_of_app, not_elem_of_cons in Hp. destruct Hp as (? & ? & ?).
  split_and!; try done. { intros Hin. apply (Hd12 lo Hin). by left. } intros k Hk Hk2. apply (Hd12 k Hk). by right.
Qed.

(** Finishing a case: the map is complete up to the new entry. *)
Lemma opened_intro s pm nx l1 q e l2 pr :
  procs s !! proc = Some pm -> memLock pm = true -> firstMemEntry pm = firstp (l1 ++ [(q, e)]) 0 ->
  (l2 <> [] -> lastMemEntry pm = lastp 0 l2) -> q <> 0 -> chained (entries s) 0 l1 q ->
  entries s !! q = Some (e_next nx (e_prev (lastp 0 l1) e)) -> chained (entries s) pr l2 0 -> NoDup (l1.*1 ++ q :: l2.*1) -> opened s l1 q e l2.
Proof. intros. exists pm, nx, pr. split_and!; done. Qed.
Lemma lastp_app_ne prev l1 l2 : l2 <> [] -> lastp prev (l1 ++ l2) = lastp 0 l2.
Proof. intros Hl. unfold lastp. rewrite last_app. destruct (last l2) eqn:E; [done|by apply last_None in E]. Qed.

Lemma lower_in l lo el p (l2 : emap) : lo ∈ p :: ((l ++ [(lo, el)]) ++ l2).*1.
Proof. rewrite <- app_assoc, fmap_app. right. apply elem_of_app. right. by left. Qed.
Lemma lower_not_in l lo el p (l2 : emap) k : k ∉ p :: ((l ++ [(lo, el)]) ++ l2).*1 -> k <> p /\ k <> lo.
Proof. intros Hk. split; intros ->; apply Hk; [by left|apply lower_in]. Qed.
Lemma origin_upto l lo el x p (l2 : emap) k : k ∈ (l ++ [(lo, x)]).*1 ++ [p] -> k ∈ p :: ((l ++ [(lo, el)]) ++ l2).*1.
Proof. rewrite !fmap_app. change ([(lo, x)].*1) with [lo]. change ([(lo, el)].*1) with [lo]. set_solver. Qed.
Lemma origin_below l lo el q p (l2 : emap) k : q = lo \/ q = p -> k ∈ l.*1 ++ [q] -> k ∈ p :: ((l ++ [(lo, el)]) ++ l2).*1.
Proof. rewrite !fmap_app. change ([(lo, el)].*1) with [lo]. set_solver. Qed.
Lemma nodup_middle p (l1 l2 : emap) : NoDup (p :: (l1 ++ l2).*1) -> NoDup (l1.*1 ++ p :: l2.*1).
Proof. rewrite fmap_app. by rewrite Permutation_middle. Qed.

Lemma link_first s p new l2 : ready s [] p new l2 -> private v n f new -> world s -> few s 1 -> 
  wp (updProc proc (p_first p);; mret (Some (p, v + n))) s (linked_ok s [] p l2).
Proof.
  intros (pm & nx & Hpm & Hlk & Hf & Hla & Hc & Hnd & Hp0 & Hp) Hpr Hw Hfew. apply wp_bind. eapply wp_updProc; [done..|].
  apply wp_ret. split; [apply frame_proc|]. exists [], new. split_and!.
  - eapply (opened_intro _ (p_first p pm)); mmsimpl; [apply lookup_insert_eq|done|done|done|done|done|exact Hp|exact Hc|exact Hnd].
  - apply placed_gap; [done..|]. cbn. lia.
  - by apply world_procs.
  - by eapply few_weaken; [|apply Z.le_0_1].
  - intros k Hk. left. cbn in Hk |- *. apply elem_of_cons in Hk. set_solver.
Qed.

Lemma link_gap s l lo el p new l2 : ready s (l ++ [(lo, el)]) p new l2 -> private v n f new -> world s -> few s 1 ->
  ascending 0 (l ++ [(lo, el)]) -> vaddr el + msize el <= v ->
  wp (updEntry lo (e_next p);; mret (Some (p, v + n))) s (linked_ok s (l ++ [(lo, el)]) p l2).
Proof.
  intros Hr Hpr Hw Hfew Ha Hle. destruct (ready_last _ _ _ _ _ _ _ Hr) as (Hlo0 & Hlo & Hcl & Hc2 & Hlol & Hplo & Hpl & Hpl2 & Hlo2 & Hnd1 & Hnd2 & Hd).
  destruct Hr as (pm & nx & Hpm & Hlk & Hf & Hla & Hc & Hnd & Hp0 & Hp). apply wp_bind. eapply wp_updEntry; [done..|]. apply wp_ret.
  split; [apply frame_upd, lower_in|]. exists (l ++ [(lo, el)]), new. split_and!.
  - eapply (opened_intro _ pm); mmsimpl; [done|done| |intros Hl2; rewrite Hla; by apply lastp_app_ne|done| | | |].
    + rewrite Hf, !firstp_app. done.
    + by apply chained_last.
    + rewrite lookup_insert_ne by done. exact Hp.
    + apply chained_insert; [done|exact Hc2].
    + by apply nodup_middle.
  - apply placed_gap; [done..|by rewrite hi_snoc].
  - by eapply world_upd.
  - apply few_upd; [by eexists|]. by eapply few_weaken; [|apply Z.le_0_1].
  - intros k Hk. left. by eapply origin_upto.
Qed.

Lemma link_merge s l lo el p new l2 : ready s (l ++ [(lo, el)]) p new l2 -> private v n f new -> world s -> few s 1 ->
  ascending 0 (l ++ [(lo, el)]) -> vaddr el <= v -> v <= vaddr el + msize el -> mflags el = f ->
  let E := Z.max (vaddr el + msize el) (v + n) in
  wp (updEntry lo (e_size (E - vaddr el));; modify (fun s => set_entries (delete p (entries s)) s);; freeObject p;; mret (Some (lo, E))) s
     (linked_ok s (l ++ [(lo, el)]) p l2).
Proof.
  intros Hr Hpr Hw Hfew Ha H1 H2 H3 E. destruct (ready_last _ _ _ _ _ _ _ Hr) as (Hlo0 & Hlo & Hcl & Hc2 & Hlol & Hplo & Hpl & Hpl2 & Hlo2 & Hnd1 & Hnd2 & Hd).
  destruct Hr as (pm & nx & Hpm & Hlk & Hf & Hla & Hc & Hnd & Hp0 & Hp). apply wp_bind. eapply wp_updEntry; [done..|].
  apply wp_bind, wp_modify, wp_bind, wp_freeObject. mmsimpl. intros w Hk Hlw. apply wp_ret. set (s1 := set_pages _ _).
  assert (Hsh : sharer el = None). { destruct Hpr as (_ & _ & Hf' & Hs). unfold sharer in *. rewrite H3, <- Hf'. by destruct (has (mflags new) MMAP_FLAG_SHARED). }
  split; [|exists l, (e_size (E - vaddr el) el); split_and!].
  - split_and!; unfold s1; mmsimpl; [|done|done|done]. intros k x [Hk1 Hk2]%lower_not_in Hx. by rewrite lookup_delete_ne, lookup_insert_ne.
  - eapply (opened_intro _ pm); unfold s1; mmsimpl; [done|done| |intros Hl2; rewrite Hla; by apply lastp_app_ne|done| | | |].
    + rewrite Hf, !firstp_app. done.
    + apply chained_delete; [done|]. by apply chained_insert.
    + rewrite lookup_delete_ne by done. apply lookup_insert_eq.
    + apply chained_delete; [done|]. apply chained_insert; [done|exact Hc2].
    + apply NoDup_app. split_and!; [done| |by apply NoDup_cons]. intros k Hk1 [->|Hk2]%elem_of_cons; [done|by apply (Hd k)].
  - by apply placed_merge.
  - unfold s1. refine (world_drop (set_entries (<[lo := e_size (E - vaddr el) (e_next (firstp l2 0) (e_prev (lastp 0 l) el))]> (entries s)) s) p
      (e_next nx (e_prev (lastp 0 (l ++ [(lo, el)])) new)) w _ _ _ _); [by eapply world_upd|mmsimpl; by rewrite lookup_insert_ne|by destruct Hpr as (_ & _ & _ & ?)|done].
  - unfold s1. refine (few_del (set_entries (<[lo := e_size (E - vaddr el) (e_next (firstp l2 0) (e_prev (lastp 0 l) el))]> (entries s)) s) p 0 _).
    apply few_upd; [by eexists|]. by eapply few_weaken; [|apply Z.le_0_1].
  - intros k Hko. left. eapply origin_below; [by left|exact Hko].
Qed.

(** The entry before a deleted one, or the process, now points to [p]. *)
Lemma relink_spec s pm l x p e : procs s !! proc = Some pm -> chained (entries s) 0 l x -> NoDup l.*1 -> p ∉ l.*1 -> world s ->
  firstMemEntry pm = firstp l x ->
  wp (if negb (lastp 0 l =? 0) then updEntry (lastp 0 l) (e_next p) else updProc proc (p_first p)) s (fun _ s' =>
    frame l.*1 s s' /\ chained (entries s') 0 l p /\ (forall k, k ∉ l.*1 -> entries s' !! k = entries s !! k) /\ world s' /\
    size (entries s') = size (entries s) /\ pages s' = pages s /\
    exists pm', procs s' !! proc = Some pm' /\ memLock pm' = memLock pm /\ lastMemEntry pm' = lastMemEntry pm /\ firstMemEntry pm' = firstp (l ++ [(p, e)]) 0).
Proof.
  intros Hpm Hc Hnd Hp Hw Hf. destruct l as [|[z ez] l _] using rev_ind.
  - cbn. eapply wp_updProc; [done..|]. mmsimpl. split_and!; [apply frame_proc|done|done|by apply world_procs|done|done|].
    exists (p_first p pm). split_and!; [apply lookup_insert_eq|done..].
  - rewrite lastp_snoc. apply chained_app in Hc as [Hc (Hz0 & Hz & _)]. rewrite fmap_app in Hnd, Hp |- *. apply NoDup_app in Hnd as (Hd1 & Hd12 & _).
    assert (Hzl : z ∉ l.*1) by (intros Hin; apply (Hd12 z Hin); by left).
    destruct (Z.eqb_spec z 0); [done|]. eapply wp_updEntry; [done..|]. mmsimpl. split_and!.
    + apply frame_upd, elem_of_app. right. by left.
    + by apply chained_last.
    + intros k [_ Hk]%not_elem_of_app. apply lookup_insert_ne. intros ->. apply Hk. by left.
    + by eapply world_upd.
    + apply map_size_insert_Some. by eexists.
    + done.
    + exists pm. split_and!; [done|done|done|]. by rewrite Hf, !firstp_app.
Qed.

Lemma wp_dealloc s a k (Q : unit -> mm V -> Prop) : mapped a k (pages s) ->
  (forall w, live w = live (pages s) -> keeps (pages s) w -> Q tt (set_pages w s)) -> wp (onPages (deallocPages a k)) s Q.
Proof. intros Hm HQ. apply wp_onPages. wp_use (deallocPages_ok a k (pages s)); [done|]. intros [] w [? ?]. by apply HQ. Qed.

Lemma opened_pages s w l1 q e l2 : opened s l1 q e l2 -> opened (set_pages w s) l1 q e l2.
Proof. done. Qed.

Lemma split_cover s l lo el p new l2 : ready s (l ++ [(lo, el)]) p new l2 -> private v n f new -> world s -> few s 1 ->
  ascending 0 (l ++ [(lo, el)]) -> vaddr el = v -> vaddr el + msize el <= v + n -> mapped (vaddr el) (msize el) (pages s) ->
  wp (splitLower lo (firstp l2 0) proc p v (v + n)) s (fun r s' => linked_ok s (l ++ [(lo, el)]) p l2 ((fun p => (p, v + n)) <$> r) s').
Proof.
  intros Hr Hpr Hw Hfew Ha H1 H2 Hm. destruct (ready_last _ _ _ _ _ _ _ Hr) as (Hlo0 & Hlo & Hcl & Hc2 & Hlol & Hplo & Hpl & Hpl2 & Hlo2 & Hnd1 & Hnd2 & Hd).
  destruct Hr as (pm & nx & Hpm & Hlk & Hf & Hla & Hc & Hnd & Hp0 & Hp). pose proof Ha as [_ (H3 & H4 & H5 & _)]%ascending_app.
  unfold splitLower. apply wp_bind. eapply wp_updEntry; [done..|]. set (x := e_next p _). set (s1 := set_entries _ s).
  assert (Hw1 : world s1) by (eapply world_upd; [done|exact Hlo|done..]).
  assert (Hsz : size (entries s1) = size (entries s)) by (unfold s1; mmsimpl; apply map_size_insert_Some; by eexists).
  apply wp_bind, (wp_getEntry lo x); [done|apply lookup_insert_eq|]. cbv zeta. change (vaddr x) with (vaddr el).
  unfold endOf. change (vaddr x) with (vaddr el). change (msize x) with (msize el). rewrite H1, Z.sub_diag.
  rewrite (uwrap_small 64 0), (uwrap_small 64 (v + msize el)) by lia. rewrite (swrap_small 64) by lia.
  change (0 =? 0) with true. cbv iota. destruct (Z.ltb_spec 0 (v + msize el - (v + n))); [lia|].
  apply wp_bind, wp_bind. wp_use (deleteEntry_spec lo x s1); [done|apply lookup_insert_eq|done|unfold few in Hfew; lia|].
  intros r s2 (_ & He2 & Hp2 & Hcu2 & Hw2 & Hk2).
  assert (Hen : forall k, k <> lo -> entries s2 !! k = entries s !! k) by (intros k Hk; rewrite He2, lookup_delete_ne by done; unfold s1; mmsimpl; by rewrite lookup_insert_ne).
  apply wp_bind. eapply wp_updEntry; [done|rewrite Hen by done; exact Hp|]. set (s3 := set_entries _ s2). change (mprev x) with (lastp 0 l).
  assert (Hw3 : world s3). { unfold s3. eapply world_upd; [done|rewrite Hen by done; exact Hp|done|done]. }
  assert (Hen3 : forall k, k <> lo -> k <> p -> entries s3 !! k = entries s !! k) by (intros k ? ?; unfold s3; mmsimpl; rewrite lookup_insert_ne by done; by apply Hen).
  wp_use (relink_spec s3 pm l lo p new); [by unfold s3; mmsimpl; rewrite Hp2| |done|done|done|rewrite Hf, !firstp_app; done|].
  { eapply chained_frame; [exact Hcl|]. intros k Hk. apply Hen3; by intros ->. }
  intros _ s4 (Hf4 & Hc4 & He4 & Hw4 & Hsz4 & Hpg4 & pm4 & Hpm4 & Hlk4 & Hla4 & Hfi4).
  apply wp_bind. eapply wp_dealloc; [|intros w Hlw Hkw].
  { rewrite Hpg4. apply Hk2. destruct (Z.ltb_spec (v + msize el) (v + n)); (eapply mapped_sub; [exact Hm|..]); rewrite ?uwrap_small; lia. }
  apply wp_ret. cbn [fmap option_fmap option_map]. split.
  - apply (frame_trans _ _ s1); [apply frame_upd, lower_in|]. apply (frame_trans _ _ s2).
    { split_and!; [|by rewrite Hp2|done|done]. intros k y [_ Hk]%lower_not_in Hy. rewrite He2. by rewrite lookup_delete_ne. }
    apply (frame_trans _ _ s3); [apply frame_upd; by left|]. apply (frame_trans _ _ s4); [|by apply frame_pages].
    destruct Hf4 as (Hx & ?). split; [|done]. intros k y Hk. apply Hx. intros Hin. apply Hk. right. rewrite !fmap_app. apply elem_of_app. left. apply elem_of_app. by left.
  - exists l, new. split_and!.
    + apply opened_pages. eapply (opened_intro _ pm4); [done|by rewrite Hlk4|done| |done|done| | |].
      * intros Hl2. rewrite Hla4, Hla. by apply lastp_app_ne.
      * rewrite He4 by done. unfold s3. mmsimpl. rewrite lookup_insert_eq. done.
      * eapply chained_frame; [exact Hc2|]. intros k Hk. rewrite He4 by (intros Hk1; by apply (Hd k)). apply Hen3; by intros ->.
      * apply NoDup_app. split_and!; [done| |by apply NoDup_cons]. intros k Hk1 [->|Hk2']%elem_of_cons; [done|by apply (Hd k)].
    + by apply placed_cover.
    + by apply world_pages.
    + unfold few in *. mmsimpl. rewrite Hsz4. unfold s3. mmsimpl. rewrite map_size_insert_Some by (rewrite Hen by done; by eexists).
      rewrite He2, map_size_delete_Some by (eexists; apply lookup_insert_eq). lia.
    + intros k Hk. left. eapply origin_below; [by right|exact Hk].
Qed.

(** The lower entry cut short and linked to the new one. *)
Definition cut_state s (l : emap) (lo p : Z) el : mm V :=
  set_entries (<[lo := e_next p (e_prev (lastp 0 l) (e_size (v - vaddr el) el))]> (entries s)) s.
Lemma split_cut s l lo el p new l2 (Q : option Z -> mm V -> Prop) : ready s (l ++ [(lo, el)]) p new l2 -> 
  ascending 0 (l ++ [(lo, el)]) -> vaddr el < v -> 
  (let lowEnd := vaddr el + msize el in
   let dealloc := onPages (deallocPages v ((if lowEnd <? v + n then lowEnd else v + n) - v)) in
   wp (if 0 <? lowEnd - (v + n) then
         lh ← allocObject sizeofMemoryEntry;
         if lh =? 0 then mret None
         else
           l' ← getEntry lo;
           putEntry lh (mkEntry (v + n) (lowEnd - (v + n)) (mflags l') (firstp l2 0) p (shared l') (u64 (sharedOffset l' + (v + n - vaddr el))));;
           (if negb (shared l' =? 0) then updShared (shared l') (fun x => mkShared (u32 (refCount x + 1)) (nrofPages x) (physPages x)) else mret tt);;
           updEntry p (e_next lh);;
           (if negb (firstp l2 0 =? 0) then updEntry (firstp l2 0) (e_prev lh) else updProc proc (p_last lh));;
           dealloc;; mret (Some lh)
       else dealloc;; mret (Some p)) (cut_state s l lo p el) Q) ->
  v < vaddr el + msize el -> wp (splitLower lo (firstp l2 0) proc p v (v + n)) s Q.
Proof.
  intros Hr Ha H1 HQ H2. destruct (ready_last _ _ _ _ _ _ _ Hr) as (Hlo0 & Hlo & _). pose proof Ha as [_ (H3 & H4 & H5 & _)]%ascending_app.
  pose proof (hi_above 0 l). apply ascending_app in Ha as [Ha _].
  unfold splitLower. apply wp_bind. eapply wp_updEntry; [done..|]. set (x := e_next p _).
  apply wp_bind, (wp_getEntry lo x); [done|apply lookup_insert_eq|]. cbv zeta. unfold endOf.
  change (vaddr x) with (vaddr el). change (msize x) with (msize el).
  assert (0 <= vaddr el) by (pose proof (hi_above _ _ Ha); lia).
  rewrite !(uwrap_small 64 (vaddr el + msize el)), (uwrap_small 64 (v - vaddr el)), (uwrap_small 64 (v + n - vaddr el)) by lia.
  rewrite (swrap_small 64) by lia. destruct (Z.eqb_spec (v - vaddr el) 0); [lia|].
  rewrite (uwrap_small 64 _) by (destruct (Z.ltb_spec (vaddr el + msize el) (v + n)); lia).
  apply wp_bind. eapply wp_updEntry; [done|apply lookup_insert_eq|]. mmsimpl. rewrite insert_insert_eq.
  exact HQ.
Qed.
Lemma cut_world s l lo el p new l2 : ready s (l ++ [(lo, el)]) p new l2 -> world s -> world (cut_state s l lo p el).
Proof. intros Hr Hw. destruct (ready_last _ _ _ _ _ _ _ Hr) as (Hlo0 & Hlo & _). by eapply world_upd. Qed.

Lemma split_low s l lo el p new l2 : ready s (l ++ [(lo, el)]) p new l2 -> private v n f new -> world s -> few s 1 ->
  ascending 0 (l ++ [(lo, el)]) -> vaddr el < v -> v < vaddr el + msize el -> vaddr el + msize el <= v + n -> mapped (vaddr el) (msize el) (pages s) ->
  wp (splitLower lo (firstp l2 0) proc p v (v + n)) s (fun r s' => linked_ok s (l ++ [(lo, el)]) p l2 ((fun p => (p, v + n)) <$> r) s').
Proof.
  intros Hr Hpr Hw Hfew Ha H1 H2 H3 Hm. eapply split_cut; [done..| |done]. cbv zeta.
  destruct (ready_last _ _ _ _ _ _ _ Hr) as (Hlo0 & Hlo & Hcl & Hc2 & Hlol & Hplo & Hpl & Hpl2 & Hlo2 & Hnd1 & Hnd2 & Hd).
  pose proof (cut_world _ _ _ _ _ _ _ Hr Hw) as Hw'. destruct Hr as (pm & nx & Hpm & Hlk & Hf & Hla & Hc & Hnd & Hp0 & Hp).
  destruct (Z.ltb_spec 0 (vaddr el + msize el - (v + n))); [lia|]. apply wp_bind. eapply wp_dealloc; [|intros w Hlw Hkw].
  { mmsimpl. destruct (Z.ltb_spec (vaddr el + msize el) (v + n)); (eapply mapped_sub; [exact Hm|..]); lia. }
  apply wp_ret. cbn [fmap option_fmap option_map]. split; [|exists (l ++ [(lo, e_size (v - vaddr el) el)]), new; split_and!].
  - eapply frame_trans; [apply frame_upd, lower_in|by apply frame_pages].
  - apply opened_pages. eapply (opened_intro _ pm); [done|done| |intros Hl2; rewrite Hla; by apply lastp_app_ne|done| | | |].
    + rewrite Hf, !firstp_app. done.
    + by apply chained_last.
    + unfold cut_state. mmsimpl. rewrite lookup_insert_ne by done. rewrite Hp, !lastp_snoc. done.
    + apply chained_insert; [done|exact Hc2].
    + apply nodup_middle. rewrite !fmap_app in Hnd |- *. exact Hnd.
  - by apply placed_low.
  - by apply world_pages.
  - unfold few, cut_state. mmsimpl. rewrite map_size_insert_Some by (by eexists). unfold few in Hfew. lia.
  - intros k Hk. left. by eapply origin_upto.
Qed.

(** A new entry with the sharing of an old one. *)
Lemma world_copy s lh w e x : world s -> entries s !! lh = None -> shareds s !! lh = None -> live w = {[lh]} ∪ live (pages s) -> few s 1 ->
  (exists q, entries s !! q = Some x) -> sharer e = sharer x -> shared e = shared x ->
  wp (if negb (shared x =? 0) then updShared (shared x) (fun x => mkShared (u32 (refCount x + 1)) (nrofPages x) (physPages x)) else mret tt)
     (set_entries (<[lh := e]> (entries s)) (set_pages w s))
     (fun _ s' => exists sm, s' = set_shareds sm (set_entries (<[lh := e]> (entries s)) (set_pages w s)) /\ world s').
Proof.
  intros [Hs Hd Hl] He Hsh Hw Hfew [q Hq] E1 E2. pose proof (proj1 Hs q x Hq) as Hx. destruct (sharer x) as [sh|] eqn:Ex.
  - assert (sh = shared x) as -> by (unfold sharer in Ex; by destruct (has (mflags x) MMAP_FLAG_SHARED); simplify_eq).
    destruct Hx as [y Hy]. destruct (proj2 Hs _ _ Hy) as (H0 & Hr & Hu & Hnp). destruct (Z.eqb_spec (shared x) 0); [done|].
    eapply wp_updShared; [done|exact Hy|]. mmsimpl. eexists. split; [done|]. pose proof (users_size (entries s) (shared x)). unfold few in Hfew.
    rewrite uwrap_small by lia. pose proof (elem_of_dom_2 _ _ _ Hy). split; mmsimpl.
    + by apply (sharing_more _ _ lh e (shared x) y).
    + rewrite !dom_insert. apply not_elem_of_dom in He, Hsh. set_solver.
    + rewrite Hw, !dom_insert. set_solver.
  - rewrite Hx. cbn [Z.eqb negb]. apply wp_ret. exists (shareds s). split; [done|]. split; mmsimpl.
    + apply sharing_new; [done..|by rewrite E2].
    + rewrite dom_insert. apply not_elem_of_dom in Hsh. set_solver.
    + rewrite Hw, dom_insert. set_solver.
Qed.

(** The entry above a split and the new last entry of the process. *)
Lemma rehang_spec s pm lh pr l2 : procs s !! proc = Some pm -> chained (entries s) pr l2 0 -> NoDup l2.*1 -> world s ->
  (l2 <> [] -> lastMemEntry pm = lastp 0 l2) ->
  wp (if negb (firstp l2 0 =? 0) then updEntry (firstp l2 0) (e_prev lh) else updProc proc (p_last lh)) s (fun _ s' =>
    frame l2.*1 s s' /\ chained (entries s') lh l2 0 /\ (forall k, k ∉ l2.*1 -> entries s' !! k = entries s !! k) /\ world s' /\
    size (entries s') = size (entries s) /\ pages s' = pages s /\
    exists pm', procs s' !! proc = Some pm' /\ memLock pm' = memLock pm /\ firstMemEntry pm' = firstMemEntry pm /\ (l2 <> [] -> lastMemEntry pm' = lastp 0 l2)).
Proof.
  intros Hpm Hc Hnd Hw Hla. destruct l2 as [|[h e] l2].
  - cbn. eapply wp_updProc; [done..|]. mmsimpl. split_and!; [apply frame_proc|done|done|by apply world_procs|done|done|].
    exists (p_last lh pm). split_and!; [apply lookup_insert_eq|done..].
  - pose proof Hc as (Hh0 & Hh & _). rewrite fmap_cons in Hnd |- *. change ((h, e).1) with h in *. apply NoDup_cons in Hnd as [Hn2 Hnd].
    cbn [firstp]. destruct (Z.eqb_spec h 0); [done|]. eapply wp_updEntry; [done..|]. mmsimpl. split_and!.
    + apply frame_upd. by left.
    + exact (chained_set_prev (entries s) pr lh h e l2 0 Hn2 Hc).
    + intros k [Hk _]%not_elem_of_cons. by apply lookup_insert_ne.
    + by eapply world_upd.
    + apply map_size_insert_Some. by eexists.
    + done.
    + by exists pm.
Qed.

Lemma split_mid s l lo el p new l2 : ready s (l ++ [(lo, el)]) p new l2 -> private v n f new -> world s -> few s 1 ->
  ascending 0 (l ++ [(lo, el)]) -> vaddr el < v -> v + n < vaddr el + msize el -> mapped (vaddr el) (msize el) (pages s) ->
  wp (splitLower lo (firstp l2 0) proc p v (v + n)) s (fun r s' => linked_ok s (l ++ [(lo, el)]) p l2 ((fun p => (p, v + n)) <$> r) s').
Proof.
  intros Hr Hpr Hw Hfew Ha H1 H2 Hm. pose proof Ha as [Ha0 (H3 & H4 & H5 & _)]%ascending_app. pose proof (hi_above _ _ Ha0).
  eapply split_cut; [done..| |lia]. cbv zeta.
  destruct (ready_last _ _ _ _ _ _ _ Hr) as (Hlo0 & Hlo & Hcl & Hc2 & Hlol & Hplo & Hpl & Hpl2 & Hlo2 & Hnd1 & Hnd2 & Hd).
  pose proof (cut_world _ _ _ _ _ _ _ Hr Hw) as Hw1. destruct Hr as (pm & nx & Hpm & Hlk & Hf & Hla & Hc & Hnd & Hp0 & Hp).
  set (s1 := cut_state s l lo p el) in *.
  assert (Hlo1 : entries s1 !! lo = Some (e_next p (e_prev (lastp 0 l) (e_size (v - vaddr el) el)))) by apply lookup_insert_eq.
  assert (Hen1 : forall k, k <> lo -> entries s1 !! k = entries s !! k) by (intros k Hk; unfold s1, cut_state; mmsimpl; by rewrite lookup_insert_ne).
  assert (Hf1 : few s1 1) by (unfold few, s1, cut_state; mmsimpl; rewrite map_size_insert_Some; [done|by eexists]).
  assert (Hfr1 : frame (p :: ((l ++ [(lo, el)]) ++ l2).*1) s s1) by (apply frame_upd, lower_in).
  destruct (Z.ltb_spec 0 (vaddr el + msize el - (v + n))) as [_|]; [|lia].
  apply wp_bind, wp_allocObject; [done| |].
  { intros w Hkm Hk Hlw. change (0 =? 0) with true. cbv iota. apply wp_ret. split; [eapply frame_trans; [done|by apply frame_pages]|].
    split_and!; [by exists pm|by exists (pages s1)|exists lo, el; split_and!; [apply elem_of_app; right; by left|done|done]]. }
  intros lh w Hlh0 Hlhe Hlhs Hk Hlw. destruct (Z.eqb_spec lh 0); [done|].
  assert (Hlhlo : lh <> lo) by congruence. assert (Hlhp : lh <> p) by (rewrite Hen1 in Hlhe by done; congruence).
  assert (Hlh : forall k, k ∈ l.*1 \/ k ∈ l2.*1 -> k <> lh).
  { intros k Hk' ->. rewrite Hen1 in Hlhe by done. destruct Hk' as [Hk'|Hk']; [destruct (chained_nonzero _ _ _ _ _ Hcl Hk') as [_ [? ?]]|destruct (chained_nonzero _ _ _ _ _ Hc2 Hk') as [_ [? ?]]]; congruence. }
  apply wp_bind. eapply wp_getEntry; [done|exact Hlo1|]. set (x := e_next p (e_prev (lastp 0 l) (e_size (v - vaddr el) el))).
  apply wp_bind, wp_modify. mmsimpl. set (e' := mkEntry _ _ _ _ _ _ _).
  assert (He' : e' = e_next (firstp l2 0) (e_prev p (shrink (v + n - vaddr el) el))).
  { unfold e', shrink, e_next, e_prev. cbn [vaddr msize mflags mnext mprev shared sharedOffset x e_size].
    rewrite (uwrap_small 64 (vaddr el + _)), (uwrap_small 64 (msize el - _)) by lia. f_equal; lia. }
  apply wp_bind. wp_use (world_copy s1 lh w e' x); [done..|by exists lo|by rewrite He'|by rewrite He'|].
  intros _ s3 (sm & -> & Hw3). set (s3 := set_shareds sm _) in *.
  assert (Hen3 : forall k, k <> lh -> entries s3 !! k = entries s1 !! k) by (intros k Hk'; unfold s3; mmsimpl; by rewrite lookup_insert_ne).
  assert (Hf3 : few s3 0) by (unfold few in *; unfold s3; mmsimpl; rewrite map_size_insert_None by done; lia).
  assert (Hfr3 : frame (p :: ((l ++ [(lo, el)]) ++ l2).*1) s s3).
  { eapply frame_trans; [exact Hfr1|]. split_and!; [|done|done|done]. intros k y Hk1 Hy. rewrite Hen3; [done|]. intros ->. congruence. }
  assert (Hp3 : entries s3 !! p = Some (e_next nx (e_prev lo new))) by (rewrite Hen3, Hen1 by done; rewrite Hp, lastp_snoc; done).
  apply wp_bind. eapply wp_updEntry; [done|exact Hp3|]. set (s4 := set_entries _ s3).
  assert (Hen4 : forall k, k <> p -> entries s4 !! k = entries s3 !! k) by (intros k Hk'; unfold s4; mmsimpl; by rewrite lookup_insert_ne).
  assert (Hw4 : world s4) by (eapply world_upd; [done|exact Hp3|done|done]).
  apply wp_bind. wp_use (rehang_spec s4 pm lh lo l2); [done| |done|done|intros ?; rewrite Hla; by apply lastp_app_ne|].
  { eapply chained_frame; [exact Hc2|]. intros k Hk'. rewrite Hen4, Hen3, Hen1; [done|by intros ->|apply Hlh; by right|by intros ->]. }
  intros _ s5 (Hfr5 & Hc5 & He5 & Hw5 & Hsz5 & Hpg5 & pm5 & Hpm5 & Hlk5 & Hfi5 & Hla5).
  apply wp_bind, wp_dealloc; [|intros w' Hlw' Hkw'].
  { rewrite Hpg5. apply Hk. destruct (Z.ltb_spec (vaddr el + msize el) (v + n)); [lia|]. eapply mapped_sub; [exact Hm|lia..]. }
  apply wp_ret. cbn [fmap option_fmap option_map]. split.
  - eapply frame_trans; [exact Hfr3|]. eapply frame_trans; [apply (frame_upd _ s3 p); by left|]. apply (frame_trans _ _ s5); [|by apply frame_pages].
    destruct Hfr5 as (Hx & ?). split; [|done]. intros k y Hk'. apply Hx. intros Hin. apply Hk'. right. rewrite fmap_app. apply elem_of_app. by right.
  - exists (l ++ [(lo, e_size (v - vaddr el) el); (p, new)]), (shrink (v + n - vaddr el) el). split_and!.
    + apply opened_pages. eapply (opened_intro _ pm5 (firstp l2 0) _ lh _ _ lh); [done|by rewrite Hlk5| |exact Hla5|done| | |exact Hc5|].
      * rewrite Hfi5, Hf, !firstp_app. done.
      * eapply (chained_frame (entries s4)).
        2:{ intros k Hk'. apply He5. rewrite fmap_app in Hk'. apply elem_of_app in Hk' as [Hk'|Hk']; [by apply Hd|].
            apply elem_of_cons in Hk' as [->|Hk']; [done|]. apply elem_of_cons in Hk' as [->|Hk']; [done|by apply elem_of_nil in Hk']. }
        apply chained_app. cbn [firstp chained]. split_and!; [|done| |done| |done].
        { eapply chained_frame; [exact Hcl|]. intros k Hk'. rewrite Hen4, Hen3, Hen1; [done|by intros ->|apply Hlh; by left|by intros ->]. }
        { by rewrite Hen4, Hen3 by done. }
        { unfold s4. mmsimpl. rewrite lookup_insert_eq. done. }
      * rewrite He5 by (intros Hin; by apply (Hlh lh); [right|]). rewrite Hen4 by done. unfold s3. mmsimpl. rewrite lookup_insert_eq, He'.
        replace (l ++ _) with ((l ++ [(lo, e_size (v - vaddr el) el)]) ++ [(p, new)]) by (by rewrite <- app_assoc). by rewrite lastp_snoc.
      * rewrite fmap_app. apply NoDup_app. split_and!.
        { apply NoDup_app. split_and!; [done| |]. 2:{ repeat (apply NoDup_cons; split); [|apply not_elem_of_nil|apply NoDup_nil_2]. by intros ?%list_elem_of_singleton. }
          intros k Hk' [->|[->|[]%elem_of_nil]%elem_of_cons]%elem_of_cons; done. }
        { intros k Hk' Hk2. assert (Hne : k <> lh /\ k ∉ l2.*1) by (apply elem_of_app in Hk' as [Hk'|[->|[->|[]%elem_of_nil]%elem_of_cons]%elem_of_cons]; naive_solver).
          apply elem_of_cons in Hk2 as [->|?]; naive_solver. }
        apply NoDup_cons. split; [|done]. intros Hin. by apply (Hlh lh); [right|].
    + by apply placed_mid.
    + by apply world_pages.
    + unfold few in *. mmsimpl. rewrite Hsz5. unfold s4. mmsimpl. rewrite map_size_insert_Some by (by eexists). lia.
    + intros k Hk'. destruct (decide (k = lh)) as [->|Hne]; [right; by rewrite <- Hen1|left]. eapply (origin_upto l lo el (e_size (v - vaddr el) el)).
      clear - Hk' Hne. rewrite !fmap_app in Hk' |- *. change ([(lo, e_size (v - vaddr el) el); (p, new)].*1) with [lo; p] in Hk'.
      change ([(lo, e_size (v - vaddr el) el)].*1) with [lo]. set_solver.
Qed.

Lemma linked_upd s e l1 p l2 r s' : linked_ok (set_entries (<[p := e]> (entries s)) s) l1 p l2 r s' -> linked_ok s l1 p l2 r s'.
Proof.
  intros [Hf' Hr]. split; [eapply frame_trans; [apply frame_upd; by left|done]|]. destruct r as [[q E]|]; [|done].
  destruct Hr as (l1' & e' & H1 & H2 & H3 & H4 & Ho). exists l1', e'. split_and!; [done..|]. intros k Hk. destruct (Ho k Hk) as [?|Hnone]; [by left|right].
  cbn [entries set_entries] in Hnone. by apply lookup_insert_None in Hnone as [? _].
Qed.

Lemma linkLower_spec s pm nx px l1 p new l2 :
  procs s !! proc = Some pm -> memLock pm = true -> firstMemEntry pm = firstp (l1 ++ l2) 0 -> lastMemEntry pm = lastp 0 (l1 ++ l2) ->
  chained (entries s) 0 (l1 ++ l2) 0 -> NoDup (p :: (l1 ++ l2).*1) -> p <> 0 -> entries s !! p = Some (e_next nx (e_prev px new)) ->
  private v n f new -> world s -> few s 1 -> ascending 0 l1 -> (forall lo el, (lo, el) ∈ l1 -> vaddr el <= v) ->
  (forall lo el, (lo, el) ∈ l1 -> vaddr el = v -> vaddr el + msize el <= v + n \/ mflags el = f) ->
  (forall lo el, (lo, el) ∈ l1 -> mapped (vaddr el) (msize el) (pages s)) ->
  wp (linkLower (lastp 0 l1) (firstp l2 0) proc p v (v + n)) s (linked_ok s l1 p l2).
Proof.
  intros Hpm Hlk Hf Hla Hc Hnd Hp0 Hp Hpr Hw Hfew Ha Hlow Huaf Hm. unfold linkLower. apply wp_bind. eapply wp_updEntry; [done..|].
  set (s1 := set_entries _ s). assert (Hw1 : world s1) by (eapply world_upd; [done|exact Hp|done|done]).
  assert (Hf1 : few s1 1) by (apply few_upd; [by eexists|done]).
  assert (Hr : ready s1 l1 p new l2).
  { exists pm, nx. split_and!; try done. { apply chained_insert; [|done]. by apply NoDup_cons in Hnd as [? _]. } unfold s1; mmsimpl. by rewrite lookup_insert_eq. }
  apply (wp_mono _ _ (linked_ok s1 l1 p l2)); [|intros r s' Hl; exact (linked_upd s (e_prev (lastp 0 l1) (e_next nx (e_prev px new))) _ _ _ _ _ Hl)]. destruct l1 as [|[lo el] l _] using rev_ind.
  { change (lastp 0 []) with 0. change (0 =? 0) with true. cbv iota. by eapply link_first. }
  rewrite lastp_snoc. destruct (ready_last _ _ _ _ _ _ _ Hr) as (Hlo0 & Hlo & _). destruct (Z.eqb_spec lo 0); [done|].
  assert (Hin : (lo, el) ∈ l ++ [(lo, el)]) by (apply elem_of_app; right; by left). specialize (Hlow _ _ Hin). specialize (Huaf _ _ Hin). specialize (Hm _ _ Hin).
  pose proof Ha as [Ha0 (H3 & H4 & H5 & _)]%ascending_app. pose proof (hi_above _ _ Ha0). pose proof Hpr as (E1 & E2 & E3 & E4).
  apply wp_bind. eapply wp_getEntry; [done|exact Hlo|]. apply wp_bind. eapply wp_getEntry; [done|apply lookup_insert_eq|]. cbv zeta.
  unfold endOf, mmapSame. cbn [vaddr msize mflags e_next e_prev]. rewrite E3. rewrite (uwrap_small 64 (vaddr el + msize el)) by lia.
  destruct (Z.ltb_spec (vaddr el + msize el) v) as [Hlt|Hge]; cbn [orb].
  { apply (link_gap _ _ _ el _ new); [done..|lia]. }
  destruct (Z.eqb_spec (mflags el) f) as [Hfl|Hfl].
  - rewrite andb_false_r. rewrite !(uwrap_small 64 _) by (destruct (Z.ltb_spec (vaddr el + msize el) (v + n)); rewrite ?uwrap_small; lia).
    replace (if vaddr el + msize el <? v + n then v + n else vaddr el + msize el) with (Z.max (vaddr el + msize el) (v + n)) by (destruct (Z.ltb_spec (vaddr el + msize el) (v + n)); lia).
    replace (vaddr el + (Z.max (vaddr el + msize el) (v + n) - vaddr el)) with (Z.max (vaddr el + msize el) (v + n)) by lia. by eapply link_merge.
  - rewrite andb_true_r. destruct (Z.eqb_spec v (vaddr el + msize el)) as [Heq|Hne].
    { apply (link_gap _ _ _ el _ new); [done..|lia]. }
    apply wp_bind. eapply wp_mono; [|intros r s' Hl; apply wp_ret; exact Hl].
    destruct (decide (vaddr el = v)) as [Hev|Hev]; [apply split_cover with new; [done..|naive_solver|done]|].
    destruct (decide (vaddr el + msize el <= v + n)); [apply split_low with new; (done || lia)|apply split_mid with new; (done || lia)].
Qed.
End linking.

(** What [getVaddr] decides for an entry that is fixed or fits. *)
Lemma getVaddr_spec s l1 l2 p e : chained (entries s) 0 (l1 ++ l2) 0 -> ascending 0 (l1 ++ l2) -> p <> 0 -> entries s !! p = Some e ->
  0 <= vaddr e -> 0 < msize e -> vaddr e + msize e <= 2 ^ 63 ->
  has (mflags e) MMAP_FLAG_FIXED = true \/ (hi 0 l1 <= vaddr e /\ forall h eh l, l2 = (h, eh) :: l -> vaddr e + msize e <= vaddr eh) ->
  wp (getVaddr (lastp 0 l1) (firstp l2 0) proc p) s (fun _ s' => s' = set_entries (<[p :=
    if has (mflags e) MMAP_FLAG_FIXED then e_flags (Z.land (mflags e) (u32 (Z.lnot MMAP_FLAG_FIXED))) e else e]> (entries s)) s).
Proof.
  intros Hc Ha Hp0 Hp H1 H2 H3 Hfit. unfold getVaddr. apply wp_bind. eapply wp_getEntry; [done..|].
  destruct (has (mflags e) MMAP_FLAG_FIXED); [by eapply wp_updEntry|]. destruct Hfit as [|[Hlo Hhi]]; [done|].
  unfold endOf. rewrite (uwrap_small 64 (vaddr e + msize e)) by lia. apply wp_bind.
  apply (wp_mono _ _ (fun r s' => s' = s /\ r <= vaddr e)).
  { destruct l1 as [|[lo el] l _] using rev_ind; [cbn; by split|]. rewrite lastp_snoc. rewrite hi_snoc in Hlo.
    pose proof (chained_in _ _ _ _ lo el Hc) as (H0 & nx & pv & Hlk); [set_solver|]. destruct (Z.eqb_spec lo 0); [done|]. cbn [negb].
    apply ascending_app in Ha as [Ha _]. apply ascending_app in Ha as [Ha (? & ? & ? & _)]. pose proof (hi_above _ _ Ha).
    apply wp_bind. eapply wp_getEntry; [done..|]. apply wp_ret. cbn [vaddr msize e_next e_prev]. split; [done|]. rewrite uwrap_small by lia. done. }
  intros lowEnd s1 [-> Hle]. apply wp_bind. apply (wp_mono _ _ (fun r s' => s' = s /\ vaddr e + msize e <= r)).
  { destruct l2 as [|[h eh] l2]; [cbn; split; [done|lia]|]. cbn [firstp].
    pose proof (chained_in _ _ _ _ h eh Hc) as (H0 & nx & pv & Hlk); [set_solver|]. destruct (Z.eqb_spec h 0); [done|]. cbn [negb].
    apply wp_bind. eapply wp_getEntry; [done..|]. apply wp_ret. split; [done|]. exact (Hhi _ _ _ eq_refl). }
  intros highStart s1 [-> Hge]. destruct (Z.leb_spec lowEnd (vaddr e)); [|lia]. destruct (Z.leb_spec (vaddr e + msize e) highStart); [|lia].
  apply wp_ret. rewrite insert_id by done. by destruct s.
Qed.

(** The map of the process is [l]. *)
Definition memory_map s (l : emap) : Prop := map_at s l false /\ ascending 0 l /\ world s.
(** Where the entry [new] goes and with which flags: where it is fixed, behind
    the last entry when no address is given, or at an address that is free. *)
Definition choice (l : emap) new (v f : Z) : Prop :=
  (has (mflags new) MMAP_FLAG_FIXED = true /\ vaddr new = v /\ v <> 0 /\ f = Z.land (mflags new) (u32 (Z.lnot MMAP_FLAG_FIXED))) \/
  (has (mflags new) MMAP_FLAG_FIXED = false /\ f = mflags new /\
   ((vaddr new = 0 /\ l <> [] /\ v = hi 0 l) \/ (vaddr new = v /\ v <> 0 /\ forall p e, (p, e) ∈ l -> vaddr e + msize e <= v \/ v + msize new <= vaddr e))).

Lemma list_fuel (m : gmap Z MemoryEntry) prev (l : emap) next : chained m prev l next -> NoDup l.*1 -> (length l <= size m)%nat.
Proof.
  intros Hc Hnd. rewrite <- (length_fmap fst), <- (size_dom (D := gset Z) m), <- (size_list_to_set (C := gset Z) l.*1) by done.
  apply subseteq_size. intros k Hk%elem_of_list_to_set. apply elem_of_dom. by apply (chained_nonzero _ _ _ _ _ Hc).
Qed.

Lemma choice_fits l l1 l2 nw v f : choice l nw v f -> l = l1 ++ l2 -> ascending 0 l -> 0 < msize nw -> 0 <= v ->
  (forall lo el, (lo, el) ∈ l1 -> vaddr el <= v) -> (forall h eh l', l2 = (h, eh) :: l' -> v < vaddr eh) ->
  has (mflags nw) MMAP_FLAG_FIXED = true \/ (hi 0 l1 <= v /\ forall h eh l', l2 = (h, eh) :: l' -> v + msize nw <= vaddr eh).
Proof.
  intros Hch -> Ha Hn Hv Hl1 Hl2. destruct Hch as [(? & _)|(_ & _ & [(_ & _ & ->)|(_ & Hv0 & Hfree)])]; [by left|right..].
  - assert (l2 = []) as ->; [|rewrite app_nil_r; split; [lia|done]]. destruct l2 as [|[h eh] l2]; [done|]. exfalso.
    specialize (Hl2 _ _ _ eq_refl). assert (Hin : (h, eh) ∈ l1 ++ (h, eh) :: l2) by set_solver.
    destruct (ascending_in _ _ _ _ Ha Hin) as (_ & ? & ? & _). lia.
  - split.
    + destruct l1 as [|[lo el] l1 _] using rev_ind; [done|].
      rewrite hi_snoc. assert (Hin : (lo, el) ∈ l1 ++ [(lo, el)]) by set_solver. specialize (Hl1 _ _ Hin).
      destruct (Hfree lo el) as [?|?]; [set_solver|done|lia].
    + intros h eh l' ->. specialize (Hl2 _ _ _ eq_refl). assert (Hin : (h, eh) ∈ l1 ++ (h, eh) :: l') by set_solver.
      destruct (ascending_in _ _ _ _ Ha Hin) as (_ & ? & _ & _). destruct (Hfree h eh Hin); lia.
Qed.

Lemma choice_nonzero l nw v f : choice l nw v f -> vaddr nw = 0 -> l <> [] /\ v = hi 0 l.
Proof. intros [(_ & ? & ? & _)|(_ & _ & [(_ & ? & ?)|(? & ? & _)])] Hz; [congruence|done|congruence]. Qed.
Lemma choice_vaddr l nw v f : choice l nw v f -> vaddr nw <> 0 -> vaddr nw = v.
Proof. intros [(_ & ? & _)|(_ & _ & [(? & _)|(? & _)])] Hz; congruence. Qed.
Lemma choice_flags l nw v f : choice l nw v f ->
  f = if has (mflags nw) MMAP_FLAG_FIXED then Z.land (mflags nw) (u32 (Z.lnot MMAP_FLAG_FIXED)) else mflags nw.
Proof. intros [(-> & _ & _ & ->)|(-> & -> & _)]; done. Qed.

(** Addresses behind the last entry. *)
Lemma behindLast_spec s l lock (Q : Z -> mm V -> Prop) : map_at s l lock -> ascending 0 l -> l <> [] ->
  Q (hi 0 l) s -> wp (behindLast proc) s Q.
Proof.
  intros (Hp & Hc & _) Ha Hne HQ. destruct l as [|[z ez] l _] using rev_ind; [done|]. rewrite hi_snoc in HQ.
  apply wp_bind. eapply wp_getProc; [done..|]. cbn [lastMemEntry]. rewrite lastp_snoc.
  destruct (chained_in _ _ _ _ z ez Hc) as (H0 & nx & pv & Hz); [set_solver|]. apply wp_bind. eapply wp_getEntry; [done..|]. apply wp_ret.
  apply ascending_app in Ha as [Ha (? & ? & ? & _)]. pose proof (hi_above _ _ Ha). unfold endOf. cbn [vaddr msize e_next e_prev].
  by rewrite uwrap_small by lia.
Qed.

Lemma map_at_new s l lock p e : map_at s l lock -> p ∉ l.*1 -> map_at (set_entries (<[p := e]> (entries s)) s) l lock.
Proof. intros (Hp & Hc & Hnd) Hpl. split_and!; [done|by apply chained_insert|done]. Qed.

(** From the search for the neighbours on: the new entry [p] is in the store. *)
Lemma placeEntry_spec s l p nw v f out0 (k : Z * option Z -> mm V -> Prop) :
  map_at s l true -> ascending 0 l -> world s -> few s 1 -> p <> 0 -> p ∉ l.*1 -> entries s !! p = Some nw -> vaddr nw = v ->
  (exists nw0, choice l nw0 v f /\ mflags nw = mflags nw0 /\ msize nw = msize nw0) ->
  0 <= v -> 0 < msize nw -> v + msize nw <= 2 ^ 63 -> shared nw = 0 -> has f MMAP_FLAG_SHARED = false -> out0 = msize nw ->
  (forall q e, (q, e) ∈ l -> vaddr e = v -> vaddr e + msize e <= v + msize nw \/ mflags e = f) ->
  (forall q e, (q, e) ∈ l -> mapped (vaddr e) (msize e) (pages s)) ->
  (forall s' l', map_at s' l' false -> ascending 0 l' -> world s' -> frame (p :: l.*1) s s' ->
    (forall a F, maps l' a F <-> (v <= a < v + msize nw /\ F = (f, None)) \/ (~ v <= a < v + msize nw /\ maps l a F)) -> k (0, Some v) s') ->
  (forall s', (exists w, (kmalloc sizeofMemoryEntry w).1 = 0) -> (exists q e, (q, e) ∈ l /\ vaddr e < v /\ v + msize nw < vaddr e + msize e) ->
    frame (p :: l.*1) s s' -> unlocked s' -> k (- ENOMEM, Some v) s') ->
  wp (n ← fuel; pm ← getProc proc;
      lowerHigher ← findLowerHigher n 0 (firstMemEntry pm) v;
      let '(lower, higher) := lowerHigher in
      getVaddr lower higher proc p;;
      e ← getEntry p;
      let out := vaddr e in
      let newEnd := u64 (v + out0) in
      linked ← linkLower lower higher proc p v newEnd;
      match linked with
      | None => releaseMem proc;; mret (- ENOMEM, Some out)
      | Some (last, lastEnd) =>
          n ← fuel;
          absorb n proc last lastEnd higher;;
          releaseMem proc;;
          mret (0, Some out)
      end) s k.
Proof.
  intros Hmap Ha Hw Hfew Hp0 Hpl Hp <- (nw0 & Hch & Hfl & Hsz) Hv Hn Hend Hsh Hnos -> Huaf Hmapped Hk Hoom.
  pose proof Hmap as (Hpm & Hc & Hnd). apply wp_bind, wp_gets, wp_bind. eapply wp_getProc; [done..|]. cbn [firstMemEntry].
  apply wp_bind. wp_use (findLowerHigher_spec (size (entries s)) s [] l (vaddr nw)); [done|by eapply list_fuel|by intros ?? ?%elem_of_nil|].
  intros r s0 (-> & l1 & l2 & El & -> & Hl1 & Hl2). cbn in El. subst l. apply wp_bind.
  wp_use (getVaddr_spec s l1 l2 p nw); [done..| |].
  { rewrite Hfl, Hsz. eapply (choice_fits _ l1 l2 nw0); [exact Hch|done|done|by rewrite <- Hsz|done..]. }
  intros _ s1 ->. set (nw1 := if has (mflags nw) MMAP_FLAG_FIXED then _ else nw).
  assert (Hnw1 : private (vaddr nw) (msize nw) f nw1 /\ shared nw1 = 0).
  { apply choice_flags in Hch. rewrite <- Hfl in Hch. unfold private, sharer, nw1. destruct (has (mflags nw) MMAP_FLAG_FIXED); cbn [e_flags vaddr msize mflags shared]; rewrite <- Hch; by rewrite Hnos. }
  destruct Hnw1 as [Hpr Hsh1]. pose proof Hpr as (E1 & E2 & E3 & E4).
  assert (Hsnw : sharer nw = None). { pose proof (proj1 (w_sharing _ Hw) _ _ Hp) as Hx. destruct (sharer nw) as [sh|] eqn:Es; [|done]. exfalso.
    unfold sharer in Es. destruct (has (mflags nw) MMAP_FLAG_SHARED); [|done]. injection Es as <-. destruct Hx as [x Hx]. destruct (proj2 (w_sharing _ Hw) _ _ Hx). congruence. }
  set (s1 := set_entries _ s). assert (Hw1 : world s1) by (eapply world_upd; [done|exact Hp|congruence..]).
  assert (Hf1 : few s1 1) by (apply few_upd; [by eexists|done]).
  apply wp_bind. eapply wp_getEntry; [done|apply lookup_insert_eq|]. cbv zeta. rewrite E1. rewrite (uwrap_small 64) by lia.
  apply wp_bind. pose proof Ha as [Ha1 Ha2]%ascending_app.
  assert (Hin1 : forall q e, (q, e) ∈ l1 -> (q, e) ∈ l1 ++ l2) by (intros; apply elem_of_app; by left).
  wp_use (linkLower_spec (vaddr nw) (msize nw) f Hv Hn Hend s1 _ (mnext nw1) (mprev nw1) l1 p nw1 l2 Hpm); [done|done|done| | |done| |done|done|done|done|done|by eauto|by eauto|].
  { by apply chained_insert. }
  { by apply NoDup_cons. }
  { unfold s1. mmsimpl. rewrite lookup_insert_eq. by destruct nw1. }
  intros r s2 [Hfr2 Hr]. destruct r as [[q E]|].
  2:{ destruct Hr as ([pm Hpm2] & Hno & lo & el & Hin & Hlt & Hgt). apply wp_bind. eapply wp_updProc; [done..|]. apply wp_ret.
      apply Hoom; [done| | |by exists (p_lock false pm); mmsimpl; rewrite lookup_insert_eq].
      - exists lo, el. split_and!; [by apply Hin1|done|done].
      - apply (frame_trans _ _ s1); [apply (frame_upd _ s p); by left|]. apply (frame_trans _ _ s2); [done|by apply frame_proc]. }
  destruct Hr as (l1' & e' & Hop & Hpl' & Hw2 & Hf2 & Horig). apply wp_bind, wp_gets.
  assert (HE : 0 <= E < 2 ^ 64). { destruct Hpl' as (_ & _ & ? & _). pose proof (hi_le _ _ Ha1). lia. }
  apply wp_bind. wp_use (absorb_closes (size (entries s2)) s2 l1' q e' l2 (hi 0 l1) E); [done| |done|by apply hi_above|done|done|done|].
  { destruct Hop as (pm & nx & pr & _ & _ & _ & _ & _ & _ & _ & Hc2 & Hnd2). eapply list_fuel; [exact Hc2|].
    apply NoDup_app in Hnd2 as (_ & _ & Hnd2). by apply NoDup_cons in Hnd2 as [_ ?]. }
  intros _ s3 (Hmap3 & Hw3 & Hfr3). pose proof Hmap3 as (Hpm3 & Hc3 & Hnd3). apply wp_bind. eapply wp_updProc; [done..|]. apply wp_ret.
  destruct (placed_trim l1 l2 (vaddr nw) (msize nw) f (l1' ++ [(q, e')]) E) as [Hasc Hmaps]; [done..|].
  rewrite <- app_assoc in Hasc, Hmaps. cbn [app] in Hasc, Hmaps.
  apply (Hk _ (l1' ++ (q, e') :: trim E l2)); [|done|by apply world_procs| |done].
  - split_and!; mmsimpl; [|done|done]. by rewrite lookup_insert_eq.
  - apply (frame_trans _ _ s1); [apply (frame_upd _ s p); by left|]. destruct Hfr2 as (Hx2 & Hp2 & Hcu2 & Hk2), Hfr3 as (Hx3 & Hp3 & Hcu3 & Hk3).
    split_and!; mmsimpl; [| |congruence|unfold keeps in *; naive_solver].
    + intros y x Hy Hx. apply Hx3; [|by apply Hx2]. intros Hin. assert (Hin' : y ∈ l1'.*1 ++ [q] \/ y ∈ l2.*1) by set_solver.
      destruct Hin' as [Hin'|Hin']; [destruct (Horig y Hin') as [?|?]; [done|congruence]|]. apply Hy. rewrite fmap_app. set_solver.
    + intros y Hy. rewrite lookup_insert_ne by done. rewrite Hp3, Hp2 by done. done.
Qed.

(** C11: mmapCreateEntry of private memory refines the update of a finite map
    from addresses: it stores the address it chose, the range of the new entry is
    sent to private pages with its flags, every other address keeps its flags and
    its backing, the list stays sorted, disjoint and well linked, the reference
    counts of shared memory stay exact, and no other process changes.  It fails
    only when memory runs out: for the new entry, and then nothing has changed, or
    for the part above when an entry is cut in two, and then the lock is free and
    the entries outside of the map and the other processes are as before.  The address is fixed, free,
    or chosen behind the last entry (a hint that is taken is [bad_hint_cuts]), no
    entry with other flags begins at it and ends behind the new one (that is
    [split_at_start_faults]), and the pages of the entries are mapped. *)
Theorem mmapCreateEntry_correct s l new v f :
  memory_map s l -> few s 2 -> choice l new v f -> 0 <= v -> 0 < msize new -> v + msize new <= 2 ^ 63 ->
  shared new = 0 -> has (mflags new) MMAP_FLAG_SHARED = false -> has f MMAP_FLAG_SHARED = false ->
  (forall p e, (p, e) ∈ l -> vaddr e = v -> vaddr e + msize e <= v + msize new \/ mflags e = f) ->
  (forall p e, (p, e) ∈ l -> mapped (vaddr e) (msize e) (pages s)) ->
  wp (mmapCreateEntry proc new) s (fun r s' =>
    (r = (0, Some v) /\ frame l.*1 s s' /\ exists l', memory_map s' l' /\
       forall a F, maps l' a F <-> (v <= a < v + msize new /\ F = (f, None)) \/ (~ v <= a < v + msize new /\ maps l a F)) \/
    (r = (- ENOMEM, None) /\ memory_map s' l /\ frame [] s s' /\ entries s' = entries s) \/
    (r = (- ENOMEM, Some v) /\ frame l.*1 s s' /\ unlocked s' /\ (exists w, (kmalloc sizeofMemoryEntry w).1 = 0) /\ exists p e, (p, e) ∈ l /\ vaddr e < v /\ v + msize new < vaddr e + msize e)).
Proof.
  intros (Hmap & Ha & Hw) Hfew Hch Hv Hn Hend Hsh Hnos0 Hnos Huaf Hmapped. pose proof Hmap as (Hpm & Hc & Hnd).
  unfold mmapCreateEntry. apply wp_bind, wp_allocObject; [done| |].
  { intros w _ Hk Hlw. change (0 =? 0) with true. cbv iota. apply wp_ret. right; left. split_and!; [done|split_and!; [done|done|by apply world_pages]|by apply frame_pages|done]. }
  intros p w Hp0 Hpe Hps Hk Hlw. destruct (Z.eqb_spec p 0); [done|]. apply wp_bind, wp_modify.
  set (s1 := set_entries _ _). assert (Hw1 : world s1).
  { destruct Hw as [W1 W2 W3]. unfold s1. apply not_elem_of_dom in Hps. split; mmsimpl.
    - apply sharing_new; [done|done|unfold sharer; by rewrite Hnos0|done].
    - rewrite dom_insert. set_solver.
    - rewrite Hlw, dom_insert. set_solver. }
  assert (Hpl : p ∉ l.*1) by (intros Hin; destruct (chained_nonzero _ _ _ _ _ Hc Hin) as [_ [? ?]]; congruence).
  assert (Hf1 : few s1 1) by (unfold few in *; unfold s1; mmsimpl; rewrite map_size_insert_None by done; lia).
  apply wp_bind. eapply wp_acquireMem; [done|exact Hpm|done|]. set (s2 := set_procs _ s1).
  assert (Hmap2 : map_at s2 l true). { split_and!; unfold s2, s1; mmsimpl; [apply lookup_insert_eq|by apply chained_insert|done]. }
  assert (Hw2 : world s2) by (by apply world_procs). assert (Hf2 : few s2 1) by exact Hf1.
  set (new1 := if vaddr new =? 0 then e_vaddr v new else new).
  assert (Hnew1 : vaddr new1 = v /\ mflags new1 = mflags new /\ msize new1 = msize new /\ shared new1 = shared new).
  { unfold new1. destruct (Z.eqb_spec (vaddr new) 0); [done|]. split_and!; [by eapply choice_vaddr|done..]. }
  destruct Hnew1 as (N1 & N2 & N3 & N4).
  assert (Hpre : wp (if vaddr new =? 0 then v ← behindLast proc; updEntry p (e_vaddr v) else mret tt) s2
    (fun _ s' => s' = set_entries (<[p := new1]> (entries s2)) s2)).
  { unfold new1. destruct (Z.eqb_spec (vaddr new) 0) as [Hz|].
    - destruct (choice_nonzero _ _ _ _ Hch Hz) as [Hne ->]. apply wp_bind. eapply behindLast_spec; [done..|].
      eapply wp_updEntry; [done|apply lookup_insert_eq|]. done.
    - apply wp_ret. rewrite insert_id by apply lookup_insert_eq. by destruct s2. }
  apply wp_bind. eapply wp_mono; [exact Hpre|]. intros _ s3 ->. set (s3 := set_entries _ s2).
  assert (Hp2 : entries s2 !! p = Some new) by apply lookup_insert_eq.
  apply wp_bind. eapply wp_getEntry; [done|apply lookup_insert_eq|]. cbv zeta. rewrite N1.
  assert (Hw3 : world s3) by (eapply world_upd; [done|exact Hp2|unfold sharer; by rewrite N2, N4|done]).
  assert (Hmap3 : map_at s3 l true) by (by apply map_at_new).
  assert (Hf3 : few s3 1) by (apply few_upd; [by eexists|done]).
  eapply (placeEntry_spec s3 l p new1 v f (msize new)); [done|done|done|done|done|done|apply lookup_insert_eq|done|by exists new|done|lia|lia|congruence|done|done| | | |].
  - rewrite N3. exact Huaf.
  - intros q e Hq. apply Hk. by eapply Hmapped.
  - intros s' l' M1 M2 M3 (X1 & X2 & X3 & X4) M5. left. rewrite N3 in M5. split_and!; [done| |by exists l'].
    split_and!; [|intros q Hq; rewrite X2 by done; unfold s3, s2; mmsimpl; by rewrite lookup_insert_ne|done|unfold keeps in *; naive_solver].
    intros k x Hk' Hx. assert (k <> p) by congruence. apply X1; [by apply not_elem_of_cons|].
    unfold s3, s2, s1. mmsimpl. by rewrite !lookup_insert_ne.
  - intros s' Hno Hcut (X1 & X2 & X3 & X4) Hul. rewrite N3 in Hcut. right; right. split_and!; [done| |done..].
    split_and!; [|intros q Hq; rewrite X2 by done; unfold s3, s2; mmsimpl; by rewrite lookup_insert_ne|done|unfold keeps in *; naive_solver].
    intros k x Hk' Hx. assert (k <> p) by congruence. apply X1; [by apply not_elem_of_cons|].
    unfold s3, s2, s1. mmsimpl. by rewrite !lookup_insert_ne.
Qed.

(** mmapGetEntry finds the entry that holds an address, or 0 when no entry does. *)
Lemma findMemEntry_spec fuel s l1 l2 a :
  chained (entries s) 0 (l1 ++ l2) 0 -> ascending 0 (l1 ++ l2) -> (length l2 <= fuel)%nat -> (forall p e, (p, e) ∈ l1 -> ~ covers e a) ->
  wp (findMemEntry fuel (firstp l2 0) a) s (fun r s' => s' = s /\
    ((r = 0 /\ forall p e, (p, e) ∈ l1 ++ l2 -> ~ covers e a) \/ exists e, (r, e) ∈ l1 ++ l2 /\ covers e a)).
Proof.
  intros Hc Ha. revert l1 l2 Hc Ha. induction fuel as [|fuel IH]; intros l1 l2 Hc Ha Hf Hl1; (destruct l2 as [|[p e] l2]; [|try (simpl in Hf; lia)]).
  1,2: apply wp_ret; split; [done|]; left; by rewrite app_nil_r.
  assert (Hin : (p, e) ∈ l1 ++ (p, e) :: l2) by set_solver.
  pose proof (chained_in _ _ _ _ p e Hc Hin) as (H0 & nx & pv & Hp). destruct (ascending_in _ _ _ _ Ha Hin) as (? & ? & _ & ?).
  cbn [firstp findMemEntry]. destruct (Z.eqb_spec p 0); [done|]. apply wp_bind. eapply wp_getEntry; [done..|].
  unfold endOf. cbn [vaddr msize mnext e_next e_prev]. rewrite uwrap_small by lia.
  destruct (Z.leb_spec (vaddr e) a); [destruct (Z.ltb_spec a (vaddr e + msize e))|].
  { apply wp_ret. split; [done|]. right. exists e. split; [done|]. unfold covers. lia. }
  all: cbn [andb]; replace (l1 ++ (p, e) :: l2) with ((l1 ++ [(p, e)]) ++ l2) in * by (by rewrite <- app_assoc);
    pose proof Hc as Hc'; rewrite <- app_assoc in Hc'; apply chained_app in Hc' as [_ (_ & Hp' & _)]; rewrite Hp in Hp'; injection Hp' as Hn _; subst nx;
    apply IH; [done|done|simpl in Hf; lia|]; intros q x [Hq|[= -> ->]%list_elem_of_singleton]%elem_of_app; [by eapply Hl1|unfold covers; lia].
Qed.
Theorem mmapGetEntry_correct s l a : memory_map s l ->
  wp (mmapGetEntry proc a) s (fun r s' => s' = s /\
    ((r = 0 /\ forall F, ~ maps l a F) \/ exists e, (r, e) ∈ l /\ covers e a /\ maps l a (mflags e, backing e a))).
Proof.
  intros ((Hp & Hc & Hnd) & Ha & _). apply wp_bind, wp_gets, wp_bind. eapply wp_getProc; [done..|]. cbn [firstMemEntry].
  wp_use (findMemEntry_spec (size (entries s)) s [] l a); [done|done|by eapply list_fuel|by intros ?? ?%elem_of_nil|].
  intros r s' [-> [[-> Hno]|(e & He & Hcov)]]; (split; [done|]).
  - left. split; [done|]. intros F (p & e & Hin & Hcov & _). by apply (Hno p e).
  - right. exists e. split_and!; [done|done|]. by exists r, e.
Qed.

Lemma destroyFrom_spec fuel s prev l : chained (entries s) prev l 0 -> NoDup l.*1 -> (length l <= fuel)%nat -> world s -> few s 0 ->
  wp (destroyFrom fuel (firstp l 0)) s (fun _ s' => world s' /\ procs s' = procs s /\ curProc s' = curProc s /\ keeps (pages s) (pages s') /\
    (forall k, k ∈ l.*1 -> entries s' !! k = None) /\ (forall k, k ∉ l.*1 -> entries s' !! k = entries s !! k)).
Proof.
  revert s prev l. induction fuel as [|fuel IH]; intros s prev l Hc Hnd Hf Hw Hfew; (destruct l as [|[p e] l]; [|try (simpl in Hf; lia)]).
  1,2: apply wp_ret; split_and!; try done; [by intros a k|by intros k ?%elem_of_nil].
  destruct Hc as (H0 & Hp & Hc). rewrite fmap_cons in Hnd. change ((p, e).1) with p in Hnd. apply NoDup_cons in Hnd as [Hpl Hnd].
  cbn [firstp destroyFrom]. destruct (Z.eqb_spec p 0); [done|]. apply wp_bind.
  wp_use (deleteEntry_spec p _ s Hw Hp H0); [unfold few in Hfew; lia|]. intros r s1 (-> & He1 & Hp1 & Hc1 & Hw1 & Hk1). cbn [mnext e_next].
  wp_use (IH s1 p l); [rewrite He1; by apply chained_delete|done|simpl in Hf; lia|done| |].
  { unfold few in *. rewrite He1, map_size_delete_Some by eauto. lia. }
  intros _ s2 (Hw2 & Hp2 & Hc2 & Hk2 & Hin & Hout). split_and!; [done|congruence|congruence|unfold keeps in *; naive_solver| |].
  - intros k Hk. rewrite fmap_cons in Hk. change ((p, e).1) with p in Hk. apply elem_of_cons in Hk as [->|Hk]; [|by apply Hin].
    rewrite Hout, He1 by done. apply lookup_delete_eq.
  - intros k Hk. rewrite fmap_cons in Hk. change ((p, e).1) with p in Hk. apply not_elem_of_cons in Hk as [? ?].
    rewrite Hout, He1 by done. by apply lookup_delete_ne.
Qed.
(** mmapDestroy leaves an empty map: it deletes every entry of the process and
    nothing else, and shared memory that others still use keeps its count. *)
Theorem mmapDestroy_correct s l : memory_map s l -> few s 0 ->
  wp (mmapDestroy proc) s (fun _ s' => memory_map s' [] /\ (forall k, k ∈ l.*1 -> entries s' !! k = None) /\
    (forall k, k ∉ l.*1 -> entries s' !! k = entries s !! k) /\ forall p, p <> proc -> procs s' !! p = procs s !! p).
Proof.
  intros ((Hp & Hc & Hnd) & Ha & Hw) Hfew. apply wp_bind, wp_gets, wp_bind. eapply wp_getProc; [done..|]. cbn [firstMemEntry].
  apply wp_bind. wp_use (destroyFrom_spec (size (entries s)) s 0 l); [done|done|by eapply list_fuel|done|done|].
  intros _ s1 (Hw1 & Hp1 & _ & _ & Hin & Hout). apply wp_bind. eapply wp_updProc; [done|by rewrite Hp1|]. apply wp_bind.
  eapply wp_updProc; [done|apply lookup_insert_eq|]. apply wp_bind, wp_onPages. wp_use mmUnmapUserspace_ok. intros _ v1 Hl1.
  apply wp_onPages. mmsimpl. wp_use tlbReloadCR3Local_ok. intros _ v2 Hl2. rewrite insert_insert_eq, Hp1. split_and!; [|done|done|].
  - split_and!; [split_and!|done|]; mmsimpl; [apply lookup_insert_eq|done|apply NoDup_nil_2|]. apply (world_pages (set_procs _ s1)); [by apply world_procs|].
    by rewrite Hl2, Hl1.
  - intros q Hq. mmsimpl. by rewrite lookup_insert_ne.
Qed.
End steps.

(** ** Witnesses and executions *)

Section witnesses.
(** Memory that counts only the addresses in use; page tables that always exist. *)
#[local] Instance set_memory : KernelMemory (gset Z) := {
  Fd.kmalloc _ v := let p := fresh ({[0]} ∪ v) in (p, {[p]} ∪ v); Fd.krealloc p _ v := (p, v); Fd.kfree p v := v ∖ {[p]};
  Fd.allocKPages _ v := (0, v); Fd.deallocPages _ _ v := v
}.
#[local] Instance set_pages_ops : UserPages (gset Z) := {
  allocPageAt _ _ _ := mret tt; deallocPages _ _ := mret tt; allocPhysPage := mret 0x5000; deallocPhysPage _ := mret tt;
  ioremap p _ := mret p; iounmap _ _ := mret tt; mmGetPageEntry _ := mret 0x5000; readPte _ := mret 0; writePte _ _ := mret tt;
  mmMapPage _ _ _ := mret tt; mmUnmapUserspace := mret tt; tlbReloadCR3Local := mret tt; tlbInvalidateLocal _ _ := mret tt;
  copyPage _ _ := mret tt; excStackPush := mret tt; excStackPop := mret tt
}.
Definition always (_ _ : Z) (_ : gset Z) : Prop := True.
#[local] Instance set_pages_ok : UserPagesOk (gset Z) id always.
Proof.
  split; try (intros; apply wp_ret; cbn; done).
  - intros n v p v'. cbn. intros [= <- <-]. split; [|done]. right. pose proof (is_fresh ({[0]} ∪ v)). split_and!; [set_solver..|done].
Qed.

(** A process with one region of three pages that is writable. *)
Definition region : MemoryEntry := mkEntry 0x1000 0x3000 (Z.lor MMAP_FLAG_WRITE MMAP_FLAG_ANON) 0 0 0 0.
Definition one_region : mm (gset Z) := mkMm {[16 := region]} ∅ {[8 := mkProcMem 16 16 false]} 8 {[16]}.
Definition new_entry : MemoryEntry := mkEntry 0x2000 0x1000 (Z.lor MMAP_FLAG_FIXED MMAP_FLAG_ANON) 0 0 0 0.
Lemma one_region_map : memory_map id 8 one_region [(16, region)].
Proof.
  split_and!; [split_and!|by vm_compute|split]; cbn.
  - done.
  - done.
  - apply NoDup_singleton.
  - split; [intros p e [<- <-]%lookup_singleton_Some; done|by intros sh x ?%lookup_empty_Some].
  - rewrite dom_empty. set_solver.
  - rewrite dom_empty, dom_singleton. set_solver.
Qed.

Lemma mmapCreateEntry_correct_witness :
  let f := MMAP_FLAG_ANON in
  wp (mmapCreateEntry 8 new_entry) one_region (fun r s' =>
    (r = (0, Some 0x2000) /\ frame always 8 [16] one_region s' /\ exists l', memory_map id 8 s' l' /\
       forall a F, maps l' a F <-> (0x2000 <= a < 0x2000 + 0x1000 /\ F = (f, None)) \/ (~ 0x2000 <= a < 0x2000 + 0x1000 /\ maps [(16, region)] a F)) \/
    (r = (- ENOMEM, None) /\ memory_map id 8 s' [(16, region)] /\ frame always 8 [] one_region s' /\ entries s' = entries one_region) \/
    (r = (- ENOMEM, Some 0x2000) /\ frame always 8 [16] one_region s' /\ unlocked 8 s' /\ (exists w : gset Z, (Fd.kmalloc sizeofMemoryEntry w).1 = 0) /\
      exists p e, (p, e) ∈ [(16, region)] /\ vaddr e < 0x2000 /\ 0x2000 + 0x1000 < vaddr e + msize e)).
Proof.
  intros f. eapply wp_mono; [apply (mmapCreateEntry_correct id always 8 ltac:(done) one_region [(16, region)] new_entry 0x2000 f one_region_map)|intros r s' Hs'; exact Hs'];
    try done.
  - left. by vm_compute.
  - intros p e [[= -> ->]|[]%elem_of_nil]%elem_of_cons. cbn. lia.
Defined.

Lemma mmapGetEntry_correct_witness :
  wp (mmapGetEntry 8 0x2abc) one_region (fun r s' => s' = one_region /\
    ((r = 0 /\ forall F, ~ maps [(16, region)] 0x2abc F) \/ exists e, (r, e) ∈ [(16, region)] /\ covers e 0x2abc /\ maps [(16, region)] 0x2abc (mflags e, backing e 0x2abc))).
Proof. eapply wp_mono; [apply (mmapGetEntry_correct id always 8 ltac:(done) one_region [(16, region)] 0x2abc one_region_map)|intros r s' Hs'; exact Hs']. Defined.
Lemma mmapDestroy_correct_witness :
  wp (mmapDestroy 8) one_region (fun _ s' => memory_map id 8 s' [] /\ (forall k, k ∈ [(16, region)].*1 -> entries s' !! k = None) /\
    (forall k, k ∉ [(16, region)].*1 -> entries s' !! k = entries one_region !! k) /\ forall p, p <> 8 -> procs s' !! p = procs one_region !! p).
Proof. eapply wp_mono; [apply (mmapDestroy_correct id always 8 ltac:(done) one_region [(16, region)] one_region_map ltac:(done))|intros r s' Hs'; exact Hs']. Defined.
End witnesses.

(** The same operations on fresh addresses that can be computed with. *)
Section runs.
#[local] Instance bump_memory : KernelMemory Z := {
  Fd.kmalloc _ v := (v, v + 64); Fd.krealloc p _ v := (p, v); Fd.kfree _ v := v; Fd.allocKPages _ v := (0, v); Fd.deallocPages _ _ v := v
}.
#[local] Instance bump_pages : UserPages Z := {
  allocPageAt _ _ _ := mret tt; deallocPages _ _ := mret tt; allocPhysPage := mret 0x5000; deallocPhysPage _ := mret tt;
  ioremap p _ := mret p; iounmap _ _ := mret tt; mmGetPageEntry _ := mret 0x5000; readPte _ := mret 0x5400; writePte _ _ := mret tt;
  mmMapPage _ _ _ := mret tt; mmUnmapUserspace := mret tt; tlbReloadCR3Local := mret tt; tlbInvalidateLocal _ _ := mret tt;
  copyPage _ _ := mret tt; excStackPush := mret tt; excStackPop := mret tt
}.
Definition RW : Z := Z.lor MMAP_FLAG_WRITE MMAP_FLAG_ANON.
(** Three regions with free pages between them: [0x1000], [0x3000] and [0x5000], of one page each. *)
Definition three_regions : mm Z :=
  mkMm (<[16 := mkEntry 0x1000 0x1000 RW 80 0 0 0]> (<[80 := mkEntry 0x3000 0x1000 RW 144 16 0 0]> {[144 := mkEntry 0x5000 0x1000 RW 0 80 0 0]}))
       ∅ {[8 := mkProcMem 16 144 false]} 8 208.
Definition large_region : mm Z :=
  mkMm {[16 := mkEntry 0x1000 0x3000 RW 0 0 0 0]} ∅ {[8 := mkProcMem 16 16 false]} 8 80.

(** What the list of a process holds, following its links forward. *)
Fixpoint regionsFrom (n : nat) (m : gmap Z MemoryEntry) (p : Z) : list (Z * Z) :=
  match n, m !! p with S n, Some e => (vaddr e, msize e) :: regionsFrom n m (mnext e) | _, _ => [] end.
Definition regions (s : mm Z) : list (Z * Z) := match procs s !! 8 with Some p => regionsFrom 9 (entries s) (firstMemEntry p) | None => [] end.
Definition result {A} (m : M (mm Z) A) (s : mm Z) : option (A * list (Z * Z)) := match m s with Done (a, s') => Some (a, regions s') | _ => None end.

(** A page at the start of a larger region gets other flags, as in a copy on
    write of its first page: the lower entry is read after it was deleted. *)
Example split_at_start_faults : mmapCreateEntry 8 (mkEntry 0x1000 0x1000 (Z.lor MMAP_FLAG_FIXED MMAP_FLAG_ANON) 0 0 0 0) large_region = Fault.
Proof. by vm_compute. Qed.
Example cow_of_first_page_faults :
  mmDoCOW 0x1000 (mkMm {[16 := mkEntry 0x1000 0x3000 (Z.lor (Z.lor RW MMAP_FLAG_COW) MMAP_FLAG_SHARED) 0 0 400 0]}
                       {[400 := mkShared 2 3 [0x5000; 0x6000; 0x7000]]} {[8 := mkProcMem 16 16 false]} 8 80) = Fault.
Proof. by vm_compute. Qed.
(** The region in the middle goes: the process now takes the first one for its
    last, and the next mapping without an address replaces the third. *)
Example munmap_then_mmap_overlaps :
  result (sysMunmap 0 0x3000 0x1000;; sysMmap 0 0 0x4000 (Z.lor MMAP_FLAG_EXEC MMAP_FLAG_ANON)) three_regions = Some (0x2000, [(0x1000, 0x1000); (0x2000, 0x4000)]).
Proof. by vm_compute. Qed.
(** A mapping over the first two regions of three fails on the second one,
    whose link back still names the entry that was deleted before it. *)
Example munmap_of_two_regions_faults : sysMunmap 0 0x3000 0x3000 three_regions = Fault.
Proof. by vm_compute. Qed.
(** A hint that is taken: the new region goes behind the last one, but the
    region at the hint is cut all the same. *)
Example bad_hint_cuts :
  result (sysMmap 0 0x1000 0x1000 (Z.lor MMAP_FLAG_EXEC MMAP_FLAG_ANON)) three_regions = Some (0x6000, [(0x6000, 0x1000); (0x3000, 0x1000); (0x5000, 0x1000)]).
Proof. by vm_compute. Qed.
(** A size of zero without an address is not refused. *)
Example mmap_of_nothing : result (sysMmap 0 0 0 MMAP_FLAG_ANON) three_regions = Some (0x6000, [(0x1000, 0x1000); (0x3000, 0x1000); (0x5000, 0x1000); (0x6000, 0)]).
Proof. by vm_compute. Qed.
End runs.
