(* ===== verification/Thread.v ===== *)
(** * Kernel threads: [kernel/sched/thread.c]

    Creating threads, the choice of the thread that goes on after a timer tick,
    waiting for the end of a thread.  Threads, queue entries and ready queues are
    those of [ThreadQueue] and [ReadyQueue].  The stack of a new thread is known
    by what [kthreadInit] puts on it, the function and its argument. *)

From S2P Require Import Prelude Word Errno ThreadQueue ReadyQueue.
From S2P Require Fd.

Definition THREAD_FLAG_DETACHED : Z := 1.
Definition THREAD_FLAG_FIXED_PRIORITY : Z := 2.
Definition THREAD_FLAG_RT : Z := 4.
Definition THREAD_STACK_SIZE : Z := 0x2000.
Definition sizeofThreadInfo : Z := 0x2E0.
(** [&thread->defaultQueueEntry]. *)
Definition defaultQueueEntry (thread : Z) : Z := thread + 0x260.

(** The other fields of [struct ThreadInfo] that this file uses. *)
Record kthread := mkKt { returnValue : Z; detached : bool; start : Z * Z }.
Record kst (H : Type) := mkKst { sch : sched; kthreads : gmap Z kthread; kheap : H }.
Arguments mkKst {H}.
Arguments sch {H}.
Arguments kthreads {H}.
Arguments kheap {H}.
Definition set_sch {H} v (s : kst H) : kst H := mkKst v (kthreads s) (kheap s).
Definition set_kthreads {H} v (s : kst H) : kst H := mkKst (sch s) v (kheap s).
Definition set_kheap {H} v (s : kst H) : kst H := mkKst (sch s) (kthreads s) v.

Definition zeroThread : ThreadInfo := mkThread FINISHED false 0 0 0 0 false 0.
Definition zeroEntry : ThreadQueueEntry := mkQe 0 false 0 0 0 None 0 0.
Definition t_fixed v (t : ThreadInfo) := mkThread (tstate t) (tlock t) (cpuAffinity t) (tsigDepth t) (queueEntry t) (priority t) v (jiffiesRemaining t).
Definition t_entry v (t : ThreadInfo) := mkThread (tstate t) (tlock t) (cpuAffinity t) (tsigDepth t) v (priority t) (fixedPriority t) (jiffiesRemaining t).
Definition qe_thread v (e : ThreadQueueEntry) := mkQe v (sigCont e) (qsigDepth e) (nextThread e) (prevThread e) (queue e) (prevQueueEntry e) (waitData e).

Section thread.
Context {H : Type} `{Fd.KernelMemory H}.
Notation kM := (M (kst H)).
(** [handleSignal] with the interrupt frame; [Signal] models it on the state of
    processes, and a thread without a process has nothing to handle. *)
Context (handleSignal : Z -> Z -> M sched unit).

Definition onSched {A} (m : M sched A) : kM A := fun s =>
  match m (sch s) with Done (a, x) => Done (a, set_sch x s) | Fault => Fault | NoFuel => NoFuel end.
Definition onHeap {A} (f : H -> A * H) : kM A := fun s => let '(a, h) := f (kheap s) in Done (a, set_kheap h s).
Definition getKt (p : Z) : kM kthread := deref (fun s => kthreads s !! p).
Definition putKt (p : Z) (x : kthread) : kM unit := modify (fun s => set_kthreads (<[p := x]> (kthreads s)) s).

(** A zeroed thread at the top of new pages. *)
Definition allocKStack : kM Z :=
  stackBottom ← onHeap (Fd.allocKPages THREAD_STACK_SIZE);
  if stackBottom =? 0 then mret 0
  else
    let thrd := stackBottom + THREAD_STACK_SIZE - sizeofThreadInfo in
    onSched (modify (fun x => set_threads x (<[thrd := zeroThread]> (threads x))));;
    onSched (modify (fun x => set_qes x (<[defaultQueueEntry thrd := zeroEntry]> (qes x))));;
    onSched (modify (fun x => set_queues x (<[QJoin thrd := emptyQueue]> (queues x))));;
    putKt thrd (mkKt 0 false (0, 0));;
    mret thrd.
(** The pages of the stack go, and all objects in them. *)
Definition deallocThread (thread : Z) : kM unit :=
  onSched (modify (fun x => set_threads x (delete thread (threads x))));;
  onSched (modify (fun x => set_qes x (delete (defaultQueueEntry thread) (qes x))));;
  onSched (modify (fun x => set_queues x (delete (QJoin thread) (queues x))));;
  modify (fun s => set_kthreads (delete thread (kthreads s)) s);;
  onHeap (fun h => (tt, Fd.deallocPages (thread - (THREAD_STACK_SIZE - sizeofThreadInfo)) THREAD_STACK_SIZE h)).

(** The error and the new thread. *)
Definition kthreadCreate (start arg flags : Z) : kM (Z * Z) :=
  thrd ← allocKStack;
  if thrd =? 0 then mret (- ENOMEM, 0)
  else
    (if has flags THREAD_FLAG_RT then
       onSched (updThread thrd (t_priority 0));; onSched (updThread thrd (t_fixed true))
     else
       onSched (updThread thrd (t_priority 1));; onSched (updThread thrd (t_fixed (has flags THREAD_FLAG_FIXED_PRIORITY))));;
    onSched (updThread thrd (t_state SCHEDWAIT));;
    this ← onSched (gets thisCpu);
    onSched (updThread thrd (t_affinity this));;
    onSched (updThread thrd (fun t => t_jiffies (timeslice (priority t)) t));;
    onSched (updThread thrd (t_entry (defaultQueueEntry thrd)));;
    onSched (updQe (defaultQueueEntry thrd) (qe_thread thrd));;
    putKt thrd (mkKt 0 (has flags THREAD_FLAG_DETACHED) (start, arg));;    (* and kthreadInit *)
    onSched (readyQueuePush (defaultQueueEntry thrd));;
    mret (0, thrd).

(** The load of the running CPU is written, not added to. *)
Definition setCPUThreadLoad (load : Z) : M sched unit :=
  this ← gets thisCpu; updCpu this (fun c => mkCpu (readyListLock c) load (nrofReadyThreads c) (active c) (apicID c)).
Definition setCurrentThread (thread : Z) : M sched unit := modify (fun x => set_currentThread x thread).
Definition kthreadCreateFromMain : kM (Z * Z) :=
  thrd ← allocKStack;
  if thrd =? 0 then mret (- ENOMEM, 0)
  else
    onSched (updThread thrd (t_state RUNNING));;
    onSched (updThread thrd (t_priority 1));;
    onSched (updThread thrd (t_fixed true));;
    onSched (updThread thrd (fun t => t_jiffies (timeslice (priority t)) t));;
    onSched (updThread thrd (t_entry (defaultQueueEntry thrd)));;
    onSched (updQe (defaultQueueEntry thrd) (qe_thread thrd));;
    putKt thrd (mkKt 0 true (0, 0));;
    onSched (setCPUThreadLoad (Z.shiftl 1 (NROF_QUEUE_PRIORITIES - 1)));;
    onSched (setCurrentThread thrd);;
    onSched (setCPUThreadLoad 32);;
    mret (0, thrd).

(** After a tick of the timer: the thread that goes on.  The lock of the old
    thread is held by the caller. *)
Definition kthreadSwitch (oldThread : Z) (higherThreadReleased frontEn : bool) (irqStack : Z) : M sched Z :=
  updThread oldThread (fun t => t_jiffies (s32 (jiffiesRemaining t - 1)) t);;
  t ← getThread oldThread;
  if (0 <? jiffiesRemaining t) && negb higherThreadReleased then handleSignal oldThread irqStack;; mret oldThread
  else
    let front := (0 <? jiffiesRemaining t) && frontEn in
    updThread oldThread (t_state SCHEDWAIT);;
    newThread ← readyQueueExchange oldThread front;
    (if negb (newThread =? oldThread) then acquireThread newThread else mret tt);;
    setCurrentThread newThread;;
    handleSignal newThread irqStack;;
    updThread newThread (t_state RUNNING);;
    mret newThread.

(** [kthreadJoin] up to [kthreadStop]: the current thread stops, or the result. *)
Definition joinEnd (thread curThread : Z) : kM Z :=
  k ← getKt thread;
  onSched (releaseThread thread);;
  onSched (releaseThread curThread);;
  deallocThread thread;;
  mret (returnValue k).
Definition kthreadJoin (thread : Z) : kM (option Z) :=
  curThread ← onSched (gets currentThread);
  onSched (acquireThread curThread);;
  onSched (acquireThread thread);;
  t ← onSched (getThread thread);
  match tstate t with
  | FINISHED => Some <$> joinEnd thread curThread
  | _ =>
      onSched (threadQueuePush (QJoin thread) curThread);;
      onSched (releaseThread thread);;
      mret None
  end.
(** The rest, when the thread goes on. *)
Definition kthreadJoinResume (thread : Z) : kM Z :=
  curThread ← onSched (gets currentThread);
  onSched (acquireThread curThread);;
  onSched (acquireThread thread);;
  joinEnd thread curThread.

(** [joinFirst] has the type of a thread, but [kthreadJoin] has queued entries:
    the loop takes the address of an entry for that of a thread. *)
Fixpoint freeJoinedFrom (fuel : nat) (curFreeThread : Z) : M sched unit :=
  match fuel with
  | O => nofuel
  | S fuel =>
      if curFreeThread =? 0 then mret tt
      else
        acquireThread curFreeThread;;
        t ← getThread curFreeThread;
        updQe (queueEntry t) (qe_queue None);;
        e ← getQe (queueEntry t);
        next ← getQe (nextThread e);
        readyQueuePush (queueEntry t);;
        releaseThread curFreeThread;;
        freeJoinedFrom fuel (qthread next)
  end.
Definition kthreadFreeJoined (thread : Z) : M sched unit :=
  x ← getQueue (QJoin thread);
  fuel ← gets (fun s => S (size (threads s)));
  freeJoinedFrom fuel (first x);;
  updQueue (QJoin thread) (q_first 0);;
  updQueue (QJoin thread) (q_last 0).
Definition kthreadDetach : kM unit :=
  curThread ← onSched (gets currentThread);
  k ← getKt curThread;
  putKt curThread (mkKt (returnValue k) true (start k)).
End thread.
