(* ===== verification/ThreadSpec.v ===== *)
(** * Threads are scheduled

    A new thread waits in the ready list of its priority; a tick of the timer
    leaves the running thread in place while its time slice lasts, and then the
    best ready thread goes on. *)

From S2P Require Import Prelude Word Errno ThreadQueue ReadyQueue Thread.
From S2P Require Fd.

Section threads.
Context {H : Type} `{Fd.KernelMemory H}.
Context (handleSignal : Z -> Z -> M sched unit).
Implicit Types s : kst H.

Lemma wp_schedOf {A} (m : M sched A) s (Q : A -> kst H -> Prop) : wp m (sch s) (fun a x => Q a (set_sch x s)) -> wp (onSched m) s Q.
Proof. unfold wp, onSched. by destruct (m (sch s)) as [[a x]| |]. Qed.
Lemma wp_heapOf {A} (f : H -> A * H) s (Q : A -> kst H -> Prop) : Q (f (kheap s)).1 (set_kheap (f (kheap s)).2 s) -> wp (onHeap f) s Q.
Proof. intros HQ. unfold wp, onHeap. by destruct (f (kheap s)). Qed.

(** A new entry on no queue. *)
Lemma new_entry_inv x L p e q t k : sched_inv x L -> qes x !! p = None -> Z.of_nat (size (qes x)) + 1 < 2 ^ 31 - 2 -> (forall c j, q <> QReady c j) ->
  sched_inv (mkSched (<[p := e]> (qes x)) t (<[q := k]> (queues x)) (cpuInfos x) (sems x) (thisCpu x) (currentThread x) (nrofActiveCPUs x) (ipis x)) L.
Proof.
  intros HI Hp Hsz Hq. split; cbn; [|apply HI|rewrite map_size_insert_None by done; lia].
  intros c j Hc Hj. destruct (si_lists _ _ HI c j Hc Hj) as (Hnd & Hl & Hqs & Hlen). split_and!; cbn; [done| |by rewrite lookup_insert_ne|done].
  eapply linked_frame; [|exact Hl]. intros y Hy. destruct (linked_queue _ _ _ _ _ _ Hl Hy) as (e' & He' & _). by rewrite lookup_insert_ne by congruence.
Qed.

Definition newPrio (flags : Z) : Z := if has flags THREAD_FLAG_RT then 0 else 1.
Definition newFixed (flags : Z) : bool := has flags THREAD_FLAG_RT || has flags THREAD_FLAG_FIXED_PRIORITY.
Definition newThread (flags entry cpu : Z) : ThreadInfo := mkThread SCHEDWAIT false cpu 0 entry (newPrio flags) (newFixed flags) (timeslice (newPrio flags)).
Lemma newPriority_new flags entry cpu : newPriority (newThread flags entry cpu) = newPrio flags.
Proof. unfold newThread, newPrio, newFixed. destruct (has flags THREAD_FLAG_RT), (has flags THREAD_FLAG_FIXED_PRIORITY); done. Qed.

(** The state with the new thread [p] in it. *)
Definition withThread s (p : Z) h (t : ThreadInfo) (e : ThreadQueueEntry) (k : kthread) : kst H :=
  let x := sch s in
  mkKst (mkSched (<[defaultQueueEntry p := e]> (qes x)) (<[p := t]> (threads x)) (<[QJoin p := emptyQueue]> (queues x)) (cpuInfos x) (sems x) (thisCpu x) (currentThread x) (nrofActiveCPUs x) (ipis x))
    (<[p := k]> (kthreads s)) h.
Lemma with_updThread s p h t e k f (Q : unit -> kst H -> Prop) : Q tt (withThread s p h (f t) e k) -> wp (onSched (updThread p f)) (withThread s p h t e k) Q.
Proof.
  intros HQ. apply wp_schedOf. eapply wp_updThread; [apply lookup_insert_eq|]. unfold withThread, set_sch, set_threads in *. cbn. by rewrite insert_insert_eq.
Qed.
Lemma with_updQe s p h t e k f (Q : unit -> kst H -> Prop) : Q tt (withThread s p h t (f e) k) -> wp (onSched (updQe (defaultQueueEntry p) f)) (withThread s p h t e k) Q.
Proof.
  intros HQ. apply wp_schedOf. eapply wp_updQe; [apply lookup_insert_eq|]. unfold withThread, set_sch, set_qes in *. cbn. by rewrite insert_insert_eq.
Qed.
Lemma with_putKt s p h t e k k' (Q : unit -> kst H -> Prop) : Q tt (withThread s p h t e k') -> wp (putKt p k') (withThread s p h t e k) Q.
Proof. intros HQ. apply wp_modify. unfold withThread, set_kthreads in *. cbn. by rewrite insert_insert_eq. Qed.
Lemma allocKStack_spec s bottom h (Q : Z -> kst H -> Prop) : Fd.allocKPages THREAD_STACK_SIZE (kheap s) = (bottom, h) -> 0 < bottom ->
  let thrd := bottom + THREAD_STACK_SIZE - sizeofThreadInfo in Q thrd (withThread s thrd h zeroThread zeroEntry (mkKt 0 false (0, 0))) -> wp allocKStack s Q.
Proof.
  intros Ha Hb thrd HQ. unfold allocKStack. apply wp_bind, wp_heapOf. rewrite Ha. cbn [fst snd]. rewrite (proj2 (Z.eqb_neq bottom 0)) by lia. fold thrd.
  do 3 (apply wp_bind, wp_schedOf, wp_modify). by apply wp_bind, wp_modify, wp_ret.
Qed.
Ltac onNew := first [apply wp_bind; first [apply with_updThread|apply with_updQe|apply with_putKt]|apply with_updThread].

(** [kthreadCreate]: when there are pages for its stack, the new thread
    starts with its function and argument, has the priority that the flags ask
    for and a full time slice, and waits at the end of the ready list of that
    priority on some processor; no other thread or queue is touched. *)
Theorem kthreadCreate_correct s L start arg flags bottom h :
  let thrd := bottom + THREAD_STACK_SIZE - sizeofThreadInfo in let entry := defaultQueueEntry thrd in
  sched_inv (sch s) L -> Fd.allocKPages THREAD_STACK_SIZE (kheap s) = (bottom, h) -> 0 < bottom -> qes (sch s) !! entry = None ->
  0 <= thisCpu (sch s) < Z.of_nat (length (cpuInfos (sch s))) -> Z.of_nat (size (qes (sch s))) + 1 < 2 ^ 31 - 2 ->
  wp (kthreadCreate start arg flags) s (fun r s' => r = (0, thrd) /\ kheap s' = h /\
    kthreads s' = <[thrd := mkKt 0 (has flags THREAD_FLAG_DETACHED) (start, arg)]> (kthreads s) /\ exists cpu,
    sched_inv (sch s') (L_push L cpu (newPrio flags) entry) /\ threads (sch s') = <[thrd := newThread flags entry cpu]> (threads (sch s))).
Proof.
  intros thrd entry HI Ha Hb He Hcpu Hsz. unfold kthreadCreate. apply wp_bind. eapply allocKStack_spec; [exact Ha|exact Hb|]. fold thrd.
  assert (Ht : 0 < thrd) by (unfold thrd, THREAD_STACK_SIZE, sizeofThreadInfo; lia). rewrite (proj2 (Z.eqb_neq thrd 0)) by lia.
  apply wp_bind. eapply (wp_mono _ _ (fun _ s' => s' = withThread s thrd h (mkThread FINISHED false 0 0 0 (newPrio flags) (newFixed flags) 0) zeroEntry (mkKt 0 false (0, 0)))).
  { unfold newPrio, newFixed. destruct (has flags THREAD_FLAG_RT); do 2 onNew; done. }
  intros _ ? ->. onNew. apply wp_bind, wp_schedOf, wp_gets. do 5 onNew.
  set (x := withThread _ _ _ _ _ _). apply wp_bind, wp_schedOf.
  eapply wp_mono; [eapply (readyQueuePush_wp (sch x) L entry thrd (newThread flags entry (thisCpu (sch s))))|].
  - apply new_entry_inv; done.
  - split; [unfold entry, defaultQueueEntry; lia|]. split; [apply lookup_insert_eq|]. split; [done|]. split; [|split; [exact Hcpu|]].
    + eexists. split; [apply lookup_insert_eq|]. done.
    + unfold newThread, newPrio, valid_priority, NROF_QUEUE_PRIORITIES. cbn. destruct (has flags THREAD_FLAG_RT); lia.
  - intros _ x' (cpu & i & Hc & Hi & [Ei _] & HI' & Ht' & _). apply wp_ret. rewrite newPriority_new in Ei. subst i. split; [done|]. split; [done|]. split; [done|].
    exists cpu. split; [exact HI'|]. cbn. rewrite Ht'. cbn. by rewrite insert_insert_eq.
Qed.

(** ** The tick of the timer *)

(** The ready lists of the processor with the old thread back in its list. *)
Definition backIn (front : bool) (t : ThreadInfo) (p : Z) (ls : Z -> list Z) (j : Z) : list Z :=
  if front then if j =? priority t then p :: ls j else ls j
  else if j =? newPriority t then ls j ++ [p] else ls j.

(** Entries keep their threads while queues change. *)
Definition sameThreads (x x' : sched) : Prop := forall k, qthread <$> qes x' !! k = qthread <$> qes x !! k.
#[export] Instance sameThreads_preorder : PreOrder sameThreads.
Proof. split; unfold sameThreads; [done|]. intros x y z H1 H2 k. by rewrite H2, H1. Qed.
Lemma sameThreads_updQe p f : (forall e, qthread (f e) = qthread e) -> preserves sameThreads (updQe p f).
Proof.
  intros Hf. apply preserves_updQe. intros x e E k. cbn.
  destruct (decide (k = p)) as [->|Hk]; [by rewrite lookup_insert_eq, E; cbn; rewrite Hf|by rewrite lookup_insert_ne].
Qed.
#[local] Hint Resolve sameThreads_updQe : preserves.
#[local] Hint Extern 1 (sameThreads _ _) => (intros ?; reflexivity) : preserves.
Lemma push_sameThreads q th : preserves sameThreads (threadQueuePush q th).
Proof. unfold threadQueuePush, getThread, getQueue. preserve. Qed.
Lemma pushFront_sameThreads q th : preserves sameThreads (threadQueuePushFront q th).
Proof. unfold threadQueuePushFront, getThread, getQueue. preserve. Qed.

(** What a thread that leaves its processor is: its entry is on no ready list
    of the processor, and it is nobody else's. *)
Record leaving (x : sched) (ls : Z -> list Z) (old : Z) (t : ThreadInfo) (p : Z) : Prop := {
  lv_thread : threads x !! old = Some t;
  lv_entry : queueEntry t = p;
  lv_null : p <> 0;
  lv_back : qthread <$> qes x !! p = Some old;
  lv_free : forall j, p ∉ ls j;
  lv_prio : valid_priority (priority t)
}.
(** After the old thread is back in its list. *)
Record isBack (x x' : sched) (cpu : Z) (c : CpuInfo) (ls : Z -> list Z) (old : Z) (t : ThreadInfo) : Prop := {
  ib_lists : forall j, valid_priority j -> queue_rep false x' (QReady cpu j) (ls j);
  ib_threads : threads x' = <[old := t]> (threads x);
  ib_cpu : exists c', cpuInfos x' = <[Z.to_nat cpu := c']> (cpuInfos x) /\ readyListLock c' = true;
  ib_qthread : forall k, qthread <$> qes x' !! k = qthread <$> qes x !! k;
  ib_current : currentThread x' = currentThread x /\ thisCpu x' = thisCpu x
}.
Lemma backIn_at front t p ls : backIn front t p ls = fun j => if j =? (if front then priority t else newPriority t) then (if front then p :: ls j else ls j ++ [p]) else ls j.
Proof. by destruct front. Qed.
Lemma relist x x' cpu ls i l' p : (forall j, valid_priority j -> queue_rep false x (QReady cpu j) (ls j)) -> valid_priority i -> (forall j, p ∉ ls j) ->
  queue_frame (QReady cpu i) (p :: ls i) x x' -> queue_rep false x' (QReady cpu i) l' ->
  forall j, valid_priority j -> queue_rep false x' (QReady cpu j) (if j =? i then l' else ls j).
Proof.
  intros Hls Hi Hp Hfr Hl' j Hj. destruct (Z.eqb_spec j i) as [->|Hne]; [done|].
  eapply queue_frame_rep; [exact Hfr|congruence| |by apply Hls]. intros k Hk [->|Hk']%elem_of_cons; [by eapply Hp|].
  eapply (queue_rep_disjoint false false x (QReady cpu j) (QReady cpu i)); [..|exact Hk|exact Hk']; [by apply Hls|by apply Hls|congruence].
Qed.

Lemma eq_rep x q l l' : l = l' -> queue_rep false x q l' -> queue_rep false x q l.
Proof. by intros ->. Qed.
(** The old thread goes back into its list. *)
Lemma exchange_push x front old t p c (ls : Z -> list Z) (Q : unit -> sched -> Prop) : let cpu := thisCpu x in
  (forall j, valid_priority j -> queue_rep false x (QReady cpu j) (ls j)) -> leaving x ls old t p ->
  0 <= cpu -> cpuInfos x !! Z.to_nat cpu = Some c -> readyListLock c = false -> Z.of_nat (size (qes x)) < 2 ^ 31 - 2 ->
  (forall x', isBack x x' cpu c (backIn front t p ls) old (if front then t else t_priority (newPriority t) t) -> Q tt x') ->
  wp (if front then acquireReadyList cpu;; t ← getThread old; threadQueuePushFront (QReady cpu (priority t)) old
      else t ← getThread old; let oldPriority := priority t in calcNewPriority old;; acquireReadyList cpu;;
        t ← getThread old; updCpu cpu (cpu_load (priority t - oldPriority));; threadQueuePush (QReady cpu (priority t)) old) x Q.
Proof.
  intros cpu Hls [Ht Hqe Hp Hback Hfree Hprio] Hcpu Hc Hlock Hsz HQ. rewrite backIn_at in HQ.
  assert (He : is_Some (qes x !! p)) by (destruct (qes x !! p); [eauto|done]).
  assert (Hlen : forall j, valid_priority j -> Z.of_nat (length (ls j)) + 1 < 2 ^ 31 - 1).
  { intros j Hj. pose proof (queue_length _ _ _ _ _ (Hls j Hj) (Hfree j) He). lia. }
  destruct (newPriority_range t Hprio) as (Hnp & _).
  assert (Hlt : (Z.to_nat cpu < length (cpuInfos x))%nat) by (by apply lookup_lt_Some in Hc).
  destruct front; unfold acquireReadyList; [|apply wp_bind; eapply wp_getThread; [exact Ht|]; apply wp_bind; eapply wp_updThread; [exact Ht|]].
  all: apply wp_bind, wp_bind; eapply wp_getCpu; [done|exact Hc|]; rewrite Hlock; eapply wp_updCpu; [done|exact Hc|].
  all: apply wp_bind; eapply wp_getThread; [first [exact Ht|apply lookup_insert_eq]|].
  2: apply wp_bind; eapply wp_updCpu; [done|cbn; by apply list_lookup_insert_eq|].
  - eapply wp_mono; [apply wp_preserves; [apply pushFront_sameThreads|eapply (threadQueuePushFront_wp _ _ (ls (priority t)) old t p)]; try done; [|by apply Hlen]|].
    { eapply queue_rep_ext; [..|by apply Hls]; done. }
    intros [] x' [[Hl Hfr] Hk]. apply HQ. pose proof Hfr as (F1 & F2 & F3 & F4 & F5 & F6 & F7 & _).
    split; [|by rewrite F3; cbn; rewrite insert_id|exists (cpu_lock true c); by rewrite F4|done|by rewrite F6, F7].
    intros j Hj. eapply eq_rep; [|refine (relist _ x' cpu ls (priority t) _ p _ Hprio Hfree Hfr Hl j Hj)].
    + by destruct (Z.eqb_spec j (priority t)) as [->|].
    + intros j' Hj'. eapply queue_rep_ext; [..|by apply Hls]; done.
  - set (x1 := set_cpuInfos _ _). set (i := priority (t_priority (newPriority t) t)). change i with (newPriority t).
    eapply wp_mono; [apply wp_preserves; [apply push_sameThreads|eapply (threadQueuePush_wp false x1 _ (ls (newPriority t)) old (t_priority (newPriority t) t) p)]; try done; [|apply lookup_insert_eq|by apply Hlen]|].
    { eapply queue_rep_ext; [..|by apply Hls]; done. }
    intros [] x' [[Hl Hfr] Hk]. apply HQ. pose proof Hfr as (F1 & F2 & F3 & F4 & F5 & F6 & F7 & _).
    split; [|by rewrite F3|eexists; rewrite F4; unfold x1; cbn; by rewrite list_insert_insert_eq|done|by rewrite F6, F7].
    intros j Hj. eapply eq_rep; [|refine (relist _ x' cpu ls (newPriority t) _ p _ Hnp Hfree Hfr Hl j Hj)].
    + by destruct (Z.eqb_spec j (newPriority t)) as [->|].
    + intros j' Hj'. eapply queue_rep_ext; [..|by apply Hls]; done.
Qed.

(** The threads of the entries in the ready lists, none of them locked. *)
Definition ready_threads (x : sched) (ls : Z -> list Z) (old : Z) : Prop :=
  forall j q, q ∈ ls j -> exists e t, qes x !! q = Some e /\ threads x !! qthread e = Some t /\ tlock t = false /\ qthread e <> old.

Lemma backIn_elem front t p ls j q : q ∈ backIn front t p ls j -> q = p \/ q ∈ ls j.
Proof. unfold backIn. repeat case_match; set_solver. Qed.
Lemma pick_elem n i ls j q l : pick n i ls = Some (j, q, l) -> q ∈ ls j.
Proof. revert i. induction n as [|n IH]; intros i; cbn; [done|]. destruct (ls i) as [|a r] eqn:E; [apply IH|]. intros [= <- <- <-]. rewrite E. by left. Qed.
Lemma pick_some n i ls j : i <= j < i + Z.of_nat n -> ls j <> [] -> pick n i ls <> None.
Proof.
  revert i. induction n as [|n IH]; intros i Hj Hl; [lia|]. cbn. destruct (ls i) as [|a r] eqn:E; [|done].
  apply IH; [|done]. destruct (Z.eq_dec i j); [congruence|lia].
Qed.
Lemma backIn_picks front t p ls : valid_priority (priority t) -> exists j q l, pick 8 0 (backIn front t p ls) = Some (j, q, l).
Proof.
  intros Hp. destruct (newPriority_range t Hp) as (Hn & _). unfold valid_priority, NROF_QUEUE_PRIORITIES in *.
  destruct (pick 8 0 (backIn front t p ls)) as [[[j q] l]|] eqn:E; [by eexists _, _, _|].
  exfalso. revert E. apply (pick_some _ _ _ (if front then priority t else newPriority t)); [destruct front; lia|].
  unfold backIn. destruct front; rewrite Z.eqb_refl; [done|]. by destruct (ls (newPriority t)).
Qed.

Lemma readyQueueExchange_spec x front old t p c ls : let cpu := thisCpu x in
  (forall j, valid_priority j -> queue_rep false x (QReady cpu j) (ls j)) -> leaving x ls old t p -> ready_threads x ls old ->
  0 <= cpu -> cpuInfos x !! Z.to_nat cpu = Some c -> readyListLock c = false -> Z.of_nat (size (qes x)) < 2 ^ 31 - 2 ->
  wp (readyQueueExchange old front) x (fun r x' =>
    let t1 := if front then t else t_priority (newPriority t) t in let ls1 := backIn front t p ls in
    exists i q l tr, pick 8 0 ls1 = Some (i, q, l) /\ qthread <$> qes x !! q = Some r /\ (r = old <-> q = p) /\
      <[old := t1]> (threads x) !! r = Some tr /\ (r <> old -> tlock tr = false) /\
      threads x' = <[r := t_jiffies (timeslice i) tr]> (<[old := t1]> (threads x)) /\
      forall j, valid_priority j -> queue_rep false x' (QReady cpu j) (if j =? i then l else ls1 j)).
Proof.
  intros cpu Hls Hlv Hrt Hcpu Hc Hlock Hsz. set (t1 := if front then t else t_priority (newPriority t) t). set (ls1 := backIn front t p ls).
  unfold readyQueueExchange. apply wp_bind, wp_gets, wp_bind. eapply exchange_push; try eassumption. fold cpu ls1 t1.
  intros x1 [Hl1 Ht1 (c1 & Hc1 & _) Hk1 [_ Hthis]].
  assert (Hlt : (Z.to_nat cpu < length (cpuInfos x))%nat) by (by apply lookup_lt_Some in Hc).
  assert (Hthr : forall q j, q ∈ ls1 j -> exists e tq, qes x1 !! q = Some e /\ threads x1 !! qthread e = Some tq /\ (qthread e = old <-> q = p) /\ (qthread e <> old -> tlock tq = false)).
  { destruct Hlv as [L1 L2 L3 L4 L5 L6]. intros q j Hq. specialize (Hk1 q). destruct (decide (q = p)) as [->|Hne].
    - rewrite L4 in Hk1. destruct (qes x1 !! p) as [e|]; [|done]. injection Hk1 as Hk1. exists e, t1. rewrite Hk1, Ht1, lookup_insert_eq. by split_and!.
    - destruct (backIn_elem _ _ _ _ _ _ Hq) as [->|Hq']; [done|]. destruct (Hrt j q Hq') as (e & tq & He & Htq & Hu & Hn). rewrite He in Hk1.
      destruct (qes x1 !! q) as [e'|]; [|done]. injection Hk1 as Hk1. exists e', tq. rewrite Hk1, Ht1, lookup_insert_ne by done. by split_and!. }
  apply wp_bind. eapply wp_updCpu; [done|rewrite Hc1; by apply list_lookup_insert_eq|]. rewrite Hc1, list_insert_insert_eq.
  apply wp_bind. unfold getThreadFromCPU. change (Z.to_nat NROF_QUEUE_PRIORITIES) with 8%nat.
  eapply wp_mono; [eapply (getThreadFrom_spec false 8 _ cpu 0 ls1)|].
  - intros j Hj. eapply queue_rep_ext; [..|apply Hl1; unfold valid_priority, NROF_QUEUE_PRIORITIES; lia]; done.
  - intros j q Hq. destruct (Hthr q j Hq) as (e & tq & He & Htq & _). by exists e, tq.
  - done.
  - cbn. by apply list_lookup_insert_eq.
  - destruct (backIn_picks front t p ls (lv_prio _ _ _ _ _ Hlv)) as (i & q & l & Hpick). fold ls1 in Hpick. rewrite Hpick.
    intros r x2 [El (e & tr & c2 & He & -> & Htr & Hl2 & Hfr & Ht2 & Hc2 & Hc2' & _)]. cbn in He, Htr, Ht2, Hc2, Hc2'.
    destruct (Hthr q i) as (e' & tq & He' & Htq & Hiff & Hun); [rewrite El; by left|].
    assert (e' = e) as -> by congruence. assert (tq = tr) as -> by congruence.
    apply wp_bind. unfold releaseReadyList. eapply wp_updCpu; [done|rewrite Hc2'; apply list_lookup_insert_eq; by rewrite length_insert|]. apply wp_ret.
    exists i, q, l, tr. split_and!; try done.
    + by rewrite <- Hk1, He.
    + by rewrite <- Ht1.
    + cbn. by rewrite Ht2, Ht1.
    + intros j Hj. eapply (queue_rep_ext _ x2); [done..|]. destruct (Z.eqb_spec j i) as [->|Hne]; [done|].
      apply Hfr; [congruence|]. eapply queue_rep_ext; [..|by apply Hl1]; done.
Qed.

(** C18: [kthreadSwitch] with no signal to handle.  While time is left and no
    better thread was released, the thread goes on with one jiffy less.
    Otherwise it goes back into a ready list (to the front of its own with
    time left and [frontEn], else to the end of that of its new priority), and
    the first thread of the best list runs with the full time slice of that
    priority. *)
Theorem kthreadSwitch_correct x higher frontEn irqStack old t p c ls : let cpu := thisCpu x in
  (forall th irq y (Q : unit -> sched -> Prop), Q tt y -> wp (handleSignal th irq) y Q) ->
  (forall j, valid_priority j -> queue_rep false x (QReady cpu j) (ls j)) -> leaving x ls old t p -> ready_threads x ls old ->
  0 <= cpu -> cpuInfos x !! Z.to_nat cpu = Some c -> readyListLock c = false -> Z.of_nat (size (qes x)) < 2 ^ 31 - 2 ->
  - 2 ^ 31 < jiffiesRemaining t < 2 ^ 31 ->
  wp (kthreadSwitch handleSignal old higher frontEn irqStack) x (fun r x' =>
    let left := jiffiesRemaining t - 1 in let t0 := t_state SCHEDWAIT (t_jiffies left t) in
    if (0 <? left) && negb higher then r = old /\ x' = set_threads x (<[old := t_jiffies left t]> (threads x))
    else
      let front := (0 <? left) && frontEn in let ls1 := backIn front t0 p ls in
      exists i q l, pick 8 0 ls1 = Some (i, q, l) /\ qthread <$> qes x !! q = Some r /\ (r = old <-> q = p) /\ currentThread x' = r /\
        (forall j, valid_priority j -> queue_rep false x' (QReady cpu j) (if j =? i then l else ls1 j)) /\
        (exists tr, threads x' !! r = Some tr /\ tstate tr = RUNNING /\ jiffiesRemaining tr = timeslice i /\ (r <> old -> tlock tr = true)) /\
        (r <> old -> threads x' !! old = Some (if front then t0 else t_priority (newPriority t0) t0))).
Proof.
  intros cpu Hsig Hls Hlv Hrt Hcpu Hc Hlock Hsz Hj. destruct Hlv as [L1 L2 L3 L4 L5 L6].
  unfold kthreadSwitch. apply wp_bind. eapply wp_updThread; [exact L1|]. apply wp_bind. eapply wp_getThread; [apply lookup_insert_eq|].
  cbn [jiffiesRemaining t_jiffies]. rewrite swrap_small by lia. set (left := jiffiesRemaining t - 1).
  destruct ((0 <? left) && negb higher); [apply wp_bind, Hsig, wp_ret; done|].
  apply wp_bind. eapply wp_updThread; [apply lookup_insert_eq|]. cbn [set_threads threads]. rewrite insert_insert_eq.
  set (t0 := t_state SCHEDWAIT (t_jiffies left t)). set (x0 := set_threads _ _).
  apply wp_bind. eapply wp_mono; [eapply (readyQueueExchange_spec x0 _ old t0 p c ls)|]; try done.
  - split; try done. apply lookup_insert_eq.
  - intros j q Hq. destruct (Hrt j q Hq) as (e & tq & He & Htq & Hu & Hn). exists e, tq. cbn. by rewrite lookup_insert_ne.
  - cbn zeta. intros r x1 (i & q & l & tr & Hp & Hq & Hiff & Hr & Hun & Ht & Hl). cbn [threads x0 set_threads] in *. rewrite insert_insert_eq in Hr, Ht.
    assert (Hr1 : threads x1 !! r = Some (t_jiffies (timeslice i) tr)) by (by rewrite Ht, lookup_insert_eq).
    set (tr' := if r =? old then t_jiffies (timeslice i) tr else t_lock true (t_jiffies (timeslice i) tr)).
    apply wp_bind, (wp_mono _ _ (fun _ y => y = set_threads x1 (<[r := tr']> (threads x1)))).
    { unfold tr'. destruct (Z.eqb_spec r old); cbn [negb]; [apply wp_ret; rewrite insert_id by done; by destruct x1|].
      unfold acquireThread. apply wp_bind. eapply wp_getThread; [exact Hr1|]. cbn [tlock t_jiffies]. rewrite Hun by done. eapply wp_updThread; [exact Hr1|]. done. }
    intros _ ? ->. unfold setCurrentThread. apply wp_bind, wp_modify, wp_bind, Hsig, wp_bind. eapply wp_updThread; [apply lookup_insert_eq|]. apply wp_ret.
    exists i, q, l. split_and!; try done; try apply Hiff.
    + eexists. cbn. rewrite lookup_insert_eq. split; [done|]. unfold tr'. by destruct (Z.eqb_spec r old).
    + intros Hne. cbn. rewrite !lookup_insert_ne by done. by rewrite Ht, lookup_insert_ne, lookup_insert_eq.
Qed.
End threads.

(** ** Witnesses *)

Section witnesses.
(** Pages that are never given back. *)
#[local] Instance page_memory : Fd.KernelMemory Z := {
  Fd.kmalloc n h := (h, h + n);
  Fd.krealloc _ n h := (h, h + n);
  Fd.kfree _ h := h;
  Fd.allocKPages n h := (h, h + n);
  Fd.deallocPages _ _ h := h
}.

Lemma kthreadCreate_correct_witness :
  wp (kthreadCreate 0x4000 7 THREAD_FLAG_DETACHED) (mkKst (runners 0) ∅ 0x10000) (fun r s' => r = (0, 0x11D20) /\ kheap s' = 0x12000 /\
    kthreads s' = <[0x11D20 := mkKt 0 true (0x4000, 7)]> ∅ /\ exists cpu,
    sched_inv (sch s') (L_push (fun _ _ => []) cpu 1 0x11F80) /\ threads (sch s') = <[0x11D20 := newThread THREAD_FLAG_DETACHED 0x11F80 cpu]> (threads (runners 0))).
Proof.
  apply (kthreadCreate_correct (mkKst (runners 0) ∅ 0x10000) (fun _ _ => []) 0x4000 7 THREAD_FLAG_DETACHED 0x10000 0x12000);
    [apply runners_inv|reflexivity|lia|reflexivity|by vm_compute|by vm_compute].
Defined.

(** Thread 1 has used up its time slice; thread 2 waits with a better
    priority. *)
Definition tired : sched :=
  mkSched (<[11 := demoQe 1 0 0 None 0]> (<[12 := demoQe 2 0 0 (Some (QReady 0 2)) 0]> ∅))
    (<[1 := mkThread RUNNING false 0 0 11 3 false 1]> (<[2 := demoThread 12 2]> ∅))
    (<[QReady 0 2 := mkQueue 12 12 1]> idleQueues) [demoCpu; demoCpu] ∅ 0 1 1 [].
Definition tiredLists (j : Z) : list Z := if j =? 2 then [12] else [].
Lemma tired_lists j : valid_priority j -> queue_rep false tired (QReady 0 j) (tiredLists j).
Proof.
  intros Hj. unfold tiredLists. destruct (Z.eqb_spec j 2) as [->|Hne].
  - split_and!; [apply NoDup_singleton| |reflexivity|by vm_compute]. cbn. split_and!; [done| |done]. by eexists.
  - apply empty_queue_rep. cbn [queues tired]. rewrite lookup_insert_ne by congruence. apply idleQueues_empty; [by left|done].
Qed.
Definition ignoreSignal (_ _ : Z) : M sched unit := mret tt.

Lemma kthreadSwitch_correct_witness :
  wp (kthreadSwitch ignoreSignal 1 false true 0) tired (fun r x' =>
    exists i q l, pick 8 0 (backIn false (t_state SCHEDWAIT (t_jiffies 0 (mkThread RUNNING false 0 0 11 3 false 1))) 11 tiredLists) = Some (i, q, l) /\
      qthread <$> qes tired !! q = Some r /\ (r = 1 <-> q = 11) /\ currentThread x' = r /\
      (forall j, valid_priority j -> queue_rep false x' (QReady 0 j) (if j =? i then l else
         backIn false (t_state SCHEDWAIT (t_jiffies 0 (mkThread RUNNING false 0 0 11 3 false 1))) 11 tiredLists j)) /\
      (exists tr, threads x' !! r = Some tr /\ tstate tr = RUNNING /\ jiffiesRemaining tr = timeslice i /\ (r <> 1 -> tlock tr = true)) /\
      (r <> 1 -> threads x' !! 1 = Some (mkThread SCHEDWAIT false 0 0 11 4 false 0))).
Proof.
  apply (kthreadSwitch_correct ignoreSignal tired false true 0 1 (mkThread RUNNING false 0 0 11 3 false 1) 11 demoCpu tiredLists).
  - intros th irq y Q HQ. exact HQ.
  - exact tired_lists.
  - split; try reflexivity; [done| |by vm_compute]. intros j. unfold tiredLists. destruct (j =? 2); set_solver.
  - intros j q. unfold tiredLists. destruct (j =? 2); [|set_solver]. intros ->%list_elem_of_singleton. by eexists _, _.
  - by vm_compute.
  - reflexivity.
  - reflexivity.
  - by vm_compute.
  - cbn. lia.
Defined.

(** [kthreadFreeJoined] works only when nobody has joined: a waiting entry is
    taken for a thread. *)
Theorem kthreadFreeJoined_faults : kthreadFreeJoined 2 (set_queues tired (<[QJoin 2 := mkQueue 11 11 1]> (queues tired))) = Fault.
Proof. by vm_compute. Qed.
Theorem kthreadFreeJoined_nobody x thread : queues x !! QJoin thread = Some emptyQueue -> wp (kthreadFreeJoined thread) x (fun _ x' => x' = set_queues x (<[QJoin thread := emptyQueue]> (queues x))).
Proof.
  intros Hq. unfold kthreadFreeJoined. apply wp_bind, wp_deref. exists emptyQueue. split; [exact Hq|]. apply wp_bind, wp_gets. cbn [freeJoinedFrom first emptyQueue].
  apply wp_bind, wp_ret, wp_bind. unfold wp, updQueue. rewrite Hq. cbn. rewrite lookup_insert_eq. by rewrite insert_insert_eq.
Qed.
End witnesses.
