(* ===== verification/IoApic.v ===== *)
(** * Interrupt lines: [arch/x86_64/irq/ioapic.c]

    The list of I/O APICs, the overrides of the ISA lines and the routing of a
    line to a vector.  The registers of the devices are reached through the
    class [Machine]: what a register does is up to its instance, the model says
    which registers are read and written, in which order. *)

From S2P Require Import Prelude Word Errno ThreadQueue.
From S2P Require Fd.

(** Mapped memory, device registers of 32 bits and ports of 8 bits. *)
Class Machine (D : Type) := {
  vmem : D -> gmap Z Z;
  ioremap : Z -> Z -> D -> Z * D;
  iounmap : Z -> Z -> D -> D;
  read32 : Z -> D -> Z * D;
  write32 : Z -> Z -> D -> D;
  out8 : Z -> Z -> D -> D
}.

Record IoApicInfo := mkIoApic { ioId : Z; ioLock : bool; gsiBase : Z; gsiLength : Z; indexPort : Z; dataPort : Z; ioPaddr : Z }.
Record IsaOverride := mkIsa { isaSource : Z; isaFlagsOf : Z; isaGSI : Z }.
Definition sizeofIoApicInfo : Z := 40.
Definition sizeofIsaOverride : Z := 8.
Definition ISA_LIST_INC : Z := 4.
Definition REG_VERSION : Z := 0x01.
Definition REG_IORED_BASE : Z := 0x10.
Definition IORED_APIC_ID_SHIFT : Z := 56.
Definition IORED_FLAG_MASK : Z := Z.shiftl 1 16.
Definition HWIRQ_FLAG_ISA : Z := Z.shiftl 1 0.
Definition HWIRQ_FLAG_CUSTOM : Z := Z.shiftl 1 1.
Definition HWIRQ_FLAG_POLARITY : Z := Z.shiftl 1 13.
Definition HWIRQ_FLAG_TRIGGER : Z := Z.shiftl 1 15.

(** The state of the boot code: the machine with its memory, the scheduler's
    processors, and the tables of this file.  [isaRoom] is the number of
    elements that the array of overrides has room for. *)
Record boot (D : Type) := mkBoot {
  machine : D;
  bsched : sched;
  nrofCPUs : Z;
  excStacks : list Z;
  ioApicInfos : list IoApicInfo;
  ioApicPtr : Z;
  isaOverrides : list IsaOverride;
  isaPtr : Z;
  isaRoom : Z;
  gsiToVec : list Z
}.
Arguments mkBoot {D}.
Arguments machine {D}.
Arguments bsched {D}.
Arguments nrofCPUs {D}.
Arguments excStacks {D}.
Arguments ioApicInfos {D}.
Arguments ioApicPtr {D}.
Arguments isaOverrides {D}.
Arguments isaPtr {D}.
Arguments isaRoom {D}.
Arguments gsiToVec {D}.
Section setters.
Context {D : Type}.
Definition set_machine v (s : boot D) : boot D := mkBoot v (bsched s) (nrofCPUs s) (excStacks s) (ioApicInfos s) (ioApicPtr s) (isaOverrides s) (isaPtr s) (isaRoom s) (gsiToVec s).
Definition set_bsched v (s : boot D) : boot D := mkBoot (machine s) v (nrofCPUs s) (excStacks s) (ioApicInfos s) (ioApicPtr s) (isaOverrides s) (isaPtr s) (isaRoom s) (gsiToVec s).
Definition set_nrofCPUs v (s : boot D) : boot D := mkBoot (machine s) (bsched s) v (excStacks s) (ioApicInfos s) (ioApicPtr s) (isaOverrides s) (isaPtr s) (isaRoom s) (gsiToVec s).
Definition set_excStacks v (s : boot D) : boot D := mkBoot (machine s) (bsched s) (nrofCPUs s) v (ioApicInfos s) (ioApicPtr s) (isaOverrides s) (isaPtr s) (isaRoom s) (gsiToVec s).
Definition set_ioApics v p (s : boot D) : boot D := mkBoot (machine s) (bsched s) (nrofCPUs s) (excStacks s) v p (isaOverrides s) (isaPtr s) (isaRoom s) (gsiToVec s).
Definition set_isa v p n (s : boot D) : boot D := mkBoot (machine s) (bsched s) (nrofCPUs s) (excStacks s) (ioApicInfos s) (ioApicPtr s) v p n (gsiToVec s).
Definition set_gsiToVec v (s : boot D) : boot D := mkBoot (machine s) (bsched s) (nrofCPUs s) (excStacks s) (ioApicInfos s) (ioApicPtr s) (isaOverrides s) (isaPtr s) (isaRoom s) v.
End setters.

Definition io_lock v a := mkIoApic (ioId a) v (gsiBase a) (gsiLength a) (indexPort a) (dataPort a) (ioPaddr a).
Definition io_length v a := mkIoApic (ioId a) (ioLock a) (gsiBase a) v (indexPort a) (dataPort a) (ioPaddr a).
Definition io_ports i d a := mkIoApic (ioId a) (ioLock a) (gsiBase a) (gsiLength a) i d (ioPaddr a).

Section ioapic.
Context {D : Type} `{Machine D, Fd.KernelMemory D}.
Notation bM := (M (boot D)).

Definition onMachine {A} (f : D -> A * D) : bM A := fun s => let '(a, d) := f (machine s) in Done (a, set_machine d s).
Definition wr (a v : Z) : bM unit := onMachine (fun d => (tt, write32 a v d)).
Definition rd (a : Z) : bM Z := onMachine (read32 a).
Definition getIo (i : nat) : bM IoApicInfo := deref (fun s => ioApicInfos s !! i).
Definition updIo (i : nat) (f : IoApicInfo -> IoApicInfo) : bM unit :=
  a ← getIo i; modify (fun s => set_ioApics (<[i := f a]> (ioApicInfos s)) (ioApicPtr s) s).
Definition acquireIo (i : nat) : bM unit := a ← getIo i; if ioLock a then fault else updIo i (io_lock true).
Definition releaseIo (i : nat) : bM unit := updIo i (io_lock false).

(** The index of the I/O APIC of a line. *)
Definition inRange (irq : Z) (a : IoApicInfo) : bool := (gsiBase a <=? irq) && (irq <? u32 (gsiBase a + gsiLength a)).
Definition findApic (irq : Z) : bM (option nat) := gets (fun s => fst <$> list_find (fun a => Is_true (inRange irq a)) (ioApicInfos s)).

Definition initApic (i : nat) : bM unit :=
  acquireIo i;;
  a ← getIo i;
  index ← onMachine (ioremap (ioPaddr a) 0x20);
  updIo i (io_ports index (u64 (index + 0x10)));;
  wr index REG_VERSION;;
  ver ← rd (u64 (index + 0x10));
  updIo i (io_length (Z.land (Z.shiftr ver 16) 0xFF));;
  releaseIo i.
Fixpoint initApics (n i : nat) : bM unit :=
  match n with O => mret tt | S n => initApic i;; initApics n (S i) end.
Definition ioApicInit : bM unit := n ← gets (fun s => length (ioApicInfos s)); initApics n 0.

(** The line of an ISA interrupt, and the flags of its override. *)
Fixpoint findIsa (l : list IsaOverride) (irq : Z) : option IsaOverride :=
  match l with [] => None | o :: l => if isaSource o =? irq then Some o else findIsa l irq end.
Definition isaLine (l : list IsaOverride) (irq flags : Z) : Z * Z :=
  if negb (Z.land flags HWIRQ_FLAG_ISA =? 0) then
    match findIsa l irq with
    | Some o =>
        let flags := HWIRQ_FLAG_CUSTOM in
        let flags := if negb (Z.land (isaFlagsOf o) 3 =? 1) then Z.lor flags HWIRQ_FLAG_POLARITY else flags in
        let flags := if Z.land (Z.shiftr (isaFlagsOf o) 2) 3 =? 3 then Z.lor flags HWIRQ_FLAG_TRIGGER else flags in
        (isaGSI o, flags)
    | None => (irq, 0)
    end
  else (irq, flags).
Definition thisApicID : bM Z := deref (fun s => apicID <$> cpuInfos (bsched s) !! Z.to_nat (thisCpu (bsched s))).
Definition routeIrqLine (vec irq flags : Z) : bM Z :=
  l ← gets isaOverrides;
  let '(irq, flags) := isaLine l irq flags in
  v ← gets gsiToVec;
  (if irq <? Z.of_nat (length v) then modify (set_gsiToVec (<[Z.to_nat irq := vec]> v)) else fault);;
  ioApic ← findApic irq;
  match ioApic with
  | None => mret 1
  | Some i =>
      acquireIo i;;
      a ← getIo i;
      let index := u32 (REG_IORED_BASE + (irq - gsiBase a) * 2) in
      wr (indexPort a) index;;
      flags ←
        (if Z.land flags HWIRQ_FLAG_CUSTOM =? 0 then
           prevFlags ← rd (dataPort a);
           mret (Z.land prevFlags (Z.lor HWIRQ_FLAG_POLARITY HWIRQ_FLAG_TRIGGER))
         else mret (Z.land flags (Z.lor HWIRQ_FLAG_POLARITY HWIRQ_FLAG_TRIGGER)));
      id ← thisApicID;
      let value := Z.lor (Z.lor flags (Z.land vec 0xFF)) (u64 (Z.shiftl id IORED_APIC_ID_SHIFT)) in
      wr (dataPort a) (u32 value);;
      wr (indexPort a) (u32 (index + 1));;
      wr (dataPort a) (u32 (Z.shiftr value 32));;
      releaseIo i;;
      mret 0
  end.

Definition unrouteIrqLine (irq : Z) (isa : bool) : bM unit :=
  l ← gets isaOverrides;
  let irq := if isa then match findIsa l irq with Some o => isaGSI o | None => irq end else irq in
  ioApic ← findApic irq;
  match ioApic with
  | None => mret tt
  | Some i =>
      acquireIo i;;
      a ← getIo i;
      wr (indexPort a) (u32 (REG_IORED_BASE + (irq - gsiBase a) * 2));;
      v ← rd (dataPort a);
      wr (dataPort a) (Z.lor v IORED_FLAG_MASK);;
      releaseIo i
  end.

(** The array has its new element when there is room for it. *)
Definition addISAOverride (dst src flags : Z) : bM Z :=
  s ← get;
  let len := Z.of_nat (length (isaOverrides s)) in
  ok ← (if len mod ISA_LIST_INC =? 0 then
          p ← onMachine (Fd.krealloc (isaPtr s) (u64 (u32 (len + ISA_LIST_INC) * sizeofIsaOverride)));
          if p =? 0 then mret false
          else modify (fun s => set_isa (isaOverrides s) p (u32 (len + ISA_LIST_INC)) s);; mret true
        else mret true);
  if negb ok then mret (-1)
  else
    room ← gets isaRoom;
    if len <? room then
      modify (fun s => set_isa (isaOverrides s ++ [mkIsa src flags dst]) (isaPtr s) (isaRoom s) s);;
      mret 0
    else fault.
End ioapic.
