(* ===== verification/Acpi.v ===== *)
(** * ACPI tables: [arch/x86_64/acpi/rsdp.c], [acpi.c] and [madt.c]

    The search for the root pointer, the walk over the root table, and the
    table of interrupt controllers that gives the list of processors, the I/O
    APICs and the overrides of ISA lines.  Tables are read byte by byte from the
    mapped memory of the class [Machine]. *)

From S2P Require Import Prelude Word Errno Bytes ThreadQueue IoApic.
From S2P Require Fd.

Definition ACPI_SIG_LEN : Z := 4.
Definition RSDPTR_BOUNDARY : Z := 16.
Definition RSDP_SIG : list Z := [82; 83; 68; 32; 80; 84; 82; 32].       (* "RSD PTR " *)
Definition madtSig : list Z := [65; 80; 73; 67].                        (* "APIC" *)
Definition sizeofRSDP : Z := 36.
Definition sizeofAcpiHeader : Z := 36.
Definition sizeofMadtHeader : Z := 44.
Definition sizeofCpuInfo : Z := 0x1F8.
Definition APIC_BUFFER_SIZE : Z := 256.
Definition NROF_QUEUE_PRIORITIES : Z := 8.
Definition PAGE_SIZE : Z := 0x1000.
Definition zeroCpu : CpuInfo := mkCpu false 0 0 false 0.

Section acpi.
Context {D : Type} `{Machine D, Fd.KernelMemory D}.
Notation bM := (M (boot D)).
(** [&VMEM_OFFSET], the pointer of the boot loader or 0, and what the memory of
    element [n] of the array of I/O APICs holds before it is written. *)
Context (VMEM_OFFSET rsdpOfBoot : Z) (stale : nat -> IoApicInfo).

Definition bytesAt (a : Z) (n : nat) : bM (list Z) := deref (fun s => mapM (fun k => vmem (machine s) !! (a + Z.of_nat k)) (seq 0 n)).
Definition num (a : Z) (n : nat) : bM Z := fromBytes <$> bytesAt a n.

(** ** [rsdp.c] *)

(** [result] is a [char]. *)
Definition acpiVerifyChecksum (struc size : Z) : bM bool :=
  l ← bytesAt struc (Z.to_nat size);
  mret (foldl (fun result c => swrap 8 (result + swrap 8 c)) 0 l =? 0).

(** [n] places, one every 16 bytes. *)
Fixpoint scanRsdp (n : nat) (searchBase : Z) : bM (option Z) :=
  match n with
  | O => mret None
  | S n => sig ← bytesAt searchBase 8;
      if bool_decide (sig = RSDP_SIG) then mret (Some searchBase) else scanRsdp n (searchBase + RSDPTR_BOUNDARY)
  end.
Definition findRsdp : bM Z :=
  EBDASeg ← num (0x40E + VMEM_OFFSET) 2;
  found ← (if negb (EBDASeg =? 0) then scanRsdp (Z.to_nat (1024 / RSDPTR_BOUNDARY)) (Z.shiftl EBDASeg 4 + VMEM_OFFSET) else mret None);
  found ← match found with
          | Some p => mret (Some p)
          | None => scanRsdp (Z.to_nat ((0x100000 - 0xE0000) / RSDPTR_BOUNDARY)) (0xE0000 + VMEM_OFFSET)
          end;
  match found with
  | None => fault                                       (* panic *)
  | Some searchBase => acpiVerifyChecksum searchBase sizeofRSDP;; mret searchBase
  end.

(** The mapped table, and whether it is the one of 64-bit entries. *)
Definition acpiGetRsdt : bM (Z * bool) :=
  rsdp ← (if negb (rsdpOfBoot =? 0) then onMachine (ioremap rsdpOfBoot sizeofRSDP) else findRsdp);
  revision ← num (rsdp + 15) 1;
  let isXsdt := 2 <=? revision in
  rsdtAddr ← num (rsdp + 16) 4;
  tempHeader ← onMachine (ioremap rsdtAddr sizeofAcpiHeader);
  tableSize ← num (tempHeader + 4) 4;
  onMachine (fun d => (tt, iounmap tempHeader sizeofAcpiHeader d));;
  rsdt ← (if isXsdt : bool then xsdtAddr ← num (rsdp + 24) 8; onMachine (ioremap xsdtAddr tableSize)
          else rsdtAddr ← num (rsdp + 16) 4; onMachine (ioremap rsdtAddr tableSize));
  (if negb (rsdpOfBoot =? 0) then onMachine (fun d => (tt, iounmap rsdp sizeofRSDP d)) else mret tt);;
  mret (rsdt, isXsdt).

(** ** [madt.c] *)

Definition outs (l : list (Z * Z)) : bM unit := modify (fun s => set_machine (foldl (fun d '(p, v) => out8 p v d) (machine s) l) s).
Definition ioWait : Z * Z := (0x80, 0).
(** The timer and the two interrupt controllers of old machines. *)
Definition legacyOff : list (Z * Z) :=
  [(0x43, 0x30); (0x40, 0x00); (0x40, 0x00);
   (0x20, 0x11); ioWait; (0xa0, 0x11); ioWait; (0x21, 0xF0); ioWait; (0xa1, 24); ioWait;
   (0x21, 4); ioWait; (0xa1, 2); ioWait; (0x21, 0x01); ioWait; (0xa1, 0x01); ioWait;
   (0xa1, 0xff); (0x21, 0xff)].

Definition addLapic (apicIDs : gmap Z Z) (rec : Z) : bM (gmap Z Z) :=
  id ← num (rec + 3) 1;
  n ← gets nrofCPUs;
  if n <? APIC_BUFFER_SIZE then modify (set_nrofCPUs (u32 (n + 1)));; mret (<[n := id]> apicIDs)
  else mret apicIDs.
Definition addIoApic (rec : Z) : bM unit :=
  l ← gets ioApicInfos;
  old ← gets ioApicPtr;
  p ← onMachine (Fd.krealloc old (u64 (u32 (Z.of_nat (length l) + 1) * sizeofIoApicInfo)));
  if p =? 0 then mret tt
  else
    id ← num (rec + 2) 1;
    addr ← num (rec + 4) 4;
    base ← num (rec + 8) 4;
    let old := stale (length l) in
    modify (set_ioApics (l ++ [mkIoApic id false base (gsiLength old) (indexPort old) (dataPort old) addr]) p).
Definition addOverride (rec : Z) : bM unit :=
  bus ← num (rec + 2) 1;
  if bus =? 0 then
    gsi ← num (rec + 4) 4;
    irqSource ← num (rec + 3) 1;
    flags ← num (rec + 8) 2;
    addISAOverride gsi irqSource flags;;
    mret tt
  else mret tt.
Fixpoint records (fuel : nat) (madtContents contentLen i : Z) (apicIDs : gmap Z Z) : bM (gmap Z Z) :=
  match fuel with
  | O => nofuel
  | S fuel =>
      if contentLen <=? i then mret apicIDs
      else
        let rec := madtContents + i in
        entryType ← num rec 1;
        apicIDs ← (if entryType =? 0 then addLapic apicIDs rec
                   else if entryType =? 1 then addIoApic rec;; mret apicIDs
                   else if entryType =? 2 then addOverride rec;; mret apicIDs
                   else mret apicIDs);
        len ← num (rec + 1) 1;
        records fuel madtContents contentLen (u32 (i + len)) apicIDs
  end.

Definition readyListsOf (i : Z) (m : gmap qid ThreadInfoQueue) : gmap qid ThreadInfoQueue :=
  foldl (fun m j => <[QReady i j := emptyQueue]> m) m (seqZ 0 NROF_QUEUE_PRIORITIES).
(** The fields of processor [i]; its memory is zero. *)
Fixpoint initCpus (n : nat) (i : Z) (apicIDs : gmap Z Z) : bM unit :=
  match n with
  | O => mret tt
  | S n =>
      id ← deref (fun _ => apicIDs !! i);
      page ← onMachine (Fd.allocKPages (PAGE_SIZE * 2));
      if page =? 0 then fault                           (* the stack is written *)
      else
        modify (fun s => set_excStacks (excStacks s ++ [u64 (page + PAGE_SIZE * 2)]) s);;
        modify (fun s => set_bsched (set_queues (set_cpuInfos (bsched s) (<[Z.to_nat i := mkCpu false 0 0 false id]> (cpuInfos (bsched s))))
          (readyListsOf i (queues (bsched s)))) s);;
        initCpus n (i + 1) apicIDs
  end.

Definition acpiMadtInit (fuel : nat) (madtPaddr madtLen : Z) : bM unit :=
  madtHdr ← onMachine (ioremap madtPaddr madtLen);
  acpiVerifyChecksum madtHdr madtLen;;
  flags ← num (madtHdr + 40) 4;
  (if negb (Z.land flags 1 =? 0) then outs legacyOff else mret tt);;
  apicIDs ← records fuel (madtHdr + sizeofMadtHeader) (u64 (madtLen - sizeofMadtHeader)) 0 ∅;
  n ← gets nrofCPUs;
  p ← onMachine (Fd.kmalloc (u64 (n * sizeofCpuInfo)));
  if p =? 0 then fault                                  (* panic *)
  else
    modify (fun s => set_bsched (set_cpuInfos (bsched s) (replicate (Z.to_nat n) zeroCpu)) s);;
    initCpus (Z.to_nat n) 0 apicIDs.

(** ** [acpi.c] *)

Definition getRsdtEntryPaddr (rsdt : Z) (isXsdt : bool) (rsdtLength index : Z) : bM Z :=
  if rsdtLength <=? index then mret 0
  else if isXsdt then num (rsdt + sizeofAcpiHeader + 8 * index) 8
  else num (rsdt + sizeofAcpiHeader + 4 * index) 4.
(** The name, the length and the address of an entry that is not null. *)
Definition getRsdtEntry (rsdt : Z) (isXsdt : bool) (rsdtLength index : Z) : bM (option (list Z * Z * Z)) :=
  paddr ← getRsdtEntryPaddr rsdt isXsdt rsdtLength index;
  if paddr =? 0 then mret None
  else
    header ← onMachine (ioremap paddr sizeofAcpiHeader);
    if header =? 0 then fault                           (* panic *)
    else
      name ← bytesAt header (Z.to_nat ACPI_SIG_LEN);
      len ← num (header + 4) 4;
      onMachine (fun d => (tt, iounmap header sizeofAcpiHeader d));;
      mret (Some (name, len, paddr)).
Fixpoint tables (n : nat) (fuel : nat) (rsdt : Z) (isXsdt : bool) (rsdtLength i : Z) (foundMadt : bool) : bM bool :=
  match n with
  | O => mret foundMadt
  | S n =>
      e ← getRsdtEntry rsdt isXsdt rsdtLength i;
      foundMadt ← match e with
                  | None => mret foundMadt
                  | Some (name, len, paddr) =>
                      if negb foundMadt && bool_decide (name = madtSig) then acpiMadtInit fuel paddr len;; mret true
                      else mret foundMadt
                  end;
      tables n fuel rsdt isXsdt rsdtLength (i + 1) foundMadt
  end.
Definition acpiInit (fuel : nat) : bM unit :=
  '(rsdtHeader, isXsdt) ← acpiGetRsdt;
  length ← num (rsdtHeader + 4) 4;
  acpiVerifyChecksum rsdtHeader length;;
  length ← num (rsdtHeader + 4) 4;
  let rsdtLength := u32 (u64 (length - sizeofAcpiHeader) / (if isXsdt : bool then 8 else 4)) in
  foundMadt ← tables (Z.to_nat rsdtLength) fuel rsdtHeader isXsdt rsdtLength 0 false;
  if foundMadt : bool then mret tt else fault.          (* panic *)
End acpi.
