(* ===== verification/AcpiSpec.v ===== *)
(** * The table of interrupt controllers is read back

    A writer of tables with processors, I/O APICs and overrides, and that
    [acpiMadtInit] finds in its bytes exactly what was written; the processors
    that it makes are the empty scheduler of [ReadyQueue].  The routing of
    interrupt lines. *)

From S2P Require Import Prelude Word Errno Bytes ThreadQueue ReadyQueue IoApic Acpi.
From S2P Require Fd.

(** ** Tables *)

Inductive madtRecord :=
| Lapic (procID id flags : Z)
| IoApicRec (id reserved addr base : Z)
| Override (bus source gsi flags : Z)
| Other (type : Z) (body : list Z).
Definition encode (r : madtRecord) : list Z :=
  match r with
  | Lapic procID id flags => [0; 8; procID; id] ++ toBytes 4 flags
  | IoApicRec id reserved addr base => [1; 12; id; reserved] ++ toBytes 4 addr ++ toBytes 4 base
  | Override bus source gsi flags => [2; 10; bus; source] ++ toBytes 4 gsi ++ toBytes 2 flags
  | Other type body => [type; 2 + Z.of_nat (length body)] ++ body
  end.
Definition byte (x : Z) : Prop := 0 <= x < 256.
Definition wfRecord (r : madtRecord) : Prop :=
  match r with
  | Lapic procID id flags => byte id
  | IoApicRec id reserved addr base => byte id /\ 0 <= addr < 2 ^ 32 /\ 0 <= base < 2 ^ 32
  | Override bus source gsi flags => byte bus /\ byte source /\ 0 <= gsi < 2 ^ 32 /\ 0 <= flags < 2 ^ 16
  | Other type body => 2 < type < 256 /\ Z.of_nat (length body) < 254
  end.
Definition lapics (rs : list madtRecord) : list Z := omap (fun r => match r with Lapic _ id _ => Some id | _ => None end) rs.
(** An I/O APIC: its id, its lock, its first line and its address.  The other
    fields are read from the device later. *)
Definition ioFields (a : IoApicInfo) : Z * bool * Z * Z := (ioId a, ioLock a, gsiBase a, ioPaddr a).
Definition ioApics (rs : list madtRecord) : list (Z * bool * Z * Z) :=
  omap (fun r => match r with IoApicRec id _ addr base => Some (id, false, base, addr) | _ => None end) rs.
Definition overrides (rs : list madtRecord) : list IsaOverride :=
  omap (fun r => match r with Override bus source gsi flags => if bus =? 0 then Some (mkIsa source flags gsi) else None | _ => None end) rs.

(** The largest block of the heap, [MAX_ALLOC] of [mm/heap.c]. *)
Definition LARGEST_ALLOC : Z := 2048 * 1024.
(** What the machine promises to the boot code: [ready d k] says that the mapped
    table is in place and that [k] more allocations of legal sizes succeed. *)
Class BootOk (D : Type) `{Machine D, Fd.KernelMemory D} (tbl : gmap Z Z) (ready : D -> nat -> Prop) : Prop := {
  ready_table d k : ready d k -> tbl ⊆ vmem d;
  ready_less d k j : ready d k -> (j <= k)%nat -> ready d j;
  out_keeps p v d k : ready d k -> ready (out8 p v d) k;
  krealloc_ok p n d k : 0 < n <= LARGEST_ALLOC -> ready d (S k) -> (Fd.krealloc p n d).1 <> 0 /\ ready (Fd.krealloc p n d).2 k;
  kmalloc_ok n d k : 0 < n <= LARGEST_ALLOC -> ready d (S k) -> (Fd.kmalloc n d).1 <> 0 /\ ready (Fd.kmalloc n d).2 k;
  pages_ok n d k : 0 < n <= LARGEST_ALLOC -> ready d (S k) -> (Fd.allocKPages n d).1 <> 0 /\ ready (Fd.allocKPages n d).2 k
}.

Section madt.
Context {D : Type} {tbl : gmap Z Z} {ready : D -> nat -> Prop} `{BootOk D tbl ready} (stale : nat -> IoApicInfo).
Implicit Types s : boot D.
Notation bM := (M (boot D)).

Lemma wp_onMachine {A} (f : D -> A * D) s (Q : A -> boot D -> Prop) : Q (f (machine s)).1 (set_machine (f (machine s)).2 s) -> wp (onMachine f) s Q.
Proof. intros HQ. unfold wp, onMachine. by destruct (f (machine s)). Qed.
Lemma mapM_text (m : gmap Z Z) a l : text_at m a l -> mapM (fun k => m !! (a + Z.of_nat k)) (seq 0 (length l)) = Some l.
Proof.
  intros Ht. apply mapM_Some. apply Forall2_same_length_lookup. rewrite length_seq. split; [done|]. intros i k c Hk Hc.
  apply lookup_seq in Hk as [-> _]. by apply Ht.
Qed.
Lemma wp_bytes a l n s (Q : list Z -> boot D -> Prop) : tbl ⊆ vmem (machine s) -> text_at tbl a l -> n = length l -> Q l s -> wp (bytesAt a n) s Q.
Proof.
  intros Hs Ht -> HQ. apply wp_deref. exists l. split; [|done]. apply mapM_text. intros k c Hk. eapply lookup_weaken; [by apply Ht|done].
Qed.
Lemma wp_num a x n s (Q : Z -> boot D -> Prop) : tbl ⊆ vmem (machine s) -> text_at tbl a (toBytes n x) -> 0 <= x < 256 ^ Z.of_nat n -> Q x s -> wp (num a n) s Q.
Proof.
  intros Hs Ht Hx HQ. unfold num. rewrite wp_fmap. eapply wp_bytes; [done|exact Ht|by rewrite length_toBytes|]. by rewrite fromBytes_toBytes.
Qed.
Lemma wp_num1 a x s (Q : Z -> boot D -> Prop) : tbl ⊆ vmem (machine s) -> tbl !! a = Some x -> Q x s -> wp (num a 1) s Q.
Proof.
  intros Hs Ht HQ. unfold num. rewrite wp_fmap. eapply (wp_bytes _ [x]); [done| |done|unfold fromBytes; cbn; by rewrite Z.mul_0_r, Z.add_0_r].
  intros [|k] c Hk; [|done]. injection Hk as <-. by rewrite Z.add_0_r.
Qed.

Lemma outs_keep l d k : ready d k -> ready (foldl (fun d '(p, v) => out8 p v d) d l) k.
Proof. revert d. induction l as [|[p v] l IH]; intros d Hd; [done|]. cbn. apply IH. by apply out_keeps. Qed.

(** What the loop has found so far, with memory for [k] allocations left. *)
Record found s (apicIDs : gmap Z Z) (ids : list Z) (ios : list (Z * bool * Z * Z)) (isas : list IsaOverride) (k : nat) : Prop := {
  fd_ready : ready (machine s) k;
  fd_cpus : nrofCPUs s = Z.of_nat (length ids) /\ (length ids <= 256)%nat;
  fd_ids : forall k, (k < length ids)%nat -> apicIDs !! Z.of_nat k = ids !! k;
  fd_ios : ioFields <$> ioApicInfos s = ios;
  fd_isas : isaOverrides s = isas;
  fd_room : isaRoom s = 4 * ((Z.of_nat (length isas) + 3) / 4)
}.
Lemma fd_table s m ids ios isas k : found s m ids ios isas k -> tbl ⊆ vmem (machine s).
Proof. intros F. eapply ready_table, fd_ready, F. Qed.
Lemma found_less s m ids ios isas k j : found s m ids ios isas k -> (j <= k)%nat -> found s m ids ios isas j.
Proof. intros [] Hj. split; try done. by eapply ready_less. Qed.
Lemma addLapic_found s m ids ios isas k rec id : found s m ids ios isas k -> tbl !! (rec + 3) = Some id ->
  wp (addLapic m rec) s (fun m' s' => found s' m' (take 256 (ids ++ [id])) ios isas k /\ bsched s' = bsched s).
Proof.
  intros F Hid. pose proof (fd_table _ _ _ _ _ _ F) as Htb. destruct F as [F1 [F2 F3] F4 F5 F6 F7]. unfold addLapic. apply wp_bind. eapply wp_num1; [done|exact Hid|]. apply wp_bind, wp_gets.
  rewrite F2. unfold APIC_BUFFER_SIZE. destruct (Z.ltb_spec (Z.of_nat (length ids)) 256).
  - apply wp_bind, wp_modify, wp_ret. split; [|done]. rewrite take_ge by (rewrite length_app; cbn; lia). split; cbn; try done.
    + rewrite length_app, uwrap_small; cbn; lia.
    + intros j Hj. rewrite length_app in Hj. cbn in Hj. destruct (decide (j = length ids)) as [->|Hne].
      * by rewrite lookup_insert_eq, list_lookup_middle.
      * rewrite lookup_insert_ne by lia. rewrite lookup_app_l by lia. apply F4. lia.
  - apply wp_ret. split; [|done]. rewrite take_app_le, take_ge by lia. by split.
Qed.
Lemma addIoApic_found s m ids ios isas k rec id addr base : found s m ids ios isas (S k) -> Z.of_nat (length ios) < 50000 ->
  tbl !! (rec + 2) = Some id -> text_at tbl (rec + 4) (toBytes 4 addr) -> text_at tbl (rec + 8) (toBytes 4 base) -> 0 <= addr < 2 ^ 32 -> 0 <= base < 2 ^ 32 ->
  wp (addIoApic stale rec) s (fun _ s' => found s' m ids (ios ++ [(id, false, base, addr)]) isas k /\ bsched s' = bsched s).
Proof.
  intros [F3 F4 F5 F6 F7 F8] Hn Hid Ha Hb Har Hbr. assert (Hl : length (ioApicInfos s) = length ios) by (by rewrite <- F6, length_fmap).
  unfold addIoApic. apply wp_bind, wp_gets, wp_bind, wp_gets, wp_bind, wp_onMachine. rewrite Hl. set (size := u64 _).
  assert (Hsz : 0 < size <= LARGEST_ALLOC) by (unfold size, sizeofIoApicInfo, LARGEST_ALLOC; rewrite (uwrap_small 32), uwrap_small by lia; lia).
  destruct (krealloc_ok (ioApicPtr s) size (machine s) k Hsz F3) as [Hp Hr]. set (s1 := set_machine _ s). assert (Hs1 : tbl ⊆ vmem (machine s1)) by (by eapply ready_table).
  rewrite (proj2 (Z.eqb_neq _ 0)) by done. apply wp_bind. eapply wp_num1; [done|exact Hid|].
  apply wp_bind. eapply wp_num; [done|exact Ha|lia|]. apply wp_bind. eapply wp_num; [done|exact Hb|lia|]. apply wp_modify. split; [|done].
  split; cbn; try done. by rewrite fmap_app, F6.
Qed.
Lemma addISAOverride_found s m ids ios isas k dst src flags : found s m ids ios isas (S k) -> Z.of_nat (length isas) < 50000 ->
  wp (addISAOverride dst src flags) s (fun r s' => r = 0 /\ found s' m ids ios (isas ++ [mkIsa src flags dst]) k /\ bsched s' = bsched s).
Proof.
  intros [F3 F4 F5 F6 F7 F8] Hlen. unfold addISAOverride. apply wp_bind, wp_get. rewrite F7. set (n := Z.of_nat (length isas)) in *. unfold ISA_LIST_INC. apply wp_bind.
  apply (wp_mono _ _ (fun ok s1 => ok = true /\ ready (machine s1) k /\ nrofCPUs s1 = nrofCPUs s /\ ioApicInfos s1 = ioApicInfos s /\ isaOverrides s1 = isas /\ isaRoom s1 = 4 * ((n + 1 + 3) / 4) /\ bsched s1 = bsched s)).
  { destruct (Z.eqb_spec (n mod 4) 0) as [E|E].
    - apply wp_bind, wp_onMachine. set (size := u64 _).
      assert (Hsz : 0 < size <= LARGEST_ALLOC) by (unfold size, sizeofIsaOverride, LARGEST_ALLOC; rewrite (uwrap_small 32), uwrap_small by lia; lia).
      destruct (krealloc_ok (isaPtr s) size (machine s) k Hsz F3) as [Hp Hr]. rewrite (proj2 (Z.eqb_neq _ 0)) by done. apply wp_bind, wp_modify, wp_ret. split_and!; try done.
      cbn. rewrite uwrap_small by lia. revert E. clear. dlia.
    - apply wp_ret. split_and!; try done; [eapply ready_less; [exact F3|lia]|]. rewrite F8. revert E. clear. dlia. }
  intros ok s1 (-> & I1 & I2 & I3 & I4 & I5 & I6). cbn [negb]. apply wp_bind, wp_gets. rewrite I5. rewrite (proj2 (Z.ltb_lt _ _)) by (clear; dlia).
  apply wp_bind, wp_modify, wp_ret. split; [done|]. split; [|done]. split; cbn; try done; [by rewrite I2|by rewrite I3|by rewrite I4|]. rewrite I5, length_app. cbn [length]. fold n. f_equal. f_equal. lia.
Qed.

(** The lists of the table that starts with [rs], in its order. *)
Definition seen (rs : list madtRecord) s (apicIDs : gmap Z Z) (k : nat) : Prop := found s apicIDs (take 256 (lapics rs)) (ioApics rs) (overrides rs) k.
Lemma lapics_snoc rs r : lapics (rs ++ [r]) = lapics rs ++ lapics [r].
Proof. apply omap_app. Qed.
Lemma take_take_snoc (l : list Z) x : take 256 (take 256 l ++ [x]) = take 256 (l ++ [x]).
Proof.
  destruct (Nat.le_gt_cases 256 (length l)).
  - rewrite (take_app_le l) by lia. rewrite take_app_le by (rewrite length_take; lia). by rewrite take_take.
  - by rewrite (take_ge l) by lia.
Qed.
Lemma length_omap_le {A B} (f : A -> option B) l : (length (omap f l) <= length l)%nat.
Proof. induction l as [|x l IH]; [done|]. cbn. destruct (f x); cbn; lia. Qed.
Lemma text_byte m a l i c : text_at m a l -> l !! Z.to_nat i = Some c -> 0 <= i -> m !! (a + i) = Some c.
Proof. intros Ht Hi Hi0. rewrite <- (Ht _ _ Hi). f_equal. lia. Qed.

(** One turn of the loop. *)
Lemma record_step fuel base contentLen pos pre r s m k (Q : gmap Z Z -> boot D -> Prop) : wfRecord r -> seen pre s m (S k) -> text_at tbl (base + pos) (encode r) ->
  0 <= pos -> pos + Z.of_nat (length (encode r)) <= contentLen -> contentLen < 2 ^ 32 -> Z.of_nat (length pre) < 50000 ->
  (forall m' s', seen (pre ++ [r]) s' m' k -> bsched s' = bsched s -> wp (records stale fuel base contentLen (pos + Z.of_nat (length (encode r))) m') s' Q) ->
  wp (records stale (S fuel) base contentLen pos m) s Q.
Proof.
  intros Hw Hseen Ht Hpos Hend Hcl Hpre HQ. cbn [records].
  assert (Hr : exists ty, encode r !! 0%nat = Some ty /\ encode r !! 1%nat = Some (Z.of_nat (length (encode r))) /\ 2 <= Z.of_nat (length (encode r)) < 256 /\
    ty = match r with Lapic _ _ _ => 0 | IoApicRec _ _ _ _ => 1 | Override _ _ _ _ => 2 | Other ty _ => ty end).
  { destruct r as [p i f|i rv ad ba|bu so g f|ty body]; cbn [encode]; [exists 0|exists 1|exists 2|exists ty].
    all: rewrite ?length_app, ?length_toBytes; cbn [length app lookup list_lookup]; rewrite ?length_toBytes; split_and!; try done; try lia.
    - repeat f_equal. lia.
    - destruct Hw. lia. }
  destruct Hr as (ty & Hty & Hl & Hlr & Ety).
  rewrite (proj2 (Z.leb_gt _ _)) by lia. apply wp_bind. pose proof (fd_table _ _ _ _ _ _ Hseen) as Htb. eapply wp_num1; [exact Htb|rewrite <- (Z.add_0_r (base + pos)); by eapply text_byte|].
  assert (Hnext : forall m' s', seen (pre ++ [r]) s' m' k -> bsched s' = bsched s -> wp (len ← num (base + pos + 1) 1; records stale fuel base contentLen (u32 (pos + len)) m') s' Q).
  { intros m' s' Hs' Hb. apply wp_bind. eapply wp_num1; [by eapply fd_table, Hs'|by eapply text_byte|]. rewrite uwrap_small by lia. by apply HQ. }
  unfold seen, ioApics, overrides in *. rewrite lapics_snoc, !omap_app in Hnext. apply wp_bind.
  destruct r as [p i f|i rv ad ba|bu so g f|t body]; rewrite Ety; cbn [Z.eqb encode] in *; cbn [lapics omap list_omap] in Hnext; rewrite ?app_nil_r in Hnext.
  - eapply wp_mono; [eapply addLapic_found; [eapply (found_less _ _ _ _ _ (S k) k); [exact Hseen|lia]|by eapply text_byte]|]. intros m' s' [Hs Hb]. apply Hnext; [|done]. by rewrite <- take_take_snoc.
  - destruct Hw as (? & ? & ?). apply (text_at_app _ _ [1; 12; i; rv]) in Ht as Ht'. destruct Ht' as [_ Ht']. apply text_at_app in Ht' as [Ha Hb]. rewrite length_toBytes in Hb. cbn [length] in Ha, Hb.
    apply wp_bind. eapply wp_mono; [eapply addIoApic_found; [exact Hseen|eapply Z.le_lt_trans; [apply inj_le, length_omap_le|exact Hpre]|by eapply text_byte|exact Ha|replace (base + pos + 8) with (base + pos + Z.of_nat 4 + Z.of_nat 4) by lia; exact Hb|done|done]|].
    intros _ s' [Hs Hsb]. apply wp_ret. by apply Hnext.
  - destruct Hw as (? & ? & ? & ?). apply (text_at_app _ _ [2; 10; bu; so]) in Ht as Ht'. destruct Ht' as [_ Ht']. apply text_at_app in Ht' as [Ha Hb]. rewrite length_toBytes in Hb. cbn [length] in Ha, Hb.
    apply wp_bind. unfold addOverride. apply wp_bind. eapply wp_num1; [exact Htb|by eapply text_byte|].
    destruct (bu =? 0); cbn [list_omap] in Hnext; rewrite ?app_nil_r in Hnext; [|apply wp_ret, wp_ret; apply Hnext; [eapply (found_less _ _ _ _ _ (S k) k); [exact Hseen|lia]|done]].
    apply wp_bind. eapply wp_num; [exact Htb|exact Ha|lia|]. apply wp_bind. eapply wp_num1; [exact Htb|by eapply text_byte|].
    apply wp_bind. eapply (wp_num _ f); [exact Htb|replace (base + pos + 8) with (base + pos + Z.of_nat 4 + Z.of_nat 4) by lia; exact Hb|done|].
    apply wp_bind. eapply wp_mono; [eapply addISAOverride_found; [exact Hseen|]|].
    + pose proof (length_omap_le (fun r => match r with Override bus source gsi flags => if bus =? 0 then Some (mkIsa source flags gsi) else None | _ => None end) pre). lia.
    + intros _ s' (_ & Hs & Hsb). apply wp_ret, wp_ret. by apply Hnext.
  - destruct Hw as [Hw _]. rewrite !(proj2 (Z.eqb_neq t _)) by lia. apply wp_ret. apply Hnext; [eapply (found_less _ _ _ _ _ (S k) k); [exact Hseen|lia]|done].
Qed.
Lemma encode_length r : (2 <= length (encode r))%nat.
Proof. destruct r; cbn; rewrite ?length_app, ?length_toBytes; lia. Qed.
Lemma records_spec rs : forall fuel base contentLen pos pre s m k (Q : gmap Z Z -> boot D -> Prop), Forall wfRecord rs -> seen pre s m (length rs + k) -> text_at tbl (base + pos) (concat (encode <$> rs)) ->
  0 <= pos -> contentLen = pos + Z.of_nat (length (concat (encode <$> rs))) -> contentLen < 2 ^ 32 -> Z.of_nat (length pre + length rs) <= 50000 -> (length rs < fuel)%nat ->
  (forall m' s', seen (pre ++ rs) s' m' k -> bsched s' = bsched s -> Q m' s') ->
  wp (records stale fuel base contentLen pos m) s Q.
Proof.
  induction rs as [|r rs IH]; intros [|fuel] base contentLen pos pre s m k Q Hw Hs Ht Hp Hc Hcl Hpre Hf HQ; try (cbn in Hf; lia).
  - cbn [records]. rewrite (proj2 (Z.leb_le _ _)) by (cbn in Hc; lia). apply wp_ret. apply HQ; [by rewrite app_nil_r|done].
  - apply Forall_cons in Hw as [Hw Hws]. cbn [fmap list_fmap concat] in Ht, Hc. change (list_fmap _ _ encode rs) with (encode <$> rs) in *. rewrite length_app in Hc. apply text_at_app in Ht as [Hr Hrs].
    pose proof (encode_length r) as Hel. cbn [length] in Hpre. eapply record_step; [done|exact Hs|exact Hr|done|lia|done|lia|]. intros m' s' Hs' Hb.
    eapply (IH fuel base contentLen _ (pre ++ [r]) _ _ k); [done|exact Hs'|by rewrite Z.add_assoc|lia|lia|done|rewrite length_app; cbn [length]; lia|cbn in Hf; lia|].
    intros m2 s2 H2' Hb2. apply HQ; [by rewrite <- app_assoc in H2'|by rewrite Hb2].
Qed.

(** ** The processors *)

Lemma readyListsOf_lookup i q m : readyListsOf i m !! q = match q with QReady c j => if decide (c = i /\ valid_priority j) then Some emptyQueue else m !! q | _ => m !! q end.
Proof.
  unfold readyListsOf. change (seqZ 0 Acpi.NROF_QUEUE_PRIORITIES) with [0; 1; 2; 3; 4; 5; 6; 7]. cbn [foldl].
  assert (Hj : forall j, valid_priority j <-> j = 7 \/ j = 6 \/ j = 5 \/ j = 4 \/ j = 3 \/ j = 2 \/ j = 1 \/ j = 0) by (intros j; unfold valid_priority, ReadyQueue.NROF_QUEUE_PRIORITIES; lia).
  destruct q as [c j| | |]; [|by rewrite !lookup_insert_ne by done..].
  destruct (decide _) as [[-> Hv]|Hn].
  - apply Hj in Hv. repeat first [rewrite lookup_insert_eq|rewrite lookup_insert_ne by congruence]. destruct_or! Hv; subst;
      repeat first [by rewrite lookup_insert_eq|rewrite lookup_insert_ne by done].
  - rewrite Hj in Hn. by rewrite !lookup_insert_ne by (intros [= <- <-]; apply Hn; split; [done|lia]).
Qed.
Definition bootCpu (id : Z) : CpuInfo := mkCpu false 0 0 false id.
(** The first [i] processors are ready. *)
Record initialised (ids : list Z) (i : Z) s : Prop := {
  in_cpus : cpuInfos (bsched s) = (bootCpu <$> take (Z.to_nat i) ids) ++ replicate (length ids - Z.to_nat i) zeroCpu;
  in_queues : forall c j, 0 <= c < i -> valid_priority j -> queues (bsched s) !! QReady c j = Some emptyQueue
}.
Lemma initCpus_spec n : forall i ids m s, initialised ids i s -> ready (machine s) n -> 0 <= i -> i + Z.of_nat n = Z.of_nat (length ids) ->
  (forall k, (k < length ids)%nat -> m !! Z.of_nat k = ids !! k) ->
  wp (initCpus n i m) s (fun _ s' => initialised ids (Z.of_nat (length ids)) s' /\ qes (bsched s') = qes (bsched s) /\ nrofCPUs s' = nrofCPUs s /\ ioApicInfos s' = ioApicInfos s /\ isaOverrides s' = isaOverrides s).
Proof.
  induction n as [|n IH]; intros i ids m s Hin Hrd Hi Hn Hm; cbn [initCpus].
  { apply wp_ret. assert (i = Z.of_nat (length ids)) as <- by lia. done. }
  destruct (lookup_lt_is_Some_2 ids (Z.to_nat i)) as [id Hid]; [lia|]. apply wp_bind, wp_deref. exists id. split.
  { rewrite <- Hid, <- Hm by lia. f_equal. lia. }
  apply wp_bind, wp_onMachine. destruct (pages_ok (PAGE_SIZE * 2) (machine s) n ltac:(done) Hrd) as [Hpg Hrd']. rewrite (proj2 (Z.eqb_neq _ 0)) by done. do 2 apply wp_bind, wp_modify.
  destruct Hin as [T2 T3]. eapply wp_mono; [apply (IH (i + 1) ids m); [|exact Hrd'|lia|lia|exact Hm]|].
  - split; cbn.
    + rewrite T2. pose proof (lookup_lt_Some _ _ _ Hid). rewrite insert_app_r_alt by (rewrite length_fmap, length_take; lia). rewrite length_fmap, length_take, Nat.min_l, Nat.sub_diag by lia.
      replace (length ids - Z.to_nat i)%nat with (S (length ids - Z.to_nat (i + 1))) by lia. cbn [replicate].
      replace (Z.to_nat (i + 1)) with (S (Z.to_nat i)) by lia. rewrite (take_S_r _ _ _ Hid), fmap_app, <- app_assoc. done.
    + intros c j Hc Hj. rewrite readyListsOf_lookup. destruct (decide _) as [|Hne]; [done|]. apply T3; [|done]. destruct (Z.eq_dec c i) as [->|]; [exfalso; by apply Hne|lia].
  - intros _ s' (I1 & I2 & I3 & I4 & I5). by split_and!.
Qed.

(** C20: [acpiMadtInit] reads back what a table of interrupt controllers says:
    the processors are the first 256 local APICs, the I/O APICs and the
    overrides of ISA lines come in the order of the table, records of other
    types and other buses change nothing; and the processors are an empty
    scheduler, all ready lists empty and their locks free.  The table lists a
    local APIC ([no_processor_panics]) and at most 50000 records, so that the
    lists stay below the largest block, none of length 0; the lists are empty
    before; and there is memory: one allocation per record, the processors and
    their stacks. *)
Theorem acpiMadtInit_roundtrip s fuel paddr base h1 flags rs :
  let table := h1 ++ toBytes 4 flags ++ concat (encode <$> rs) in
  Forall wfRecord rs -> lapics rs <> [] -> Z.of_nat (length rs) <= 50000 -> length h1 = 40%nat -> 0 <= flags < 2 ^ 32 -> Z.of_nat (length table) < 2 ^ 32 -> (length rs < fuel)%nat ->
  (ioremap paddr (Z.of_nat (length table)) (machine s)).1 = base -> ready (ioremap paddr (Z.of_nat (length table)) (machine s)).2 (length rs + 257) -> text_at tbl base table ->
  nrofCPUs s = 0 -> ioApicInfos s = [] -> isaOverrides s = [] -> isaRoom s = 0 -> qes (bsched s) = ∅ ->
  wp (acpiMadtInit stale fuel paddr (Z.of_nat (length table))) s (fun _ s' =>
    cpuInfos (bsched s') = bootCpu <$> take 256 (lapics rs) /\ nrofCPUs s' = Z.of_nat (length (take 256 (lapics rs))) /\
    ioFields <$> ioApicInfos s' = ioApics rs /\ isaOverrides s' = overrides rs /\ sched_inv (bsched s') (fun _ _ => [])).
Proof.
  intros table Hw Hcpu Hmany Hh1 Hfl Hlen Hfuel Hbase Hmap Ht N1 N2 N3 N4 N5. unfold acpiMadtInit. apply wp_bind, wp_onMachine. rewrite Hbase. set (s1 := set_machine _ s).
  assert (Hl : length table = (44 + length (concat (encode <$> rs)))%nat) by (unfold table; rewrite !length_app, length_toBytes; lia).
  assert (Htb : tbl ⊆ vmem (machine s1)) by (by eapply ready_table).
  apply wp_bind. unfold acpiVerifyChecksum. apply wp_bind. eapply (wp_bytes base table); [exact Htb|exact Ht|lia|]. apply wp_ret.
  unfold table in Ht. apply text_at_app in Ht as [_ Ht]. apply text_at_app in Ht as [Hf Hrs]. rewrite Hh1 in Hf, Hrs. rewrite length_toBytes in Hrs.
  apply wp_bind. eapply (wp_num _ flags); [exact Htb|exact Hf|lia|].
  apply wp_bind, (wp_mono _ _ (fun _ s2 => ready (machine s2) (length rs + 257) /\ nrofCPUs s2 = nrofCPUs s /\ ioApicInfos s2 = ioApicInfos s /\ isaOverrides s2 = isaOverrides s /\ isaRoom s2 = isaRoom s /\ bsched s2 = bsched s)).
  { destruct (negb _); [|by apply wp_ret]. apply wp_modify. split_and!; try done. by apply outs_keep. }
  intros _ s2 (M1 & M2 & M3 & M4 & M5 & M6). rewrite uwrap_small by (unfold sizeofMadtHeader; lia).
  apply wp_bind. eapply (records_spec rs _ _ _ 0 [] _ _ 257); [exact Hw| |unfold sizeofMadtHeader; rewrite Z.add_0_r; replace (base + 44) with (base + Z.of_nat 40 + Z.of_nat 4) by lia; exact Hrs|done|unfold sizeofMadtHeader; lia|unfold sizeofMadtHeader; lia|done|done|].
  { split; cbn; [done|by rewrite M2, N1; split; [|lia]|intros k Hk; lia|by rewrite M3, N2|by rewrite M4|by rewrite M5]. }
  intros m s3 [G1 [G2 G3] G4 G5 G6 G7] Gb. cbn [app] in *. apply wp_bind, wp_gets, wp_bind, wp_onMachine. set (ids := take 256 (lapics rs)) in *.
  assert (Hne : (1 <= length ids)%nat) by (unfold ids; rewrite length_take; destruct (lapics rs); [done|cbn [length]; lia]). rewrite G2.
  set (size := u64 _). assert (Hsz : 0 < size <= LARGEST_ALLOC) by (unfold size, sizeofCpuInfo, LARGEST_ALLOC; rewrite uwrap_small; lia).
  destruct (kmalloc_ok size (machine s3) 256 Hsz G1) as [Hp Hrd]. rewrite (proj2 (Z.eqb_neq _ 0)) by done. apply wp_bind, wp_modify.
  rewrite Nat2Z.id. eapply wp_mono; [apply (initCpus_spec (length ids) 0 ids m)|].
  - split; cbn; [by rewrite Nat.sub_0_r|lia].
  - eapply ready_less; [exact Hrd|lia].
  - done.
  - done.
  - exact G4.
  - cbn. intros _ s' ([I2 I3] & I4 & I5 & I6 & I7). rewrite Nat2Z.id, take_ge, Nat.sub_diag, app_nil_r in I2 by done.
    split_and!; [done|by rewrite I5|by rewrite I6|by rewrite I7|]. split.
    + intros c j Hc Hj. rewrite I2, length_fmap in Hc. by apply empty_queue_rep, I3.
    + intros k c Hc. rewrite I2, list_lookup_fmap in Hc. destruct (ids !! k); [|done]. by injection Hc as <-.
    + rewrite I4, Gb, M6, N5. by vm_compute.
Qed.
End madt.

(** ** Interrupt lines *)

Section lines.
Context {D : Type} `{Machine D, Fd.KernelMemory D}.
Implicit Types s : boot D.

Lemma wp_onDevice {A} (f : D -> A * D) s (Q : A -> boot D -> Prop) : Q (f (machine s)).1 (set_machine (f (machine s)).2 s) -> wp (onMachine f) s Q.
Proof. intros HQ. unfold wp, onMachine. by destruct (f (machine s)). Qed.
Lemma wp_updIo i a f s (Q : unit -> boot D -> Prop) : ioApicInfos s !! i = Some a -> Q tt (set_ioApics (<[i := f a]> (ioApicInfos s)) (ioApicPtr s) s) -> wp (updIo i f) s Q.
Proof. intros Ha HQ. unfold updIo. apply wp_bind, wp_deref. exists a. split; [done|]. by apply wp_modify. Qed.
Lemma wp_getIo i a s (Q : IoApicInfo -> boot D -> Prop) : ioApicInfos s !! i = Some a -> Q a s -> wp (getIo i) s Q.
Proof. intros Ha HQ. apply wp_deref. eauto. Qed.

Definition modeBits : Z := Z.lor HWIRQ_FLAG_POLARITY HWIRQ_FLAG_TRIGGER.
Lemma land_modeBits x : 0 <= Z.land x modeBits < 2 ^ 16.
Proof.
  assert (E : Z.land x modeBits = Z.land x modeBits mod 2 ^ 16).
  { rewrite <- Z.land_ones by lia. rewrite <- Z.land_assoc. done. }
  rewrite E. apply Z.mod_pos_bound. lia.
Qed.
(** The two halves of a redirection entry. *)
Lemma entry_halves x id : 0 <= x < 2 ^ 32 -> 0 <= id < 256 ->
  u32 (Z.lor x (u64 (Z.shiftl id IORED_APIC_ID_SHIFT))) = x /\ u32 (Z.shiftr (Z.lor x (u64 (Z.shiftl id IORED_APIC_ID_SHIFT))) 32) = id * 2 ^ 24.
Proof.
  intros Hx Hid. unfold IORED_APIC_ID_SHIFT. rewrite (uwrap_small 64) by (rewrite Z.shiftl_mul_pow2 by lia; lia).
  assert (E1 : Z.shiftl id 56 mod 2 ^ 32 = 0) by (rewrite Z.shiftl_mul_pow2 by lia; revert Hid; clear; dlia).
  split.
  - unfold uwrap. rewrite <- Z.land_ones, Z.land_lor_distr_l, !Z.land_ones by lia. rewrite E1, Z.lor_0_r, Z.mod_small; lia.
  - rewrite Z.shiftr_lor, (Z.shiftr_div_pow2 x), Z.div_small, Z.lor_0_l by lia. rewrite Z.shiftr_shiftl_l by lia. rewrite Z.shiftl_mul_pow2 by lia. apply uwrap_small; lia.
Qed.

(** [routeIrqLine] of a line that an I/O APIC serves: the vector is
    remembered for the line, and the redirection entry of the line is written,
    first its low half with the vector and the mode (the one that was asked for,
    or the one that the entry had), then its high half with this processor; an
    ISA line is that of its override. *)
Theorem routeIrqLine_correct s vec irq flags gsi fl i a cpu :
  isaLine (isaOverrides s) irq flags = (gsi, fl) -> 0 <= gsi < Z.of_nat (length (gsiToVec s)) ->
  list_find (fun a => Is_true (inRange gsi a)) (ioApicInfos s) = Some (i, a) -> ioLock a = false -> gsi - gsiBase a < 256 ->
  cpuInfos (bsched s) !! Z.to_nat (thisCpu (bsched s)) = Some cpu -> 0 <= apicID cpu < 256 -> 0 <= vec < 256 ->
  wp (routeIrqLine vec irq flags) s (fun r s' => r = 0 /\ gsiToVec s' = <[Z.to_nat gsi := vec]> (gsiToVec s) /\ ioApicInfos s' = ioApicInfos s /\
    let reg := REG_IORED_BASE + (gsi - gsiBase a) * 2 in
    let d1 := write32 (indexPort a) reg (machine s) in
    let '(mode, d2) := if Z.land fl HWIRQ_FLAG_CUSTOM =? 0 then (Z.land (read32 (dataPort a) d1).1 modeBits, (read32 (dataPort a) d1).2) else (Z.land fl modeBits, d1) in
    machine s' = write32 (dataPort a) (apicID cpu * 2 ^ 24) (write32 (indexPort a) (reg + 1) (write32 (dataPort a) (Z.lor mode vec) d2))).
Proof.
  intros Hline Hgsi Hfind Hlock Hrange Hcpu Hid Hvec. pose proof (proj1 (list_find_Some _ _ _ _) Hfind) as (Ha & Hin & _).
  unfold inRange in Hin. apply andb_prop_elim in Hin as [Hge%Is_true_eq_true%Z.leb_le _].
  unfold routeIrqLine. apply wp_bind, wp_gets. rewrite Hline. apply wp_bind, wp_gets, wp_bind. rewrite (proj2 (Z.ltb_lt _ _)) by lia. apply wp_modify.
  set (s1 := set_gsiToVec _ s). apply wp_bind, wp_gets. change (ioApicInfos s1) with (ioApicInfos s). rewrite Hfind. cbn [fmap option_fmap option_map fst].
  assert (Hi : (i < length (ioApicInfos s))%nat) by (by eapply lookup_lt_Some).
  apply wp_bind. unfold acquireIo. apply wp_bind. eapply wp_getIo; [exact Ha|]. rewrite Hlock. eapply wp_updIo; [exact Ha|]. set (s2 := set_ioApics _ _ s1).
  apply wp_bind. eapply (wp_getIo i (io_lock true a)); [cbn; by apply list_lookup_insert_eq|]. cbn [gsiBase indexPort dataPort io_lock].
  rewrite (uwrap_small 32 (REG_IORED_BASE + _)) by (unfold REG_IORED_BASE; lia). set (reg := REG_IORED_BASE + _).
  apply wp_bind. unfold wr at 1. apply wp_onDevice. change (machine s2) with (machine s). cbn [fst snd]. set (d1 := write32 _ reg _).
  apply wp_bind, (wp_mono _ _ (fun mode s3 => exists d2, s3 = set_machine d2 s2 /\ 0 <= mode < 2 ^ 16 /\
    (mode, d2) = if Z.land fl HWIRQ_FLAG_CUSTOM =? 0 then (Z.land (read32 (dataPort a) d1).1 modeBits, (read32 (dataPort a) d1).2) else (Z.land fl modeBits, d1))).
  { destruct (_ =? 0).
    - apply wp_bind. unfold rd. apply wp_onDevice. cbn [machine set_machine]. apply wp_ret. eexists. split_and!; [done|apply land_modeBits..|done].
    - apply wp_ret. eexists. split_and!; [done|apply land_modeBits..|done]. }
  intros mode ? (d2 & -> & Hmode & <-). apply wp_bind. unfold thisApicID. apply wp_deref. exists (apicID cpu). split; [cbn; by rewrite Hcpu|].
  change 255 with (Z.ones 8). rewrite Z.land_ones, Z.mod_small by lia.
  assert (Hval : 0 <= Z.lor mode vec < 2 ^ 32).
  { assert (E : Z.lor mode vec = Z.lor mode vec mod 2 ^ 16) by (rewrite <- Z.land_ones, Z.land_lor_distr_l, !Z.land_ones by lia; by rewrite !Z.mod_small by lia).
    rewrite E. pose proof (Z.mod_pos_bound (Z.lor mode vec) (2 ^ 16)). lia. }
  destruct (entry_halves _ _ Hval Hid) as [-> ->]. rewrite (uwrap_small 32 (reg + 1)) by (unfold reg, REG_IORED_BASE; lia). unfold wr.
  do 3 (apply wp_bind, wp_onDevice). cbn [fst snd machine set_machine]. apply wp_bind. unfold releaseIo. eapply wp_updIo; [cbn; by apply list_lookup_insert_eq|]. apply wp_ret.
  split_and!; [done|done| |done]. cbn. rewrite list_insert_insert_eq. apply list_insert_id. rewrite Ha. f_equal. destruct a. cbn in Hlock |- *. by rewrite Hlock.
Qed.

(** [ioApicInit] takes the number of the last entry for the number of entries:
    the last line of an I/O APIC belongs to no APIC. *)
Theorem last_line_not_routed s vec a : ioApicInfos s = [a] -> 0 <= gsiBase a -> 0 <= gsiLength a < 256 -> gsiBase a + gsiLength a < Z.of_nat (length (gsiToVec s)) -> gsiBase a + gsiLength a < 2 ^ 32 ->
  wp (routeIrqLine vec (gsiBase a + gsiLength a) 0) s (fun r s' => r = 1 /\ machine s' = machine s).
Proof.
  intros Ha Hb Hl Hlen Hw. unfold routeIrqLine. apply wp_bind, wp_gets. cbn [isaLine Z.land Z.eqb negb]. apply wp_bind, wp_gets, wp_bind. rewrite (proj2 (Z.ltb_lt _ _)) by lia. apply wp_modify.
  apply wp_bind, wp_gets. cbn [ioApicInfos set_gsiToVec]. rewrite Ha. cbn. unfold inRange. rewrite (uwrap_small 32) by lia. rewrite Z.ltb_irrefl, andb_false_r. cbn. by apply wp_ret.
Qed.
(** Polarity 0 means that of the bus, which is active high on ISA; it is taken
    for active low. *)
Theorem isa_default_active_low l irq gsi : Z.land (isaLine (mkIsa irq 0 gsi :: l) irq HWIRQ_FLAG_ISA).2 HWIRQ_FLAG_POLARITY = HWIRQ_FLAG_POLARITY.
Proof. unfold isaLine. cbn [findIsa isaSource]. by rewrite Z.eqb_refl. Qed.
Lemma num_done a c (s : boot D) : vmem (machine s) !! a = Some c -> num a 1 s = Done (c, s).
Proof.
  intros Hc. unfold num, bytesAt, deref, fmap, M_fmap, mbind, M_bind. cbn. rewrite Z.add_0_r, Hc. cbn. unfold fromBytes. cbn. by rewrite Z.mul_0_r, Z.add_0_r.
Qed.
(** A record of length 0 is read for ever. *)
Theorem record_without_length stale fuel base len s m : vmem (machine s) !! base = Some 9 -> vmem (machine s) !! (base + 1) = Some 0 -> 0 < len -> records (D := D) stale fuel base len 0 m s = NoFuel.
Proof.
  intros Ht Hl Hlen. induction fuel as [|fuel IH]; [done|]. cbn [records]. rewrite (proj2 (Z.leb_gt _ _)) by lia. rewrite Z.add_0_r.
  unfold mbind, M_bind. rewrite (num_done _ _ _ Ht). cbn [Z.eqb Pos.eqb]. unfold mret, M_ret. rewrite (num_done _ _ _ Hl). exact IH.
Qed.
End lines.

(** ** Witnesses *)

Section witnesses.
(** A machine that remembers what is written to it. *)
Record recorder := mkRecorder { contents : gmap Z Z; written : list (Z * Z); nextPage : Z }.
#[local] Instance recorder_machine : Machine recorder := {
  vmem := contents;
  ioremap p _ d := (p, d);
  iounmap _ _ d := d;
  read32 _ d := (0x2000, d);
  write32 a v d := mkRecorder (contents d) (written d ++ [(a, v)]) (nextPage d);
  out8 p v d := mkRecorder (contents d) (written d ++ [(p, v)]) (nextPage d)
}.
(** Memory up to a gigabyte; sizes that are not legal are refused. *)
Definition MEMORY_END : Z := 2 ^ 30.
Definition take_memory (n : Z) (d : recorder) : Z * recorder :=
  if (0 <? n) && (n <=? LARGEST_ALLOC) && (0 <? nextPage d) && (nextPage d + n <=? MEMORY_END)
  then (nextPage d, mkRecorder (contents d) (written d) (nextPage d + n)) else (0, d).
#[local] Instance recorder_memory : Fd.KernelMemory recorder := {
  Fd.kmalloc := take_memory;
  Fd.krealloc _ := take_memory;
  Fd.kfree _ d := d;
  Fd.allocKPages := take_memory;
  Fd.deallocPages _ _ d := d
}.
Definition recorder_ready (tbl : gmap Z Z) (d : recorder) (k : nat) : Prop :=
  tbl ⊆ contents d /\ 0 < nextPage d /\ nextPage d + Z.of_nat k * LARGEST_ALLOC <= MEMORY_END.
Lemma take_memory_ok tbl n d k : 0 < n <= LARGEST_ALLOC -> recorder_ready tbl d (S k) -> (take_memory n d).1 <> 0 /\ recorder_ready tbl (take_memory n d).2 k.
Proof.
  intros Hn (Ht & Hp & Hroom). unfold take_memory, recorder_ready, LARGEST_ALLOC, MEMORY_END in *.
  rewrite (proj2 (Z.ltb_lt 0 n)), (proj2 (Z.leb_le n _)), (proj2 (Z.ltb_lt 0 (nextPage d))), (proj2 (Z.leb_le (nextPage d + n) _)) by lia.
  cbn [andb fst snd contents nextPage]. split_and!; [lia|done|lia..].
Qed.
#[local] Instance recorder_ok tbl : BootOk recorder tbl (recorder_ready tbl).
Proof.
  split; try (intros; by eapply take_memory_ok).
  - by intros d k [? _].
  - intros d k j (? & ? & ?) Hj. unfold recorder_ready, LARGEST_ALLOC, MEMORY_END in *. split_and!; [done|done|lia].
  - intros p v d k Hd. exact Hd.
Qed.
Definition noIo (_ : nat) : IoApicInfo := mkIoApic 7 true 7 7 7 7 7.

Definition demoRecords : list madtRecord := [Lapic 0 0 1; Lapic 1 2 1; IoApicRec 8 0 0xFEC00000 0; Other 4 [255; 0; 0; 1]; Override 0 0 2 0; Override 1 5 5 0].
Definition demoHeader : list Z := madtSig ++ replicate 36 0.
Definition demoTable : list Z := demoHeader ++ toBytes 4 1 ++ concat (encode <$> demoRecords).
Definition demoMemory : gmap Z Z := store 0x7000 demoTable ∅.
Definition firstSched : sched := mkSched ∅ ∅ ∅ [] ∅ 0 0 0 [].
Definition demoBoot : boot recorder := mkBoot (mkRecorder demoMemory [] 0x100000) firstSched 0 [] [] 0 [] 0 0 (replicate 256 0).

Lemma acpiMadtInit_roundtrip_witness : wp (acpiMadtInit noIo 10 0x7000 (Z.of_nat (length demoTable))) demoBoot (fun _ s' =>
  cpuInfos (bsched s') = [bootCpu 0; bootCpu 2] /\ nrofCPUs s' = 2 /\ ioFields <$> ioApicInfos s' = [(8, false, 0, 0xFEC00000)] /\
  isaOverrides s' = [mkIsa 0 0 2] /\ sched_inv (bsched s') (fun _ _ => [])).
Proof.
  apply (acpiMadtInit_roundtrip (tbl := demoMemory) (ready := recorder_ready demoMemory) noIo demoBoot 10 0x7000 0x7000 demoHeader 1 demoRecords); try reflexivity.
  - repeat constructor; done.
  - done.
  - done.
  - done.
  - cbn. lia.
  - split; [reflexivity|]. split; [done|by apply Z.leb_le].
  - apply store_text.
Defined.

(** A table without a local APIC: no memory is asked for, which the heap refuses. *)
Definition noCpuTable : list Z := demoHeader ++ toBytes 4 1.
Example no_processor_panics :
  acpiMadtInit noIo 10 0x7000 (Z.of_nat (length noCpuTable)) (mkBoot (mkRecorder (store 0x7000 noCpuTable ∅) [] 0x100000) firstSched 0 [] [] 0 [] 0 0 (replicate 256 0)) = Fault.
Proof. by vm_compute. Qed.

(** The keyboard of an old machine, on the second line of the only I/O APIC. *)
Definition demoLines : boot recorder :=
  mkBoot (mkRecorder ∅ [] 0) (set_cpuInfos firstSched [bootCpu 3]) 1 [] [mkIoApic 8 false 0 23 0x9000 0x9010 0xFEC00000] 0 [mkIsa 0 0 2] 0 4 (replicate 256 0).
Lemma routeIrqLine_correct_witness : wp (routeIrqLine 0x31 1 HWIRQ_FLAG_ISA) demoLines (fun r s' => r = 0 /\ gsiToVec s' = <[1%nat := 0x31]> (replicate 256 0) /\
  ioApicInfos s' = ioApicInfos demoLines /\ machine s' = mkRecorder ∅ [(0x9000, 0x12); (0x9010, 0x2031); (0x9000, 0x13); (0x9010, 0x3000000)] 0).
Proof.
  eapply wp_mono; [apply (routeIrqLine_correct demoLines 0x31 1 HWIRQ_FLAG_ISA 1 0 0 (mkIoApic 8 false 0 23 0x9000 0x9010 0xFEC00000) (bootCpu 3)); by vm_compute|].
  intros r s' (-> & -> & -> & ->). by vm_compute.
Defined.
End witnesses.
