(* ===== verification/LocalApic.v ===== *)
(** * The processor that boots: [cpu/lapic.c], [cpu/tssgdt.c], [arch/x86_64/main.c]

    The registers of the local APIC, the measurement of its timer, the segment
    descriptors of a processor, and the order of the early initialization.
    Model-specific registers and ports are reached through the class [Cpu]; the
    counter of the timer is what the machine answers. *)

From S2P Require Import Prelude Word Errno Bytes ThreadQueue IoApic Acpi.
From S2P Require Fd.

Class Cpu (D : Type) := {
  rdmsr : Z -> D -> Z * D;
  wrmsr : Z -> Z -> D -> D;
  in8 : Z -> D -> Z * D
}.

Definition LAPIC_ID : Z := 0x20.
Definition LAPIC_TPR : Z := 0x80.
Definition LAPIC_EOI : Z := 0xB0.
Definition LAPIC_SPURIOUS : Z := 0xF0.
Definition LAPIC_ICRL : Z := 0x300.
Definition LAPIC_ICRH : Z := 0x310.
Definition LAPIC_LVT_TMR : Z := 0x320.
Definition LAPIC_LVT_PERF : Z := 0x340.
Definition LAPIC_LVT_LINT0 : Z := 0x350.
Definition LAPIC_LVT_LINT1 : Z := 0x360.
Definition LAPIC_TIC : Z := 0x380.
Definition LAPIC_TCC : Z := 0x390.
Definition LAPIC_DIV : Z := 0x3E0.
Definition LAPIC_MASK : Z := Z.shiftl 1 16.
Definition PIT_HZ : Z := 1193182.
Definition PIT_CH2DATA : Z := 0x42.
Definition PIT_CMDREG : Z := 0x43.
Definition JIFFY_HZ : Z := 1000.
Inductive ipiTypes := IPI_FIXED | IPI_LOWEST | IPI_SMI | IPI_RR | IPI_NMI | IPI_INIT | IPI_START | IPI_EXT.
Definition ipiNum (t : ipiTypes) : Z :=
  match t with IPI_FIXED => 0 | IPI_LOWEST => 1 | IPI_SMI => 2 | IPI_RR => 3 | IPI_NMI => 4 | IPI_INIT => 5 | IPI_START => 6 | IPI_EXT => 7 end.

(** ** Segment descriptors *)

Definition NROF_GDT_ENTRIES : Z := 9.
Definition GDT_WRITE : Z := Z.shiftl 1 41.
Definition GDT_DPL_SHIFT : Z := 45.
Definition GDT_PRESENT : Z := Z.shiftl 1 47.
Definition GDT_LONG : Z := Z.shiftl 1 53.
Definition GDT_OP_SIZE : Z := Z.shiftl 1 54.
Definition GDT_DATA : Z := Z.shiftl 1 44.
Definition GDT_CODE : Z := Z.lor (Z.shiftl 1 43) (Z.shiftl 1 44).
Definition sizeofCpuTSS : Z := 104.
(** [&info->gdt], [&info->tss]. *)
Definition gdtAddr (info : Z) : Z := info + 0x40.
Definition tssAddrOf (info : Z) : Z := info + 0xC0.

Definition lors (l : list Z) : Z := foldr Z.lor 0 l.
(** The low word of the descriptor of the task state; [tssAddr15] has 32 bits. *)
Definition tssLow (tssAddr : Z) : Z :=
  let tssAddr15 := Z.land tssAddr 0xFFFF in
  let tssAddr23 := Z.land (Z.shiftr tssAddr 16) 0xFF in
  let tssAddr31 := Z.land (Z.shiftr tssAddr 24) 0xFF in
  lors [sizeofCpuTSS; u32 (Z.shiftl tssAddr15 16); u64 (Z.shiftl tssAddr23 32); Z.shiftl 0x00E9 40; u64 (Z.shiftl tssAddr31 56)].
Definition gdtOf (tssAddr : Z) : list Z :=
  [0;
   lors [GDT_LONG; GDT_PRESENT; GDT_CODE];
   lors [GDT_PRESENT; GDT_DATA; GDT_WRITE];
   lors [Z.shiftl 3 GDT_DPL_SHIFT; GDT_OP_SIZE; GDT_PRESENT; GDT_CODE];
   lors [Z.shiftl 3 GDT_DPL_SHIFT; GDT_PRESENT; GDT_DATA; GDT_WRITE];
   lors [Z.shiftl 3 GDT_DPL_SHIFT; GDT_LONG; GDT_PRESENT; GDT_CODE];
   tssLow tssAddr;
   Z.shiftr tssAddr 32].
(** What [tssGdtInit] leaves in the memory of a processor; [idtSetIST], [lgdt]
    and [ltr] follow. *)
Record segments := mkSegments { gdt : list Z; gdtrSize : Z; gdtrBase : Z; ist0 : Z }.
Definition tssGdtInit (info excStackTop : Z) : segments :=
  mkSegments (gdtOf (tssAddrOf info)) (8 * NROF_GDT_ENTRIES) (gdtAddr info) (u64 (excStackTop - PAGE_SIZE)).
Definition seg_ist v g := mkSegments (gdt g) (gdtrSize g) (gdtrBase g) v.

(** ** The local APIC *)

Record lapic (D : Type) := mkLapic {
  lboot : boot D;
  physLapicBase : Z;
  lapicBase : Z;
  busSpeed : Z;
  perCpuTimer : bool;
  segs : gmap Z segments       (* of each processor *)
}.
Arguments mkLapic {D}.
Arguments lboot {D}.
Arguments physLapicBase {D}.
Arguments lapicBase {D}.
Arguments busSpeed {D}.
Arguments perCpuTimer {D}.
Arguments segs {D}.

Section lapics.
Context {D : Type} `{Machine D, Fd.KernelMemory D, Cpu D}.
Notation lM := (M (lapic D)).
(** The array [cpuInfos]. *)
Context (cpuInfosPtr : Z).

Definition onBoot {A} (m : M (boot D) A) : lM A := fun s =>
  match m (lboot s) with
  | Done (a, b) => Done (a, mkLapic b (physLapicBase s) (lapicBase s) (busSpeed s) (perCpuTimer s) (segs s)) | Fault => Fault | NoFuel => NoFuel
  end.
Definition dev {A} (f : D -> A * D) : lM A := onBoot (onMachine f).
Definition set_base (phys virt : Z) : lM unit := modify (fun s => mkLapic (lboot s) phys virt (busSpeed s) (perCpuTimer s) (segs s)).
Definition set_busSpeed (v : Z) : lM unit := modify (fun s => mkLapic (lboot s) (physLapicBase s) (lapicBase s) v (perCpuTimer s) (segs s)).
Definition set_perCpuTimer (v : bool) : lM unit := modify (fun s => mkLapic (lboot s) (physLapicBase s) (lapicBase s) (busSpeed s) v (segs s)).
Definition set_segs (i : Z) (g : segments) : lM unit := modify (fun s => mkLapic (lboot s) (physLapicBase s) (lapicBase s) (busSpeed s) (perCpuTimer s) (<[i := g]> (segs s))).
Definition lapicWrite (reg v : Z) : lM unit := base ← gets lapicBase; dev (fun d => (tt, write32 (base + reg) (u32 v) d)).
Definition lapicRead (reg : Z) : lM Z := base ← gets lapicBase; dev (read32 (base + reg)).
Definition port (p v : Z) : lM unit := dev (fun d => (tt, out8 p (u8 v) d)).

Fixpoint getCPUInfoFrom (l : list CpuInfo) (i id : Z) : Z :=
  match l with [] => -1 | c :: l => if apicID c =? id then i else getCPUInfoFrom l (i + 1) id end.
Definition getCPUInfo (l : list CpuInfo) (id : Z) : Z := getCPUInfoFrom l 0 id.

(** The wait for the gate of the timer to go high. *)
Fixpoint waitGate (fuel : nat) : lM unit :=
  match fuel with
  | O => nofuel
  | S fuel => v ← dev (in8 0x61); if Z.land v (Z.shiftl 1 5) =? 0 then waitGate fuel else mret tt
  end.
Definition getBusSpeed (fuel : nat) : lM Z :=
  lapicWrite LAPIC_DIV 3;;
  lapicWrite LAPIC_LVT_TMR 0xE0;;
  v ← dev (in8 0x61);
  port 0x61 (Z.lor (Z.land v 0xFD) 1);;
  port PIT_CMDREG (lors [Z.shiftl 2 6; Z.shiftl 3 4; Z.shiftl 1 1]);;
  let pitVal := PIT_HZ / 100 in
  port PIT_CH2DATA pitVal;;
  port PIT_CH2DATA (Z.shiftr pitVal 8);;
  data ← dev (in8 0x61);
  port 0x61 (Z.land data (Z.lnot 1));;
  port 0x61 (Z.lor data 1);;
  lapicWrite LAPIC_TIC (Z.lnot 0);;
  waitGate fuel;;
  lapicWrite LAPIC_LVT_TMR LAPIC_MASK;;
  tcc ← lapicRead LAPIC_TCC;
  let counterVal := s32 (0 - s32 tcc) in
  mret (s32 (counterVal * 1600)).

Definition activate (c : CpuInfo) : CpuInfo := mkCpu (readyListLock c) (threadLoad c) (nrofReadyThreads c) true (apicID c).
Definition lapicInit (fuel : nat) : lM unit :=
  addr ← dev (rdmsr 0x1B);
  let phys := Z.land addr (Z.lnot 0xFFF) in
  base ← dev (ioremap phys PAGE_SIZE);
  set_base phys base;;
  v ← lapicRead LAPIC_ID;
  let id := Z.shiftr v 24 in
  cpus ← gets (fun s => cpuInfos (bsched (lboot s)));
  let index := getCPUInfo cpus id in
  if index <? 0 then mret tt
  else
    lapicWrite 0xE0 0xFFFFFFFF;;
    v ← lapicRead 0xD0;
    lapicWrite 0xD0 (Z.lor (Z.land v 0x00FFFFFF) 1);;
    lapicWrite LAPIC_LVT_PERF LAPIC_MASK;;
    lapicWrite LAPIC_LVT_LINT0 LAPIC_MASK;;
    lapicWrite LAPIC_LVT_LINT1 LAPIC_MASK;;
    lapicWrite LAPIC_LVT_TMR LAPIC_MASK;;
    lapicWrite LAPIC_TPR 0;;
    dev (fun d => (tt, wrmsr 0x1B (Z.lor addr (Z.shiftl 1 11)) d));;
    lapicWrite LAPIC_SPURIOUS 0x1FF;;
    speed ← getBusSpeed fuel;
    set_busSpeed speed;;
    (if 100000 <=? Z.quot speed 100 then set_perCpuTimer true else mret tt);;
    onBoot (modify (fun b => set_bsched (set_cpuInfos (bsched b) (alter activate (Z.to_nat index) (cpuInfos (bsched b)))) b));;
    stack ← deref (fun s => excStacks (lboot s) !! Z.to_nat index);
    let info := cpuInfosPtr + index * sizeofCpuInfo in
    set_segs index (tssGdtInit info stack);;
    dev (fun d => (tt, wrmsr 0xC0000101 info d)).

Definition lapicEnableTimer (vec : Z) : lM unit :=
  lapicWrite LAPIC_LVT_TMR (Z.lor vec (Z.shiftl 1 17));;
  lapicWrite LAPIC_DIV 3;;
  speed ← gets busSpeed;
  lapicWrite LAPIC_TIC (Z.quot speed (16 * JIFFY_HZ)).
Definition ackIRQ : lM unit := lapicWrite LAPIC_EOI 0.
Definition lapicSendIPI (destination vec : Z) (type : ipiTypes) : lM unit :=
  lapicWrite LAPIC_ICRH (Z.shiftl destination 24);;
  lapicWrite LAPIC_ICRL (lors [vec; Z.shiftl (Z.land (ipiNum type) 7) 8; Z.shiftl 1 14]).
Definition lapicSendIPIToAll (vec : Z) (type : ipiTypes) : lM unit :=
  lapicWrite LAPIC_ICRH (Z.shiftl 0xFF 24);;
  lapicWrite LAPIC_ICRL (lors [vec; Z.shiftl (Z.land (ipiNum type) 7) 8; Z.shiftl 1 14; Z.shiftl 3 18]).

(** The stack of exceptions that nest, of processor [i]. *)
Definition updSegs (i : Z) (f : segments -> segments) : lM unit := g ← deref (fun s => segs s !! i); set_segs i (f g).
Definition excStackPush : lM unit := i ← gets (fun s => thisCpu (bsched (lboot s))); updSegs i (fun g => seg_ist (u64 (ist0 g - 0x400)) g).
Definition excStackPop : lM unit := i ← gets (fun s => thisCpu (bsched (lboot s))); updSegs i (fun g => seg_ist (u64 (ist0 g + 0x400)) g).

(** [earlyArchInit], up to the shootdown of page tables. *)
Definition earlyArchInit (VMEM_OFFSET rsdpOfBoot : Z) (stale : nat -> IoApicInfo) (fuel : nat) : lM unit :=
  pat ← dev (rdmsr 0x277);
  dev (fun d => (tt, wrmsr 0x277 (Z.lor (Z.land pat (Z.lnot (Z.shiftl 0xFF 8))) (Z.shiftl 0x01 8)) d));;
  onBoot (acpiInit VMEM_OFFSET rsdpOfBoot stale fuel);;
  lapicInit fuel;;
  onBoot ioApicInit.
End lapics.

(** ** Properties *)

Lemma land_255 x : Z.land x 0xFF = x mod 2 ^ 8.
Proof. change 0xFF with (Z.ones 8). by rewrite Z.land_ones. Qed.
Lemma tssLow_sum a : 0 <= a < 2 ^ 64 -> tssLow a = sizeofCpuTSS + a mod 2 ^ 16 * 2 ^ 16 + (a / 2 ^ 16) mod 2 ^ 8 * 2 ^ 32 + 0xE9 * 2 ^ 40 + (a / 2 ^ 24) mod 2 ^ 8 * 2 ^ 56.
Proof.
  intros Ha. unfold tssLow. rewrite !land_255. change 0xFFFF with (Z.ones 16). rewrite Z.land_ones by lia. rewrite !Z.shiftr_div_pow2, !Z.shiftl_mul_pow2 by lia.
  pose proof (Z.mod_pos_bound a (2 ^ 16)). pose proof (Z.mod_pos_bound (a / 2 ^ 16) (2 ^ 8)). pose proof (Z.mod_pos_bound (a / 2 ^ 24) (2 ^ 8)).
  set (x := a mod 2 ^ 16) in *. set (y := (a / 2 ^ 16) mod 2 ^ 8) in *. set (z := (a / 2 ^ 24) mod 2 ^ 8) in *.
  rewrite !uwrap_small by lia. unfold lors, sizeofCpuTSS. cbn [foldr]. rewrite Z.lor_0_r, !Z.lor_assoc. rewrite (lor_add 104 x 16) by lia. rewrite (lor_add _ y 32) by lia.
  rewrite (lor_add _ 0xE9 40) by lia. rewrite (lor_add _ z 56) by lia. lia.
Qed.
(** The descriptor of the task state, read as the processor does: its base is
    the address of the task state, its limit the size, its type that of an
    available task state that user code may not use. *)
Theorem tss_descriptor a : 0 <= a < 2 ^ 64 ->
  let low := tssLow a in let high := nth 7 (gdtOf a) 0 in
  (low / 2 ^ 16) mod 2 ^ 24 + (low / 2 ^ 56) mod 2 ^ 8 * 2 ^ 24 + high * 2 ^ 32 = a /\ low mod 2 ^ 16 = sizeofCpuTSS /\ (low / 2 ^ 40) mod 2 ^ 16 = 0xE9.
Proof.
  intros Ha. cbn zeta. rewrite tssLow_sum by done. cbn [nth gdtOf]. rewrite Z.shiftr_div_pow2 by lia. unfold sizeofCpuTSS.
  pose proof (Z.mod_pos_bound a (2 ^ 16)). pose proof (Z.mod_pos_bound (a / 2 ^ 16) (2 ^ 8)). pose proof (Z.mod_pos_bound (a / 2 ^ 24) (2 ^ 8)).
  assert (E : a = a mod 2 ^ 16 + (a / 2 ^ 16) mod 2 ^ 8 * 2 ^ 16 + (a / 2 ^ 24) mod 2 ^ 8 * 2 ^ 24 + a / 2 ^ 32 * 2 ^ 32) by (clear; dlia).
  set (x := a mod 2 ^ 16) in *. set (y := (a / 2 ^ 16) mod 2 ^ 8) in *. set (z := (a / 2 ^ 24) mod 2 ^ 8) in *. set (h := a / 2 ^ 32) in *. clearbody x y z h. clear Ha. dlia.
Qed.

Lemma getCPUInfoFrom_spec l i id : getCPUInfoFrom l i id = match list_find (fun c => apicID c = id) l with Some (k, _) => i + Z.of_nat k | None => -1 end.
Proof.
  revert i. induction l as [|c l IH]; intros i; [done|]. cbn. destruct (Z.eqb_spec (apicID c) id) as [E|E].
  - rewrite decide_True by done. cbn. lia.
  - rewrite decide_False by done. rewrite IH. destruct (list_find _ l) as [[k x]|]; cbn; lia.
Qed.
(** The processor of a local APIC is the first with its number, or none. *)
Theorem getCPUInfo_correct l id :
  match list_find (fun c => apicID c = id) l with
  | Some (k, c) => getCPUInfo l id = Z.of_nat k /\ l !! k = Some c /\ apicID c = id
  | None => getCPUInfo l id = -1 /\ id ∉ apicID <$> l
  end.
Proof.
  unfold getCPUInfo. rewrite getCPUInfoFrom_spec. destruct (list_find _ l) as [[k c]|] eqn:E.
  - apply list_find_Some in E as (Hk & Hc & _). split_and!; [lia|done|done].
  - split; [done|]. apply list_find_None in E. intros (c & -> & Hc)%list_elem_of_fmap. rewrite Forall_forall in E. by apply (E c).
Qed.
(** What an exception pushes, its return pops. *)
Theorem excStack_roundtrip {D} (s : lapic D) i g : i = thisCpu (bsched (lboot s)) -> segs s !! i = Some g -> 0x400 <= ist0 g < 2 ^ 64 ->
  wp (excStackPush;; excStackPop) s (fun _ s' => s' = s).
Proof.
  intros -> Hg Hb. apply wp_bind. unfold excStackPush, excStackPop, updSegs, set_segs. apply wp_bind, wp_gets, wp_bind, wp_deref. exists g. split; [done|]. apply wp_modify.
  apply wp_bind, wp_gets, wp_bind, wp_deref. cbn. eexists. split; [apply lookup_insert_eq|]. cbn.
  rewrite (uwrap_small 64 (ist0 g - _)), uwrap_small by lia. rewrite insert_insert_eq. destruct s as [b p v sp t m], g as [l n a u]. cbn in *. f_equal. apply insert_id. rewrite Hg. unfold seg_ist. cbn. do 2 f_equal. lia.
Qed.
(** A machine whose timer shows the number [d] when the gate is high. *)
#[local] Instance timer_machine : Machine Z := {
  vmem _ := ∅; ioremap p _ d := (p, d); iounmap _ _ d := d; read32 _ d := (d, d); write32 _ _ d := d; out8 _ _ d := d
}.
#[local] Instance timer_cpu : Cpu Z := { rdmsr _ d := (0, d); wrmsr _ _ d := d; in8 _ d := (Z.shiftl 1 5, d) }.
(** A timer that counted down [n] times in ten milliseconds. *)
Theorem getBusSpeed_correct fuel (s : lapic Z) n : (0 < fuel)%nat -> machine (lboot s) = 2 ^ 32 - n -> 0 < n < 2 ^ 31 ->
  wp (getBusSpeed fuel) s (fun v _ => v = s32 (n * 1600)).
Proof.
  intros Hf Hm Hn. destruct fuel as [|fuel]; [lia|]. change (s32 (s32 (0 - s32 (machine (lboot s))) * 1600) = s32 (n * 1600)). rewrite Hm.
  assert (E : s32 (2 ^ 32 - n) = - n) by (unfold swrap, uwrap; change (2 ^ 32) with 4294967296 in *; change (2 ^ (32 - 1)) with 2147483648 in *; repeat case_match; dlia). rewrite E, (swrap_small 32 (0 - - n)) by lia. do 2 f_equal. lia.
Qed.
(** The speed is a signed number: it is negative for a timer of 2.2 GHz. *)
Theorem busSpeed_negative (s : lapic Z) : machine (lboot s) = 2 ^ 32 - 1375000 -> wp (getBusSpeed 1) s (fun v _ => v < 0).
Proof. intros Hm. wp_use getBusSpeed_correct; [lia|exact Hm|lia|]. by intros v _ ->. Qed.
