(* ===== verification/Keys.v ===== *)
(** * Keys: the event codes of [kernel/include/uapi/eventcodes.h], the key maps
    of [kernel/drivers/tty/keymap.c] and the table of scan codes of
    [kernel/drivers/input/ps2/keyboard.c] *)

From S2P Require Import Prelude.

(** ** Event codes *)

Definition KEY_RESERVED : Z := 0.
Definition KEY_ESC : Z := 1.
Definition KEY_F1 : Z := 2.
Definition KEY_F2 : Z := 3.
Definition KEY_F3 : Z := 4.
Definition KEY_F4 : Z := 5.
Definition KEY_F5 : Z := 6.
Definition KEY_F6 : Z := 7.
Definition KEY_F7 : Z := 8.
Definition KEY_F8 : Z := 9.
Definition KEY_F9 : Z := 10.
Definition KEY_F10 : Z := 11.
Definition KEY_F11 : Z := 12.
Definition KEY_F12 : Z := 13.
Definition KEY_GRAVE : Z := 14.
Definition KEY_1 : Z := 15.
Definition KEY_2 : Z := 16.
Definition KEY_3 : Z := 17.
Definition KEY_4 : Z := 18.
Definition KEY_5 : Z := 19.
Definition KEY_6 : Z := 20.
Definition KEY_7 : Z := 21.
Definition KEY_8 : Z := 22.
Definition KEY_9 : Z := 23.
Definition KEY_0 : Z := 24.
Definition KEY_MINUS : Z := 25.
Definition KEY_EQUALS : Z := 26.
Definition KEY_BACKSPACE : Z := 27.
Definition KEY_TAB : Z := 28.
Definition KEY_Q : Z := 29.
Definition KEY_W : Z := 30.
Definition KEY_E : Z := 31.
Definition KEY_R : Z := 32.
Definition KEY_T : Z := 33.
Definition KEY_Y : Z := 34.
Definition KEY_U : Z := 35.
Definition KEY_I : Z := 36.
Definition KEY_O : Z := 37.
Definition KEY_P : Z := 38.
Definition KEY_LEFTBRACE : Z := 39.
Definition KEY_RIGHTBRACE : Z := 40.
Definition KEY_BACKSLASH : Z := 41.
Definition KEY_CAPSLOCK : Z := 42.
Definition KEY_A : Z := 43.
Definition KEY_S : Z := 44.
Definition KEY_D : Z := 45.
Definition KEY_F : Z := 46.
Definition KEY_G : Z := 47.
Definition KEY_H : Z := 48.
Definition KEY_J : Z := 49.
Definition KEY_K : Z := 50.
Definition KEY_L : Z := 51.
Definition KEY_SEMICOLON : Z := 52.
Definition KEY_APOSTROPHE : Z := 53.
Definition KEY_ENTER : Z := 54.
Definition KEY_LEFTSHIFT : Z := 55.
Definition KEY_Z : Z := 56.
Definition KEY_X : Z := 57.
Definition KEY_C : Z := 58.
Definition KEY_V : Z := 59.
Definition KEY_B : Z := 60.
Definition KEY_N : Z := 61.
Definition KEY_M : Z := 62.
Definition KEY_COMMA : Z := 63.
Definition KEY_DOT : Z := 64.
Definition KEY_SLASH : Z := 65.
Definition KEY_RIGHTSHIFT : Z := 66.
Definition KEY_LEFTCTRL : Z := 67.
Definition KEY_LEFTWIN : Z := 68.
Definition KEY_LEFTALT : Z := 69.
Definition KEY_SPACE : Z := 70.
Definition KEY_RIGHTALT : Z := 71.
Definition KEY_RIGHTWIN : Z := 72.
Definition KEY_MENU : Z := 73.
Definition KEY_RIGHTCTRL : Z := 74.
Definition KEY_SYSRQ : Z := 75.
Definition KEY_SCROLLLOCK : Z := 76.
Definition KEY_BREAK : Z := 77.
Definition KEY_INSERT : Z := 78.
Definition KEY_HOME : Z := 79.
Definition KEY_PAGEUP : Z := 80.
Definition KEY_DELETE : Z := 81.
Definition KEY_END : Z := 82.
Definition KEY_PAGEDOWN : Z := 83.
Definition KEY_UP : Z := 84.
Definition KEY_LEFT : Z := 85.
Definition KEY_RIGHT : Z := 86.
Definition KEY_DOWN : Z := 87.
Definition KEY_NUMLOCK : Z := 88.
Definition KEY_KPSLASH : Z := 89.
Definition KEY_KPASTERISK : Z := 90.
Definition KEY_KPMINUS : Z := 91.
Definition KEY_KP7 : Z := 92.
Definition KEY_KP8 : Z := 93.
Definition KEY_KP9 : Z := 94.
Definition KEY_KPPLUS : Z := 95.
Definition KEY_KP4 : Z := 96.
Definition KEY_KP5 : Z := 97.
Definition KEY_KP6 : Z := 98.
Definition KEY_KP1 : Z := 99.
Definition KEY_KP2 : Z := 100.
Definition KEY_KP3 : Z := 101.
Definition KEY_KPENTER : Z := 102.
Definition KEY_KP0 : Z := 103.
Definition KEY_KPDOT : Z := 104.
Definition KEY_PREVIOUSSONG : Z := 105.
Definition KEY_PLAYPAUSE : Z := 106.
Definition KEY_NEXTSONG : Z := 107.
Definition KEY_MUTE : Z := 208.
Definition KEY_VOLUMEDOWN : Z := 209.
Definition KEY_VOLUMEUP : Z := 210.
Definition KEY_SELECT : Z := 225.
Definition KEY_SEARCH : Z := 211.
Definition KEY_FAVORITES : Z := 212.
Definition KEY_FORWARD : Z := 213.
Definition KEY_BACK : Z := 214.
Definition KEY_HOMEPAGE : Z := 215.
Definition KEY_EMAIL : Z := 216.
Definition KEY_STOP : Z := 217.
Definition KEY_REFRESH : Z := 218.
Definition KEY_CALCULATOR : Z := 219.
Definition KEY_APPS : Z := 220.
Definition KEY_POWER : Z := 221.
Definition KEY_SLEEP : Z := 222.
Definition KEY_WAKE : Z := 223.
Definition KEY_COMPUTER : Z := 224.
Definition NROF_EVENTS : Z := 225.

(** ** Characters of the keys

    The arrays of the source, from their designated initialisers. *)

Definition designated (n : nat) (inits : list (Z * Z)) : list Z :=
  foldr (fun (i : Z * Z) t => <[Z.to_nat i.1 := i.2]> t) (replicate n 0) inits.

Definition shiftKeymap : list Z := designated (Z.to_nat NROF_EVENTS) [
  (KEY_ENTER, 10); (KEY_BACKSPACE, 127); (KEY_SPACE, 32); (KEY_GRAVE, 126); (KEY_MINUS, 95); (KEY_EQUALS, 43);
  (KEY_LEFTBRACE, 123); (KEY_RIGHTBRACE, 125); (KEY_SEMICOLON, 58); (KEY_APOSTROPHE, 34); (KEY_BACKSLASH, 124);
  (KEY_COMMA, 60); (KEY_DOT, 62); (KEY_SLASH, 63); (KEY_TAB, 9); (KEY_1, 33); (KEY_2, 64); (KEY_3, 35); (KEY_4, 36);
  (KEY_5, 37); (KEY_6, 94); (KEY_7, 38); (KEY_8, 42); (KEY_9, 40); (KEY_0, 41); (KEY_Q, 81); (KEY_W, 87);
  (KEY_E, 69); (KEY_R, 82); (KEY_T, 84); (KEY_Y, 89); (KEY_U, 85); (KEY_I, 73); (KEY_O, 79); (KEY_P, 80);
  (KEY_A, 65); (KEY_S, 83); (KEY_D, 68); (KEY_F, 70); (KEY_G, 71); (KEY_H, 72); (KEY_J, 74); (KEY_K, 75);
  (KEY_L, 76); (KEY_Z, 90); (KEY_X, 88); (KEY_C, 67); (KEY_V, 86); (KEY_B, 66); (KEY_N, 78); (KEY_M, 77)].

Definition keymap : list Z := designated (Z.to_nat NROF_EVENTS) [
  (KEY_ENTER, 10); (KEY_BACKSPACE, 127); (KEY_SPACE, 32); (KEY_GRAVE, 96); (KEY_MINUS, 45); (KEY_EQUALS, 61);
  (KEY_LEFTBRACE, 91); (KEY_RIGHTBRACE, 93); (KEY_SEMICOLON, 59); (KEY_APOSTROPHE, 39); (KEY_BACKSLASH, 92);
  (KEY_COMMA, 44); (KEY_DOT, 46); (KEY_SLASH, 47); (KEY_TAB, 9); (KEY_1, 49); (KEY_2, 50); (KEY_3, 51); (KEY_4, 52);
  (KEY_5, 53); (KEY_6, 54); (KEY_7, 55); (KEY_8, 56); (KEY_9, 57); (KEY_0, 48); (KEY_Q, 113); (KEY_W, 119);
  (KEY_E, 101); (KEY_R, 114); (KEY_T, 116); (KEY_Y, 121); (KEY_U, 117); (KEY_I, 105); (KEY_O, 111); (KEY_P, 112);
  (KEY_A, 97); (KEY_S, 115); (KEY_D, 100); (KEY_F, 102); (KEY_G, 103); (KEY_H, 104); (KEY_J, 106); (KEY_K, 107);
  (KEY_L, 108); (KEY_Z, 122); (KEY_X, 120); (KEY_C, 99); (KEY_V, 118); (KEY_B, 98); (KEY_N, 110); (KEY_M, 109)].

(** ** Scan codes *)

Definition kbScanTable : list Z := [
  (* 00 *) KEY_RESERVED; KEY_F9; KEY_RESERVED; KEY_F5; KEY_F3; KEY_F1; KEY_F2; KEY_F12;
  (* 08 *) KEY_RESERVED; KEY_F10; KEY_F8; KEY_F6; KEY_F4; KEY_TAB; KEY_GRAVE; KEY_RESERVED;
  (* 10 *) KEY_RESERVED; KEY_LEFTALT; KEY_LEFTSHIFT; KEY_RESERVED; KEY_LEFTCTRL; KEY_Q; KEY_1; KEY_RESERVED;
  (* 18 *) KEY_RESERVED; KEY_RESERVED; KEY_Z; KEY_S; KEY_A; KEY_W; KEY_2; KEY_RESERVED;
  (* 20 *) KEY_RESERVED; KEY_C; KEY_X; KEY_D; KEY_E; KEY_4; KEY_3; KEY_RESERVED;
  (* 28 *) KEY_RESERVED; KEY_SPACE; KEY_V; KEY_F; KEY_T; KEY_R; KEY_5; KEY_RESERVED;
  (* 30 *) KEY_RESERVED; KEY_N; KEY_B; KEY_H; KEY_G; KEY_Y; KEY_6; KEY_RESERVED;
  (* 38 *) KEY_RESERVED; KEY_RESERVED; KEY_M; KEY_J; KEY_U; KEY_7; KEY_8; KEY_RESERVED;
  (* 40 *) KEY_RESERVED; KEY_COMMA; KEY_K; KEY_I; KEY_O; KEY_0; KEY_9; KEY_RESERVED;
  (* 48 *) KEY_RESERVED; KEY_DOT; KEY_SLASH; KEY_L; KEY_SEMICOLON; KEY_P; KEY_MINUS; KEY_RESERVED;
  (* 50 *) KEY_RESERVED; KEY_RESERVED; KEY_APOSTROPHE; KEY_RESERVED; KEY_LEFTBRACE; KEY_EQUALS; KEY_RESERVED; KEY_RESERVED;
  (* 58 *) KEY_CAPSLOCK; KEY_RIGHTSHIFT; KEY_ENTER; KEY_RIGHTBRACE; KEY_RESERVED; KEY_BACKSLASH; KEY_RESERVED; KEY_RESERVED;
  (* 60 *) KEY_RESERVED; KEY_RESERVED; KEY_RESERVED; KEY_RESERVED; KEY_RESERVED; KEY_RESERVED; KEY_BACKSPACE; KEY_RESERVED;
  (* 68 *) KEY_RESERVED; KEY_KP1; KEY_RESERVED; KEY_KP4; KEY_KP7; KEY_RESERVED; KEY_RESERVED; KEY_RESERVED;
  (* 70 *) KEY_KP0; KEY_KPDOT; KEY_KP2; KEY_KP5; KEY_KP6; KEY_KP8; KEY_ESC; KEY_NUMLOCK;
  (* 78 *) KEY_F11; KEY_KPPLUS; KEY_KP3; KEY_KPMINUS; KEY_KPASTERISK; KEY_KP9; KEY_SCROLLLOCK; KEY_RESERVED;
  (* 80 *) KEY_RESERVED; KEY_RESERVED; KEY_RESERVED; KEY_RESERVED; KEY_RESERVED; KEY_RESERVED; KEY_RESERVED; KEY_RESERVED;
  (* 88 *) KEY_RESERVED; KEY_RESERVED; KEY_RESERVED; KEY_RESERVED; KEY_RESERVED; KEY_RESERVED; KEY_RESERVED; KEY_RESERVED;
  (* 90 *) KEY_SEARCH; KEY_RIGHTALT; KEY_RESERVED; KEY_RESERVED; KEY_RIGHTCTRL; KEY_PREVIOUSSONG; KEY_RESERVED; KEY_RESERVED;
  (* 98 *) KEY_FAVORITES; KEY_RESERVED; KEY_RESERVED; KEY_RESERVED; KEY_RESERVED; KEY_RESERVED; KEY_RESERVED; KEY_MENU;
  (* A0 *) KEY_REFRESH; KEY_VOLUMEDOWN; KEY_RESERVED; KEY_MUTE; KEY_RESERVED; KEY_RESERVED; KEY_RESERVED; KEY_MENU;
  (* A8 *) KEY_STOP; KEY_RESERVED; KEY_RESERVED; KEY_CALCULATOR; KEY_RESERVED; KEY_RESERVED; KEY_RESERVED; KEY_APPS;
  (* B0 *) KEY_FORWARD; KEY_RESERVED; KEY_VOLUMEUP; KEY_RESERVED; KEY_PLAYPAUSE; KEY_RESERVED; KEY_RESERVED; KEY_POWER;
  (* B8 *) KEY_BACK; KEY_RESERVED; KEY_HOMEPAGE; KEY_STOP; KEY_RESERVED; KEY_RESERVED; KEY_RESERVED; KEY_SLEEP;
  (* C0 *) KEY_COMPUTER; KEY_RESERVED; KEY_RESERVED; KEY_RESERVED; KEY_RESERVED; KEY_RESERVED; KEY_RESERVED; KEY_RESERVED;
  (* C8 *) KEY_EMAIL; KEY_RESERVED; KEY_KPSLASH; KEY_RESERVED; KEY_RESERVED; KEY_NEXTSONG; KEY_RESERVED; KEY_RESERVED;
  (* D0 *) KEY_SELECT; KEY_RESERVED; KEY_RESERVED; KEY_RESERVED; KEY_RESERVED; KEY_RESERVED; KEY_RESERVED; KEY_RESERVED;
  (* D8 *) KEY_RESERVED; KEY_RESERVED; KEY_KPENTER; KEY_RESERVED; KEY_RESERVED; KEY_RESERVED; KEY_WAKE; KEY_RESERVED;
  (* E0 *) KEY_RESERVED; KEY_RESERVED; KEY_RESERVED; KEY_RESERVED; KEY_RESERVED; KEY_RESERVED; KEY_RESERVED; KEY_RESERVED;
  (* E8 *) KEY_RESERVED; KEY_END; KEY_RESERVED; KEY_LEFT; KEY_HOME; KEY_RESERVED; KEY_RESERVED; KEY_RESERVED;
  (* F0 *) KEY_INSERT; KEY_DELETE; KEY_DOWN; KEY_RESERVED; KEY_RIGHT; KEY_UP; KEY_RESERVED; KEY_RESERVED;
  (* F8 *) KEY_RESERVED; KEY_RESERVED; KEY_PAGEDOWN; KEY_RESERVED; KEY_SYSRQ; KEY_PAGEUP; KEY_RESERVED; KEY_RESERVED;
  (* 100 *) KEY_RESERVED; KEY_RESERVED; KEY_RESERVED; KEY_F7; KEY_RESERVED; KEY_RESERVED; KEY_RESERVED; KEY_RESERVED].
