(* ===== verification/Font.v ===== *)
(** * The font of the console: [kernel/drivers/tty/font8x16.c], sixteen lines
    of eight pixels for each character from the space on *)

From S2P Require Import Prelude.

Definition font8x16 : list Z := [
  0; 0; 0; 0; 0; 0; 0; 0; 0; 0; 0; 0; 0; 0; 0; 0;
  0; 0; 0; 6; 15; 15; 15; 6; 6; 0; 6; 6; 0; 0; 0; 0;
  0; 0; 0; 51; 51; 51; 0; 0; 0; 0; 0; 0; 0; 0; 0; 0;
  0; 0; 0; 54; 54; 127; 54; 54; 54; 127; 54; 54; 0; 0; 0; 0;
  0; 12; 12; 30; 51; 3; 6; 12; 24; 48; 51; 30; 12; 12; 0; 0;
  0; 0; 14; 27; 91; 110; 48; 24; 12; 118; 218; 216; 112; 0; 0; 0;
  0; 0; 0; 14; 27; 27; 14; 3; 123; 51; 51; 110; 0; 0; 0; 0;
  0; 0; 3; 3; 3; 0; 0; 0; 0; 0; 0; 0; 0; 0; 0; 0;
  0; 0; 0; 12; 6; 6; 3; 3; 3; 3; 3; 6; 6; 12; 0; 0;
  0; 0; 0; 3; 6; 6; 12; 12; 12; 12; 12; 6; 6; 3; 0; 0;
  0; 0; 0; 0; 0; 54; 28; 127; 28; 54; 0; 0; 0; 0; 0; 0;
  0; 0; 0; 0; 0; 12; 12; 63; 12; 12; 0; 0; 0; 0; 0; 0;
  0; 0; 0; 0; 0; 0; 0; 0; 0; 0; 7; 7; 6; 3; 0; 0;
  0; 0; 0; 0; 0; 0; 0; 63; 0; 0; 0; 0; 0; 0; 0; 0;
  0; 0; 0; 0; 0; 0; 0; 0; 0; 0; 7; 7; 0; 0; 0; 0;
  0; 0; 48; 48; 24; 24; 12; 12; 6; 6; 3; 3; 0; 0; 0; 0;
  0; 0; 0; 30; 51; 59; 59; 51; 55; 55; 51; 30; 0; 0; 0; 0;
  0; 0; 0; 24; 28; 31; 24; 24; 24; 24; 24; 24; 0; 0; 0; 0;
  0; 0; 0; 30; 51; 51; 48; 24; 12; 6; 3; 63; 0; 0; 0; 0;
  0; 0; 0; 30; 51; 51; 48; 28; 48; 51; 51; 30; 0; 0; 0; 0;
  0; 0; 0; 6; 6; 54; 54; 54; 51; 127; 48; 48; 0; 0; 0; 0;
  0; 0; 0; 63; 3; 3; 3; 31; 48; 48; 24; 15; 0; 0; 0; 0;
  0; 0; 0; 28; 12; 6; 31; 51; 51; 51; 51; 30; 0; 0; 0; 0;
  0; 0; 0; 63; 48; 24; 24; 12; 12; 6; 6; 6; 0; 0; 0; 0;
  0; 0; 0; 30; 51; 51; 55; 30; 59; 51; 51; 30; 0; 0; 0; 0;
  0; 0; 0; 30; 51; 51; 51; 51; 62; 24; 12; 14; 0; 0; 0; 0;
  0; 0; 0; 0; 0; 0; 7; 7; 0; 0; 7; 7; 0; 0; 0; 0;
  0; 0; 0; 0; 0; 0; 7; 7; 0; 0; 7; 7; 6; 3; 0; 0;
  0; 0; 0; 48; 24; 12; 6; 3; 6; 12; 24; 48; 0; 0; 0; 0;
  0; 0; 0; 0; 0; 0; 63; 0; 63; 0; 0; 0; 0; 0; 0; 0;
  0; 0; 0; 3; 6; 12; 24; 48; 24; 12; 6; 3; 0; 0; 0; 0;
  0; 0; 0; 30; 51; 51; 24; 12; 12; 0; 12; 12; 0; 0; 0; 0;
  0; 0; 0; 126; 195; 195; 243; 219; 219; 243; 3; 254; 0; 0; 0; 0;
  0; 0; 0; 12; 30; 51; 51; 51; 63; 51; 51; 51; 0; 0; 0; 0;
  0; 0; 0; 31; 51; 51; 51; 31; 51; 51; 51; 31; 0; 0; 0; 0;
  0; 0; 0; 30; 51; 51; 3; 3; 3; 51; 51; 30; 0; 0; 0; 0;
  0; 0; 0; 15; 27; 51; 51; 51; 51; 51; 27; 15; 0; 0; 0; 0;
  0; 0; 0; 63; 3; 3; 3; 15; 3; 3; 3; 63; 0; 0; 0; 0;
  0; 0; 0; 63; 3; 3; 3; 15; 3; 3; 3; 3; 0; 0; 0; 0;
  0; 0; 0; 30; 51; 51; 3; 3; 59; 51; 51; 62; 0; 0; 0; 0;
  0; 0; 0; 51; 51; 51; 51; 63; 51; 51; 51; 51; 0; 0; 0; 0;
  0; 0; 0; 15; 6; 6; 6; 6; 6; 6; 6; 15; 0; 0; 0; 0;
  0; 0; 0; 48; 48; 48; 48; 48; 48; 51; 51; 30; 0; 0; 0; 0;
  0; 0; 0; 51; 51; 27; 27; 15; 27; 27; 51; 51; 0; 0; 0; 0;
  0; 0; 0; 3; 3; 3; 3; 3; 3; 3; 3; 63; 0; 0; 0; 0;
  0; 0; 0; 99; 99; 119; 107; 107; 107; 99; 99; 99; 0; 0; 0; 0;
  0; 0; 0; 99; 99; 103; 111; 123; 115; 99; 99; 99; 0; 0; 0; 0;
  0; 0; 0; 30; 51; 51; 51; 51; 51; 51; 51; 30; 0; 0; 0; 0;
  0; 0; 0; 31; 51; 51; 51; 31; 3; 3; 3; 3; 0; 0; 0; 0;
  0; 0; 0; 30; 51; 51; 51; 51; 51; 51; 51; 30; 24; 48; 0; 0;
  0; 0; 0; 31; 51; 51; 51; 31; 27; 51; 51; 51; 0; 0; 0; 0;
  0; 0; 0; 30; 51; 3; 6; 12; 24; 48; 51; 30; 0; 0; 0; 0;
  0; 0; 0; 63; 12; 12; 12; 12; 12; 12; 12; 12; 0; 0; 0; 0;
  0; 0; 0; 51; 51; 51; 51; 51; 51; 51; 51; 30; 0; 0; 0; 0;
  0; 0; 0; 51; 51; 51; 51; 51; 51; 51; 30; 12; 0; 0; 0; 0;
  0; 0; 0; 99; 99; 99; 107; 107; 107; 54; 54; 54; 0; 0; 0; 0;
  0; 0; 0; 51; 51; 22; 12; 12; 26; 51; 51; 51; 0; 0; 0; 0;
  0; 0; 0; 51; 51; 51; 51; 30; 12; 12; 12; 12; 0; 0; 0; 0;
  0; 0; 0; 63; 48; 48; 24; 12; 6; 3; 3; 63; 0; 0; 0; 0;
  0; 0; 0; 7; 3; 3; 3; 3; 3; 3; 3; 3; 3; 7; 0; 0;
  0; 0; 3; 3; 6; 6; 12; 12; 24; 24; 48; 48; 0; 0; 0; 0;
  0; 0; 0; 7; 6; 6; 6; 6; 6; 6; 6; 6; 6; 7; 0; 0;
  0; 0; 12; 30; 51; 0; 0; 0; 0; 0; 0; 0; 0; 0; 0; 0;
  0; 0; 0; 0; 0; 0; 0; 0; 0; 0; 0; 0; 0; 0; 63; 0;
  0; 7; 6; 12; 0; 0; 0; 0; 0; 0; 0; 0; 0; 0; 0; 0;
  0; 0; 0; 0; 0; 30; 48; 48; 62; 51; 51; 62; 0; 0; 0; 0;
  0; 0; 0; 3; 3; 31; 51; 51; 51; 51; 51; 31; 0; 0; 0; 0;
  0; 0; 0; 0; 0; 30; 51; 3; 3; 3; 51; 30; 0; 0; 0; 0;
  0; 0; 0; 48; 48; 62; 51; 51; 51; 51; 51; 62; 0; 0; 0; 0;
  0; 0; 0; 0; 0; 30; 51; 51; 63; 3; 3; 30; 0; 0; 0; 0;
  0; 0; 0; 60; 6; 6; 63; 6; 6; 6; 6; 6; 0; 0; 0; 0;
  0; 0; 0; 0; 0; 62; 51; 51; 51; 51; 51; 62; 48; 48; 31; 0;
  0; 0; 0; 3; 3; 31; 51; 51; 51; 51; 51; 51; 0; 0; 0; 0;
  0; 0; 12; 12; 0; 15; 12; 12; 12; 12; 12; 63; 0; 0; 0; 0;
  0; 0; 24; 24; 0; 30; 24; 24; 24; 24; 24; 24; 24; 24; 15; 0;
  0; 0; 0; 3; 3; 51; 51; 27; 15; 27; 51; 51; 0; 0; 0; 0;
  0; 0; 0; 15; 12; 12; 12; 12; 12; 12; 12; 63; 0; 0; 0; 0;
  0; 0; 0; 0; 0; 63; 107; 107; 107; 107; 107; 99; 0; 0; 0; 0;
  0; 0; 0; 0; 0; 31; 51; 51; 51; 51; 51; 51; 0; 0; 0; 0;
  0; 0; 0; 0; 0; 30; 51; 51; 51; 51; 51; 30; 0; 0; 0; 0;
  0; 0; 0; 0; 0; 31; 51; 51; 51; 51; 51; 31; 3; 3; 3; 0;
  0; 0; 0; 0; 0; 62; 51; 51; 51; 51; 51; 62; 48; 48; 48; 0;
  0; 0; 0; 0; 0; 51; 59; 7; 3; 3; 3; 3; 0; 0; 0; 0;
  0; 0; 0; 0; 0; 62; 3; 3; 30; 48; 48; 31; 0; 0; 0; 0;
  0; 0; 0; 6; 6; 63; 6; 6; 6; 6; 6; 60; 0; 0; 0; 0;
  0; 0; 0; 0; 0; 51; 51; 51; 51; 51; 51; 62; 0; 0; 0; 0;
  0; 0; 0; 0; 0; 51; 51; 51; 51; 51; 30; 12; 0; 0; 0; 0;
  0; 0; 0; 0; 0; 107; 107; 107; 107; 107; 54; 54; 0; 0; 0; 0;
  0; 0; 0; 0; 0; 51; 51; 30; 12; 30; 51; 51; 0; 0; 0; 0;
  0; 0; 0; 0; 0; 51; 51; 51; 51; 51; 51; 62; 48; 48; 31; 0;
  0; 0; 0; 0; 0; 63; 48; 24; 12; 6; 3; 63; 0; 0; 0; 0;
  0; 0; 0; 24; 12; 12; 12; 6; 3; 6; 12; 12; 12; 24; 0; 0;
  0; 0; 0; 3; 3; 3; 3; 3; 3; 3; 3; 3; 3; 3; 0; 0;
  0; 0; 0; 3; 6; 6; 6; 12; 24; 12; 6; 6; 6; 3; 0; 0;
  0; 0; 0; 142; 219; 113; 0; 0; 0; 0; 0; 0; 0; 0; 0; 0].
