(* ===== verification/Tty.v ===== *)
(** * Terminals: [kernel/drivers/tty], the screen of [framebuffer.c], the input
    of [input.c] and the device of [main.c]

    A terminal has a screen, a ring of character cells with a cursor, and an
    input ring with a line discipline.  Cells out of the screen, pixels out of
    the video memory and a lock that is held already are faults.  Semaphores,
    signals and the locks of open files are an interface. *)

From S2P Require Import Prelude Word Errno Keys Font.

Definition FONT_HEIGHT : Z := 16.
Definition FONT_WIDTH : Z := 8.
Definition BPP : Z := 4.
Definition SCROLLBACK_LINES : Z := 256.
Definition NROF_VTTYS : Z := 8.
Definition INPUT_BUF_SIZE : Z := 4096.
Definition INPUT_MODE_LINEBUF : Z := 1.
Definition INPUT_MODE_ECHO : Z := 2.
Definition SIGINT : Z := 2.
Definition TIOCGPGRP : Z := 1.
Definition TIOCSPGRP : Z := 2.

Record VttyChar := mkVc { vc_c : Z; fgCol : Z; bgCol : Z; dirty : Z }.
(** The display side of [struct Vtty]. *)
Record Screen := mkScreen {
  charWidth : Z; charHeight : Z; cursorX : Z; cursorY : Z; buf : list VttyChar;
  curFGCol : Z; curBGCol : Z; scrollbackY : Z; full : bool; globalDirty : bool; focus : bool; slock : bool
}.
(** The input side of [struct Vtty]. *)
Record Input := mkInput {
  inputLock : bool; inputBuf : list Z; inputWriteIndex : Z; inputReadIndex : Z; inputLineIndex : Z; inputMode : Z; foreground : Z
}.
Record Framebuffer := mkFb { vmem : Z; pitch : Z; xResolution : Z; yResolution : Z; bpp : Z }.

Definition s_cursor (x y : Z) (s : Screen) := mkScreen (charWidth s) (charHeight s) x y (buf s) (curFGCol s) (curBGCol s) (scrollbackY s) (full s) (globalDirty s) (focus s) (slock s).
Definition s_buf (b : list VttyChar) (s : Screen) := mkScreen (charWidth s) (charHeight s) (cursorX s) (cursorY s) b (curFGCol s) (curBGCol s) (scrollbackY s) (full s) (globalDirty s) (focus s) (slock s).
Definition s_colors (f b : Z) (s : Screen) := mkScreen (charWidth s) (charHeight s) (cursorX s) (cursorY s) (buf s) f b (scrollbackY s) (full s) (globalDirty s) (focus s) (slock s).
Definition s_scroll (y : Z) (d : bool) (s : Screen) := mkScreen (charWidth s) (charHeight s) (cursorX s) (cursorY s) (buf s) (curFGCol s) (curBGCol s) y (full s) d (focus s) (slock s).
Definition s_full (s : Screen) := mkScreen (charWidth s) (charHeight s) (cursorX s) (cursorY s) (buf s) (curFGCol s) (curBGCol s) (scrollbackY s) true (globalDirty s) (focus s) (slock s).
Definition s_focus (f : bool) (s : Screen) := mkScreen (charWidth s) (charHeight s) (cursorX s) (cursorY s) (buf s) (curFGCol s) (curBGCol s) (scrollbackY s) (full s) (globalDirty s) f (slock s).
Definition s_lock (l : bool) (s : Screen) := mkScreen (charWidth s) (charHeight s) (cursorX s) (cursorY s) (buf s) (curFGCol s) (curBGCol s) (scrollbackY s) (full s) (globalDirty s) (focus s) l.
Definition i_lock (l : bool) (i : Input) := mkInput l (inputBuf i) (inputWriteIndex i) (inputReadIndex i) (inputLineIndex i) (inputMode i) (foreground i).
Definition i_buf (b : list Z) (i : Input) := mkInput (inputLock i) b (inputWriteIndex i) (inputReadIndex i) (inputLineIndex i) (inputMode i) (foreground i).
Definition i_write (w : Z) (i : Input) := mkInput (inputLock i) (inputBuf i) w (inputReadIndex i) (inputLineIndex i) (inputMode i) (foreground i).
Definition i_read (r : Z) (i : Input) := mkInput (inputLock i) (inputBuf i) (inputWriteIndex i) r (inputLineIndex i) (inputMode i) (foreground i).
Definition i_line (l : Z) (i : Input) := mkInput (inputLock i) (inputBuf i) (inputWriteIndex i) (inputReadIndex i) l (inputMode i) (foreground i).
Definition i_foreground (p : Z) (i : Input) := mkInput (inputLock i) (inputBuf i) (inputWriteIndex i) (inputReadIndex i) (inputLineIndex i) (inputMode i) p.

(** ** The screen *)

Definition VC_DIRTY (vc : VttyChar) : VttyChar := mkVc (vc_c vc) (fgCol vc) (bgCol vc) 1.
Definition setCell (i : Z) (f : VttyChar -> VttyChar) : M Screen unit := fun s =>
  if 0 <=? i then
    match buf s !! Z.to_nat i with Some vc => Done (tt, s_buf (<[Z.to_nat i := f vc]> (buf s)) s) | None => Fault end
  else Fault.

(** The cells of a new line keep only their foreground colour. *)
Fixpoint clearCells (n : nat) (i : Z) : M Screen unit :=
  match n with O => mret tt | S n => setCell i (fun vc => mkVc 0 (fgCol vc) 0 1);; clearCells n (i + 1) end.
Definition newline : M Screen unit :=
  modify (fun s => s_cursor 0 (cursorY s + 1) s);;
  s ← get;
  (if SCROLLBACK_LINES <=? cursorY s then modify s_full;; modify (s_cursor 0 0) else mret tt);;
  s ← get;
  clearCells (Z.to_nat (charWidth s)) (cursorY s * charWidth s);;
  s ← get;
  let y := cursorY s - charHeight s + 1 in
  let y := if y <? 0 then (if full s then SCROLLBACK_LINES + y else 0) else y in
  if negb (scrollbackY s =? y) then modify (s_scroll y true) else mret tt.

(** Swaps the bits 0 and 2. *)
Definition sgrToColor (sgr : Z) : Z :=
  u8 (Z.lor (Z.lor (Z.land sgr 0xA) (Z.shiftl (Z.land sgr 1) 2)) (Z.shiftr (Z.land sgr 4) 2)).
Definition inRange (lo hi a : Z) : bool := (lo <=? a) && (a <=? hi).
Definition setGraphics (a : Z) (s : Screen) : Screen :=
  if a =? 0 then s_colors 7 0 s
  else if a =? 1 then s_colors (Z.lxor (curFGCol s) 8) (curBGCol s) s
  else if inRange 30 37 a then s_colors (sgrToColor (a - 30)) (curBGCol s) s
  else if inRange 40 47 a then s_colors (curFGCol s) (sgrToColor (a - 40)) s
  else if inRange 90 97 a then s_colors (u8 (sgrToColor (a - 90) + 8)) (curBGCol s) s
  else if inRange 100 107 a then s_colors (curFGCol s) (u8 (sgrToColor (a - 100) + 8)) s
  else s.
Definition cursorBack : M Screen unit :=
  modify (fun s => if negb (cursorX s =? 0) then s_cursor (cursorX s - 1) (cursorY s) s
                   else s_cursor (charWidth s - 1) (Z.rem (cursorY s - 1) SCROLLBACK_LINES) s);;
  s ← get; setCell (cursorX s + cursorY s * charWidth s) VC_DIRTY.

(** The scan of an escape sequence: no final character, the final character
    with the arguments, or an address that cannot be read. *)
Inductive scanned := NoFinal | Final (i : Z) (args : list Z) (nrofArgs : Z) | BadAddress | ScanOn.
Fixpoint scanEscape (fuel : nat) (mem : gmap Z Z) (text i : Z) (args : list Z) (nrofArgs : Z) (noArgs : bool) : scanned :=
  match fuel with
  | O => ScanOn
  | S fuel =>
      match mem !! (text + i) with
      | None => BadAddress
      | Some c =>
          if c =? 0 then NoFinal
          else if inRange 48 57 c then
            let a := args !!! Z.to_nat nrofArgs in
            scanEscape fuel mem text (i + 1) (<[Z.to_nat nrofArgs := s32 (s32 (a * 10) + (c - 48))]> args) nrofArgs false
          else if (c =? 59) && (nrofArgs <? 7) then scanEscape fuel mem text (i + 1) args (nrofArgs + 1) noArgs
          else if inRange 0x40 0x7E c then Final i args (if noArgs then nrofArgs else nrofArgs + 1)
          else scanEscape fuel mem text (i + 1) args nrofArgs noArgs
      end
  end.

(** The number of characters to skip, or the error of a bad address. *)
Definition parseEscape (mem : gmap Z Z) (text : Z) : M Screen Z :=
  match mem !! (text + 1) with
  | None => mret (- EFAULT)
  | Some c =>
      if negb (c =? 91) then mret 0
      else match scanEscape (S (size mem)) mem text 2 (replicate 8 0) 0 true with
           | ScanOn => nofuel
           | BadAddress => mret (- EFAULT)
           | NoFinal => mret 0
           | Final final args nrofArgs =>
               let c := default 0 (mem !! (text + final)) in
               (if c =? 68 then cursorBack
                else if c =? 109 then modify (fun s => fold_left (fun s a => setGraphics a s) (take (Z.to_nat nrofArgs) args) s)
                else mret tt);;
               mret final
           end
  end.

Section tty.
(** What terminals use of the rest of the kernel: their semaphores, two for
    each terminal, signals, and the locks of an open file and its inode. *)
Class TtyParts (P : Type) := {
  semValue : Z -> P -> Z;
  semSignal : Z -> M P unit;
  semWait : Z -> M P bool;                   (* [false]: the thread stops *)
  sendSignalToGroup : Z -> Z -> M P Z;
  releaseFile : Z -> M P unit;               (* the inode, then the file *)
  acquireFile : Z -> M P unit
}.
Context {P : Type} `{TtyParts P}.

Record tty_state := mkTty {
  screens : list Screen;
  inputs : list Input;
  currentTty : Z;
  shiftPressed : bool; ctrlPressed : bool; ttyEarly : bool;
  fb : Framebuffer;
  memory : gmap Z Z;                         (* bytes that texts are read from and input is copied to *)
  pixels : gmap Z Z;                         (* the video memory, by words *)
  rest : P
}.
Notation ttyM := (M tty_state).

Definition set_screens (l : list Screen) (s : tty_state) := mkTty l (inputs s) (currentTty s) (shiftPressed s) (ctrlPressed s) (ttyEarly s) (fb s) (memory s) (pixels s) (rest s).
Definition set_inputs (l : list Input) (s : tty_state) := mkTty (screens s) l (currentTty s) (shiftPressed s) (ctrlPressed s) (ttyEarly s) (fb s) (memory s) (pixels s) (rest s).
Definition set_current (i : Z) (s : tty_state) := mkTty (screens s) (inputs s) i (shiftPressed s) (ctrlPressed s) (ttyEarly s) (fb s) (memory s) (pixels s) (rest s).
Definition set_shift (b : bool) (s : tty_state) := mkTty (screens s) (inputs s) (currentTty s) b (ctrlPressed s) (ttyEarly s) (fb s) (memory s) (pixels s) (rest s).
Definition set_ctrl (b : bool) (s : tty_state) := mkTty (screens s) (inputs s) (currentTty s) (shiftPressed s) b (ttyEarly s) (fb s) (memory s) (pixels s) (rest s).
Definition set_early (b : bool) (s : tty_state) := mkTty (screens s) (inputs s) (currentTty s) (shiftPressed s) (ctrlPressed s) b (fb s) (memory s) (pixels s) (rest s).
Definition set_memory (m : gmap Z Z) (s : tty_state) := mkTty (screens s) (inputs s) (currentTty s) (shiftPressed s) (ctrlPressed s) (ttyEarly s) (fb s) m (pixels s) (rest s).
Definition set_pixels (m : gmap Z Z) (s : tty_state) := mkTty (screens s) (inputs s) (currentTty s) (shiftPressed s) (ctrlPressed s) (ttyEarly s) (fb s) (memory s) m (rest s).
Definition set_rest (p : P) (s : tty_state) := mkTty (screens s) (inputs s) (currentTty s) (shiftPressed s) (ctrlPressed s) (ttyEarly s) (fb s) (memory s) (pixels s) p.

Definition onRest {A} (m : M P A) : ttyM A := fun s =>
  match m (rest s) with Done (a, p) => Done (a, set_rest p s) | Fault => Fault | NoFuel => NoFuel end.
Definition onScreen {A} (t : Z) (m : M Screen A) : ttyM A := fun s =>
  match screens s !! Z.to_nat t with
  | Some x => match m x with Done (a, x') => Done (a, set_screens (<[Z.to_nat t := x']> (screens s)) s) | Fault => Fault | NoFuel => NoFuel end
  | None => Fault
  end.
Definition getScreen (t : Z) : ttyM Screen := deref (fun s => screens s !! Z.to_nat t).
Definition getInput (t : Z) : ttyM Input := deref (fun s => inputs s !! Z.to_nat t).
Definition updInput (t : Z) (f : Input -> Input) : ttyM unit :=
  i ← getInput t; modify (fun s => set_inputs (<[Z.to_nat t := f i]> (inputs s)) s).
Definition acquireScreen (t : Z) : ttyM unit := x ← getScreen t; if slock x then fault else onScreen t (modify (s_lock true)).
Definition releaseScreen (t : Z) : ttyM unit := onScreen t (modify (s_lock false)).
Definition acquireInput (t : Z) : ttyM unit := i ← getInput t; if inputLock i then fault else updInput t (i_lock true).
Definition releaseInput (t : Z) : ttyM unit := updInput t (i_lock false).
Definition updateSem (t : Z) : Z := 2 * t.
Definition inputAvail (t : Z) : Z := 2 * t + 1.

(** *** Drawing *)

Definition colors : list Z :=
  [0x000000; 0x0000AA; 0x00AA00; 0x00AAAA; 0xAA0000; 0xAA00AA; 0xAA5500; 0xAAAAAA;
   0x555555; 0x5555FF; 0x55FF55; 0x55FFFF; 0xFF5555; 0xFF55FF; 0xFFFFFF; 0xFFFFFF].
Definition putPixel (a v : Z) : ttyM unit := fun s =>
  match pixels s !! a with Some _ => Done (tt, set_pixels (<[a := v]> (pixels s)) s) | None => Fault end.
Fixpoint drawLine (n : nat) (a line fg bg : Z) : ttyM unit :=
  match n with
  | O => mret tt
  | S n => putPixel a (if has line 1 then fg else bg);; drawLine n (a + BPP) (Z.shiftr line 1) fg bg
  end.
Fixpoint drawLines (n : nat) (a skip charIndex fg bg : Z) : ttyM unit :=
  match n with
  | O => mret tt
  | S n =>
      line ← deref (fun _ => font8x16 !! Z.to_nat charIndex);
      drawLine 8 a line fg bg;;
      drawLines n (a + 8 * BPP + skip) skip (charIndex + 1) fg bg
  end.
Definition drawChar (a skip : Z) (vc : VttyChar) : ttyM unit :=
  let c := if inRange 32 126 (vc_c vc) then vc_c vc else 32 in
  fg ← deref (fun _ => colors !! Z.to_nat (fgCol vc));
  bg ← deref (fun _ => colors !! Z.to_nat (bgCol vc));
  drawLines (Z.to_nat FONT_HEIGHT) a skip ((c - 32) * FONT_HEIGHT) fg bg.

Fixpoint updateRow (n : nat) (t vc a skip : Z) : ttyM unit :=
  match n with
  | O => mret tt
  | S n =>
      x ← getScreen t;
      cell ← deref (fun _ => buf x !! Z.to_nat vc);
      (if negb (dirty cell =? 0) || globalDirty x then
         drawChar a skip cell;; onScreen t (setCell vc (fun c => mkVc (vc_c c) (fgCol c) (bgCol c) 0))
       else mret tt);;
      updateRow n t (vc + 1) (a + FONT_WIDTH * BPP) skip
  end.
Fixpoint updateRows (n : nat) (t y vc a skip : Z) : ttyM unit :=
  match n with
  | O => mret tt
  | S n =>
      x ← getScreen t; f ← gets fb;
      updateRow (Z.to_nat (charWidth x)) t vc a skip;;
      let vc := if scrollbackY x + y + 1 =? SCROLLBACK_LINES then 0 else vc + charWidth x in
      updateRows n t (y + 1) vc (a + u32 (pitch f * FONT_HEIGHT)) skip
  end.
Definition fbUpdate (t : Z) : ttyM Z :=
  x ← getScreen t;
  if negb (focus x) then mret 0
  else
    f ← gets fb;
    let skip := s32 (pitch f - FONT_WIDTH * BPP) in
    updateRows (Z.to_nat (charHeight x)) t 0 (scrollbackY x * charWidth x) (vmem f) skip;;
    onScreen t (modify (fun x => s_scroll (scrollbackY x) false x));;
    x ← getScreen t;
    vc ← deref (fun _ => if 0 <=? cursorX x + cursorY x * charWidth x then buf x !! Z.to_nat (cursorX x + cursorY x * charWidth x) else None);
    y ← (if charHeight x =? 0 then fault else mret (Z.rem (cursorY x - scrollbackY x) (charHeight x)));
    let y := if y <? 0 then - y else y in
    drawChar (vmem f + u32 (pitch f * FONT_HEIGHT * y) + cursorX x * FONT_WIDTH * BPP) skip (mkVc (vc_c vc) 0 7 0);;
    mret 0.

(** *** Writing to a terminal *)

(** One character of [ttyPuts] and how many more to skip. *)
Definition putChar (t text i c : Z) : ttyM Z :=
  if c =? 13 then onScreen t (modify (fun x => s_cursor 0 (cursorY x) x));; mret 0
  else if c =? 10 then onScreen t newline;; mret 0
  else if c =? 27 then mem ← gets memory; onScreen t (parseEscape mem (text + i))
  else
    onScreen t (
      x ← get;
      setCell (cursorY x * charWidth x + cursorX x) (fun vc => mkVc c (curFGCol x) (curBGCol x) (dirty vc));;
      modify (fun x => s_cursor (cursorX x + 1) (cursorY x) x);;
      x ← get;
      if charWidth x <=? cursorX x then newline else mret tt);;
    mret 0.
Fixpoint putsLoop (fuel : nat) (t text textLen i : Z) : ttyM Z :=
  if negb (i <? textLen) then mret 0
  else match fuel with
  | O => nofuel
  | S fuel =>
      x ← getScreen t;
      onScreen t (setCell (cursorY x * charWidth x + cursorX x) VC_DIRTY);;
      s ← get;
      match memory s !! (text + i) with
      | None => if ttyEarly s then fault else mret (- EFAULT)
      | Some c => n ← putChar t text i c; putsLoop fuel t text textLen (u32 (u32 (i + n) + 1))
      end
  end.
Definition ttyPuts (fuel : nat) (t text textLen : Z) : ttyM Z :=
  acquireScreen t;;
  error ← putsLoop fuel t text textLen 0;
  s ← get;
  (if ttyEarly s then fbUpdate t;; releaseScreen t
   else
     releaseScreen t;;
     if semValue (updateSem t) (rest s) <=? 0 then onRest (semSignal (updateSem t)) else mret tt);;
  mret error.

Definition ttyScroll (amount : Z) : ttyM unit :=
  t ← gets currentTty;
  acquireScreen t;;
  x ← getScreen t;
  let y := scrollbackY x + amount in
  let y := if y <? 0 then (if full x then SCROLLBACK_LINES + y else 0) else if SCROLLBACK_LINES <=? y then Z.rem y SCROLLBACK_LINES else y in
  let y := if y =? Z.rem (cursorY x - charHeight x + 2) SCROLLBACK_LINES then Z.rem (cursorY x - charHeight x + 1) SCROLLBACK_LINES else y in
  onScreen t (modify (s_scroll y true));;
  onRest (semSignal (updateSem t));;
  releaseScreen t.

Definition ttySwitch (ttynr : Z) : ttyM unit :=
  if NROF_VTTYS <=? ttynr then mret tt
  else
    oldCurrent ← gets currentTty;
    onScreen oldCurrent (modify (s_focus false));;
    modify (set_current ttynr);;
    onScreen ttynr (modify (s_focus true));;
    onScreen ttynr (modify (fun x => s_scroll (scrollbackY x) true x));;
    onRest (semSignal (updateSem oldCurrent)).

(** One turn of the thread that draws the screen: [false] when it stops. *)
Definition fbUpdateTurn : ttyM bool :=
  t ← gets currentTty; acquireScreen t;;
  t ← gets currentTty; fbUpdate t;;
  t ← gets currentTty; releaseScreen t;;
  t ← gets currentTty; onRest (semWait (updateSem t)).
Definition fbPanicUpdate : ttyM unit := onScreen 0 (modify (s_focus true));; fbUpdate 0;; mret tt.

(** *** Input *)

Definition ttySignalInputSem (t : Z) : ttyM unit :=
  p ← gets rest; if semValue (inputAvail t) p <=? 0 then onRest (semSignal (inputAvail t)) else mret tt.

(** The do-while loop of [ttyRead]: the last index and the count, or [None] when
    the buffer cannot be written. *)
Fixpoint readLoop (fuel : nat) (t ri end_ cbuf bufSize ret : Z) : ttyM (option (Z * Z)) :=
  match fuel with
  | O => nofuel
  | S fuel =>
      if bufSize =? 0 then ttySignalInputSem t;; mret (Some (ri, ret))
      else
        let ri := Z.rem (ri + 1) INPUT_BUF_SIZE in
        i ← getInput t;
        c ← deref (fun _ => if 0 <=? ri then inputBuf i !! Z.to_nat ri else None);
        m ← gets memory;
        match m !! cbuf with
        | None => mret None
        | Some _ =>
            modify (set_memory (<[cbuf := c]> m));;
            if negb (ri =? end_) then readLoop fuel t ri end_ (cbuf + 1) (bufSize - 1) (ret + 1)
            else mret (Some (ri, ret + 1))
        end
  end.
(** [ttyRead] once there is input. *)
Definition ttyReadResume (file t buffer bufSize : Z) : ttyM Z :=
  acquireInput t;;
  i ← getInput t;
  let end_ := if has (inputMode i) INPUT_MODE_LINEBUF then inputLineIndex i else Z.rem (inputWriteIndex i - 1) INPUT_BUF_SIZE in
  r ← readLoop (S (Z.to_nat bufSize)) t (inputReadIndex i) end_ buffer bufSize 0;
  (match r with Some (ri, _) => updInput t (i_read ri) | None => mret tt end);;
  releaseInput t;;
  onRest (acquireFile file);;
  mret (match r with Some (_, ret) => ret | None => - EFAULT end).
(** [None]: the reader waits for input and goes on with [ttyReadResume]. *)
Definition ttyRead (file t buffer bufSize : Z) : ttyM (option Z) :=
  onRest (releaseFile file);;
  go ← onRest (semWait (inputAvail t));
  if go : bool then Some <$> ttyReadResume file t buffer bufSize else mret None.

(** The strings that are echoed: their addresses. *)
Context (fuel : nat) (ctrlC backspaceStr echoed : Z).

(** A key that types the character [c]. *)
Definition typeChar (t c : Z) : ttyM Z :=
  acquireInput t;;
  i ← getInput t;
  let wi := inputWriteIndex i in
  let echo := has (inputMode i) INPUT_MODE_ECHO in
  let linebuf := has (inputMode i) INPUT_MODE_LINEBUF in
  if (c =? 127) && linebuf then
    let wi2 := Z.land (wi - 1) (INPUT_BUF_SIZE - 1) in
    (if negb (wi2 =? inputLineIndex i) then
       updInput t (i_write wi2);;
       releaseInput t;;
       if echo then ttyPuts fuel t backspaceStr 7;; mret tt else mret tt
     else releaseInput t);;
    mret 0
  else
    (if (c =? 10) && linebuf then updInput t (i_line wi);; ttySignalInputSem t
     else if negb linebuf then ttySignalInputSem t else mret tt);;
    i ← getInput t;
    (if (0 <=? wi) && (wi <? INPUT_BUF_SIZE) then updInput t (i_buf (<[Z.to_nat wi := c]> (inputBuf i))) else fault);;
    (if wi =? inputReadIndex i then updInput t (fun i => i_read (Z.rem (inputReadIndex i + 1) INPUT_BUF_SIZE) i) else mret tt);;
    updInput t (i_write (Z.rem (wi + 1) INPUT_BUF_SIZE));;
    releaseInput t;;
    (if echo then modify (fun s => set_memory (<[echoed := c]> (memory s)) s);; ttyPuts fuel t echoed 1;; mret tt else mret tt);;
    mret 0.

Definition ttyHandleKeyEvent (eventCode : Z) (released : bool) : ttyM Z :=
  if released then
    (if eventCode =? KEY_LEFTSHIFT then modify (set_shift false)
     else if eventCode =? KEY_LEFTCTRL then modify (set_ctrl false) else mret tt);;
    mret 0
  else if eventCode =? KEY_LEFTSHIFT then modify (set_shift true);; mret 0
  else if inRange KEY_F1 KEY_F8 eventCode then ttySwitch (eventCode - KEY_F1);; mret 0
  else if eventCode =? KEY_PAGEUP then ttyScroll (-1);; mret 0
  else if eventCode =? KEY_PAGEDOWN then ttyScroll 1;; mret 0
  else if eventCode =? KEY_LEFTCTRL then modify (set_ctrl true);; mret 0
  else
    s ← get;
    let t := currentTty s in
    if ctrlPressed s then
      (if eventCode =? KEY_C then
         ttyPuts fuel t ctrlC 2;;
         i ← getInput t; onRest (sendSignalToGroup (foreground i) SIGINT);; mret tt
       else mret tt);;
      mret 0
    else
      c ← deref (fun _ => (if shiftPressed s then shiftKeymap else keymap) !! Z.to_nat eventCode);
      if c =? 0 then mret (- EINVAL) else typeChar t c.

Definition ttyInit (i : Input) : Input := mkInput (inputLock i) (replicate (Z.to_nat INPUT_BUF_SIZE) 0) (inputWriteIndex i) (INPUT_BUF_SIZE - 1) (INPUT_BUF_SIZE - 1) (Z.lor INPUT_MODE_LINEBUF INPUT_MODE_ECHO) (foreground i).

(** *** The device *)

Definition ttyWrite (t buffer bufSize : Z) : ttyM Z := ttyPuts fuel t buffer bufSize.
(** A word of user memory: four bytes. *)
Fixpoint storeBytes (l : list Z) (a : Z) : ttyM bool :=
  match l with
  | [] => mret true
  | b :: l => m ← gets memory; match m !! a with None => mret false | Some _ => modify (set_memory (<[a := b]> m));; storeBytes l (a + 1) end
  end.
Definition ttyIoctl (t req arg : Z) : ttyM Z :=
  if req =? TIOCGPGRP then
    i ← getInput t;
    let v := foreground i in
    ok ← storeBytes [u8 v; u8 (Z.shiftr v 8); u8 (Z.shiftr v 16); u8 (Z.shiftr v 24)] arg;
    mret (if ok : bool then 0 else - EFAULT)
  else if req =? TIOCSPGRP then
    m ← gets memory;
    b ← deref (fun _ => mapM (fun k => m !! (arg + k)) [0; 1; 2; 3]);
    let v := foldr (fun x acc => x + 256 * acc) 0 b in
    updInput t (i_foreground (s32 v));;
    mret 0
  else mret (- ENOSYS).

(** [fbInit]: the terminals for a framebuffer of a resolution. *)
Definition initScreen (f : Framebuffer) (x : Screen) : Screen :=
  let w := xResolution f / FONT_WIDTH in
  mkScreen w (yResolution f / FONT_HEIGHT) (cursorX x) (cursorY x)
    (replicate (Z.to_nat (SCROLLBACK_LINES * w)) (mkVc 0 0 0 0)) 7 (curBGCol x) (scrollbackY x) (full x) (globalDirty x) (focus x) (slock x).
End tty.
