(* ===== verification/Signal.v ===== *)
(** * Signals: [kernel/arch/x86_64/sched/signal.c]

    Signals that are sent to a process wait in a list of the process; the main
    thread gets a second queue entry and is made ready, so that it leaves
    whatever it waits for; on its way back to user mode the frame of the
    interrupt is saved and replaced by one that starts the handler, and the
    handler returns through [sigRet].  Threads, entries and ready queues are
    those of [ThreadQueue] and [ReadyQueue]; the stacks are byte memory. *)

From S2P Require Import Prelude Word Errno ThreadQueue ReadyQueue Bytes.
From S2P Require Fd.

Definition SIGKILL : Z := 9.
Definition SIGSTOP : Z := 7.
Definition SIGRTMAX : Z := 63.
Definition SIG_IGN : Z := 2 ^ 64 - 1.
Definition SIG_BLOCK : Z := 1.
Definition SIG_UNBLOCK : Z := 2.
Definition SIG_SETMASK : Z := 3.
Definition SIG_SIGNALED : Z := 0x300.
Definition SIG_TERMSIGNO_SHIFT : Z := 12.
Definition PROCSTATE_FINISHED : Z := 2.
Definition KERNEL_BASE : Z := 0xffffffff80000000.

(** ** Data *)

(** [siginfo_t]: four integers and a union of 16 bytes. *)
Record siginfo := mkInfo { si_signo : Z; si_errno : Z; si_code : Z; si_status : Z; si_data0 : Z; si_data1 : Z }.
Definition infoBytes (i : siginfo) : list Z :=
  toBytes 4 (si_signo i) ++ toBytes 4 (si_errno i) ++ toBytes 4 (si_code i) ++ toBytes 4 (si_status i) ++
  toBytes 8 (si_data0 i) ++ toBytes 8 (si_data1 i).
Definition sizeofSiginfo : Z := 32.
Definition zeroInfo : siginfo := mkInfo 0 0 0 0 0 0.

(** [struct sigaction]; the flags with the padding behind them. *)
Record sigaction := mkAct { sa_handler : Z; sa_mask : Z; sa_flags : Z; saTrampoline : Z }.
Definition sizeofSigaction : Z := 32.

#[export] Instance threadState_eq_dec : EqDecision threadState.
Proof. solve_decision. Defined.

Record PendingSignal := mkPend { snext : Z; sprev : Z; sinfo : siginfo }.

(** [struct SigRegs] without its queue entry, which is an entry of the
    scheduler's store at [newQueueEntry]. *)
Record SigRegs := mkRegs {
  general : list Z;                 (* r15 to rax, in the order of the frame *)
  rip : Z; rsp : Z; rflags : Z;
  rnext : Z;
  tState : threadState;
  rfloatsUsed : bool;
  rsigMask : Z;
  rfxsave : list Z
}.
Definition newQueueEntry (regs : Z) : Z := regs + 0xA0.
Definition zeroRegs : SigRegs := mkRegs (replicate 15 0) 0 0 0 0 FINISHED false 0 (replicate 512 0).
Definition zeroQe : ThreadQueueEntry := mkQe 0 false 0 0 0 None 0 0.

(** What this file uses of [struct Process]. *)
Record sproc := mkSp {
  pid : Z; pstatus : Z; plock : bool; grpNext : Z; mainThread : Z;
  sigResched : bool; sigNrPending : Z; sigMask : Z; sigPending : Z;
  sigFirst : Z; sigLast : Z; sigRegStack : Z;
  sigAct : list sigaction; sigAltStack : Z; sigAltStackSize : Z; exitInfo : siginfo
}.
(** What it uses of [struct ThreadInfo] besides the fields of the scheduler. *)
Record threadExtra := mkExtra { process : Z; floatsUsed : bool; fxsaveArea : list Z; stackPointer : Z; userStackPointer : Z }.

Definition p_lock v (p : sproc) := mkSp (pid p) (pstatus p) v (grpNext p) (mainThread p) (sigResched p) (sigNrPending p) (sigMask p) (sigPending p) (sigFirst p) (sigLast p) (sigRegStack p) (sigAct p) (sigAltStack p) (sigAltStackSize p) (exitInfo p).
Definition p_resched v (p : sproc) := mkSp (pid p) (pstatus p) (plock p) (grpNext p) (mainThread p) v (sigNrPending p) (sigMask p) (sigPending p) (sigFirst p) (sigLast p) (sigRegStack p) (sigAct p) (sigAltStack p) (sigAltStackSize p) (exitInfo p).
Definition p_count d (p : sproc) := mkSp (pid p) (pstatus p) (plock p) (grpNext p) (mainThread p) (sigResched p) (s32 (sigNrPending p + d)) (sigMask p) (sigPending p) (sigFirst p) (sigLast p) (sigRegStack p) (sigAct p) (sigAltStack p) (sigAltStackSize p) (exitInfo p).
Definition p_mask v (p : sproc) := mkSp (pid p) (pstatus p) (plock p) (grpNext p) (mainThread p) (sigResched p) (sigNrPending p) v (sigPending p) (sigFirst p) (sigLast p) (sigRegStack p) (sigAct p) (sigAltStack p) (sigAltStackSize p) (exitInfo p).
Definition p_pending v (p : sproc) := mkSp (pid p) (pstatus p) (plock p) (grpNext p) (mainThread p) (sigResched p) (sigNrPending p) (sigMask p) v (sigFirst p) (sigLast p) (sigRegStack p) (sigAct p) (sigAltStack p) (sigAltStackSize p) (exitInfo p).
Definition p_first v (p : sproc) := mkSp (pid p) (pstatus p) (plock p) (grpNext p) (mainThread p) (sigResched p) (sigNrPending p) (sigMask p) (sigPending p) v (sigLast p) (sigRegStack p) (sigAct p) (sigAltStack p) (sigAltStackSize p) (exitInfo p).
Definition p_last v (p : sproc) := mkSp (pid p) (pstatus p) (plock p) (grpNext p) (mainThread p) (sigResched p) (sigNrPending p) (sigMask p) (sigPending p) (sigFirst p) v (sigRegStack p) (sigAct p) (sigAltStack p) (sigAltStackSize p) (exitInfo p).
Definition p_regs v (p : sproc) := mkSp (pid p) (pstatus p) (plock p) (grpNext p) (mainThread p) (sigResched p) (sigNrPending p) (sigMask p) (sigPending p) (sigFirst p) (sigLast p) v (sigAct p) (sigAltStack p) (sigAltStackSize p) (exitInfo p).
Definition p_act v (p : sproc) := mkSp (pid p) (pstatus p) (plock p) (grpNext p) (mainThread p) (sigResched p) (sigNrPending p) (sigMask p) (sigPending p) (sigFirst p) (sigLast p) (sigRegStack p) v (sigAltStack p) (sigAltStackSize p) (exitInfo p).
Definition p_exit v (p : sproc) := mkSp (pid p) (pstatus p) (plock p) (grpNext p) (mainThread p) (sigResched p) (sigNrPending p) (sigMask p) (sigPending p) (sigFirst p) (sigLast p) (sigRegStack p) (sigAct p) (sigAltStack p) (sigAltStackSize p) v.
Definition s_next v (e : PendingSignal) := mkPend v (sprev e) (sinfo e).
Definition s_prev v (e : PendingSignal) := mkPend (snext e) v (sinfo e).
Definition s_info v (e : PendingSignal) := mkPend (snext e) (sprev e) v.
Definition i_signo v (i : siginfo) := mkInfo v (si_errno i) (si_code i) (si_status i) (si_data0 i) (si_data1 i).
Definition i_status v (i : siginfo) := mkInfo (si_signo i) (si_errno i) (si_code i) v (si_data0 i) (si_data1 i).
Definition r_saved l ip sp fl (r : SigRegs) := mkRegs l ip sp fl (rnext r) (tState r) (rfloatsUsed r) (rsigMask r) (rfxsave r).
Definition r_next v (r : SigRegs) := mkRegs (general r) (rip r) (rsp r) (rflags r) v (tState r) (rfloatsUsed r) (rsigMask r) (rfxsave r).
Definition r_state v (r : SigRegs) := mkRegs (general r) (rip r) (rsp r) (rflags r) (rnext r) v (rfloatsUsed r) (rsigMask r) (rfxsave r).
Definition r_floats v (r : SigRegs) := mkRegs (general r) (rip r) (rsp r) (rflags r) (rnext r) (tState r) v (rsigMask r) (rfxsave r).
Definition r_mask v (r : SigRegs) := mkRegs (general r) (rip r) (rsp r) (rflags r) (rnext r) (tState r) (rfloatsUsed r) v (rfxsave r).
Definition r_fxsave v (r : SigRegs) := mkRegs (general r) (rip r) (rsp r) (rflags r) (rnext r) (tState r) (rfloatsUsed r) (rsigMask r) v.
Definition x_sp v (x : threadExtra) := mkExtra (process x) (floatsUsed x) (fxsaveArea x) v (userStackPointer x).
Definition t_sigDepth v (t : ThreadInfo) := mkThread (tstate t) (tlock t) (cpuAffinity t) v (queueEntry t) (priority t) (fixedPriority t) (jiffiesRemaining t).
Definition t_entry v (t : ThreadInfo) := mkThread (tstate t) (tlock t) (cpuAffinity t) (tsigDepth t) v (priority t) (fixedPriority t) (jiffiesRemaining t).
Definition qe_thread v (e : ThreadQueueEntry) := mkQe v (sigCont e) (qsigDepth e) (nextThread e) (prevThread e) (queue e) (prevQueueEntry e) (waitData e).
Definition qe_depth v (e : ThreadQueueEntry) := mkQe (qthread e) (sigCont e) v (nextThread e) (prevThread e) (queue e) (prevQueueEntry e) (waitData e).
Definition qe_stack v (e : ThreadQueueEntry) := mkQe (qthread e) (sigCont e) (qsigDepth e) (nextThread e) (prevThread e) (queue e) v (waitData e).

(** Memory for objects, and the tables of processes and groups. *)
Class SignalParts (K : Type) := {
  kzalloc : K -> Z * K;
  kfree : Z -> K -> K;
  findProc : Z -> K -> Z;           (* [getProcFromPid] *)
  groupFirst : Z -> K -> option Z   (* [getPGroup] and the first process of the group *)
}.

Record sigstate (K : Type) := mkSs {
  sch : sched;
  procs : gmap Z sproc;
  pend : gmap Z PendingSignal;
  regStore : gmap Z SigRegs;
  extras : gmap Z threadExtra;
  smem : gmap Z Z;
  rsp0 : Z;                         (* the stack pointer in the task segment *)
  kparts : K
}.
Arguments mkSs {K}.
Arguments sch {K}.
Arguments procs {K}.
Arguments pend {K}.
Arguments regStore {K}.
Arguments extras {K}.
Arguments smem {K}.
Arguments rsp0 {K}.
Arguments kparts {K}.

Definition set_sch {K} v (s : sigstate K) : sigstate K := mkSs v (procs s) (pend s) (regStore s) (extras s) (smem s) (rsp0 s) (kparts s).
Definition set_procs {K} v (s : sigstate K) : sigstate K := mkSs (sch s) v (pend s) (regStore s) (extras s) (smem s) (rsp0 s) (kparts s).
Definition set_pend {K} v (s : sigstate K) : sigstate K := mkSs (sch s) (procs s) v (regStore s) (extras s) (smem s) (rsp0 s) (kparts s).
Definition set_regStore {K} v (s : sigstate K) : sigstate K := mkSs (sch s) (procs s) (pend s) v (extras s) (smem s) (rsp0 s) (kparts s).
Definition set_extras {K} v (s : sigstate K) : sigstate K := mkSs (sch s) (procs s) (pend s) (regStore s) v (smem s) (rsp0 s) (kparts s).
Definition set_smem {K} v (s : sigstate K) : sigstate K := mkSs (sch s) (procs s) (pend s) (regStore s) (extras s) v (rsp0 s) (kparts s).
Definition set_rsp0 {K} v (s : sigstate K) : sigstate K := mkSs (sch s) (procs s) (pend s) (regStore s) (extras s) (smem s) v (kparts s).
Definition set_kparts {K} v (s : sigstate K) : sigstate K := mkSs (sch s) (procs s) (pend s) (regStore s) (extras s) (smem s) (rsp0 s) v.
#[export] Instance sigMem {K} : ByteMem (sigstate K) := {| bytes := smem; setBytes := set_smem |}.
#[export] Instance sigMemOk {K} : ByteMemOk (sigstate K).
Proof. split; by intros; destruct v || done. Qed.

Section signal.
Context {K : Type} `{SignalParts K}.
(** The address of [signalExit], and what other processors and interrupts do
    while a lock is free. *)
Context (signalExit : Z) (meanwhile : M (sigstate K) unit).
Notation pM := (M (sigstate K)).

Definition onSched {A} (m : M sched A) : pM A := fun s =>
  match m (sch s) with
  | Done (a, x) => Done (a, set_sch x s)
  | Fault => Fault
  | NoFuel => NoFuel
  end.
(** Objects behind pointers. *)
Definition getProc (p : Z) : pM sproc := deref (fun s => procs s !! p).
Definition updProc (p : Z) (f : sproc -> sproc) : pM unit := fun s =>
  match procs s !! p with Some o => Done (tt, set_procs (<[p := f o]> (procs s)) s) | None => Fault end.
Definition getSig (p : Z) : pM PendingSignal := deref (fun s => pend s !! p).
Definition updSig (p : Z) (f : PendingSignal -> PendingSignal) : pM unit := fun s =>
  match pend s !! p with Some o => Done (tt, set_pend (<[p := f o]> (pend s)) s) | None => Fault end.
Definition getRegs (p : Z) : pM SigRegs := deref (fun s => regStore s !! p).
Definition updRegs (p : Z) (f : SigRegs -> SigRegs) : pM unit := fun s =>
  match regStore s !! p with Some o => Done (tt, set_regStore (<[p := f o]> (regStore s)) s) | None => Fault end.
Definition getExtra (p : Z) : pM threadExtra := deref (fun s => extras s !! p).
Definition updExtra (p : Z) (f : threadExtra -> threadExtra) : pM unit := fun s =>
  match extras s !! p with Some o => Done (tt, set_extras (<[p := f o]> (extras s)) s) | None => Fault end.
Definition getAct (p sigNum : Z) : pM sigaction :=
  o ← getProc p; deref (fun _ => if sigNum <? 0 then None else sigAct o !! Z.to_nat sigNum).
Definition acquireProc (p : Z) : pM unit := o ← getProc p; if plock o then fault else updProc p (p_lock true).
Definition releaseProc (p : Z) : pM unit := updProc p (p_lock false).
Definition alloc : pM Z := fun s => let '(a, k) := kzalloc (kparts s) in Done (a, set_kparts k s).
Definition newSig : pM Z :=
  a ← alloc; (if a =? 0 then mret tt else modify (fun s => set_pend (<[a := mkPend 0 0 zeroInfo]> (pend s)) s));; mret a.
Definition newRegs : pM Z :=
  a ← alloc;
  (if a =? 0 then mret tt
   else modify (fun s => set_regStore (<[a := zeroRegs]> (regStore s)) s);;
     onSched (modify (fun s => set_qes s (<[newQueueEntry a := zeroQe]> (qes s)))));;
  mret a.
Definition freeSig (a : Z) : pM unit := modify (fun s => set_kparts (kfree a (kparts s)) (set_pend (delete a (pend s)) s)).
Definition currentProcess : pM Z := t ← gets (fun s => currentThread (sch s)); x ← getExtra t; mret (process x).

(** [1 << sigNum]: the shift of a 32 bit integer, whose count the machine takes
    modulo 32, extended to 64 bits. *)
Definition sigBit (sigNum : Z) : Z := u64 (s32 (Z.shiftl 1 (sigNum mod 32))).
Definition lnot64 (x : Z) : Z := u64 (Z.lnot x).

(** ** Sending *)

Fixpoint waitReceived (fuel : nat) (proc : Z) : pM unit :=
  match fuel with
  | O => nofuel
  | S fuel =>
      p ← getProc proc;
      if sigResched p then releaseProc proc;; meanwhile;; acquireProc proc;; waitReceived fuel proc
      else mret tt
  end.
Definition WAIT_FUEL : nat := 64.

Definition notifyProcess (proc regs : Z) : pM unit :=
  waitReceived WAIT_FUEL proc;;
  p ← getProc proc;
  let main := mainThread p in
  onSched (acquireThread main);;
  t ← onSched (getThread main);
  updRegs regs (r_state (tstate t));;
  let qe := newQueueEntry regs in
  onSched (updQe qe (qe_thread main));;
  onSched (updThread main (fun t => t_sigDepth (s32 (tsigDepth t + 1)) t));;
  t ← onSched (getThread main);
  onSched (updQe qe (qe_depth (tsigDepth t)));;
  onSched (updQe qe (qe_stack (queueEntry t)));;
  onSched (updThread main (t_entry qe));;
  p ← getProc proc;
  updRegs regs (r_next (sigRegStack p));;
  updProc proc (p_regs regs);;
  updProc proc (p_resched true);;
  t ← onSched (getThread main);
  (if bool_decide (tstate t = SCHEDWAIT) then mret tt
   else
     (if bool_decide (tstate t = RUNNING) then mret tt
      else onSched (readyQueuePush (queueEntry t)));;
     t ← onSched (getThread main);
     onSched (c ← getCpu (cpuAffinity t); modify (fun s => set_ipis s (apicID c :: ipis s))));;
  onSched (releaseThread main).

(** The first process gets only signals that it handles. *)
Definition refusesSignal (p : sproc) (proc sigNum : Z) : pM bool :=
  if pid p =? 1 then act ← getAct proc sigNum; mret (saTrampoline act =? 0) else mret false.
(** A signal at the end of the list. *)
Definition linkSignal (proc ps : Z) : pM unit :=
  p ← getProc proc;
  (if negb (sigLast p =? 0) then updSig (sigLast p) (s_next ps) else updProc proc (p_first ps));;
  updSig ps (s_prev (sigLast p));;
  updProc proc (p_last ps).
Definition sendSignal (proc sigNum : Z) : pM Z :=
  p ← getProc proc;
  if pstatus p =? PROCSTATE_FINISHED then mret (- ESRCH)
  else
    refused ← refusesSignal p proc sigNum;
    if refused : bool then mret (- EPERM)
    else
      ps ← newSig;
      if ps =? 0 then mret (- ENOMEM)
      else
        updSig ps (fun e => s_info (i_signo sigNum (sinfo e)) e);;
        acquireProc proc;;
        linkSignal proc ps;;
        updProc proc (fun p => p_pending (Z.lor (sigPending p) (sigBit sigNum)) p);;
        updProc proc (p_count 1);;
        p ← getProc proc;
        (if Z.land (sigMask p) (sigBit sigNum) =? 0 then regs ← newRegs; notifyProcess proc regs else mret tt);;
        releaseProc proc;;
        mret 0.

Definition sendSignalToPid (pid sigNum : Z) : pM Z :=
  proc ← gets (fun s : sigstate K => findProc pid (kparts s));
  if proc =? 0 then mret (- ESRCH) else sendSignal proc sigNum.

Fixpoint sendMembers (fuel : nat) (proc error sigNum : Z) : pM Z :=
  match fuel with
  | O => nofuel
  | S fuel =>
      if (proc =? 0) || negb (error =? 0) then mret error
      else
        p ← getProc proc;
        let next := grpNext p in
        error ← sendSignal proc sigNum;
        sendMembers fuel next error sigNum
  end.
Definition sendSignalToGroup (pgid sigNum : Z) : pM Z :=
  first ← gets (fun s : sigstate K => groupFirst pgid (kparts s));
  match first with
  | None => mret (- ESRCH)
  | Some proc => fuel ← gets (fun s => S (size (procs s))); sendMembers fuel proc 0 sigNum
  end.

(** ** The mask *)

(** A set of signals behind a pointer: none, in memory, or in a structure of
    the kernel. *)
Inductive setPtr := NullSet | SetAt (a : Z) | SetOf (v : Z).
Definition readSet (p : setPtr) : pM Z :=
  match p with NullSet => fault | SetAt a => ld64 a | SetOf v => mret v end.

(** [__builtin_ffsll]: the number of the first bit, counted from 1. *)
Fixpoint ffsFrom (n : nat) (i x : Z) : Z :=
  match n with O => 0 | S n => if Z.testbit x i then i + 1 else ffsFrom n (i + 1) x end.
Definition ffsll (x : Z) : Z := ffsFrom 64 0 x.

(** The loop over the signals that are not blocked any more.  The machine takes
    the count of a shift modulo 64. *)
Fixpoint sendUnblocked (fuel : nat) (proc unblocked base : Z) : pM unit :=
  match fuel with
  | O => nofuel
  | S fuel =>
      let set := ffsll unblocked in
      if set =? 0 then mret tt
      else
        sendSignal proc (set - 1 + base);;
        sendUnblocked fuel proc (Z.shiftr unblocked (set mod 64)) set
  end.

Definition sigprocmask (how : Z) (newset : setPtr) (oldset proc : Z) : pM Z :=
  acquireProc proc;;
  p ← getProc proc;
  let newMask := sigMask p in
  (if negb (oldset =? 0) then st64 oldset newMask else mret tt);;
  match newset with
  | NullSet => releaseProc proc;; mret 0
  | _ =>
      r ← (if how =? SIG_BLOCK then v ← readSet newset; mret (Some (Z.lor newMask v))
           else if how =? SIG_UNBLOCK then v ← readSet newset; mret (Some (Z.land newMask (lnot64 v)))
           else if how =? SIG_SETMASK then v ← readSet newset; mret (Some v)
           else mret None);
      match r with
      | None => releaseProc proc;; mret (- EINVAL)
      | Some newMask =>
          p ← getProc proc;
          let unblocked := Z.land (Z.lxor (Z.lor newMask (sigMask p)) (sigMask p)) (sigPending p) in
          updProc proc (p_mask newMask);;
          releaseProc proc;;
          if unblocked =? 0 then mret 0
          else sendUnblocked 65 proc unblocked 0;; releaseProc proc;; mret 0
      end
  end.
Definition sysSigprocmask (how newset oldset : Z) : pM Z :=
  proc ← currentProcess;
  sigprocmask how (if newset =? 0 then NullSet else SetAt newset) oldset proc.

(** ** Handlers *)

Definition ldAction (a : Z) : pM sigaction :=
  h ← ld64 a; m ← ld64 (u64 (a + 8)); f ← ld64 (u64 (a + 16)); t ← ld64 (u64 (a + 24)); mret (mkAct h m f t).
Definition stAction (a : Z) (x : sigaction) : pM unit :=
  st64 a (sa_handler x);; st64 (u64 (a + 8)) (sa_mask x);; st64 (u64 (a + 16)) (sa_flags x);; st64 (u64 (a + 24)) (saTrampoline x).
Definition sysSigHandler (sigNum action oldAction : Z) : pM Z :=
  if (sigNum <? 0) || (SIGRTMAX <? sigNum) || (sigNum =? SIGKILL) || (sigNum =? SIGSTOP) then mret (- EINVAL)
  else
    proc ← currentProcess;
    acquireProc proc;;
    error ← (if negb (oldAction =? 0) then
               let error := Fd.validateUserPointer oldAction sizeofSigaction in
               if negb (error =? 0) then mret error
               else act ← getAct proc sigNum; stAction oldAction act;; mret 0
             else mret 0);
    if negb (error =? 0) then releaseProc proc;; mret error
    else if action =? 0 then releaseProc proc;; mret 0
    else
      let error := Fd.validateUserPointer action sizeofSigaction in
      if negb (error =? 0) then releaseProc proc;; mret error
      else
        act ← ldAction action;
        updProc proc (fun p => p_act (<[Z.to_nat sigNum := act]> (sigAct p)) p);;
        releaseProc proc;;
        mret 0.

(** ** Delivery *)

Fixpoint ldWords (n : nat) (a : Z) : pM (list Z) :=
  match n with O => mret [] | S n => x ← ld64 a; l ← ldWords n (u64 (a + 8)); mret (x :: l) end.
(** The frame of an interrupt: 15 registers, then what the processor pushed:
    rip, cs, rflags, rsp and ss. *)
Definition copyRegs (regs irqStack : Z) : pM unit :=
  l ← ldWords 15 irqStack;
  ip ← ld64 (irqStack + 120); fl ← ld64 (irqStack + 136); sp ← ld64 (irqStack + 144);
  updRegs regs (r_saved l ip sp fl).

(** The registers, the mask and the floating point state are saved. *)
Definition saveContext (x : threadExtra) (regs mask irqStack : Z) : pM unit :=
  copyRegs regs irqStack;;
  updRegs regs (r_mask mask);;
  updRegs regs (r_floats (floatsUsed x));;
  if floatsUsed x then updRegs regs (r_fxsave (fxsaveArea x)) else mret tt.

(** The first signal from [sig] on that is not blocked leaves the list. *)
Fixpoint pendingFrom (fuel : nat) (proc sig : Z) : pM Z :=
  match fuel with
  | O => nofuel
  | S fuel =>
      if sig =? 0 then mret 0
      else
        e ← getSig sig;
        p ← getProc proc;
        if Z.land (sigMask p) (sigBit (si_signo (sinfo e))) =? 0 then
          (if negb (sprev e =? 0) then updSig (sprev e) (s_next (snext e)) else updProc proc (p_first (snext e)));;
          e ← getSig sig;
          (if negb (snext e =? 0) then updSig (snext e) (s_prev (sprev e)) else updProc proc (p_last (sprev e)));;
          mret sig
        else pendingFrom fuel proc (snext e)
  end.
Definition getPendingSignal (proc : Z) : pM Z :=
  p ← getProc proc; fuel ← gets (fun s => S (size (pend s))); pendingFrom fuel proc (sigFirst p).

(** Where the signal information goes: the alternative stack, or below the red
    zone of the stack of the user. *)
Definition handlerStack (proc curThread iret : Z) : pM Z :=
  p ← getProc proc;
  if negb (sigAltStack p =? 0) && (sigRegStack p =? 0) then mret (u64 (sigAltStack p + sigAltStackSize p))
  else
    ip ← ld64 iret;
    stack ← (if ip <? KERNEL_BASE then ld64 (iret + 24) else x ← getExtra curThread; mret (userStackPointer x));
    mret (u64 (stack - 128)).

(** The new frame: the handler, or the end of the process. *)
Definition startHandler (act : sigaction) (sigNum stack iret : Z) : pM unit :=
  st64 (iret + 32) 0x23;;
  st64 (iret + 24) stack;;
  fl ← ld64 (iret + 16);
  st64 (iret + 16) (Z.lor fl 512);;
  st64 (iret + 8) 0x2B;;
  st64 iret (saTrampoline act);;
  st64 (iret - 8) (sa_handler act);;
  st64 (iret - 24) 0;;
  st64 (iret - 32) sigNum;;
  st64 (iret - 40) stack.
Definition defaultAction (proc curThread sigNum iret : Z) (info : siginfo) : pM unit :=
  updProc proc (p_exit (i_status (Z.lor SIG_SIGNALED (Z.shiftl sigNum SIG_TERMSIGNO_SHIFT)) info));;
  st64 iret signalExit;;
  st64 (iret + 8) 8;;
  st64 (iret + 24) curThread;;
  st64 (iret + 32) 0x10.

Definition handleSignal (curThread irqStack : Z) : pM unit :=
  x ← getExtra curThread;
  let proc := process x in
  if proc =? 0 then mret tt
  else
    p ← getProc proc;
    if negb (sigResched p) then mret tt
    else
      acquireProc proc;;
      updProc proc (p_resched false);;
      sig ← getPendingSignal proc;
      if sig =? 0 then mret tt
      else
        e ← getSig sig;
        let sigNum := si_signo (sinfo e) in
        updProc proc (fun p => p_pending (Z.land (sigPending p) (lnot64 (sigBit sigNum))) p);;
        updProc proc (p_count (-1));;
        act ← getAct proc sigNum;
        if sa_handler act =? SIG_IGN then releaseProc proc;; freeSig sig
        else
          updProc proc (p_mask (sa_mask act));;
          p ← getProc proc;
          let regs := sigRegStack p in
          saveContext x regs (sigMask p) irqStack;;
          let iret := irqStack + 120 in
          stack ← handlerStack proc curThread iret;
          let stack := u64 (stack - sizeofSiginfo) in
          stBytes (infoBytes (sinfo e)) stack;;
          modify (set_rsp0 (iret + 40));;
          updExtra curThread (x_sp (iret + 40));;
          (if negb (sa_handler act =? 0) then startHandler act sigNum stack iret
           else defaultAction proc curThread sigNum iret (sinfo e));;
          releaseProc proc;;
          act ← getAct proc sigNum;
          sigprocmask SIG_SETMASK (SetOf (sa_mask act)) 0 proc;;
          freeSig sig.

Definition sigRet : pM Z :=
  curThread ← gets (fun s => currentThread (sch s));
  x ← getExtra curThread;
  let proc := process x in
  acquireProc proc;;
  p ← getProc proc;
  let regs := sigRegStack p in
  r ← getRegs regs;
  updProc proc (p_regs (rnext r));;
  releaseProc proc;;
  sigprocmask SIG_SETMASK (SetOf (rsigMask r)) 0 proc;;
  onSched (acquireThread curThread);;
  onSched (updThread curThread (fun t => t_sigDepth (s32 (tsigDepth t - 1)) t));;
  t ← onSched (getThread curThread);
  e ← onSched (getQe (queueEntry t));
  onSched (updThread curThread (t_entry (prevQueueEntry e)));;
  mret regs.
End signal.
