(* ===== verification/SignalSpec.v ===== *)
(** * Signals are delivered and the program goes on

    The pending signals of a process as a list, what sending and delivery do to
    it, and the life of a signal: sent, handled, and the frame of the
    interrupted program back. *)

From S2P Require Import Prelude Word Errno ThreadQueue ReadyQueue Bytes Signal.
From S2P Require Fd.

(** ** Pending signals as a list *)

Notation plist := (list (Z * siginfo)).
Definition firstp (l : plist) (next : Z) : Z := match l with [] => next | (a, _) :: _ => a end.
Fixpoint lastp (prev : Z) (l : plist) : Z := match l with [] => prev | (a, _) :: l => lastp a l end.
Fixpoint pending (m : gmap Z PendingSignal) (prev : Z) (l : plist) (next : Z) : Prop :=
  match l with
  | [] => True
  | (a, i) :: l => a <> 0 /\ m !! a = Some (mkPend (firstp l next) prev i) /\ pending m a l next
  end.

Lemma lastSig_snoc prev l a i : lastp prev (l ++ [(a, i)]) = a.
Proof. revert prev. by induction l as [|[] l IH]; intros prev; cbn. Qed.
Lemma pending_ext m m' prev l next : pending m prev l next -> (forall a, a ∈ l.*1 -> m' !! a = m !! a) -> pending m' prev l next.
Proof.
  revert prev. induction l as [|[a i] l IH]; intros prev Hp Hm; [done|]. destruct Hp as (Ha & Hl & Hp). split; [done|]. split.
  - rewrite Hm; [done|]. apply elem_of_cons; by left.
  - apply IH; [done|]. intros b Hb. apply Hm. apply elem_of_cons; by right.
Qed.
Lemma pending_app m prev l1 l2 next : pending m prev (l1 ++ l2) next <-> pending m prev l1 (firstp l2 next) /\ pending m (lastp prev l1) l2 next.
Proof.
  revert prev. induction l1 as [|[a i] l1 IH]; intros prev; cbn [app pending lastp firstp]; [tauto|].
  rewrite IH. replace (firstp (l1 ++ l2) next) with (firstp l1 (firstp l2 next)) by (by destruct l1 as [|[]]). tauto.
Qed.
Lemma pending_in m prev l next a : pending m prev l next -> a ∈ l.*1 -> a <> 0 /\ is_Some (m !! a).
Proof.
  revert prev. induction l as [|[b i] l IH]; intros prev Hp Ha; cbn in Ha; [by apply elem_of_nil in Ha|]. destruct Hp as (Hb & Hm & Hp).
  apply elem_of_cons in Ha as [->|Ha]; [eauto|]. by eapply IH.
Qed.
(** The link of the last entry, and the link back of the first. *)
Lemma pending_set_next m prev l a i next v : NoDup (l ++ [(a, i)]).*1 -> pending m prev (l ++ [(a, i)]) next ->
  exists e, m !! a = Some e /\ pending (<[a := s_next v e]> m) prev (l ++ [(a, i)]) v.
Proof.
  intros Hnd Hp. apply pending_app in Hp as [H1 (Ha & He & _)]. eexists. split; [exact He|]. rewrite fmap_app in Hnd. apply NoDup_app in Hnd as (_ & Hd & _).
  apply pending_app. split; [apply (pending_ext m); [done|]|].
  - intros b Hb. apply lookup_insert_ne. intros ->. apply (Hd b Hb). apply elem_of_cons; by left.
  - split; [done|]. by rewrite lookup_insert_eq.
Qed.
Lemma pending_set_prev m prev l a i next v : NoDup ((a, i) :: l).*1 -> pending m prev ((a, i) :: l) next ->
  exists e, m !! a = Some e /\ pending (<[a := s_prev v e]> m) v ((a, i) :: l) next.
Proof.
  intros Hnd (Ha & He & Hp). eexists. split; [exact He|]. cbn in Hnd. apply NoDup_cons in Hnd as [Hn _]. split; [done|]. rewrite lookup_insert_eq. split; [done|].
  apply (pending_ext m); [done|]. intros b Hb. apply lookup_insert_ne. by intros ->.
Qed.

(** The signals [l] wait for the process at [proc], in this order. *)
Definition waiting {K} (s : sigstate K) (proc : Z) (l : plist) : Prop :=
  NoDup l.*1 /\ pending (pend s) 0 l 0 /\ exists p, procs s !! proc = Some p /\ sigFirst p = firstp l 0 /\ sigLast p = lastp 0 l.

Definition blocked (mask : Z) (i : siginfo) : Prop := Z.land mask (sigBit (si_signo i)) <> 0.

Lemma waiting_size {K} (s : sigstate K) proc l : waiting s proc l -> (length l <= size (pend s))%nat.
Proof.
  intros (Hnd & Hp & _). rewrite <- size_dom, <- (length_fmap fst). transitivity (size (list_to_set (C := gset Z) l.*1)); [by rewrite size_list_to_set|].
  apply subseteq_size. intros a Ha. apply elem_of_list_to_set in Ha. apply elem_of_dom. by eapply pending_in.
Qed.

Section signal.
Context {K : Type} `{SignalParts K}.
Implicit Types (s : sigstate K) (Q : unit -> sigstate K -> Prop).

(** ** Steps *)
Lemma wp_sigProc p o s (Q : sproc -> sigstate K -> Prop) : procs s !! p = Some o -> Q o s -> wp (getProc p) s Q.
Proof. intros Hp HQ. apply wp_deref. eauto. Qed.
Lemma wp_setProc p o f s Q : procs s !! p = Some o -> Q tt (set_procs (<[p := f o]> (procs s)) s) -> wp (updProc p f) s Q.
Proof. intros Hp HQ. unfold wp, updProc. by rewrite Hp. Qed.
Lemma wp_getSig p o s (Q : PendingSignal -> sigstate K -> Prop) : pend s !! p = Some o -> Q o s -> wp (getSig p) s Q.
Proof. intros Hp HQ. apply wp_deref. eauto. Qed.
Lemma wp_updSig p o f s Q : pend s !! p = Some o -> Q tt (set_pend (<[p := f o]> (pend s)) s) -> wp (updSig p f) s Q.
Proof. intros Hp HQ. unfold wp, updSig. by rewrite Hp. Qed.
Lemma wp_getRegs p o s (Q : SigRegs -> sigstate K -> Prop) : regStore s !! p = Some o -> Q o s -> wp (getRegs p) s Q.
Proof. intros Hp HQ. apply wp_deref. eauto. Qed.
Lemma wp_updRegs p o f s Q : regStore s !! p = Some o -> Q tt (set_regStore (<[p := f o]> (regStore s)) s) -> wp (updRegs p f) s Q.
Proof. intros Hp HQ. unfold wp, updRegs. by rewrite Hp. Qed.
Lemma wp_getExtra p o s (Q : threadExtra -> sigstate K -> Prop) : extras s !! p = Some o -> Q o s -> wp (getExtra p) s Q.
Proof. intros Hp HQ. apply wp_deref. eauto. Qed.
Lemma wp_updExtra p o f s Q : extras s !! p = Some o -> Q tt (set_extras (<[p := f o]> (extras s)) s) -> wp (updExtra p f) s Q.
Proof. intros Hp HQ. unfold wp, updExtra. by rewrite Hp. Qed.
Lemma wp_onSched {A} (m : M sched A) s (Q : A -> sigstate K -> Prop) : wp m (sch s) (fun a x => Q a (set_sch x s)) -> wp (onSched m) s Q.
Proof. unfold wp, onSched. by destruct (m (sch s)) as [[a x]| |]. Qed.
Lemma wp_schedThread p t s (Q : ThreadInfo -> sigstate K -> Prop) : threads (sch s) !! p = Some t -> Q t s -> wp (onSched (getThread p)) s Q.
Proof. intros Hp HQ. apply wp_onSched. apply wp_deref. exists t. split; [done|]. by destruct s. Qed.
Lemma wp_acquireProc p o s Q : procs s !! p = Some o -> plock o = false -> Q tt (set_procs (<[p := p_lock true o]> (procs s)) s) -> wp (acquireProc p) s Q.
Proof. intros Hp Hl HQ. apply wp_bind. eapply wp_sigProc; [exact Hp|]. rewrite Hl. by eapply wp_setProc. Qed.
Lemma wp_getAct p o n act s (Q : sigaction -> sigstate K -> Prop) : procs s !! p = Some o -> 0 <= n -> sigAct o !! Z.to_nat n = Some act -> Q act s -> wp (getAct p n) s Q.
Proof. intros Hp Hn Ha HQ. apply wp_bind. eapply wp_sigProc; [exact Hp|]. apply wp_deref. rewrite (proj2 (Z.ltb_ge n 0)) by done. eauto. Qed.

(** ** The first signal that is not blocked *)

(** The process with another list of signals. *)
Definition p_list (l : plist) (p : sproc) : sproc := p_first (firstp l 0) (p_last (lastp 0 l) p).

Lemma pendingFrom_skip proc p l1 nxt fuel : forall prev s (Q : Z -> sigstate K -> Prop), procs s !! proc = Some p -> pending (pend s) prev l1 nxt ->
  Forall (fun x => blocked (sigMask p) x.2) l1 -> wp (pendingFrom fuel proc nxt) s Q -> wp (pendingFrom (length l1 + fuel) proc (firstp l1 nxt)) s Q.
Proof.
  induction l1 as [|[a i] l1 IH]; intros prev s Q Hp Hl Hb HQ; [done|]. destruct Hl as (Ha & He & Hl). apply Forall_cons in Hb as [Hb Hbs].
  cbn [length Nat.add pendingFrom firstp]. rewrite (proj2 (Z.eqb_neq a 0) Ha). apply wp_bind. eapply wp_getSig; [exact He|].
  apply wp_bind. eapply wp_sigProc; [exact Hp|]. cbn [sinfo]. unfold blocked in Hb. cbn [snd] in Hb. rewrite (proj2 (Z.eqb_neq _ 0) Hb). by eapply IH.
Qed.

Lemma getPendingSignal_none s proc p l : waiting s proc l -> procs s !! proc = Some p -> Forall (fun x => blocked (sigMask p) x.2) l ->
  wp (getPendingSignal proc) s (fun sig s' => sig = 0 /\ s' = s).
Proof.
  intros Hw Hp Hb. pose proof (waiting_size _ _ _ Hw) as Hs. destruct Hw as (_ & Hl & p' & Hp' & Hf & _). rewrite Hp in Hp'. injection Hp' as <-.
  apply wp_bind. eapply wp_sigProc; [exact Hp|]. apply wp_bind, wp_gets. rewrite Hf. replace (S (size (pend s))) with (length l + S (size (pend s) - length l))%nat by lia.
  by eapply pendingFrom_skip.
Qed.

Lemma set_procs_id s proc p : procs s !! proc = Some p -> set_procs (<[proc := p]> (procs s)) s = s.
Proof. intros Hp. rewrite insert_id by done. by destruct s. Qed.
Lemma firstSig_app l1 l2 : firstp (l1 ++ l2) 0 = firstp l1 (firstp l2 0).
Proof. by destruct l1 as [|[]]. Qed.
Lemma lastp_app prev l1 l2 : lastp prev (l1 ++ l2) = lastp (lastp prev l1) l2.
Proof. revert prev. by induction l1 as [|[] l1 IH]; intros prev; cbn. Qed.
Lemma lastp_in prev l : lastp prev l = prev \/ lastp prev l ∈ l.*1.
Proof.
  revert prev. induction l as [|[a i] l IH]; intros prev; [by left|]. right. cbn. apply elem_of_cons. destruct (IH a) as [->|]; auto.
Qed.
Lemma firstp_in l next : firstp l next = next \/ firstp l next ∈ l.*1.
Proof. destruct l as [|[a i] l]; [by left|]. right. apply elem_of_cons. by left. Qed.

(** The link to a removed entry from the one before it, and from the one
    behind it. *)
Lemma unlink_next s proc p a i l1 l2 Q : NoDup (l1 ++ (a, i) :: l2).*1 -> pending (pend s) 0 (l1 ++ (a, i) :: l2) 0 ->
  procs s !! proc = Some p -> sigFirst p = firstp (l1 ++ (a, i) :: l2) 0 ->
  (forall m, pending m 0 l1 (firstp l2 0) -> m !! a = Some (mkPend (firstp l2 0) (lastp 0 l1) i) -> pending m a l2 0 ->
    (forall b, b ∉ l1.*1 -> m !! b = pend s !! b) ->
    Q tt (set_pend m (set_procs (<[proc := p_first (firstp (l1 ++ l2) 0) p]> (procs s)) s))) ->
  wp (if negb (lastp 0 l1 =? 0) then updSig (lastp 0 l1) (s_next (firstp l2 0)) else updProc proc (p_first (firstp l2 0))) s Q.
Proof.
  intros Hnd Hl Hp Hf HQ. pose proof Hl as Hl'. apply pending_app in Hl' as (H1 & Ha & He & H2).
  rewrite fmap_app in Hnd. apply NoDup_app in Hnd as (Hn1 & Hd & Hn2). cbn in Hd, Hn2. apply NoDup_cons in Hn2 as [Ha2 Hn2].
  destruct l1 as [|[b j] l1 _] using rev_ind.
  - cbn. eapply wp_setProc; [exact Hp|]. by apply (HQ (pend s)).
  - rewrite lastSig_snoc in *. assert (Hb : b ∈ (l1 ++ [(b, j)]).*1) by (rewrite fmap_app; apply elem_of_app; right; by apply elem_of_cons; left).
    destruct (pending_in _ _ _ _ _ H1 Hb) as [Hb0 _]. rewrite (proj2 (Z.eqb_neq b 0) Hb0). cbn [negb].
    destruct (pending_set_next _ _ _ _ _ _ (firstp l2 0) Hn1 H1) as (e & Hbe & H1').
    assert (E : p_first (firstp ((l1 ++ [(b, j)]) ++ l2) 0) p = p).
    { rewrite firstSig_app in *. destruct l1 as [|[c k] l1]; cbn in *; rewrite <- Hf; by destruct p. }
    rewrite E, set_procs_id in HQ by done. eapply wp_updSig; [exact Hbe|]. apply HQ.
    + done.
    + rewrite lookup_insert_ne by (intros ->; apply (Hd a Hb); by apply elem_of_cons; left). done.
    + apply (pending_ext (pend s)); [done|]. intros c Hc. apply lookup_insert_ne. intros ->. apply (Hd c Hb). apply elem_of_cons; by right.
    + intros c Hc. apply lookup_insert_ne. by intros ->.
Qed.
Lemma unlink_prev s proc p a i l1 l2 Q : NoDup (l1 ++ (a, i) :: l2).*1 -> pending (pend s) 0 l1 (firstp l2 0) -> pending (pend s) a l2 0 ->
  pend s !! a = Some (mkPend (firstp l2 0) (lastp 0 l1) i) -> procs s !! proc = Some p -> sigLast p = lastp 0 (l1 ++ (a, i) :: l2) ->
  (forall m, pending m 0 (l1 ++ l2) 0 -> m !! a = pend s !! a -> (forall b, b ∉ l2.*1 -> m !! b = pend s !! b) ->
    Q tt (set_pend m (set_procs (<[proc := p_last (lastp 0 (l1 ++ l2)) p]> (procs s)) s))) ->
  wp (if negb (firstp l2 0 =? 0) then updSig (firstp l2 0) (s_prev (lastp 0 l1)) else updProc proc (p_last (lastp 0 l1))) s Q.
Proof.
  intros Hnd H1 H2 He Hp Hlast HQ. rewrite fmap_app in Hnd. apply NoDup_app in Hnd as (Hn1 & Hd & Hn2). cbn in Hd, Hn2. apply NoDup_cons in Hn2 as [Ha2 Hn2].
  destruct l2 as [|[c k] l2].
  - cbn in *. rewrite !app_nil_r in *. eapply wp_setProc; [exact Hp|]. by apply (HQ (pend s)).
  - assert (Hc : c ∈ ((c, k) :: l2).*1) by (apply elem_of_cons; by left).
    destruct (pending_in _ _ _ _ _ H2 Hc) as [Hc0 _]. cbn [firstp]. rewrite (proj2 (Z.eqb_neq c 0) Hc0). cbn [negb].
    destruct (pending_set_prev _ _ _ _ _ _ (lastp 0 l1) Hn2 H2) as (e & Hce & H2').
    assert (E : p_last (lastp 0 (l1 ++ (c, k) :: l2)) p = p).
    { rewrite lastp_app in *. cbn in *. rewrite <- Hlast. by destruct p. }
    rewrite E, set_procs_id in HQ by done. eapply wp_updSig; [exact Hce|]. apply HQ.
    + apply pending_app. split; [|exact H2']. apply (pending_ext (pend s)); [done|]. intros b Hb. apply lookup_insert_ne. intros ->. apply (Hd b Hb). apply elem_of_cons; by right.
    + apply lookup_insert_ne. by intros ->.
    + intros b Hb. apply lookup_insert_ne. by intros ->.
Qed.

(** Delivery takes the first signal that is not blocked and keeps the order of
    the others. *)
Lemma getPendingSignal_found s proc p l1 a i l2 : waiting s proc (l1 ++ (a, i) :: l2) -> procs s !! proc = Some p ->
  Forall (fun x => blocked (sigMask p) x.2) l1 -> ~ blocked (sigMask p) i ->
  wp (getPendingSignal proc) s (fun sig s' => sig = a /\ exists m e,
    s' = set_pend m (set_procs (<[proc := p_list (l1 ++ l2) p]> (procs s)) s) /\ pending m 0 (l1 ++ l2) 0 /\ m !! a = Some e /\ sinfo e = i /\
    (forall b : Z, b ∉ (l1 ++ (a, i) :: l2 : plist).*1 -> m !! b = pend s !! b)).
Proof.
  intros Hw Hp Hb Hi. pose proof (waiting_size _ _ _ Hw) as Hs. destruct Hw as (Hnd & Hl & p' & Hp' & Hf & Hlast). rewrite Hp in Hp'. injection Hp' as <-.
  apply wp_bind. eapply wp_sigProc; [exact Hp|]. apply wp_bind, wp_gets. rewrite length_app in Hs. cbn [length] in Hs.
  replace (S (size (pend s))) with (length l1 + S (size (pend s) - length l1))%nat by lia. rewrite Hf, firstSig_app. cbn [firstp].
  pose proof Hl as Hl'. apply pending_app in Hl' as (H1 & Ha & He & H2). cbn [firstp] in H1.
  eapply pendingFrom_skip; [exact Hp|exact H1|exact Hb|]. cbn [pendingFrom]. rewrite (proj2 (Z.eqb_neq a 0) Ha).
  apply wp_bind. eapply wp_getSig; [exact He|]. apply wp_bind. eapply wp_sigProc; [exact Hp|]. cbn [sinfo sprev snext].
  destruct (Z.eqb_spec (Z.land (sigMask p) (sigBit (si_signo i))) 0) as [_|]; [|done].
  apply wp_bind. eapply unlink_next; [exact Hnd|exact Hl|exact Hp|exact Hf|]. intros m1 M1 Ma M2 Mo.
  apply wp_bind. eapply wp_getSig; [exact Ma|]. cbn [sprev snext].
  apply wp_bind. eapply unlink_prev; [exact Hnd|exact M1|exact M2|exact Ma|cbn; by rewrite lookup_insert_eq|exact Hlast|].
  intros m2 N N1 N2. apply wp_ret. split; [done|]. exists m2, (mkPend (firstp l2 0) (lastp 0 l1) i). split_and!; [|exact N| |done|].
  - cbn. unfold set_procs, set_pend. cbn. rewrite insert_insert_eq. done.
  - rewrite N1. exact Ma.
  - intros b Hbn. rewrite fmap_app, elem_of_app in Hbn. cbn in Hbn. rewrite elem_of_cons in Hbn. cbn in N2. rewrite N2, Mo by tauto. done.
Qed.

(** Computing the fields of a state after assignments. *)
Ltac sig_simpl := cbn [sch procs pend regStore extras smem rsp0 kparts set_sch set_procs set_pend set_regStore set_extras set_smem set_rsp0 set_kparts
  qes threads queues cpuInfos sems thisCpu currentThread nrofActiveCPUs ipis set_qes set_threads set_ipis].
Ltac sig_lookup := sig_simpl; apply lookup_insert_eq.

(** ** Sending *)

Lemma sigstate_eq s1 s2 : sch s1 = sch s2 -> procs s1 = procs s2 -> pend s1 = pend s2 -> regStore s1 = regStore s2 -> extras s1 = extras s2 ->
  smem s1 = smem s2 -> rsp0 s1 = rsp0 s2 -> kparts s1 = kparts s2 -> s1 = s2.
Proof. destruct s1, s2. cbn. by intros -> -> -> -> -> -> -> ->. Qed.
(** What happens to the scheduler, in its own store. *)
Lemma wp_schedQe p e f s Q : qes (sch s) !! p = Some e -> Q tt (set_sch (set_qes (sch s) (<[p := f e]> (qes (sch s)))) s) -> wp (onSched (updQe p f)) s Q.
Proof. intros Hp HQ. apply wp_onSched. unfold wp, updQe. by rewrite Hp. Qed.
Lemma wp_updSchedThread p t f s Q : threads (sch s) !! p = Some t -> Q tt (set_sch (set_threads (sch s) (<[p := f t]> (threads (sch s)))) s) -> wp (onSched (updThread p f)) s Q.
Proof. intros Hp HQ. apply wp_onSched. unfold wp, updThread. by rewrite Hp. Qed.
Lemma wp_acquireSched p t s Q : threads (sch s) !! p = Some t -> tlock t = false -> Q tt (set_sch (set_threads (sch s) (<[p := t_lock true t]> (threads (sch s)))) s) ->
  wp (onSched (acquireThread p)) s Q.
Proof.
  intros Hp Hl HQ. apply wp_onSched. unfold acquireThread. apply wp_bind, wp_deref. exists t. split; [done|]. rewrite Hl. unfold wp, updThread. by rewrite Hp.
Qed.

(** A new entry at the end of the list of signals. *)
Definition arrived (ps sigNum : Z) : Z * siginfo := (ps, i_signo sigNum zeroInfo).
Lemma arrived_nodup m l ps sigNum : NoDup l.*1 -> pending m 0 l 0 -> m !! ps = None -> NoDup (l ++ [arrived ps sigNum]).*1.
Proof.
  intros Hnd Hl Hps. rewrite fmap_app. apply NoDup_app. split; [done|]. split; [|by apply NoDup_singleton]. intros b Hin Hbs.
  apply list_elem_of_singleton in Hbs. cbn in Hbs. subst b. destruct (pending_in _ _ _ _ _ Hl Hin) as [_ [x Hx]]. congruence.
Qed.
Lemma enqueue_spec s proc p l ps sigNum Q : waiting s proc l -> procs s !! proc = Some p -> ps <> 0 ->
  ps ∉ l.*1 -> pend s !! ps = Some (mkPend 0 0 (i_signo sigNum zeroInfo)) ->
  (forall m, pending m 0 (l ++ [arrived ps sigNum]) 0 -> (forall b : Z, b ∉ ps :: l.*1 -> m !! b = pend s !! b) ->
    Q tt (set_pend m (set_procs (<[proc := p_list (l ++ [arrived ps sigNum]) p]> (procs s)) s))) ->
  wp (linkSignal proc ps) s Q.
Proof.
  intros (Hnd & Hl & p' & Hp' & Hf & Hlast) Hp Hps Hfresh He HQ. rewrite Hp in Hp'. injection Hp' as <-.
  apply wp_bind. eapply wp_sigProc; [exact Hp|]. rewrite Hlast. unfold p_list in HQ. rewrite firstSig_app, lastp_app in HQ. cbn [firstp lastp arrived] in HQ.
  destruct l as [|[b j] l _] using rev_ind.
  - cbn in *. apply wp_bind. eapply wp_setProc; [exact Hp|]. apply wp_bind. eapply wp_updSig; [exact He|].
    eapply wp_setProc; [cbn; apply lookup_insert_eq|]. unfold set_procs, set_pend in *. cbn in *. rewrite insert_insert_eq.
    apply HQ; [rewrite lookup_insert_eq; by split|]. intros b Hb. apply lookup_insert_ne. intros ->. apply Hb. by apply elem_of_cons; left.
  - rewrite lastSig_snoc in *. assert (Hb : b ∈ (l ++ [(b, j)]).*1) by (rewrite fmap_app; apply elem_of_app; right; by apply elem_of_cons; left).
    destruct (pending_in _ _ _ _ _ Hl Hb) as [Hb0 _]. rewrite (proj2 (Z.eqb_neq b 0) Hb0). cbn [negb].
    destruct (pending_set_next _ _ _ _ _ _ ps Hnd Hl) as (e & Hbe & Hl'). assert (Hbps : b <> ps) by (by intros ->).
    apply wp_bind. eapply wp_updSig; [exact Hbe|]. apply wp_bind. eapply wp_updSig; [cbn; rewrite lookup_insert_ne by done; exact He|].
    eapply wp_setProc; [exact Hp|]. cbn.
    replace (p_last ps p) with (p_first (firstp (l ++ [(b, j)]) ps) (p_last ps p)).
    2:{ destruct l as [|[c k] l]; cbn in *; rewrite <- Hf; by destruct p. }
    apply HQ.
    + apply pending_app. rewrite lastSig_snoc. unfold arrived. cbn [pending firstp]. split; [|split; [done|split; [by etransitivity; [apply lookup_insert_eq|]|done]]].
      apply (pending_ext (<[b := s_next ps e]> (pend s))); [exact Hl'|]. intros c Hc. apply lookup_insert_ne. by intros ->.
    + intros c Hc. rewrite elem_of_cons in Hc. cbn [pend set_pend]. rewrite !lookup_insert_ne; [done|intros ->; tauto..].
Qed.

(** The entry that lets the main thread run although it waits for something
    else. *)
Definition signalled (regs : Z) (t : ThreadInfo) : ThreadInfo := t_entry (newQueueEntry regs) (t_sigDepth (s32 (tsigDepth t + 1)) t).
Definition signalEntry (main : Z) (t : ThreadInfo) : ThreadQueueEntry := mkQe main false (s32 (tsigDepth t + 1)) 0 0 None (queueEntry t) 0.
Definition savedState (r : SigRegs) (p : sproc) (t : ThreadInfo) : SigRegs := r_next (sigRegStack p) (r_state (tstate t) r).

Context (signalExit : Z) (meanwhile : M (sigstate K) unit).
(** The state when [notifyProcess] decides whether the thread has to be made
    ready. *)
Definition notified s (proc : Z) (p : sproc) (regs : Z) (r : SigRegs) (t : ThreadInfo) : sigstate K :=
  mkSs (set_threads (set_qes (sch s) (<[newQueueEntry regs := signalEntry (mainThread p) t]> (qes (sch s))))
         (<[mainThread p := t_lock true (signalled regs t)]> (threads (sch s))))
    (<[proc := p_resched true (p_regs regs p)]> (procs s)) (pend s) (<[regs := savedState r p t]> (regStore s)) (extras s) (smem s) (rsp0 s) (kparts s).
Lemma notify_prefix s proc p regs r t Q : procs s !! proc = Some p -> sigResched p = false ->
  threads (sch s) !! mainThread p = Some t -> tlock t = false ->
  regStore s !! regs = Some r -> qes (sch s) !! newQueueEntry regs = Some zeroQe ->
  wp ((if bool_decide (tstate t = SCHEDWAIT) then mret tt
       else
         (if bool_decide (tstate t = RUNNING) then mret tt else onSched (readyQueuePush (newQueueEntry regs)));;
         t ← onSched (getThread (mainThread p));
         onSched (c ← getCpu (cpuAffinity t); modify (fun x : sched => set_ipis x (apicID c :: ipis x))));;
      onSched (releaseThread (mainThread p))) (notified s proc p regs r t) Q ->
  wp (notifyProcess meanwhile proc regs) s Q.
Proof.
  intros Hp Hr Ht Hl Hg Hq HQ. unfold notifyProcess.
  apply wp_bind. cbn [waitReceived WAIT_FUEL]. apply wp_bind. eapply wp_sigProc; [exact Hp|]. rewrite Hr. apply wp_ret.
  apply wp_bind. eapply wp_sigProc; [exact Hp|]. apply wp_bind. eapply wp_acquireSched; [exact Ht|exact Hl|].
  apply wp_bind. eapply wp_schedThread; [sig_lookup|]; sig_simpl; rewrite ?insert_insert_eq. apply wp_bind. eapply wp_updRegs; [exact Hg|].
  apply wp_bind. eapply wp_schedQe; [exact Hq|]. apply wp_bind. eapply wp_updSchedThread; [sig_lookup|]; sig_simpl; rewrite ?insert_insert_eq.
  apply wp_bind. eapply wp_schedThread; [sig_lookup|]; sig_simpl; rewrite ?insert_insert_eq. apply wp_bind. eapply wp_schedQe; [sig_lookup|]; sig_simpl; rewrite ?insert_insert_eq.
  apply wp_bind. eapply wp_schedQe; [sig_lookup|]; sig_simpl; rewrite ?insert_insert_eq. apply wp_bind. eapply wp_updSchedThread; [sig_lookup|]; sig_simpl; rewrite ?insert_insert_eq.
  apply wp_bind. eapply wp_sigProc; [exact Hp|]. apply wp_bind. eapply wp_updRegs; [sig_lookup|]; sig_simpl; rewrite ?insert_insert_eq.
  apply wp_bind. eapply wp_setProc; [exact Hp|]. apply wp_bind. eapply wp_setProc; [sig_lookup|]; sig_simpl; rewrite ?insert_insert_eq.
  apply wp_bind. eapply wp_schedThread; [sig_lookup|]; sig_simpl; rewrite ?insert_insert_eq. exact HQ.
Qed.
(** A thread that runs is interrupted. *)
Lemma notifyProcess_running s proc p regs r t c : procs s !! proc = Some p -> sigResched p = false ->
  threads (sch s) !! mainThread p = Some t -> tlock t = false -> tstate t = RUNNING ->
  0 <= cpuAffinity t -> cpuInfos (sch s) !! Z.to_nat (cpuAffinity t) = Some c ->
  regStore s !! regs = Some r -> qes (sch s) !! newQueueEntry regs = Some zeroQe ->
  wp (notifyProcess meanwhile proc regs) s (fun _ s' =>
    s' = mkSs (set_ipis (set_threads (set_qes (sch s) (<[newQueueEntry regs := signalEntry (mainThread p) t]> (qes (sch s))))
                  (<[mainThread p := signalled regs t]> (threads (sch s)))) (apicID c :: ipis (sch s)))
          (<[proc := p_resched true (p_regs regs p)]> (procs s)) (pend s) (<[regs := savedState r p t]> (regStore s)) (extras s) (smem s) (rsp0 s) (kparts s)).
Proof.
  intros Hp Hr Ht Hl Hst Hc0 Hc Hg Hq. eapply notify_prefix; [done..|].
  rewrite Hst, bool_decide_eq_false_2, bool_decide_eq_true_2 by done. apply wp_bind, wp_bind, wp_ret.
  apply wp_bind. eapply wp_schedThread; [sig_lookup|]. apply wp_onSched. apply wp_bind. unfold getCpu. apply wp_deref. exists c. split.
  { cbn [cpuAffinity signalled t_entry t_sigDepth t_lock]. rewrite (proj2 (Z.ltb_ge _ 0)) by done. exact Hc. }
  apply wp_modify. eapply wp_updSchedThread; [sig_lookup|]. apply sigstate_eq; unfold notified; sig_simpl; try done.
  rewrite insert_insert_eq. do 2 f_equal. unfold signalled. destruct t. cbn in *. by subst.
Qed.

(** A thread that waits is made ready with its new entry; the entry that waits
    stays in its queue. *)
Lemma fresh_entry x L e q : sched_inv x L -> qes x !! q = None -> Z.of_nat (size (qes x)) + 1 < 2 ^ 31 - 2 -> sched_inv (set_qes x (<[q := e]> (qes x))) L.
Proof.
  intros HI Hq Hs. split; [|apply (si_locks _ _ HI)|].
  - intros cpu i Hc Hi. destruct (si_lists _ _ HI cpu i Hc Hi) as (Hnd & Hl & Hqu). split; [done|]. split; [|exact Hqu].
    eapply linked_frame; [|exact Hl]. intros y Hy. apply lookup_insert_ne. intros <-. destruct (linked_elem _ _ _ _ _ _ Hl Hy) as [_ [z Hz]]. congruence.
  - cbn. rewrite map_size_insert_None by done. lia.
Qed.

(** A process that takes signals, and memory for one more. *)
Record takes s (proc : Z) (p : sproc) (l : plist) (ps : Z) (k : K) : Prop := {
  tk_proc : procs s !! proc = Some p;
  tk_state : pstatus p <> PROCSTATE_FINISHED;
  tk_pid : pid p <> 1;
  tk_lock : plock p = false;
  tk_list : waiting s proc l;
  tk_alloc : kzalloc (kparts s) = (ps, k);
  tk_ps : ps <> 0 /\ pend s !! ps = None
}.
(** The process with a signal more. *)
Definition p_sent (l : plist) (ps sigNum : Z) (p : sproc) : sproc :=
  p_count 1 (p_pending (Z.lor (sigPending p) (sigBit sigNum)) (p_list (l ++ [arrived ps sigNum]) p)).

(** Up to the decision whether the thread has to be told. *)
Lemma send_prefix s proc p l ps k sigNum (Q : Z -> sigstate K -> Prop) : takes s proc p l ps k ->
  (forall m, pending m 0 (l ++ [arrived ps sigNum]) 0 -> (forall b : Z, b ∉ ps :: l.*1 -> m !! b = pend s !! b) ->
    let s1 := set_kparts k (set_pend m (set_procs (<[proc := p_lock true (p_sent l ps sigNum p)]> (procs s)) s)) in
    wp ((if Z.land (sigMask p) (sigBit sigNum) =? 0 then regs ← newRegs; notifyProcess meanwhile proc regs else mret tt);;
        releaseProc proc;; mret 0) s1 Q) ->
  wp (sendSignal meanwhile proc sigNum) s Q.
Proof.
  intros [Hp Hst Hpid Hlock Hw Hk [Hps Hfresh]] HQ. unfold sendSignal. apply wp_bind. eapply wp_sigProc; [exact Hp|].
  rewrite (proj2 (Z.eqb_neq _ _) Hst). apply wp_bind. unfold refusesSignal. rewrite (proj2 (Z.eqb_neq _ _) Hpid). apply wp_ret.
  apply wp_bind. unfold newSig. apply wp_bind. unfold alloc at 1, wp at 1. rewrite Hk. rewrite (proj2 (Z.eqb_neq ps 0) Hps). apply wp_bind, wp_modify, wp_ret.
  rewrite (proj2 (Z.eqb_neq ps 0) Hps). apply wp_bind. eapply wp_updSig; [cbn; apply lookup_insert_eq|].
  apply wp_bind. eapply wp_acquireProc; [exact Hp|exact Hlock|]. cbn [pend set_pend set_kparts procs set_procs].
  assert (Hnot : ps ∉ l.*1). { intros Hin. destruct Hw as (_ & Hl & _). destruct (pending_in _ _ _ _ _ Hl Hin) as [_ [x Hx]]. congruence. }
  rewrite insert_insert_eq.
  apply wp_bind. eapply (enqueue_spec _ proc (p_lock true p) l ps sigNum).
  { destruct Hw as (Hnd & Hl & p' & Hp' & Hf & Hla). rewrite Hp in Hp'. injection Hp' as <-. split; [done|]. split.
    - apply (pending_ext (pend s)); [exact Hl|]. intros b Hb. apply lookup_insert_ne. by intros ->.
    - exists (p_lock true p). split; [apply lookup_insert_eq|done]. }
  1: apply lookup_insert_eq. 1: done. 1: done. 1: apply lookup_insert_eq.
  intros m Hm Ho. cbn [pend set_pend set_kparts procs set_procs] in *.
  apply wp_bind. eapply wp_setProc; [apply lookup_insert_eq|]. apply wp_bind. eapply wp_setProc; [apply lookup_insert_eq|].
  apply wp_bind. eapply wp_sigProc; [apply lookup_insert_eq|]. cbn [pend set_pend set_kparts procs set_procs]. rewrite !insert_insert_eq.
  cbn [sigMask p_count p_pending p_list p_first p_last p_lock]. apply (HQ m Hm).
  intros b Hb. rewrite Ho by done. apply lookup_insert_ne. rewrite elem_of_cons in Hb. intros ->. tauto.
Qed.

(** A blocked signal only joins the list. *)
Lemma sendSignal_blocked s proc p l ps k sigNum : takes s proc p l ps k -> blocked (sigMask p) (i_signo sigNum zeroInfo) ->
  wp (sendSignal meanwhile proc sigNum) s (fun r s' => r = 0 /\ waiting s' proc (l ++ [arrived ps sigNum]) /\ exists m,
    s' = set_kparts k (set_pend m (set_procs (<[proc := p_sent l ps sigNum p]> (procs s)) s)) /\
    (forall b : Z, b ∉ ps :: l.*1 -> m !! b = pend s !! b)).
Proof.
  intros Ht Hb. eapply send_prefix; [exact Ht|]. intros m Hm Ho. cbv zeta. destruct Ht as [Hp _ _ Hlock Hw _ [Hps Hfresh]].
  unfold blocked in Hb. cbn [si_signo i_signo] in Hb. rewrite (proj2 (Z.eqb_neq _ 0) Hb).
  apply wp_bind, wp_ret. apply wp_bind. eapply wp_setProc; [sig_lookup|]. sig_simpl. rewrite insert_insert_eq. apply wp_ret.
  replace (p_lock false (p_lock true (p_sent l ps sigNum p))) with (p_sent l ps sigNum p) by (destruct p; cbn in *; by subst).
  split; [done|]. split; [|by exists m]. destruct Hw as (Hnd & Hl & _). split; [|split; [exact Hm|]].
  - by eapply arrived_nodup.
  - eexists. split; [sig_lookup|]. done.
Qed.

(** A signal for a thread that runs: the thread is interrupted. *)
Lemma sendSignal_running s proc p l ps k sigNum regs k' t c : takes s proc p l ps k -> ~ blocked (sigMask p) (i_signo sigNum zeroInfo) ->
  sigResched p = false -> kzalloc k = (regs, k') -> regs <> 0 ->
  threads (sch s) !! mainThread p = Some t -> tlock t = false -> tstate t = RUNNING ->
  0 <= cpuAffinity t -> cpuInfos (sch s) !! Z.to_nat (cpuAffinity t) = Some c ->
  wp (sendSignal meanwhile proc sigNum) s (fun r s' => r = 0 /\ exists m,
    pending m 0 (l ++ [arrived ps sigNum]) 0 /\ (forall b : Z, b ∉ ps :: l.*1 -> m !! b = pend s !! b) /\
    s' = mkSs (set_ipis (set_threads (set_qes (sch s) (<[newQueueEntry regs := signalEntry (mainThread p) t]> (qes (sch s))))
                  (<[mainThread p := signalled regs t]> (threads (sch s)))) (apicID c :: ipis (sch s)))
          (<[proc := p_resched true (p_regs regs (p_sent l ps sigNum p))]> (procs s)) m (<[regs := savedState zeroRegs p t]> (regStore s))
          (extras s) (smem s) (rsp0 s) k').
Proof.
  intros Htk Hb Hr Hk' Hregs Ht Htl Hst Hc0 Hc. eapply send_prefix; [exact Htk|]. intros m Hm Ho. cbv zeta. destruct Htk as [Hp _ _ Hlock Hw _ [Hps Hfresh]].
  unfold blocked in Hb. cbn [si_signo i_signo] in Hb. destruct (Z.eqb_spec (Z.land (sigMask p) (sigBit sigNum)) 0) as [_|]; [|done].
  apply wp_bind. apply wp_bind. unfold newRegs. apply wp_bind. unfold alloc at 1, wp at 1. sig_simpl. rewrite Hk', (proj2 (Z.eqb_neq regs 0) Hregs).
  apply wp_bind, wp_bind, wp_modify. apply wp_onSched, wp_modify. sig_simpl. apply wp_ret.
  eapply wp_mono; [eapply (notifyProcess_running _ proc (p_lock true (p_sent l ps sigNum p)) regs zeroRegs t c); [sig_lookup|exact Hr|exact Ht|exact Htl|exact Hst|exact Hc0|exact Hc|sig_lookup|sig_lookup]|].
  intros _ s' ->. sig_simpl. rewrite !insert_insert_eq. apply wp_bind. eapply wp_setProc; [sig_lookup|]. sig_simpl. rewrite insert_insert_eq. apply wp_ret.
  split; [done|]. exists m. split; [exact Hm|]. split; [exact Ho|].
  replace (p_lock false (p_resched true (p_regs regs (p_lock true (p_sent l ps sigNum p))))) with (p_resched true (p_regs regs (p_sent l ps sigNum p))); [done|].
  destruct p; cbn in *; by subst.
Qed.

(** ** Delivery *)

Lemma ldWords_spec ws : forall n a s (Q : list Z -> sigstate K -> Prop), text_at (smem s) a (words ws) -> Forall (fun w => 0 <= w < 2 ^ 64) ws ->
  (n <= length ws)%nat -> 0 <= a -> a + 8 * Z.of_nat (length ws) < 2 ^ 64 -> Q (take n ws) s -> wp (ldWords n a) s Q.
Proof.
  induction ws as [|w ws IH]; intros [|n] a s Q Ht Hw Hn Ha Hl HQ; try done; [cbn in Hn; lia|]. apply Forall_cons in Hw as [Hw Hws].
  cbn [ldWords length take] in *. rewrite words_cons in Ht. apply text_at_app in Ht as [H1 H2]. rewrite length_toBytes in H2. change (Z.of_nat 8) with 8 in H2.
  apply wp_bind. eapply ld64_spec; [exact H1|done|lia|lia|]. apply wp_bind. rewrite u64_small by lia. apply IH; [done|done|lia|lia|lia|done].
Qed.

(** A new mask that lets no pending signal through. *)
Lemma sigprocmask_quiet s proc p v (Q : Z -> sigstate K -> Prop) : procs s !! proc = Some p -> plock p = false ->
  Z.land (Z.lxor (Z.lor v (sigMask p)) (sigMask p)) (sigPending p) = 0 ->
  Q 0 (set_procs (<[proc := p_mask v p]> (procs s)) s) -> wp (sigprocmask meanwhile SIG_SETMASK (SetOf v) 0 proc) s Q.
Proof.
  intros Hp Hl Hu HQ. unfold sigprocmask. apply wp_bind. eapply wp_acquireProc; [exact Hp|done|].
  apply wp_bind. eapply wp_sigProc; [sig_lookup|]. cbn [Z.eqb negb]. apply wp_bind, wp_ret.
  apply wp_bind. cbn [Z.eqb SIG_SETMASK SIG_BLOCK SIG_UNBLOCK Pos.eqb]. apply wp_bind, wp_ret. apply wp_ret.
  apply wp_bind. eapply wp_sigProc; [sig_lookup|]. apply wp_bind. eapply wp_setProc; [sig_lookup|]. apply wp_bind. eapply wp_setProc; [sig_lookup|].
  sig_simpl. rewrite !insert_insert_eq. cbn [sigMask sigPending p_lock p_mask]. rewrite Hu. cbn [Z.eqb]. apply wp_ret.
  replace (p_lock false (p_mask v (p_lock true p))) with (p_mask v p); [done|]. destruct p; cbn in *; by subst.
Qed.

(** The frame that starts a handler: 10 is rdi, 11 rsi, 12 rdx, 14 rax, then
    rip, cs, rflags, rsp and ss. *)
Definition handlerFrame (act : sigaction) (sigNum stack fl : Z) (ws : list Z) : list Z :=
  <[10%nat:=stack]> (<[11%nat:=sigNum]> (<[12%nat:=0]> (<[14%nat:=sa_handler act]> (<[15%nat:=saTrampoline act]>
    (<[16%nat:=0x2B]> (<[17%nat:=Z.lor fl 512]> (<[18%nat:=stack]> (<[19%nat:=0x23]> ws)))))))).
Lemma startHandler_spec act sigNum stack irq ws fl s : text_at (smem s) irq (words ws) -> length ws = 20%nat -> ws !! 17%nat = Some fl -> 0 <= fl < 2 ^ 64 ->
  0 <= irq -> irq + 160 < 2 ^ 64 ->
  wp (startHandler act sigNum stack (irq + 120)) s (fun _ s' => exists m, s' = set_smem m s /\
    text_at m irq (words (handlerFrame act sigNum stack fl ws)) /\ same_outside irq 160 (smem s) m).
Proof.
  intros Ht Hlen Hfl Hflr Hi Hi2. unfold startHandler.
  replace (irq + 120 + 32) with (irq + 8 * Z.of_nat 19) by lia. replace (irq + 120 + 24) with (irq + 8 * Z.of_nat 18) by lia.
  replace (irq + 120 + 16) with (irq + 8 * Z.of_nat 17) by lia. replace (irq + 120 + 8) with (irq + 8 * Z.of_nat 16) by lia.
  replace (irq + 120 - 8) with (irq + 8 * Z.of_nat 14) by lia. replace (irq + 120 - 24) with (irq + 8 * Z.of_nat 12) by lia.
  replace (irq + 120 - 32) with (irq + 8 * Z.of_nat 11) by lia. replace (irq + 120 - 40) with (irq + 8 * Z.of_nat 10) by lia.
  replace (irq + 120) with (irq + 8 * Z.of_nat 15) by lia.
  apply wp_bind. eapply wp_stWord; [exact Ht|rewrite Hlen; lia|done|rewrite Hlen; lia|]. intros m1 T1 S1.
  apply wp_bind. eapply wp_stWord; [exact T1|rewrite !length_insert, Hlen; lia|done|rewrite !length_insert, Hlen; lia|]. intros m2 T2 S2.
  apply wp_bind. eapply (wp_ldWord _ _ _ fl); [exact T2|by rewrite !list_lookup_insert_ne by lia|done|done|rewrite !length_insert, Hlen; lia|].
  apply wp_bind. eapply wp_stWord; [exact T2|rewrite !length_insert, Hlen; lia|done|rewrite !length_insert, Hlen; lia|]. intros m3 T3 S3.
  apply wp_bind. eapply wp_stWord; [exact T3|rewrite !length_insert, Hlen; lia|done|rewrite !length_insert, Hlen; lia|]. intros m4 T4 S4.
  apply wp_bind. eapply wp_stWord; [exact T4|rewrite !length_insert, Hlen; lia|done|rewrite !length_insert, Hlen; lia|]. intros m5 T5 S5.
  apply wp_bind. eapply wp_stWord; [exact T5|rewrite !length_insert, Hlen; lia|done|rewrite !length_insert, Hlen; lia|]. intros m6 T6 S6.
  apply wp_bind. eapply wp_stWord; [exact T6|rewrite !length_insert, Hlen; lia|done|rewrite !length_insert, Hlen; lia|]. intros m7 T7 S7.
  apply wp_bind. eapply wp_stWord; [exact T7|rewrite !length_insert, Hlen; lia|done|rewrite !length_insert, Hlen; lia|]. intros m8 T8 S8.
  eapply wp_stWord; [exact T8|rewrite !length_insert, Hlen; lia|done|rewrite !length_insert, Hlen; lia|]. intros m9 T9 S9.
  exists m9. split; [by destruct s|]. split; [exact T9|]. rewrite ?length_insert, Hlen in *. change (8 * Z.of_nat 20) with 160 in *.
  repeat (eapply same_outside_trans; [eassumption|]). by intros k Hk.
Qed.

(** The interrupt frame at [irq] and room below the red zone of the stack. *)
Record interrupted (m : gmap Z Z) (irq : Z) (ws : list Z) (x : threadExtra) (ip fl sp stack : Z) : Prop := {
  in_frame : text_at m irq (words ws);
  in_length : length ws = 20%nat;
  in_range : Forall (fun w => 0 <= w < 2 ^ 64) ws;
  in_ip : ws !! 15%nat = Some ip;
  in_flags : ws !! 17%nat = Some fl;
  in_sp : ws !! 18%nat = Some sp;
  in_stack : stack = (if ip <? KERNEL_BASE then sp else userStackPointer x) - 128 - sizeofSiginfo;
  in_room : 0 <= stack /\ stack + 160 < 2 ^ 64 /\ mapped m stack sizeofSiginfo;
  in_kernel : 0 <= irq /\ irq + 160 < 2 ^ 64;
  in_apart : stack + sizeofSiginfo <= irq \/ irq + 160 <= stack
}.
Lemma length_infoBytes i : length (infoBytes i) = 32%nat.
Proof. unfold infoBytes. by rewrite !length_app, !length_toBytes. Qed.
Definition savedRegs (ws : list Z) (ip fl sp mask : Z) (x : threadExtra) (r : SigRegs) : SigRegs :=
  let r' := r_floats (floatsUsed x) (r_mask mask (r_saved (take 15 ws) ip sp fl r)) in
  if floatsUsed x then r_fxsave (fxsaveArea x) r' else r'.

Lemma copyRegs_spec s regs r irq ws x ip fl sp stack Q : interrupted (smem s) irq ws x ip fl sp stack -> regStore s !! regs = Some r ->
  Q tt (set_regStore (<[regs := r_saved (take 15 ws) ip sp fl r]> (regStore s)) s) -> wp (copyRegs regs irq) s Q.
Proof.
  intros [Ht Hl Hr Hip Hfl Hsp _ _ [Hi Hi2] _] Hg HQ. unfold copyRegs.
  pose proof (Forall_lookup_1 _ _ _ _ Hr Hip). pose proof (Forall_lookup_1 _ _ _ _ Hr Hfl). pose proof (Forall_lookup_1 _ _ _ _ Hr Hsp).
  apply wp_bind. eapply ldWords_spec; [exact Ht|exact Hr|rewrite Hl; lia|lia|rewrite Hl; lia|].
  replace (irq + 120) with (irq + 8 * Z.of_nat 15) by lia. replace (irq + 136) with (irq + 8 * Z.of_nat 17) by lia.
  replace (irq + 144) with (irq + 8 * Z.of_nat 18) by lia.
  do 3 (apply wp_bind; eapply wp_ldWord; [exact Ht|eassumption|done|lia|rewrite Hl; lia|]). by eapply wp_updRegs.
Qed.
Lemma saveContext_spec s regs r irq ws x ip fl sp stack mask Q : interrupted (smem s) irq ws x ip fl sp stack -> regStore s !! regs = Some r ->
  Q tt (set_regStore (<[regs := savedRegs ws ip fl sp mask x r]> (regStore s)) s) -> wp (saveContext x regs mask irq) s Q.
Proof.
  intros Hin Hg HQ. unfold saveContext. apply wp_bind. eapply copyRegs_spec; [exact Hin|exact Hg|].
  do 2 (apply wp_bind; eapply wp_updRegs; [sig_lookup|]; sig_simpl; rewrite insert_insert_eq). unfold savedRegs in HQ.
  destruct (floatsUsed x); [|exact HQ]. eapply wp_updRegs; [sig_lookup|]. sig_simpl. rewrite insert_insert_eq. exact HQ.
Qed.
Lemma handlerStack_spec s proc p th irq ws x ip fl sp stack (Q : Z -> sigstate K -> Prop) : interrupted (smem s) irq ws x ip fl sp stack ->
  procs s !! proc = Some p -> sigRegStack p <> 0 -> extras s !! th = Some x ->
  (forall r, u64 (r - sizeofSiginfo) = stack -> Q r s) -> wp (handlerStack proc th (irq + 120)) s Q.
Proof.
  intros [Ht Hl Hr Hip Hfl Hsp Hst [Hm1 [Hm2 _]] [Hi Hi2] _] Hp Hregs Hx HQ. unfold handlerStack. unfold sizeofSiginfo in *.
  apply wp_bind. eapply wp_sigProc; [exact Hp|]. rewrite (proj2 (Z.eqb_neq _ 0) Hregs), andb_false_r.
  pose proof (Forall_lookup_1 _ _ _ _ Hr Hip). pose proof (Forall_lookup_1 _ _ _ _ Hr Hsp).
  replace (irq + 120 + 24) with (irq + 8 * Z.of_nat 18) by lia. replace (irq + 120) with (irq + 8 * Z.of_nat 15) by lia.
  apply wp_bind. eapply wp_ldWord; [exact Ht|eassumption|done|lia|rewrite Hl; lia|]. apply wp_bind. subst stack.
  destruct (ip <? KERNEL_BASE).
  - eapply wp_ldWord; [exact Ht|eassumption|done|lia|rewrite Hl; lia|]. apply wp_ret, HQ. rewrite (u64_small (_ - 128)), u64_small by lia. lia.
  - apply wp_bind. eapply wp_getExtra; [exact Hx|]. apply wp_ret, wp_ret, HQ. rewrite (u64_small (_ - 128)), u64_small by lia. lia.
Qed.

(** The process after a signal [n] was taken from its list. *)
Definition p_taken (l : plist) (n : Z) (p : sproc) : sproc :=
  p_count (-1) (p_pending (Z.land (sigPending p) (lnot64 (sigBit n))) (p_list l (p_resched false p))).

(** A signal with a handler is delivered. *)
Lemma handleSignal_spec s th x proc p l1 a i l2 act r irq ws ip fl sp stack :
  extras s !! th = Some x -> process x = proc -> proc <> 0 -> procs s !! proc = Some p -> sigResched p = true -> plock p = false ->
  waiting s proc (l1 ++ (a, i) :: l2) -> Forall (fun y => blocked (sigMask p) y.2) l1 -> ~ blocked (sigMask p) i ->
  0 <= si_signo i -> sigAct p !! Z.to_nat (si_signo i) = Some act -> sa_handler act <> SIG_IGN -> sa_handler act <> 0 ->
  sigRegStack p <> 0 -> regStore s !! sigRegStack p = Some r -> interrupted (smem s) irq ws x ip fl sp stack ->
  wp (handleSignal signalExit meanwhile th irq) s (fun _ s' => exists m M,
    pending m 0 (l1 ++ l2) 0 /\ (forall b : Z, b ∉ (l1 ++ (a, i) :: l2 : plist).*1 -> m !! b = pend s !! b) /\
    text_at M irq (words (handlerFrame act (si_signo i) stack fl ws)) /\ text_at M stack (infoBytes i) /\
    (forall k, k < irq \/ irq + 160 <= k -> k < stack \/ stack + 32 <= k -> M !! k = smem s !! k) /\
    s' = mkSs (sch s) (<[proc := p_mask (sa_mask act) (p_taken (l1 ++ l2) (si_signo i) p)]> (procs s)) (delete a m)
          (<[sigRegStack p := savedRegs ws ip fl sp (sa_mask act) x r]> (regStore s)) (<[th := x_sp (irq + 160) x]> (extras s)) M (irq + 160) (kfree a (kparts s))).
Proof.
  intros Hx Hpx Hp0 Hp Hr Hl Hw Hb Hi Hn Hact Hign Hh Hregs Hrg Hin. unfold handleSignal.
  apply wp_bind. eapply wp_getExtra; [exact Hx|]. rewrite Hpx, (proj2 (Z.eqb_neq proc 0) Hp0).
  apply wp_bind. eapply wp_sigProc; [exact Hp|]. rewrite Hr. cbn [negb]. apply wp_bind. eapply wp_acquireProc; [exact Hp|exact Hl|].
  apply wp_bind. eapply wp_setProc; [sig_lookup|]. sig_simpl. rewrite insert_insert_eq. set (p1 := p_resched false (p_lock true p)).
  apply wp_bind. eapply wp_mono; [eapply (getPendingSignal_found _ proc p1 l1 a i l2); [|sig_lookup|exact Hb|exact Hi]|].
  { destruct Hw as (Hnd & Hpl & p' & Hp' & Hf & Hla). rewrite Hp in Hp'. injection Hp' as <-. split; [done|]. split; [exact Hpl|].
    exists p1. split; [sig_lookup|done]. }
  cbv beta. intros sig s' (-> & m & e & -> & Hm & He & Hei & Ho). sig_simpl. rewrite insert_insert_eq.
  destruct Hw as (_ & Hpl & _). pose proof (proj1 (pending_app _ _ _ _ _) Hpl) as [_ [Ha _]]. rewrite (proj2 (Z.eqb_neq a 0) Ha).
  apply wp_bind. eapply wp_getSig; [exact He|]. rewrite Hei. apply wp_bind. eapply wp_setProc; [sig_lookup|].
  apply wp_bind. eapply wp_setProc; [sig_lookup|]. sig_simpl. rewrite !insert_insert_eq.
  apply wp_bind. eapply wp_getAct; [sig_lookup|done|exact Hact|]. rewrite (proj2 (Z.eqb_neq _ _) Hign).
  apply wp_bind. eapply wp_setProc; [sig_lookup|]. sig_simpl. rewrite insert_insert_eq. apply wp_bind. eapply wp_sigProc; [sig_lookup|].
  apply wp_bind. eapply saveContext_spec; [exact Hin|exact Hrg|].
  apply wp_bind. eapply handlerStack_spec; [exact Hin|sig_lookup|exact Hregs|exact Hx|]. intros st Hst. rewrite Hst. clear st Hst.
  destruct Hin as [Ht Hlen Hrange Hip Hfl _ _ (Hs1 & Hs2 & Hs3) [Hk1 Hk2] Hap]. unfold sizeofSiginfo in *.
  apply wp_bind. eapply wp_mono; [apply (stBytes_spec (infoBytes i)); rewrite ?length_infoBytes; [exact Hs3|lia|lia]|]. intros _ s2 ->.
  apply wp_bind, wp_modify. apply wp_bind. eapply wp_updExtra; [exact Hx|]. rewrite (proj2 (Z.eqb_neq _ 0) Hh). cbn [negb].
  apply wp_bind. eapply wp_mono; [eapply (startHandler_spec _ _ _ irq ws fl); [|exact Hlen|exact Hfl| |done|lia]|].
  { sig_simpl. apply text_at_store_apart; [exact Ht|]. rewrite length_infoBytes, length_words, Hlen. lia. }
  { exact (Forall_lookup_1 _ _ _ _ Hrange Hfl). }
  intros _ s3 (M & -> & HM & HMo). cbn [smem bytes setBytes sigMem set_smem set_extras set_rsp0 set_regStore set_procs set_pend] in *.
  apply wp_bind. eapply wp_setProc; [sig_lookup|]. sig_simpl. rewrite insert_insert_eq.
  apply wp_bind. eapply wp_getAct; [sig_lookup|done|exact Hact|].
  apply wp_bind. eapply sigprocmask_quiet; [sig_lookup|done|cbn [sigMask sigPending p_lock p_mask]; by rewrite Z.lor_diag, Z.lxor_nilpotent|].
  apply wp_modify. sig_simpl. rewrite insert_insert_eq. exists m, M. split; [exact Hm|]. split; [exact Ho|]. split; [exact HM|]. split; [|split].
  - eapply text_same_outside; [exact HMo|apply store_text|]. rewrite length_infoBytes. lia.
  - intros k Hk1' Hk2'. rewrite HMo by lia. rewrite lookup_store, decide_False by (rewrite length_infoBytes; lia). done.
  - apply sigstate_eq; sig_simpl; try done; [rewrite ?insert_insert_eq; f_equal|f_equal; f_equal; lia|lia]. unfold p1, p_taken. clear - Hl. destruct p; cbn in *; by subst.
Qed.

(** ** The way back *)

Lemma sigRet_spec s th x proc p r t e : currentThread (sch s) = th -> extras s !! th = Some x -> process x = proc -> procs s !! proc = Some p -> plock p = false ->
  regStore s !! sigRegStack p = Some r -> Z.land (Z.lxor (Z.lor (rsigMask r) (sigMask p)) (sigMask p)) (sigPending p) = 0 ->
  threads (sch s) !! th = Some t -> tlock t = false -> qes (sch s) !! queueEntry t = Some e ->
  wp (sigRet meanwhile) s (fun ret s' => ret = sigRegStack p /\
    s' = set_sch (set_threads (sch s) (<[th := t_entry (prevQueueEntry e) (t_sigDepth (s32 (tsigDepth t - 1)) (t_lock true t))]> (threads (sch s))))
           (set_procs (<[proc := p_mask (rsigMask r) (p_regs (rnext r) p)]> (procs s)) s)).
Proof.
  intros Hth Hx Hpx Hp Hl Hr Hq Ht Htl He. unfold sigRet. apply wp_bind, wp_gets. rewrite Hth. apply wp_bind. eapply wp_getExtra; [exact Hx|]. rewrite Hpx.
  apply wp_bind. eapply wp_acquireProc; [exact Hp|exact Hl|]. apply wp_bind. eapply wp_sigProc; [sig_lookup|]. apply wp_bind. eapply wp_getRegs; [exact Hr|].
  apply wp_bind. eapply wp_setProc; [sig_lookup|]. apply wp_bind. eapply wp_setProc; [sig_lookup|]. sig_simpl. rewrite !insert_insert_eq.
  apply wp_bind. eapply sigprocmask_quiet; [sig_lookup|done|exact Hq|]. sig_simpl. rewrite !insert_insert_eq.
  apply wp_bind. eapply wp_acquireSched; [exact Ht|exact Htl|]. apply wp_bind. eapply wp_updSchedThread; [sig_lookup|]. sig_simpl. rewrite insert_insert_eq.
  apply wp_bind. eapply wp_schedThread; [sig_lookup|]. apply wp_bind. apply wp_onSched, wp_deref. exists e. split; [exact He|].
  apply wp_bind. eapply wp_updSchedThread; [sig_lookup|]. sig_simpl. rewrite insert_insert_eq. apply wp_ret. split; [done|].
  apply sigstate_eq; sig_simpl; try done. f_equal. destruct p; cbn in *; by subst.
Qed.
Lemma waiting_deleted s' proc p' l ps sigNum m : NoDup (l ++ [arrived ps sigNum]).*1 -> pending m 0 l 0 ->
  procs s' !! proc = Some p' -> sigFirst p' = firstp l 0 -> sigLast p' = lastp 0 l -> pend s' = delete ps m -> waiting s' proc l.
Proof.
  intros Hnd Hm Hp Hf Hl Hd. rewrite fmap_app in Hnd. apply NoDup_app in Hnd as (Hn & Hno & _). split; [done|]. split; [|by exists p'].
  rewrite Hd. apply (pending_ext m); [exact Hm|]. intros b Hb. apply lookup_delete_ne. intros ->. apply (Hno _ Hb). by apply elem_of_cons; left.
Qed.

(** C17: The life of a signal.  A signal that is not blocked is sent to a process
    whose main thread runs: the interrupt that follows returns to the handler,
    on a stack that holds the signal information below the red zone, with the
    mask of the handler, and changes no other memory; the other signals stay in the list;
    when the handler returns, whatever it did to the memory, the program goes on with
    exactly the registers, the stack pointer and the flags that it was
    interrupted with, and the thread has its old queue entry again.  (The mask
    stays that of the handler, and the arguments of the handler are exchanged:
    see below.) *)
Theorem signal_roundtrip s proc p l ps k sigNum regs k' t c act x irq ws ip fl sp stack :
  takes s proc p l ps k -> Forall (fun y => blocked (sigMask p) y.2) l -> ~ blocked (sigMask p) (i_signo sigNum zeroInfo) ->
  sigResched p = false -> proc <> 0 -> kzalloc k = (regs, k') -> regs <> 0 -> 0 <= sigNum ->
  sigAct p !! Z.to_nat sigNum = Some act -> sa_handler act <> SIG_IGN -> sa_handler act <> 0 ->
  threads (sch s) !! mainThread p = Some t -> tlock t = false -> tstate t = RUNNING -> 0 <= tsigDepth t < 2 ^ 31 - 1 ->
  0 <= cpuAffinity t -> cpuInfos (sch s) !! Z.to_nat (cpuAffinity t) = Some c ->
  currentThread (sch s) = mainThread p -> extras s !! mainThread p = Some x -> process x = proc ->
  interrupted (smem s) irq ws x ip fl sp stack ->
  wp (sendSignal meanwhile proc sigNum) s (fun ret s1 => ret = 0 /\
    wp (handleSignal signalExit meanwhile (mainThread p) irq) s1 (fun _ s2 =>
      text_at (smem s2) irq (words (handlerFrame act sigNum stack fl ws)) /\ text_at (smem s2) stack (infoBytes (i_signo sigNum zeroInfo)) /\
      (forall a, a < irq \/ irq + 160 <= a -> a < stack \/ stack + 32 <= a -> smem s2 !! a = smem s !! a) /\
      waiting s2 proc l /\ (sigMask <$> procs s2 !! proc) = Some (sa_mask act) /\
      forall M, wp (sigRet meanwhile) (set_smem M s2) (fun regs s3 =>
        (exists r, regStore s3 !! regs = Some r /\ general r = take 15 ws /\ rip r = ip /\ rflags r = fl /\ rsp r = sp /\
          rfloatsUsed r = floatsUsed x /\ (floatsUsed x = true -> rfxsave r = fxsaveArea x)) /\
        (exists p3, procs s3 !! proc = Some p3 /\ sigRegStack p3 = sigRegStack p /\ sigMask p3 = sa_mask act) /\
        (exists t3, threads (sch s3) !! mainThread p = Some t3 /\ tsigDepth t3 = tsigDepth t /\ queueEntry t3 = queueEntry t)))).
Proof.
  intros Htk Hall Hb Hr Hp0 Hk' Hregs Hn Hact Hign Hh Ht Htl Hts Htd Hc0 Hc Hcur Hx Hpx Hin.
  assert (Hnd : NoDup (l ++ [arrived ps sigNum]).*1).
  { destruct Htk as [_ _ _ _ (Hnd & Hl & _) _ [_ Hfresh]]. by eapply arrived_nodup. }
  eapply wp_mono; [by eapply sendSignal_running|]. cbv beta. intros ret s1 (-> & m & Hm & Ho & ->). split; [done|].
  eapply wp_mono; [eapply (handleSignal_spec _ (mainThread p) x proc (p_resched true (p_regs regs (p_sent l ps sigNum p))) l ps (i_signo sigNum zeroInfo) []
    act (savedState zeroRegs p t) irq ws ip fl sp stack); sig_simpl;
    [exact Hx|exact Hpx|exact Hp0|apply lookup_insert_eq|done|by destruct Htk| |exact Hall|exact Hb|exact Hn|exact Hact|exact Hign|exact Hh|exact Hregs|apply lookup_insert_eq|exact Hin]|].
  { split; [exact Hnd|]. split; [exact Hm|]. eexists. split; [sig_lookup|done]. }
  cbv beta. sig_simpl. rewrite app_nil_r, !insert_insert_eq. intros _ s2 (m2 & M2 & Hm2 & _ & HF & HS & HMo & ->). sig_simpl.
  split; [exact HF|]. split; [exact HS|]. split; [exact HMo|]. split; [|split; [by rewrite lookup_insert_eq|]].
  { eapply (waiting_deleted _ _ _ _ ps sigNum m2); [exact Hnd|exact Hm2|sig_lookup|done..]. }
  intros M. eapply wp_mono; [eapply sigRet_spec; sig_simpl; [exact Hcur|apply lookup_insert_eq|exact Hpx|apply lookup_insert_eq| |apply lookup_insert_eq| |apply lookup_insert_eq|done|apply lookup_insert_eq]|].
  { by destruct Htk. } { cbn. unfold savedRegs. destruct (floatsUsed x); cbn; by rewrite Z.lor_diag, Z.lxor_nilpotent. }
  cbv beta. sig_simpl. intros ret s3 [-> ->]. split; [|split].
  - eexists. split; [sig_lookup|]. unfold savedRegs. destruct (floatsUsed x) eqn:Ef; cbn; rewrite ?Ef; by split_and!.
  - eexists. split; [sig_lookup|]. unfold savedRegs. by destruct (floatsUsed x).
  - eexists. split; [sig_lookup|]. cbn. rewrite (s32_small (tsigDepth t + 1)) by lia. rewrite s32_small by lia. split; [lia|done].
Qed.

(** ** A thread that waits is woken *)

(** The number of processors stays. *)
Definition sameCpus (x x' : sched) : Prop := length (cpuInfos x') = length (cpuInfos x).
#[export] Instance sameCpus_preorder : PreOrder sameCpus.
Proof. split; unfold sameCpus; [done|congruence]. Qed.
Lemma preserves_updCpu i f : preserves sameCpus (updCpu i f).
Proof. apply preserves_bind; [typeclasses eauto|apply preserves_deref; typeclasses eauto|]. intros c. apply preserves_modify. intros x. apply length_insert. Qed.
#[local] Hint Resolve preserves_updCpu preserves_modify : preserves.
#[local] Hint Extern 1 (sameCpus _ _) => reflexivity : preserves.
Lemma readyQueuePush_sameCpus p : preserves sameCpus (readyQueuePush p).
Proof.
  unfold readyQueuePush, calcNewPriority, acquireReadyList, releaseReadyList, threadQueuePush, getQe, getThread, getQueue, getCpu. preserve.
Qed.

(** The thread [main] with state [t] was made ready with its entry [q], on some
    processor; nothing else waits elsewhere than before. *)
Definition woken (x x' : sched) (L : Z -> Z -> list Z) (q main : Z) (t : ThreadInfo) : Prop :=
  exists cpu i, 0 <= cpu < Z.of_nat (length (cpuInfos x)) /\ valid_priority i /\ sched_inv x' (L_push L cpu i q) /\
    threads x' !! main = Some (t_affinity cpu (t_priority i (t_state SCHEDWAIT t))) /\
    (forall th, th <> main -> threads x' !! th = threads x !! th) /\
    (forall b qq l, (forall c j, qq <> QReady c j) -> q ∉ l -> queue_rep b x qq l -> queue_rep b x' qq l).

Lemma notifyProcess_waiting s proc p regs r t L : procs s !! proc = Some p -> sigResched p = false ->
  threads (sch s) !! mainThread p = Some t -> tlock t = false -> tstate t <> RUNNING -> tstate t <> SCHEDWAIT ->
  regStore s !! regs = Some r -> qes (sch s) !! newQueueEntry regs = Some zeroQe -> newQueueEntry regs <> 0 ->
  0 <= cpuAffinity t < Z.of_nat (length (cpuInfos (sch s))) -> valid_priority (priority t) ->
  sched_inv (sch (notified s proc p regs r t)) L ->
  wp (notifyProcess meanwhile proc regs) s (fun _ s' => exists x,
    woken (sch (notified s proc p regs r t)) x L (newQueueEntry regs) (mainThread p) (signalled regs t) /\ s' = set_sch x (notified s proc p regs r t)).
Proof.
  intros Hp Hr Ht Hl Hs1 Hs2 Hg Hq Hq0 Hcpu Hprio HI. eapply notify_prefix; [done..|].
  rewrite !bool_decide_eq_false_2 by done. apply wp_bind, wp_bind, wp_onSched.
  eapply wp_mono; [eapply wp_preserves; [apply readyQueuePush_sameCpus|]; eapply (readyQueuePush_wp _ L _ (mainThread p) (t_lock true (signalled regs t))); [exact HI|]|].
  { split; [done|]. split; [sig_lookup|]. split; [done|]. split; [|split; [exact Hcpu|exact Hprio]].
    exists (signalEntry (mainThread p) t). split; [sig_lookup|]. split_and!; [done|done|]. cbn. lia. }
  intros _ x [(cpu & i & Hc & Hi & _ & HI' & Hth & Hqs & _) Hlen]. apply wp_bind. eapply wp_schedThread; [sig_simpl; rewrite Hth; apply lookup_insert_eq|].
  destruct (lookup_range (cpuInfos x) cpu) as [c Hcx]; [unfold sameCpus in Hlen; lia|].
  apply wp_onSched, wp_bind. unfold getCpu. apply wp_deref. exists c. split; [cbn; rewrite (proj2 (Z.ltb_ge _ 0)) by lia; exact Hcx|].
  apply wp_modify. eapply wp_updSchedThread; [sig_simpl; rewrite Hth; apply lookup_insert_eq|]. sig_simpl.
  eexists. split; [|reflexivity]. exists cpu, i. split; [exact Hc|]. split; [exact Hi|]. split; [|split; [|split]].
  - destruct HI' as [H1 H2 H3]. split; [exact H1|exact H2|exact H3].
  - sig_simpl. rewrite lookup_insert_eq. f_equal. unfold signalled. destruct t. cbn in *. by subst.
  - intros th Hne. sig_simpl. rewrite lookup_insert_ne by done. rewrite Hth, lookup_insert_ne by done. done.
  - intros b qq l Hqq Hnl Hl'. exact (Hqs b qq l Hqq Hnl Hl').
Qed.

Lemma woken_fresh s proc p regs r t x' L : qes (sch s) !! newQueueEntry regs = None ->
  woken (sch (notified (set_sch (set_qes (sch s) (<[newQueueEntry regs := zeroQe]> (qes (sch s)))) s) proc p regs r t)) x' L (newQueueEntry regs) (mainThread p) (signalled regs t) ->
  woken (sch s) x' L (newQueueEntry regs) (mainThread p) (signalled regs t).
Proof.
  intros Hq (cpu & i & Hc & Hi & HI & Ht & Hth & Hqs). exists cpu, i. split; [exact Hc|]. split; [exact Hi|]. split; [exact HI|]. split; [exact Ht|]. split.
  - intros th Hne. rewrite Hth by done. unfold notified. sig_simpl. by rewrite lookup_insert_ne by done.
  - intros b qq l Hqq Hnl Hl. apply Hqs; [done|done|]. destruct Hl as (Hnd & Hl & Hqu). split; [done|]. split; [|exact Hqu].
    eapply linked_frame; [|exact Hl]. intros y Hy. unfold notified. sig_simpl. rewrite !lookup_insert_ne by (by intros <-). done.
Qed.

(** A signal wakes its process.  Sent to a process whose thread waits, on a
    semaphore or asleep, the signal joins the list, the state of the thread is
    kept for the way back, and the thread becomes the last of a ready list with
    a second entry, while its first entry keeps its place in the queue where it
    waits. *)
Theorem sendSignal_wakes s proc p l ps k sigNum regs k' t L :
  takes s proc p l ps k -> ~ blocked (sigMask p) (i_signo sigNum zeroInfo) -> sigResched p = false -> kzalloc k = (regs, k') -> regs <> 0 ->
  newQueueEntry regs <> 0 -> qes (sch s) !! newQueueEntry regs = None -> Z.of_nat (size (qes (sch s))) + 1 < 2 ^ 31 - 2 ->
  threads (sch s) !! mainThread p = Some t -> tlock t = false -> tstate t <> RUNNING -> tstate t <> SCHEDWAIT ->
  0 <= cpuAffinity t < Z.of_nat (length (cpuInfos (sch s))) -> valid_priority (priority t) -> sched_inv (sch s) L ->
  wp (sendSignal meanwhile proc sigNum) s (fun ret s' => ret = 0 /\ waiting s' proc (l ++ [arrived ps sigNum]) /\
    (exists p', procs s' !! proc = Some p' /\ sigResched p' = true /\ sigRegStack p' = regs) /\
    (exists r, regStore s' !! regs = Some r /\ tState r = tstate t /\ rnext r = sigRegStack p) /\
    woken (sch s) (sch s') L (newQueueEntry regs) (mainThread p) (signalled regs t)).
Proof.
  intros Htk Hb Hr Hk' Hregs Hq0 Hq Hsize Ht Htl Hs1 Hs2 Hcpu Hprio HI. eapply send_prefix; [exact Htk|]. intros m Hm Ho. cbv zeta.
  pose proof Htk as [Hp _ _ Hlock (Hnd & Hl & _) _ [Hps Hfresh]].
  unfold blocked in Hb. cbn [si_signo i_signo] in Hb. destruct (Z.eqb_spec (Z.land (sigMask p) (sigBit sigNum)) 0) as [_|]; [|done].
  apply wp_bind. apply wp_bind. unfold newRegs. apply wp_bind. unfold alloc at 1, wp at 1. sig_simpl. rewrite Hk', (proj2 (Z.eqb_neq regs 0) Hregs).
  apply wp_bind, wp_bind, wp_modify. apply wp_onSched, wp_modify. sig_simpl. apply wp_ret.
  eapply wp_mono; [eapply (notifyProcess_waiting _ proc (p_lock true (p_sent l ps sigNum p)) regs zeroRegs t L);
    [sig_lookup|exact Hr|exact Ht|exact Htl|exact Hs1|exact Hs2|sig_lookup|sig_lookup|exact Hq0|exact Hcpu|exact Hprio|]|].
  { unfold notified. sig_simpl. rewrite insert_insert_eq. apply (sched_inv_ext (set_qes (sch s) (<[newQueueEntry regs := signalEntry (mainThread p) t]> (qes (sch s))))); try done.
    - apply (si_locks _ _ HI).
    - by apply fresh_entry. }
  intros _ s' (x' & Hw & ->). apply wp_bind. eapply wp_setProc; [unfold notified; sig_lookup|]. apply wp_ret. unfold notified. sig_simpl. rewrite insert_insert_eq.
  split; [done|]. split; [split; [|split; [exact Hm|]]|split; [|split]].
  - by eapply arrived_nodup.
  - eexists. split; [sig_lookup|done].
  - eexists. split; [apply lookup_insert_eq|done].
  - eexists. split; [apply lookup_insert_eq|done].
  - eapply (woken_fresh s proc (p_lock true (p_sent l ps sigNum p)) regs zeroRegs t x' L Hq). exact Hw.
Qed.
End signal.

(** ** A process for examples

    Process 100 with thread 200 on one processor; objects come from a counter. *)
#[local] Instance demoKernel : SignalParts Z := {| kzalloc k := (k, k + 4096); kfree _ k := k; findProc _ _ := 100; groupFirst _ _ := Some 100 |}.
Definition demoThread (st : threadState) : ThreadInfo := mkThread st false 0 0 300 1 false 200.
Definition demoAct (handler : Z) : sigaction := mkAct handler 4 0 0x400100.
Definition demoProc (acts : list sigaction) : sproc := mkSp 7 0 false 0 200 false 0 0 0 0 0 0 acts 0 0 zeroInfo.
Definition demoQueues : gmap qid ThreadInfoQueue := list_to_map ((fun i => (QReady 0 i, emptyQueue)) <$> seqZ 0 8).
Definition demoSched (st : threadState) : sched :=
  mkSched {[300 := mkQe 200 false 0 0 0 None 0 0]} {[200 := demoThread st]} demoQueues [mkCpu false 1 0 true 7] ∅ 0 200 1 [].
(** The frame of an interrupt of user code at [ip] with the stack pointer [sp]. *)
Definition kernelStack : Z := 0xffffff8000001000.
Definition demoFrame (ip sp : Z) : list Z := seqZ 1 15 ++ [ip; 0x2B; 0x202; sp; 0x23].
Definition demoMem (ip sp : Z) : gmap Z Z := store kernelStack (words (demoFrame ip sp)) (store 0x6f00 (replicate 256 0) ∅).
Definition demo (st : threadState) (acts : list sigaction) (ip sp : Z) : sigstate Z :=
  mkSs (demoSched st) {[100 := demoProc acts]} ∅ ∅ {[200 := mkExtra 100 false [] 0 0]} (demoMem ip sp) 0 0x10000.
Definition demoActs (handler : Z) : list sigaction := replicate 64 (demoAct handler).
Definition nobody : M (sigstate Z) unit := mret tt.

Lemma demo_takes st acts ip sp : takes (demo st acts ip sp) 100 (demoProc acts) [] 0x10000 0x11000.
Proof.
  split; [reflexivity|discriminate|discriminate|reflexivity| |reflexivity|].
  - split; [by constructor|]. split; [done|]. by exists (demoProc acts).
  - split; [discriminate|reflexivity].
Qed.
Lemma demo_interrupted : interrupted (demoMem 0x400000 0x7000) kernelStack (demoFrame 0x400000 0x7000) (mkExtra 100 false [] 0 0) 0x400000 0x202 0x7000 0x6f60.
Proof.
  unfold demoMem. split; [exact (store_text _ _ _)|reflexivity| |reflexivity|reflexivity|reflexivity|reflexivity| |by vm_compute|left; by vm_compute].
  - apply (bool_decide_unpack _). by vm_compute.
  - split; [done|]. split; [done|]. apply mapped_store. apply (mapped_part _ 0x6f00 256); [|by vm_compute|by vm_compute].
    apply (mapped_text _ _ (replicate 256 0)). apply store_text.
Qed.
Lemma demo_open n : ~ blocked 0 (i_signo n zeroInfo).
Proof. intros Hb. apply Hb. apply Z.land_0_l. Qed.
Lemma signal_roundtrip_witness :
  wp (sendSignal nobody 100 5) (demo RUNNING (demoActs 0x400200) 0x400000 0x7000) (fun ret s1 => ret = 0 /\
    wp (handleSignal 0 nobody 200 kernelStack) s1 (fun _ s2 =>
      text_at (smem s2) kernelStack (words (handlerFrame (demoAct 0x400200) 5 0x6f60 0x202 (demoFrame 0x400000 0x7000))) /\ text_at (smem s2) 0x6f60 (infoBytes (i_signo 5 zeroInfo)) /\
      (forall a, a < kernelStack \/ kernelStack + 160 <= a -> a < 0x6f60 \/ 0x6f60 + 32 <= a -> smem s2 !! a = demoMem 0x400000 0x7000 !! a) /\
      waiting s2 100 [] /\ (sigMask <$> procs s2 !! 100) = Some 4 /\
      forall M, wp (sigRet nobody) (set_smem M s2) (fun regs s3 =>
        (exists r, regStore s3 !! regs = Some r /\ general r = seqZ 1 15 /\ rip r = 0x400000 /\ rflags r = 0x202 /\ rsp r = 0x7000 /\
          rfloatsUsed r = false /\ (false = true -> rfxsave r = [])) /\
        (exists p3, procs s3 !! 100 = Some p3 /\ sigRegStack p3 = 0 /\ sigMask p3 = 4) /\
        (exists t3, threads (sch s3) !! 200 = Some t3 /\ tsigDepth t3 = 0 /\ queueEntry t3 = 300)))).
Proof.
  exact (signal_roundtrip 0 nobody (demo RUNNING (demoActs 0x400200) 0x400000 0x7000) 100 (demoProc (demoActs 0x400200)) [] 0x10000 0x11000 5 0x11000 0x12000
    (demoThread RUNNING) (mkCpu false 1 0 true 7) (demoAct 0x400200) (mkExtra 100 false [] 0 0) kernelStack (demoFrame 0x400000 0x7000) 0x400000 0x202 0x7000 0x6f60
    (demo_takes _ _ _ _) (Forall_nil_2 _) (demo_open 5) eq_refl ltac:(done) eq_refl ltac:(done) ltac:(done) eq_refl ltac:(done) ltac:(done) eq_refl eq_refl eq_refl
    ltac:(done) ltac:(done) eq_refl eq_refl eq_refl eq_refl demo_interrupted).
Defined.
Lemma demo_inv : sched_inv (demoSched LOCKWAIT) (fun _ _ => []).
Proof.
  split; [|intros [|n] c Hc; by simplify_eq/=|by vm_compute].
  intros cpu i Hc Hi. split; [by constructor|]. split; [done|]. split; [|done].
  cbn in Hc. replace cpu with 0 by lia. unfold valid_priority, NROF_QUEUE_PRIORITIES in Hi.
  assert (i = 0 \/ i = 1 \/ i = 2 \/ i = 3 \/ i = 4 \/ i = 5 \/ i = 6 \/ i = 7) as Hcase by lia.
  by repeat (destruct Hcase as [->|Hcase]); [..|subst].
Qed.
Lemma sendSignal_wakes_witness :
  wp (sendSignal nobody 100 5) (demo LOCKWAIT (demoActs 0x400200) 0x400000 0x7000) (fun ret s' => ret = 0 /\ waiting s' 100 ([] ++ [arrived 0x10000 5]) /\
    (exists p', procs s' !! 100 = Some p' /\ sigResched p' = true /\ sigRegStack p' = 0x11000) /\
    (exists r, regStore s' !! 0x11000 = Some r /\ tState r = LOCKWAIT /\ rnext r = 0) /\
    woken (demoSched LOCKWAIT) (sch s') (fun _ _ => []) (newQueueEntry 0x11000) 200 (signalled 0x11000 (demoThread LOCKWAIT))).
Proof.
  exact (sendSignal_wakes nobody (demo LOCKWAIT (demoActs 0x400200) 0x400000 0x7000) 100 (demoProc (demoActs 0x400200)) [] 0x10000 0x11000 5 0x11000 0x12000
    (demoThread LOCKWAIT) (fun _ _ => []) (demo_takes _ _ _ _) (demo_open 5) eq_refl eq_refl ltac:(done) ltac:(done) eq_refl ltac:(done) eq_refl eq_refl
    ltac:(done) ltac:(done) ltac:(done) ltac:(done) demo_inv).
Defined.

(** ** What goes wrong *)

(** With [sigResched] set and no signal that could be delivered the lock of the
    process is never released. *)
Definition flagged (s : sigstate Z) : sigstate Z := set_procs (p_resched true <$> procs s) s.
Example no_signal_keeps_lock :
  match handleSignal 0 nobody 200 kernelStack (flagged (demo RUNNING (demoActs 0x400200) 0x400000 0x7000)) with
  | Done (_, s) => (plock <$> procs s !! 100) = Some true
  | _ => False
  end.
Proof. by vm_compute. Qed.

(** Without another processor, or an interrupt, that delivers the first signal,
    sending a second one does not end. *)
Example second_signal_waits :
  (sendSignal nobody 100 5;; sendSignal nobody 100 6) (demo RUNNING (demoActs 0x400200) 0x400000 0x7000) = NoFuel.
Proof. by vm_compute. Qed.

(** What [sigprocmask] calls unblocked are the signals that were not blocked
    before and are now.  Taking the mask away from signals that are pending does
    not deliver them: nothing but the mask changes. *)
Lemma unblocking_sends_nothing {K} `{SignalParts K} (meanwhile : M (sigstate K) unit) s proc p set :
  procs s !! proc = Some p -> plock p = false ->
  wp (sigprocmask meanwhile SIG_SETMASK (SetOf (Z.land (sigMask p) (lnot64 set))) 0 proc) s (fun r s' =>
    r = 0 /\ s' = set_procs (<[proc := p_mask (Z.land (sigMask p) (lnot64 set)) p]> (procs s)) s).
Proof.
  intros Hp Hl. eapply sigprocmask_quiet; [exact Hp|exact Hl| |done].
  replace (Z.lor (Z.land (sigMask p) (lnot64 set)) (sigMask p)) with (sigMask p); [by rewrite Z.lxor_nilpotent|].
  apply Z.bits_inj'. intros n Hn. rewrite Z.lor_spec, Z.land_spec. by destruct (Z.testbit (sigMask p) n); rewrite ?andb_false_r, ?orb_true_r.
Qed.
Definition delivered : M (sigstate Z) unit := updProc 100 (p_resched false).
Fixpoint numbers (fuel : nat) (m : gmap Z PendingSignal) (a : Z) : list Z :=
  match fuel, m !! a with S fuel, Some e => si_signo (sinfo e) :: numbers fuel m (snext e) | _, _ => [] end.
Definition sends : M (sigstate Z) unit := sendSignal delivered 100 3;; sendSignal delivered 100 5;; sendSignal delivered 100 8;; mret tt.
(** Blocking signals that are pending sends them once more, and the third with a
    wrong number: 4 for 8. *)
Example blocking_sends_again :
  match (sends;; sigprocmask delivered SIG_SETMASK (SetOf 0xFFFF) 0 100) (demo RUNNING (demoActs 0x400200) 0x400000 0x7000) with
  | Done (_, s) => (fun p => numbers 10 (pend s) (sigFirst p)) <$> procs s !! 100 = Some [3; 5; 8; 3; 5; 4]
  | _ => False
  end.
Proof. by vm_compute. Qed.

(** The bit of signal 40 is that of signal 8, and signal 31 has the bits of all
    above it. *)
Example sigBit_40 : sigBit 40 = sigBit 8.
Proof. done. Qed.
Example sigBit_31 : sigBit 31 = 2 ^ 64 - 2 ^ 31.
Proof. done. Qed.

(** An ignored signal leaves its registers and its queue entry behind. *)
Example ignored_signal_leaks :
  match (sendSignal nobody 100 5;; handleSignal 0 nobody 200 kernelStack) (demo RUNNING (demoActs SIG_IGN) 0x400000 0x7000) with
  | Done (_, s) => (sigRegStack <$> procs s !! 100) = Some 0x11000 /\ (queueEntry <$> threads (sch s) !! 200) = Some (newQueueEntry 0x11000)
  | _ => False
  end.
Proof. by vm_compute. Qed.

(** The stack pointer of the user is not checked: with one that points into the
    kernel, delivery writes there. *)
Example signal_writes_kernel :
  let a := kernelStack + 0x1000 in
  let s := demo RUNNING (demoActs 0x400200) 0x400000 (a + 160) in
  match (sendSignal nobody 100 5;; handleSignal 0 nobody 200 kernelStack) (set_smem (store a (replicate 32 7) (smem s)) s) with
  | Done (_, s) => smem s !! a = Some 5
  | _ => False
  end.
Proof. by vm_compute. Qed.
(** Nor are the pointers of [sysSigprocmask]. *)
Example sigprocmask_writes_kernel :
  let a := kernelStack + 0x1000 in
  let s := demo RUNNING (demoActs 0x400200) 0x400000 0x7000 in
  match sysSigprocmask nobody SIG_SETMASK 0 a (set_smem (store a (replicate 8 7) (smem s)) s) with
  | Done (_, s) => smem s !! a = Some 0
  | _ => False
  end.
Proof. by vm_compute. Qed.
(** The kill signal can be blocked. *)
Example kill_can_be_blocked :
  match (sigprocmask nobody SIG_BLOCK (SetOf (2 ^ SIGKILL)) 0 100;; sendSignal nobody 100 SIGKILL) (demo RUNNING (demoActs 0) 0x400000 0x7000) with
  | Done (_, s) => (sigResched <$> procs s !! 100) = Some false
  | _ => False
  end.
Proof. by vm_compute. Qed.
(** Without memory for the registers the sender dereferences a null pointer. *)
#[local] Instance poorKernel : SignalParts (list Z) := {| kzalloc k := match k with a :: k => (a, k) | [] => (0, []) end; kfree _ k := k; findProc _ _ := 100; groupFirst _ _ := None |}.
Definition poor (k : list Z) : sigstate (list Z) :=
  mkSs (demoSched RUNNING) {[100 := demoProc (demoActs 0x400200)]} ∅ ∅ {[200 := mkExtra 100 false [] 0 0]} ∅ 0 k.
Example no_memory_for_registers : sendSignal (mret tt) 100 5 (poor [0x10000]) = Fault.
Proof. by vm_compute. Qed.
Example no_memory_for_signal : exists s, sendSignal (mret tt) 100 5 (poor []) = Done (- ENOMEM, s).
Proof. eexists. by vm_compute. Qed.
