(* ===== verification/Exec.v ===== *)
(** * Running programs: [kernel/main/exec.c]

    Loading an ELF file into the address space of a process, and the arguments
    of the new program: they are collected in a page of the kernel, with
    pointers relative to that page, copied to the top of the new stack and
    relocated.  Memory is byte addressed; an access to a page that is not there
    is a fault outside of the protected copies.  The file system, the page
    tables, the memory map and the thread that is set up are interfaces. *)

From S2P Require Import Prelude Word Errno PageMap Heap Fd Mmap Bytes.

#[local] Notation PAGE_SIZE := Heap.PAGE_SIZE.
Definition THREAD_STACK_SIZE : Z := 0x2000.
Definition PHTYPE_NULL : Z := 0.
Definition PHTYPE_LOAD : Z := 1.
Definition PHFLAG_EXEC : Z := 1.
Definition PERM_X : Z := 1.
Definition SIGABRT : Z := 6.
Definition sizeofElfHeader : Z := 64.
Definition sizeofElfPHEntry : Z := 56.

Record ElfHeader := mkElf { magic : list Z; etype : Z; emachine : Z; entryAddr : Z; phOff : Z; phentSize : Z; phnum : Z }.
Record ElfPHEntry := mkPh { ptype : Z; phflags : Z; pOffset : Z; pVAddr : Z; pFileSz : Z; pMemSz : Z; alignment : Z }.

Section exec.
(** What running a program uses besides the file system and the pages. *)
Class ExecParts (V : Type) := {
  kernelPages : Z -> M V Z;                        (* [allocKPages]; 0 is a failure *)
  freePages : Z -> Z -> M V unit;
  mapPages : Z -> Z -> Z -> M V unit;              (* [allocPageAt] *)
  mmSetWritable : Z -> Z -> bool -> M V unit;
  tlbInvalidateLocal : Z -> Z -> M V unit;
  destroyMap : M V unit;                           (* [mmapDestroy] of the running process *)
  createEntry : Z -> Z -> Z -> M V (Z * Z);        (* [mmapCreateEntry]: the error and the address *)
  fsCloseOnExec : M V Z;
  workDir : V -> Z;
  initExecRetThread : Z -> Z -> M V unit;          (* the start and the stack pointer *)
  signalExit : Z -> M V unit                       (* the process ends with a signal *)
}.
Context {V : Type} `{Vfs V} `{ByteMem V} `{ExecParts V}.
(** The local variables of the kernel that files are read into. *)
Context (headerAddr phAddr : Z).

(** ** Strings *)

(** A string ends before the memory does. *)
Definition stringFuel : M V nat := gets (fun v => S (size (bytes v))).
Fixpoint strlenFrom (fuel : nat) (str result : Z) : M V Z :=
  match fuel with
  | O => nofuel
  | S fuel => c ← rd str; if c =? 0 then mret result else strlenFrom fuel (u64 (str + 1)) (result + 1)
  end.
Definition strlen (str : Z) : M V Z := n ← stringFuel; strlenFrom n str 0.
(** The length of a string of the user, or an error. *)
Fixpoint userStringFrom (fuel : nat) (str len : Z) : M V Z :=
  match fuel with
  | O => nofuel
  | S fuel =>
      if has str USER_END then mret (- EINVAL)
      else c ← rd str; if c =? 0 then mret len else userStringFrom fuel (u64 (str + 1)) (s32 (len + 1))
  end.
Definition validateUserStringL (str : Z) : M V Z := n ← stringFuel; userStringFrom n str 0.

(** ** The ELF file *)

Definition ldHeader (a : Z) : M V ElfHeader :=
  m ← ldBytes 4 a; t ← ld 2 (a + 16); mc ← ld 2 (a + 18); en ← ld 8 (a + 24); off ← ld 8 (a + 32);
  sz ← ld 2 (a + 54); n ← ld 2 (a + 56);
  mret (mkElf m t mc en off sz n).
Definition ldPHEntry (a : Z) : M V ElfPHEntry :=
  t ← ld 4 a; f ← ld 4 (a + 4); off ← ld 8 (a + 8); va ← ld 8 (a + 16); fs ← ld 8 (a + 32); ms ← ld 8 (a + 40); al ← ld 8 (a + 48);
  mret (mkPh t f off va fs ms al).
Definition ELFMAG : list Z := [0x7F; 69; 76; 70].
Definition checkElfHeader (h : ElfHeader) : Z :=
  if negb (bool_decide (magic h = ELFMAG)) then - EINVAL
  else if negb (etype h =? 2) then - EINVAL
  else if negb (emachine h =? 0x3E) then - EINVAL
  else if negb (phentSize h =? sizeofElfPHEntry) then - EINVAL
  else 0.

(** [%] by zero is a fault of the processor. *)
Definition alignLowM (x a : Z) : M V Z := if a =? 0 then fault else mret (alignLow x a).
Definition alignM (x a : Z) : M V Z := if a =? 0 then fault else mret (align x a).
Definition elfFlags (e : ElfPHEntry) : Z :=
  let flags := Z.lor (Z.lor (Z.lor PAGE_FLAG_INUSE PAGE_FLAG_CLEAN) PAGE_FLAG_USER) PAGE_FLAG_WRITE in
  if has (phflags e) PHFLAG_EXEC then Z.lor flags PAGE_FLAG_EXEC else flags.
Definition elfLoad (f : File) (e : ElfPHEntry) : M V (Z * File) :=
  '(error, f) ← fsSeek f (pOffset e) 0;
  if negb (error =? 0) then mret (error, f)
  else
    vaddr ← alignLowM (pVAddr e) (alignment e);
    let error := validateUserPointer vaddr (pMemSz e) in
    if negb (error =? 0) then mret (error, f)
    else
      sz ← alignM (pMemSz e) (alignment e);
      mapPages vaddr sz (elfFlags e);;
      '(r, f) ← fsRead f (pVAddr e) (pFileSz e);
      let error := s32 r in
      if negb (error =? s32 (pFileSz e)) then
        freePages vaddr (pMemSz e);;
        mret (if 0 <=? error then - EINVAL else error, f)
      else
        (if negb (has (phflags e) PAGE_FLAG_WRITE) then mmSetWritable vaddr sz false;; tlbInvalidateLocal vaddr (sz / PAGE_SIZE) else mret tt);;
        mret (0, f).

(** The loop over the program headers, from [i] on; [n] are left.  An unknown
    type leaves an error behind that the next turn overwrites. *)
Fixpoint loadFrom (n : nat) (h : ElfHeader) (i : Z) (f : File) : M V (Z * File) :=
  match n with
  | O => mret (0, f)
  | S n =>
      '(error, f) ← fsSeek f (u64 (phOff h + i * sizeofElfPHEntry)) 0;
      if negb (error =? 0) then mret (error, f)
      else
        '(r, f) ← fsRead f phAddr sizeofElfPHEntry;
        if r <? 0 then mret (s32 r, f)
        else
          e ← ldPHEntry phAddr;
          if ptype e =? PHTYPE_LOAD then
            if negb (alignment e mod PAGE_SIZE =? 0) then mret (- EINVAL, f)
            else
              '(error, f) ← elfLoad f e;
              if negb (error =? 0) then mret (error, f)
              else
                va ← alignLowM (pVAddr e) (alignment e);
                sz ← alignM (pMemSz e) (alignment e);
                '(error, _) ← createEntry va sz
                  (Z.lor (Z.lor (Z.lor (Z.ldiff (phflags e) MMAP_FLAG_SHARED) MMAP_FLAG_FIXED) MMAP_FLAG_ANON) MMAP_FLAG_COW);
                if negb (error =? 0) then mret (error, f) else loadFrom n h (i + 1) f
          else loadFrom n h (i + 1) f
  end.
(** The error, the start address and the top of the stack. *)
Definition execCommon (f : File) : M V (Z * File * Z * Z) :=
  '(r, f) ← fsRead f headerAddr sizeofElfHeader;
  if negb (r =? sizeofElfHeader) then mret (if r <? 0 then s32 r else - EINVAL, f, 0, 0)
  else
    h ← ldHeader headerAddr;
    let error := checkElfHeader h in
    if negb (error =? 0) then mret (error, f, 0, 0)
    else
      '(error, f) ← loadFrom (Z.to_nat (phnum h)) h 0 f;
      if negb (error =? 0) then mret (error, f, 0, 0)
      else
        '(error, sp) ← createEntry 0 THREAD_STACK_SIZE (Z.lor (Z.lor MMAP_FLAG_WRITE MMAP_FLAG_ANON) MMAP_FLAG_COW);
        if negb (error =? 0) then mret (error, f, 0, 0)
        else
          mapPages sp THREAD_STACK_SIZE (Z.lor (Z.lor (Z.lor PAGE_FLAG_INUSE PAGE_FLAG_CLEAN) PAGE_FLAG_USER) PAGE_FLAG_WRITE);;
          mret (0, f, entryAddr h, u64 (sp + THREAD_STACK_SIZE)).

(** ** The arguments of the new program *)

(** The first loop: the number and the length of the strings of the environment
    and of the arguments, or an error. *)
Fixpoint countStrings (fuel : nat) (strList argv i : Z) (sel : bool) (nrofEnvs envLen nrofArgs argLen : Z) : M V (Z + (Z * Z * Z * Z)) :=
  match fuel with
  | O => nofuel
  | S fuel =>
      let p := u64 (strList + 8 * i) in
      let error := validateUserPointer p 8 in
      if negb (error =? 0) then mret (inl error)
      else
        str ← ld64 p;
        if str =? 0 then
          if negb sel then countStrings fuel argv argv 0 true nrofEnvs envLen nrofArgs argLen
          else mret (inr (nrofEnvs, envLen, nrofArgs, argLen))
        else
          len ← validateUserStringL str;
          if len <? 0 then mret (inl len)
          else
            let len := s32 (len + 1) in
            if negb sel then countStrings fuel strList argv (i + 1) sel (nrofEnvs + 1) (s32 (envLen + len)) nrofArgs argLen
            else countStrings fuel strList argv (i + 1) sel nrofEnvs envLen (nrofArgs + 1) (s32 (argLen + len))
  end.
(** The strings of a list go to [uTop]; the list at [newArgv] gets their offsets
    in the page.  [n] is the number of pointers with the final one. *)
Fixpoint copyStrings (n : nat) (strList newArgv stack uTop : Z) : M V Z :=
  match n with
  | O => mret uTop
  | S n =>
      str ← ld64 strList;
      if str =? 0 then st64 newArgv 0;; mret uTop
      else
        l ← strlen str;
        let len := s32 (l + 1) in
        memcpy uTop str len;;
        st64 newArgv (u64 (uTop - stack));;
        copyStrings n (u64 (strList + 8)) (u64 (newArgv + 8)) stack (u64 (uTop + len))
  end.
(** The error and the stack pointer. *)
Definition createStack (stack argv envp : Z) : M V (Z * Z) :=
  n ← stringFuel;
  r ← countStrings (n + n) envp argv 0 false 0 0 0 0;
  match r with
  | inl error => mret (error, 0)
  | inr (nrofEnvs, envLen, nrofArgs, argLen) =>
      let uTop := u64 (stack + PAGE_SIZE - argLen - envLen) in
      let nrofArgs := nrofArgs + 1 in
      let nrofEnvs := nrofEnvs + 1 in
      let newArgv := u64 (alignLow uTop 16 - nrofArgs * 8 - nrofEnvs * 8) in
      uTop ← copyStrings (Z.to_nat nrofArgs) argv newArgv stack uTop;
      copyStrings (Z.to_nat nrofEnvs) envp (u64 (newArgv + 8 * nrofArgs)) stack uTop;;
      st64 (u64 (newArgv - 8)) (nrofArgs - 1);;
      mret (0, u64 (newArgv - 8))
  end.
(** The offsets of both lists become addresses. *)
Fixpoint relocate (fuel : nat) (list base : Z) (sel : bool) : M V unit :=
  match fuel with
  | O => nofuel
  | S fuel =>
      p ← ld64 list;
      if p =? 0 then (if negb sel then relocate fuel (u64 (list + 8)) base true else mret tt)
      else st64 list (u64 (p + base));; relocate fuel (u64 (list + 8)) base sel
  end.
(** What [sysExec] does with the page when the new stack is there: the stack
    pointer of the program. *)
Definition placeArguments (sp spDiff top : Z) : M V Z :=
  let userSP := u64 (top - spDiff) in
  memcpy userSP sp spDiff;;
  n ← stringFuel;
  relocate n (u64 (userSP + 8)) (alignLow userSP PAGE_SIZE) false;;
  mret userSP.

Definition sysExec (fileName : Z * list Z) (argv envp : Z) : M V Z :=
  if (fileName.1 =? 0) || (argv =? 0) || (envp =? 0) then mret (- EINVAL)
  else
    let error := validateUserString fileName in
    if negb (error =? 0) then mret error
    else
      v ← get;
      inode ← getInodeFromPath (workDir v) fileName.2;
      if inode =? 0 then mret (- ENOENT)
      else
        ok ← fsAccessAllowed inode PERM_X;
        if negb ok then mret (- EPERM)
        else
          '(error, f) ← fsOpen (mkFile 0 0 SYSOPEN_FLAG_READ inode 0);
          if negb (error =? 0) then mret error
          else
            error ← fsCloseOnExec;
            if negb (error =? 0) then fsClose f;; mret error
            else
              stack ← kernelPages PAGE_SIZE;
              if stack =? 0 then fsClose f;; mret (- ENOMEM)
              else
                let failed f error := fsClose f;; freePages stack PAGE_SIZE;; signalExit SIGABRT;; fsClose f;; mret error in
                '(error, sp) ← createStack stack argv envp;
                if negb (error =? 0) then failed f error
                else
                  let spDiff := u64 (PAGE_SIZE - (sp - stack)) in
                  destroyMap;;
                  r ← execCommon f;
                  let '(error, f, start, top) := r in
                  if negb (error =? 0) then failed f error
                  else
                    fsClose f;;
                    userSP ← placeArguments sp spDiff top;
                    freePages stack PAGE_SIZE;;
                    initExecRetThread start userSP;;
                    mret 0.

(** [execInit]: the first process; its thread is at [mainThread]. *)
Context (cleanThread : M V Z) (firstProcess : Z -> M V unit) (uthreadInit : Z -> Z -> Z -> M V unit) (readyQueuePush : Z -> M V unit).
Definition execInit (fileName : list Z) : M V Z :=
  mainThread ← cleanThread;
  if mainThread =? 0 then mret (- ENOMEM)
  else
    firstProcess mainThread;;
    v ← get;
    inode ← getInodeFromPath (workDir v) fileName;
    if inode =? 0 then mret (- ENOENT)
    else
      '(error, f) ← fsOpen (mkFile 0 0 SYSOPEN_FLAG_READ inode 0);
      if negb (error =? 0) then mret error
      else
        r ← execCommon f;
        let '(error, f, start, sp) := r in
        if negb (error =? 0) then freePages mainThread THREAD_STACK_SIZE;; fsClose f;; mret error
        else
          st64 (u64 (sp - 8)) 0;; st64 (u64 (sp - 16)) 0;; st64 (u64 (sp - 24)) 0;;
          uthreadInit mainThread start (u64 (sp - 24));;
          readyQueuePush mainThread;;
          fsClose f;;
          mret 0.
End exec.
