(* ===== verification/ExecSpec.v ===== *)
(** * The arguments of a program arrive

    What [createStack] leaves in the page of the kernel, and that the program
    finds, after the page was copied to its stack and relocated, its arguments
    and its environment there. *)

From S2P Require Import Prelude Word Errno PageMap Heap Fd Mmap Bytes Exec.

#[local] Notation PAGE_SIZE := Heap.PAGE_SIZE.

(** ** Strings and lists of strings in memory *)
Definition cstr (m : gmap Z Z) (p : Z) (l : list Z) : Prop := text_at m p (l ++ [0]) /\ Forall (fun c => c <> 0) l.
Definition in_user (a n : Z) : Prop := 0 < a /\ a + n <= 2 ^ 47.
(** A list of pointers at [base], ended by a null pointer, to the strings. *)
Fixpoint strv (m : gmap Z Z) (base : Z) (strs : list (list Z)) : Prop :=
  in_user base 8 /\
  match strs with
  | [] => word m base 0
  | l :: strs => exists p, word m base p /\ cstr m p l /\ in_user p (Z.of_nat (length l) + 1) /\ strv m (base + 8) strs
  end.
(** What a new program finds on its stack: the number of arguments, the
    arguments and the environment. *)
Definition arguments (m : gmap Z Z) (sp : Z) (args envs : list (list Z)) : Prop :=
  word m sp (Z.of_nat (length args)) /\ strv m (sp + 8) args /\ strv m (sp + 8 + 8 * (Z.of_nat (length args) + 1)) envs.

Definition strings (strs : list (list Z)) : list Z := flat_map (fun l => l ++ [0]) strs.

Section spec.
Context {V : Type} `{Vfs V} `{ByteMem V} `{ExecParts V}.
Context `{!ByteMemOk V}.
Implicit Types (v : V) (m : gmap Z Z).

(** Strings. *)
Lemma user_land a : 0 <= a < 2 ^ 47 -> has a USER_END = false.
Proof.
  intros Ha. unfold has. rewrite negb_false_iff, Z.eqb_eq. apply Z.bits_inj'. intros n Hn. rewrite Z.land_spec, Z.bits_0, andb_false_iff.
  destruct (Z.lt_ge_cases n 47) as [Hlt|Hge]; [right|left].
  - change USER_END with (0x1FFFF * 2 ^ 47). by rewrite Z.mul_pow2_bits_low.
  - destruct (Z.eq_dec a 0) as [->|]; [apply Z.bits_0|]. apply Z.bits_above_log2; [lia|]. apply Z.log2_lt_pow2; [lia|].
    apply Z.lt_le_trans with (2 ^ 47); [lia|]. apply Z.pow_le_mono_r; lia.
Qed.
Lemma validate_ok a n : in_user a n -> 0 < n -> validateUserPointer a n = 0.
Proof.
  intros [Ha Hn] Hn0. unfold validateUserPointer. rewrite user_land by lia.
  rewrite u64_small by (unfold USER_END; lia). rewrite (proj2 (Z.ltb_ge _ _)) by (unfold USER_END; lia). done.
Qed.
Lemma kstrlenFrom_spec l : forall fuel str r v (Q : Z -> V -> Prop), text_at (bytes v) str (l ++ [0]) -> Forall (fun c => c <> 0) l -> (length l < fuel)%nat ->
  0 <= str -> str + Z.of_nat (length l) < 2 ^ 63 -> Q (r + Z.of_nat (length l)) v -> wp (strlenFrom fuel str r) v Q.
Proof.
  induction l as [|c l IH]; intros fuel str r v Q Ht Hl Hf Hs Hb HQ; (destruct fuel as [|fuel]; [cbn in Hf; lia|]); cbn [strlenFrom length app] in *.
  - apply wp_bind. eapply wp_rdByte; [rewrite <- (Ht 0%nat 0 eq_refl); f_equal; lia|]. cbn. by rewrite Z.add_0_r in HQ.
  - apply Forall_cons in Hl as [Hc Hl]. apply wp_bind. eapply wp_rdByte; [rewrite <- (Ht 0%nat c eq_refl); f_equal; lia|].
    rewrite (proj2 (Z.eqb_neq _ _) Hc). rewrite u64_small by lia. apply IH; [|done|lia|lia|lia|].
    + intros k x Hk. rewrite <- (Ht (S k) x Hk). f_equal. lia.
    + rewrite Nat2Z.inj_succ in HQ. by replace (r + 1 + Z.of_nat (length l)) with (r + Z.succ (Z.of_nat (length l))) by lia.
Qed.
Lemma cstr_size m p l : cstr m p l -> (length l < S (size m))%nat.
Proof. intros [Ht _]. pose proof (mapped_size _ _ _ (mapped_text _ _ _ Ht)) as Hs. rewrite length_app in Hs. cbn in Hs. lia. Qed.
Lemma strlen_spec p l v (Q : Z -> V -> Prop) : cstr (bytes v) p l -> in_user p (Z.of_nat (length l) + 1) -> Q (Z.of_nat (length l)) v -> wp (strlen p) v Q.
Proof.
  intros Hc [Hp Hl] HQ. unfold strlen, stringFuel. apply wp_bind, wp_gets. apply (kstrlenFrom_spec l); [apply Hc|apply Hc|by eapply cstr_size|lia|lia|done].
Qed.
Lemma userStringFrom_spec l : forall fuel str r v (Q : Z -> V -> Prop), text_at (bytes v) str (l ++ [0]) -> Forall (fun c => c <> 0) l -> (length l < fuel)%nat ->
  0 <= str -> str + Z.of_nat (length l) < 2 ^ 47 -> 0 <= r -> r + Z.of_nat (length l) < 2 ^ 31 -> Q (r + Z.of_nat (length l)) v -> wp (userStringFrom fuel str r) v Q.
Proof.
  induction l as [|c l IH]; intros fuel str r v Q Ht Hl Hf Hs Hb Hr Hr2 HQ; (destruct fuel as [|fuel]; [cbn in Hf; lia|]); cbn [userStringFrom length app] in *;
    rewrite user_land by lia.
  - apply wp_bind. eapply wp_rdByte; [rewrite <- (Ht 0%nat 0 eq_refl); f_equal; lia|]. cbn. by rewrite Z.add_0_r in HQ.
  - apply Forall_cons in Hl as [Hc Hl]. apply wp_bind. eapply wp_rdByte; [rewrite <- (Ht 0%nat c eq_refl); f_equal; lia|].
    rewrite (proj2 (Z.eqb_neq _ _) Hc). rewrite u64_small by lia. rewrite swrap_small by lia. apply IH; [|done|lia..|].
    + intros k x Hk. rewrite <- (Ht (S k) x Hk). f_equal. lia.
    + rewrite Nat2Z.inj_succ in HQ. by replace (r + 1 + Z.of_nat (length l)) with (r + Z.succ (Z.of_nat (length l))) by lia.
Qed.

(** *** Counting *)
Lemma strv_user m base strs : strv m base strs -> in_user base 8.
Proof. destruct strs; by intros [? _]. Qed.
Lemma validateUserStringL_spec p l v (Q : Z -> V -> Prop) : cstr (bytes v) p l -> in_user p (Z.of_nat (length l) + 1) -> Z.of_nat (length l) < 2 ^ 31 ->
  Q (Z.of_nat (length l)) v -> wp (validateUserStringL p) v Q.
Proof.
  intros Hc [Hp Hl] Hlen HQ. unfold validateUserStringL, stringFuel. apply wp_bind, wp_gets.
  apply (userStringFrom_spec l); [apply Hc|apply Hc|by eapply cstr_size|lia|lia|lia|lia|done].
Qed.
Lemma count_env strs : forall fuel strList argv i ne el na al v (Q : _ -> V -> Prop), strv (bytes v) (strList + 8 * i) strs -> 0 <= el ->
  el + Z.of_nat (length (strings strs)) < 2 ^ 31 ->
  wp (countStrings fuel argv argv 0 true (ne + Z.of_nat (length strs)) (el + Z.of_nat (length (strings strs))) na al) v Q ->
  wp (countStrings (S (length strs + fuel)) strList argv i false ne el na al) v Q.
Proof.
  induction strs as [|l strs IH]; intros fuel strList argv i ne el na al v Q Hs Hel Hlen HQ; cbn [countStrings length Nat.add];
    pose proof (strv_user _ _ _ Hs) as Hu; destruct Hs as [_ Hs]; rewrite u64_small by (destruct Hu; lia); rewrite validate_ok by (done || lia); cbn [Z.eqb negb].
  - apply wp_bind. eapply ld64_spec; [exact Hs|lia|destruct Hu; lia|destruct Hu; lia|]. cbn [Z.eqb negb]. by rewrite !Z.add_0_r in HQ.
  - destruct Hs as (p & Hp & Hc & Hpu & Hs). apply wp_bind. eapply ld64_spec; [exact Hp|destruct Hpu; lia|destruct Hu; lia|destruct Hu; lia|].
    rewrite (proj2 (Z.eqb_neq p 0)) by (destruct Hpu; lia). cbn [strings flat_map] in *. rewrite !length_app, !Nat2Z.inj_add in *. cbn [length] in *.
    apply wp_bind. eapply validateUserStringL_spec; [exact Hc|exact Hpu|lia|]. rewrite (proj2 (Z.ltb_ge _ _)) by lia.
    rewrite (swrap_small 32 (Z.of_nat (length l) + 1)) by lia. rewrite swrap_small by lia. apply IH; [|lia|unfold strings; lia|].
    + by replace (strList + 8 * (i + 1)) with (strList + 8 * i + 8) by lia.
    + unfold strings. match goal with |- wp (countStrings _ _ _ _ _ ?a ?b _ _) _ _ => match type of HQ with wp (countStrings _ _ _ _ _ ?a' ?b' _ _) _ _ => replace a with a' by lia; replace b with b' by lia end end. exact HQ.
Qed.
Lemma count_args strs : forall fuel strList argv i ne el na al v (Q : _ -> V -> Prop), strv (bytes v) (strList + 8 * i) strs -> 0 <= al ->
  al + Z.of_nat (length (strings strs)) < 2 ^ 31 ->
  Q (inr (ne, el, na + Z.of_nat (length strs), al + Z.of_nat (length (strings strs)))) v ->
  wp (countStrings (S (length strs + fuel)) strList argv i true ne el na al) v Q.
Proof.
  induction strs as [|l strs IH]; intros fuel strList argv i ne el na al v Q Hs Hel Hlen HQ; cbn [countStrings length Nat.add];
    pose proof (strv_user _ _ _ Hs) as Hu; destruct Hs as [_ Hs]; rewrite u64_small by (destruct Hu; lia); rewrite validate_ok by (done || lia); cbn [Z.eqb negb].
  - apply wp_bind. eapply ld64_spec; [exact Hs|lia|destruct Hu; lia|destruct Hu; lia|]. cbn [Z.eqb negb]. by rewrite !Z.add_0_r in HQ.
  - destruct Hs as (p & Hp & Hc & Hpu & Hs). apply wp_bind. eapply ld64_spec; [exact Hp|destruct Hpu; lia|destruct Hu; lia|destruct Hu; lia|].
    rewrite (proj2 (Z.eqb_neq p 0)) by (destruct Hpu; lia). cbn [strings flat_map] in *. rewrite !length_app, !Nat2Z.inj_add in *. cbn [length] in *.
    apply wp_bind. eapply validateUserStringL_spec; [exact Hc|exact Hpu|lia|]. rewrite (proj2 (Z.ltb_ge _ _)) by lia.
    rewrite (swrap_small 32 (Z.of_nat (length l) + 1)) by lia. rewrite swrap_small by lia. apply IH; [|lia|unfold strings; lia|].
    + by replace (strList + 8 * (i + 1)) with (strList + 8 * i + 8) by lia.
    + unfold strings. match goal with |- Q (inr (_, _, ?a, ?b)) _ => match type of HQ with Q (inr (_, _, ?a', ?b')) _ => replace a with a' by lia; replace b with b' by lia end end. exact HQ.
Qed.

(** Lists take room in memory. *)
Lemma strv_size m base strs : strv m base strs -> mapped m base (8 * (Z.of_nat (length strs) + 1)).
Proof.
  revert base. induction strs as [|l strs IH]; intros base Hs.
  - destruct Hs as [_ Hw]. apply mapped_text in Hw. by rewrite length_toBytes in Hw.
  - destruct Hs as (_ & p & Hw & _ & _ & Hs). apply IH in Hs. apply mapped_text in Hw. rewrite length_toBytes in Hw. cbn [length].
    intros k Hk. destruct (Z.lt_ge_cases k (base + 8)); [apply Hw; lia|apply Hs; lia].
Qed.
Lemma countStrings_spec {A} argv envp args envs v (k : _ -> M V A) (Q : A -> V -> Prop) : strv (bytes v) argv args -> strv (bytes v) envp envs ->
  Z.of_nat (length (strings args)) < 2 ^ 31 -> Z.of_nat (length (strings envs)) < 2 ^ 31 ->
  wp (k (inr (Z.of_nat (length envs), Z.of_nat (length (strings envs)), Z.of_nat (length args), Z.of_nat (length (strings args))))) v Q ->
  wp (n ← stringFuel; r ← countStrings (n + n) envp argv 0 false 0 0 0 0; k r) v Q.
Proof.
  intros Ha He La Le HQ. unfold stringFuel. apply wp_bind, wp_gets.
  pose proof (mapped_size _ _ _ (strv_size _ _ _ Ha)) as Sa. pose proof (mapped_size _ _ _ (strv_size _ _ _ He)) as Se.
  set (n := size (bytes v)) in *. replace (S n + S n)%nat with (S (length envs + S (length args + (n + n - length envs - length args))))%nat by lia.
  apply wp_bind, count_env; [by rewrite Z.add_0_r|lia|lia|]. apply count_args; [by rewrite Z.add_0_r|lia|lia|]. by rewrite !Z.add_0_l.
Qed.

(** *** Copying *)
Lemma word_store m a x b l : word m a x -> a + 8 <= b \/ b + Z.of_nat (length l) <= a -> word (store b l m) a x.
Proof. intros Hw Hd. apply text_at_store_apart; [done|]. by rewrite length_toBytes. Qed.
Lemma strv_store m base strs b l : strv m base strs -> 2 ^ 47 <= b -> strv (store b l m) base strs.
Proof.
  revert base. induction strs as [|s strs IH]; intros base [Hu Hs] Hb; (split; [done|]); destruct Hu as [Hu1 Hu2].
  - apply word_store; [done|lia].
  - destruct Hs as (p & Hw & [Ht Hnz] & Hpu & Hs). exists p. split_and!; [apply word_store; [done|lia]| |done|by apply IH].
    split; [|done]. apply text_at_store_apart; [done|]. rewrite length_app. cbn. destruct Hpu. lia.
Qed.

(** The list of the offsets of strings that lie one after the other from [o] on. *)
Fixpoint offsets (strs : list (list Z)) (o : Z) : list Z :=
  match strs with [] => [0] | l :: strs => o :: offsets strs (o + Z.of_nat (length l) + 1) end.
Lemma length_offsets strs o : length (offsets strs o) = S (length strs).
Proof. revert o. induction strs as [|l strs IH]; intros o; [done|]. cbn [offsets length]. by rewrite IH. Qed.
Lemma strings_cons l strs : strings (l :: strs) = (l ++ [0]) ++ strings strs.
Proof. done. Qed.

Lemma copyStrings_S n strList newArgv stack uTop : copyStrings (S n) strList newArgv stack uTop =
  (str ← ld64 strList;
   if str =? 0 then st64 newArgv 0;; mret uTop
   else
     l ← strlen str;
     memcpy uTop str (s32 (l + 1));;
     st64 newArgv (u64 (uTop - stack));;
     copyStrings n (u64 (strList + 8)) (u64 (newArgv + 8)) stack (u64 (uTop + s32 (l + 1)))).
Proof. done. Qed.
Lemma copyStrings_spec strs : forall list_ newArgv stack u v, strv (bytes v) list_ strs -> 2 ^ 47 <= newArgv -> 0 <= stack < u ->
  newArgv + 8 * (Z.of_nat (length strs) + 1) <= u -> u + Z.of_nat (length (strings strs)) <= 2 ^ 63 -> Z.of_nat (length (strings strs)) < 2 ^ 31 ->
  mapped (bytes v) newArgv (8 * (Z.of_nat (length strs) + 1)) -> mapped (bytes v) u (Z.of_nat (length (strings strs))) ->
  wp (copyStrings (S (length strs)) list_ newArgv stack u) v (fun r v' => r = u + Z.of_nat (length (strings strs)) /\
    v' = setBytes (store newArgv (words (offsets strs (u - stack))) (store u (strings strs) (bytes v))) v).
Proof.
  induction strs as [|l strs IH]; intros list_ newArgv stack u v Hs Hn Hst Hroom Hu Hlen Hma Hmu; rewrite copyStrings_S; destruct Hs as [[Hl1 Hl2] Hs].
  - apply wp_bind. eapply ld64_spec; [exact Hs|lia|lia|lia|]. cbn [Z.eqb]. apply wp_bind. wp_use st64_spec; [exact Hma|lia|lia|].
    intros _ v' ->. apply wp_ret. split; [cbn; lia|done].
  - destruct Hs as (p & Hw & Hc & Hpu & Hs). pose proof Hpu as [Hp1 Hp2]. rewrite strings_cons, !length_app, !Nat2Z.inj_add in *. cbn [length] in Hlen, Hu, Hmu, Hroom, Hma |- *. rewrite Nat2Z.inj_succ in *.
    apply wp_bind. eapply ld64_spec; [exact Hw|lia|lia|lia|]. rewrite (proj2 (Z.eqb_neq p 0)) by lia.
    apply wp_bind. eapply strlen_spec; [exact Hc|exact Hpu|]. rewrite swrap_small by lia. unfold memcpy.
    replace (Z.to_nat (Z.of_nat (length l) + 1)) with (length (l ++ [0])) by (rewrite length_app; cbn; lia).
    assert (Elen : Z.of_nat (length (l ++ [0])) = Z.of_nat (length l) + 1) by (rewrite length_app; cbn; lia).
    apply wp_bind. wp_use (copy_spec (l ++ [0]) u p); rewrite ?Elen; [apply Hc|eapply mapped_part; [exact Hmu|lia|lia]|lia..|].
    intros _ v1 ->. apply wp_bind. wp_use st64_spec; rewrite ?bytes_set; [apply mapped_store; eapply mapped_part; [exact Hma|lia|lia]|lia|lia|].
    intros _ v2 ->. rewrite set_set.
    rewrite (u64_small (list_ + 8)), (u64_small (newArgv + 8)), (u64_small (u - stack)), (u64_small (u + _)) by lia.
    wp_use (IH (list_ + 8) (newArgv + 8) stack (u + (Z.of_nat (length l) + 1))); rewrite ?bytes_set; [|lia..| | |].
    + apply strv_store; [by apply strv_store; [|lia]|lia].
    + apply mapped_store, mapped_store. eapply mapped_part; [exact Hma|lia|lia].
    + apply mapped_store, mapped_store. eapply mapped_part; [exact Hmu|lia|lia].
    + intros r v' [-> ->]. split; [lia|]. rewrite set_set. f_equal. cbn [offsets]. rewrite words_cons, !store_app, length_toBytes, Elen.
      change (Z.of_nat 8) with 8. replace (u - stack + Z.of_nat (length l) + 1) with (u + (Z.of_nat (length l) + 1) - stack) by lia. f_equal.
      rewrite store_comm; [done|]. rewrite length_toBytes. lia.
Qed.

(** *** The page of the arguments *)
Lemma alignLow_range x a : 0 < a -> x - a < alignLow x a <= x.
Proof. intros Ha. unfold alignLow. pose proof (Z.mod_pos_bound x a Ha). lia. Qed.
Definition slen (strs : list (list Z)) : Z := Z.of_nat (length (strings strs)).
Definition count (strs : list (list Z)) : Z := Z.of_nat (length strs).
Section page.
Context (stack : Z) (args envs : list (list Z)).
(** Where the strings begin, and the stack pointer. *)
Definition textStart : Z := stack + PAGE_SIZE - slen args - slen envs.
Definition stackTop : Z := alignLow textStart 16 - 8 * (count args + 1) - 8 * (count envs + 1) - 8.
Definition frame : list Z :=
  toBytes 8 (count args) ++ words (offsets args (textStart - stack)) ++ words (offsets envs (textStart + slen args - stack)).
Definition page_of (m : gmap Z Z) : gmap Z Z := store stackTop frame (store textStart (strings args ++ strings envs) m).
Lemma length_frame : Z.of_nat (length frame) = 8 * (count args + count envs + 3).
Proof. unfold frame, count. rewrite !length_app, length_toBytes, !Nat2Z.inj_add, !length_words, !length_offsets. lia. Qed.

(** The strings and the lists fit the page. *)
Context (Hfit : slen args + slen envs + 8 * (count args + count envs + 3) + 15 <= PAGE_SIZE) (Hstack : 2 ^ 47 <= stack /\ stack + PAGE_SIZE <= 2 ^ 63).
Lemma page_layout : stack <= stackTop /\ stackTop + 8 * (count args + count envs + 3) <= textStart /\ textStart + slen args + slen envs = stack + PAGE_SIZE /\
  0 <= slen args /\ 0 <= slen envs /\ 0 <= count args /\ 0 <= count envs.
Proof. unfold stackTop. pose proof (alignLow_range textStart 16). unfold textStart, slen, count in *. lia. Qed.

Lemma createStack_spec argv envp v : strv (bytes v) argv args -> strv (bytes v) envp envs -> mapped (bytes v) stack PAGE_SIZE ->
  wp (createStack stack argv envp) v (fun r v' => r = (0, stackTop) /\ v' = setBytes (page_of (bytes v)) v).
Proof.
  intros Ha He Hm. pose proof page_layout as (P1 & P2 & P3 & P4 & P5 & P6 & P7). change Heap.PAGE_SIZE with 4096 in Hfit, P3, Hstack, Hm.
  unfold createStack. eapply (countStrings_spec argv envp args envs); [exact Ha|exact He|unfold slen in *; lia|unfold slen in *; lia|]. fold (slen args) (slen envs) (count args) (count envs).
  change (stack + PAGE_SIZE - slen args - slen envs) with textStart. rewrite (u64_small textStart) by lia.
  assert (Etop : u64 (alignLow textStart 16 - (count args + 1) * 8 - (count envs + 1) * 8) = stackTop + 8).
  { unfold stackTop in *. rewrite u64_small by lia. lia. }
  rewrite Etop. rewrite (u64_small (stackTop + 8 - 8)), (u64_small (stackTop + 8 + _)) by lia.
  replace (Z.to_nat (count args + 1)) with (S (length args)) by (unfold count; lia). replace (Z.to_nat (count envs + 1)) with (S (length envs)) by (unfold count; lia).
  apply wp_bind. unfold slen, count in *.
  wp_use copyStrings_spec; [exact Ha|lia..|eapply mapped_part; [exact Hm|lia|lia]|eapply mapped_part; [exact Hm|lia|lia]|].
  intros r v1 [-> ->]. apply wp_bind.
  wp_use copyStrings_spec; rewrite ?bytes_set; [apply strv_store; [apply strv_store; [exact He|lia]|lia]|lia..| | |].
  { apply mapped_store, mapped_store. eapply mapped_part; [exact Hm|lia|lia]. }
  { apply mapped_store, mapped_store. eapply mapped_part; [exact Hm|lia|lia]. }
  intros r v2 [-> ->]. rewrite set_set. apply wp_bind. wp_use st64_spec; rewrite ?bytes_set; [|lia|lia|].
  { do 4 apply mapped_store. eapply mapped_part; [exact Hm|lia|lia]. }
  intros _ v3 ->. apply wp_ret. rewrite set_set. replace (stackTop + 8 - 8) with stackTop by lia. split; [done|]. f_equal. unfold page_of, frame, slen, count.
  rewrite !store_app, length_toBytes, length_words, length_offsets. change (Z.of_nat 8) with 8. replace (Z.of_nat (length args) + 1 - 1) with (Z.of_nat (length args)) by lia.
  rewrite Nat2Z.inj_succ, <- Z.add_1_r.
  rewrite (store_comm stackTop) by (rewrite length_toBytes, length_words, length_offsets; lia).
  rewrite (store_comm stackTop) by (rewrite length_toBytes; lia).
  rewrite (store_comm stackTop) by (rewrite length_toBytes, length_words, length_offsets; lia). f_equal.
  rewrite (store_comm (textStart + _)) by (rewrite length_words, length_offsets; lia). f_equal.
  rewrite (store_comm (textStart + _)) by (rewrite length_toBytes; lia). done.
Qed.

(** What can be read in a copy of the page at another place. *)
Lemma text_copy m m2 P d l : text_at m stackTop P -> text_at m (stackTop + d) l -> 0 <= d -> d + Z.of_nat (length l) <= Z.of_nat (length P) ->
  forall a, text_at (store a P m2) (a + d) l.
Proof.
  intros HP Hl Hd Hlen a k c Hk. pose proof (lookup_lt_Some _ _ _ Hk). rewrite lookup_store, decide_True by lia.
  destruct (lookup_lt_is_Some_2 P (Z.to_nat (a + d + Z.of_nat k - a))) as [c' Hc']; [lia|]. rewrite Hc'.
  pose proof (HP _ _ Hc') as E1. pose proof (Hl _ _ Hk) as E2. rewrite <- E1, <- E2. f_equal. lia.
Qed.
Lemma mapped_list m a n : mapped m a n -> 0 <= n -> exists l, Z.of_nat (length l) = n /\ text_at m a l.
Proof.
  intros Hm Hn. revert Hm. rewrite <- (Z2Nat.id n) by done. generalize (Z.to_nat n) as k. clear n Hn. intros k. revert a.
  induction k as [|k IH]; intros a Hm; [by exists []|]. destruct (IH (a + 1)) as (l & Hl & Ht); [intros x Hx; apply Hm; lia|].
  destruct (Hm a) as [c Hc]; [lia|]. exists (c :: l). split; [cbn; lia|]. intros [|i] x Hi; [injection Hi as <-; by rewrite Z.add_0_r|].
  rewrite <- (Ht i x Hi). f_equal. lia.
Qed.
End page.

(** *** Relocation *)
Lemma store_same a l m : text_at m a l -> store a l m = m.
Proof.
  intros Ht. apply map_eq. intros k. rewrite lookup_store. destruct (decide _); [|done].
  destruct (lookup_lt_is_Some_2 l (Z.to_nat (k - a))) as [c Hc]; [lia|]. rewrite Hc, <- (Ht _ _ Hc). f_equal. lia.
Qed.
Lemma relocate_strs strs : forall fuel list_ base sel o v (Q : unit -> V -> Prop), text_at (bytes v) list_ (words (offsets strs o)) -> 0 < o -> 0 <= base ->
  o + base + Z.of_nat (length (strings strs)) < 2 ^ 63 -> 0 <= list_ -> list_ + 8 * (Z.of_nat (length strs) + 1) <= 2 ^ 63 ->
  (let v' := setBytes (store list_ (words (offsets strs (o + base))) (bytes v)) v in
   if sel : bool then Q tt v' else wp (relocate fuel (list_ + 8 * (Z.of_nat (length strs) + 1)) base true) v' Q) ->
  wp (relocate (S (length strs + fuel)) list_ base sel) v Q.
Proof.
  induction strs as [|l strs IH]; intros fuel list_ base sel o v Q Ht Ho Hb Hlen Hl0 Hl HQ; cbn [relocate length Nat.add offsets] in *; rewrite words_cons in Ht;
    apply text_at_app in Ht as [Hw Ht].
  - apply wp_bind. eapply ld64_spec; [exact Hw|lia|lia|lia|]. cbn [Z.eqb].
    assert (E : setBytes (store list_ (words [0]) (bytes v)) v = v) by (unfold words; cbn [flat_map]; rewrite app_nil_r, store_same by done; apply set_bytes).
    cbv zeta in HQ. rewrite E in HQ. destruct sel; cbn [negb]; [by apply wp_ret|]. rewrite u64_small by lia. exact HQ.
  - rewrite strings_cons, !length_app, !Nat2Z.inj_add in Hlen. cbn [length] in Hlen. rewrite length_toBytes in Ht. change (Z.of_nat 8) with 8 in Ht.
    apply wp_bind. eapply ld64_spec; [exact Hw|lia|lia|lia|]. rewrite (proj2 (Z.eqb_neq o 0)) by lia. rewrite (u64_small (o + base)) by lia. rewrite (u64_small (list_ + 8)) by lia.
    apply wp_bind. wp_use st64_spec; [|lia|lia|].
    { apply mapped_text in Hw. by rewrite length_toBytes in Hw. }
    intros _ v1 ->. apply (IH fuel _ _ _ (o + Z.of_nat (length l) + 1)); rewrite ?bytes_set; [|lia..|].
    + apply text_at_store_apart; [exact Ht|]. rewrite length_toBytes. lia.
    + cbv zeta in HQ |- *. rewrite set_set. rewrite words_cons, store_app, length_toBytes in HQ. change (Z.of_nat 8) with 8 in HQ.
      replace (o + Z.of_nat (length l) + 1 + base) with (o + base + Z.of_nat (length l) + 1) by lia.
      replace (list_ + 8 + 8 * (Z.of_nat (length strs) + 1)) with (list_ + 8 * (Z.of_nat (S (length strs)) + 1)) by lia. exact HQ.
Qed.
Lemma strv_intro m strs : forall base o, text_at m base (words (offsets strs o)) -> text_at m o (strings strs) -> Forall (Forall (fun c => c <> 0)) strs ->
  0 < base -> base + 8 * (Z.of_nat (length strs) + 1) <= 2 ^ 47 -> 0 < o -> o + Z.of_nat (length (strings strs)) <= 2 ^ 47 -> strv m base strs.
Proof.
  induction strs as [|l strs IH]; intros base o Hw Ht Hnz Hb Hb2 Ho Ho2; cbn [offsets] in Hw; rewrite words_cons in Hw; apply text_at_app in Hw as [Hw Hws].
  - split; [unfold in_user; cbn in Hb2; lia|done].
  - rewrite strings_cons in Ht, Ho2. apply text_at_app in Ht as [Hl Ht]. rewrite length_app in Ht, Ho2. apply Forall_cons in Hnz as [Hnz1 Hnz]. cbn [length] in *.
    rewrite ?length_app in *. cbn [length] in *. split; [unfold in_user; lia|]. exists o. split_and!; [done|by split|unfold in_user; lia|].
    apply (IH _ (o + Z.of_nat (length l) + 1)); [by rewrite length_toBytes in Hws| |done|lia..].
    replace (o + Z.of_nat (length l) + 1) with (o + Z.of_nat (length l + 1)) by lia. exact Ht.
Qed.

(** *** The stack of the program *)
Lemma frame_eq stack args envs : frame stack args envs = toBytes 8 (count args) ++ words (offsets args (textStart stack args envs - stack)) ++
  words (offsets envs (textStart stack args envs + slen args - stack)).
Proof. done. Qed.
Section place.
Context (stack : Z) (args envs : list (list Z)).
Context (Hfit : slen args + slen envs + 8 * (count args + count envs + 3) + 15 <= PAGE_SIZE) (Hstack : 2 ^ 47 <= stack /\ stack + PAGE_SIZE <= 2 ^ 63).
Context (Hargs : Forall (Forall (fun c => c <> 0)) args) (Henvs : Forall (Forall (fun c => c <> 0)) envs).
Notation stackTop := (stackTop stack args envs).
Notation textStart := (textStart stack args envs).
Notation frame := (frame stack args envs).

(** The frame and the texts in the page, and in a copy of it at [a]. *)
Definition copied (m : gmap Z Z) (a : Z) : Prop :=
  text_at m a frame /\ text_at m (a + (textStart - stackTop)) (strings args ++ strings envs).
Lemma copied_page m : copied (page_of stack args envs m) stackTop.
Proof.
  pose proof (page_layout stack args envs Hfit) as (P1 & P2 & _). pose proof (length_frame stack args envs) as Lf. unfold copied, page_of. split; [apply store_text|].
  replace (stackTop + (textStart - stackTop)) with textStart by lia. apply text_at_store_apart; [apply store_text|]. lia.
Qed.
Lemma copied_copy m m2 P : copied m stackTop -> text_at m stackTop P -> Z.of_nat (length P) = stack + PAGE_SIZE - stackTop -> forall a, copied (store a P m2) a.
Proof.
  intros [Hf Ht] HP HlP a. pose proof (page_layout stack args envs Hfit) as (P1 & P2 & P3 & P4 & P5 & P6 & P7). pose proof (length_frame stack args envs) as Lf. split.
  - replace (text_at (store a P m2) a frame) with (text_at (store a P m2) (a + 0) frame) by (by rewrite Z.add_0_r).
    apply (text_copy stack args envs m m2 P 0); [done|by rewrite Z.add_0_r|lia|lia].
  - apply (text_copy stack args envs m m2 P (textStart - stackTop)); [done|done|lia|]. rewrite length_app. unfold slen in *. lia.
Qed.

Lemma placeArguments_spec m v top : copied m stackTop -> (forall k, stack <= k < stack + PAGE_SIZE -> bytes v !! k = m !! k) -> mapped m stack PAGE_SIZE ->
  top mod PAGE_SIZE = 0 -> 2 * PAGE_SIZE <= top <= 2 ^ 47 -> mapped (bytes v) (top - PAGE_SIZE) PAGE_SIZE ->
  wp (placeArguments stackTop (u64 (PAGE_SIZE - (stackTop - stack))) top) v (fun userSP v' =>
    userSP = top - PAGE_SIZE + (stackTop - stack) /\ arguments (bytes v') userSP args envs).
Proof.
  intros Hc Hv Hm Hal Htop Hmt. pose proof (page_layout stack args envs Hfit) as (P1 & P2 & P3 & P4 & P5 & P6 & P7). pose proof (length_frame stack args envs) as Lf.
  change Heap.PAGE_SIZE with 4096 in *. rewrite (u64_small (4096 - _)) by lia. set (d := stackTop - stack) in *.
  destruct (mapped_list m stackTop (4096 - d)) as (P & HlP & HP); [eapply mapped_part; [exact Hm|lia|lia]|lia|].
  assert (HP' : text_at (bytes v) stackTop P) by (intros k c Hk; pose proof (lookup_lt_Some _ _ _ Hk); rewrite Hv by lia; by apply HP).
  pose proof (copied_copy m (bytes v) P Hc HP ltac:(change Heap.PAGE_SIZE with 4096; lia)) as Hcopy.
  unfold placeArguments, memcpy. replace (u64 (top - (4096 - d))) with (top - 4096 + d) by (rewrite u64_small; lia). set (a := top - 4096 + d).
  assert (Halign : alignLow a 4096 = top - 4096).
  { unfold alignLow. rewrite <- (Z.mod_unique a 4096 (top / 4096 - 1) d); [lia|lia|]. pose proof (Z.div_mod top 4096). unfold a. lia. }
  rewrite <- HlP, Nat2Z.id. apply wp_bind. wp_use (copy_spec P a stackTop); [exact HP'|eapply mapped_part; [exact Hmt|lia|lia]|lia..|].
  intros _ v1 ->. destruct (Hcopy a) as [Hf Ht]. unfold stringFuel. apply wp_bind, wp_gets. change Heap.PAGE_SIZE with 4096. rewrite Halign, (u64_small (a + 8)) by lia. rewrite bytes_set.
  rewrite frame_eq in Hf. apply text_at_app in Hf as [Hw0 Hf]. apply text_at_app in Hf as [HwA HwE].
  rewrite length_toBytes in HwA, HwE. rewrite length_words, length_offsets in HwE. change (Z.of_nat 8) with 8 in HwA, HwE. apply text_at_app in Ht as [HtA HtE].
  set (m1 := store a P (bytes v)) in *.
  assert (Hsize : (length args + length envs + 2 <= size m1)%nat).
  { assert (Hmf : mapped m1 a (8 * (count args + count envs + 3))) by (rewrite <- Lf; apply mapped_text; apply Hcopy).
    pose proof (mapped_size _ _ _ Hmf). unfold count in *. lia. }
  replace (S (size m1)) with (S (length args + S (length envs + (size m1 - length args - length envs - 1))))%nat by lia. apply wp_bind.
  assert (EA : textStart - stack + (top - 4096) = a + (textStart - stackTop)) by lia.
  assert (EE : textStart + slen args - stack + (top - 4096) = a + (textStart - stackTop) + slen args) by lia.
  apply (relocate_strs args _ (a + 8) (top - 4096) false (textStart - stack)); rewrite ?bytes_set; [exact HwA|lia|lia|unfold slen in *; lia|lia|unfold count in *; lia|].
  rewrite EA, set_set. cbv zeta. fold (count args). set (m2 := store (a + 8) _ m1).
  apply (relocate_strs envs _ _ _ true (textStart + slen args - stack)); rewrite ?bytes_set.
  { replace (a + 8 + 8 * (count args + 1)) with (a + 8 + 8 * Z.of_nat (S (length args))) by (unfold count; lia). apply text_at_store_apart; [exact HwE|].
    rewrite !length_words, !length_offsets. lia. }
  all: try (unfold slen, count in *; lia).
  rewrite EE, set_set. cbv zeta. apply wp_ret. split; [done|]. rewrite bytes_set. split_and!.
  - do 2 (apply word_store; [|rewrite length_words, length_offsets; unfold count; lia]). exact Hw0.
  - apply (strv_intro _ args _ (a + (textStart - stackTop))); [| |done|unfold slen, count in *; lia..].
    + apply text_at_store_apart; [apply store_text|]. rewrite !length_words, !length_offsets. unfold count. lia.
    + do 2 (apply text_at_store_apart; [|rewrite !length_words, !length_offsets; unfold count in *; lia]). exact HtA.
  - apply (strv_intro _ envs _ (a + (textStart - stackTop) + slen args)); [apply store_text| |done|unfold slen, count in *; lia..].
    do 2 (apply text_at_store_apart; [|rewrite !length_words, !length_offsets; unfold slen, count in *; lia]). exact HtE.
Qed.
End place.

Lemma strv_nonzero m base strs : strv m base strs -> Forall (Forall (fun c => c <> 0)) strs.
Proof. revert base. induction strs as [|l strs IH]; intros base Hs; [done|]. destruct Hs as (_ & p & _ & [_ Hl] & _ & Hs). constructor; [done|by eapply IH]. Qed.

(** C16: A program gets its arguments: [createStack] accepts lists of strings of the
    caller that fit the page, and whatever happens to memory outside of the page
    before the new stack is there, the program then finds on its stack the
    number of arguments, the arguments and the environment, with pointers to
    copies of the strings. *)
Theorem exec_passes_arguments stack args envs argv envp v :
  strv (bytes v) argv args -> strv (bytes v) envp envs -> mapped (bytes v) stack PAGE_SIZE ->
  slen args + slen envs + 8 * (count args + count envs + 3) + 15 <= PAGE_SIZE -> 2 ^ 47 <= stack /\ stack + PAGE_SIZE <= 2 ^ 63 ->
  wp (createStack stack argv envp) v (fun r v1 => let '(error, sp) := r in error = 0 /\
    forall v2 top, (forall k, stack <= k < stack + PAGE_SIZE -> bytes v2 !! k = bytes v1 !! k) ->
    top mod PAGE_SIZE = 0 -> 2 * PAGE_SIZE <= top <= 2 ^ 47 -> mapped (bytes v2) (top - PAGE_SIZE) PAGE_SIZE ->
    wp (placeArguments sp (u64 (PAGE_SIZE - (sp - stack))) top) v2 (fun userSP v3 =>
      top - PAGE_SIZE <= userSP < top /\ arguments (bytes v3) userSP args envs)).
Proof.
  intros Ha He Hm Hfit Hstack. pose proof (page_layout stack args envs Hfit) as (P1 & P2 & P3 & P4 & P5 & P6 & P7).
  wp_use (createStack_spec stack args envs Hfit Hstack); [exact Ha|exact He|exact Hm|]. intros r v1 [-> ->]. split; [done|].
  intros v2 top Hv Hal Htop Hmt. rewrite bytes_set in Hv.
  wp_use (placeArguments_spec stack args envs Hfit Hstack (strv_nonzero _ _ _ Ha) (strv_nonzero _ _ _ He)); [apply copied_page; assumption|exact Hv| |done|done|done|].
  - do 2 apply mapped_store. exact Hm.
  - intros userSP v3 [-> Hr]. split; [lia|exact Hr].
Qed.
End spec.

(** ** A memory and a file system for examples: every file is full of the letter A *)
#[local] Instance demoVfs : Vfs (gmap Z Z) := {|
  fsWrite _ _ _ := fault; fsRead f buf n := fun m => Done ((n, f), store buf (replicate (Z.to_nat n) 65) m); fsOpen f := mret (0, f); fsClose f := mret f;
  fsTruncate _ _ := fault; fsSeek f _ _ := mret (0, f); fsCreate _ _ _ _ := fault; fsGetDent _ _ _ := fault; fsUnlink _ _ := fault;
  fsRename _ _ _ _ _ := fault; fsAccessAllowed _ _ := mret true; getInodeFromPath _ _ := mret 1; getBaseDirFromPath _ _ := fault; inodeType _ := fault;
  lockInode _ := fault; unlockInode _ := fault; addInodeRef _ _ := fault; devIoctl _ _ _ := fault; pipeWrite _ _ _ := fault; pipeRead _ _ _ := fault |}.
#[local] Instance demoParts : ExecParts (gmap Z Z) := {|
  kernelPages _ := mret 0; freePages _ _ := mret tt; mapPages _ _ _ := mret tt; mmSetWritable _ _ _ := mret tt;
  Exec.tlbInvalidateLocal _ _ := mret tt; destroyMap := mret tt; createEntry _ _ _ := mret (0, 0); fsCloseOnExec := mret 0; workDir _ := 1;
  initExecRetThread _ _ := mret tt; signalExit _ := mret tt |}.
Lemma text_at_check m a l : forallb (fun i => bool_decide (m !! (a + Z.of_nat i) = l !! i)) (seq 0 (length l)) = true -> text_at m a l.
Proof.
  intros Hb k c Hk. rewrite forallb_forall in Hb. pose proof (lookup_lt_Some _ _ _ Hk). specialize (Hb k ltac:(apply in_seq; lia)).
  apply bool_decide_eq_true in Hb. congruence.
Qed.

(** The arguments "ls" and "-l" at 0x2000, their list at 0x1000, an empty
    environment at 0x1100, and the page of the kernel. *)
Definition kernelPage : Z := 2 ^ 47.
Definition demoMem : gmap Z Z :=
  store 0x1000 (words [0x2000; 0x2003; 0]) (store 0x1100 (words [0]) (store 0x2000 [108; 115; 0; 45; 108; 0] (store kernelPage (replicate 4096 0) ∅))).
Definition demoArgs : list (list Z) := [[108; 115]; [45; 108]].
Lemma demo_args : strv (bytes demoMem) 0x1000 demoArgs.
Proof.
  change (bytes demoMem) with demoMem.
  assert (Hc : forall a l, forallb (fun i => bool_decide (demoMem !! (a + Z.of_nat i) = l !! i)) (seq 0 (length l)) = true -> text_at demoMem a l) by (intros; by apply text_at_check).
  split; [by split|]. exists 0x2000. split; [by apply Hc; vm_compute|]. split; [split; [by apply Hc; vm_compute|repeat constructor; done]|]. split; [by split|].
  split; [by split|]. exists 0x2003. split; [by apply Hc; vm_compute|]. split; [split; [by apply Hc; vm_compute|repeat constructor; done]|]. split; [by split|].
  split; [by split|]. by apply Hc; vm_compute.
Qed.
Lemma demo_envs : strv (bytes demoMem) 0x1100 [].
Proof. change (bytes demoMem) with demoMem. split; [by split|]. apply text_at_check. by vm_compute. Qed.
Lemma demo_page : mapped (bytes demoMem) kernelPage PAGE_SIZE.
Proof. change (bytes demoMem) with demoMem. do 3 apply mapped_store. apply (mapped_text _ _ (replicate 4096 0)). apply store_text. Qed.

Lemma demo_fits : slen demoArgs + slen [] + 8 * (count demoArgs + count [] + 3) + 15 <= PAGE_SIZE.
Proof. by vm_compute. Qed.
Lemma demo_kernel : 2 ^ 47 <= kernelPage /\ kernelPage + PAGE_SIZE <= 2 ^ 63.
Proof. unfold kernelPage, Heap.PAGE_SIZE. lia. Qed.
Lemma exec_passes_arguments_witness :
  wp (createStack kernelPage 0x1000 0x1100) demoMem (fun r v1 => let '(error, sp) := r in error = 0 /\
    forall v2 top, (forall k, kernelPage <= k < kernelPage + PAGE_SIZE -> bytes (V := gmap Z Z) v2 !! k = bytes v1 !! k) ->
    top mod PAGE_SIZE = 0 -> 2 * PAGE_SIZE <= top <= 2 ^ 47 -> mapped (bytes v2) (top - PAGE_SIZE) PAGE_SIZE ->
    wp (placeArguments sp (u64 (PAGE_SIZE - (sp - kernelPage))) top) v2 (fun userSP v3 =>
      top - PAGE_SIZE <= userSP < top /\ arguments (bytes v3) userSP demoArgs [])).
Proof.
  exact (exec_passes_arguments kernelPage demoArgs [] 0x1000 0x1100 demoMem demo_args demo_envs demo_page demo_fits demo_kernel).
Defined.

(** ** What goes wrong *)

(** The lengths are not compared with the page: longer arguments overwrite what
    lies before it. *)
Definition longMem : gmap Z Z :=
  store 0x1000 (words [0x2000; 0]) (store 0x1100 (words [0]) (store 0x2000 (replicate 5000 97 ++ [0]) (store (kernelPage - 4096) (replicate 8192 7) ∅))).
Example long_argument_leaves_page :
  match createStack kernelPage 0x1000 0x1100 longMem with
  | Done ((error, sp), m) => error = 0 /\ sp < kernelPage /\ m !! (kernelPage - 900) = Some 97
  | _ => False
  end.
Proof. by vm_compute. Qed.

(** A program header that needs no memory passes the test of its address when its
    alignment is larger than the address, and the contents of the file go to
    any address of the kernel. *)
Definition evilEntry (a : Z) : ElfPHEntry := mkPh PHTYPE_LOAD 2 0 a 4 0 (2 ^ 64 - 4096).
Example elfLoad_writes_kernel :
  let a := 0xFFFFFFFF80000000 in
  match elfLoad (mkFile 0 0 0 1 0) (evilEntry a) (store a [1; 2; 3; 4] ∅) with
  | Done ((error, _), m) => error = 0 /\ m !! a = Some 65
  | _ => False
  end.
Proof. by vm_compute. Qed.
(** An alignment of 0 passes the test for multiples of the page size and divides
    by zero. *)
Example elf_alignment_zero_faults f m : elfLoad f (mkPh PHTYPE_LOAD 2 0 0x1000 4 4 0) m = Fault.
Proof. done. Qed.
