(* ===== verification/TtySpec.v ===== *)
(** * What terminals do: text on the screen and lines of input

    The screen is a ring of cells: printed text is found from the cursor on, in
    order, wrapped at the margin, and the line of the cursor stays visible.  The
    input ring refines a line discipline: characters that are typed collect in a
    line that can be edited, and a reader gets complete lines in order. *)

From S2P Require Import Prelude Word Errno Bytes CString Keys Tty.

(** ** The screen as a ring of cells *)

Ltac scrsimpl := cbn [charWidth charHeight cursorX cursorY buf curFGCol curBGCol scrollbackY full globalDirty focus slock
  s_cursor s_buf s_colors s_scroll s_full s_focus s_lock fst snd].

Record screen_ok (s : Screen) : Prop := {
  sc_width : 0 < charWidth s;
  sc_height : 0 < charHeight s <= SCROLLBACK_LINES;
  sc_x : 0 <= cursorX s < charWidth s;
  sc_y : 0 <= cursorY s < SCROLLBACK_LINES;
  sc_buf : Z.of_nat (length (buf s)) = SCROLLBACK_LINES * charWidth s
}.
(** The number of cells and the cell of the cursor. *)
Definition cells (s : Screen) : Z := SCROLLBACK_LINES * charWidth s.
Definition position (s : Screen) : Z := cursorY s * charWidth s + cursorX s.
Definition cellAt (s : Screen) (i : Z) : option VttyChar := buf s !! Z.to_nat (i mod cells s).
(** The line of the cursor is one of the lines that are drawn. *)
Definition visible (s : Screen) : Prop := 0 <= scrollbackY s < SCROLLBACK_LINES /\ (cursorY s - scrollbackY s) mod SCROLLBACK_LINES < charHeight s.

Section screen.
Implicit Types s : Screen.

Lemma position_range s : screen_ok s -> 0 <= position s < cells s.
Proof. intros [Hw Hh Hx Hy Hb]. unfold position, cells, SCROLLBACK_LINES in *. nia. Qed.
Lemma wp_setCell i f s (Q : unit -> Screen -> Prop) vc :
  0 <= i -> buf s !! Z.to_nat i = Some vc -> Q tt (s_buf (<[Z.to_nat i := f vc]> (buf s)) s) -> wp (setCell i f) s Q.
Proof. intros Hi Hc HQ. unfold wp, setCell. destruct (Z.leb_spec 0 i); [|lia]. by rewrite Hc. Qed.
Lemma screen_cell s i : screen_ok s -> 0 <= i < cells s -> exists vc, buf s !! Z.to_nat i = Some vc.
Proof. intros [_ _ _ _ Hb] Hi. unfold cells in Hi. apply lookup_lt_is_Some. lia. Qed.

Definition blank (vc : VttyChar) : VttyChar := mkVc 0 (fgCol vc) 0 1.
Lemma clearCells_spec n i s : 0 <= i -> (Z.to_nat i + n <= length (buf s))%nat ->
  wp (clearCells n i) s (fun _ s' => exists b, s' = s_buf b s /\ length b = length (buf s) /\
    (forall k, (Z.to_nat i <= k < Z.to_nat i + n)%nat -> b !! k = blank <$> buf s !! k) /\
    (forall k, ~ (Z.to_nat i <= k < Z.to_nat i + n)%nat -> b !! k = buf s !! k)).
Proof.
  revert i s. induction n as [|n IH]; intros i s Hi Hn.
  { apply wp_ret. exists (buf s). split_and!; [by destruct s|done|intros; lia|done]. }
  destruct (lookup_lt_is_Some_2 (buf s) (Z.to_nat i)) as [vc Hvc]; [lia|].
  cbn [clearCells]. apply wp_bind. eapply wp_setCell; [done..|].
  wp_use IH; [lia|scrsimpl; rewrite length_insert; lia|]. intros _ s' (b & -> & Hl & Hin & Hout). exists b.
  cbn [buf s_buf] in *. rewrite length_insert in Hl. split_and!; [by destruct s|done| |].
  - intros k Hk. destruct (decide (k = Z.to_nat i)) as [->|Hne].
    + rewrite Hout by lia. rewrite list_lookup_insert_eq by lia. by rewrite Hvc.
    + rewrite Hin by lia. by rewrite list_lookup_insert_ne.
  - intros k Hk. rewrite Hout by lia. rewrite list_lookup_insert_ne by lia. done.
Qed.

(** The fields that only the escapes and the drawing change. *)
Definition same_setup s s' : Prop :=
  charWidth s' = charWidth s /\ charHeight s' = charHeight s /\ curFGCol s' = curFGCol s /\ curBGCol s' = curBGCol s /\
  focus s' = focus s /\ slock s' = slock s.
Lemma same_setup_trans s1 s2 s3 : same_setup s1 s2 -> same_setup s2 s3 -> same_setup s1 s3.
Proof. intros (?&?&?&?&?&?) (?&?&?&?&?&?). split_and!; congruence. Qed.

(** A new line: the cursor goes to the start of the next line of the ring,
    which is cleared, and that line is drawn. *)
Lemma newline_spec s : screen_ok s \/ screen_ok (s_cursor (cursorX s - 1) (cursorY s) s) ->
  wp newline s (fun _ s' => screen_ok s' /\ visible s' /\ same_setup s s' /\ cursorX s' = 0 /\
    cursorY s' = (cursorY s + 1) mod SCROLLBACK_LINES /\
    forall k, 0 <= k < cells s -> ~ cursorY s' * charWidth s <= k < (cursorY s' + 1) * charWidth s -> buf s' !! Z.to_nat k = buf s !! Z.to_nat k).
Proof.
  intros Hs. assert (Hok : 0 < charWidth s /\ 0 < charHeight s <= SCROLLBACK_LINES /\ 0 <= cursorY s < SCROLLBACK_LINES /\
    Z.of_nat (length (buf s)) = SCROLLBACK_LINES * charWidth s) by (by destruct Hs as [[]|[]]). clear Hs.
  destruct Hok as (Hw & Hh & Hy & Hb). unfold newline. unfold SCROLLBACK_LINES in *.
  apply wp_bind, wp_modify, wp_bind, wp_get. scrsimpl. apply wp_bind.
  set (y := (cursorY s + 1) mod 256). assert (Hyr : 0 <= y < 256) by (apply Z.mod_pos_bound; lia).
  eapply (wp_mono _ _ (fun _ s1 => buf s1 = buf s /\ charWidth s1 = charWidth s /\ charHeight s1 = charHeight s /\ same_setup s s1 /\ cursorX s1 = 0 /\ cursorY s1 = y /\ (full s1 = true \/ y = cursorY s + 1))).
  { destruct (Z.leb_spec 256 (cursorY s + 1)).
    - apply wp_bind, wp_modify, wp_modify. scrsimpl. split_and!; try done; [unfold y; apply (Z.mod_unique _ _ 1); lia|by left].
    - apply wp_ret. scrsimpl. split_and!; try done; [unfold y; by rewrite Z.mod_small by lia|right; unfold y; rewrite Z.mod_small; lia]. }
  intros _ s1 (Eb & Ew & Eh & Es & Ex & Ey & Ef). apply wp_bind, wp_get, wp_bind. rewrite Ew, Ey.
  wp_use clearCells_spec; [nia|rewrite Eb; nia|]. intros _ s2 (b & -> & Hl & Hin & Hout). apply wp_bind, wp_get. scrsimpl. rewrite Ey, Eh.
  set (y0 := y - charHeight s + 1). set (y1 := if y0 <? 0 then if full s1 then 256 + y0 else 0 else y0).
  assert (Hy1 : 0 <= y1 < 256 /\ (y - y1) mod 256 < charHeight s).
  { unfold y1. destruct (Z.ltb_spec y0 0); [destruct Ef as [->|Hf]; [|destruct (full s1)]|].
    - split; [lia|]. rewrite <- (Z.mod_unique (y - (256 + y0)) 256 (-1) (charHeight s - 1)) by lia. lia.
    - split; [lia|]. rewrite <- (Z.mod_unique (y - (256 + y0)) 256 (-1) (charHeight s - 1)) by lia. lia.
    - split; [lia|]. rewrite Z.mod_small by lia. lia.
    - split; [lia|]. rewrite Z.mod_small by lia. lia. }
  clearbody y1. eapply (wp_mono _ _ (fun _ s3 => scrollbackY s3 = y1 /\ buf s3 = b /\ charWidth s3 = charWidth s /\ charHeight s3 = charHeight s /\ same_setup s s3 /\ cursorX s3 = 0 /\ cursorY s3 = y)).
  { scrsimpl. destruct (Z.eqb_spec (scrollbackY s1) y1); cbn [negb]; [apply wp_ret|apply wp_modify]; scrsimpl; done. }
  intros _ s3 (Z1 & Z2 & Z3 & Z4 & Z5 & Z6 & Z7). rewrite Z6, Z7. split_and!; [| |done|done|done|].
  - split; rewrite ?Z3, ?Z4, ?Z6, ?Z7, ?Z2; unfold SCROLLBACK_LINES; try lia. rewrite Hl, Eb. lia.
  - unfold visible, SCROLLBACK_LINES. rewrite Z1, Z4, Z7. exact Hy1.
  - intros k Hk Hrow. rewrite Z2. rewrite Hout; [by rewrite Eb|]. unfold cells, SCROLLBACK_LINES in Hk. nia.
Qed.

Definition plain (c : Z) : Prop := c <> 13 /\ c <> 10 /\ c <> 27.
(** Cells that a character at the cursor cannot touch: those up to a line short
    of a whole turn of the ring before it. *)
Lemma not_in_row W y j : 0 < W -> 0 <= y < 256 -> 1 <= j < 256 * W - W ->
  let y' := (y + 1) mod 256 in let k := (y * W + (W - 1) - j) mod (256 * W) in ~ y' * W <= k < (y' + 1) * W.
Proof.
  intros HW Hy Hj y' k Hk. subst k. set (a := y * W + (W - 1) - j) in *.
  destruct (Z.lt_ge_cases a 0) as [Ha|Ha].
  - rewrite <- (Z.mod_unique a (256 * W) (-1) (a + 256 * W)) in Hk by nia.
    destruct (Z.eq_dec y 255) as [->|]; [replace y' with 0 in Hk by done; lia|].
    replace y' with (y + 1) in Hk by (unfold y'; rewrite Z.mod_small; lia). lia.
  - rewrite Z.mod_small in Hk by nia. destruct (Z.eq_dec y 255) as [->|]; [replace y' with 0 in Hk by done; nia|].
    replace y' with (y + 1) in Hk by (unfold y'; rewrite Z.mod_small; lia). nia.
Qed.
Lemma mod_before p j N : 0 <= p < N -> 1 <= j < N -> (p - j) mod N <> p.
Proof.
  intros Hp Hj. destruct (Z.lt_ge_cases (p - j) 0).
  - rewrite <- (Z.mod_unique (p - j) N (-1) (p - j + N)) by lia. lia.
  - rewrite Z.mod_small by lia. lia.
Qed.

Lemma plain_spec c s : screen_ok s ->
  wp (setCell (position s) (fun vc => mkVc c (curFGCol s) (curBGCol s) (dirty vc));;
      modify (fun x => s_cursor (cursorX x + 1) (cursorY x) x);;
      x ← get;
      if charWidth x <=? cursorX x then newline else mret tt) s (fun _ s' =>
    screen_ok s' /\ (visible s -> visible s') /\ same_setup s s' /\ position s' = (position s + 1) mod cells s /\
    (exists d, cellAt s' (position s) = Some (mkVc c (curFGCol s) (curBGCol s) d)) /\
    forall j, 1 <= j < cells s - charWidth s -> cellAt s' (position s - j) = cellAt s (position s - j)).
Proof.
  intros Hok. pose proof (position_range s Hok) as Hp. destruct (screen_cell s _ Hok Hp) as [vc Hvc].
  apply wp_bind. eapply wp_setCell; [lia|exact Hvc|]. apply wp_bind, wp_modify, wp_bind, wp_get.
  set (s1 := s_cursor _ _ _). change (charWidth s1) with (charWidth s). change (cursorX s1) with (cursorX s + 1). pose proof Hok as [Hw Hh Hx Hy Hb].
  assert (Hlen : Z.of_nat (length (buf s1)) = cells s) by (unfold s1, cells; scrsimpl; rewrite length_insert; done).
  assert (Hcell : forall k, 0 <= k < cells s -> k <> position s -> buf s1 !! Z.to_nat k = buf s !! Z.to_nat k).
  { intros k Hk Hne. unfold s1. scrsimpl. apply list_lookup_insert_ne. lia. }
  assert (Hnew : buf s1 !! Z.to_nat (position s) = Some (mkVc c (curFGCol s) (curBGCol s) (dirty vc))).
  { unfold s1. scrsimpl. apply list_lookup_insert_eq. apply lookup_lt_Some in Hvc. done. }
  destruct (Z.leb_spec (charWidth s) (cursorX s + 1)) as [Hle|Hlt].
  - assert (HX : cursorX s = charWidth s - 1) by lia.
    wp_use newline_spec; [right|].
    { split; unfold s1; scrsimpl; [done|done|lia|done|by rewrite length_insert]. }
    intros _ s2 (Hok2 & Hv2 & Hs2 & Hx2 & Hy2 & Hc2). assert (Hs : same_setup s s2) by exact Hs2.
    assert (Hcells : cells s2 = cells s) by (unfold cells; by rewrite (proj1 Hs)).
    change (cells s1) with (cells s) in Hc2. change (charWidth s1) with (charWidth s) in Hc2. change (cursorY s1) with (cursorY s) in Hy2.
    unfold SCROLLBACK_LINES in *. rewrite Hy2 in Hc2.
    assert (Hpos : position s = cursorY s * charWidth s + (charWidth s - 1)) by (unfold position; lia).
    split_and!; [done|done|done| | |].
    + unfold position at 1. rewrite Hx2, Hy2, (proj1 Hs). unfold cells, SCROLLBACK_LINES in *. destruct (Z.eq_dec (cursorY s) 255) as [E|].
      * rewrite <- (Z.mod_unique (position s + 1) (256 * charWidth s) 1 0) by lia. rewrite E. done.
      * rewrite !Z.mod_small by nia. lia.
    + exists (dirty vc). unfold cellAt. rewrite Hcells, Z.mod_small by lia. rewrite Hc2; [done|lia|].
      pose proof (not_in_row (charWidth s) (cursorY s) 0) as Hn. cbv zeta in Hn. intros Hk. rewrite Hpos in Hk.
      destruct (Z.eq_dec (cursorY s) 255) as [E|]; [rewrite E in Hk; change ((255 + 1) mod 256) with 0 in Hk; nia|].
      rewrite Z.mod_small in Hk by lia. nia.
    + intros j Hj. unfold cellAt. rewrite Hcells. pose proof (Z.mod_pos_bound (position s - j) (cells s)) as Hm. rewrite Hc2; [|lia|].
      * apply Hcell; [lia|]. apply mod_before; lia.
      * rewrite Hpos. apply not_in_row; [lia|lia|]. unfold cells, SCROLLBACK_LINES in Hj. lia.
  - apply wp_ret. assert (Hok1 : screen_ok s1) by (split; unfold s1; scrsimpl; [done|done|lia|done|by rewrite length_insert]).
    change (cells s1) with (cells s). split_and!; [done|done|done| | |].
    + unfold position at 1, s1. scrsimpl. unfold position in *. rewrite Z.mod_small; [lia|]. unfold cells, SCROLLBACK_LINES in *. nia.
    + exists (dirty vc). unfold cellAt. change (cells s1) with (cells s). rewrite Z.mod_small by lia. done.
    + intros j Hj. unfold cellAt. change (cells s1) with (cells s). apply Hcell; [apply Z.mod_pos_bound; lia|]. apply mod_before; lia.
Qed.

(** A new line: the cursor is at the start of the next line of the ring, and what
    was before it is kept, up to two lines less than a turn of the ring. *)
Definition broken s s' : Prop :=
  position s' = (cursorY s + 1) mod SCROLLBACK_LINES * charWidth s /\
  forall j, 1 <= j <= cells s - 2 * charWidth s -> cellAt s' (position s - j) = cellAt s (position s - j).
(** What one character that is no escape does to the screen. *)
Definition printed (c : Z) s s' : Prop :=
  screen_ok s' /\ (visible s -> visible s') /\ same_setup s s' /\ cursorY s' <= cursorY s + 1 /\
  (plain c -> position s' = (position s + 1) mod cells s /\
    (exists d, cellAt s' (position s) = Some (mkVc c (curFGCol s) (curBGCol s) d)) /\
    forall j, 1 <= j < cells s - charWidth s -> cellAt s' (position s - j) = cellAt s (position s - j)) /\
  (c = 10 -> broken s s').
Lemma newline_broken s s' : screen_ok s -> same_setup s s' -> cursorX s' = 0 -> cursorY s' = (cursorY s + 1) mod SCROLLBACK_LINES ->
  (forall k, 0 <= k < cells s -> ~ cursorY s' * charWidth s <= k < (cursorY s' + 1) * charWidth s -> buf s' !! Z.to_nat k = buf s !! Z.to_nat k) -> broken s s'.
Proof.
  intros Hok Hs Hx Hy Hc. destruct Hs as [Hw _]. split; [unfold position; rewrite Hx, Hy, Hw; lia|]. intros j Hj. unfold cellAt.
  replace (cells s') with (cells s) by (unfold cells; by rewrite Hw). pose proof Hok as [W _ HX HY _]. unfold cells, SCROLLBACK_LINES in *.
  apply Hc; [apply Z.mod_pos_bound; lia|]. rewrite Hy.
  pose proof (not_in_row (charWidth s) (cursorY s) (j + (charWidth s - 1 - cursorX s)) W HY ltac:(lia)) as Hn. cbv zeta in Hn.
  unfold position. by replace (cursorY s * charWidth s + cursorX s - j) with (cursorY s * charWidth s + (charWidth s - 1) - (j + (charWidth s - 1 - cursorX s))) by lia.
Qed.
(** What a text of plain characters does: it is found from the cursor on, in the
    current colours, and what was before the cursor is kept, up to a line less
    than a turn of the ring. *)
Definition shown (l : list Z) s s' : Prop :=
  position s' = (position s + Z.of_nat (length l)) mod cells s /\
  (forall k c, l !! k = Some c -> Z.of_nat (length l) <= cells s - charWidth s ->
    exists d, cellAt s' (position s + Z.of_nat k) = Some (mkVc c (curFGCol s) (curBGCol s) d)) /\
  (forall j, 1 <= j -> j + Z.of_nat (length l) <= cells s - charWidth s -> cellAt s' (position s - j) = cellAt s (position s - j)).

Lemma cells_pos s : screen_ok s -> 0 < charWidth s /\ cells s = 256 * charWidth s.
Proof. intros [? _ _ _ _]. unfold cells, SCROLLBACK_LINES. lia. Qed.
Lemma same_setup_cells s s' : same_setup s s' -> cells s' = cells s.
Proof. intros [E _]. unfold cells. by rewrite E. Qed.
Lemma cellAt_shift s a b n : a = (b + n) mod cells s -> 0 < cells s -> forall k, cellAt s (a + k) = cellAt s (b + n + k).
Proof. intros -> Hn k. unfold cellAt. by rewrite Z.add_mod_idemp_l by lia. Qed.
Lemma shown_nil s : screen_ok s -> shown [] s s.
Proof. intros Hok. split_and!; [rewrite Z.add_0_r; by rewrite Z.mod_small by (by apply position_range)|done|done]. Qed.
Lemma row_step s s' : screen_ok s -> screen_ok s' -> same_setup s s' -> position s' = (position s + 1) mod cells s -> cursorY s' <= cursorY s + 1.
Proof.
  intros Hok Hok' [Hw _] Hp. pose proof (Z.mod_le (position s + 1) (cells s)) as Hle. pose proof (position_range s Hok). destruct (cells_pos s Hok).
  destruct Hok as [_ _ Hx Hy _]. destruct Hok' as [_ _ Hx' Hy' _]. rewrite <- Hp in Hle by lia. unfold position in *. rewrite Hw in *. nia.
Qed.
Lemma shown_cons c l s s1 s' : screen_ok s -> plain c -> printed c s s1 -> same_setup s1 s' -> shown l s1 s' -> shown (c :: l) s s'.
Proof.
  intros Hok Hc (Hok1 & _ & Hs & _ & Hp & _) Hs' (H1 & H2 & H3). destruct (Hp Hc) as (P1 & [d P2] & P3).
  pose proof (position_range s Hok) as Hr. destruct (cells_pos s Hok) as [Hw Hcs].
  pose proof (same_setup_cells _ _ Hs) as En. pose proof (same_setup_cells _ _ Hs') as En'. destruct Hs as (E1 & _ & E3 & E4 & _).
  rewrite En, E1, E3, E4 in *.
  assert (S1 : forall k, cellAt s1 (position s1 + k) = cellAt s1 (position s + 1 + k)) by (apply cellAt_shift; [by rewrite En|lia]).
  assert (S2 : forall k, cellAt s' (position s1 + k) = cellAt s' (position s + 1 + k)) by (apply cellAt_shift; [by rewrite En'|lia]).
  assert (Back : forall j, 1 <= j -> j + Z.of_nat (length l) <= cells s - charWidth s -> cellAt s' (position s + 1 - j) = cellAt s1 (position s + 1 - j)).
  { intros j Hj Hl. rewrite <- Z.add_opp_r, <- S1, <- S2. apply H3; lia. }
  unfold shown. rewrite length_cons, Nat2Z.inj_succ. split_and!.
  - rewrite H1, P1, Z.add_mod_idemp_l by lia. f_equal. lia.
  - intros [|k] c' Hk Hl.
    + injection Hk as <-. exists d. rewrite <- P2. replace (position s + Z.of_nat 0) with (position s + 1 - 1) by lia.
      rewrite Back by lia. f_equal. lia.
    + destruct (H2 k c' Hk) as [d' Hd]; [lia|]. exists d'. rewrite <- Hd, S2. f_equal. lia.
  - intros j Hj Hl. replace (position s - j) with (position s + 1 - (j + 1)) by lia. rewrite Back by lia.
    replace (position s + 1 - (j + 1)) with (position s - j) by lia. apply P3. lia.
Qed.

Lemma markDirty_spec s : screen_ok s ->
  wp (setCell (cursorY s * charWidth s + cursorX s) VC_DIRTY) s (fun _ s' => exists b, s' = s_buf b s /\ screen_ok s' /\
    forall k, k mod cells s <> position s -> cellAt s' k = cellAt s k).
Proof.
  intros Hok. pose proof (position_range s Hok) as Hp. destruct (screen_cell s _ Hok Hp) as [vc Hvc].
  eapply wp_setCell; [unfold position in Hp; lia|exact Hvc|]. eexists. split_and!; [done| |].
  - destruct Hok. split; scrsimpl; try done. by rewrite length_insert.
  - intros k Hk. unfold cellAt. change (cells (s_buf _ s)) with (cells s). scrsimpl. apply list_lookup_insert_ne.
    pose proof (Z.mod_pos_bound k (cells s)). unfold position in *. lia.
Qed.
(** *** Erasing

    The echo of a backspace: back, a blank, back again. *)
Lemma cell_content_kept s b k : buf s !! Z.to_nat (k mod cells s) = b !! Z.to_nat (k mod cells s) -> cellAt (s_buf b s) k = cellAt s k.
Proof. unfold cellAt. intros E. change (cells (s_buf b s)) with (cells s). by rewrite E. Qed.

Lemma cursorBack_spec s : screen_ok s -> 0 < position s ->
  wp cursorBack s (fun _ s' => screen_ok s' /\ same_setup s s' /\ position s' = position s - 1 /\
    exists vc, cellAt s (position s - 1) = Some vc /\ cellAt s' (position s - 1) = Some (VC_DIRTY vc) /\
    forall k, k mod cells s <> position s - 1 -> cellAt s' k = cellAt s k).
Proof.
  intros Hok Hpos. pose proof (position_range s Hok) as Hr. destruct (cells_pos s Hok) as [Hw Hcs]. unfold cursorBack.
  apply wp_bind, wp_modify, wp_bind, wp_get.
  set (s1 := if negb (cursorX s =? 0) then _ else _).
  assert (H1 : screen_ok s1 /\ same_setup s s1 /\ position s1 = position s - 1 /\ buf s1 = buf s).
  { pose proof Hok as [? ? Hx Hy Hb]. unfold position in Hpos. subst s1. destruct (Z.eqb_spec (cursorX s) 0) as [E|E]; cbn [negb].
    - assert (1 <= cursorY s) by nia. rewrite Z.rem_small by (unfold SCROLLBACK_LINES in *; lia).
      split_and!; try done; [|unfold position; scrsimpl; rewrite E; lia]. split; scrsimpl; try done; unfold SCROLLBACK_LINES in *; lia.
    - split_and!; try done; [|unfold position; scrsimpl; lia]. split; scrsimpl; try done; lia. }
  clearbody s1. destruct H1 as (Hok1 & Hs1 & Hp1 & Hb1). pose proof (same_setup_cells _ _ Hs1) as En.
  pose proof (position_range s1 Hok1) as Hr1. destruct (screen_cell s1 _ Hok1 Hr1) as [vc Hvc]. rewrite Z.add_comm.
  eapply wp_setCell; [unfold position in Hr1; lia|exact Hvc|]. fold (position s1). split_and!; [|done|exact Hp1|].
  { destruct Hok1. split; scrsimpl; try done. by rewrite length_insert. }
  exists vc. unfold cellAt. change (cells (s_buf _ s1)) with (cells s1). rewrite En. scrsimpl. rewrite <- Hp1, Z.mod_small by lia. split_and!.
  - by rewrite <- Hb1.
  - apply list_lookup_insert_eq. by eapply lookup_lt_Some.
  - intros k Hk. rewrite list_lookup_insert_ne; [by rewrite Hb1|]. pose proof (Z.mod_pos_bound k (cells s)). lia.
Qed.

Definition erased s s' : Prop :=
  screen_ok s' /\ same_setup s s' /\ position s' = position s - 1 /\
  (exists d, cellAt s' (position s - 1) = Some (mkVc 32 (curFGCol s) (curBGCol s) d)) /\
  forall j, 2 <= j < cells s - charWidth s -> cellAt s' (position s - j) = cellAt s (position s - j).

End screen.

(** ** Texts

    What the terminals rely on: a signal that nobody waits for raises the value
    of its semaphore, a wait takes one of a value that is positive, and both
    leave the other semaphores alone. *)
Class TtyPartsOk (P : Type) `{TtyParts P} := {
  sems_ok : P -> Prop;
  waiting : Z -> P -> bool;
  semSignal_law i p : sems_ok p -> 0 <= semValue i p < 2 ^ 31 - 1 ->
    wp (semSignal i) p (fun _ p' => sems_ok p' /\
      (if waiting i p then semValue i p' = semValue i p else semValue i p' = semValue i p + 1 /\ waiting i p' = false) /\
      forall j, j <> i -> semValue j p' = semValue j p /\ waiting j p' = waiting j p);
  semWait_law i p : sems_ok p -> 0 < semValue i p ->
    wp (semWait i) p (fun go p' => go = true /\ sems_ok p' /\ semValue i p' = semValue i p - 1 /\ waiting i p' = waiting i p /\
      forall j, j <> i -> semValue j p' = semValue j p /\ waiting j p' = waiting j p);
  releaseFile_law f p : sems_ok p -> wp (releaseFile f) p (fun _ p' => sems_ok p' /\ forall j, semValue j p' = semValue j p /\ waiting j p' = waiting j p);
  acquireFile_law f p : sems_ok p -> wp (acquireFile f) p (fun _ p' => sems_ok p' /\ forall j, semValue j p' = semValue j p /\ waiting j p' = waiting j p)
}.

(** ** The input ring and its line discipline

    The ready characters [Q] and the line [L] that is being typed, and what
    typing a character does to them. *)
Definition discipline (c : Z) (ql : list Z * list Z) : list Z * list Z :=
  let '(Q, L) := ql in
  if c =? 127 then (Q, take (length L - 1) L)
  else if c =? 10 then (Q ++ L ++ [c], [])
  else (Q, L ++ [c]).

Record line_rep (i : Input) (Q L : list Z) : Prop := {
  lr_mode : inputMode i = Z.lor INPUT_MODE_LINEBUF INPUT_MODE_ECHO;
  lr_len : length (inputBuf i) = 4096%nat;
  lr_ri : 0 <= inputReadIndex i < 4096;
  lr_li : inputLineIndex i = (inputReadIndex i + Z.of_nat (length Q)) mod 4096;
  lr_wi : inputWriteIndex i = (inputReadIndex i + 1 + Z.of_nat (length Q) + Z.of_nat (length L)) mod 4096;
  lr_size : Z.of_nat (length Q) + Z.of_nat (length L) <= 4095;
  lr_data k c : (Q ++ L) !! k = Some c -> inputBuf i !! Z.to_nat ((inputReadIndex i + 1 + Z.of_nat k) mod 4096) = Some c
}.

Lemma line_rep_init i : line_rep (ttyInit (i_write 0 i)) [] [].
Proof. by split. Qed.
Lemma line_rep_lock b i Q L : line_rep i Q L -> line_rep (i_lock b i) Q L.
Proof. intros []. by split. Qed.
Lemma mod_distinct a k n : 0 <= a -> 0 <= k < n -> n <= 4095 -> (a + 1 + k) mod 4096 <> (a + 1 + n) mod 4096.
Proof. dlia. Qed.

Definition pushed (c : Z) (i : Input) : Input := i_write (Z.rem (inputWriteIndex i + 1) INPUT_BUF_SIZE) (i_buf (<[Z.to_nat (inputWriteIndex i) := c]> (inputBuf i)) i).
Lemma line_rep_push c i Q L : line_rep i Q L -> Z.of_nat (length Q) + Z.of_nat (length L) < 4095 ->
  0 <= inputWriteIndex i < INPUT_BUF_SIZE /\ inputWriteIndex i <> inputReadIndex i /\ line_rep (pushed c i) Q (L ++ [c]).
Proof.
  intros [Hm Hl Hr Hli Hwi Hs Hd] Hlen. set (w := inputWriteIndex i) in *. assert (Hw : 0 <= w < 4096) by (rewrite Hwi; apply Z.mod_pos_bound; lia).
  assert (Hne : w <> inputReadIndex i) by (clear Hd; dlia).
  split; [unfold INPUT_BUF_SIZE; lia|]. split; [lia|]. unfold pushed. fold w. split; cbn [inputMode inputBuf inputReadIndex inputLineIndex inputWriteIndex i_write i_buf];
    rewrite ?length_insert, ?length_app, ?Nat2Z.inj_add; try done; [|cbn [length]; lia|].
  - unfold INPUT_BUF_SIZE. rewrite Z.rem_mod_nonneg by lia. rewrite Hwi, Z.add_mod_idemp_l by lia. f_equal. cbn [length]. lia.
  - intros k c' Hk. rewrite app_assoc in Hk. destruct (decide (k < length (Q ++ L))%nat) as [Hlt|Hge].
    + rewrite lookup_app_l in Hk by done. rewrite length_app in Hlt. rewrite list_lookup_insert_ne; [by apply Hd|].
      pose proof (mod_distinct (inputReadIndex i) (Z.of_nat k) (Z.of_nat (length Q) + Z.of_nat (length L))) as Hmd.
      rewrite Z.add_assoc, <- Hwi in Hmd. pose proof (Z.mod_pos_bound (inputReadIndex i + 1 + Z.of_nat k) 4096). lia.
    + rewrite lookup_app_r in Hk by lia. assert (k = length (Q ++ L)) as -> by (apply lookup_lt_Some in Hk; cbn in Hk; lia).
      rewrite Nat.sub_diag in Hk. injection Hk as <-. rewrite length_app, Nat2Z.inj_add, Z.add_assoc, <- Hwi. apply list_lookup_insert_eq. lia.
Qed.
(** A new line makes the line ready. *)
Lemma line_rep_ready i Q L : line_rep i Q L -> line_rep (i_line ((inputWriteIndex i - 1) mod 4096) i) (Q ++ L) [].
Proof.
  intros [Hm Hl Hr Hli Hwi Hs Hd]. split; cbn [inputMode inputBuf inputReadIndex inputLineIndex inputWriteIndex i_line];
    rewrite ?length_app, ?Nat2Z.inj_add, ?app_nil_r; try done; [|cbn [length]; rewrite Z.add_0_r|cbn [length]; lia].
  - rewrite Hwi, Zminus_mod_idemp_l. f_equal. lia.
  - rewrite Hwi. f_equal. lia.
Qed.
Lemma line_rep_erase i Q L : line_rep i Q L ->
  let wi2 := Z.land (inputWriteIndex i - 1) (INPUT_BUF_SIZE - 1) in
  (wi2 = inputLineIndex i <-> L = []) /\ (L <> [] -> line_rep (i_write wi2 i) Q (take (length L - 1) L)).
Proof.
  intros [Hm Hl Hr Hli Hwi Hs Hd]. cbv zeta. change (INPUT_BUF_SIZE - 1) with (Z.ones 12). rewrite Z.land_ones by lia. change (2 ^ 12) with 4096.
  assert (E : (inputWriteIndex i - 1) mod 4096 = (inputReadIndex i + Z.of_nat (length Q) + Z.of_nat (length L)) mod 4096).
  { rewrite Hwi, Zminus_mod_idemp_l. f_equal. lia. }
  rewrite E. split.
  - rewrite Hli. split; [|intros ->; f_equal; cbn [length]; lia]. intros Heq. apply length_zero_iff_nil. clear Hd. dlia.
  - intros HL. assert (length L <> 0)%nat by (by intros ?%length_zero_iff_nil). split; cbn [inputMode inputBuf inputReadIndex inputLineIndex inputWriteIndex i_write];
      rewrite ?length_take, ?Nat.min_l by lia; try done; [f_equal; lia|lia|].
    intros k c Hk. apply Hd. destruct (decide (k < length Q)%nat); [by rewrite lookup_app_l in * by lia|].
    rewrite lookup_app_r in * by lia. apply lookup_take_Some in Hk. tauto.
Qed.
Lemma line_rep_drop n i Q L : line_rep i Q L ->
  line_rep (i_lock false (i_read ((inputReadIndex i + Z.of_nat (length (take n Q))) mod 4096) (i_lock true i))) (drop n Q) L.
Proof.
  intros [Hm Hl Hr Hli Hwi Hs Hd].
  assert (Hn : Z.of_nat (length Q) = Z.of_nat (length (take n Q)) + Z.of_nat (length (drop n Q))) by (rewrite length_take, length_drop; lia).
  split; cbn [inputMode inputBuf inputReadIndex inputLineIndex inputWriteIndex i_lock i_read]; try done.
  - apply Z.mod_pos_bound; lia.
  - rewrite Hli, Z.add_mod_idemp_l by lia. f_equal. lia.
  - rewrite Hwi, <- !Z.add_assoc, Z.add_mod_idemp_l by lia. f_equal. lia.
  - lia.
  - intros k c Hk. rewrite <- (Hd (length (take n Q) + k)%nat c).
    + do 2 f_equal. rewrite <- Z.add_assoc, Z.add_mod_idemp_l by lia. f_equal. lia.
    + rewrite <- (take_drop n Q) at 2. rewrite <- app_assoc, lookup_app_r by lia. rewrite <- Hk. f_equal. lia.
Qed.

Section text.
Context {P : Type} `{TtyPartsOk P}.
Implicit Types s : tty_state (P := P).

Definition with_screen (t : Z) (x : Screen) s := set_screens (<[Z.to_nat t := x]> (screens s)) s.
Lemma with_screen_twice t x x' s : with_screen t x' (with_screen t x s) = with_screen t x' s.
Proof. unfold with_screen. cbn. by rewrite list_insert_insert_eq. Qed.
Lemma with_screen_same t x s : screens s !! Z.to_nat t = Some x -> with_screen t x s = s.
Proof. intros Hx. unfold with_screen. rewrite list_insert_id by done. by destruct s. Qed.
Lemma with_screen_lookup t x x' s : screens s !! Z.to_nat t = Some x -> screens (with_screen t x' s) !! Z.to_nat t = Some x'.
Proof. intros Hx. apply list_lookup_insert_eq. by eapply lookup_lt_Some. Qed.
Lemma wp_onScreen {A} t (m : M Screen A) s x (Q : A -> tty_state -> Prop) :
  screens s !! Z.to_nat t = Some x -> wp m x (fun a x' => Q a (with_screen t x' s)) -> wp (onScreen t m) s Q.
Proof. intros Hx Hm. unfold wp, onScreen in *. rewrite Hx. by destruct (m x) as [[a x']| |]. Qed.
Lemma wp_getScreen t s x (Q : Screen -> tty_state -> Prop) : screens s !! Z.to_nat t = Some x -> Q x s -> wp (getScreen t) s Q.
Proof. intros Hx HQ. apply wp_deref. eauto. Qed.
Lemma wp_onRest {A} (m : M P A) s (Q : A -> tty_state -> Prop) : wp m (rest s) (fun a p => Q a (set_rest p s)) -> wp (onRest m) s Q.
Proof. unfold wp, onRest. by destruct (m (rest s)) as [[a p]| |]. Qed.

Lemma putChar_spec t text i c s x : screens s !! Z.to_nat t = Some x -> screen_ok x -> c <> 27 ->
  wp (putChar t text i c) s (fun n s' => n = 0 /\ exists x', s' = with_screen t x' s /\ printed c x x').
Proof.
  intros Hx Hok Hc. unfold putChar. destruct (Z.eqb_spec c 13) as [->|H13]; [|destruct (Z.eqb_spec c 10) as [->|H10]].
  - apply wp_bind. eapply wp_onScreen; [exact Hx|]. apply wp_modify, wp_ret. split; [done|]. eexists; split; [done|].
    split_and!; [|done|done|cbn; lia|by intros (? & _)|done]. destruct Hok. by split; scrsimpl; try lia.
  - apply wp_bind. eapply wp_onScreen; [exact Hx|]. wp_use newline_spec; [by left|]. intros _ x' (Hok' & Hv & Hs & HX & Hy & Hc10). apply wp_ret.
    split; [done|]. eexists; split; [done|]. split_and!; [done|done|done| |by intros (_ & ? & _)|intros _; by apply newline_broken].
    rewrite Hy. pose proof (sc_y x Hok). apply Z.mod_le; lia.
  - destruct (Z.eqb_spec c 27); [done|]. apply wp_bind. eapply wp_onScreen; [exact Hx|]. apply wp_bind, wp_get.
    wp_use plain_spec; [done|]. intros _ x' (Hok' & Hv & Hs & Hp). apply wp_ret. split; [done|]. eexists; split; [done|].
    split_and!; [done|done|done|by eapply row_step; [..|apply Hp]| |done]. intros _. exact Hp.
Qed.

Lemma putsLoop_step fuel t text n i c s x (Q : Z -> tty_state -> Prop) :
  screens s !! Z.to_nat t = Some x -> screen_ok x -> i < n -> memory s !! (text + i) = Some c ->
  (forall b, screen_ok (s_buf b x) -> (forall k, k mod cells x <> position x -> cellAt (s_buf b x) k = cellAt x k) ->
    wp (putChar t text i c) (with_screen t (s_buf b x) s) (fun m s' => wp (putsLoop fuel t text n (u32 (u32 (i + m) + 1))) s' Q)) ->
  wp (putsLoop (S fuel) t text n i) s Q.
Proof.
  intros Hx Hok Hi Hc HQ. cbn [putsLoop]. rewrite (proj2 (Z.ltb_lt _ _)) by lia. cbn [negb].
  apply wp_bind. eapply wp_getScreen; [done|]. apply wp_bind. eapply wp_onScreen; [done|]. wp_use markDirty_spec; [done|].
  intros _ x1 (b & -> & Hok1 & Hcell). apply wp_bind, wp_get. change (memory (with_screen t (s_buf b x) s)) with (memory s).
  rewrite Hc. apply wp_bind, HQ; [done|exact Hcell].
Qed.

(** The loop over a text without escapes. *)
Lemma putsLoop_spec l : forall fuel t text i s x, screens s !! Z.to_nat t = Some x -> screen_ok x ->
  (forall k c, l !! k = Some c -> memory s !! (text + i + Z.of_nat k) = Some c) -> Forall (fun c => c <> 27) l ->
  0 <= i -> i + Z.of_nat (length l) < 2 ^ 32 -> (length l <= fuel)%nat ->
  wp (putsLoop fuel t text (i + Z.of_nat (length l)) i) s (fun r s' => r = 0 /\ exists x', s' = with_screen t x' s /\
    screen_ok x' /\ (visible x -> visible x') /\ same_setup x x' /\ cursorY x' <= cursorY x + Z.of_nat (length l) /\ (Forall plain l -> shown l x x') /\
    (l = [] -> x' = x) /\ (l = [10] -> broken x x')).
Proof.
  induction l as [|c l IH]; intros fuel t text i s x Hx Hok Hm Hesc Hi Hlen Hfuel.
  { rewrite Z.add_0_r. destruct fuel; cbn [putsLoop]; rewrite (proj2 (Z.ltb_ge i i)) by lia; apply wp_ret; (split; [done|]);
      exists x; (split_and!; [by rewrite with_screen_same|done|done|done|cbn; lia| |done|done]); intros _; by apply shown_nil. }
  destruct fuel as [|fuel]; [simpl in Hfuel; lia|]. cbn [length] in *. rewrite Nat2Z.inj_succ in *.
  apply Forall_cons in Hesc as [Hc Hesc]. pose proof (Hm 0%nat c eq_refl) as Hc0. rewrite Z.add_0_r in Hc0.
  eapply putsLoop_step; [done|done|lia|done|]. intros b Hok1 Hcell1.
  wp_use putChar_spec; [by eapply with_screen_lookup|done|done|]. intros n s2 [-> (x2 & -> & Hp)]. rewrite with_screen_twice.
  assert (Hp' : printed c x x2).
  { assert (Hcell : forall j, 1 <= j < cells x -> cellAt (s_buf b x) (position x - j) = cellAt x (position x - j)).
    { intros j Hj. apply Hcell1. by apply mod_before; [apply position_range|]. }
    destruct (cells_pos x Hok). destruct Hp as (Hok2 & Hv & Hs & Hy & Hp & Hb). split_and!; [done|done|done|done| |].
    - intros Hplain. destruct (Hp Hplain) as (P1 & P2 & P3). split_and!; [exact P1|exact P2|]. intros j Hj. etrans; [by apply P3|]. apply Hcell. lia.
    - intros H10. destruct (Hb H10) as [B1 B2]. split; [exact B1|]. intros j Hj. etrans; [by apply B2|]. apply Hcell. lia. }
  clear Hp Hok1 Hcell1 b. pose proof Hp' as (Hok2 & Hv & Hs & Hy & _ & Hb10). replace (u32 (u32 (i + 0) + 1)) with (i + 1).
  2:{ unfold u32. rewrite Z.add_0_r, (Z.mod_small i) by lia. by rewrite Z.mod_small by lia. }
  replace (i + Z.succ (Z.of_nat (length l))) with (i + 1 + Z.of_nat (length l)) by lia.
  wp_use (IH fuel t text (i + 1) (with_screen t x2 s) x2); [by eapply with_screen_lookup|done| |done|lia|lia|lia|].
  { intros k c' Hk. change (memory (with_screen t x2 s)) with (memory s). rewrite <- (Hm (S k) c' Hk). f_equal. lia. }
  intros r s' [-> (x' & -> & Hok' & Hv' & Hs' & Hy' & Hshown & Hnil & _)]. split; [done|]. exists x'. rewrite with_screen_twice. split_and!; [done|done|auto| |lia| |done|].
  - by eapply same_setup_trans.
  - intros [Hpl Hpls]%Forall_cons. eapply shown_cons; eauto.
  - intros [= -> ->]. rewrite (Hnil eq_refl). by apply Hb10.
Qed.

(** A semaphore is raised when its value is 0: somebody who waits is woken, or
    the value becomes 1. *)
Definition raised (i : Z) (p p' : P) : Prop :=
  sems_ok p' /\ 0 <= semValue i p' /\ (waiting i p = false -> semValue i p' = Z.max 1 (semValue i p) /\ waiting i p' = false) /\
  forall j, j <> i -> semValue j p' = semValue j p /\ waiting j p' = waiting j p.
Lemma raise_spec i s : sems_ok (rest s) -> 0 <= semValue i (rest s) ->
  wp (if semValue i (rest s) <=? 0 then onRest (semSignal i) else mret tt) s (fun _ s' => exists p, s' = set_rest p s /\ raised i (rest s) p).
Proof.
  intros Hok Hv. destruct (Z.leb_spec (semValue i (rest s)) 0) as [Hz|Hz].
  - apply wp_onRest. wp_use semSignal_law; [done|lia|]. intros _ p (Hp & Hi & Hj). exists p. split; [done|]. split_and!; [done|destruct (waiting i (rest s)); lia| |done].
    intros Hw. rewrite Hw in Hi. destruct Hi as [-> Hw']. split; [lia|done].
  - apply wp_ret. exists (rest s). split; [by destruct s|]. split_and!; [done|done| |done]. intros. split; [lia|done].
Qed.

(** *** The echo of a backspace *)
Definition backspaceText : list Z := [27; 91; 68; 32; 27; 91; 68].

Lemma parseBack mem text x (Q : Z -> Screen -> Prop) : mem !! (text + 1) = Some 91 -> mem !! (text + 2) = Some 68 ->
  wp cursorBack x (fun _ x' => Q 2 x') -> wp (parseEscape mem text) x Q.
Proof.
  intros H1 H2 HQ. unfold parseEscape. rewrite H1. cbn [negb Z.eqb Pos.eqb]. cbn [scanEscape]. rewrite H2.
  replace (68 =? 0) with false by done. replace (inRange 48 57 68) with false by done. replace (68 =? 59) with false by done.
  cbn [andb]. replace (inRange 0x40 0x7E 68) with true by done. cbv zeta. rewrite H2.
  change (default 0 (Some 68)) with 68. cbn [Z.eqb Pos.eqb]. apply wp_bind. eapply wp_mono; [exact HQ|]. intros. by apply wp_ret.
Qed.

(** One [ESC [ D] of a text. *)
Definition backed x x' : Prop :=
  screen_ok x' /\ same_setup x x' /\ position x' = position x - 1 /\
  (forall k, k mod cells x <> position x - 1 -> k mod cells x <> position x -> cellAt x' k = cellAt x k) /\
  exists vc, cellAt x (position x - 1) = Some vc /\ cellAt x' (position x - 1) = Some (VC_DIRTY vc).
Lemma putsLoop_back fuel t text n i s x (Q : Z -> tty_state -> Prop) :
  screens s !! Z.to_nat t = Some x -> screen_ok x -> 0 < position x -> 0 <= i -> i + 3 <= n < 2 ^ 32 -> text_at (memory s) (text + i) [27; 91; 68] ->
  (forall x', backed x x' -> wp (putsLoop fuel t text n (i + 3)) (with_screen t x' s) Q) -> wp (putsLoop (S fuel) t text n i) s Q.
Proof.
  intros Hx Hok Hpos Hi Hn Hm HQ. assert (M0 := Hm 0%nat _ eq_refl). assert (M1 := Hm 1%nat _ eq_refl). assert (M2 := Hm 2%nat _ eq_refl).
  rewrite Z.add_0_r in M0. eapply putsLoop_step; [done|done|lia|exact M0|]. intros b Hok1 Hcell1. unfold putChar. cbn [Z.eqb Pos.eqb].
  apply wp_bind, wp_gets. change (memory (with_screen t (s_buf b x) s)) with (memory s).
  eapply wp_onScreen; [by eapply with_screen_lookup|]. apply parseBack; [exact M1|exact M2|].
  wp_use cursorBack_spec; [done|exact Hpos|]. intros _ x' (Hok' & Hs & Hp & vc & Hvc & Hvc' & Hcell). rewrite with_screen_twice.
  change (position (s_buf b x)) with (position x) in *. change (cells (s_buf b x)) with (cells x) in *.
  replace (u32 (u32 (i + 2) + 1)) with (i + 3).
  2:{ unfold u32. rewrite (Z.mod_small (i + 2)) by lia. rewrite Z.mod_small; lia. }
  apply HQ. pose proof (position_range x Hok) as Hr. split_and!; [done|exact Hs|exact Hp| |].
  - intros k H1 H2. rewrite Hcell by done. by apply Hcell1.
  - exists vc. split; [|done]. rewrite <- Hvc. symmetry. apply Hcell1. rewrite Z.mod_small by lia. lia.
Qed.

Lemma backspaceStr_spec fuel t text s x : screens s !! Z.to_nat t = Some x -> screen_ok x -> 0 < position x ->
  text_at (memory s) text backspaceText -> (4 <= fuel)%nat ->
  wp (putsLoop fuel t text 7 0) s (fun r s' => r = 0 /\ exists x', s' = with_screen t x' s /\ erased x x').
Proof.
  intros Hx Hok Hpos Hm Hfuel. do 4 (destruct fuel as [|fuel]; [lia|]). pose proof (position_range x Hok) as Hr.
  eapply putsLoop_back; [done|done|done|lia|lia| |].
  { intros k c Hk. replace (text + 0 + Z.of_nat k) with (text + Z.of_nat k) by lia. apply (Hm k). by destruct k as [|[|[|]]]. }
  intros x1 (Hok1 & Hs1 & Hp1 & Hc1 & _). change (0 + 3) with 3.
  eapply putsLoop_step; [by eapply with_screen_lookup|done|lia|exact (Hm 3%nat _ eq_refl)|]. intros b Hok2 Hc2. rewrite with_screen_twice.
  wp_use putChar_spec; [by eapply with_screen_lookup|done|done|]. intros m s2 [-> (x2 & -> & Hok3 & _ & Hs3 & _ & Hpl & _)]. rewrite with_screen_twice.
  destruct (Hpl ltac:(done)) as (Hp3 & [d Hd] & Hc3). clear Hpl. change (u32 (u32 (3 + 0) + 1)) with 4.
  change (position (s_buf b x1)) with (position x1) in *. change (cells (s_buf b x1)) with (cells x1) in *. change (charWidth (s_buf b x1)) with (charWidth x1) in *.
  pose proof (same_setup_cells _ _ Hs1) as En1. pose proof (same_setup_cells _ _ Hs3) as En3. change (cells (s_buf b x1)) with (cells x1) in *.
  rewrite En1, Hp1 in *. replace (position x - 1 + 1) with (position x) in Hp3 by lia. rewrite Z.mod_small in Hp3 by lia.
  eapply putsLoop_back; [by eapply with_screen_lookup|done|rewrite Hp3; exact Hpos|lia|lia| |].
  { intros k c Hk. change (memory (with_screen t x2 s)) with (memory s). rewrite <- Z.add_assoc, <- (Nat2Z.inj_add 4). apply (Hm (4 + k)%nat). by destruct k as [|[|[|]]]. }
  intros x' (Hok' & Hs' & Hp' & Hc' & vc & Hvc & Hvc'). rewrite with_screen_twice. rewrite Hp3, En3 in *.
  assert (E : forall fuel s' (Q : Z -> tty_state -> Prop), Q 0 s' -> wp (putsLoop fuel t text 7 (4 + 3)) s' Q) by (intros [|?] s' Q HQ; exact HQ).
  apply E. split; [done|]. exists x'. split; [done|]. split_and!; [done| |done| |].
  - eapply same_setup_trans; [exact Hs1|]. eapply same_setup_trans; [exact Hs3|exact Hs'].
  - rewrite Hd in Hvc. injection Hvc as <-. rewrite Hvc'. destruct Hs1 as (_ & _ & C1 & C2 & _). exists 1. cbn. by rewrite C1, C2.
  - intros j Hj. pose proof (mod_before (position x) j (cells x) Hr) as M1. pose proof (mod_before (position x - 1) (j - 1) (cells x)) as M2.
    destruct (cells_pos x Hok) as [Hw Hcs]. replace (position x - 1 - (j - 1)) with (position x - j) in M2 by lia.
    rewrite Hc' by lia. replace (position x - j) with (position x - 1 - (j - 1)) by lia. destruct Hs1 as (W1 & _). rewrite W1 in Hc3. rewrite Hc3 by lia.
    replace (position x - 1 - (j - 1)) with (position x - j) by lia. rewrite Hc2 by lia. apply Hc1; lia.
Qed.

(** *** [ttyPuts]: the loop under the lock of the screen *)
Lemma ttyPuts_wrap fuel t text n s x (R : Screen -> Prop) :
  screens s !! Z.to_nat t = Some x -> slock x = false -> ttyEarly s = false -> sems_ok (rest s) -> 0 <= semValue (updateSem t) (rest s) ->
  wp (putsLoop fuel t text n 0) (with_screen t (s_lock true x) s) (fun r s' => r = 0 /\ exists x', s' = with_screen t x' (with_screen t (s_lock true x) s) /\ R x') ->
  wp (ttyPuts fuel t text n) s (fun r s' => r = 0 /\ exists x' p, s' = set_rest p (with_screen t (s_lock false x') s) /\ R x' /\ raised (updateSem t) (rest s) p).
Proof.
  intros Hx Hlock Hearly Hsems Hv Hloop. unfold ttyPuts, acquireScreen, releaseScreen.
  apply wp_bind, wp_bind. eapply wp_getScreen; [done|]. rewrite Hlock. eapply wp_onScreen; [done|]. apply wp_modify.
  apply wp_bind. eapply wp_mono; [exact Hloop|]. cbv beta. intros r s1 [-> (x1 & -> & HR)]. rewrite with_screen_twice. apply wp_bind, wp_get.
  change (ttyEarly (with_screen t x1 s)) with (ttyEarly s). rewrite Hearly. apply wp_bind, wp_bind.
  eapply wp_onScreen; [by eapply with_screen_lookup|]. apply wp_modify. rewrite with_screen_twice.
  change (rest (with_screen t x1 s)) with (rest (with_screen t (s_lock false x1) s)).
  wp_use raise_spec; [done|done|]. intros _ s' (p & -> & Hp). apply wp_ret. split; [done|]. exists x1, p. by split_and!.
Qed.
Lemma screen_ok_lock b x : screen_ok x -> screen_ok (s_lock b x).
Proof. intros []. by split. Qed.
Lemma same_setup_lock b x x' : slock x = b -> same_setup (s_lock true x) x' -> same_setup x (s_lock b x').
Proof. intros Hb (?&?&?&?&?&?). by split_and!. Qed.

(** What a text does to the terminals: the screen shows it, the lock is free
    again and the thread that draws is told. *)
Definition written (l : list Z) (t : Z) (x : Screen) s s' : Prop := exists x' p,
  s' = set_rest p (with_screen t x' s) /\ screen_ok x' /\ (visible x -> visible x') /\ same_setup x x' /\
  cursorY x' <= cursorY x + Z.of_nat (length l) /\ (Forall plain l -> shown l x x') /\ (l = [10] -> broken x x') /\ raised (updateSem t) (rest s) p.
Lemma ttyPuts_spec l fuel t text s x : screens s !! Z.to_nat t = Some x -> screen_ok x -> slock x = false -> ttyEarly s = false ->
  text_at (memory s) text l -> Forall (fun c => c <> 27) l -> Z.of_nat (length l) < 2 ^ 32 -> (length l <= fuel)%nat ->
  sems_ok (rest s) -> 0 <= semValue (updateSem t) (rest s) ->
  wp (ttyPuts fuel t text (Z.of_nat (length l))) s (fun r s' => r = 0 /\ written l t x s s').
Proof.
  intros Hx Hok Hlock Hearly Hm Hesc Hlen Hfuel Hsems Hv. eapply wp_mono.
  - eapply ttyPuts_wrap; [done..|]. change (Z.of_nat (length l)) with (0 + Z.of_nat (length l)).
    wp_use putsLoop_spec; [by eapply with_screen_lookup|by apply screen_ok_lock|intros k c Hk; rewrite Z.add_0_r; by apply Hm|done|lia|lia|done|].
    intros r s1 [-> (x1 & -> & HR)]. split; [done|]. exists x1. split; [done|exact HR].
  - cbv beta. intros r s' [-> (x1 & p & -> & (Hok1 & Hv1 & Hs1 & Hy1 & Hshown & _ & Hb) & Hp)]. split; [done|]. exists (s_lock false x1), p.
    split_and!; [done|by apply screen_ok_lock|exact Hv1|by apply same_setup_lock|exact Hy1|exact Hshown|exact Hb|exact Hp].
Qed.
Lemma ttyPuts_erase fuel t text s x : screens s !! Z.to_nat t = Some x -> screen_ok x -> 0 < position x -> slock x = false -> ttyEarly s = false ->
  text_at (memory s) text backspaceText -> (4 <= fuel)%nat -> sems_ok (rest s) -> 0 <= semValue (updateSem t) (rest s) ->
  wp (ttyPuts fuel t text 7) s (fun r s' => r = 0 /\ exists x' p, s' = set_rest p (with_screen t x' s) /\ erased x x' /\ raised (updateSem t) (rest s) p).
Proof.
  intros Hx Hok Hpos Hlock Hearly Hm Hfuel Hsems Hv. eapply wp_mono.
  - eapply ttyPuts_wrap; [done..|]. wp_use backspaceStr_spec; [by eapply with_screen_lookup|by apply screen_ok_lock|exact Hpos|exact Hm|done|].
    intros r s1 [-> (x1 & -> & HR)]. split; [done|]. exists x1. split; [done|exact HR].
  - cbv beta. intros r s' [-> (x1 & p & -> & (Hok1 & Hs1 & Hrest) & Hp)]. split; [done|]. exists (s_lock false x1), p.
    split_and!; [done| |done]. split_and!; [by apply screen_ok_lock|by apply same_setup_lock|apply Hrest..].
Qed.

(** *** Reading *)
Definition with_input (t : Z) (i : Input) s := set_inputs (<[Z.to_nat t := i]> (inputs s)) s.
Lemma with_input_lookup t i i' s : inputs s !! Z.to_nat t = Some i -> inputs (with_input t i' s) !! Z.to_nat t = Some i'.
Proof. intros Hi. apply list_lookup_insert_eq. by eapply lookup_lt_Some. Qed.
Lemma with_input_twice t i i' s : with_input t i' (with_input t i s) = with_input t i' s.
Proof. unfold with_input. cbn. by rewrite list_insert_insert_eq. Qed.
Lemma wp_getInput t s i (Q : Input -> tty_state -> Prop) : inputs s !! Z.to_nat t = Some i -> Q i s -> wp (getInput t) s Q.
Proof. intros Hi HQ. apply wp_deref. eauto. Qed.
Lemma wp_updInput t f s i (Q : unit -> tty_state -> Prop) : inputs s !! Z.to_nat t = Some i -> Q tt (with_input t (f i) s) -> wp (updInput t f) s Q.
Proof. intros Hi HQ. apply wp_bind. by eapply wp_getInput. Qed.
Lemma wp_acquireInput t s i (Q : unit -> tty_state -> Prop) :
  inputs s !! Z.to_nat t = Some i -> inputLock i = false -> Q tt (with_input t (i_lock true i) s) -> wp (acquireInput t) s Q.
Proof. intros Hi Hl HQ. apply wp_bind. eapply wp_getInput; [done|]. rewrite Hl. by eapply wp_updInput. Qed.

Lemma set_memory_same s : set_memory (memory s) s = s.
Proof. by destruct s. Qed.

Lemma ttyReadLoop_spec Q : forall fuel t ri end_ cbuf n ret s i, inputs s !! Z.to_nat t = Some i ->
  (forall k c, Q !! k = Some c -> inputBuf i !! Z.to_nat ((ri + 1 + Z.of_nat k) mod 4096) = Some c) ->
  0 <= ri < 4096 -> end_ = (ri + Z.of_nat (length Q)) mod 4096 -> Q <> [] -> (length Q <= 4095)%nat ->
  (n < fuel)%nat -> (forall k, (k < n)%nat -> is_Some (memory s !! (cbuf + Z.of_nat k))) ->
  sems_ok (rest s) -> 0 <= semValue (inputAvail t) (rest s) ->
  let l := take n Q in
  wp (readLoop fuel t ri end_ cbuf (Z.of_nat n) ret) s (fun r s' => exists p,
    r = Some ((ri + Z.of_nat (length l)) mod 4096, ret + Z.of_nat (length l)) /\ s' = set_rest p (set_memory (store cbuf l (memory s)) s) /\
    (if decide (n < length Q)%nat then raised (inputAvail t) (rest s) p else p = rest s)).
Proof.
  induction Q as [|c Q IH]; intros fuel t ri end_ cbuf n ret s i Hi Hd Hri Hend Hne Hlen Hfuel Hm Hsems Hv; [done|].
  destruct fuel as [|fuel]; [lia|]. cbn [readLoop]. destruct n as [|n].
  { cbn [Z.of_nat Z.eqb take length store]. unfold ttySignalInputSem. apply wp_bind, wp_bind, wp_gets. wp_use raise_spec; [done|done|].
    intros _ s' (p & -> & Hp). apply wp_ret. exists p. rewrite !Z.add_0_r, Z.mod_small by lia. rewrite set_memory_same. split_and!; [done|done|].
    rewrite decide_True by lia. done. }
  rewrite (proj2 (Z.eqb_neq _ _)) by lia. unfold INPUT_BUF_SIZE. rewrite Z.rem_mod_nonneg by lia.
  set (r1 := (ri + 1) mod 4096). assert (Hr1 : 0 <= r1 < 4096) by (apply Z.mod_pos_bound; lia).
  apply wp_bind. eapply wp_getInput; [done|]. apply wp_bind, wp_deref. exists c. split.
  { rewrite (proj2 (Z.leb_le _ _)) by lia. pose proof (Hd 0%nat c eq_refl) as H1. by rewrite Z.add_0_r in H1. }
  apply wp_bind, wp_gets. destruct (Hm 0%nat) as [v Hv0]; [lia|]. rewrite Z.add_0_r in Hv0. rewrite Hv0.
  apply wp_bind, wp_modify. cbn [length] in *. rewrite Nat2Z.inj_succ in Hend.
  assert (E : r1 = end_ <-> Q = []).
  { rewrite Hend. unfold r1. split; [intros Heq; apply length_zero_iff_nil; clear -Heq Hlen Hri; dlia|intros ->; f_equal; cbn [length]; lia]. }
  cbn [take length store]. destruct (Z.eqb_spec r1 end_) as [Heq|Heq]; cbn [negb].
  - assert (Q = []) as -> by tauto. apply wp_ret. exists (rest s). rewrite take_nil. cbn [length store]. split_and!; [done|by destruct s|].
    by rewrite decide_False by lia.
  - replace (Z.of_nat (S n) - 1) with (Z.of_nat n) by lia.
    wp_use (IH fuel t r1 end_ (cbuf + 1) n (ret + 1) (set_memory (<[cbuf := c]> (memory s)) s) i); [done| |done| |tauto|lia|lia| |done|done|].
    + intros k c' Hk. rewrite <- (Hd (S k) c' Hk). do 2 f_equal. unfold r1. rewrite <- Z.add_assoc, Z.add_mod_idemp_l by lia. f_equal. lia.
    + rewrite Hend. unfold r1. rewrite Z.add_mod_idemp_l by lia. f_equal. lia.
    + intros k Hk. cbn. rewrite lookup_insert_is_Some. right. split; [lia|]. destruct (Hm (S k)) as [v' Hv']; [lia|]. exists v'. rewrite <- Hv'. f_equal. lia.
    + intros r s' (p & -> & -> & Hp). exists p. split_and!; [|done|].
      * rewrite Nat2Z.inj_succ. unfold r1. rewrite Z.add_mod_idemp_l by lia. f_equal; f_equal; [f_equal; lia|lia].
      * destruct (decide (n < length Q)%nat); [rewrite decide_True by lia|rewrite decide_False by lia]; done.
Qed.

(** C30: A text of plain characters that is written to a terminal is found on its
    screen from the cursor on, in the colours of the terminal, and the text
    before it is kept; the cursor is behind it on a line that is drawn, and the
    lock of the screen is free again. *)
Theorem ttyPuts_text l fuel t text s x : screens s !! Z.to_nat t = Some x -> screen_ok x -> slock x = false -> ttyEarly s = false ->
  text_at (memory s) text l -> Forall plain l -> Z.of_nat (length l) < 2 ^ 32 -> (length l <= fuel)%nat ->
  sems_ok (rest s) -> 0 <= semValue (updateSem t) (rest s) ->
  wp (ttyPuts fuel t text (Z.of_nat (length l))) s (fun r s' => r = 0 /\ exists x' p, s' = set_rest p (with_screen t x' s) /\
    screen_ok x' /\ slock x' = false /\ (visible x -> visible x') /\ shown l x x').
Proof.
  intros Hx Hok Hlk Hearly Htext Hpl Hlen Hfuel Hsems Hv. wp_use ttyPuts_spec; [exact Hx|done..| | | | | |]; try done.
  { eapply Forall_impl; [exact Hpl|]. by intros c (_ & _ & ?). }
  intros r s' [-> (x' & p & -> & Hok' & Hvis & Hs & _ & Hsh & _)]. split; [done|]. exists x', p. split_and!; try done; [|by apply Hsh..].
  destruct Hs as (_ & _ & _ & _ & _ & ->). done.
Qed.

(** ** A terminal at work

    Terminal [t] between two key strokes: its ready characters are [Q], the line
    that is typed is [L], and the semaphore of the readers says whether there is
    anything to read. *)
Record console (t backspaceStr : Z) s (Q L : list Z) : Prop := {
  co_input : exists i, inputs s !! Z.to_nat t = Some i /\ inputLock i = false /\ line_rep i Q L;
  co_screen : exists x, screens s !! Z.to_nat t = Some x /\ screen_ok x /\ slock x = false /\ Z.of_nat (length L) <= position x;
  co_early : ttyEarly s = false;
  co_sems : sems_ok (rest s);
  co_update : 0 <= semValue (updateSem t) (rest s);
  co_avail : semValue (inputAvail t) (rest s) = (if Q is [] then 0 else 1) /\ waiting (inputAvail t) (rest s) = false;
  co_string : text_at (memory s) backspaceStr backspaceText
}.
(** The row of the cursor. *)
Definition row (t : Z) s : Z := default 0 (cursorY <$> screens s !! Z.to_nat t).

(** What typing leaves alone: which memory there is, the terminal in use and the
    keys that are held. *)
Definition kept s s' : Prop :=
  (forall a, is_Some (memory s !! a) -> is_Some (memory s' !! a)) /\
  currentTty s' = currentTty s /\ shiftPressed s' = shiftPressed s /\ ctrlPressed s' = ctrlPressed s.
Lemma kept_refl s : kept s s.
Proof. by split_and!. Qed.
Lemma kept_trans s1 s2 s3 : kept s1 s2 -> kept s2 s3 -> kept s1 s3.
Proof. intros (? & ? & ? & ?) (? & ? & ? & ?). split_and!; [auto|congruence..]. Qed.

Lemma sems_distinct t : updateSem t <> inputAvail t.
Proof. unfold updateSem, inputAvail. lia. Qed.
(** What is ready and what is in the line after characters were typed. *)
Definition lineOf (l : list Z) (ql : list Z * list Z) : list Z * list Z := foldl (flip discipline) ql l.
Lemma discipline_length c Q L : Z.of_nat (length (discipline c (Q, L)).1) + Z.of_nat (length (discipline c (Q, L)).2) <= Z.of_nat (length Q) + Z.of_nat (length L) + 1.
Proof.
  unfold discipline. destruct (c =? 127); [cbn; rewrite length_take; lia|]. destruct (c =? 10); cbn; rewrite ?length_app; cbn; lia.
Qed.

Section typing.
Context (fuel : nat) (t backspaceStr echoed : Z).
Context (Hfuel : (4 <= fuel)%nat) (Hechoed : echoed < backspaceStr \/ backspaceStr + 7 <= echoed).
Notation console := (console t backspaceStr).

Lemma has_linebuf : has (Z.lor INPUT_MODE_LINEBUF INPUT_MODE_ECHO) INPUT_MODE_LINEBUF = true.
Proof. done. Qed.
Lemma has_echo : has (Z.lor INPUT_MODE_LINEBUF INPUT_MODE_ECHO) INPUT_MODE_ECHO = true.
Proof. done. Qed.
Lemma text_at_insert mem c l : text_at mem backspaceStr l -> length l = 7%nat -> text_at (<[echoed := c]> mem) backspaceStr l.
Proof. intros Ht Hl k c' Hk. pose proof (lookup_lt_Some _ _ _ Hk). rewrite lookup_insert_ne by lia. by apply Ht. Qed.

(** What a key that types [c] behind the line [L] shows: a backspace erases a
    character of the line, a line end breaks the line, and any other character
    appears at the cursor. *)
Definition echo1 (c : Z) (L : list Z) (x x' : Screen) : Prop :=
  if c =? 127 then match L with [] => x' = x | _ => erased x x' end else if c =? 10 then broken x x' else shown [c] x x'.
Fixpoint echoes (l : list Z) (ql : list Z * list Z) (x x' : Screen) : Prop :=
  match l with [] => x' = x | c :: l => exists x1, echo1 c ql.2 x x1 /\ echoes l (discipline c ql) x1 x' end.
Definition screenOf s s' (R : Screen -> Screen -> Prop) : Prop := exists x x', screens s !! Z.to_nat t = Some x /\ screens s' !! Z.to_nat t = Some x' /\ R x x'.
Lemma screenOf_cons s s1 s2 c l Q L : screenOf s s1 (echo1 c L) -> screenOf s1 s2 (echoes l (discipline c (Q, L))) -> screenOf s s2 (echoes (c :: l) (Q, L)).
Proof. intros (x & x1 & Hx & Hx1 & H1) (y & x2 & Hy & Hx2 & H2). assert (y = x1) as -> by congruence. exists x, x2. split_and!; [done|done|]. by exists x1. Qed.
(** The echo of a character that is no control. *)
Lemma echo_spec c s x i : screens s !! Z.to_nat t = Some x -> screen_ok x -> slock x = false -> ttyEarly s = false -> c <> 27 ->
  sems_ok (rest s) -> 0 <= semValue (updateSem t) (rest s) -> inputs s !! Z.to_nat t = Some i -> cursorY x < 255 ->
  wp (modify (fun s => set_memory (<[echoed := c]> (memory s)) s);; ttyPuts fuel t echoed 1;; mret tt) s (fun _ s' => exists x' p,
    s' = set_rest p (with_screen t x' (set_memory (<[echoed := c]> (memory s)) s)) /\ screen_ok x' /\ slock x' = false /\
    cursorY x' <= cursorY x + 1 /\ (plain c -> position x' = position x + 1) /\ (c <> 13 -> c <> 127 -> echo1 c [] x x') /\ raised (updateSem t) (rest s) p).
Proof.
  intros Hx Hok Hlock Hearly Hc Hsems Hv Hi Hy. apply wp_bind, wp_modify, wp_bind.
  change 1 with (Z.of_nat (length [c])). wp_use (ttyPuts_spec [c]); [exact Hx|done|done|done| |by constructor|cbn; lia|cbn; lia|done|done|].
  { intros [|k] c' Hk; [injection Hk as <-|done]. cbn. rewrite Z.add_0_r. by rewrite lookup_insert_eq. }
  intros r s' [_ (x' & p & -> & Hok' & _ & Hs & Hy' & Hsh & Hb & Hp)]. apply wp_ret. exists x', p. split_and!; [done|done| |done| | |exact Hp].
  - destruct Hs as (_ & _ & _ & _ & _ & ->). done.
  - intros Hpl. destruct (Hsh ltac:(by constructor)) as [-> _]. change (Z.of_nat (length [c])) with 1. apply Z.mod_small.
    pose proof (position_range x Hok). destruct (cells_pos x Hok) as [Hw ->]. destruct Hok as [_ _ Hx' _ _]. unfold position in *. nia.
  - intros H13 H127. unfold echo1. rewrite (proj2 (Z.eqb_neq _ _) H127). destruct (Z.eqb_spec c 10) as [->|H10]; [by apply Hb|]. apply Hsh. by repeat constructor.
Qed.
(** What typing does to the input of the terminal. *)
Definition typed (c : Z) (i : Input) : Input :=
  pushed c (if c =? 10 then i_line (inputWriteIndex i) i else i).
Lemma line_rep_typed c i Q L : line_rep i Q L -> Z.of_nat (length Q) + Z.of_nat (length L) < 4095 -> c <> 127 ->
  uncurry (line_rep (typed c i)) (discipline c (Q, L)).
Proof.
  intros Hrep Hlen Hc. destruct (line_rep_push c i Q L Hrep Hlen) as (Hw & _ & Hp). unfold discipline, typed.
  rewrite (proj2 (Z.eqb_neq _ _) Hc). destruct (Z.eqb_spec c 10); [|exact Hp].
  replace (pushed c (i_line (inputWriteIndex i) i)) with (i_line ((inputWriteIndex (pushed c i) - 1) mod 4096) (pushed c i)); [by apply line_rep_ready|].
  assert (E : (inputWriteIndex (pushed c i) - 1) mod 4096 = inputWriteIndex i).
  { cbn. unfold INPUT_BUF_SIZE in *. rewrite Z.rem_mod_nonneg, Zminus_mod_idemp_l by lia. rewrite Z.mod_small; lia. }
  by rewrite E.
Qed.

Lemma type_push s Q L c : console s Q L -> Z.of_nat (length Q) + Z.of_nat (length L) < 4095 -> c <> 127 -> c <> 13 -> c <> 27 -> row t s < 255 ->
  wp (typeChar fuel backspaceStr echoed t c) s (fun r s' => r = 0 /\ uncurry (console s') (discipline c (Q, L)) /\ row t s' <= row t s + 1 /\
    kept s s' /\ screenOf s s' (echo1 c L)).
Proof.
  intros [(i & Hi & Hlk & Hrep) (x & Hx & Hok & Hslk & Hpos) Hearly Hsems Hup (Hav & Hwait) Hstr] Hlen H127 H13 H27 Hrow.
  assert (Hrx : row t s = cursorY x) by (unfold row; by rewrite Hx). rewrite Hrx in *.
  destruct (line_rep_push c i Q L Hrep Hlen) as (Hw & Hne & _). pose proof (line_rep_typed c i Q L Hrep Hlen H127) as Htyped.
  unfold typeChar. apply wp_bind. eapply wp_acquireInput; [done|done|]. apply wp_bind. eapply wp_getInput; [by eapply with_input_lookup|].
  cbn [inputMode i_lock inputWriteIndex]. rewrite (lr_mode _ _ _ Hrep), has_linebuf, has_echo. rewrite (proj2 (Z.eqb_neq _ _) H127). cbn [andb negb].
  (* the line index and the semaphore of the readers *)
  set (i1 := i_lock true (if c =? 10 then i_line (inputWriteIndex i) i else i)).
  apply wp_bind. apply wp_mono with (Q := fun _ s1 => exists p, s1 = set_rest p (with_input t i1 s) /\ sems_ok p /\ 0 <= semValue (updateSem t) p /\
    semValue (inputAvail t) p = (if c =? 10 then 1 else if Q is [] then 0 else 1) /\ waiting (inputAvail t) p = false).
  { subst i1. rewrite andb_true_r. destruct (c =? 10).
    - apply wp_bind. eapply wp_updInput; [by eapply with_input_lookup|]. rewrite with_input_twice. unfold ttySignalInputSem. apply wp_bind, wp_gets.
      wp_use raise_spec; [done|cbn; destruct Q; lia|]. intros _ s1 (p & -> & Hp & Hge & Hv & Hoth). exists p. destruct (Hv Hwait) as [Hv1 Hw1].
      destruct (Hoth (updateSem t) (sems_distinct t)) as [Hu _]. split_and!; [done|done|cbn in Hu; lia| |done]. cbn in Hv1. rewrite Hv1, Hav. by destruct Q.
    - apply wp_ret. exists (rest s). by split_and!. }
  intros _ s1 (p1 & -> & Hsems1 & Hup1 & Hav1 & Hwait1).
  assert (Hi1 : inputs (set_rest p1 (with_input t i1 s)) !! Z.to_nat t = Some i1) by (cbn; by eapply with_input_lookup).
  apply wp_bind. eapply wp_getInput; [exact Hi1|]. apply wp_bind.
  rewrite (proj2 (Z.leb_le _ _)), (proj2 (Z.ltb_lt _ _)) by lia. cbn [andb]. eapply wp_updInput; [exact Hi1|].
  apply wp_bind. rewrite (proj2 (Z.eqb_neq _ _)) by (subst i1; destruct (c =? 10); exact Hne). apply wp_ret.
  apply wp_bind. eapply wp_updInput; [by eapply with_input_lookup|]. rewrite with_input_twice.
  apply wp_bind. eapply wp_updInput; [by eapply with_input_lookup|]. rewrite with_input_twice.
  match goal with |- wp _ ?s2 _ => assert (s2 = set_rest p1 (with_input t (typed c i) s)) as -> end.
  { unfold with_input. cbn. rewrite list_insert_insert_eq. unfold typed, i1, pushed. destruct (c =? 10), i; cbn in Hlk |- *; by rewrite Hlk. }
  apply wp_bind. wp_use echo_spec; [exact Hx|done|done|done|done|done|done|by eapply with_input_lookup|lia|].
  intros _ s' (x' & p & -> & Hok' & Hlk' & Hy' & Hpl & Hecho & Hsems' & Hge' & _ & Hoth'). apply wp_ret. split; [done|].
  destruct (Hoth' (inputAvail t) (not_eq_sym (sems_distinct t))) as [Ha' Hw']. cbn in Ha', Hw'. rewrite Hav1 in Ha'. rewrite Hwait1 in Hw'. split_and!.
  - destruct (discipline c (Q, L)) as [Q' L'] eqn:EQ. cbn [uncurry]. unfold discipline in EQ. rewrite (proj2 (Z.eqb_neq _ _) H127) in EQ. split.
    + exists (typed c i). split_and!; [by eapply with_input_lookup| |exact Htyped]. unfold typed. by destruct (c =? 10).
    + exists x'. split_and!; [by eapply (with_screen_lookup t x)|done|done|]. destruct (Z.eqb_spec c 10) as [E|E]; injection EQ as <- <-.
      * pose proof (position_range x' Hok'). cbn. lia.
      * rewrite Hpl by done. rewrite length_app. cbn. lia.
    + done.
    + done.
    + done.
    + split; [|done]. cbn. rewrite Ha'. destruct (Z.eqb_spec c 10); injection EQ as <- <-; [by destruct Q, L|done].
    + by apply text_at_insert.
  - unfold row. cbn. rewrite list_lookup_insert_eq by (by eapply lookup_lt_Some). cbn. lia.
  - split_and!; [|done..]. intros a Ha. cbn. rewrite lookup_insert_is_Some. destruct (decide (echoed = a)); auto.
  - exists x, x'. split; [done|]. split; [by eapply (with_screen_lookup t x)|]. specialize (Hecho H13 H127). unfold echo1 in *. by rewrite (proj2 (Z.eqb_neq _ _) H127) in *.
Qed.
Lemma erased_row x x' : screen_ok x -> erased x x' -> cursorY x' <= cursorY x.
Proof.
  intros Hok (Hok' & [Hw _] & Hp & _). destruct (cells_pos x Hok) as [? _]. destruct Hok as [_ _ Hx Hy _]. destruct Hok' as [_ _ Hx' Hy' _].
  unfold position in Hp. rewrite Hw in *. nia.
Qed.
Lemma type_backspace s Q L : console s Q L ->
  wp (typeChar fuel backspaceStr echoed t 127) s (fun r s' => r = 0 /\ uncurry (console s') (discipline 127 (Q, L)) /\ row t s' <= row t s + 1 /\
    kept s s' /\ screenOf s s' (echo1 127 L)).
Proof.
  intros [(i & Hi & Hlk & Hrep) (x & Hx & Hok & Hslk & Hpos) Hearly Hsems Hup (Hav & Hwait) Hstr].
  destruct (line_rep_erase i Q L Hrep) as [Hempty Herase]. cbn [uncurry discipline Z.eqb Pos.eqb].
  unfold typeChar. apply wp_bind. eapply wp_acquireInput; [done|done|]. apply wp_bind. eapply wp_getInput; [by eapply with_input_lookup|].
  cbn [inputMode i_lock inputWriteIndex inputLineIndex]. rewrite (lr_mode _ _ _ Hrep), has_linebuf, has_echo. cbn [Z.eqb Pos.eqb andb negb].
  set (wi2 := Z.land (inputWriteIndex i - 1) (INPUT_BUF_SIZE - 1)) in *. apply wp_bind. destruct (Z.eqb_spec wi2 (inputLineIndex i)) as [E|E]; cbn [negb].
  - assert (L = []) as -> by tauto. eapply wp_updInput; [by eapply with_input_lookup|]. rewrite with_input_twice. apply wp_ret. split; [done|].
    split_and!; [|unfold row; cbn; lia|by split_and!|by exists x, x]. split; try done.
    + exists (i_lock false (i_lock true i)). split_and!; [by eapply with_input_lookup|done|by do 2 apply line_rep_lock].
    + exists x. by split_and!.
  - assert (HL : L <> []) by tauto. assert (0 < length L)%nat by (destruct L; [done|cbn; lia]).
    apply wp_bind. eapply wp_updInput; [by eapply with_input_lookup|]. rewrite with_input_twice.
    apply wp_bind. eapply wp_updInput; [by eapply with_input_lookup|]. rewrite with_input_twice. apply wp_bind.
    wp_use ttyPuts_erase; [exact Hx|done|lia|done|done|exact Hstr|done|done|done|].
    intros r s' [_ (x' & p & -> & Her & Hsems' & Hge' & _ & Hoth')]. pose proof (erased_row x x' Hok Her) as Hrow. pose proof Her as (Hok' & Hs & Hp & _).
    destruct (Hoth' (inputAvail t) (not_eq_sym (sems_distinct t))) as [Ha' Hw']. apply wp_ret, wp_ret. split; [done|]. split_and!; [split; try done| |by split_and!|exists x, x'; split_and!; [done|by eapply (with_screen_lookup t x)|by destruct L]].
    + exists (i_lock false (i_write wi2 (i_lock true i))). split_and!; [by eapply with_input_lookup|done|]. apply line_rep_lock.
      destruct (Herase HL). by split.
    + exists x'. split_and!; [by eapply (with_screen_lookup t x)|done| |].
      * destruct Hs as (_ & _ & _ & _ & _ & ->). done.
      * rewrite Hp, length_take. lia.
    + cbn in Ha', Hw'. rewrite <- Hav, <- Hwait. done.
    + unfold row. cbn. rewrite Hx. rewrite list_lookup_insert_eq by (by eapply lookup_lt_Some). cbn. lia.
Qed.

(** Characters that are typed one after the other. *)
Definition typable (c : Z) : Prop := c <> 13 /\ c <> 27.
Lemma type_spec s Q L c : console s Q L -> Z.of_nat (length Q) + Z.of_nat (length L) < 4095 -> typable c -> row t s < 255 ->
  wp (typeChar fuel backspaceStr echoed t c) s (fun r s' => r = 0 /\ uncurry (console s') (discipline c (Q, L)) /\ row t s' <= row t s + 1 /\ kept s s' /\ screenOf s s' (echo1 c L)).
Proof. intros Hcon Hlen [H13 H27] Hrow. destruct (decide (c = 127)) as [->|]; [by apply type_backspace|by apply type_push]. Qed.
Fixpoint typeChars (l : list Z) : M tty_state unit :=
  match l with [] => mret tt | c :: l => typeChar fuel backspaceStr echoed t c;; typeChars l end.
Lemma typeChars_spec l : forall s Q L, console s Q L -> Z.of_nat (length Q) + Z.of_nat (length L) + Z.of_nat (length l) <= 4095 ->
  row t s + Z.of_nat (length l) <= 255 -> Forall typable l ->
  wp (typeChars l) s (fun _ s' => uncurry (console s') (lineOf l (Q, L)) /\ kept s s' /\ screenOf s s' (echoes l (Q, L))).
Proof.
  induction l as [|c l IH]; intros s Q L Hcon Hlen Hrow Hl; [apply wp_ret; split_and!; [done|apply kept_refl|destruct (co_screen _ _ _ _ _ Hcon) as (x & Hx & _); by exists x, x]|].
  apply Forall_cons in Hl as [[H13 H27] Hl]. cbn [typeChars length] in *. apply wp_bind.
  wp_use type_spec; [done|lia|by split|lia|].
  intros r s' (-> & Hcon' & Hrow' & Hmem & Hecho). pose proof (discipline_length c Q L) as Hd. unfold lineOf. cbn [foldl flip].
  destruct (discipline c (Q, L)) as [Q' L'] eqn:ED. cbn in Hd.
  wp_use (IH s' Q' L'); [done|lia|lia|done|]. intros _ s2 (Hcon2 & Hmem2 & Hecho2). split_and!; [done|by eapply kept_trans|].
  eapply screenOf_cons; [exact Hecho|by rewrite ED].
Qed.
(** *** Reading *)
Lemma ttyRead_spec file buffer n s Q L : console s Q L -> Q <> [] -> buffer + Z.of_nat n <= backspaceStr \/ backspaceStr + 7 <= buffer ->
  (forall k, (k < n)%nat -> is_Some (memory s !! (buffer + Z.of_nat k))) ->
  wp (ttyRead file t buffer (Z.of_nat n)) s (fun r s' =>
    r = Some (Z.of_nat (length (take n Q))) /\ memory s' = store buffer (take n Q) (memory s) /\ console s' (drop n Q) L /\ screens s' = screens s).
Proof.
  clear Hfuel Hechoed.
  intros [(i & Hi & Hlk & Hrep) (x & Hx & Hok & Hslk & Hpos) Hearly Hsems Hup (Hav & Hwait) Hstr] HQ Hapart Hmem.
  assert (Hav' : semValue (inputAvail t) (rest s) = 1) by (rewrite Hav; by destruct Q). clear Hav.
  unfold ttyRead. apply wp_bind, wp_onRest. wp_use releaseFile_law; [done|]. intros _ p1 (Hs1 & Hv1).
  apply wp_bind, wp_onRest. wp_use semWait_law; [exact Hs1|cbn; rewrite (proj1 (Hv1 _)); lia|].
  intros go p2 (-> & Hs2 & Hval2 & Hwait2 & Hoth2). cbn [rest set_rest] in *. rewrite (proj1 (Hv1 _)) in Hval2. rewrite (proj2 (Hv1 _)) in Hwait2.
  apply wp_fmap. unfold ttyReadResume. apply wp_bind. eapply wp_acquireInput; [exact Hi|done|].
  apply wp_bind. eapply wp_getInput; [by eapply with_input_lookup|]. cbn [inputMode i_lock]. rewrite (lr_mode _ _ _ Hrep), has_linebuf.
  cbn [inputLineIndex inputReadIndex i_lock]. rewrite Nat2Z.id. pose proof (lr_ri _ _ _ Hrep) as Hri. pose proof (lr_size _ _ _ Hrep) as Hsz.
  apply wp_bind. wp_use ttyReadLoop_spec; [by eapply with_input_lookup| |exact Hri|exact (lr_li _ _ _ Hrep)|exact HQ|lia|lia|exact Hmem|done|cbn; lia|].
  { intros k c Hk. apply (lr_data _ _ _ (line_rep_lock true _ _ _ Hrep)). by apply lookup_app_l_Some. }
  intros r s3 (p3 & -> & -> & Hp3). cbn [rest set_rest with_input set_inputs] in Hp3.
  apply wp_bind. eapply wp_updInput; [exact (with_input_lookup t i _ s Hi)|]. apply wp_bind. eapply wp_updInput; [eapply with_input_lookup; exact (with_input_lookup t i _ s Hi)|]. rewrite with_input_twice.
  apply wp_bind, wp_onRest.
  assert (Hsem3 : sems_ok p3 /\ 0 <= semValue (updateSem t) p3 /\ semValue (inputAvail t) p3 = (if drop n Q is [] then 0 else 1) /\ waiting (inputAvail t) p3 = false).
  { destruct (Hoth2 _ (sems_distinct t)) as [Hu2 _]. rewrite (proj1 (Hv1 _)) in Hu2. rewrite Hwait in Hwait2. destruct (decide (n < length Q)%nat) as [Hlt|Hge].
    - destruct Hp3 as (? & ? & Hsig & Hoth3). destruct (Hsig Hwait2) as [E Hw3]. destruct (Hoth3 _ (sems_distinct t)) as [Hu3 _]. split_and!; [done|lia| |done].
      rewrite E, Hval2. destruct (drop n Q) eqn:Ed; [|lia]. apply (f_equal length) in Ed. rewrite length_drop in Ed. cbn in Ed. lia.
    - subst p3. split_and!; [done|lia| |done]. rewrite drop_ge by lia. lia. }
  destruct Hsem3 as (Hs3 & Hu3 & Ha3 & Hw3). wp_use acquireFile_law; [exact Hs3|]. intros _ p4 (Hs4 & Hv4). apply wp_ret.
  split; [done|]. split; [done|]. split; [|done]. split; try done.
  - eexists. split_and!; [cbn; rewrite list_insert_insert_eq; exact (with_input_lookup t i _ s Hi)|done|]. by apply line_rep_drop.
  - exists x. by split_and!.
  - cbn. rewrite (proj1 (Hv4 _)). done.
  - cbn. rewrite (proj1 (Hv4 _)), (proj2 (Hv4 _)). done.
  - cbn. intros k c Hk. pose proof (lookup_lt_Some _ _ _ Hk) as Hklt. cbn in Hklt. destruct Hapart as [Hb|Ha].
    + rewrite store_after; [by apply Hstr|]. rewrite length_take. lia.
    + rewrite store_before by lia. by apply Hstr.
Qed.
Definition typeThenRead (l : list Z) (file buffer n : Z) : M tty_state (option Z) := typeChars l;; ttyRead file t buffer n.

(** What is typed is read: whatever characters are typed, with corrections, a
    reader gets the characters of the completed lines, as the line discipline
    makes them, as many as it asks for and in order, and the rest stays. *)
Theorem typed_lines_are_read l file buffer n s Q L : console s Q L ->
  Z.of_nat (length Q) + Z.of_nat (length L) + Z.of_nat (length l) <= 4095 -> row t s + Z.of_nat (length l) <= 255 -> Forall typable l ->
  (lineOf l (Q, L)).1 <> [] -> buffer + Z.of_nat n <= backspaceStr \/ backspaceStr + 7 <= buffer ->
  (forall k, (k < n)%nat -> is_Some (memory s !! (buffer + Z.of_nat k))) ->
  wp (typeThenRead l file buffer (Z.of_nat n)) s (fun r s' => let '(Q', L') := lineOf l (Q, L) in
    r = Some (Z.of_nat (Nat.min n (length Q'))) /\ text_at (memory s') buffer (take n Q') /\ console s' (drop n Q') L').
Proof.
  intros Hcon Hlen Hrow Hl HQ Hapart Hmem. apply wp_bind. wp_use typeChars_spec; [exact Hcon|done..|].
  intros _ s1 (Hcon1 & [Hm1 _] & _). destruct (lineOf l (Q, L)) as [Q' L']. wp_use ttyRead_spec; [exact Hcon1|done|done|auto|].
  intros r s' (-> & Hms & Hcon' & _). rewrite length_take, Hms. split_and!; [done|apply store_text|done].
Qed.
End typing.
End text.

(** ** A terminal with a small screen *)

(** Semaphores that nobody waits at. *)
#[export] Instance idleParts : TtyParts (Z -> Z) := {|
  semValue i p := p i;
  semSignal i p := Done (tt, fun j => if j =? i then p j + 1 else p j);
  semWait i p := Done (0 <? p i, fun j => if (j =? i) && (0 <? p i) then p j - 1 else p j);
  sendSignalToGroup _ _ := mret 0;
  releaseFile _ := mret tt;
  acquireFile _ := mret tt
|}.
#[export] Program Instance idlePartsOk : TtyPartsOk (Z -> Z) := {| sems_ok _ := True; waiting _ _ := false |}.
Next Obligation. intros i p _ _. cbn. rewrite Z.eqb_refl. split_and!; try done. intros j Hj. by rewrite (proj2 (Z.eqb_neq _ _) Hj). Qed.
Next Obligation.
  intros i p _ Hv. cbn in *. rewrite Z.eqb_refl, (proj2 (Z.ltb_lt _ _) Hv). split_and!; try done. intros j Hj. by rewrite (proj2 (Z.eqb_neq _ _) Hj).
Qed.
Next Obligation. by intros. Qed.
Next Obligation. by intros. Qed.

Definition smallScreen (x y : Z) : Screen := mkScreen 4 2 x y (replicate 1024 (mkVc 0 7 0 0)) 7 0 0 false false true false.
Definition smallInput : Input := ttyInit (mkInput false [] 0 0 0 0 1).
(** The string of a backspace at 100, the echoed character at 200 and a buffer of
    eight bytes at 300; a text at 400. *)
Definition smallMemory : gmap Z Z :=
  store 100 backspaceText (store 200 [0] (store 300 (replicate 8 0) (store 400 [104; 101; 108; 108; 111] ∅))).
Definition smallTty (x y : Z) : tty_state (P := Z -> Z) := mkTty [smallScreen x y] [smallInput] 0 false false false (mkFb 0 128 32 32 32) smallMemory ∅ (fun _ => 0).

Lemma smallScreen_ok : screen_ok (smallScreen 2 3).
Proof. by split. Qed.
Lemma smallConsole : console 0 100 (smallTty 2 3) [] [].
Proof.
  split; try done.
  - exists smallInput. split_and!; [done|done|]. exact (line_rep_init (mkInput false [] 0 0 0 0 1)).
  - exists (smallScreen 2 3). split_and!; [done|by split|done|done].
  - apply store_text.
Qed.

Lemma ttyPuts_text_witness : wp (ttyPuts 5 0 400 5) (smallTty 2 3) (fun r s' => r = 0 /\ exists x' p, s' = set_rest p (with_screen 0 x' (smallTty 2 3)) /\
  screen_ok x' /\ slock x' = false /\ (visible (smallScreen 2 3) -> visible x') /\ shown [104; 101; 108; 108; 111] (smallScreen 2 3) x').
Proof.
  apply (ttyPuts_text [104; 101; 108; 108; 111] 5 0 400 (smallTty 2 3) (smallScreen 2 3)); try done; [|repeat constructor; done].
  intros [|[|[|[|[|k]]]]] c Hk; try done; injection Hk as <-; by vm_compute.
Defined.
Lemma typed_lines_are_read_witness :
  wp (typeThenRead 4 0 100 200 [97; 98; 127; 99; 10; 100] 1 300 2) (smallTty 2 3) (fun r s' => let '(Q', L') := lineOf [97; 98; 127; 99; 10; 100] ([], []) in
    r = Some (Z.of_nat (Nat.min 2 (length Q'))) /\ text_at (memory s') 300 (take 2 Q') /\ console 0 100 s' (drop 2 Q') L').
Proof.
  apply (typed_lines_are_read 4 0 100 200 ltac:(lia) ltac:(lia) [97; 98; 127; 99; 10; 100] 1 300 2 (smallTty 2 3) [] [] smallConsole); try done.
  - repeat constructor; done.
  - by right.
  - intros [|[|k]] Hk; [eexists; vm_compute; reflexivity..|lia].
Defined.
(** The line that was corrected, and what is typed after it. *)
Example corrected_line : lineOf [97; 98; 127; 99; 10; 100] ([], []) = ([97; 99; 10], [100]).
Proof. done. Qed.

(** ** What goes wrong

    A line that wraps around the end of the ring cannot be corrected: behind the
    first cell the cursor goes to row -1. *)
Example backspace_at_origin_faults : typeChars 4 0 100 200 [97; 127] (smallTty 3 255) = Fault.
Proof. by vm_compute. Qed.
(** An escape character at the end of the memory that can be read: the error of
    the next byte is added to the index, and the text is printed again and again. *)
Example escape_at_page_end_loops :
  ttyPuts 300 0 500 20 (set_memory (store 500 (replicate 19 97 ++ [27]) ∅) (smallTty 0 0)) = NoFuel.
Proof. by vm_compute. Qed.
(** A colour that is reset without an argument stays. *)
Example reset_without_argument_does_nothing :
  match ttyPuts 30 0 500 9 (set_memory (store 500 [27; 91; 51; 49; 109; 97; 27; 91; 109] ∅) (smallTty 0 0)) with
  | Done (r, s') => r = 0 /\ (curFGCol <$> screens s' !! 0%nat) = Some 4
  | _ => False
  end.
Proof. by vm_compute. Qed.
