(* ===== verification/TtyTotal.v ===== *)
(** * Every text: termination and well-typed screens

    Texts with escape sequences, whatever they hold: writing them ends, and the
    colours of the screen stay indices of the palette.  Faults are allowed here
    (the cursor can be sent before the first cell), so the rules are those of
    partial correctness with termination. *)

From S2P Require Import Prelude Word Errno Bytes Keys Tty TtySpec.

(** Run from [s], [m] ends; when it ends without a fault, [Q] holds. *)
Definition wpf {S A} (m : M S A) (s : S) (Q : A -> S -> Prop) : Prop :=
  match m s with Done (a, s') => Q a s' | Fault => True | NoFuel => False end.
Section wpf_rules.
Context {S : Type}.
Lemma wpf_bind {A B} (m : M S A) (k : A -> M S B) s Q : wpf (m ≫= k) s Q <-> wpf m s (fun a s' => wpf (k a) s' Q).
Proof. unfold wpf, mbind, M_bind. by destruct (m s) as [[a s']| |]. Qed.
Lemma wpf_ret {A} (a : A) (s : S) (Q : A -> S -> Prop) : wpf (mret a) s Q <-> Q a s.
Proof. done. Qed.
Lemma wpf_modify (f : S -> S) s (Q : unit -> S -> Prop) : wpf (modify f) s Q <-> Q tt (f s).
Proof. done. Qed.
Lemma wpf_get s (Q : S -> S -> Prop) : wpf get s Q <-> Q s s.
Proof. done. Qed.
Lemma wpf_gets {A} (f : S -> A) s (Q : A -> S -> Prop) : wpf (gets f) s Q <-> Q (f s) s.
Proof. done. Qed.
Lemma wpf_deref {A} (o : S -> option A) s (Q : A -> S -> Prop) : wpf (deref o) s Q <-> forall a, o s = Some a -> Q a s.
Proof. unfold wpf, deref. destruct (o s); naive_solver. Qed.
Lemma wpf_mono {A} (m : M S A) s (Q Q' : A -> S -> Prop) : wpf m s Q -> (forall a s', Q a s' -> Q' a s') -> wpf m s Q'.
Proof. unfold wpf. destruct (m s) as [[a s']| |]; eauto. Qed.
End wpf_rules.

(** ** Screens whose colours are indices of the palette *)
Definition color (c : Z) : Prop := 0 <= c < 16.
Definition cell_typed (vc : VttyChar) : Prop := color (fgCol vc) /\ color (bgCol vc).
Record screen_typed (x : Screen) : Prop := { ty_fg : color (curFGCol x); ty_bg : color (curBGCol x); ty_cells : Forall cell_typed (buf x) }.

Lemma setCell_typed i f x (Q : unit -> Screen -> Prop) : screen_typed x -> (forall vc, cell_typed vc -> cell_typed (f vc)) ->
  (forall x', screen_typed x' -> curFGCol x' = curFGCol x -> curBGCol x' = curBGCol x -> Q tt x') -> wpf (setCell i f) x Q.
Proof.
  intros [Hf Hb Hc] Hvc HQ. unfold wpf, setCell. destruct (0 <=? i); [|done]. destruct (buf x !! Z.to_nat i) as [vc|] eqn:E; [|done].
  apply HQ; [|done..]. split; [done..|]. apply Forall_insert; [done|]. apply Hvc. by eapply Forall_lookup_1.
Qed.
Lemma cursor_typed f x : screen_typed x -> screen_typed (s_cursor (f x).1 (f x).2 x).
Proof. intros []. by split. Qed.
Lemma clearCells_typed n : forall i x, screen_typed x -> wpf (clearCells n i) x (fun _ x' => screen_typed x').
Proof.
  induction n as [|n IH]; intros i x Hx; [done|]. cbn [clearCells]. apply wpf_bind, setCell_typed; [done| |].
  - intros vc [Hf _]. by split.
  - intros x' Hx' _ _. by apply IH.
Qed.
Lemma newline_typed x : screen_typed x -> wpf newline x (fun _ x' => screen_typed x').
Proof.
  intros [Hf Hb Hc]. unfold newline. apply wpf_bind, wpf_modify, wpf_bind, wpf_get, wpf_bind.
  eapply wpf_mono with (Q := fun _ x' => screen_typed x').
  { destruct (_ <=? _); [apply wpf_bind, wpf_modify, wpf_modify|apply wpf_ret]; by split. }
  intros _ x1 H1. apply wpf_bind, wpf_get, wpf_bind. eapply wpf_mono; [by apply clearCells_typed|]. intros _ x2 [].
  apply wpf_bind, wpf_get. destruct (negb _); [apply wpf_modify|apply wpf_ret]; by split.
Qed.

(** The colours of the escape m. *)
Lemma sgrToColor_bound a : 0 <= a <= 7 -> 0 <= sgrToColor a <= 7.
Proof. intros Ha. assert (a = 0 \/ a = 1 \/ a = 2 \/ a = 3 \/ a = 4 \/ a = 5 \/ a = 6 \/ a = 7) by lia. by intuition subst. Qed.
Lemma bold_color c : color c -> color (Z.lxor c 8).
Proof.
  intros Hc. unfold color in *. assert (H : forallb (fun n => (0 <=? Z.lxor (Z.of_nat n) 8) && (Z.lxor (Z.of_nat n) 8 <? 16)) (seq 0 16) = true) by done.
  rewrite forallb_forall in H. specialize (H (Z.to_nat c)). rewrite Z2Nat.id, andb_true_iff, Z.leb_le, Z.ltb_lt in H by lia. apply H, in_seq. lia.
Qed.
Lemma setGraphics_typed a x : screen_typed x -> screen_typed (setGraphics a x).
Proof.
  intros [Hf Hb Hc]. unfold setGraphics, inRange. pose proof (bold_color _ Hf).
  repeat case_match; try (by split); repeat match goal with H : _ && _ = true |- _ => apply andb_true_iff in H as [?%Z.leb_le ?%Z.leb_le] end;
    (split; [| |done]); cbn; try done; unfold color;
    match goal with |- context [sgrToColor ?e] => pose proof (sgrToColor_bound e ltac:(lia)) end; unfold u8; rewrite ?Z.mod_small; lia.
Qed.
Lemma cursorBack_typed x : screen_typed x -> wpf cursorBack x (fun _ x' => screen_typed x').
Proof.
  intros Hx. unfold cursorBack. apply wpf_bind, wpf_modify, wpf_bind, wpf_get. apply setCell_typed; [|by intros vc []|done].
  destruct Hx, (negb _); by split.
Qed.

(** ** The scan of an escape sequence *)
Lemma scan_run fuel : forall mem text i args n b k, scanEscape fuel mem text i args n b = ScanOn -> (k < fuel)%nat -> is_Some (mem !! (text + i + Z.of_nat k)).
Proof.
  induction fuel as [|fuel IH]; intros mem text i args n b k Hs Hk; [lia|]. cbn [scanEscape] in Hs.
  destruct (mem !! (text + i)) as [c|] eqn:Ec; [|done]. destruct k as [|k]; [rewrite Z.add_0_r; eauto|].
  replace (text + i + Z.of_nat (S k)) with (text + (i + 1) + Z.of_nat k) by lia.
  repeat case_match; try done; (eapply IH; [exact Hs|lia]).
Qed.
Lemma scan_ends mem text i args n b : scanEscape (S (size mem)) mem text i args n b <> ScanOn.
Proof. intros Hs. assert (S (size mem) <= size mem)%nat; [|lia]. apply (run_size mem (text + i)). intros k. by apply (scan_run _ _ _ _ _ _ _ _ Hs). Qed.

(** The text at [text], readable up to a zero byte at [m]. *)
Definition readable (mem : gmap Z Z) (text m : Z) : Prop := (forall k, 0 <= k < m -> is_Some (mem !! (text + k))) /\ mem !! (text + m) = Some 0.
Lemma scan_stops fuel : forall mem text i m args n b, readable mem text m -> 0 <= i <= m ->
  match scanEscape fuel mem text i args n b with BadAddress => False | Final j _ _ => i <= j < m | _ => True end.
Proof.
  induction fuel as [|fuel IH]; intros mem text i m args n b [Hr H0] Hi; [done|]. cbn [scanEscape].
  destruct (Z.eq_dec i m) as [->|Hne]; [by rewrite H0|]. destruct (Hr i) as [c ->]; [lia|].
  assert (Hrec : forall args n b, match scanEscape fuel mem text (i + 1) args n b with BadAddress => False | Final j _ _ => i <= j < m | _ => True end).
  { intros args' n' b'. pose proof (IH mem text (i + 1) m args' n' b' (conj Hr H0) ltac:(lia)) as HI. destruct (scanEscape fuel mem text (i + 1) args' n' b'); lia || done. }
  destruct (c =? 0); [done|]. destruct (inRange 48 57 c); [apply Hrec|]. destruct (_ && _); [apply Hrec|]. destruct (inRange _ _ c); [lia|apply Hrec].
Qed.
Lemma readable_suffix mem text m i : readable mem text m -> 0 <= i <= m -> readable mem (text + i) (m - i).
Proof. intros [Hr H0] Hi. split; [|by replace (text + i + (m - i)) with (text + m) by lia]. intros k Hk. rewrite <- Z.add_assoc. apply Hr. lia. Qed.

(** An escape skips characters before the end of the text, and what it does to
    the screen is well typed. *)
Lemma parseEscape_typed mem text m x : readable mem text m -> 1 <= m -> screen_typed x ->
  wpf (parseEscape mem text) x (fun r x' => 0 <= r < m /\ screen_typed x').
Proof.
  intros Hr Hm Hx. unfold parseEscape. destruct (Z.eq_dec m 1) as [->|Hm1].
  { rewrite (proj2 Hr). apply wpf_ret. split; [lia|done]. }
  destruct (proj1 Hr 1) as [c ->]; [lia|]. destruct (negb (c =? 91)); [apply wpf_ret; split; [lia|done]|].
  pose proof (scan_ends mem text 2 (replicate 8 0) 0 true) as Hend. pose proof (scan_stops (S (size mem)) mem text 2 m (replicate 8 0) 0 true Hr ltac:(lia)) as Hst.
  destruct (scanEscape _ mem text 2 _ 0 true) as [|j args n| |]; [apply wpf_ret; split; [lia|done]| |done..].
  apply wpf_bind. eapply wpf_mono with (Q := fun _ x' => screen_typed x').
  - repeat case_match; [by apply cursorBack_typed| |by apply wpf_ret]. apply wpf_modify. generalize (take (Z.to_nat n) args). intros l.
    revert x Hx. induction l as [|a l IH]; intros x Hx; [done|]. cbn [fold_left]. by apply IH, setGraphics_typed.
  - intros ? x' Hx'. apply wpf_ret. split; [lia|done].
Qed.

(** With [k] rows above and below the cursor nothing leaves the screen for as
    many steps. *)
Definition rows (k : Z) (x : Screen) : Prop := screen_ok x /\ k <= cursorY x /\ cursorY x + k < SCROLLBACK_LINES.
Lemma rows_less k k' x : k' <= k -> rows k x -> rows k' x.
Proof. intros Hk (? & ? & ?). split_and!; [done|lia..]. Qed.
Lemma setGraphics_rows k a x : rows k x -> rows k (setGraphics a x).
Proof. intros [[] ?]. unfold setGraphics. repeat case_match; (split; [by split|done]). Qed.
Lemma rows_moved k x x' d : rows (k + 1) x -> 0 <= k -> screen_ok x' -> charWidth x' = charWidth x -> -1 <= d <= 1 -> position x' = position x + d -> rows k x'.
Proof.
  intros (Hok & Hy & Hy2) Hk Hok' Hw Hd Hp. pose proof Hok as [W _ HX HY _]. pose proof Hok' as [_ _ HX' HY' _]. unfold position, SCROLLBACK_LINES in *. rewrite Hw in *.
  split; [done|]. unfold SCROLLBACK_LINES. nia.
Qed.
Lemma cursorBack_rows k x : rows (k + 1) x -> 0 <= k -> wp cursorBack x (fun _ x' => rows k x').
Proof.
  intros Hr Hk. pose proof Hr as (Hok & Hy & Hy2). pose proof Hok as [W _ HX _ _].
  wp_use cursorBack_spec; [done|unfold position; nia|]. intros _ x' (Hok' & [Hw _] & Hp & _). eapply (rows_moved k x x' (-1)); done || lia.
Qed.
Lemma newline_rows k x : rows (k + 1) x -> 0 <= k -> wp newline x (fun _ x' => rows k x').
Proof.
  intros (Hok & Hy & Hy2) Hk. wp_use newline_spec; [by left|]. intros _ x' (Hok' & _ & _ & _ & Hy' & _). unfold SCROLLBACK_LINES in *. rewrite Z.mod_small in Hy' by lia.
  split; [done|]. unfold SCROLLBACK_LINES. lia.
Qed.
Lemma parseEscape_rows mem text m k x : readable mem text m -> 1 <= m -> rows (k + 1) x -> 0 <= k ->
  wp (parseEscape mem text) x (fun r x' => 0 <= r < m /\ rows k x').
Proof.
  intros Hr Hm Hx Hk. pose proof (rows_less (k + 1) k x ltac:(lia) Hx) as Hx1. unfold parseEscape. destruct (Z.eq_dec m 1) as [->|Hm1].
  { rewrite (proj2 Hr). apply wp_ret. split; [lia|done]. }
  destruct (proj1 Hr 1) as [c ->]; [lia|]. destruct (negb (c =? 91)); [apply wp_ret; split; [lia|done]|].
  pose proof (scan_ends mem text 2 (replicate 8 0) 0 true) as Hend. pose proof (scan_stops (S (size mem)) mem text 2 m (replicate 8 0) 0 true Hr ltac:(lia)) as Hst.
  destruct (scanEscape _ mem text 2 _ 0 true) as [|j args n| |]; [apply wp_ret; split; [lia|done]| |done..].
  apply wp_bind. apply wp_mono with (Q := fun _ x' => rows k x').
  - repeat case_match; [by apply cursorBack_rows| |by apply wp_ret]. apply wp_modify. generalize (take (Z.to_nat n) args). intros l. clear Hx.
    revert x Hx1. induction l as [|a l IH]; intros x Hx1; [done|]. cbn [fold_left]. by apply IH, setGraphics_rows.
  - intros ? x' Hx'. apply wp_ret. split; [lia|done].
Qed.

(** ** The loop over a text *)
Section total.
Context {P : Type} `{TtyPartsOk P}.
Implicit Types s : tty_state (P := P).

Lemma wpf_onScreen {A} t (m : M Screen A) s x (Q : A -> tty_state -> Prop) :
  screens s !! Z.to_nat t = Some x -> wpf m x (fun a x' => Q a (with_screen t x' s)) -> wpf (onScreen t m) s Q.
Proof. intros Hx Hm. unfold wpf, onScreen in *. rewrite Hx. by destruct (m x) as [[a x']| |]. Qed.
Lemma putChar_typed t text i c s x m : screens s !! Z.to_nat t = Some x -> screen_typed x -> readable (memory s) text m -> 0 <= i < m ->
  wpf (putChar t text i c) s (fun r s' => 0 <= r /\ i + r < m /\ exists x', s' = with_screen t x' s /\ screen_typed x').
Proof.
  intros Hx Hty Hr Hi. unfold putChar. destruct (c =? 13); [|destruct (c =? 10); [|destruct (c =? 27)]].
  - apply wpf_bind. eapply wpf_onScreen; [done|]. apply wpf_modify, wpf_ret. split_and!; [lia..|]. eexists. split; [done|]. destruct Hty. by split.
  - apply wpf_bind. eapply wpf_onScreen; [done|]. eapply wpf_mono; [by apply newline_typed|]. intros ? x' Hx'. apply wpf_ret. split_and!; [lia..|eauto].
  - apply wpf_bind, wpf_gets. eapply wpf_onScreen; [done|]. eapply wpf_mono; [apply (parseEscape_typed _ _ (m - i)); [by apply readable_suffix; [|lia]|lia|done]|].
    intros r x' [Hr' Hx']. split_and!; [lia..|eauto].
  - apply wpf_bind. eapply wpf_onScreen; [done|]. apply wpf_bind, wpf_get, wpf_bind. apply setCell_typed; [done|by intros vc _; destruct Hty; split|].
    intros x1 H1 _ _. apply wpf_bind, wpf_modify, wpf_bind, wpf_get. eapply wpf_mono with (Q := fun _ x' => screen_typed x').
    { destruct (_ <=? _); [apply newline_typed|apply wpf_ret]; destruct H1; by split. }
    intros ? x' Hx'. apply wpf_ret. split_and!; [lia..|eauto].
Qed.
Lemma putsLoop_typed fuel : forall t text n i s x m, screens s !! Z.to_nat t = Some x -> screen_typed x -> readable (memory s) text m ->
  0 <= i -> n <= m < 2 ^ 32 -> n - i <= Z.of_nat fuel ->
  wpf (putsLoop fuel t text n i) s (fun r s' => r = 0 /\ exists x', s' = with_screen t x' s /\ screen_typed x').
Proof.
  induction fuel as [|fuel IH]; intros t text n i s x m Hx Hty Hr Hi Hn Hf; cbn [putsLoop]; destruct (Z.ltb_spec i n) as [Hlt|Hge]; cbn [negb]; try lia.
  1,3: apply wpf_ret; split; [done|]; exists x; by rewrite with_screen_same.
  apply wpf_bind. unfold getScreen. apply wpf_deref. intros y Hy. assert (y = x) as -> by congruence.
  apply wpf_bind. eapply wpf_onScreen; [done|]. apply setCell_typed; [done|by intros vc []|]. intros x1 H1 _ _.
  apply wpf_bind, wpf_get. change (memory (with_screen t x1 s)) with (memory s). destruct (proj1 Hr i) as [c ->]; [lia|].
  apply wpf_bind. eapply wpf_mono; [eapply putChar_typed; [by eapply with_screen_lookup|exact H1|exact Hr|lia]|].
  intros r s' (Hr0 & Hr1 & x2 & -> & H2). rewrite with_screen_twice. unfold u32. rewrite (Z.mod_small (i + r)) by lia. rewrite Z.mod_small by lia.
  eapply wpf_mono; [eapply (IH t text n (i + r + 1) _ x2 m); [by eapply with_screen_lookup|done|exact Hr|lia|lia|lia]|].
  intros r' s' [-> (x' & -> & Hx')]. split; [done|]. exists x'. by rewrite with_screen_twice.
Qed.

Lemma putChar_rows t text i c s x m k : screens s !! Z.to_nat t = Some x -> rows (k + 1) x -> 0 <= k -> readable (memory s) text m -> 0 <= i < m ->
  wp (putChar t text i c) s (fun r s' => 0 <= r /\ i + r < m /\ exists x', s' = with_screen t x' s /\ rows k x').
Proof.
  intros Hx Hr Hk Hm Hi. unfold putChar. destruct (Z.eqb_spec c 13) as [->|H13]; [|destruct (Z.eqb_spec c 10) as [->|H10]; [|destruct (Z.eqb_spec c 27) as [->|H27]]].
  - apply wp_bind. eapply wp_onScreen; [done|]. apply wp_modify, wp_ret. split_and!; [lia..|]. eexists. split; [done|]. destruct Hr as ([] & ? & ?). split; [by split; scrsimpl; try lia|]. scrsimpl. lia.
  - apply wp_bind. eapply wp_onScreen; [done|]. wp_use newline_rows; [exact Hr|done|]. intros ? x' Hx'. apply wp_ret. split_and!; [lia..|eauto].
  - apply wp_bind, wp_gets. eapply wp_onScreen; [done|]. wp_use (parseEscape_rows (memory s) (text + i) (m - i) k); [by apply readable_suffix; [|lia]|lia|done|done|].
    intros r x' [Hr' Hx']. split_and!; [lia..|eauto].
  - apply wp_bind. eapply wp_onScreen; [done|]. apply wp_bind, wp_get. wp_use plain_spec; [apply Hr|]. intros _ x' (Hok' & _ & [Hw _] & Hp & _). apply wp_ret.
    split_and!; [lia..|]. eexists. split; [done|]. pose proof Hr as (Hok & Hy & Hy2). pose proof Hok as [W _ HX _ _].
    rewrite Z.mod_small in Hp by (unfold cells, position, SCROLLBACK_LINES in *; nia). eapply (rows_moved k x x' 1); done || lia.
Qed.
Lemma putsLoop_rows fuel : forall t text n i s x m, screens s !! Z.to_nat t = Some x -> rows (n - i) x -> readable (memory s) text m ->
  0 <= i -> n <= m < 2 ^ 32 -> n - i <= Z.of_nat fuel ->
  wp (putsLoop fuel t text n i) s (fun r s' => r = 0 /\ exists x', s' = with_screen t x' s /\ screen_ok x').
Proof.
  induction fuel as [|fuel IH]; intros t text n i s x m Hx Hrow Hr Hi Hn Hf.
  1: cbn [putsLoop]; rewrite (proj2 (Z.ltb_ge i n)) by lia; apply wp_ret; split; [done|]; exists x; by rewrite with_screen_same; [split; [done|apply Hrow]|].
  destruct (Z.lt_ge_cases i n) as [Hlt|Hge]; [|cbn [putsLoop]; rewrite (proj2 (Z.ltb_ge i n)) by lia; apply wp_ret; split; [done|]; exists x; by rewrite with_screen_same; [split; [done|apply Hrow]|]].
  destruct (proj1 Hr i) as [c Hc]; [lia|]. eapply putsLoop_step; [done|apply Hrow|lia|done|]. intros b Hok1 _.
  wp_use (putChar_rows t text i c (with_screen t (s_buf b x) s) (s_buf b x) m (n - i - 1)); [by eapply with_screen_lookup|split; [done|]|lia|exact Hr|lia|].
  { destruct Hrow as (_ & ? & ?). scrsimpl. lia. }
  intros r s' (Hr0 & Hr1 & x2 & -> & H2). rewrite with_screen_twice. unfold u32. rewrite (Z.mod_small (i + r)) by lia. rewrite Z.mod_small by lia.
  wp_use (IH t text n (i + r + 1) (with_screen t x2 s) x2 m); [by eapply with_screen_lookup|eapply rows_less; [|exact H2]; lia|exact Hr|lia|lia|lia|].
  intros r' s' [-> (x' & -> & Hx')]. split; [done|]. exists x'. by rewrite with_screen_twice.
Qed.

(** [ttyPuts] of any text that is followed by a zero byte. *)
Lemma ttyPuts_total fuel t text n s x m : screens s !! Z.to_nat t = Some x -> screen_typed x -> slock x = false -> ttyEarly s = false ->
  readable (memory s) text m -> 0 <= n <= m -> m < 2 ^ 32 -> (Z.to_nat n <= fuel)%nat -> sems_ok (rest s) -> 0 <= semValue (updateSem t) (rest s) ->
  wpf (ttyPuts fuel t text n) s (fun r s' => r = 0 /\ exists x' p, s' = set_rest p (with_screen t x' s) /\ screen_typed x').
Proof.
  intros Hx Hty Hlk Hearly Hr Hn Hm Hf Hsems Hv. unfold ttyPuts, acquireScreen, releaseScreen.
  apply wpf_bind, wpf_bind, wpf_deref. intros y Hy. assert (y = x) as -> by congruence. rewrite Hlk. eapply wpf_onScreen; [done|]. apply wpf_modify.
  apply wpf_bind. eapply wpf_mono; [eapply (putsLoop_typed fuel t text n 0 _ (s_lock true x) m); [by eapply with_screen_lookup|by destruct Hty; split|exact Hr|lia..]|].
  intros r s1 [-> (x1 & -> & H1)]. rewrite with_screen_twice. apply wpf_bind, wpf_get. change (ttyEarly (with_screen t x1 s)) with (ttyEarly s). rewrite Hearly.
  apply wpf_bind, wpf_bind. eapply wpf_onScreen; [by eapply with_screen_lookup|]. apply wpf_modify. rewrite with_screen_twice.
  change (rest (with_screen t x1 s)) with (rest (with_screen t (s_lock false x1) s)).
  pose proof (raise_spec (updateSem t) (with_screen t (s_lock false x1) s) Hsems Hv) as Hraise. unfold wp in Hraise. unfold wpf at 1.
  destruct (if _ <=? 0 then _ else _) as [[u s']| |]; [|done..]. destruct Hraise as (p & -> & _). apply wpf_ret. split; [done|].
  exists (s_lock false x1), p. split; [done|]. destruct H1. by split.
Qed.

(** C31: Writing a text ends, whatever escape sequences it holds, when the bytes
    up to a zero byte behind it can be read ([escape_at_page_end_loops] shows why)
    and the loop may run once for each character: it returns or, when the escapes
    move the cursor out of the ring, faults.  With as many rows above and below
    the cursor as the text has characters it does return, with 0. *)
Theorem ttyPuts_terminates fuel t text n s x m : screens s !! Z.to_nat t = Some x -> screen_typed x -> slock x = false -> ttyEarly s = false ->
  readable (memory s) text m -> 0 <= n <= m -> m < 2 ^ 32 -> (Z.to_nat n <= fuel)%nat -> sems_ok (rest s) -> 0 <= semValue (updateSem t) (rest s) ->
  ttyPuts fuel t text n s <> NoFuel /\ (rows n x -> wp (ttyPuts fuel t text n) s (fun r _ => r = 0)).
Proof.
  intros Hx Hty Hlk Hearly Hr Hn Hm Hf Hsems Hv. split.
  - intros E. pose proof (ttyPuts_total fuel t text n s x m Hx Hty Hlk Hearly Hr Hn Hm Hf Hsems Hv) as Hw. unfold wpf in Hw. by rewrite E in Hw.
  - intros (Hok & Hrow). wp_use (ttyPuts_wrap fuel t text n s x screen_ok Hx Hlk Hearly Hsems Hv); [|by intros r s' [-> _]].
    eapply (putsLoop_rows fuel t text n 0 _ (s_lock true x) m); [by eapply with_screen_lookup| |exact Hr|lia..].
    rewrite Z.sub_0_r. split; [by apply screen_ok_lock|exact Hrow].
Qed.
(** C32: The colours of a terminal are indices of the palette: no text, whatever
    colours its escapes ask for, makes a cell whose colour the drawing would look
    up outside of the sixteen. *)
Theorem ttyPuts_typed fuel t text n s x m r s' : screens s !! Z.to_nat t = Some x -> screen_typed x -> slock x = false -> ttyEarly s = false ->
  readable (memory s) text m -> 0 <= n <= m -> m < 2 ^ 32 -> (Z.to_nat n <= fuel)%nat -> sems_ok (rest s) -> 0 <= semValue (updateSem t) (rest s) ->
  ttyPuts fuel t text n s = Done (r, s') ->
  exists x', screens s' !! Z.to_nat t = Some x' /\ screen_typed x' /\
    forall vc, vc ∈ buf x' -> is_Some (colors !! Z.to_nat (fgCol vc)) /\ is_Some (colors !! Z.to_nat (bgCol vc)).
Proof.
  intros Hx Hty Hlk Hearly Hr Hn Hm Hf Hsems Hv E. pose proof (ttyPuts_total fuel t text n s x m Hx Hty Hlk Hearly Hr Hn Hm Hf Hsems Hv) as Hw.
  unfold wpf in Hw. rewrite E in Hw. destruct Hw as (_ & x' & p & -> & Hx'). exists x'. split; [by eapply (with_screen_lookup t x)|]. split; [done|].
  intros vc Hvc. destruct (proj1 (Forall_forall _ _) (ty_cells x' Hx') vc Hvc) as [H1 H2]. unfold color in *. split; apply lookup_lt_is_Some; cbn [colors length]; lia.
Qed.
End total.

(** A coloured text with a cursor movement, and the byte behind it. *)
Definition colored : list Z := [27; 91; 49; 59; 51; 49; 109; 97; 27; 91; 68].
Definition coloredTty : tty_state (P := Z -> Z) := set_memory (store 500 (colored ++ [0]) ∅) (smallTty 2 3).
Lemma colored_readable : readable (memory coloredTty) 500 11.
Proof. split; [|done]. intros k Hk. assert (k ∈ seqZ 0 11) as Hin by (apply elem_of_seqZ; lia). clear Hk. revert k Hin. apply Forall_forall. repeat constructor; eexists; by vm_compute. Qed.
Lemma smallScreen_typed : screen_typed (smallScreen 2 3).
Proof. split; [done..|]. by apply Forall_replicate. Qed.
(** On row 100 there are more rows above and below than characters. *)
Definition coloredMiddle : tty_state (P := Z -> Z) := set_memory (store 500 (colored ++ [0]) ∅) (smallTty 2 100).
Lemma ttyPuts_terminates_witness : ttyPuts 11 0 500 11 coloredMiddle <> NoFuel /\ wp (ttyPuts 11 0 500 11) coloredMiddle (fun r _ => r = 0).
Proof.
  assert (Hty : screen_typed (smallScreen 2 100)) by (split; [done..|]; by apply Forall_replicate).
  destruct (ttyPuts_terminates 11 0 500 11 coloredMiddle (smallScreen 2 100) 11 eq_refl Hty eq_refl eq_refl colored_readable) as [H1 H2]; [lia|lia|cbn; lia|done|done|].
  split; [exact H1|]. apply H2. split; [|split; cbn; unfold SCROLLBACK_LINES; lia]. split; cbn; unfold SCROLLBACK_LINES; lia || reflexivity.
Defined.
Lemma ttyPuts_typed_witness : exists r s', ttyPuts 11 0 500 11 coloredTty = Done (r, s') /\
  exists x', screens s' !! 0%nat = Some x' /\ screen_typed x' /\ forall vc, vc ∈ buf x' -> is_Some (colors !! Z.to_nat (fgCol vc)) /\ is_Some (colors !! Z.to_nat (bgCol vc)).
Proof.
  assert (Hd : exists r s', ttyPuts 11 0 500 11 coloredTty = Done (r, s')) by (eexists _, _; vm_compute; reflexivity). destruct Hd as (r & s' & E).
  exists r, s'. split; [done|]. refine (ttyPuts_typed 11 0 500 11 coloredTty (smallScreen 2 3) 11 r s' _ smallScreen_typed _ _ colored_readable _ _ _ _ _ E); clear E; done.
Defined.
