(* ===== verification/Ps2.v ===== *)
(** * The keyboard: [kernel/drivers/input/ps2], the controller of [i8042.c] and
    the keyboard of [keyboard.c]

    Ports, interrupt vectors and the consumer of key events are an interface.
    The bytes of the keyboard are decoded by a small state machine; encoding keys
    as the keyboard does and decoding them gives the keys again. *)

From S2P Require Import Prelude Word Errno Keys.

Definition I8042_PORT_DATA : Z := 0x60.
Definition I8042_PORT_STATUS : Z := 0x64.
Definition I8042_PORT_CMD : Z := 0x64.
Definition I8042_TIMEOUT : Z := 0xFFFF.
Definition I8042_BUFFER_SIZE : Z := 16.
Definition I8042_STATUS_OUTBUFFER : Z := 1.
Definition I8042_STATUS_INBUFFER : Z := 2.
Definition I8042_CONFIG_IRQ_PORT1 : Z := 1.
Definition I8042_CONFIG_IRQ_PORT2 : Z := 2.
Definition I8042_CONFIG_XLATE : Z := 64.
Definition SCANCODE_MODIFIER : Z := 0xE0.
Definition SCANCODE_RELEASED : Z := 0xF0.
(** The commands of the controller, and those of a device. *)
Definition CMD_READ_CONFIG : Z := 0x20.
Definition CMD_WRITE_CONFIG : Z := 0x60.
Definition CMD_SELF_TEST : Z := 0xAA.
Definition CMD_TEST_PORT1 : Z := 0xAB.
Definition CMD_DISABLE_PORT1 : Z := 0xAD.
Definition CMD_DISABLE_PORT2 : Z := 0xA7.
Definition CMD_ENABLE_PORT1 : Z := 0xAE.

(** [char] is signed. *)
#[local] Notation s8 := (swrap 8).

Record KbDevice := mkKb { keyReleased : bool; keyModifier : bool; ledState : Z }.
Record Ps2Controller := mkPort { pdev : option KbDevice; portId : Z; connected : bool; cmdSent : bool }.

Section ps2.
(** The machine: its ports, the vectors of interrupts, the consumer of events,
    and the instruction that stops the processor. *)
Class Ps2Machine (P : Type) := {
  in8 : Z -> M P Z;
  out8 : Z -> Z -> M P unit;
  allocVec : M P Z;
  deallocVec : Z -> M P unit;
  routeInterrupt : Z -> M P Z;
  routeIrqLine : Z -> Z -> M P Z;
  unrouteInterrupt : Z -> M P unit;
  handleKeyEvent : Z -> bool -> M P Z;
  hlt : M P unit
}.
Context {P : Type} `{Ps2Machine P}.

Record ps2_state := mkPs2 { port1 : Ps2Controller; machine : P }.
Definition set_port (p : Ps2Controller) (s : ps2_state) := mkPs2 p (machine s).
Definition lift {A} (m : M P A) : M ps2_state A := fun s =>
  match m (machine s) with Done (a, p) => Done (a, mkPs2 (port1 s) p) | Fault => Fault | NoFuel => NoFuel end.
Definition set_dev (d : option KbDevice) (p : Ps2Controller) := mkPort d (portId p) (connected p) (cmdSent p).
Definition set_id (i : Z) (p : Ps2Controller) := mkPort (pdev p) i (connected p) (cmdSent p).
Definition set_connected (b : bool) (p : Ps2Controller) := mkPort (pdev p) (portId p) b (cmdSent p).
Definition set_cmdSent (b : bool) (p : Ps2Controller) := mkPort (pdev p) (portId p) (connected p) b.
Definition updPort (f : Ps2Controller -> Ps2Controller) : M ps2_state unit := modify (fun s => set_port (f (port1 s)) s).

(** ** The controller *)

Definition i8042Status : M P Z := in8 I8042_PORT_STATUS.
(** [n] polls of the status register at most. *)
Fixpoint poll (n : nat) (ready : Z -> bool) : M P Z :=
  match n with
  | O => mret (- EIO)
  | S n => st ← i8042Status; if ready st then mret 0 else poll n ready
  end.
Definition i8042WriteWait : M P Z := poll (Z.to_nat I8042_TIMEOUT) (fun st => negb (has st I8042_STATUS_INBUFFER)).
Definition i8042ReadWait : M P Z := poll (Z.to_nat I8042_TIMEOUT) (fun st => has st I8042_STATUS_OUTBUFFER).
Definition i8042ReadData : M P Z := in8 I8042_PORT_DATA.
Definition i8042WriteData (data : Z) : M P unit := out8 I8042_PORT_DATA data.
Definition i8042Cmd (cmd : Z) : M P unit := out8 I8042_PORT_CMD cmd.

(** The loop runs [17] times at most: [n] is what is left of the buffer. *)
Fixpoint flushLoop (n : nat) : M P Z :=
  st ← i8042Status;
  if has st I8042_STATUS_OUTBUFFER then
    match n with O => mret (- EIO) | S n => in8 I8042_PORT_DATA;; flushLoop n end
  else mret 0.
Definition i8042Flush : M P Z := flushLoop (Z.to_nat I8042_BUFFER_SIZE).

Fixpoint i8042SendPort1 (fuel : nat) (command : Z) : M P Z :=
  match fuel with
  | O => nofuel
  | S fuel =>
      w ← i8042WriteWait;
      if negb (w =? 0) then mret (- EIO)
      else
        i8042WriteData command;;
        r ← i8042ReadWait;
        if negb (r =? 0) then mret (- EIO)
        else ret ← i8042ReadData; if ret =? 0xFE then i8042SendPort1 fuel command else mret ret
  end.

(** Steps of the initialization: the rest runs when the wait succeeds. *)
Definition orEIO (m : M P Z) (k : M ps2_state Z) : M ps2_state Z := r ← lift m; if r =? 0 then k else mret (- EIO).
Definition command (cmd : Z) (k : M ps2_state Z) : M ps2_state Z := orEIO i8042WriteWait (lift (i8042Cmd cmd);; k).
Definition answer (k : Z -> M ps2_state Z) : M ps2_state Z := orEIO i8042ReadWait (x ← lift i8042ReadData; k x).

(** The loop that reads the identification: its condition is the failure of the
    wait. *)
Fixpoint readId (fuel : nat) : M ps2_state unit :=
  match fuel with
  | O => nofuel
  | S fuel =>
      r ← lift i8042ReadWait;
      if r =? 0 then mret tt
      else
        s ← get;
        let nrofBytes := s8 (Z.shiftr (portId (port1 s)) 24) in
        d ← lift i8042ReadData;
        updPort (fun p => set_id (Z.lor (portId p) (u32 (Z.shiftl d (8 * nrofBytes)))) p);;
        updPort (fun p => set_id (Z.land (portId p) 0x00FFFFFF) p);;
        updPort (fun p => set_id (Z.lor (portId p) (u32 (Z.shiftl (s8 (nrofBytes + 1)) 24))) p);;
        readId fuel
  end.
Definition enableInterrupts (k : M ps2_state Z) : M ps2_state Z :=
  vec ← lift allocVec;
  if vec =? 0 then mret (- EBUSY)
  else
    r ← lift (routeInterrupt vec);
    if negb (r =? 0) then lift (deallocVec vec);; mret (- EIO)
    else
      r ← lift (routeIrqLine vec 1);
      if negb (r =? 0) then lift (unrouteInterrupt vec);; lift (deallocVec vec);; mret (- EIO)
      else
        command CMD_READ_CONFIG (answer (fun config =>
          command CMD_WRITE_CONFIG (orEIO i8042WriteWait (lift (i8042WriteData (Z.lor config I8042_CONFIG_IRQ_PORT1));; k)))).
(** The reset of the device at the port. *)
Definition probePort (fuel : nat) : M ps2_state unit :=
  r ← lift (i8042SendPort1 fuel 0xFF);
  w ← (if r <? 0 then mret 1 else lift i8042ReadWait);
  if negb (w =? 0) then updPort (set_connected false)
  else
    lift i8042ReadData;;
    r ← lift (i8042SendPort1 fuel 0xF5);
    r ← (if r <? 0 then mret r else lift (i8042SendPort1 fuel 0xF2));
    if r <? 0 then updPort (set_connected false)
    else readId fuel;; updPort (set_connected true).
Definition i8042Init (fuel : nat) : M ps2_state Z :=
  orEIO i8042Flush (
  command CMD_DISABLE_PORT1 (
  command CMD_DISABLE_PORT2 (
  orEIO i8042Flush (
  command CMD_READ_CONFIG (answer (fun config =>
  let config := Z.ldiff config (Z.lor I8042_CONFIG_IRQ_PORT1 (Z.lor I8042_CONFIG_IRQ_PORT2 I8042_CONFIG_XLATE)) in
  command CMD_WRITE_CONFIG (orEIO i8042WriteWait (lift (i8042WriteData config);;
  command CMD_SELF_TEST (answer (fun _ =>
  command CMD_TEST_PORT1 (answer (fun _ =>
  command CMD_ENABLE_PORT1 (
  enableInterrupts (
    probePort fuel;;
    lift i8042Flush;;
    updPort (set_dev None);;
    updPort (set_cmdSent false);;
    mret 0)))))))))))))).

(** ** The keyboard *)

Definition kbIDs : list Z := [0; 0x020083AB].
Definition kbNewDevice (fuel : nat) : M ps2_state KbDevice :=
  lift (i8042SendPort1 fuel 0xF4);; mret (mkKb false false 0).
Fixpoint registerLoop (fuel : nat) (ids : list Z) : M ps2_state unit :=
  match ids with
  | [] => mret tt
  | id :: ids =>
      s ← get;
      (if id =? portId (port1 s) then d ← kbNewDevice fuel; updPort (set_dev (Some d)) else mret tt);;
      registerLoop fuel ids
  end.
(** [ps2RegisterDriver] with the driver of the keyboard. *)
Definition ps2RegisterDriver (fuel : nat) : M ps2_state unit :=
  s ← get; if connected (port1 s) then registerLoop fuel kbIDs else mret tt.

(** The code of the key of a byte, or nothing while a sequence goes on. *)
Inductive decoded := Prefix | Key (keycode : Z) (released : bool).
Definition kbDecode (data : Z) (d : KbDevice) : decoded * KbDevice :=
  if data =? SCANCODE_MODIFIER then (Prefix, mkKb (keyReleased d) true (ledState d))
  else if data =? SCANCODE_RELEASED then (Prefix, mkKb true (keyModifier d) (ledState d))
  else
    let i := if keyModifier d then data + 0x80 else if 0x80 <=? data then data + (0x100 - 0x80) else data in
    let keycode := default KEY_RESERVED (kbScanTable !! Z.to_nat i) in
    (Key keycode (keyReleased d), mkKb false false (ledState d)).
Fixpoint waitReset (fuel : nat) : M P unit :=
  match fuel with
  | O => nofuel
  | S fuel => good ← in8 0x64; if has good 2 then waitReset fuel else mret tt
  end.
Definition kbInterrupt (fuel : nat) : M ps2_state unit :=
  data ← lift i8042ReadData;
  s ← get;
  match pdev (port1 s) with
  | None => fault
  | Some d =>
      let '(k, d') := kbDecode data d in
      updPort (set_dev (Some d'));;
      match k with
      | Prefix => mret tt
      | Key keycode released =>
          if negb released && (keycode =? KEY_SYSRQ) then lift (waitReset fuel);; lift (out8 0x64 0xFE);; lift hlt
          else lift (handleKeyEvent keycode released);; mret tt
      end
  end.
Definition i8042InterruptPort1 (fuel : nat) : M ps2_state unit :=
  s ← get;
  let p := port1 s in
  if negb (cmdSent p) && connected p && bool_decide (is_Some (pdev p)) then kbInterrupt fuel else mret tt.
End ps2.

(** ** What the keyboard sends

    The bytes of a key that is pressed or released: keys of the upper half of the
    table come with a prefix, those behind it with a byte of the upper half. *)
Definition scanCodes (k : Z * bool) : list Z :=
  let '(i, released) := k in
  let r := if released then [SCANCODE_RELEASED] else [] in
  if i <? 0x80 then r ++ [i]
  else if i <? 0x100 then SCANCODE_MODIFIER :: r ++ [i - 0x80]
  else r ++ [i - 0x80].
Fixpoint kbDecodeAll (l : list Z) (d : KbDevice) : list (Z * bool) * KbDevice :=
  match l with
  | [] => ([], d)
  | b :: l =>
      let '(k, d) := kbDecode b d in
      let '(ks, d) := kbDecodeAll l d in
      (match k with Prefix => ks | Key c r => (c, r) :: ks end, d)
  end.
Definition scanKey (i : Z) : Z := default KEY_RESERVED (kbScanTable !! Z.to_nat i).
Definition is_scan (k : Z * bool) : Prop := 0 <= k.1 < 264.
Definition neutral (led : Z) : KbDevice := mkKb false false led.

Lemma kbDecodeAll_app l1 l2 d :
  kbDecodeAll (l1 ++ l2) d = let '(k1, d1) := kbDecodeAll l1 d in let '(k2, d2) := kbDecodeAll l2 d1 in (k1 ++ k2, d2).
Proof.
  revert d. induction l1 as [|b l1 IH]; intros d; cbn [kbDecodeAll app]; [by destruct (kbDecodeAll l2 d)|].
  destruct (kbDecode b d) as [k d1]. rewrite IH. destruct (kbDecodeAll l1 d1) as [ks d2]. destruct (kbDecodeAll l2 d2). by destruct k.
Qed.
(** A byte that is no prefix ends a sequence. *)
Lemma kbDecode_key b r m led : b <> SCANCODE_MODIFIER -> b <> SCANCODE_RELEASED ->
  kbDecode b (mkKb r m led) = (Key (scanKey (if m then b + 0x80 else if 0x80 <=? b then b + 0x80 else b)) r, neutral led).
Proof. intros H1 H2. unfold kbDecode. rewrite (proj2 (Z.eqb_neq _ _) H1), (proj2 (Z.eqb_neq _ _) H2). done. Qed.
Lemma scanCodes_decode k led : is_scan k -> kbDecodeAll (scanCodes k) (neutral led) = ([(scanKey k.1, k.2)], neutral led).
Proof.
  destruct k as [i r]. unfold is_scan. cbn [fst snd]. intros Hi. unfold scanCodes. cbn [fst snd]. unfold neutral.
  destruct (Z.ltb_spec i 0x80); [|destruct (Z.ltb_spec i 0x100)]; destruct r; cbn [app kbDecodeAll];
    try (change (kbDecode SCANCODE_MODIFIER ?d) with (Prefix, mkKb (keyReleased d) true (ledState d)));
    try (change (kbDecode SCANCODE_RELEASED ?d) with (Prefix, mkKb true (keyModifier d) (ledState d))); cbn [keyReleased keyModifier ledState];
    rewrite kbDecode_key by (unfold SCANCODE_MODIFIER, SCANCODE_RELEASED; lia).
  all: try match goal with |- context [0x80 <=? ?b] => destruct (Z.leb_spec 0x80 b); try lia end. all: by rewrite ?Z.sub_add.
Qed.

(** The keyboard's bytes are decoded to what was pressed and released: for
    any sequence of keys the decoder gives back the sequence and is ready for
    more. *)
Theorem kbDecode_scanCodes l led : Forall is_scan l ->
  kbDecodeAll (flat_map scanCodes l) (neutral led) = (map (fun k => (scanKey k.1, k.2)) l, neutral led).
Proof.
  induction l as [|k l IH]; intros Hl; [done|]. apply Forall_cons in Hl as [Hk Hl]. cbn [flat_map map].
  rewrite kbDecodeAll_app, scanCodes_decode, IH by done. done.
Qed.
Lemma kbDecode_scanCodes_witness :
  kbDecodeAll (flat_map scanCodes [(0x1C, false); (0x1C, true); (0xF5, false); (0xF5, true); (0x103, false)]) (neutral 0) =
  (map (fun k => (scanKey k.1, k.2)) [(0x1C, false); (0x1C, true); (0xF5, false); (0xF5, true); (0x103, false)], neutral 0).
Proof. apply kbDecode_scanCodes. repeat constructor; done. Defined.

(** ** The identification of the device

    The loop goes on while the wait fails: a device that answers is never asked,
    and one that does not answer keeps the machine in the loop. *)
#[local] Instance silentMachine : Ps2Machine unit := {|
  in8 _ := mret 0; out8 _ _ := mret tt; allocVec := mret 33; deallocVec _ := mret tt; routeInterrupt _ := mret 0;
  routeIrqLine _ _ := mret 0; unrouteInterrupt _ := mret tt; handleKeyEvent _ _ := mret 0; hlt := mret tt |}.
Lemma silent_wait : i8042ReadWait tt = Done (- EIO, tt).
Proof. by vm_compute. Qed.
Lemma readId_silent_hangs fuel s : readId fuel s = NoFuel.
Proof.
  revert s. induction fuel as [|fuel IH]; intros [p []]; [done|]. cbn [readId]. unfold mbind at 1, M_bind at 1. unfold lift at 1. cbn [machine].
  rewrite silent_wait. cbn [Z.opp EIO Z.eqb]. exact (IH _).
Qed.
(** A machine whose data port always has a byte. *)
#[local] Instance readyMachine : Ps2Machine bool := {|
  in8 _ := mret 1; out8 _ _ := mret tt; allocVec := mret 33; deallocVec _ := mret tt; routeInterrupt _ := mret 0;
  routeIrqLine _ _ := mret 0; unrouteInterrupt _ := mret tt; handleKeyEvent _ _ := mret 0; hlt := mret tt |}.
Lemma readId_ready_reads_nothing fuel s : readId (S fuel) s = Done (tt, s).
Proof. by destruct s as [p m]. Qed.
