(* ===== verification/Console.v ===== *)
(** * From the keyboard to a reader

    The keyboard of [Ps2] feeds the terminals of [Tty]: the bytes of key strokes
    that come in with the interrupts of the keyboard are read, as lines of
    characters, from the terminal in use. *)

From S2P Require Import Prelude Word Errno Bytes Keys Tty TtySpec Ps2.

(** A key with or without shift, by its index in the table of scan codes. *)
Definition stroke : Type := bool * Z.
Definition strokeChar (k : stroke) : Z := default 0 ((if k.1 then shiftKeymap else keymap) !! Z.to_nat (scanKey k.2)).
Definition types (k : stroke) : Prop := 0 <= k.2 < 264 /\ strokeChar k <> 0.
Definition SHIFT_INDEX : Z := 0x12.
(** Its keys, pressed and released. *)
Definition strokeKeys (k : stroke) : list (Z * bool) :=
  if k.1 then [(SHIFT_INDEX, false); (k.2, false); (k.2, true); (SHIFT_INDEX, true)] else [(k.2, false); (k.2, true)].
Definition strokeBytes (l : list stroke) : list Z := flat_map (fun k => flat_map scanCodes (strokeKeys k)) l.

(** Keys that type a character have no other meaning, and no character of the
    maps is a carriage return or an escape. *)
Definition plainKey (k : stroke) : bool :=
  let code := scanKey k.2 in let c := strokeChar k in
  negb (code =? KEY_LEFTSHIFT) && negb (inRange KEY_F1 KEY_F8 code) && negb (code =? KEY_PAGEUP) && negb (code =? KEY_PAGEDOWN) &&
  negb (code =? KEY_LEFTCTRL) && negb (code =? KEY_SYSRQ) && negb (c =? 13) && negb (c =? 27).
Lemma types_plainKey k : types k -> plainKey k = true.
Proof.
  intros [Hi Hc]. assert (E : forallb (fun b : bool => forallb (fun i => (strokeChar (b, Z.of_nat i) =? 0) || plainKey (b, Z.of_nat i)) (seq 0 264)) [true; false] = true) by by vm_compute.
  rewrite forallb_forall in E. destruct k as [b i]. cbn [fst snd] in *. assert (Hb : In b [true; false]) by (destruct b; cbn; tauto). apply E in Hb.
  rewrite forallb_forall in Hb. specialize (Hb (Z.to_nat i)). rewrite Z2Nat.id in Hb by lia. rewrite (proj2 (Z.eqb_neq _ _) Hc) in Hb.
  apply Hb. apply in_seq. lia.
Qed.

Section console.
Context {P : Type} `{TtyPartsOk P} {D : Type} `{Ps2Machine D}.
(** The machine under the keyboard, with the bytes that wait at its data port. *)
Context (pending : D -> list Z).
Context (data_law : forall d b l, pending d = b :: l -> wp (in8 I8042_PORT_DATA) d (fun r d' => r = b /\ pending d' = l)).
Context (fuel : nat) (ctrlC backspaceStr echoed : Z).
Notation tty := (tty_state (P := P)).

Definition onDevice {A} (m : M D A) : M (D * tty) A := fun s =>
  match m s.1 with Done (a, d) => Done (a, (d, s.2)) | Fault => Fault | NoFuel => NoFuel end.
Definition onTty {A} (m : M tty A) : M (D * tty) A := fun s =>
  match m s.2 with Done (a, t) => Done (a, (s.1, t)) | Fault => Fault | NoFuel => NoFuel end.
(** The machine with the terminals as the consumer of its keys. *)
#[local] Instance consoleMachine : Ps2Machine (D * tty) := {|
  in8 p := onDevice (in8 p); out8 p v := onDevice (out8 p v); allocVec := onDevice allocVec; deallocVec v := onDevice (deallocVec v);
  routeInterrupt v := onDevice (routeInterrupt v); routeIrqLine v i := onDevice (routeIrqLine v i); unrouteInterrupt v := onDevice (unrouteInterrupt v);
  handleKeyEvent c r := onTty (ttyHandleKeyEvent fuel ctrlC backspaceStr echoed c r); hlt := onDevice hlt
|}.
Fixpoint interrupts (n : nat) : M ps2_state unit := match n with O => mret tt | S n => i8042InterruptPort1 fuel;; interrupts n end.
Definition consoleRead (file t buffer bufSize : Z) : M ps2_state (option Z) := lift (onTty (ttyRead file t buffer bufSize)).

(** The keyboard works, its decoder is at [d], and [l] waits at the data port. *)
Definition listening (d : KbDevice) (l : list Z) (ty : tty) (s : ps2_state (P := D * tty)) : Prop :=
  (exists id, port1 s = mkPort (Some d) id true false) /\ pending (machine s).1 = l /\ (machine s).2 = ty.

Lemma interrupts_app n m s (Q : unit -> ps2_state -> Prop) : wp (interrupts n) s (fun _ s' => wp (interrupts m) s' Q) -> wp (interrupts (n + m)) s Q.
Proof.
  revert s. induction n as [|n IH]; intros s Hn; [exact Hn|].
  cbn [interrupts Nat.add] in *. rewrite wp_bind. rewrite wp_bind in Hn.
  eapply wp_mono; [exact Hn|]. intros [] s'. apply IH.
Qed.
(** One interrupt: a byte is decoded, and a key goes to the terminals. *)
Lemma interrupt_spec d b l ty s (Q : unit -> ps2_state -> Prop) : listening d (b :: l) ty s ->
  match kbDecode b d with
  | (Prefix, d') => forall s', listening d' l ty s' -> Q tt s'
  | (Key c r, d') => (r = false -> c <> KEY_SYSRQ) /\
      wp (ttyHandleKeyEvent fuel ctrlC backspaceStr echoed c r) ty (fun _ ty' => forall s', listening d' l ty' s' -> Q tt s')
  end -> wp (i8042InterruptPort1 fuel) s Q.
Proof.
  destruct s as [port [dv ty0]]. intros ((id & Hp) & Hl & Ht) HQ. cbn in Hp, Hl, Ht. subst port ty0.
  unfold i8042InterruptPort1. apply wp_bind, wp_get. cbn [port1 cmdSent connected pdev negb andb]. rewrite bool_decide_true by eauto.
  unfold kbInterrupt. apply wp_bind. pose proof (data_law dv b l Hl) as Hd. unfold wp in Hd |- *. unfold lift, i8042ReadData. cbn [in8 consoleMachine machine]. unfold onDevice. cbn [fst snd].
  destruct (in8 I8042_PORT_DATA dv) as [[r dv']| |]; [|done..]. destruct Hd as [-> Hl'].
  change (wp (s ← get; match pdev (port1 s) with None => fault | Some d => let '(k, d') := kbDecode b d in updPort (set_dev (Some d'));;
    match k with Prefix => mret tt | Key keycode released => if negb released && (keycode =? KEY_SYSRQ) then lift (waitReset fuel);; lift (out8 0x64 0xFE);; lift hlt
      else lift (handleKeyEvent keycode released);; mret tt end end) (mkPs2 (mkPort (Some d) id true false) (dv', ty)) Q).
  apply wp_bind, wp_get. cbn [port1 pdev]. destruct (kbDecode b d) as [k d']. apply wp_bind, wp_modify. destruct k as [|c r].
  - apply wp_ret, HQ. split_and!; [by exists id|done|done].
  - destruct HQ as [Hsys HQ]. replace (negb r && (c =? KEY_SYSRQ)) with false.
    2:{ destruct r; [done|]. by rewrite (proj2 (Z.eqb_neq _ _) (Hsys eq_refl)). }
    apply wp_bind. unfold wp in HQ |- *. unfold lift. cbn [handleKeyEvent consoleMachine machine set_port]. unfold onTty. cbn [fst snd].
    destruct (ttyHandleKeyEvent _ _ _ _ c r ty) as [[r' ty']| |]; [|done..]. apply HQ. split_and!; [by exists id|done|done].
Qed.

(** The events of a sequence of bytes. *)
Fixpoint handleAll (ks : list (Z * bool)) : M tty unit :=
  match ks with [] => mret tt | (c, r) :: ks => ttyHandleKeyEvent fuel ctrlC backspaceStr echoed c r;; handleAll ks end.
Lemma run_bytes l1 : forall d l ty s (Q : unit -> ps2_state -> Prop) ks d', listening d (l1 ++ l) ty s -> kbDecodeAll l1 d = (ks, d') ->
  Forall (fun k => k.2 = false -> k.1 <> KEY_SYSRQ) ks ->
  wp (handleAll ks) ty (fun _ ty' => forall s', listening d' l ty' s' -> Q tt s') -> wp (interrupts (length l1)) s Q.
Proof.
  induction l1 as [|b l1 IH]; intros d l ty s Q ks d' Hs Hks Hsys HQ.
  { injection Hks as <- <-. apply wp_ret. by apply HQ. }
  cbn [kbDecodeAll] in Hks. destruct (kbDecode b d) as [k d1] eqn:Ek. destruct (kbDecodeAll l1 d1) as [ks1 d2] eqn:Eks.
  injection Hks as <- <-. cbn [interrupts length]. apply wp_bind. eapply interrupt_spec; [exact Hs|]. rewrite Ek. destruct k as [|c r].
  - intros s' Hs'. exact (IH _ _ _ _ _ _ _ Hs' Eks Hsys HQ).
  - apply Forall_cons in Hsys as [Hsys1 Hsys]. split; [exact Hsys1|]. cbn [handleAll] in HQ. rewrite wp_bind in HQ.
    eapply wp_mono; [exact HQ|]. intros r' ty' HQ' s' Hs'. exact (IH _ _ _ _ _ _ _ Hs' Eks Hsys HQ').
Qed.
(** The bytes of keys are their events. *)
Lemma run_keys ks : forall led l ty s (Q : unit -> ps2_state -> Prop), Forall is_scan ks -> listening (neutral led) (flat_map scanCodes ks ++ l) ty s ->
  Forall (fun k => k.2 = false -> scanKey k.1 <> KEY_SYSRQ) ks ->
  wp (handleAll (map (fun k => (scanKey k.1, k.2)) ks)) ty (fun _ ty' => forall s', listening (neutral led) l ty' s' -> Q tt s') ->
  wp (interrupts (length (flat_map scanCodes ks))) s Q.
Proof.
  induction ks as [|k ks IH]; intros led l ty s Q Hks Hs Hsys HQ; [by apply wp_ret, HQ|].
  apply Forall_cons in Hks as [Hk Hks]. apply Forall_cons in Hsys as [Hsk Hsys]. cbn [flat_map map] in *. rewrite <- app_assoc in Hs. rewrite length_app.
  apply interrupts_app. eapply run_bytes; [exact Hs|by apply scanCodes_decode|by constructor|]. cbn [handleAll] in HQ |- *.
  rewrite wp_bind in HQ. apply wp_bind. eapply wp_mono; [exact HQ|]. intros r' ty' HQ'. apply wp_ret. intros s' Hs'. by eapply IH.
Qed.

(** ** Strokes *)
Section strokes.
Context (t : Z) (Hfuel : (4 <= fuel)%nat) (Hechoed : echoed < backspaceStr \/ backspaceStr + 7 <= echoed).

(** Terminal [t] is in use and no key is held. *)
Definition in_use (ty : tty) : Prop := currentTty ty = t /\ shiftPressed ty = false /\ ctrlPressed ty = false.
Lemma console_shift b s Q L : console t backspaceStr s Q L -> console t backspaceStr (set_shift b s) Q L.
Proof. intros []. by split. Qed.

Lemma handle_char k ty Q L : types k -> currentTty ty = t -> shiftPressed ty = k.1 -> ctrlPressed ty = false ->
  console t backspaceStr ty Q L -> Z.of_nat (length Q) + Z.of_nat (length L) < 4095 -> row t ty < 255 ->
  wp (ttyHandleKeyEvent fuel ctrlC backspaceStr echoed (scanKey k.2) false) ty (fun _ ty' =>
    uncurry (console t backspaceStr ty') (discipline (strokeChar k) (Q, L)) /\ row t ty' <= row t ty + 1 /\ kept ty ty' /\ screenOf t ty ty' (echo1 (strokeChar k) L)).
Proof.
  intros Hk Hcur Hshift Hctrl Hcon Hlen Hrow. pose proof (types_plainKey k Hk) as Hp. unfold plainKey in Hp. rewrite !andb_true_iff, !negb_true_iff in Hp.
  destruct Hp as (((((((K1 & K2) & K3) & K4) & K5) & K6) & K7) & K8). unfold ttyHandleKeyEvent. rewrite K1, K2, K3, K4, K5.
  apply wp_bind, wp_get. rewrite Hctrl, Hcur, Hshift. apply wp_bind, wp_deref.
  destruct Hk as [_ Hc]. destruct ((if k.1 then shiftKeymap else keymap) !! Z.to_nat (scanKey k.2)) as [c|] eqn:E; unfold strokeChar in *; rewrite E in *; [|done].
  change (default 0 (Some c)) with c in *. exists c. split; [done|]. rewrite (proj2 (Z.eqb_neq _ _) Hc). rewrite Z.eqb_neq in K7, K8.
  wp_use type_spec; [done|done|done|done|by split|done|]. by intros r ty' (_ & ?).
Qed.
Lemma handle_release k ty (Q : Z -> tty -> Prop) : types k -> Q 0 ty -> wp (ttyHandleKeyEvent fuel ctrlC backspaceStr echoed (scanKey k.2) true) ty Q.
Proof.
  intros Hk HQ. pose proof (types_plainKey k Hk) as Hp. unfold plainKey in Hp. rewrite !andb_true_iff, !negb_true_iff in Hp.
  destruct Hp as (((((((K1 & K2) & K3) & K4) & K5) & K6) & K7) & K8). unfold ttyHandleKeyEvent. rewrite K1, K5. by apply wp_bind, wp_ret, wp_ret.
Qed.
Lemma handle_shift b ty (Q : Z -> tty -> Prop) : Q 0 (set_shift b ty) -> wp (ttyHandleKeyEvent fuel ctrlC backspaceStr echoed (scanKey SHIFT_INDEX) (negb b)) ty Q.
Proof. intros HQ. destruct b; apply wp_bind, wp_modify, wp_ret, HQ. Qed.

Definition stroked s s' : Prop := forall a, is_Some (memory (P := P) s !! a) -> is_Some (memory (P := P) s' !! a).
Lemma handle_stroke k ty Q L : types k -> in_use ty -> console t backspaceStr ty Q L -> Z.of_nat (length Q) + Z.of_nat (length L) < 4095 -> row t ty < 255 ->
  wp (handleAll (map (fun k => (scanKey k.1, k.2)) (strokeKeys k))) ty (fun _ ty' => in_use ty' /\
    uncurry (console t backspaceStr ty') (discipline (strokeChar k) (Q, L)) /\ row t ty' <= row t ty + 1 /\ stroked ty ty' /\ screenOf t ty ty' (echo1 (strokeChar k) L)).
Proof.
  intros Hk (Hcur & Hsh & Hct) Hcon Hlen Hrow. unfold strokeKeys. destruct k as [b i]. cbn [fst snd]. destruct b; cbn [map handleAll fst snd].
  - apply wp_bind, (handle_shift true), wp_bind. wp_use (handle_char (true, i) (set_shift true ty) Q L); [done|done|done|done|by apply console_shift|done|done|].
    intros _ ty' (Hcon' & Hrow' & (Hm & K1 & K2 & K3) & Hecho). apply wp_bind, (handle_release (true, i)); [done|]. apply wp_bind, (handle_shift false), wp_ret.
    destruct (discipline (strokeChar (true, i)) (Q, L)). split; [split_and!; [exact (eq_trans K1 Hcur)|done|exact (eq_trans K3 Hct)]|]. split_and!; [by apply console_shift|exact Hrow'|exact Hm|exact Hecho].
  - apply wp_bind. wp_use (handle_char (false, i) ty Q L); [done|done|done|done|done|done|done|].
    intros _ ty' (Hcon' & Hrow' & (Hm & K1 & K2 & K3) & Hecho). apply wp_bind, (handle_release (false, i)); [done|]. apply wp_ret.
    split; [split_and!; congruence|by split_and!].
Qed.

Definition keysOf (l : list stroke) : list (Z * bool) := flat_map strokeKeys l.
Lemma handleAll_app k1 k2 ty (Q : unit -> tty -> Prop) : wp (handleAll k1) ty (fun _ ty' => wp (handleAll k2) ty' Q) -> wp (handleAll (k1 ++ k2)) ty Q.
Proof.
  revert ty. induction k1 as [|[c r] k1 IH]; intros ty Hw; [exact Hw|]. cbn [handleAll app] in *. rewrite wp_bind in Hw |- *.
  eapply wp_mono; [exact Hw|]. intros r' ty'. apply IH.
Qed.
Lemma handle_strokes l : forall ty Q L, Forall types l -> in_use ty -> console t backspaceStr ty Q L ->
  Z.of_nat (length Q) + Z.of_nat (length L) + Z.of_nat (length l) <= 4095 -> row t ty + Z.of_nat (length l) <= 255 ->
  wp (handleAll (map (fun k => (scanKey k.1, k.2)) (keysOf l))) ty (fun _ ty' =>
    uncurry (console t backspaceStr ty') (lineOf (map strokeChar l) (Q, L)) /\ stroked ty ty' /\ screenOf t ty ty' (echoes (map strokeChar l) (Q, L))).
Proof.
  induction l as [|k l IH]; intros ty Q L Hl Hty Hcon Hlen Hrow;
    [apply wp_ret; split_and!; [done|by intros ?|destruct (co_screen _ _ _ _ _ Hcon) as (x & Hx & _); by exists x, x]|].
  apply Forall_cons in Hl as [Hk Hl]. cbn [length] in *. unfold keysOf. cbn [flat_map]. rewrite map_app. apply handleAll_app.
  wp_use (handle_stroke k ty Q L); [done|done|done|lia|lia|]. intros _ ty1 (Hty1 & Hcon1 & Hrow1 & Hm1 & He1).
  pose proof (discipline_length (strokeChar k) Q L) as Hd. unfold lineOf. cbn [map foldl flip].
  destruct (discipline (strokeChar k) (Q, L)) as [Q1 L1] eqn:ED. cbn in Hd.
  wp_use (IH ty1 Q1 L1); [done|done|done|lia|lia|]. intros _ ty2 (Hcon2 & Hm2 & He2). split_and!; [exact Hcon2|intros a Ha; auto|].
  eapply screenOf_cons; [exact He1|by rewrite ED].
Qed.
Lemma keysOf_scan l : Forall types l -> Forall is_scan (keysOf l) /\ Forall (fun k => k.2 = false -> scanKey k.1 <> KEY_SYSRQ) (keysOf l).
Proof.
  intros Hl. assert (Hk : forall k, types k -> Forall (fun x => is_scan x /\ (x.2 = false -> scanKey x.1 <> KEY_SYSRQ)) (strokeKeys k)).
  { intros k Hk. pose proof (types_plainKey k Hk) as Hp. unfold plainKey in Hp. rewrite !andb_true_iff, !negb_true_iff, !Z.eqb_neq in Hp.
    assert (Hs : scanKey SHIFT_INDEX <> KEY_SYSRQ) by done. destruct k as [[] i]; destruct Hk as [Hi _]; cbn [fst snd] in *; repeat constructor; unfold is_scan, SHIFT_INDEX in *; cbn [fst snd] in *; try lia; try tauto; done. }
  induction Hl as [|k l Hk1 Hl [IH1 IH2]]; [by split|]. unfold keysOf. cbn [flat_map]. specialize (Hk k Hk1). apply Forall_and in Hk as [Hk2 Hk3].
  split; by apply Forall_app.
Qed.

(** C10: Key strokes reach the reader and the screen: the bytes that the keyboard
    sends for a sequence of keys, each with or without shift, become characters
    of the terminal in use, which are echoed one after the other on its screen
    (a backspace erases, a line end breaks the line), and a reader of the
    terminal gets the lines that they form.  What waits to be read, the line and
    the keys fit the ring of 4096 bytes, and the rows do not wrap around. *)
Theorem keys_reach_reader l led file buffer n rest_ ty s Q L : Forall types l -> in_use ty -> console t backspaceStr ty Q L ->
  listening (neutral led) (strokeBytes l ++ rest_) ty s ->
  Z.of_nat (length Q) + Z.of_nat (length L) + Z.of_nat (length l) <= 4095 -> row t ty + Z.of_nat (length l) <= 255 ->
  (lineOf (map strokeChar l) (Q, L)).1 <> [] -> buffer + Z.of_nat n <= backspaceStr \/ backspaceStr + 7 <= buffer ->
  (forall k, (k < n)%nat -> is_Some (memory ty !! (buffer + Z.of_nat k))) ->
  wp (interrupts (length (strokeBytes l));; consoleRead file t buffer (Z.of_nat n)) s (fun r s' =>
    let Q' := (lineOf (map strokeChar l) (Q, L)).1 in r = Some (Z.of_nat (Nat.min n (length Q'))) /\
    text_at (memory (machine s').2) buffer (take n Q') /\ pending (machine s').1 = rest_ /\
    exists x x', screens ty !! Z.to_nat t = Some x /\ screens (machine s').2 !! Z.to_nat t = Some x' /\ echoes (map strokeChar l) (Q, L) x x').
Proof.
  intros Hl Hty Hcon Hs Hlen Hrow HQ Hapart Hmem. destruct (keysOf_scan l Hl) as [Hscan Hsys].
  assert (Eb : strokeBytes l = flat_map scanCodes (keysOf l)).
  { clear. induction l as [|k l IH]; [done|]. unfold strokeBytes, keysOf in *. cbn [flat_map]. by rewrite flat_map_app, IH. }
  rewrite Eb in *. apply wp_bind. eapply run_keys; [exact Hscan|exact Hs|exact Hsys|].
  wp_use handle_strokes; [exact Hl|exact Hty|exact Hcon|done|done|]. intros _ ty' (Hcon' & Hm & x & x' & Hx & Hx' & He) s' ((id & Hp) & Hpend & Hty').
  destruct (lineOf (map strokeChar l) (Q, L)) as [Q' L']. cbn [fst uncurry] in *. destruct s' as [port [dv ty0]]. cbn in Hp, Hpend, Hty'. subst ty0.
  pose proof (ttyRead_spec t backspaceStr file buffer n ty' Q' L' Hcon' HQ Hapart) as Hr. unfold consoleRead, lift, onTty, wp in *. cbn [machine fst snd].
  destruct (ttyRead file t buffer (Z.of_nat n) ty') as [[r ty2]| |]; [|by apply Hr; auto..].
  destruct Hr as (-> & Hms & _ & Hscr); [auto|]. cbn [machine fst snd]. rewrite length_take, Hms, Hscr. split_and!; [done|apply store_text|done|by exists x, x'].
Qed.
End strokes.
End console.


(** ** A keyboard in front of a small screen: a queue of bytes at the data port *)
#[local] Instance queueMachine : Ps2Machine (list Z) := {|
  in8 p d := if p =? I8042_PORT_DATA then match d with b :: l => Done (b, l) | [] => Done (0, []) end else Done (if d is [] then 0 else 1, d);
  out8 _ _ := mret tt; allocVec := mret 33; deallocVec _ := mret tt; routeInterrupt _ := mret 0;
  routeIrqLine _ _ := mret 0; unrouteInterrupt _ := mret tt; handleKeyEvent _ _ := mret 0; hlt := mret tt |}.
Lemma queue_data (d : list Z) b l : d = b :: l -> wp (in8 I8042_PORT_DATA) d (fun r d' => r = b /\ d' = l).
Proof. by intros ->. Qed.
(** h, I and the enter key. *)
Definition demoStrokes : list stroke := [(false, 0x33); (true, 0x43); (false, 0x5A)].
Example demo_line : lineOf (map strokeChar demoStrokes) ([], []) = ([104; 73; 10], []).
Proof. by vm_compute. Qed.

Lemma keys_reach_reader_witness :
  wp (interrupts 4 500 100 200 (length (strokeBytes demoStrokes));; consoleRead 1 0 300 (Z.of_nat 8))
    (mkPs2 (mkPort (Some (neutral 0)) 0 true false) (strokeBytes demoStrokes ++ [0x1C], smallTty 2 3)) (fun r s' =>
    let Q' := (lineOf (map strokeChar demoStrokes) ([], [])).1 in r = Some (Z.of_nat (Nat.min 8 (length Q'))) /\
    text_at (memory (machine s').2) 300 (take 8 Q') /\ (machine s').1 = [0x1C] /\
    exists x x', screens (smallTty 2 3) !! 0%nat = Some x /\ screens (machine s').2 !! 0%nat = Some x' /\ echoes (map strokeChar demoStrokes) ([], []) x x').
Proof.
  apply (keys_reach_reader id queue_data 4 500 100 200 0 ltac:(lia) ltac:(lia) demoStrokes 0 1 300 8 [0x1C] (smallTty 2 3) _ [] []).
  - repeat constructor; done.
  - done.
  - exact smallConsole.
  - split_and!; [by exists 0|done|done].
  - by vm_compute.
  - by vm_compute.
  - by vm_compute.
  - by right.
  - intros [|[|[|[|[|[|[|[|k]]]]]]]] Hk; [eexists; vm_compute; reflexivity..|lia].
Defined.
(** A key whose code is the number of codes: the maps have no place for it. *)
Example select_key_faults : ttyHandleKeyEvent 4 500 100 200 (scanKey 0xD0) false (smallTty 2 3) = Fault.
Proof. by vm_compute. Qed.
